(* ===== verification/_CoqProject ===== *)
-Q . S2P
Prelude.v
EventLog.v
EventBus.v
ForkLedger.v
TodoChecklist.v
ApprovalPolicy.v
ApprovalStore.v
ApprovalParking.v
ApprovalLifecycle.v
ApprovalDelivery.v
Wire.v
ApprovalChannel.v
ApprovalHandoff.v
LaunchNonceStore.v
UsageOutbox.v
UsageShipper.v
TaskNotifications.v
TaskRegistry.v
TaskTree.v
TaskDelivery.v
Admission.v
CellBridge.v
CellAuthority.v
SessionLog.v
SessionStorage.v
SessionQueries.v
SessionDurability.v
Calendar.v
Schedules.v
ScheduleTimes.v
ScheduleRunner.v
ScheduleSafety.v
ScheduleRoutes.v
