(* ===== verification/Prelude.v ===== *)
(** * A verification of the agent gateway's durable and streaming core

    ** The program

    [src/agent_gateway] is an HTTP/SSE service around a model and tool loop. A
    chat turn appends its events to an [EventLog]; readers attach to it by
    sequence number and a per-user [UserEventBus] fans the same entries out to
    live subscribers ([event_log.py]). A tool call that needs consent becomes an
    [ApprovalRequest] shaped by a policy decision ([approval_policy.py]) and
    stored with its votes, executable binding and reusable grants in SQLite
    ([approval_store.py]); the dispatcher executes a call only through a claim
    on its binding. Background forks reserve their cost and leave a completion
    receipt in a second SQLite file ([fork_ledger.py]), so that a restarted
    process settles and delivers each exactly once. An autonomous child process
    consumes its launch nonce in a third file before it acts
    ([launch_nonce_store.py]); the decisions it waits for go through an outbox
    of the approval store and a private socket ([autonomous_approval_channel.py],
    [control_plane/autonomous_approval_delivery.py] and [_drainer.py]). The root agent keeps a
    working checklist ([todo_checklist.py]) that the analyst may edit between
    turns and that is recovered from the session journal. Commercial usage
    leaves evidence in another SQLite outbox that a background shipper delivers
    ([usage_outbox.py], [usage_shipper.py]). Every job runs under a context that
    admission narrowed from its parent's ([admission.py]); background jobs live
    in a tree of task registries whose settlements reach the model as queued
    notifications ([task_registry.py], [runner_notifications.py]). A cell of
    [code_execute] calls tools of the session through frames that the host
    answers under the grant of the turn ([code_execution/_frame_reader.py]).
    What an agent session did is kept in an append-only log of JSON lines that
    is rotated, repaired and queried ([agent_session_log.py]). Users schedule
    autonomous runs; a poller claims the due ones and starts them with the
    authority they were armed with ([control_plane/schedules.py]).

    ** Files

    - [Prelude]: Python text and JSON values, the exception monads [outcome] and
      [SE], transactions, tactics and generic lemmas.
    - [EventLog]: [class EventLog]: append, close, replay, the [iter_from]
      generator as a resumable reader.
    - [EventBus]: [_Subscriber], [EventSubscription], [UserEventBus]: a heap of
      shared subscriber objects, publishing with back-pressure, terminal
      entries, deferred clean-up.
    - [ForkLedger]: receipts, admissions, the clock watermark, crash recovery and
      the schema migration of [ForkLedger], over tables with their CHECK
      constraints.
    - [TodoChecklist]: all of [todo_checklist.py].
    - [ApprovalPolicy]: the request record and its validation, the shaping of
      decisions, executability and reuse.
    - [ApprovalStore]: requests, votes, state transitions, cancellation and
      abort, executable bindings, persistent grants and fences, delegations, as
      transactions of [SQLiteApprovalStore]. Uses [ApprovalPolicy].
    - [ApprovalParking]: policy generations, root turns, parking of a binding
      and reissue of a parked approval, on the same tables.
    - [ApprovalLifecycle]: the steps of both, the store's invariant and the
      theorems about it.
    - [ApprovalDelivery]: the outbox that carries a decision to an autonomous
      run, as transactions beside those of [ApprovalStore], with the audit log.
    - [Wire]: UTF-8 and canonical JSON of flat objects, and their reader.
    - [ApprovalChannel]: [autonomous_approval_channel.py]: frames, partial reads
      and writes, the two endpoints. Uses [Wire].
    - [ApprovalHandoff]: what joins the outbox, the channel and the registry of
      runs: delivery of one row, acknowledgement, the drainer.
    - [LaunchNonceStore]: facts, wire codec and schema of
      [launch_nonce_store.py], and [consume_launch_nonce] with what other
      processes do between its commit and its read-back.
    - [UsageOutbox], [UsageShipper]: the evidence outbox with its leases,
      budgets and report chains, and the shipper's delivery rounds over it.
    - [TaskNotifications]: the bounded payload snapshot, the rendering of a
      reminder and the notification queue with its overflow markers.
    - [TaskRegistry], [TaskTree], [TaskDelivery]: the operations of
      [TaskRegistry] on a heap of registries, the tree walks over them, and the
      listener that turns settlements into notifications. Use
      [TaskNotifications].
    - [Admission]: [admission.py] with approval routes, exact roles and the
      environment of a child process; records root turns through
      [ApprovalParking].
    - [CellBridge], [CellAuthority]: the frame codec, the reader and every
      request of a code cell as a process over shared state; the concurrent host
      and its theorems.
    - [SessionLog]: [agent_session_log.py] with its records, cache, rotation and
      sidecars: the disk, its effects with the faults that strike them, append,
      terminal pair, rotation, repair, queries and the strict scan.
      [SessionStorage] says what the disk holds and what repair does to it,
      [SessionQueries] what a query returns, [SessionDurability] what survives.
    - [Calendar]: Python's dates, datetimes, their text, and time zones.
    - [Schedules], [ScheduleRunner], [ScheduleRoutes]: requests, next runs and the
      store of [control_plane/schedules.py], the firing of records with its
      interleavings, and the routes. [ScheduleTimes] says when a schedule runs,
      [ScheduleSafety] what its store and its fires promise. Use [Calendar] and
      the roles of [Admission].

    Each file opens with how its state and operations correspond to the source.
    A Python object is a record; a method is a function on it in the monad [SE],
    which keeps the writes made before a raise; a method body between [BEGIN]
    and [COMMIT] is a [transact], which does not. Suspension points of
    coroutines separate functions, so interleavings are sequences of steps.
    Times and versions are unbounded integers as in Python; where SQLite's
    64-bit range matters the check is written out. Code outside the
    repository, and conversions that are not worth modelling ([str.lower],
    [json.dumps], SHA-256, host callbacks), are fields of a class or record that
    the operations take; the witnesses instantiate them.

    ** Theorems

    - Streams. A reader of [iter_from] sees every entry after its position once
      and in order, whatever is appended meanwhile; a log that continues another
      keeps one sequence space; a closed log is frozen and its readers end. On
      the bus a subscriber's entries are consecutive except where a drop is
      announced with its range, unless its run, unnumbered so far, is back-filled
      behind it; queues stay within the bound; one terminal entry
      is published; publishing never disturbs another user; a subscription that
      stops at the terminal entry delivers it and ends.
    - Fork ledger. Every transaction keeps the tables valid or changes nothing;
      admissions only move from reserved to started to settled or abandoned;
      reported and settled day totals are exact to the micro-dollar; claims of
      receipts are exclusive and an acknowledged receipt is never delivered
      again; start-up recovery treats each orphan exactly as its journal says;
      a clock that moved backwards is refused; day windows, amounts and the
      version-1 migration lose nothing.
    - Checklist. Any interleaving keeps it well formed; a model operation cannot
      overwrite an analyst edit it has not seen; folding the journal gives back
      the live value; nested skills keep outer work; settling spares settled
      items.
    - Approvals. Decisions never widen reuse. The store's methods refine
      sequences of atomic effects ([store_effect]) and keep it well formed; an
      approved call is executed at most once and its recorded result is what
      every later claim replays; a parked call has one authority; rows only
      move forward; votes, cancellations, fences, grants and delegations behave
      as their contracts say.
    - Delivery of decisions. A decision and its outbox row are stored together
      or not at all; rows only move forward; a delivery is published only after
      its audit entries were emitted, and written for the tool classes whose
      failed writes the emitter does not swallow, and never after a cancellation
      fence. A
      decision survives the socket whatever pieces it is cut into; the child
      takes what the parent sent, each decision once and in order, and never
      rejects it. Publication keeps channel and outbox in agreement, one drain
      attempts every pending row once and ends, an acknowledgement is accepted
      only for the decision that was sent. Two theorems state where the code
      falls short: runs launched without a channel, whose decisions are sent but
      never acknowledged, and failures without a message.
    - Launch nonces. A nonce is consumed at most once although expired rows are
      swept, because the stored clock never moves back; every call either
      changes nothing or commits exactly its row; records survive the wire; the
      file stays valid.
    - Usage evidence. Enqueueing is atomic and idempotent and evidence is never
      changed; reports form linear chains and ship in the order of their
      revisions; a lease takes the shippable ones of the first due rows, in
      order, and only its holder finishes a row; a delivery round ends
      with its whole batch settled and every outcome justified by an answer. One
      theorem states that a blank rejection reason stops delivery.
    - Background tasks. The payload preflight accepts exactly the finite trees
      within the budget; no child text adds markup to a reminder; no pushed
      notification is lost, overflow is counted and sampled. Whatever the runner
      itself writes to entries, identities stay, generations and stop requests
      only rise, and the registry never changes a settled task; admission reserves
      one entry or says why not; results that must be retrieved are not evicted;
      the roster is exactly the tree and keeps live jobs; what is marked queued is
      in a queue, but for entries whose notification could not be made or that two
      registries share.
    - Admission. A spawn is refused exactly for the first violated rule; whatever
      a tree of jobs does, authority (through the names under which tools are
      exposed and the door to further spawns), tenant, research file, handles and
      approval route never exceed those of its root; messages and reads add only
      published outputs; root turns are recorded with their policy generation.
    - Code cells. However handlers interleave, a dispatch in flight answers a
      frame with the live token of its cell for an operation that was granted
      and callable ([run_agent] needs only the grant), and is on the ledger first; ledgers are gapless and only
      grow, budgets are bounded and fail for good; a closed cell stays revoked;
      sources keep their settled identity and derived rows cite issued ones.
    - Session log. The log refines a list of entries: whatever call fails or dies
      at whatever byte (in a terminal pair: before it takes effect), and whatever
      happens to sidecars and manifest, the next
      opener reads a gapless sequence with every acknowledged entry and at most a
      prefix of an unacknowledged call. Pages of a query are its matches, each
      once, whatever the offset cache holds; a stored completion is not appended
      again; the reverse scan is exact for any chunk size. One theorem states
      where the code falls short: a terminal pair rolled back after its manifest
      was published leaves the manifest two sequences ahead.
    - Schedules. The next run is always found and is the first of the cadence
      after the reference; the store stays well formed with unique names, whatever
      saves fail; a claim excludes other polls for fifteen minutes unless its own
      or a run-now's result or a deletion ends it; a run is
      started as owner only with an owner's stored and live role, never once an
      invite armed the schedule; a damaged file is left alone and skipped; routes
      reach only the user's own store, show the operator's schedules to owners
      only, and answer a run-now with the dispatch response of the user's own run.
      Three theorems state where the code falls short: claims that overlap,
      the hour a zone repeats, and an owner that stops the poll of all users.

    Every property with hypotheses has a witness that applies it to a concrete
    run.

    ** Bounds and fuel

    Fuel is in [utf8_decode] and [digits_fuel] (the length of the literal, the
    binary size of the number), in [parse_fields] (the length of the text: each
    field takes a character) and in [drain_loop] ([drain_fuel]: one round more
    than the high water, since each round passes a sequence); the round-trip
    and drain theorems show that each is enough. [deliver_rows] has one more
    than the length of its batch, [preflight_fuel] one more than the byte
    budget, since every visited value costs a byte, and [tree_fuel] one more
    than the registries of the heap; the theorems about the rounds, the preflight
    and the roster show that they suffice. [reverse_scan] and [tail_line_start]
    have one more than the length of the file, since each chunk is not empty;
    [reverse_scan_exact] and the repair lemmas show that it suffices. The loops
    over 3 days, 15 days and 24 months are the program's own; [next_run_exact]
    shows that they find a day. Datetimes have Python's range.
    Loops that draw fresh random ids take the draws as a list and say when it
    is used up. Nothing else is bounded.

    ** Not modelled

    Network, HTTP routes, providers, MCP servers, sub-processes and locks;
    the writer behind the audit emitter and notification sending; of [approval_store.py] the prepared
    changes, raw-patch authorizations and the notification outbox (the
    transactions read raw claims and reserved publications as given sets); of
    the delivery of decisions the descriptor transfer, the scheduling of the
    coordinator and the capture of delegated executables; of the bus the timed
    wait of [_next_event]; of usage the first migration, the arithmetic of
    reports, reconciliation and health; of the task registry the rebuilding from
    the durable log and continuing a task (the writes that the runner makes to
    entries are arbitrary functions of the fields it may write); of admission model selection, tool
    resolution and the role policy, which other packages own; of code cells the
    minting of tokens, durations and the sub-process backends; of the session log
    permissions, inode checks, write leases, the inventory of logs and telemetry
    fields; of schedules the timer of the poller, the discovery of files and the view of
    a started run. A transition to a terminal state matches on the approval id
    only, as the source documents, so one terminal decision can replace another;
    the theorems claim only that a terminal request never reopens.

    ** What would come next

    Rebuilding the task registry from the durable log ([load_from_events]), the
    read of a job's subtree, the completion log of skills, the in-memory approval
    waiters, and the timed wait of the bus: each rests on components modelled
    here. The runner loop, the tool dispatcher and the clients of providers and
    tool servers are control flow around external services and have no contract
    of their own to state before those services are specified. *)

From Stdlib Require Import ZArith Lia.
From stdpp Require Export base numbers gmap strings list.

(** ** Python text

    A Python [str] is a sequence of Unicode code points. [u "..."] is the
    literal: it decodes the UTF-8 bytes of a Rocq string literal. *)
Abbreviation str := (list N).

Fixpoint utf8_decode (fuel : nat) (bs : list N) : str :=
  match fuel with
  | O => []
  | S fuel =>
    match bs with
    | [] => []
    | b0 :: rest =>
      if (b0 <? 128)%N then b0 :: utf8_decode fuel rest
      else match rest with
      | b1 :: b2 :: rest3 =>
        if (b0 <? 224)%N
        then ((b0 - 192) * 64 + (b1 - 128))%N :: utf8_decode fuel (b2 :: rest3)
        else ((b0 - 224) * 4096 + (b1 - 128) * 64 + (b2 - 128))%N
             :: utf8_decode fuel rest3
      | [b1] => [((b0 - 192) * 64 + (b1 - 128))%N]
      | [] => [b0]
      end
    end
  end.

Definition u (s : string) : str :=
  let bs := Ascii.N_of_ascii <$> String.list_ascii_of_string s in
  utf8_decode (length bs) bs.
Arguments u s%_string.

(** [str.isspace] for one code point: the Unicode white space of CPython. *)
Definition py_isspace (c : N) : bool :=
  ((9 <=? c) && (c <=? 13))%N || ((28 <=? c) && (c <=? 32))%N
  || (c =? 133)%N || (c =? 160)%N || (c =? 5760)%N
  || ((8192 <=? c) && (c <=? 8202))%N
  || (c =? 8232)%N || (c =? 8233)%N || (c =? 8239)%N || (c =? 8287)%N
  || (c =? 12288)%N.

Fixpoint drop_while (p : N -> bool) (s : str) : str :=
  match s with
  | [] => []
  | c :: s' => if p c then drop_while p s' else s
  end.

Definition lstrip_by (p : N -> bool) (s : str) : str := drop_while p s.
Definition rstrip_by (p : N -> bool) (s : str) : str :=
  reverse (drop_while p (reverse s)).
Definition strip_by (p : N -> bool) (s : str) : str :=
  rstrip_by p (lstrip_by p s).

(** [str.strip()]. *)
Definition py_strip (s : str) : str := strip_by py_isspace s.
Lemma drop_while_head p s c r : drop_while p s = c :: r -> p c = false.
Proof. induction s as [|x s IH]; [done|]. simpl. destruct (p x) eqn:Hx; [done|]. by intros [= <- _]. Qed.
(** A text that ends in a stripped character is not stripped. *)
Lemma strip_not_trailing p s c : p c = true -> s ++ [c] <> strip_by p (s ++ [c]).
Proof.
  intros Hc E. unfold strip_by, rstrip_by in E. apply (f_equal reverse) in E.
  rewrite reverse_involutive, reverse_snoc in E. symmetry in E. apply drop_while_head in E. congruence.
Qed.
(** SQLite's one-argument [trim(X)]: spaces only. *)
Definition sql_trim (s : str) : str := strip_by (fun c => (c =? 32)%N) s.
(** SQLite's built-in [lower(X)]: ASCII letters only. *)
Definition ascii_lower1 (c : N) : N :=
  if ((65 <=? c) && (c <=? 90))%N then (c + 32)%N else c.
Definition sql_lower (s : str) : str := ascii_lower1 <$> s.

(** [[0-9a-f]] *)
Definition is_lower_hex (c : N) : bool := ((48 <=? c) && (c <=? 57))%N || ((97 <=? c) && (c <=? 102))%N.

(** [s.startswith(p)] and [s.endswith(p)]. *)
Fixpoint py_startswith (p s : str) : bool :=
  match p, s with
  | [], _ => true
  | c :: p', d :: s' => (c =? d)%N && py_startswith p' s'
  | _ :: _, [] => false
  end.
Definition py_endswith (p s : str) : bool :=
  py_startswith (reverse p) (reverse s).

(** [p in s]: substring test. *)
Fixpoint py_contains (p s : str) : bool :=
  py_startswith p s ||
  match s with
  | [] => false
  | _ :: s' => py_contains p s'
  end.

(** Decimal rendering of a non-negative and of any integer ([str(int)]). *)
Fixpoint digits_fuel (fuel : nat) (n : N) (acc : str) : str :=
  match fuel with
  | O => acc
  | S fuel =>
    let acc := (48 + n mod 10)%N :: acc in
    if (n <? 10)%N then acc else digits_fuel fuel (n / 10)%N acc
  end.
Definition N_to_str (n : N) : str := digits_fuel (S (N.size_nat n)) n [].
Definition Z_to_str (z : Z) : str :=
  if (z <? 0)%Z then u "-" ++ N_to_str (Z.to_N (- z)) else N_to_str (Z.to_N z).

(** Reading decimal digits. *)
Definition is_digit (c : N) : bool := ((48 <=? c) && (c <=? 57))%N.
Definition digits_val (ds : str) : N := foldl (fun a c => (a * 10 + (c - 48)))%N 0%N ds.

Fixpoint span (p : N -> bool) (s : str) : str * str :=
  match s with
  | c :: s' => if p c then let '(a, b) := span p s' in (c :: a, b) else ([], s)
  | [] => ([], [])
  end.

(** [sep.join(parts)]. *)
Fixpoint py_join (sep : str) (parts : list str) : str :=
  match parts with
  | [] => []
  | [p] => p
  | p :: rest => p ++ sep ++ py_join sep rest
  end.

(** ** JSON-shaped Python values

    What a tool call or a journal event carries. An object keeps its insertion
    order; [dict_get] is [d.get(k)]. *)
#[warnings="-register-all"]
Inductive json : Type :=
| JNull
| JBool (b : bool)
| JInt (z : Z)
| JFloat (num : Z) (den : positive)
| JStr (s : str)
| JList (l : list json)
| JDict (d : list (str * json)).

Fixpoint dict_get (k : str) (d : list (str * json)) : option json :=
  match d with
  | [] => None
  | (k', v) :: d' => if decide (k = k') then Some v else dict_get k d'
  end.

(** [d.get(k)] with Python's [None] for a missing key. *)
Definition py_get (k : str) (d : list (str * json)) : json :=
  default JNull (dict_get k d).

(** [bool(v)]. *)
Definition truthy (v : json) : bool :=
  match v with
  | JNull => false
  | JBool b => b
  | JInt z => negb (z =? 0)%Z
  | JFloat n _ => negb (n =? 0)%Z
  | JStr s => match s with [] => false | _ => true end
  | JList l => match l with [] => false | _ => true end
  | JDict d => match d with [] => false | _ => true end
  end.

(** The value of a number, a bool being 0 or 1. *)
Definition num_value (v : json) : option (Z * positive) :=
  match v with
  | JBool b => Some ((if b then 1 else 0)%Z, 1%positive)
  | JInt z => Some (z, 1%positive)
  | JFloat n d => Some (n, d)
  | _ => None
  end.

(** [a == b]: numbers by value, dicts (with unique keys) in any order. *)
Fixpoint py_eq (a b : json) : bool :=
  match a, b with
  | JNull, JNull => true
  | JStr s, JStr t => bool_decide (s = t)
  | JList l, JList l' =>
    (fix go (l l' : list json) : bool :=
       match l, l' with
       | [], [] => true
       | x :: l, y :: l' => py_eq x y && go l l'
       | _, _ => false
       end) l l'
  | JDict d, JDict d' =>
    Nat.eqb (length d) (length d') &&
    (fix go (d : list (str * json)) : bool :=
       match d with
       | [] => true
       | (k, v) :: d => match dict_get k d' with Some v' => py_eq v v' && go d | None => false end
       end) d
  | _, _ =>
    match num_value a, num_value b with
    | Some (n, d), Some (n', d') => (n * Z.pos d' =? n' * Z.pos d)%Z
    | _, _ => false
    end
  end.

(** ** Exceptions

    [outcome E A] is a call that returns or raises. [SE S E A] threads a
    mutable object of type [S]; the object keeps the writes made before an
    exception, as in Python. *)
Inductive outcome (E A : Type) : Type :=
| Ret (a : A)
| Raise (e : E).
Arguments Ret {E A} a.
Arguments Raise {E A} e.

Definition obind {E A B} (m : outcome E A) (k : A -> outcome E B) : outcome E B :=
  match m with
  | Ret a => k a
  | Raise e => Raise e
  end.

Definition SE (S E A : Type) : Type := S -> S * outcome E A.

Definition se_ret {S E A} (a : A) : SE S E A := fun s => (s, Ret a).
Definition se_raise {S E A} (e : E) : SE S E A := fun s => (s, Raise e).
Definition se_bind {S E A B} (m : SE S E A) (k : A -> SE S E B) : SE S E B :=
  fun s =>
    match m s with
    | (s', Ret a) => k a s'
    | (s', Raise e) => (s', Raise e)
    end.
Definition se_get {S E} : SE S E S := fun s => (s, Ret s).
Definition se_put {S E} (s' : S) : SE S E unit := fun _ => (s', Ret tt).
Definition se_lift {S E A} (o : outcome E A) : SE S E A := fun s => (s, o).

Declare Scope gateway_scope.
Delimit Scope gateway_scope with gateway.
Notation "'let?' x ':=' c 'in' k" := (obind c (fun x => k))
  (at level 10, x pattern, c at level 100, k at level 200) : gateway_scope.
Notation "'let!' x ':=' c 'in' k" := (se_bind c (fun x => k))
  (at level 10, x pattern, c at level 100, k at level 200) : gateway_scope.
#[global] Open Scope gateway_scope.

(** Monadic map over a list, left to right, first exception wins. *)
Fixpoint omap_list {E A B} (f : A -> outcome E B) (l : list A) : outcome E (list B) :=
  match l with
  | [] => Ret []
  | x :: l' =>
    let? y := f x in
    let? ys := omap_list f l' in
    Ret (y :: ys)
  end.

(** [v is None] *)
Definition is_none {A} (v : option A) : bool := match v with None => true | Some _ => false end.

(** Transaction semantics of [BEGIN ... COMMIT / ROLLBACK]: an exception
    restores the state the transaction began with. *)
Definition transact {S E A} (m : SE S E A) : SE S E A :=
  fun s =>
    match m s with
    | (s', Ret a) => (s', Ret a)
    | (_, Raise e) => (s, Raise e)
    end.

(** A [collections.deque(maxlen=n)] append: the oldest element leaves. *)
Definition deque_append {A} (n : nat) (q : list A) (x : A) : list A :=
  let q' := q ++ [x] in drop (length q' - n) q'.

(** ** Automation *)
Create HintDb gateway.

(** Case analysis on the scrutinee of the innermost visible [match]. *)
Ltac destruct_scrutinee t :=
  lazymatch t with
  | context [match ?x with _ => _ end] => destruct_scrutinee x
  | _ => destruct t eqn:?
  end.
Ltac split_match :=
  match goal with
  | |- context [match ?x with _ => _ end] => destruct_scrutinee x
  | H : context [match ?x with _ => _ end] |- _ => destruct_scrutinee x
  end.
Ltac crush_match :=
  repeat (simplify_eq/=; try done; try split_match); simplify_eq/=; try done.

(** Case analysis on the condition of the outermost [if] of the goal. *)
Ltac split_if H := match goal with |- context [if ?b then _ else _] => destruct b eqn:H end.

Ltac bool_prop :=
  repeat match goal with
  | H : _ && _ = true |- _ => apply andb_true_iff in H; destruct H
  | H : _ || _ = false |- _ => apply orb_false_iff in H; destruct H
  | H : negb _ = true |- _ => apply negb_true_iff in H
  | H : negb _ = false |- _ => apply negb_false_iff in H
  | H : bool_decide _ = true |- _ => apply bool_decide_eq_true in H
  | H : bool_decide _ = false |- _ => apply bool_decide_eq_false in H
  end.

(** ** Generic lemmas *)
Section outcomes.
Context {S E A B : Type}.

Lemma obind_ret_inv (m : outcome E A) (k : A -> outcome E B) b :
  obind m k = Ret b -> exists a, m = Ret a /\ k a = Ret b.
Proof. destruct m; simpl; naive_solver. Qed.

Lemma se_bind_inv (m : SE S E A) (k : A -> SE S E B) s s' r :
  se_bind m k s = (s', r) ->
  (exists a s1, m s = (s1, Ret a) /\ k a s1 = (s', r)) \/
  (exists e, m s = (s', Raise e) /\ r = Raise e).
Proof. unfold se_bind. destruct (m s) as [s1 [a|e]]; intros; simplify_eq; eauto 6. Qed.

Lemma se_bind_ret (m : SE S E A) (k : A -> SE S E B) s s' b :
  se_bind m k s = (s', Ret b) -> exists a s1, m s = (s1, Ret a) /\ k a s1 = (s', Ret b).
Proof. intros [(a & s1 & ? & ?)|(e & _ & ?)]%se_bind_inv; [eauto|done]. Qed.

Lemma transact_raise (m : SE S E A) s s' e :
  transact m s = (s', Raise e) -> s' = s.
Proof. unfold transact. intros. crush_match. Qed.

Lemma transact_ret (m : SE S E A) s s' a :
  transact m s = (s', Ret a) <-> m s = (s', Ret a).
Proof. unfold transact. split; intros; crush_match. Qed.

Lemma se_lift_ret (o : outcome E A) (s s' : S) (a : A) :
  se_lift o s = (s', Ret a) -> s' = s /\ o = Ret a.
Proof. intros [= <- ->]. done. Qed.

End outcomes.

(** Decompose a returning run into its steps; [se_case] splits a [match] the run
    is stuck on. *)
Ltac se_core :=
  match goal with
  | H : transact _ _ = (_, Ret _) |- _ => apply (proj1 (transact_ret _ _ _ _)) in H
  | H : se_bind _ _ _ = (_, Ret _) |- _ => apply se_bind_ret in H as (? & ? & ? & H); cbv beta zeta in H
  | H : se_lift _ _ = (_, Ret _) |- _ => apply se_lift_ret in H as [-> H]
  | H : se_get _ = (_, Ret _) |- _ => injection H as <- <-
  | H : se_put _ _ = (_, Ret _) |- _ => injection H as <- <-
  | H : se_ret _ _ = (_, Ret _) |- _ => injection H as <- <-
  | H : se_raise _ _ = (_, Ret _) |- _ => discriminate H
  end.
Ltac se_case :=
  match goal with
  | H : (match ?x with _ => _ end) _ = (_, Ret _) |- _ => destruct x eqn:?
  end.
Ltac se_run := repeat (cbv beta zeta in *; first [se_core | se_case]).

Lemma rtc_invariant {A} (R : relation A) (P : A -> Prop) x y :
  (forall a b, R a b -> P a -> P b) -> rtc R x y -> P x -> P y.
Proof. intros HP. induction 1; eauto. Qed.

Lemma pair_split {A B} (p : A * B) b : p.2 = b -> p = (p.1, b).
Proof. destruct p. by intros <-. Qed.

Lemma Forall_filtered {A} (P Q : A -> Prop) `{!forall x, Decision (Q x)} (l : list A) :
  Forall P l -> Forall P (filter Q l).
Proof. rewrite !Forall_forall. intros HP x [_ Hx]%list_elem_of_filter. auto. Qed.

Section deques.
Context {A : Type}.
Implicit Types (q : list A) (x : A).

Lemma deque_append_length n q x :
  length q <= n -> 0 < n -> length (deque_append n q x) = Nat.min (S (length q)) n.
Proof.
  intros. unfold deque_append. cbv zeta. rewrite length_drop, !length_app.
  cbn [length]. lia.
Qed.

Lemma deque_append_last n q x : 0 < n -> last (deque_append n q x) = Some x.
Proof.
  intros. unfold deque_append. rewrite length_app. simpl.
  rewrite drop_app_le by lia. by rewrite last_snoc.
Qed.

Lemma deque_append_cases n q x :
  length q <= n -> 0 < n ->
  deque_append n q x = q ++ [x] \/
  (length q = n /\ deque_append n q x = tail q ++ [x]).
Proof.
  intros Hle Hn. unfold deque_append. rewrite length_app. simpl.
  destruct (decide (length q = n)) as [Heq|Hne].
  - right. split; [done|]. replace (length q + 1 - n) with 1 by lia.
    destruct q; simpl in *; [lia|]. by rewrite drop_0.
  - left. replace (length q + 1 - n) with 0 by lia. by rewrite drop_0.
Qed.

End deques.

(** A list whose projected numbers are consecutive from [n]. *)
Fixpoint consecutive {A} (f : A -> Z) (n : Z) (l : list A) : Prop :=
  match l with
  | [] => True
  | x :: l' => f x = n /\ consecutive f (n + 1)%Z l'
  end.

Section consecutive_lists.
Context {A : Type} (f : A -> Z).
Implicit Types (l : list A).

Lemma consecutive_app n l1 l2 :
  consecutive f n (l1 ++ l2) <->
  consecutive f n l1 /\ consecutive f (n + Z.of_nat (length l1))%Z l2.
Proof.
  revert n. induction l1 as [|x l1 IH]; intros n; simpl.
  - rewrite Z.add_0_r. tauto.
  - rewrite IH. replace (n + 1 + Z.of_nat (length l1))%Z
      with (n + Z.of_nat (S (length l1)))%Z by lia. tauto.
Qed.

Lemma consecutive_cast n n' l : consecutive f n l -> n = n' -> consecutive f n' l.
Proof. by intros ? <-. Qed.

Lemma consecutive_lookup n l i x :
  consecutive f n l -> l !! i = Some x -> f x = (n + Z.of_nat i)%Z.
Proof.
  revert n i. induction l as [|y l IH]; intros n i Hc Hi; [done|].
  destruct Hc as [Hy Hc]. destruct i as [|i]; simplify_eq/=; [lia|].
  rewrite (IH _ _ Hc Hi). lia.
Qed.

Lemma consecutive_drop n l k :
  consecutive f n l -> consecutive f (n + Z.of_nat k)%Z (drop k l).
Proof.
  revert n k. induction l as [|y l IH]; intros n k Hc; [by rewrite drop_nil|].
  destruct k as [|k]; simpl in *; [by rewrite Z.add_0_r|].
  destruct Hc as [_ Hc]. replace (n + Z.of_nat (S k))%Z
    with (n + 1 + Z.of_nat k)%Z by lia. by apply IH.
Qed.

(** The elements numbered after [k] are a suffix. *)
Lemma consecutive_filter_gt n l k :
  consecutive f n l ->
  filter (fun x => (k < f x)%Z) l = drop (Z.to_nat (k - n + 1)) l.
Proof.
  revert n. induction l as [|y l IH]; intros n Hc; [by rewrite drop_nil|].
  destruct Hc as [Hy Hc]. rewrite filter_cons. rewrite (IH _ Hc).
  case_decide as Hlt.
  - replace (Z.to_nat (k - n + 1)) with 0 by lia.
    replace (Z.to_nat (k - (n + 1) + 1)) with 0 by lia. by rewrite !drop_0.
  - replace (Z.to_nat (k - n + 1)) with (S (Z.to_nat (k - (n + 1) + 1))) by lia.
    done.
Qed.

Lemma consecutive_deque n l k x :
  consecutive f n l -> f x = (n + Z.of_nat (length l))%Z ->
  length l <= k -> 0 < k ->
  exists n', consecutive f n' (deque_append k l x) /\ (n <= n')%Z.
Proof.
  intros Hc Hx Hle Hk.
  assert (Hall : consecutive f n (l ++ [x])) by (apply consecutive_app; simpl; auto).
  exists (n + Z.of_nat (length (l ++ [x]) - k))%Z. split; [|lia].
  by apply consecutive_drop.
Qed.

End consecutive_lists.
#[export] Hint Resolve consecutive_drop : gateway.

(** ** Decimal text *)
Lemma digits_val_acc a ds : foldl (fun a c => (a * 10 + (c - 48)))%N a ds =
  (a * 10 ^ N.of_nat (length ds) + digits_val ds)%N.
Proof.
  unfold digits_val. revert a. induction ds as [|c ds IH]; intros a; cbn [foldl length]; [cbn; lia|].
  rewrite (IH (a * 10 + (c - 48))%N), (IH (0 * 10 + (c - 48))%N).
  replace (N.of_nat (S (length ds))) with (N.succ (N.of_nat (length ds))) by lia.
  rewrite N.pow_succ_r'. lia.
Qed.

Lemma digits_val_app a b :
  digits_val (a ++ b) = (digits_val a * 10 ^ N.of_nat (length b) + digits_val b)%N.
Proof. unfold digits_val at 1. rewrite foldl_app. apply digits_val_acc. Qed.

Lemma digits_fuel_spec fuel : forall n acc,
  (n < 10 ^ N.of_nat fuel)%N -> 0 < fuel ->
  exists ds, digits_fuel fuel n acc = ds ++ acc /\ digits_val ds = n /\
    forallb is_digit ds = true /\ 0 < length ds <= fuel /\ (forall k, (n < 10 ^ N.of_nat k)%N -> 0 < k -> length ds <= k).
Proof.
  induction fuel as [|fuel IH]; intros n acc Hn Hf; [lia|]. cbn [digits_fuel].
  assert (n mod 10 < 10)%N as Hm by (apply N.mod_lt; lia).
  assert (is_digit (48 + n mod 10) = true) as Hd.
  { unfold is_digit. generalize dependent (n mod 10)%N. intros r Hr.
    apply andb_true_iff; split; apply N.leb_le; lia. }
  destruct (n <? 10)%N eqn:E.
  - apply N.ltb_lt in E. exists [(48 + n mod 10)%N]. split; [done|]. rewrite N.mod_small by done.
    split; [unfold digits_val; cbn [foldl]; lia|]. rewrite N.mod_small in Hd by done.
    simpl. rewrite Hd. simpl. repeat split; lia.
  - apply N.ltb_ge in E.
    assert (0 < fuel) as Hf' by (destruct fuel; [simpl in Hn; lia|lia]).
    destruct (IH (n / 10)%N ((48 + n mod 10)%N :: acc)) as (ds & -> & Hv & Hds & Hl & Hk); [|done|].
    { replace (N.of_nat (S fuel)) with (N.succ (N.of_nat fuel)) in Hn by lia.
      rewrite N.pow_succ_r' in Hn. apply N.Div0.div_lt_upper_bound. lia. }
    exists (ds ++ [(48 + n mod 10)%N]). split; [by rewrite <- app_assoc|]. split.
    { rewrite digits_val_app, Hv. unfold digits_val. cbn [foldl length]. change (10 ^ N.of_nat 1)%N with 10%N.
      pose proof (N.div_mod' n 10) as Hdm. generalize dependent (n mod 10)%N.
      generalize dependent (n / 10)%N. lia. }
    rewrite forallb_app, Hds. simpl. rewrite Hd, length_app. simpl. split; [done|]. split; [lia|].
    intros k Hkn Hk0. destruct k as [|[|k]]; [lia|simpl in Hkn; lia|].
    assert (length ds <= S k); [|lia]. apply Hk; [|lia].
    replace (N.of_nat (S (S k))) with (N.succ (N.of_nat (S k))) in Hkn by lia.
    rewrite N.pow_succ_r' in Hkn. apply N.Div0.div_lt_upper_bound. lia.
Qed.

Lemma N_to_str_spec n :
  digits_val (N_to_str n) = n /\ forallb is_digit (N_to_str n) = true /\ N_to_str n <> [] /\
  (forall k, (n < 10 ^ N.of_nat k)%N -> 0 < k -> length (N_to_str n) <= k).
Proof.
  unfold N_to_str. destruct (digits_fuel_spec (S (N.size_nat n)) n []) as (ds & -> & Hv & Hd & Hl & Hk); [|lia|].
  - apply (N.lt_le_trans _ (2 ^ N.of_nat (N.size_nat n))).
    + destruct n as [|p]; [done|]. simpl. clear. induction p as [p IH|p IH|]; simpl; [..|done].
      all: replace (N.of_nat (S (Pos.size_nat p))) with (N.succ (N.of_nat (Pos.size_nat p))) by lia;
        rewrite N.pow_succ_r'; lia.
    + etrans; [apply (N.pow_le_mono_l 2 10); lia|]. apply N.pow_le_mono_r; lia.
  - rewrite app_nil_r. repeat split; try done. intros ->. simpl in Hl. lia.
Qed.

Lemma span_digits ds s :
  forallb is_digit ds = true -> (match s with c :: _ => is_digit c | [] => false end) = false ->
  span is_digit (ds ++ s) = (ds, s).
Proof.
  induction ds as [|d ds IH]; simpl; intros Hd Hs.
  - destruct s as [|c s]; [done|]. simpl. by rewrite Hs.
  - bool_prop. rewrite H. by rewrite (IH H0 Hs).
Qed.
