(* ===== verification/EventLog.v ===== *)
(** * EventLog: the append-only event buffer of a gateway stream

    Models [class EventLog] of [src/agent_gateway/event_log.py]. The object is
    the record [EventLog]; each method is a state transformer on it. Every
    event is deep-copied on the way in and out, so an immutable value is a
    faithful event. The host callbacks [on_event] and [prepare_event] are fields
    of the record, as in the source, and may return or raise. The
    [asyncio.Event] [_updated] is its flag plus the set of coroutines blocked in
    [wait()]; the generator [iter_from] is a resumable [Iter] whose [iter_step]
    runs from one suspension point to the next. *)
From S2P Require Import Prelude.

Module EventLog.

(** An event dictionary: its ["type"] entry (text, or absent) and the rest. *)
Record Event := mkEvent {
  ev_type : option str;
  ev_fields : list (str * json)
}.

(** An exception a callback may raise: an [Exception] subclass, or a
    [BaseException] that [except Exception] does not catch. *)
Inductive exn :=
| PyException (name : str)
| PyBaseException (name : str).

Definition TERMINAL_EVENT_TYPES : list str := [u "stream_complete"; u "error"].

(** [event.get("type") in TERMINAL_EVENT_TYPES] *)
Definition is_terminal (ev : Event) : bool :=
  match ev_type ev with
  | Some t => bool_decide (t ∈ TERMINAL_EVENT_TYPES)
  | None => false
  end.

Record LogEntry := mkEntry {
  seq : Z;
  timestamp : Z;
  event : Event
}.

Inductive OnEventErrorPolicy := ignore | raise.

Record RawToolInput := mkRaw { raw_tool_name : str; raw_tool_input : list (str * json) }.

Record EventLog := mkLog {
  entries : list LogEntry;
  closed : bool;
  has_terminal : bool;
  defer_terminal_close : bool;
  first_seq : Z;
  next_seq : Z;
  version : Z;
  updated : bool;
  waiting : gset nat;
  on_event : option (Event -> str -> outcome exn unit);
  on_event_error : OnEventErrorPolicy;
  prepare_event : option (Event -> outcome exn (option Event));
  session_id : str;
  raw_tool_inputs : gmap str RawToolInput
}.

Definition new (on_ev : option (Event -> str -> outcome exn unit)) (sid : str)
    (defer : bool) (policy : OnEventErrorPolicy)
    (prep : option (Event -> outcome exn (option Event))) (first : Z) : EventLog :=
  {| entries := []; closed := false; has_terminal := false;
     defer_terminal_close := defer; first_seq := first; next_seq := first;
     version := 0; updated := false; waiting := ∅; on_event := on_ev;
     on_event_error := policy; prepare_event := prep; session_id := sid;
     raw_tool_inputs := ∅ |}.

(** [self._version += 1; self._updated.set()]: every waiter wakes. *)
Definition bump (l : EventLog) : EventLog :=
  {| entries := entries l; closed := closed l; has_terminal := has_terminal l;
     defer_terminal_close := defer_terminal_close l; first_seq := first_seq l;
     next_seq := next_seq l; version := version l + 1; updated := true;
     waiting := ∅; on_event := on_event l; on_event_error := on_event_error l;
     prepare_event := prepare_event l; session_id := session_id l;
     raw_tool_inputs := raw_tool_inputs l |}.

Definition set_closed (l : EventLog) : EventLog :=
  {| entries := entries l; closed := true; has_terminal := has_terminal l;
     defer_terminal_close := defer_terminal_close l; first_seq := first_seq l;
     next_seq := next_seq l; version := version l; updated := updated l;
     waiting := waiting l; on_event := on_event l;
     on_event_error := on_event_error l; prepare_event := prepare_event l;
     session_id := session_id l; raw_tool_inputs := raw_tool_inputs l |}.

Definition set_has_terminal (l : EventLog) : EventLog :=
  {| entries := entries l; closed := closed l; has_terminal := true;
     defer_terminal_close := defer_terminal_close l; first_seq := first_seq l;
     next_seq := next_seq l; version := version l; updated := updated l;
     waiting := waiting l; on_event := on_event l;
     on_event_error := on_event_error l; prepare_event := prepare_event l;
     session_id := session_id l; raw_tool_inputs := raw_tool_inputs l |}.

(** [self._next_seq += 1; self._entries.append(entry)] *)
Definition push_entry (en : LogEntry) (l : EventLog) : EventLog :=
  {| entries := entries l ++ [en]; closed := closed l;
     has_terminal := has_terminal l;
     defer_terminal_close := defer_terminal_close l; first_seq := first_seq l;
     next_seq := next_seq l + 1; version := version l; updated := updated l;
     waiting := waiting l; on_event := on_event l;
     on_event_error := on_event_error l; prepare_event := prepare_event l;
     session_id := session_id l; raw_tool_inputs := raw_tool_inputs l |}.

Definition set_updated (b : bool) (ws : gset nat) (l : EventLog) : EventLog :=
  {| entries := entries l; closed := closed l; has_terminal := has_terminal l;
     defer_terminal_close := defer_terminal_close l; first_seq := first_seq l;
     next_seq := next_seq l; version := version l; updated := b; waiting := ws;
     on_event := on_event l; on_event_error := on_event_error l;
     prepare_event := prepare_event l; session_id := session_id l;
     raw_tool_inputs := raw_tool_inputs l |}.

Definition set_raw (m : gmap str RawToolInput) (l : EventLog) : EventLog :=
  {| entries := entries l; closed := closed l; has_terminal := has_terminal l;
     defer_terminal_close := defer_terminal_close l; first_seq := first_seq l;
     next_seq := next_seq l; version := version l; updated := updated l;
     waiting := waiting l; on_event := on_event l;
     on_event_error := on_event_error l; prepare_event := prepare_event l;
     session_id := session_id l; raw_tool_inputs := m |}.

Definition prepared (l : EventLog) (ev : Event) : outcome exn Event :=
  match prepare_event l with
  | None => Ret ev
  | Some f =>
    match f ev with
    | Ret (Some ev') => Ret ev'
    | Ret None => Raise (PyException (u "TypeError"))
    | Raise e => Raise e
    end
  end.

(** The tail of [append], after the callback: terminal bookkeeping, version. *)
Definition append_finish (en : LogEntry) (l : EventLog) : EventLog :=
  let l1 :=
    if is_terminal (event en)
    then let l' := set_has_terminal l in
         if defer_terminal_close l then l' else set_closed l'
    else l in
  bump l1.

Definition append (now : Z) (ev : Event) : SE EventLog exn (option LogEntry) :=
  fun l =>
    if closed l then (l, Ret None)
    else match prepared l ev with
    | Raise e => (bump (set_closed l), Raise e)
    | Ret owned =>
      let en := mkEntry (next_seq l) now owned in
      let l1 := push_entry en l in
      match on_event l with
      | None => (append_finish en l1, Ret (Some en))
      | Some f =>
        match f owned (session_id l) with
        | Ret _ => (append_finish en l1, Ret (Some en))
        | Raise (PyException n) =>
          match on_event_error l with
          | raise => (bump (set_closed l1), Raise (PyException n))
          | ignore => (append_finish en l1, Ret (Some en))
          end
        | Raise (PyBaseException n) => (l1, Raise (PyBaseException n))
        end
      end
    end.

Definition close_without_terminal (l : EventLog) : EventLog := bump (set_closed l).

(** [error or "stream closed"] *)
Definition close_reason (error : option str) : str :=
  match error with
  | Some (c :: s) => c :: s
  | _ => u "stream closed"
  end.

Definition error_event (reason : str) : Event :=
  mkEvent (Some (u "error")) [(u "error", JStr reason)].

Definition close (now : Z) (error : option str) : SE EventLog exn unit :=
  fun l =>
    if closed l then (l, Ret tt)
    else if has_terminal l then (close_without_terminal l, Ret tt)
    else match append now (error_event (close_reason error)) l with
    | (l1, Raise e) => (l1, Raise e)
    | (l1, Ret _) =>
      if defer_terminal_close l1
      then (close_without_terminal l1, Ret tt)
      else (l1, Ret tt)
    end.

Definition record_raw_tool_input (tool_call_id tool_name : str)
    (tool_input : list (str * json)) (l : EventLog) : EventLog :=
  match tool_call_id with
  | [] => l
  | _ => set_raw (<[tool_call_id := mkRaw tool_name tool_input]> (raw_tool_inputs l)) l
  end.

(** [completion_read] *)
Record CompletionRead := mkRead {
  cr_closed : bool;
  cr_cursor : Z;
  cr_next_seq : Z;
  cr_terminal : option (Z * Event);
  cr_revision : Z
}.

Definition completion_read (l : EventLog) : CompletionRead :=
  {| cr_closed := closed l;
     cr_cursor := next_seq l - 1;
     cr_next_seq := next_seq l;
     cr_terminal :=
       (fun en => (seq en, event en)) <$>
       head (filter (fun en => is_terminal (event en)) (reverse (entries l)));
     cr_revision := version l |}.

(** The [iter_from] generator: its [index] local and, right after a [yield],
    the entry the terminal test still has to look at. *)
Record Iter := mkIter {
  index : nat;
  just_yielded : option LogEntry;
  finished : bool
}.

Inductive IterOut :=
| Yielded (en : LogEntry)
| Finished
| Blocked.

Definition iter_from (l : EventLog) (after_seq : Z) : Iter :=
  mkIter (Z.to_nat (after_seq - first_seq l + 1)) None false.

(** One resumption of the generator by coroutine [rid]. *)
Definition iter_step (rid : nat) (it : Iter) (l : EventLog) : EventLog * Iter * IterOut :=
  if finished it then (l, it, Finished)
  else
    let stop :=
      match just_yielded it with
      | Some en => is_terminal (event en) && negb (defer_terminal_close l)
      | None => false
      end in
    if stop then (l, mkIter (index it) None true, Finished)
    else match entries l !! index it with
    | Some en => (l, mkIter (S (index it)) (Some en) false, Yielded en)
    | None =>
      if closed l then (l, mkIter (index it) None true, Finished)
      else (set_updated false ({[rid]} ∪ waiting l) l, mkIter (index it) None false, Blocked)
    end.

(** ** The log and one reader as a transition system *)

(** [on_event] lets no [BaseException] escape. *)
Definition contained (l : EventLog) : Prop :=
  forall f ev sid n, on_event l = Some f -> f ev sid <> Raise (PyBaseException n).

Inductive log_step : EventLog -> EventLog -> Prop :=
| step_append now ev l : log_step l (fst (append now ev l))
| step_close now err l : log_step l (fst (close now err l))
| step_close_without l : log_step l (close_without_terminal l)
| step_raw i n a l : log_step l (record_raw_tool_input i n a l).

(** Another reader's step only touches the wake-up event. *)
Inductive sys_step (rid : nat) :
  EventLog * Iter * list LogEntry -> EventLog * Iter * list LogEntry -> Prop :=
| sys_log l l' it ys : log_step l l' -> sys_step rid (l, it, ys) (l', it, ys)
| sys_other rid' it' l l' it'' out it ys :
    rid' <> rid -> iter_step rid' it' l = (l', it'', out) ->
    sys_step rid (l, it, ys) (l', it, ys)
| sys_yield l l' it it' ys en :
    rid ∉ waiting l -> iter_step rid it l = (l', it', Yielded en) ->
    sys_step rid (l, it, ys) (l', it', ys ++ [en])
| sys_quiet l l' it it' ys out :
    rid ∉ waiting l -> iter_step rid it l = (l', it', out) ->
    (forall en, out <> Yielded en) ->
    sys_step rid (l, it, ys) (l', it', ys).

(** Well-formed log: sequence numbers are consecutive from [first_seq]. *)
Definition wf (l : EventLog) : Prop :=
  consecutive seq (first_seq l) (entries l) /\
  next_seq l = (first_seq l + Z.of_nat (length (entries l)))%Z.

(** A non-deferred log keeps a terminal entry last, and is closed once it has
    one. *)
Definition terminal_last (l : EventLog) : Prop :=
  defer_terminal_close l = false ->
  forall i en, entries l !! i = Some en -> is_terminal (event en) = true ->
  S i = length (entries l) /\ closed l = true.

(** ** Lemmas *)

Ltac log_cases :=
  repeat match goal with
  | H : context [append_finish _ _] |- _ => unfold append_finish in H
  | |- context [append_finish _ _] => unfold append_finish
  end; crush_match.

(** What one [append] does to the entries. *)
Lemma append_entries now ev l :
  entries (fst (append now ev l)) = entries l \/
  closed l = false /\
  exists en, seq en = next_seq l /\ entries (fst (append now ev l)) = entries l ++ [en] /\
             next_seq (fst (append now ev l)) = (next_seq l + 1)%Z.
Proof.
  unfold append. destruct (closed l) eqn:?; [by left|].
  destruct (prepared l ev) as [owned|]; [right; split; [done|]|by left].
  exists (mkEntry (next_seq l) now owned). log_cases.
Qed.

(** The fields no operation writes. *)
Definition same_config (l l' : EventLog) : Prop :=
  first_seq l' = first_seq l /\ defer_terminal_close l' = defer_terminal_close l /\
  on_event l' = on_event l.

Lemma append_config now ev l : same_config l (fst (append now ev l)).
Proof. unfold append, same_config. log_cases. Qed.

Lemma append_closed_mono now ev l :
  closed l = true -> fst (append now ev l) = l.
Proof. unfold append. by intros ->. Qed.

Lemma close_closed_mono now err l :
  closed l = true -> fst (close now err l) = l.
Proof. unfold close. by intros ->. Qed.

Lemma append_next now ev l :
  entries (fst (append now ev l)) = entries l ->
  next_seq (fst (append now ev l)) = next_seq l.
Proof.
  unfold append. log_cases; intros Hc;
    apply (f_equal length) in Hc; rewrite length_app in Hc; simpl in Hc; lia.
Qed.

(** [close] is [append] of an error event, up to the closing flags. *)
Lemma close_shape now err l :
  exists l1, (l1 = l \/ l1 = fst (append now (error_event (close_reason err)) l)) /\
    (fst (close now err l) = l1 \/ fst (close now err l) = close_without_terminal l1).
Proof.
  unfold close. destruct (closed l); [eauto|]. destruct (has_terminal l); [eauto|].
  destruct (append _ _ l) as [l1 [?|?]] eqn:Ha; simpl;
    [destruct (defer_terminal_close l1)|]; eauto.
Qed.

Lemma log_step_config l l' : log_step l l' -> same_config l l'.
Proof.
  destruct 1; try (by unfold same_config).
  - apply append_config.
  - destruct (close_shape now err l) as (l1 & [->| ->] & [->| ->]);
      try (by unfold same_config); apply append_config.
  - unfold record_raw_tool_input, same_config. by destruct i.
Qed.

(** Entries only grow, and a closed log is frozen. *)
Lemma log_step_grows l l' :
  log_step l l' ->
  entries l' = entries l \/
  closed l = false /\ exists en, seq en = next_seq l /\ entries l' = entries l ++ [en].
Proof.
  destruct 1; try (by left).
  - destruct (append_entries now ev l) as [?|(? & en & ? & ? & _)]; eauto.
  - destruct (close_shape now err l) as (l1 & [->| ->] & [->| ->]); try (by left);
      destruct (append_entries now (error_event (close_reason err)) l)
        as [?|(? & en & ? & ? & _)]; eauto.
  - unfold record_raw_tool_input. destruct i; by left.
Qed.

Lemma append_wf now ev l : wf l -> wf (fst (append now ev l)).
Proof.
  intros [Hc Hn]. destruct (append_config now ev l) as (Hf & _ & _).
  unfold wf. rewrite Hf.
  destruct (append_entries now ev l) as [He|(_ & en & Hs & He & Hn')].
  - rewrite He, (append_next _ _ _ He). done.
  - rewrite He, Hn', length_app, consecutive_app; simpl. split; [|lia].
    repeat split; auto; lia.
Qed.

Lemma log_step_wf l l' : log_step l l' -> wf l -> wf l'.
Proof.
  destruct 1; intros Hwf; try done.
  - by apply append_wf.
  - destruct (close_shape now err l) as (l1 & [->| ->] & [->| ->]); try done;
      by apply append_wf.
  - unfold record_raw_tool_input. by destruct i.
Qed.
#[export] Hint Resolve append_wf log_step_wf log_step_config : gateway.

Lemma terminal_free l :
  terminal_last l -> defer_terminal_close l = false ->
  closed l = false ->
  forall i en, entries l !! i = Some en -> is_terminal (event en) = false.
Proof.
  intros Ht Hd Hc i en Hi. destruct (is_terminal (event en)) eqn:He; [|done].
  destruct (Ht Hd i en Hi He) as [_ Hcl]. congruence.
Qed.

Lemma append_finish_entries en l : entries (append_finish en l) = entries l.
Proof. log_cases. Qed.

Lemma append_finish_closed en l :
  closed (append_finish en l) =
  closed l || (is_terminal (event en) && negb (defer_terminal_close l)).
Proof. log_cases; by rewrite ?orb_true_r, ?orb_false_r. Qed.

(** A new terminal entry closes a non-deferred log. *)
Lemma append_terminal_closes now ev l en :
  contained l -> closed l = false -> defer_terminal_close l = false ->
  entries (fst (append now ev l)) = entries l ++ [en] ->
  is_terminal (event en) = true -> closed (fst (append now ev l)) = true.
Proof.
  intros Hcont Hc Hd. unfold append. rewrite Hc.
  destruct (prepared l ev) as [owned|]; simpl; [|done].
  destruct (on_event l) as [f|] eqn:Hf;
    [destruct (f owned (session_id l)) as [|[n|n]] eqn:Hcall;
     [| destruct (on_event_error l) |by destruct (Hcont f owned (session_id l) n)] |];
    cbn [fst]; try done; rewrite append_finish_entries, append_finish_closed;
    intros He Ht; apply app_inj_tail in He as [_ <-]; cbn in *;
    by rewrite Hd, Ht, orb_true_r.
Qed.

Lemma append_terminal_last now ev l :
  contained l -> terminal_last l -> terminal_last (fst (append now ev l)).
Proof.
  intros Hcont Ht. destruct (append_config now ev l) as (_ & Hd & _).
  intros Hdf i en Hi Hterm. rewrite Hd in Hdf.
  destruct (closed l) eqn:Hc.
  { rewrite append_closed_mono in * by done. by apply Ht with en. }
  destruct (append_entries now ev l) as [He|(_ & en' & _ & He & _)].
  - rewrite He in Hi. pose proof (terminal_free l Ht Hdf Hc i en Hi). congruence.
  - rewrite He in Hi. apply lookup_app_Some in Hi as [Hi|[Hlen Hi]].
    { pose proof (terminal_free l Ht Hdf Hc i en Hi). congruence. }
    apply list_lookup_singleton_Some in Hi as [Hi ->].
    rewrite He, length_app. simpl. split; [lia|].
    by eapply append_terminal_closes.
Qed.

Lemma log_step_terminal_last l l' :
  log_step l l' -> contained l -> terminal_last l -> terminal_last l'.
Proof.
  destruct 1; intros Hcont Ht.
  - by apply append_terminal_last.
  - destruct (close_shape now err l) as (l1 & [->| ->] & [->| ->]); try done.
    + intros Hd i en Hi He. by destruct (Ht Hd i en Hi He).
    + by apply append_terminal_last.
    + intros Hd i en Hi He.
      by destruct (append_terminal_last now (error_event (close_reason err)) l
        Hcont Ht Hd i en Hi He).
  - intros Hd i en Hi He. by destruct (Ht Hd i en Hi He).
  - unfold record_raw_tool_input. by destruct i.
Qed.

Lemma contained_config l l' : same_config l l' -> contained l -> contained l'.
Proof. intros (_ & _ & Ho) Hc f ev sid n. rewrite Ho. apply Hc. Qed.
#[local] Hint Resolve contained_config log_step_terminal_last : gateway.

(** A log operation either wakes every waiter or leaves what waiters saw. *)
Lemma append_wakes now ev l :
  contained l ->
  waiting (fst (append now ev l)) = ∅ \/ fst (append now ev l) = l.
Proof.
  intros Hcont. unfold append. destruct (closed l); [by right|]. left.
  destruct (prepared l ev) as [owned|]; [|done].
  destruct (on_event l) as [f|] eqn:Hf; [|done].
  destruct (f owned (session_id l)) as [|[n|n]] eqn:Hcall;
    [done| by destruct (on_event_error l) | by destruct (Hcont f owned (session_id l) n)].
Qed.

Lemma log_step_wakes l l' :
  log_step l l' -> contained l ->
  waiting l' = ∅ \/
  waiting l' = waiting l /\ entries l' = entries l /\ closed l' = closed l.
Proof.
  destruct 1; intros Hcont; try (by left).
  - destruct (append_wakes now ev l Hcont) as [?| ->]; auto.
  - destruct (close_shape now err l) as (l1 & Hl1 & [-> | ->]); [|by left].
    destruct Hl1 as [-> | ->]; auto.
    destruct (append_wakes now (error_event (close_reason err)) l Hcont) as [?| ->]; auto.
  - right. unfold record_raw_tool_input. by destruct i.
Qed.

(** The invariant of a reader that started at list position [start]. *)
Record reader_inv (start rid : nat) (l : EventLog) (it : Iter) (ys : list LogEntry) : Prop := {
  ri_contained : contained l;
  ri_terminal : terminal_last l;
  ri_index : index it = start + length ys;
  ri_prefix : ys `prefix_of` drop start (entries l);
  ri_last : forall en, just_yielded it = Some en -> last ys = Some en;
  ri_finished : finished it = true -> closed l = true /\ ys = drop start (entries l);
  ri_waiting : rid ∈ waiting l ->
    entries l !! index it = None /\ closed l = false
}.

Lemma prefix_drop_lookup {A} (k : nat) (ys xs : list A) x :
  ys `prefix_of` drop k xs -> xs !! (k + length ys) = Some x ->
  (ys ++ [x]) `prefix_of` drop k xs.
Proof.
  intros [zs Hz] Hx. rewrite <- lookup_drop, Hz in Hx.
  rewrite lookup_app_r, Nat.sub_diag in Hx by lia.
  destruct zs as [|z zs]; simplify_eq/=. exists zs. by rewrite Hz, <- app_assoc.
Qed.

Lemma prefix_drop_end {A} (k : nat) (ys xs : list A) :
  ys `prefix_of` drop k xs -> xs !! (k + length ys) = None -> ys = drop k xs.
Proof.
  intros [zs Hz] Hx. rewrite <- lookup_drop, Hz in Hx.
  rewrite lookup_app_r, Nat.sub_diag in Hx by lia.
  destruct zs; simplify_eq/=. by rewrite Hz, app_nil_r.
Qed.

(** The entry just yielded is the one before [index]. *)
Lemma reader_last_lookup start rid l it ys en :
  reader_inv start rid l it ys -> just_yielded it = Some en ->
  entries l !! pred (index it) = Some en /\ 0 < length ys.
Proof.
  intros Hi Hj. pose proof (ri_last _ _ _ _ _ Hi _ Hj) as Hl.
  apply last_Some in Hl as [ys' ->].
  destruct (ri_prefix _ _ _ _ _ Hi) as [zs Hz].
  rewrite (ri_index _ _ _ _ _ Hi), length_app. simpl. split; [|lia].
  replace (pred (start + (length ys' + 1))) with (start + length ys') by lia.
  rewrite <- lookup_drop, Hz, <- app_assoc.
  by rewrite lookup_app_r, Nat.sub_diag by lia.
Qed.

Lemma reader_inv_log start rid l l' it ys :
  log_step l l' -> reader_inv start rid l it ys -> reader_inv start rid l' it ys.
Proof.
  intros Hs Hi. destruct Hi as [Hc Ht Hix Hp Hl Hf Hw].
  pose proof (log_step_config _ _ Hs) as Hcfg.
  destruct (log_step_grows _ _ Hs) as [He|(Hopen & en & _ & He)].
  - split; rewrite ?He; eauto with gateway.
    + intros Hfin. destruct (Hf Hfin) as [Hcl ?]. split; [|done].
      destruct Hs; simpl; auto.
      * by rewrite append_closed_mono.
      * by rewrite close_closed_mono.
      * unfold record_raw_tool_input. by destruct i.
    + intros Hin. destruct (log_step_wakes _ _ Hs Hc) as [Hz|(Hz & _ & Hcl)];
        [set_solver|]. rewrite Hcl. apply Hw. by rewrite <- Hz.
  - split; rewrite ?He; eauto with gateway.
    + destruct Hp as [zs Hz]. destruct (decide (start <= length (entries l))).
      * rewrite drop_app_le by done. exists (zs ++ [en]). by rewrite Hz, <- app_assoc.
      * rewrite drop_ge in Hz by lia. symmetry in Hz.
        apply app_nil in Hz as [-> ->]. apply prefix_nil.
    + intros Hfin. destruct (Hf Hfin). congruence.
    + intros Hin. destruct (log_step_wakes _ _ Hs Hc) as [Hz|(Hz & He' & _)];
        [set_solver|]. rewrite He in He'.
      apply (f_equal length) in He'. rewrite length_app in He'. simpl in He'. lia.
Qed.

(** Stopping at a terminal entry leaves nothing unread. *)
Lemma reader_stop start rid l it ys en :
  reader_inv start rid l it ys -> just_yielded it = Some en ->
  is_terminal (event en) && negb (defer_terminal_close l) = true ->
  closed l = true /\ ys = drop start (entries l).
Proof.
  intros Hi Hj Hs. bool_prop.
  destruct (reader_last_lookup _ _ _ _ _ _ Hi Hj) as [Hlk Hpos].
  destruct (ri_terminal _ _ _ _ _ Hi ltac:(done) _ _ Hlk ltac:(done)) as [Hend Hcl].
  split; [done|]. apply prefix_drop_end; [by apply Hi|].
  apply lookup_ge_None. pose proof (ri_index _ _ _ _ _ Hi). lia.
Qed.

Lemma reader_inv_self start rid l l' it it' ys out :
  rid ∉ waiting l -> iter_step rid it l = (l', it', out) ->
  reader_inv start rid l it ys ->
  reader_inv start rid l' it'
    (match out with Yielded en => ys ++ [en] | _ => ys end).
Proof.
  intros Hw Hs Hi. unfold iter_step in Hs.
  destruct (finished it) eqn:Hfin; [simplify_eq; done|].
  destruct (match just_yielded it with Some en => _ | None => false end) eqn:Hstop.
  { simplify_eq. destruct (just_yielded it) as [en|] eqn:Hj; [|done].
    destruct (reader_stop _ _ _ _ _ _ Hi Hj Hstop).
    destruct Hi. split; simpl; auto; done. }
  destruct Hi as [Hc Ht Hix Hp Hl Hf Hwt].
  destruct (entries l !! index it) as [en|] eqn:Hlk; simplify_eq.
  - split; simpl; auto; try done.
    + rewrite length_app. simpl. lia.
    + apply prefix_drop_lookup; [done|]. by rewrite <- Hix.
    + intros ? [= <-]. apply last_snoc.
  - rewrite Hix in Hlk. pose proof (prefix_drop_end _ _ _ Hp Hlk).
    destruct (closed l) eqn:Hcl; simplify_eq; split; simpl; auto; try done.
    intros _. by rewrite Hix.
Qed.

Lemma reader_inv_other start rid rid' l l' it it' it'' ys out :
  rid' <> rid -> iter_step rid' it' l = (l', it'', out) ->
  reader_inv start rid l it ys -> reader_inv start rid l' it ys.
Proof.
  intros Hne Hs Hi. unfold iter_step in Hs. crush_match.
  all: destruct Hi as [Hc Ht Hix Hp Hl Hf Hw]; split; simpl; auto.
  all: intros Hin; apply Hw; set_solver.
Qed.

Lemma sys_step_reader_inv start rid x y :
  sys_step rid x y ->
  reader_inv start rid x.1.1 x.1.2 x.2 -> reader_inv start rid y.1.1 y.1.2 y.2.
Proof.
  destruct 1 as [| |l l' it it' ys en Hw Hs|l l' it it' ys out Hw Hs Hne];
    simpl; intros Hi.
  - by eapply reader_inv_log.
  - by eapply reader_inv_other.
  - exact (reader_inv_self _ _ _ _ _ _ _ _ Hw Hs Hi).
  - pose proof (reader_inv_self _ _ _ _ _ _ _ _ Hw Hs Hi) as H.
    destruct out; [by destruct (Hne en)|done|done].
Qed.

Lemma sys_reader_inv start rid x y :
  rtc (sys_step rid) x y ->
  reader_inv start rid x.1.1 x.1.2 x.2 -> reader_inv start rid y.1.1 y.1.2 y.2.
Proof. induction 1; eauto using sys_step_reader_inv. Qed.

Lemma iter_step_frame rid it l l' it' out :
  iter_step rid it l = (l', it', out) ->
  entries l' = entries l /\ first_seq l' = first_seq l /\ next_seq l' = next_seq l.
Proof. unfold iter_step. intros. crush_match. Qed.

Lemma sys_step_wf rid x y :
  sys_step rid x y -> wf x.1.1 ->
  wf y.1.1 /\ first_seq y.1.1 = first_seq x.1.1.
Proof.
  destruct 1 as [l l' it ys Hs|rid' it' l l' it'' out it ys _ Hs|
                 l l' it it' ys en _ Hs|l l' it it' ys out _ Hs _]; simpl.
  - intros. split; [by eapply log_step_wf|]. by destruct (log_step_config _ _ Hs).
  - destruct (iter_step_frame _ _ _ _ _ _ Hs) as (He & Hf & Hn).
    unfold wf. by rewrite He, Hf, Hn.
  - destruct (iter_step_frame _ _ _ _ _ _ Hs) as (He & Hf & Hn).
    unfold wf. by rewrite He, Hf, Hn.
  - destruct (iter_step_frame _ _ _ _ _ _ Hs) as (He & Hf & Hn).
    unfold wf. by rewrite He, Hf, Hn.
Qed.

Lemma sys_wf rid x y :
  rtc (sys_step rid) x y -> wf x.1.1 ->
  wf y.1.1 /\ first_seq y.1.1 = first_seq x.1.1.
Proof.
  induction 1 as [|x y z Hs _ IH]; [done|]. intros Hwf.
  destruct (sys_step_wf _ _ _ Hs Hwf) as [Hy <-]. by apply IH.
Qed.

Lemma new_wf on_ev sid defer policy prep first :
  wf (new on_ev sid defer policy prep first).
Proof. split; simpl; [done|lia]. Qed.

Lemma log_steps_wf l l' : rtc log_step l l' -> wf l -> wf l' /\ same_config l l'.
Proof.
  induction 1 as [|x y z Hs _ IH]; [done|]. intros Hwf.
  destruct (IH (log_step_wf _ _ Hs Hwf)) as [? Hc].
  split; [done|]. pose proof (log_step_config _ _ Hs). unfold same_config in *.
  naive_solver congruence.
Qed.

Lemma log_steps_terminal l l' :
  rtc log_step l l' -> contained l -> terminal_last l ->
  contained l' /\ terminal_last l'.
Proof.
  induction 1 as [|x y z Hs _ IH]; [done|]. intros Hc Ht.
  apply IH; [|by eapply log_step_terminal_last].
  by eapply contained_config, Hc; apply log_step_config.
Qed.

Lemma log_steps_waiting l l' :
  rtc log_step l l' -> contained l -> waiting l = ∅ -> waiting l' = ∅.
Proof.
  induction 1 as [|x y z Hs _ IH]; [done|]. intros Hc Hw. apply IH.
  - by eapply contained_config, Hc; apply log_step_config.
  - destruct (log_step_wakes _ _ Hs Hc) as [?|(? & _)]; congruence.
Qed.

Lemma log_step_closed l l' :
  log_step l l' -> closed l = true -> closed l' = true /\ entries l' = entries l.
Proof.
  destruct 1; intros Hc; simpl; auto.
  - by rewrite append_closed_mono.
  - by rewrite close_closed_mono.
  - unfold record_raw_tool_input. by destruct i.
Qed.

(** ** Properties *)

(** whatever is appended, closed or recorded on a log, its entries carry
    the consecutive sequence numbers that start at [first_seq], and a successor
    log built with the predecessor's [next_seq] (an approval continuation)
    continues the same sequence space with no gap and no repeat. *)
Theorem sequence_space_continues on_ev sid d pol prep first
    on_ev' sid' d' pol' prep' l l' :
  rtc log_step (new on_ev sid d pol prep first) l ->
  rtc log_step (new on_ev' sid' d' pol' prep' (next_seq l)) l' ->
  consecutive seq first (entries l ++ entries l') /\
  next_seq l' = (first + Z.of_nat (length (entries l ++ entries l')))%Z.
Proof.
  intros H1 H2.
  destruct (log_steps_wf _ _ H1 (new_wf _ _ _ _ _ _)) as [[Hc1 Hn1] [Hf1 _]].
  destruct (log_steps_wf _ _ H2 (new_wf _ _ _ _ _ _)) as [[Hc2 Hn2] [Hf2 _]].
  simpl in *. rewrite Hf1 in *. rewrite Hf2 in *. rewrite length_app. split; [|lia].
  apply consecutive_app. split; [done|]. by rewrite <- Hn1.
Qed.

(** a closed log is frozen: no later operation adds an entry or reopens
    it. *)
Theorem closed_log_is_frozen l l' :
  closed l = true -> rtc log_step l l' -> closed l' = true /\ entries l' = entries l.
Proof.
  intros Hc. induction 1 as [|x y z Hs _ IH]; [done|].
  destruct (log_step_closed _ _ Hs Hc) as [Hy <-]. by apply IH.
Qed.

(** C3: a reader started with [iter_from(after_seq)] on any reachable log, in
    any interleaving with appends, closes and other readers, receives exactly
    the entries numbered after [after_seq], each once and in order: what it has
    received is always a prefix of them, it is all of them when the generator
    returns, and it is all of them whenever the reader is blocked, so no wake-up
    is lost. The host callback must let no [BaseException] escape. *)
Theorem reader_exactly_once on_ev sid d pol prep first rid after_seq l0 l it ys :
  contained (new on_ev sid d pol prep first) ->
  rtc log_step (new on_ev sid d pol prep first) l0 ->
  rtc (sys_step rid) (l0, iter_from l0 after_seq, []) (l, it, ys) ->
  let wanted := filter (fun en => (after_seq < seq en)%Z) (entries l) in
  ys `prefix_of` wanted /\
  (finished it = true -> ys = wanted /\ closed l = true) /\
  (rid ∈ waiting l -> ys = wanted /\ closed l = false).
Proof.
  intros Hcont H0 Hsys wanted.
  destruct (log_steps_wf _ _ H0 (new_wf _ _ _ _ _ _)) as [Hwf0 _].
  destruct (log_steps_terminal _ _ H0 Hcont) as [Hc0 Ht0]; [by intros _ i en|].
  destruct (sys_wf _ _ _ Hsys Hwf0) as [[Hcs _] Hf]. simpl in Hcs, Hf.
  set (start := Z.to_nat (after_seq - first_seq l0 + 1)) in *.
  assert (reader_inv start rid l it ys) as Hi.
  { apply (sys_reader_inv start _ _ _ Hsys). split; simpl; try done.
    - apply prefix_nil.
    - rewrite (log_steps_waiting _ _ H0 Hcont) by done. set_solver. }
  assert (wanted = drop start (entries l)) as ->.
  { unfold wanted. rewrite (consecutive_filter_gt _ _ _ _ Hcs), Hf. done. }
  destruct Hi as [_ _ Hix Hp _ Hfin Hw]. split; [done|]. split; [naive_solver|].
  intros Hin. destruct (Hw Hin) as [Hlk ?]. split; [|done].
  apply prefix_drop_end; [done|]. by rewrite <- Hix.
Qed.

(** The hook [prepare_event] keeps a terminal event terminal. *)
Definition prepare_keeps_terminal (l : EventLog) : Prop :=
  forall g ev ev', prepare_event l = Some g -> g ev = Ret (Some ev') ->
  is_terminal ev = true -> is_terminal ev' = true.

Lemma append_terminal_outcome now ev l :
  contained l -> closed l = false -> prepare_keeps_terminal l -> is_terminal ev = true ->
  match append now ev l with
  | (l', Ret _) => defer_terminal_close l' = true \/ closed l' = true
  | (l', Raise _) => closed l' = true
  end.
Proof.
  intros Hcont Hc Hp Ht. unfold append. rewrite Hc.
  assert (Hpt : forall ev', prepared l ev = Ret ev' -> is_terminal ev' = true).
  { intros ev'. unfold prepared. unfold prepare_keeps_terminal in Hp.
    destruct (prepare_event l) as [g|]; [|by intros [= <-]].
    intros. crush_match. by eapply Hp. }
  destruct (prepared l ev) as [owned|] eqn:Ho; [|done].
  specialize (Hpt owned eq_refl).
  assert (forall en l1, event en = owned -> closed l1 = false ->
    defer_terminal_close (append_finish en l1) = true \/
    closed (append_finish en l1) = true) as Hfin.
  { intros en l1 He _. unfold append_finish. rewrite He, Hpt.
    destruct (defer_terminal_close l1) eqn:Hd; simpl; auto. }
  destruct (on_event l) as [f|] eqn:Hf; [|by apply Hfin].
  destruct (f owned (session_id l)) as [|[n|n]] eqn:Hcall;
    [by apply Hfin| |by destruct (Hcont f owned (session_id l) n)].
  destruct (on_event_error l); [by apply Hfin|done].
Qed.

(** [close] always ends the stream: on every path, a raising hook
    included, the log is closed afterwards. *)
Theorem close_terminates_stream now err l :
  contained l -> prepare_keeps_terminal l -> closed (fst (close now err l)) = true.
Proof.
  intros Hcont Hp. unfold close. destruct (closed l) eqn:Hc; [done|].
  destruct (has_terminal l); [done|].
  pose proof (append_terminal_outcome now (error_event (close_reason err)) l
    Hcont Hc Hp eq_refl) as H.
  destruct (append _ _ l) as [l1 [a|e]]; [|done].
  destruct (defer_terminal_close l1) eqn:Hd; [done|]. by destruct H.
Qed.

(** ** Witnesses *)

Definition demo0 : EventLog := new None [] false ignore None 1.
Definition demo_text : Event := mkEvent (Some (u "text_delta")) [].
Definition demo1 : EventLog := fst (append 10 demo_text demo0).
Definition demo2 : EventLog := fst (close 11 None demo1).

Lemma demo_steps : rtc log_step demo0 demo2.
Proof.
  eapply rtc_l; [apply (step_append 10 demo_text)|].
  eapply rtc_l; [apply (step_close 11 None)|]. apply rtc_refl.
Defined.

Lemma demo_contained : contained demo0.
Proof. by intros f ev sid n. Defined.

Lemma sequence_space_continues_witness :
  consecutive seq 1 (entries demo2 ++ entries (new None [] false ignore None 3)) /\
  length (entries demo2) = 2.
Proof.
  split; [|reflexivity].
  exact (proj1 (sequence_space_continues None [] false ignore None 1 None [] false ignore
    None demo2 _ demo_steps (rtc_refl log_step _))).
Defined.

Lemma closed_log_is_frozen_witness :
  closed demo2 = true /\ closed (fst (append 12 demo_text demo2)) = true.
Proof.
  split; [reflexivity|].
  apply (closed_log_is_frozen demo2); [reflexivity|].
  eapply rtc_l; [apply (step_append 12 demo_text)|]. apply rtc_refl.
Defined.

(** A reader that asked for the entries after sequence number 1 reads the error
    event [close] manufactured and then returns. *)
Lemma reader_exactly_once_witness :
  exists ys, length ys = 1 /\
    ys = filter (fun en => (1 < seq en)%Z) (entries demo2).
Proof.
  eexists. split; [|
    refine (proj1 (proj1 (proj2 (reader_exactly_once None [] false ignore None 1 7 1
      demo2 demo2 (mkIter 2 None true) _ demo_contained demo_steps _)) eq_refl));
    eapply rtc_l; [eapply (sys_yield 7); [by vm_compute|reflexivity]|];
    eapply rtc_l; [eapply (sys_quiet 7); [by vm_compute|reflexivity|done]|];
    apply rtc_refl].
  reflexivity.
Defined.

Lemma close_terminates_stream_witness :
  closed demo1 = false /\ closed (fst (close 11 None demo1)) = true.
Proof.
  split; [reflexivity|]. apply close_terminates_stream.
  - by intros f ev sid n.
  - by intros g ev ev'.
Defined.

End EventLog.
