(* ===== verification/EventBus.v ===== *)
(** * EventBus: the per-user event bus and its subscriptions

    Models [_Subscriber], [EventSubscription] and [UserEventBus] of
    [src/agent_gateway/event_log.py]. A [_Subscriber] is compared by identity
    and shared between the bus and its subscription, so the model keeps a heap
    of subscribers ([heap]) indexed by object id, and [subscribers] holds ids.
    Each method body that runs under [self._lock] is one function; where a
    coroutine suspends ([wait_for], [updated.wait()]) the model has one function
    per critical section. A clean-up task is an id whose [tasks] entry says
    whether it is still sleeping; [deferred_cleanup] is its body after the
    sleep. Time stamps are arguments. *)
From S2P Require Import Prelude EventLog.
Import EventLog.

Module EventBus.

Record BusEvent := mkBus {
  be_event : Event;
  be_timestamp : Z;
  be_seq : option Z;
  be_control_run_id : option str;
  be_terminal : bool
}.

Record Subscriber := mkSub {
  s_user_id : str;
  s_control_run_id : option str;
  s_max_queue_size : nat;
  s_after_seq_floor : Z;
  s_stop_at_terminal : bool;
  s_queue : list BusEvent;
  s_updated : bool;
  s_stream_terminated : bool;
  s_dropped_count : nat;
  s_oldest_dropped_ts : option Z;
  s_dropped_through_seq : option Z;
  s_closed : bool;
  s_drained : bool;
  s_backpressure_spent : bool;
  s_reads_since_spent : nat;
  s_bound_high : nat
}.

(** A fresh subscriber, with the dataclass defaults. *)
Definition new_subscriber (user : str) (run : option str) (qmax : nat)
    (floor : Z) (stop : bool) : Subscriber :=
  mkSub user run qmax floor stop [] false false 0 None None false false false 0 0.

(** [_Subscriber.matches] *)
Definition matches (s : Subscriber) (user run : str) : bool :=
  bool_decide (s_user_id s = user) &&
  match s_control_run_id s with
  | None => true
  | Some r => bool_decide (r = run)
  end.

Definition set_queue (q : list BusEvent) (s : Subscriber) : Subscriber :=
  mkSub (s_user_id s) (s_control_run_id s) (s_max_queue_size s)
    (s_after_seq_floor s) (s_stop_at_terminal s) q (s_updated s)
    (s_stream_terminated s) (s_dropped_count s) (s_oldest_dropped_ts s)
    (s_dropped_through_seq s) (s_closed s) (s_drained s)
    (s_backpressure_spent s) (s_reads_since_spent s) (s_bound_high s).

Definition set_updated (b : bool) (s : Subscriber) : Subscriber :=
  mkSub (s_user_id s) (s_control_run_id s) (s_max_queue_size s)
    (s_after_seq_floor s) (s_stop_at_terminal s) (s_queue s) b
    (s_stream_terminated s) (s_dropped_count s) (s_oldest_dropped_ts s)
    (s_dropped_through_seq s) (s_closed s) (s_drained s)
    (s_backpressure_spent s) (s_reads_since_spent s) (s_bound_high s).

Definition set_stream_terminated (b : bool) (s : Subscriber) : Subscriber :=
  mkSub (s_user_id s) (s_control_run_id s) (s_max_queue_size s)
    (s_after_seq_floor s) (s_stop_at_terminal s) (s_queue s) (s_updated s)
    b (s_dropped_count s) (s_oldest_dropped_ts s)
    (s_dropped_through_seq s) (s_closed s) (s_drained s)
    (s_backpressure_spent s) (s_reads_since_spent s) (s_bound_high s).

Definition set_dropped (n : nat) (ts : option Z) (through : option Z)
    (s : Subscriber) : Subscriber :=
  mkSub (s_user_id s) (s_control_run_id s) (s_max_queue_size s)
    (s_after_seq_floor s) (s_stop_at_terminal s) (s_queue s) (s_updated s)
    (s_stream_terminated s) n ts through (s_closed s) (s_drained s)
    (s_backpressure_spent s) (s_reads_since_spent s) (s_bound_high s).

Definition set_pressure (drained spent : bool) (reads : nat) (s : Subscriber) : Subscriber :=
  mkSub (s_user_id s) (s_control_run_id s) (s_max_queue_size s)
    (s_after_seq_floor s) (s_stop_at_terminal s) (s_queue s) (s_updated s)
    (s_stream_terminated s) (s_dropped_count s) (s_oldest_dropped_ts s)
    (s_dropped_through_seq s) (s_closed s) drained spent reads (s_bound_high s).

Definition set_bound_high (n : nat) (s : Subscriber) : Subscriber :=
  mkSub (s_user_id s) (s_control_run_id s) (s_max_queue_size s)
    (s_after_seq_floor s) (s_stop_at_terminal s) (s_queue s) (s_updated s)
    (s_stream_terminated s) (s_dropped_count s) (s_oldest_dropped_ts s)
    (s_dropped_through_seq s) (s_closed s) (s_drained s)
    (s_backpressure_spent s) (s_reads_since_spent s) n.

(** [subscriber.closed = True; updated.set(); drained.set()] *)
Definition close_subscriber (s : Subscriber) : Subscriber :=
  mkSub (s_user_id s) (s_control_run_id s) (s_max_queue_size s)
    (s_after_seq_floor s) (s_stop_at_terminal s) (s_queue s) true
    (s_stream_terminated s) (s_dropped_count s) (s_oldest_dropped_ts s)
    (s_dropped_through_seq s) true true
    (s_backpressure_spent s) (s_reads_since_spent s) (s_bound_high s).

Abbreviation run_key := (str * str)%type.

Record UserEventBus := mkUserEventBus {
  subscriber_queue_max : nat;
  replay_buffer_max : nat;
  heap : gmap nat Subscriber;
  subscribers : gmap str (gset nat);
  replay_buffers : gmap run_key (list BusEvent);
  next_seq_by_run : gmap run_key Z;
  cleanup_tasks : gmap run_key nat;
  tasks : gmap nat (run_key * bool);
  terminated_runs : gset run_key;
  is_shutdown : bool
}.

(** [UserEventBus.__init__]: [None] where the constructor raises. *)
Definition new_bus (queue_max replay_max : nat) : option UserEventBus :=
  if (queue_max <? 1) || (replay_max <? 1) then None
  else Some (mkUserEventBus queue_max replay_max ∅ ∅ ∅ ∅ ∅ ∅ ∅ false).

Definition set_heap (h : gmap nat Subscriber) (b : UserEventBus) : UserEventBus :=
  mkUserEventBus (subscriber_queue_max b) (replay_buffer_max b) h (subscribers b)
    (replay_buffers b) (next_seq_by_run b) (cleanup_tasks b) (tasks b)
    (terminated_runs b) (is_shutdown b).

Definition set_subscribers (m : gmap str (gset nat)) (b : UserEventBus) : UserEventBus :=
  mkUserEventBus (subscriber_queue_max b) (replay_buffer_max b) (heap b) m
    (replay_buffers b) (next_seq_by_run b) (cleanup_tasks b) (tasks b)
    (terminated_runs b) (is_shutdown b).

Definition set_runs (bufs : gmap run_key (list BusEvent)) (seqs : gmap run_key Z)
    (term : gset run_key) (b : UserEventBus) : UserEventBus :=
  mkUserEventBus (subscriber_queue_max b) (replay_buffer_max b) (heap b)
    (subscribers b) bufs seqs (cleanup_tasks b) (tasks b) term (is_shutdown b).

Definition set_cleanup (m : gmap run_key nat) (t : gmap nat (run_key * bool))
    (b : UserEventBus) : UserEventBus :=
  mkUserEventBus (subscriber_queue_max b) (replay_buffer_max b) (heap b)
    (subscribers b) (replay_buffers b) (next_seq_by_run b) m t
    (terminated_runs b) (is_shutdown b).

(** The ids registered for a user. *)
Definition user_subs (b : UserEventBus) (user : str) : gset nat :=
  default ∅ (subscribers b !! user).

(** [_has_matching_subscriber_locked] *)
Definition has_matching_subscriber (b : UserEventBus) (k : run_key) : bool :=
  existsb (fun sid => match heap b !! sid with
                      | Some s => matches s k.1 k.2
                      | None => false
                      end) (elements (user_subs b k.1)).

(** [task is not None and not task.done()] for the task registered at [k]. *)
Definition cleanup_pending (b : UserEventBus) (k : run_key) : bool :=
  match cleanup_tasks b !! k with
  | Some t => match tasks b !! t with Some (_, done) => negb done | None => false end
  | None => false
  end.

Definition schedule_cleanup (k : run_key) (b : UserEventBus) : UserEventBus :=
  if has_matching_subscriber b k then b
  else if cleanup_pending b k then b
  else
    let t := fresh (dom (tasks b)) in
    set_cleanup (<[k := t]> (cleanup_tasks b)) (<[t := (k, false)]> (tasks b)) b.

(** [task.cancel()]: the task ends at its sleep or lock wait, body not run. *)
Definition finish_task (t : nat) (b : UserEventBus) : UserEventBus :=
  set_cleanup (cleanup_tasks b)
    (alter (fun kd => (kd.1, true)) t (tasks b)) b.

Definition cancel_cleanup (k : run_key) (b : UserEventBus) : UserEventBus :=
  match cleanup_tasks b !! k with
  | None => b
  | Some t => finish_task t (set_cleanup (delete k (cleanup_tasks b)) (tasks b) b)
  end.

Definition cancel_user_cleanup (user : str) (b : UserEventBus) : UserEventBus :=
  foldr (fun k b => if bool_decide (k.1 = user) then cancel_cleanup k b else b)
    b (elements (dom (cleanup_tasks b))).

(** [_deferred_cleanup] of task [t] after its sleep, under the lock. *)
Definition deferred_cleanup (t : nat) (b : UserEventBus) : UserEventBus :=
  match tasks b !! t with
  | Some (k, false) =>
    let b' := finish_task t b in
    if bool_decide (cleanup_tasks b !! k = Some t) then
      if has_matching_subscriber b k then b'
      else set_cleanup (delete k (cleanup_tasks b')) (tasks b')
             (set_runs (delete k (replay_buffers b')) (delete k (next_seq_by_run b'))
                (terminated_runs b' ∖ {[k]}) b')
    else b'
  | _ => b
  end.

(** [_subscriber_queue_bound]: reads the bus, raises the high-water mark. *)
Definition live_runs (b : UserEventBus) (user : str) : nat :=
  length (filter (fun k : run_key => k.1 = user /\ k ∉ terminated_runs b)
            (elements (dom (replay_buffers b)))).

Definition raise_bound (b : UserEventBus) (s : Subscriber) : Subscriber :=
  match s_control_run_id s with
  | Some _ => s
  | None =>
    set_bound_high
      (Nat.max (s_bound_high s) (s_max_queue_size s * Nat.max 1 (live_runs b (s_user_id s)))) s
  end.

Definition queue_bound (s : Subscriber) : nat :=
  match s_control_run_id s with
  | Some _ => s_max_queue_size s
  | None => s_bound_high s
  end.

(** The drop-oldest half of [_enqueue_for_subscriber]. *)
Definition drop_oldest (s : Subscriber) : Subscriber :=
  match s_queue s with
  | [] => s
  | d :: q =>
    set_dropped (S (s_dropped_count s))
      (match s_oldest_dropped_ts s with None => Some (be_timestamp d) | ts => ts end)
      (match be_seq d with Some n => Some n | None => s_dropped_through_seq s end)
      (set_queue q s)
  end.

(** [_enqueue_for_subscriber] *)
Definition enqueue (b : UserEventBus) (s : Subscriber) (e : BusEvent) : Subscriber :=
  let terminal_transition := s_stop_at_terminal s && be_terminal e in
  let s1 := if terminal_transition then set_stream_terminated true s else s in
  let below_floor :=
    match be_seq e with Some n => (n <=? s_after_seq_floor s1)%Z | None => false end in
  if below_floor then (if terminal_transition then set_updated true s1 else s1)
  else
    let s2 := raise_bound b s1 in
    let s3 := if queue_bound s2 <=? length (s_queue s2) then drop_oldest s2 else s2 in
    set_updated true (set_queue (s_queue s3 ++ [e]) s3).

(** [_note_drained_locked] *)
Definition note_drained (b : UserEventBus) (s0 : Subscriber) : Subscriber :=
  let s := raise_bound b s0 in
  let bound := queue_bound s in
  let s1 :=
    if s_backpressure_spent s then
      let reads := S (s_reads_since_spent s) in
      if bound <=? reads * 2 then set_pressure (s_drained s) false 0 s
      else set_pressure (s_drained s) true reads s
    else s in
  if length (s_queue s1) * 2 <? bound then set_pressure true false 0 s1 else s1.

(** Delivery of one entry to every matching subscriber of a user. The loop
    body touches only its own subscriber, so the iteration order is immaterial. *)
Definition deliver (f : UserEventBus -> Subscriber -> Subscriber)
    (user run : str) (b : UserEventBus) : UserEventBus :=
  set_heap
    (map_imap (fun sid s =>
       Some (if bool_decide (sid ∈ user_subs b user) && matches s user run
             then f b s else s)) (heap b)) b.

(** The body of the [_publish] loop: enqueue, then clear [drained] when the
    subscriber is behind by half its bound. *)
Definition backlogged (b : UserEventBus) (s : Subscriber) : bool :=
  negb (s_backpressure_spent s) &&
  (queue_bound (raise_bound b s) <=? length (s_queue s) * 2).

Definition publish_one (e : BusEvent) (b : UserEventBus) (s : Subscriber) : Subscriber :=
  let s1 := enqueue b s e in
  if s_backpressure_spent s1 then s1
  else
    let s2 := raise_bound b s1 in
    if queue_bound s2 <=? length (s_queue s2) * 2
    then set_pressure false (s_backpressure_spent s2) (s_reads_since_spent s2) s2
    else s2.

(** Sequence assignment and the replay buffer, shared by both publishers. *)
Definition next_seq_of (b : UserEventBus) (k : run_key) : Z :=
  default 1%Z (next_seq_by_run b !! k).

Definition record_event (now : Z) (k : run_key) (ev : Event) (terminal : bool)
    (b : UserEventBus) : UserEventBus * BusEvent :=
  let n := next_seq_of b k in
  let e := mkBus ev now (Some n) (Some k.2) terminal in
  let buf := default [] (replay_buffers b !! k) in
  (set_runs (<[k := deque_append (replay_buffer_max b) buf e]> (replay_buffers b))
     (<[k := n + 1]> (next_seq_by_run b))%Z (terminated_runs b) b, e).

(** [_publish] up to the backpressure wait: the bus and the producers' waits. *)
Definition publish (now : Z) (user run : str) (ev : Event)
    (b : UserEventBus) : UserEventBus * list nat :=
  if is_shutdown b then (b, [])
  else
    let '(b1, e) := record_event now (user, run) ev false b in
    let b2 := deliver (publish_one e) user run b1 in
    (b2, filter (fun sid =>
           match heap b1 !! sid with
           | Some s => matches s user run && backlogged b1 (enqueue b1 s e)
           | None => false
           end = true) (elements (user_subs b1 user))).

(** The [asyncio.TimeoutError] branch of the backpressure wait. *)
Definition backpressure_timeout (sid : nat) (b : UserEventBus) : UserEventBus :=
  set_heap (alter (fun s => set_pressure (s_drained s) true 0 s) sid (heap b)) b.

Inductive bus_error := BusClosed.

(** [publish_terminal_if_absent] *)
Definition publish_terminal_if_absent (now : Z) (user run : str) (ev : Event)
    (b : UserEventBus) : UserEventBus * outcome bus_error bool :=
  if is_shutdown b then (b, Raise BusClosed)
  else if bool_decide ((user, run) ∈ terminated_runs b) then (b, Ret false)
  else
    let '(b1, e) := record_event now (user, run) ev true b in
    let b2 := set_runs (replay_buffers b1) (next_seq_by_run b1)
                ({[(user, run)]} ∪ terminated_runs b1) b1 in
    let b3 := schedule_cleanup (user, run) b2 in
    (deliver (fun b s => enqueue b s e) user run b3, Ret true).

Definition mark_terminal (e : BusEvent) : BusEvent :=
  mkBus (be_event e) (be_timestamp e) (be_seq e) (be_control_run_id e) true.

(** [_terminated_runs.add(key); _schedule_cleanup_locked(key)] *)
Definition terminate_run (k : run_key) (b : UserEventBus) : UserEventBus :=
  schedule_cleanup k
    (set_runs (replay_buffers b) (next_seq_by_run b) ({[k]} ∪ terminated_runs b) b).

(** [events[-n:]] *)
Definition last_n {A} (n : nat) (l : list A) : list A := drop (length l - n) l.

Fixpoint seed_entries (now : Z) (run : str) (terminated : bool) (total : Z)
    (i : Z) (evs : list Event) : list BusEvent :=
  match evs with
  | [] => []
  | ev :: evs' =>
    mkBus ev now (Some i) (Some run) (terminated && (i =? total)%Z)
    :: seed_entries now run terminated total (i + 1)%Z evs'
  end.

(** [seed_replay_buffer] *)
Definition seed_replay_buffer (now : Z) (user run : str) (events : list Event)
    (terminated : bool) (b : UserEventBus) : UserEventBus * nat :=
  let k := (user, run) in
  if is_shutdown b then (b, 0)
  else if bool_decide (is_Some (replay_buffers b !! k)) || bool_decide (is_Some (next_seq_by_run b !! k))
  then
    (if terminated then
       let bufs :=
         match replay_buffers b !! k with
         | Some buf => match last buf with
                       | Some e => <[k := take (length buf - 1) buf ++ [mark_terminal e]]> (replay_buffers b)
                       | None => replay_buffers b
                       end
         | None => replay_buffers b
         end in
       terminate_run k (set_runs bufs (next_seq_by_run b) (terminated_runs b) b)
     else b, 0)
  else
    let total := Z.of_nat (length events) in
    let tail := last_n (replay_buffer_max b) events in
    let first := (total - Z.of_nat (length tail) + 1)%Z in
    let buf := seed_entries now run terminated total first tail in
    let b1 := set_runs (<[k := buf]> (replay_buffers b))
                (<[k := total + 1]> (next_seq_by_run b))%Z (terminated_runs b) b in
    (if terminated then terminate_run k b1 else b1, length buf).

(** [_register_subscriber_locked], allocating the object. *)
Definition register_subscriber (s : Subscriber) (b : UserEventBus) : UserEventBus * nat :=
  let sid := fresh (dom (heap b)) in
  (set_subscribers
     (<[s_user_id s := {[sid]} ∪ user_subs b (s_user_id s)]> (subscribers b))
     (set_heap (<[sid := s]> (heap b)) b), sid).

(** [_unregister_subscriber_locked] *)
Definition unregister_subscriber (sid : nat) (b : UserEventBus) : UserEventBus :=
  match heap b !! sid with
  | None => b
  | Some s =>
    let b1 := set_heap (<[sid := close_subscriber s]> (heap b)) b in
    match subscribers b !! s_user_id s with
    | None => b1
    | Some ids =>
      let ids' := ids ∖ {[sid]} in
      set_subscribers
        (if bool_decide (ids' = ∅) then delete (s_user_id s) (subscribers b)
         else <[s_user_id s := ids']> (subscribers b)) b1
    end
  end.

(** [_unsubscribe] *)
Definition unsubscribe (sid : nat) (b : UserEventBus) : UserEventBus :=
  match heap b !! sid with
  | None => b
  | Some s =>
    let b1 := unregister_subscriber sid b in
    if is_shutdown b1 then b1
    else foldr (fun k b =>
           if bool_decide (k.1 = s_user_id s) &&
              match s_control_run_id s with None => true | Some r => bool_decide (k.2 = r) end
           then schedule_cleanup k b else b) b1 (elements (terminated_runs b1))
  end.

(** The ["replay_truncated"] event. *)
Definition truncated_event (now : Z) (run : str) (head_seq : Z) : BusEvent :=
  mkBus (mkEvent (Some (u "replay_truncated"))
           [(u "run_id", JStr run); (u "control_run_id", JStr run);
            (u "dropped_before_seq", JInt head_seq)])
    now None (Some run) false.

(** [EventSubscription]: the object [subscribe_entries] returns. *)
Record EventSubscription := mkSubscription {
  es_subscriber : nat;
  es_replay_events : list BusEvent;
  es_truncation_event : option BusEvent;
  es_registered : bool;
  es_closed : bool;
  es_stop_at_terminal : bool;
  es_terminal_delivered : bool
}.

(** [entry.seq is not None and entry.seq > after_seq] *)
Definition seq_after (after : Z) (e : BusEvent) : bool :=
  match be_seq e with Some n => (after <? n)%Z | None => false end.

Definition after_seq_filter (after : Z) (buf : list BusEvent) : list BusEvent :=
  filter (fun e => seq_after after e = true) buf.

(** [subscribe_entries] *)
Definition subscribe_entries (now : Z) (user : str) (run : option str) (after_seq : Z)
    (b : UserEventBus) : UserEventBus * EventSubscription :=
  let after := Z.max after_seq 0 in
  let stop := match run with Some _ => true | None => false end in
  let floor := match run with Some _ => after | None => 0%Z end in
  let s := new_subscriber user run (subscriber_queue_max b) floor stop in
  if is_shutdown b then
    let sid := fresh (dom (heap b)) in
    (set_heap (<[sid := s]> (heap b)) b,
     mkSubscription sid [] None false true stop false)
  else
    match run with
    | None =>
      let '(b1, sid) := register_subscriber s b in
      (cancel_user_cleanup user b1, mkSubscription sid [] None true false stop false)
    | Some r =>
      let k := (user, r) in
      let s' := set_stream_terminated (bool_decide (k ∈ terminated_runs b)) s in
      let '(b1, sid) := register_subscriber s' b in
      let buf := default [] (replay_buffers b !! k) in
      let truncation :=
        match buf with
        | e :: _ => match be_seq e with
                    | Some h => if (after <? h - 1)%Z then Some (truncated_event now r h) else None
                    | None => None
                    end
        | [] => None
        end in
      (cancel_cleanup k b1,
       mkSubscription sid (after_seq_filter after buf) truncation true false stop false)
    end.

(** [subscribe]: registration at the generator's first step. *)
Definition subscribe_register (user : str) (run : option str)
    (b : UserEventBus) : option (UserEventBus * nat * list BusEvent) :=
  if is_shutdown b then None
  else
    let '(b1, sid) := register_subscriber
      (new_subscriber user run (subscriber_queue_max b) 0 false) b in
    match run with
    | None => Some (cancel_user_cleanup user b1, sid, [])
    | Some r => Some (cancel_cleanup (user, r) b1, sid,
                      default [] (replay_buffers b !! (user, r)))
    end.

(** [cleanup_run] *)
Definition cleanup_run (user run : str) (b : UserEventBus) : UserEventBus :=
  if is_shutdown b then b else terminate_run (user, run) b.

(** [shutdown] *)
Definition shutdown (b : UserEventBus) : UserEventBus :=
  if is_shutdown b then b
  else
    let live := ⋃ (map_to_list (subscribers b)).*2 in
    mkUserEventBus (subscriber_queue_max b) (replay_buffer_max b)
      (map_imap (fun sid s => Some (if bool_decide (sid ∈ live) then close_subscriber s else s)) (heap b))
      ∅ ∅ ∅ ∅
      (map_imap (fun t kd => Some (if bool_decide (cleanup_tasks b !! kd.1 = Some t)
                                   then (kd.1, true) else kd)) (tasks b))
      ∅ true.

(** The ["events_dropped"] sentinel of [_next_entry]. *)
Definition dropped_event (now : Z) (count : nat) (oldest through : option Z)
    (run : option str) : BusEvent :=
  let opt z := match z with Some n => JInt n | None => JNull end in
  mkBus (mkEvent (Some (u "events_dropped"))
    ([(u "count", JInt (Z.of_nat count)); (u "oldest_ts", opt oldest);
      (u "dropped_through_seq", opt through)]
     ++ match run with
        | Some r => [(u "run_id", JStr r); (u "control_run_id", JStr r)]
        | None => []
        end)) now None run false.

Inductive NextOut :=
| NEntry (e : BusEvent)
| NClosed
| NTerminated
| NWait.

(** One pass of the [_next_entry] loop. *)
Definition next_entry (now : Z) (sid : nat) (b : UserEventBus) : UserEventBus * NextOut :=
  match heap b !! sid with
  | None => (b, NClosed)
  | Some s =>
    let write s' := set_heap (<[sid := s']> (heap b)) b in
    match s_dropped_count s with
    | S _ =>
      (write (note_drained b (set_dropped 0 None None s)),
       NEntry (dropped_event now (s_dropped_count s) (s_oldest_dropped_ts s)
                 (s_dropped_through_seq s) (s_control_run_id s)))
    | O =>
      match s_queue s with
      | e :: q => (write (note_drained b (set_queue q s)), NEntry e)
      | [] =>
        if s_closed s || is_shutdown b then (b, NClosed)
        else if s_stop_at_terminal s && s_stream_terminated s then (b, NTerminated)
        else (write (set_updated false s), NWait)
      end
    end
  end.

(** [EventSubscription.aclose] *)
Definition aclose (es : EventSubscription) (b : UserEventBus) : UserEventBus * EventSubscription :=
  if es_closed es then (b, es)
  else
    let es' := mkSubscription (es_subscriber es) (es_replay_events es)
                 (es_truncation_event es) false true (es_stop_at_terminal es)
                 (es_terminal_delivered es) in
    if es_registered es then (unsubscribe (es_subscriber es) b, es') else (b, es').

Inductive AnextOut :=
| ADeliver (e : BusEvent)
| AStop
| AWait.

Definition with_delivered (es : EventSubscription) (replay : list BusEvent)
    (trunc : option BusEvent) (e : BusEvent) : EventSubscription :=
  mkSubscription (es_subscriber es) replay trunc (es_registered es) (es_closed es)
    (es_stop_at_terminal es)
    (es_terminal_delivered es || (es_stop_at_terminal es && be_terminal e)).

(** [EventSubscription.__anext__] up to its next suspension. *)
Definition anext (now : Z) (es : EventSubscription) (b : UserEventBus) :
    UserEventBus * EventSubscription * AnextOut :=
  if es_closed es then (b, es, AStop)
  else match es_truncation_event es with
  | Some e =>
    (b, mkSubscription (es_subscriber es) (es_replay_events es) None
          (es_registered es) (es_closed es) (es_stop_at_terminal es)
          (es_terminal_delivered es), ADeliver e)
  | None =>
    match es_replay_events es with
    | e :: rest => (b, with_delivered es rest None e, ADeliver e)
    | [] =>
      if es_stop_at_terminal es && es_terminal_delivered es
      then (aclose es b, AStop)
      else match next_entry now (es_subscriber es) b with
      | (b', NEntry e) => (b', with_delivered es [] None e, ADeliver e)
      | (b', NTerminated) => (aclose es b', AStop)
      | (b', NClosed) =>
        (b', mkSubscription (es_subscriber es) [] None false true
               (es_stop_at_terminal es) (es_terminal_delivered es), AStop)
      | (b', NWait) => (b', es, AWait)
      end
    end
  end.

(** ** Specification: invariants and traffic *)

Definition seq_of (e : BusEvent) : Z := default 0%Z (be_seq e).
Definition numbered (e : BusEvent) : Prop := is_Some (be_seq e).

(** A run's replay buffer is the tail of its numbered event sequence. *)
Definition run_inv (b : UserEventBus) (k : run_key) : Prop :=
  match replay_buffers b !! k, next_seq_by_run b !! k with
  | None, None => True
  | Some buf, Some n =>
    let first := (n - Z.of_nat (length buf))%Z in
    Forall numbered buf /\ length buf <= replay_buffer_max b /\
    consecutive seq_of first buf /\ (1 <= first)%Z
  | _, _ => False
  end.

(** A queue never exceeds its bound. *)
Definition sub_bounded (s : Subscriber) : Prop :=
  1 <= s_max_queue_size s /\ length (s_queue s) <= queue_bound s.

Record bus_inv (b : UserEventBus) : Prop := {
  bi_queue : 1 <= subscriber_queue_max b;
  bi_replay : 1 <= replay_buffer_max b;
  bi_runs : forall k, run_inv b k;
  bi_subs : forall sid s, heap b !! sid = Some s -> sub_bounded s
}.

(** Every operation of the bus, as one transition system. *)
Inductive bus_step : UserEventBus -> UserEventBus -> Prop :=
| bs_publish now user run ev b : bus_step b (publish now user run ev b).1
| bs_terminal now user run ev b :
    bus_step b (publish_terminal_if_absent now user run ev b).1
| bs_timeout sid b : bus_step b (backpressure_timeout sid b)
| bs_seed now user run evs t b : bus_step b (seed_replay_buffer now user run evs t b).1
| bs_subscribe now user run after b : bus_step b (subscribe_entries now user run after b).1
| bs_generator user run b b' sid evs :
    subscribe_register user run b = Some (b', sid, evs) -> bus_step b b'
| bs_cleanup_run user run b : bus_step b (cleanup_run user run b)
| bs_deferred t b : bus_step b (deferred_cleanup t b)
| bs_unsubscribe sid b : bus_step b (unsubscribe sid b)
| bs_next now sid b : bus_step b (next_entry now sid b).1
| bs_shutdown b : bus_step b (shutdown b).

(** [accounted d l d']: the deliveries [l] tell a consumer that expects event
    number [d] about every event up to [d' - 1]: each one is either delivered
    or counted in an [events_dropped] sentinel whose range is exact. *)
Inductive accounted : Z -> list BusEvent -> Z -> Prop :=
| acc_nil d : accounted d [] d
| acc_event d e l d' :
    be_seq e = Some d -> accounted (d + 1)%Z l d' -> accounted d (e :: l) d'
| acc_dropped d now c ts run l d' :
    0 < c -> accounted (d + Z.of_nat c)%Z l d' ->
    accounted d (dropped_event now c ts (Some (d + Z.of_nat c - 1)%Z) run :: l) d'.

(** Bus traffic as the subscriber [sid] of run [k] lives through it: any
    operation of the bus but its own unsubscription, the bus's shutdown and a
    first back-fill of that very run; its own reads are recorded. *)
Inductive traffic (sid : nat) (k : run_key) :
  UserEventBus * list BusEvent -> UserEventBus * list BusEvent -> Prop :=
| tr_publish now user run ev b dl :
    traffic sid k (b, dl) ((publish now user run ev b).1, dl)
| tr_terminal now user run ev b dl :
    traffic sid k (b, dl) ((publish_terminal_if_absent now user run ev b).1, dl)
| tr_timeout sid' b dl : traffic sid k (b, dl) (backpressure_timeout sid' b, dl)
| tr_seed now user run evs t b dl :
    (user, run) <> k \/ is_Some (next_seq_by_run b !! k) ->
    traffic sid k (b, dl) ((seed_replay_buffer now user run evs t b).1, dl)
| tr_subscribe now user run after b dl :
    traffic sid k (b, dl) ((subscribe_entries now user run after b).1, dl)
| tr_generator user run b b' sid' evs dl :
    subscribe_register user run b = Some (b', sid', evs) ->
    traffic sid k (b, dl) (b', dl)
| tr_cleanup_run user run b dl : traffic sid k (b, dl) (cleanup_run user run b, dl)
| tr_deferred t b dl : traffic sid k (b, dl) (deferred_cleanup t b, dl)
| tr_unsubscribe sid' b dl :
    sid' <> sid -> traffic sid k (b, dl) (unsubscribe sid' b, dl)
| tr_other_next now sid' b dl :
    sid' <> sid -> traffic sid k (b, dl) ((next_entry now sid' b).1, dl)
| tr_read now b b' e dl :
    next_entry now sid b = (b', NEntry e) -> traffic sid k (b, dl) (b', dl ++ [e])
| tr_idle now b b' dl :
    next_entry now sid b = (b', NWait) -> traffic sid k (b, dl) (b', dl).

(** ** Lemmas *)

(** The fields of a subscriber that the stream's content depends on. *)
Definition core (s : Subscriber) :=
  (s_user_id s, s_control_run_id s, s_after_seq_floor s, s_queue s,
   s_dropped_count s, s_dropped_through_seq s).

Lemma core_raise_bound b s : core (raise_bound b s) = core s.
Proof. unfold raise_bound. by destruct (s_control_run_id s). Qed.

Lemma core_note_drained b s : core (note_drained b s) = core s.
Proof.
  unfold note_drained. cbv zeta. rewrite <- (core_raise_bound b s).
  generalize (raise_bound b s). intros s'. crush_match.
Qed.

Lemma queue_raise_bound b s : s_queue (raise_bound b s) = s_queue s.
Proof. pose proof (core_raise_bound b s) as H. unfold core in H. congruence. Qed.

Lemma bound_raise_bound b s :
  queue_bound s <= queue_bound (raise_bound b s) /\
  (1 <= s_max_queue_size s -> 1 <= queue_bound (raise_bound b s)).
Proof.
  unfold queue_bound, raise_bound. destruct (s_control_run_id s) eqn:Hr; simpl;
    rewrite ?Hr; simpl; [lia|]. split; [lia|]. intros. nia.
Qed.

Lemma max_raise_bound b s : s_max_queue_size (raise_bound b s) = s_max_queue_size s.
Proof. unfold raise_bound. by destruct (s_control_run_id s). Qed.

Lemma bounded_raise b s : sub_bounded s -> sub_bounded (raise_bound b s).
Proof.
  intros [H1 H2]. split; [by rewrite max_raise_bound|].
  rewrite queue_raise_bound. pose proof (bound_raise_bound b s). lia.
Qed.

(** Changing pressure or flags keeps the bound; a shorter queue too. *)
Lemma bounded_frame s s' :
  s_max_queue_size s' = s_max_queue_size s -> s_control_run_id s' = s_control_run_id s ->
  s_bound_high s' = s_bound_high s -> length (s_queue s') <= length (s_queue s) ->
  sub_bounded s -> sub_bounded s'.
Proof. unfold sub_bounded, queue_bound. intros -> -> -> ?. intuition lia. Qed.

Lemma bounded_note_drained b s : sub_bounded s -> sub_bounded (note_drained b s).
Proof.
  intros H%(bounded_raise b). revert H. unfold note_drained. cbv zeta.
  generalize (raise_bound b s). intros s' Hb.
  apply (bounded_frame s'); crush_match.
Qed.

Lemma bounded_enqueue b s e : sub_bounded s -> sub_bounded (enqueue b s e).
Proof.
  intros Hb. unfold enqueue.
  set (s1 := if s_stop_at_terminal s && be_terminal e then _ else s).
  assert (sub_bounded s1) as Hb1.
  { subst s1. destruct (_ && _); [|done]. by apply (bounded_frame s). }
  destruct (match be_seq e with Some n => _ | None => false end).
  { destruct (_ && _); [|done]. by apply (bounded_frame s1). }
  pose proof (bounded_raise b s1 Hb1) as Hb2.
  pose proof (proj2 (bound_raise_bound b s1) (proj1 Hb1)) as Hpos.
  set (s2 := raise_bound b s1) in *.
  assert (forall q, length q <= length (s_queue s2) -> length q < queue_bound s2 ->
    forall s3, s_queue s3 = q -> s_max_queue_size s3 = s_max_queue_size s2 ->
    queue_bound s3 = queue_bound s2 ->
    sub_bounded (set_updated true (set_queue (s_queue s3 ++ [e]) s3))) as Hfin.
  { intros q _ Hlt s3 -> Hm Hqb. destruct Hb2. split; [simpl; by rewrite Hm|].
    change (length (q ++ [e]) <= queue_bound s3). rewrite length_app, Hqb. simpl. lia. }
  destruct (queue_bound s2 <=? length (s_queue s2)) eqn:Hfull.
  - apply Nat.leb_le in Hfull. unfold drop_oldest.
    destruct (s_queue s2) as [|d q] eqn:Hq; [simpl in *; lia|].
    apply (Hfin q); simpl in *; try lia; try done.
    destruct Hb2 as [_ Hle]. rewrite Hq in Hle. simpl in *. lia.
  - apply Nat.leb_gt in Hfull. by apply (Hfin (s_queue s2)).
Qed.

Lemma bounded_publish_one e b s : sub_bounded s -> sub_bounded (publish_one e b s).
Proof.
  intros Hb%(fun H => bounded_enqueue b s e H). unfold publish_one. cbv zeta.
  destruct (s_backpressure_spent _); [done|].
  destruct (_ <=? _); [apply (bounded_frame (raise_bound b (enqueue b s e)))|];
    by try apply bounded_raise.
Qed.

Lemma lookup_deliver f user run b sid :
  heap (deliver f user run b) !! sid =
  (fun s => if bool_decide (sid ∈ user_subs b user) && matches s user run
            then f b s else s) <$> heap b !! sid.
Proof. unfold deliver. simpl. rewrite map_lookup_imap. by destruct (heap b !! sid). Qed.

Lemma deliver_bounded f user run b :
  (forall s, sub_bounded s -> sub_bounded (f b s)) ->
  (forall sid s, heap b !! sid = Some s -> sub_bounded s) ->
  forall sid s, heap (deliver f user run b) !! sid = Some s -> sub_bounded s.
Proof.
  intros Hf Hb sid s. rewrite lookup_deliver.
  destruct (heap b !! sid) as [s0|] eqn:Hs; simpl; [|done].
  intros [= <-]. destruct (_ && _); eauto.
Qed.

(** The clean-up bookkeeping touches nothing else. *)
Definition cleanup_only (b b' : UserEventBus) : Prop :=
  exists m t, b' = set_cleanup m t b.

Lemma cleanup_only_refl b : cleanup_only b b.
Proof. exists (cleanup_tasks b), (tasks b). by destruct b. Qed.

Lemma cleanup_only_trans b1 b2 b3 :
  cleanup_only b1 b2 -> cleanup_only b2 b3 -> cleanup_only b1 b3.
Proof. intros (m & t & ->) (m' & t' & ->). by exists m', t'. Qed.

Lemma cleanup_only_foldr {A} (f : A -> UserEventBus -> UserEventBus) l b :
  (forall x b, cleanup_only b (f x b)) -> cleanup_only b (foldr f b l).
Proof.
  intros Hf. induction l; simpl; [apply cleanup_only_refl|].
  by eapply cleanup_only_trans.
Qed.

Lemma cleanup_only_finish t b : cleanup_only b (finish_task t b).
Proof. eexists _, _. done. Qed.

Lemma cleanup_only_schedule k b : cleanup_only b (schedule_cleanup k b).
Proof.
  unfold schedule_cleanup. destruct (has_matching_subscriber b k);
    [apply cleanup_only_refl|].
  destruct (cleanup_pending b k); [apply cleanup_only_refl|]. by eexists _, _.
Qed.

Lemma cleanup_only_cancel k b : cleanup_only b (cancel_cleanup k b).
Proof.
  unfold cancel_cleanup. destruct (cleanup_tasks b !! k); [|apply cleanup_only_refl].
  by eexists _, _.
Qed.

Lemma cleanup_only_cancel_user user b : cleanup_only b (cancel_user_cleanup user b).
Proof.
  apply cleanup_only_foldr. intros k b'. case_bool_decide;
    [apply cleanup_only_cancel|apply cleanup_only_refl].
Qed.
#[local] Hint Resolve cleanup_only_refl cleanup_only_schedule cleanup_only_cancel
  cleanup_only_cancel_user cleanup_only_finish : gateway.

Lemma cleanup_only_inv b b' : cleanup_only b b' -> bus_inv b -> bus_inv b'.
Proof. intros (m & t & ->) [Hq Hr Hk Hs]. by split. Qed.

Lemma set_runs_inv bufs seqs term b :
  bus_inv b -> (forall k, run_inv (set_runs bufs seqs term b) k) ->
  bus_inv (set_runs bufs seqs term b).
Proof. intros [Hq Hr Hk Hs] H. by split. Qed.

(** The replay buffer and the counter of one run change together. *)
Lemma run_inv_insert b k buf n term :
  (forall k', k' <> k -> run_inv b k') ->
  (let first := (n - Z.of_nat (length buf))%Z in
   Forall numbered buf /\ length buf <= replay_buffer_max b /\
   consecutive seq_of first buf /\ (1 <= first)%Z) ->
  forall k', run_inv (set_runs (<[k := buf]> (replay_buffers b))
                        (<[k := n]> (next_seq_by_run b)) term b) k'.
Proof.
  intros Ho Hk k'. unfold run_inv. simpl.
  destruct (decide (k' = k)) as [->|Hne].
  - by rewrite !lookup_insert_eq.
  - rewrite !lookup_insert_ne by done. by apply Ho.
Qed.

Lemma run_inv_view b k :
  run_inv b k ->
  let buf := default [] (replay_buffers b !! k) in
  let n := next_seq_of b k in
  Forall numbered buf /\ length buf <= replay_buffer_max b /\
  consecutive seq_of (n - Z.of_nat (length buf))%Z buf /\
  (1 <= n - Z.of_nat (length buf))%Z.
Proof.
  unfold run_inv, next_seq_of.
  destruct (replay_buffers b !! k), (next_seq_by_run b !! k); simpl; try done.
  intros _. repeat split; [constructor|lia|lia].
Qed.

Lemma record_event_inv now k ev t b :
  bus_inv b -> bus_inv (record_event now k ev t b).1.
Proof.
  intros Hb. apply set_runs_inv; [done|].
  apply run_inv_insert; [intros; by apply Hb|].
  destruct (run_inv_view b k (bi_runs _ Hb k)) as (Hn & Hl & Hc & H1).
  set (buf := default [] (replay_buffers b !! k)) in *.
  set (e := mkBus ev now (Some (next_seq_of b k)) (Some k.2) t).
  pose proof (bi_replay _ Hb) as Hmax.
  assert (length (deque_append (replay_buffer_max b) buf e)
          = Nat.min (S (length buf)) (replay_buffer_max b)) as Hlen
    by (apply deque_append_length; lia).
  cbv zeta. rewrite Hlen. split; [|split; [lia|split; [|lia]]].
  - unfold deque_append. apply Forall_drop, Forall_app. split; [done|].
    constructor; [by eexists|constructor].
  - assert (consecutive seq_of (next_seq_of b k - Z.of_nat (length buf)) (buf ++ [e]))
      as Hall.
    { apply consecutive_app. split; [done|]. split; [|done].
      unfold seq_of. simpl. lia. }
    apply (consecutive_drop _ _ _ (length (buf ++ [e]) - replay_buffer_max b)) in Hall.
    apply (consecutive_cast _ _ _ _ Hall). rewrite length_app. cbn [length]. lia.
Qed.

Lemma deliver_inv f user run b :
  (forall s, sub_bounded s -> sub_bounded (f b s)) ->
  bus_inv b -> bus_inv (deliver f user run b).
Proof.
  intros Hf [Hq Hr Hk Hs]. split; try done. by apply deliver_bounded.
Qed.

Lemma set_heap_inv b sid s :
  bus_inv b -> sub_bounded s -> bus_inv (set_heap (<[sid := s]> (heap b)) b).
Proof.
  intros [Hq Hr Hk Hs] H. split; try done.
  intros sid' s'. simpl. rewrite lookup_insert. case_decide; naive_solver.
Qed.

Lemma terminate_run_inv k b : bus_inv b -> bus_inv (terminate_run k b).
Proof.
  intros Hb. apply (cleanup_only_inv _ _ (cleanup_only_schedule k _)).
  apply set_runs_inv; [done|]. apply Hb.
Qed.

Lemma mark_terminal_list buf e n :
  last buf = Some e -> Forall numbered buf -> consecutive seq_of n buf ->
  let buf' := take (length buf - 1) buf ++ [mark_terminal e] in
  Forall numbered buf' /\ consecutive seq_of n buf' /\ length buf' = length buf.
Proof.
  intros [l ->]%last_Some Hn Hc. cbv zeta.
  replace (length (l ++ [e]) - 1) with (length l) by (rewrite length_app; simpl; lia).
  rewrite take_app_length, !length_app. apply Forall_app in Hn as [Hn1 Hn2].
  apply consecutive_app in Hc as [Hc1 [Hc2 _]].
  split; [|split; [|done]].
  - apply Forall_app. split; [done|]. constructor; [|constructor].
    by apply Forall_inv in Hn2.
  - apply consecutive_app. split; [done|]. split; [|done]. exact Hc2.
Qed.

Lemma seed_entries_spec now run t total i evs :
  Forall numbered (seed_entries now run t total i evs) /\
  consecutive seq_of i (seed_entries now run t total i evs) /\
  length (seed_entries now run t total i evs) = length evs.
Proof.
  revert i. induction evs as [|ev evs IH]; intros i; simpl; [done|].
  destruct (IH (i + 1)%Z) as (Hn & Hc & Hl). repeat split; auto.
  constructor; [by eexists|done].
Qed.

Lemma seed_inv now user run evs t b :
  bus_inv b -> bus_inv (seed_replay_buffer now user run evs t b).1.
Proof.
  intros Hb. unfold seed_replay_buffer. cbv zeta.
  destruct (is_shutdown b); [done|].
  destruct (_ || _) eqn:Hex; cbn [fst].
  - destruct t; [|done]. apply terminate_run_inv.
    apply set_runs_inv; [done|]. intros k'. pose proof (bi_runs _ Hb k') as Hk'.
    pose proof (bi_runs _ Hb (user, run)) as Hk.
    unfold run_inv in *. cbn [replay_buffers next_seq_by_run set_runs replay_buffer_max].
    destruct (replay_buffers b !! (user, run)) as [buf|] eqn:Hbuf; [|by rewrite ?Hbuf].
    destruct (last buf) as [e|] eqn:Hl; [|done].
    destruct (decide (k' = (user, run))) as [->|Hne];
      [rewrite lookup_insert_eq|by rewrite lookup_insert_ne].
    destruct (next_seq_by_run b !! (user, run)); [|done].
    destruct Hk as (Hn & Hle & Hc & H1).
    destruct (mark_terminal_list _ _ _ Hl Hn Hc) as (Hn' & Hc' & Hl').
    by rewrite Hl'.
  - assert (bus_inv (set_runs
      (<[(user, run) := seed_entries now run t (Z.of_nat (length evs))
         (Z.of_nat (length evs) - Z.of_nat (length (last_n (replay_buffer_max b) evs)) + 1)
         (last_n (replay_buffer_max b) evs)]> (replay_buffers b))
      (<[(user, run) := (Z.of_nat (length evs) + 1)%Z]> (next_seq_by_run b))
      (terminated_runs b) b)) as H.
    { apply set_runs_inv; [done|]. apply run_inv_insert; [intros; by apply Hb|].
      destruct (seed_entries_spec now run t (Z.of_nat (length evs))
        (Z.of_nat (length evs) - Z.of_nat (length (last_n (replay_buffer_max b) evs)) + 1)
        (last_n (replay_buffer_max b) evs)) as (Hn & Hc & Hl).
      cbv zeta. rewrite Hl. unfold last_n in *. rewrite length_drop in *.
      split; [done|]. split; [lia|]. split; [|lia].
      apply (consecutive_cast _ _ _ _ Hc). lia. }
    destruct t; [by apply terminate_run_inv|done].
Qed.

Lemma register_inv s b : bus_inv b -> sub_bounded s -> bus_inv (register_subscriber s b).1.
Proof. intros [Hq Hr Hk Hs] H. destruct (set_heap_inv b (fresh (dom (heap b))) s
  (Build_bus_inv _ Hq Hr Hk Hs) H). by split. Qed.

Lemma new_subscriber_bounded user run qmax floor stop :
  1 <= qmax -> sub_bounded (new_subscriber user run qmax floor stop).
Proof. unfold sub_bounded. simpl. lia. Qed.

(** Name the result of a registration together with its invariant. *)
Ltac register_case Hb H :=
  lazymatch goal with
  | |- context [register_subscriber ?s ?b] =>
    pose proof (register_inv s b Hb) as H;
    destruct (register_subscriber s b) as [? ?] eqn:?
  end.

Lemma subscribe_entries_inv now user run after b :
  bus_inv b -> bus_inv (subscribe_entries now user run after b).1.
Proof.
  intros Hb. unfold subscribe_entries. cbv zeta.
  assert (forall f st, sub_bounded (new_subscriber user run (subscriber_queue_max b) f st))
    as Hs by (intros; apply new_subscriber_bounded, Hb).
  destruct (is_shutdown b); [by apply set_heap_inv|].
  destruct run as [r|]; register_case Hb H; cbn [fst] in *;
    (eapply cleanup_only_inv; [auto with gateway|]); apply H; [|done].
  by apply (bounded_frame (new_subscriber user (Some r) (subscriber_queue_max b)
    (Z.max after 0) true)).
Qed.

Lemma next_entry_inv now sid b : bus_inv b -> bus_inv (next_entry now sid b).1.
Proof.
  intros Hb. unfold next_entry. destruct (heap b !! sid) as [s|] eqn:Hs; [|done].
  pose proof (bi_subs _ Hb _ _ Hs) as Hsb.
  destruct (s_dropped_count s).
  - destruct (s_queue s) as [|e q] eqn:Hq.
    + destruct (_ || _); [done|]. destruct (_ && _); [done|].
      apply set_heap_inv; [done|]. by apply (bounded_frame s).
    + apply set_heap_inv; [done|]. apply bounded_note_drained.
      apply (bounded_frame s); try done. rewrite Hq. simpl. lia.
  - apply set_heap_inv; [done|]. apply bounded_note_drained. by apply (bounded_frame s).
Qed.

Lemma unregister_inv sid b : bus_inv b -> bus_inv (unregister_subscriber sid b).
Proof.
  intros Hb. unfold unregister_subscriber.
  destruct (heap b !! sid) as [s|] eqn:Hs; [|done].
  assert (bus_inv (set_heap (<[sid := close_subscriber s]> (heap b)) b)) as H.
  { apply set_heap_inv; [done|]. eapply bounded_frame, Hb, Hs; done. }
  destruct (subscribers b !! s_user_id s); [|done]. destruct H. by split.
Qed.

Lemma cleanup_only_cond (c : bool) k b :
  cleanup_only b (if c then schedule_cleanup k b else b).
Proof. destruct c; auto with gateway. Qed.

Lemma unsubscribe_inv sid b : bus_inv b -> bus_inv (unsubscribe sid b).
Proof.
  intros Hb. unfold unsubscribe. destruct (heap b !! sid) as [s|]; [|done].
  pose proof (unregister_inv sid b Hb) as H.
  destruct (is_shutdown _); [done|]. eapply cleanup_only_inv, H.
  apply cleanup_only_foldr. intros. apply cleanup_only_cond.
Qed.

Lemma deferred_inv t b : bus_inv b -> bus_inv (deferred_cleanup t b).
Proof.
  intros Hb. unfold deferred_cleanup.
  destruct (tasks b !! t) as [[k []]|]; [done| |done].
  pose proof (cleanup_only_inv _ _ (cleanup_only_finish t b) Hb) as H.
  case_bool_decide; [|done]. destruct (has_matching_subscriber b k); [done|].
  eapply cleanup_only_inv; [by eexists _, _|]. apply set_runs_inv; [done|].
  intros k'. pose proof (bi_runs _ Hb k') as Hk. unfold run_inv in *. simpl.
  destruct (decide (k' = k)) as [->|]; [by rewrite !lookup_delete_eq|].
  by rewrite !lookup_delete_ne.
Qed.

Lemma shutdown_inv b : bus_inv b -> bus_inv (shutdown b).
Proof.
  intros Hb. unfold shutdown. destruct (is_shutdown b); [done|].
  split; [apply Hb|apply Hb|done|]. intros sid s. simpl. rewrite map_lookup_imap.
  destruct (heap b !! sid) as [s0|] eqn:Hs; [|done]. simpl. intros [= <-].
  pose proof (bi_subs _ Hb _ _ Hs). case_bool_decide; [|done].
  by apply (bounded_frame s0).
Qed.

Lemma bus_step_inv b b' : bus_step b b' -> bus_inv b -> bus_inv b'.
Proof.
  destruct 1 as [now user run ev b|now user run ev b|sid b|now user run evs t b|
    now user run after b|user run b b' sid evs Hg|user run b|t b|sid b|now sid b|b];
    intros Hb.
  - unfold publish. destruct (is_shutdown b); [done|].
    pose proof (record_event_inv now (user, run) ev false b Hb) as H.
    destruct (record_event _ _ _ _ b) as [b1 e]. simpl in *.
    apply deliver_inv; [|done]. intros. by apply bounded_publish_one.
  - unfold publish_terminal_if_absent. destruct (is_shutdown b); [done|].
    case_bool_decide; [done|].
    pose proof (record_event_inv now (user, run) ev true b Hb) as H'.
    destruct (record_event _ _ _ _ b) as [b1 e]. simpl in *.
    apply deliver_inv; [intros; by apply bounded_enqueue|].
    eapply cleanup_only_inv; [auto with gateway|]. apply set_runs_inv, H'; done.
  - destruct Hb as [Hq Hr Hk Hs]. split; try done. intros sid' s. simpl.
    rewrite lookup_alter. case_decide; [|apply Hs]. subst.
    destruct (heap b !! sid') as [s0|] eqn:H0; [|done]. intros [= <-].
    apply (bounded_frame s0); eauto.
  - by apply seed_inv.
  - by apply subscribe_entries_inv.
  - unfold subscribe_register in Hg. destruct (is_shutdown b); [done|].
    pose proof (register_inv (new_subscriber user run (subscriber_queue_max b) 0 false)
      b Hb (new_subscriber_bounded _ _ _ _ _ (bi_queue _ Hb))) as H.
    destruct (register_subscriber _ b) as [b1 sid1].
    destruct run; simplify_eq; by (eapply cleanup_only_inv; [auto with gateway|]).
  - unfold cleanup_run. destruct (is_shutdown b); [done|]. by apply terminate_run_inv.
  - by apply deferred_inv.
  - by apply unsubscribe_inv.
  - by apply next_entry_inv.
  - by apply shutdown_inv.
Qed.

(** The queue of a per-run subscriber is the consecutive range [q0, stop) and
    the events it dropped since its last sentinel end right before [q0]. *)
Definition stream_at (s : Subscriber) (q0 stop : Z) : Prop :=
  Forall numbered (s_queue s) /\ consecutive seq_of q0 (s_queue s) /\
  (q0 + Z.of_nat (length (s_queue s)))%Z = stop /\
  s_dropped_through_seq s =
    match s_dropped_count s with O => None | S _ => Some (q0 - 1)%Z end.

(** The next event number the run can add to this subscriber's stream. *)
Definition stream_end (b : UserEventBus) (k : run_key) (s : Subscriber) : Z :=
  Z.max (next_seq_of b k) (s_after_seq_floor s + 1).

(** [sid] is the registered subscriber of run [k]. *)
Definition subscribed (sid : nat) (k : run_key) (b : UserEventBus) (s : Subscriber) : Prop :=
  heap b !! sid = Some s /\ s_user_id s = k.1 /\ s_control_run_id s = Some k.2 /\
  sid ∈ user_subs b k.1 /\ is_shutdown b = false.

Definition acct (d0 : Z) (sid : nat) (k : run_key) (b : UserEventBus)
    (dl : list BusEvent) : Prop :=
  exists s q0, subscribed sid k b s /\ stream_at s q0 (stream_end b k s) /\
    accounted d0 dl (q0 - Z.of_nat (s_dropped_count s))%Z.

Lemma accounted_app d l d' l' d'' :
  accounted d l d' -> accounted d' l' d'' -> accounted d (l ++ l') d''.
Proof. induction 1; simpl; eauto using accounted. Qed.

Lemma accounted_consecutive d l :
  Forall numbered l -> consecutive seq_of d l ->
  accounted d l (d + Z.of_nat (length l))%Z.
Proof.
  intros Hn. revert d. induction Hn as [|e l [n He] _ IH]; intros d Hc.
  - rewrite Z.add_0_r. constructor.
  - destruct Hc as [Hs Hc]. constructor.
    + unfold seq_of in Hs. rewrite He in *. simpl in Hs. by subst.
    + replace (d + Z.of_nat (length (e :: l)))%Z
        with (d + 1 + Z.of_nat (length l))%Z by (simpl; lia). by apply IH.
Qed.

(** Operations that leave the stream's inputs alone keep the account. *)
Lemma acct_frame d0 sid k b b' dl :
  (forall s, subscribed sid k b s ->
     exists s', subscribed sid k b' s' /\ core s' = core s) ->
  next_seq_of b' k = next_seq_of b k -> acct d0 sid k b dl -> acct d0 sid k b' dl.
Proof.
  intros Hs Hn (s & q0 & Hsub & Hst & Ha).
  destruct (Hs s Hsub) as (s' & Hsub' & Hc). exists s', q0.
  unfold core in Hc. injection Hc as Hu Hr Hf Hq Hd Ht.
  unfold stream_at, stream_end in *. rewrite Hq, Hd, Ht, Hf, Hn. done.
Qed.

(** Core-preserving rewriting of the heap, with the registrations kept. *)
Lemma subscribed_frame sid k b b' s s' :
  subscribed sid k b s -> heap b' !! sid = Some s' -> core s' = core s ->
  sid ∈ user_subs b' k.1 -> is_shutdown b' = false -> subscribed sid k b' s'.
Proof.
  intros (_ & Hu & Hr & _ & _) Hh Hc Hin Hsd. unfold core in Hc.
  repeat split; try done; congruence.
Qed.

Lemma subscribed_matches sid k b s user run :
  subscribed sid k b s -> matches s user run = bool_decide ((user, run) = k).
Proof.
  intros (_ & Hu & Hr & _). unfold matches. rewrite Hu, Hr. destruct k as [ku kr].
  simpl. repeat case_bool_decide; simpl; naive_solver.
Qed.

Lemma subscribed_has_matching sid k b s :
  subscribed sid k b s -> has_matching_subscriber b k = true.
Proof.
  intros Hs. unfold has_matching_subscriber. apply existsb_exists. exists sid.
  pose proof Hs as (Hh & _ & _ & Hin & _).
  split; [by apply list_elem_of_In, elem_of_elements|].
  rewrite Hh, (subscribed_matches _ _ _ _ _ _ Hs). apply bool_decide_eq_true.
  by destruct k.
Qed.

Lemma acct_cleanup_only d0 sid k b b' dl :
  cleanup_only b b' -> acct d0 sid k b dl -> acct d0 sid k b' dl.
Proof.
  intros (m & t & ->). apply acct_frame; [|done].
  intros s Hs. exists s. split; [|done]. exact Hs.
Qed.

Lemma next_seq_of_insert b k k' bufs n term :
  next_seq_of (set_runs bufs (<[k := n]> (next_seq_by_run b)) term b) k' =
  if decide (k' = k) then n else next_seq_of b k'.
Proof.
  unfold next_seq_of. simpl. destruct (decide (k' = k)) as [->|];
    [by rewrite lookup_insert_eq|by rewrite lookup_insert_ne].
Qed.

(** Enqueueing the next event of the run extends the account by one. *)
Lemma enqueue_stream b s e q0 n :
  1 <= s_max_queue_size s -> s_control_run_id s <> None -> be_seq e = Some n ->
  stream_at s q0 (Z.max n (s_after_seq_floor s + 1)) ->
  exists q1, stream_at (enqueue b s e) q1 (Z.max (n + 1) (s_after_seq_floor s + 1)) /\
    (q1 - Z.of_nat (s_dropped_count (enqueue b s e)) =
     q0 - Z.of_nat (s_dropped_count s))%Z /\
    s_after_seq_floor (enqueue b s e) = s_after_seq_floor s.
Proof.
  intros Hm Hr He Hst. unfold enqueue. rewrite He. cbv zeta.
  set (s1 := if s_stop_at_terminal s && be_terminal e then set_stream_terminated true s else s).
  assert (core s1 = core s /\ s_max_queue_size s1 = s_max_queue_size s) as [Hc1 Hm1]
    by (subst s1; by destruct (_ && _)).
  unfold core in Hc1. injection Hc1 as _ Hr1 Hf1 Hq1 Hd1 Ht1. rewrite Hf1.
  destruct (n <=? s_after_seq_floor s)%Z eqn:Hfl.
  - apply Z.leb_le in Hfl. exists q0. unfold stream_at in *.
    destruct (_ && _); cbn [set_updated s_queue s_dropped_count s_dropped_through_seq
      s_after_seq_floor]; rewrite ?Hq1, ?Hd1, ?Ht1, ?Hf1;
      (split; [|done]); replace (Z.max (n + 1) (s_after_seq_floor s + 1))
        with (Z.max n (s_after_seq_floor s + 1)) by lia; done.
  - apply Z.leb_gt in Hfl.
    assert (raise_bound b s1 = s1) as ->.
    { unfold raise_bound. rewrite Hr1. by destruct (s_control_run_id s). }
    assert (queue_bound s1 = s_max_queue_size s) as ->.
    { unfold queue_bound. rewrite Hr1, Hm1. by destruct (s_control_run_id s). }
    destruct Hst as (Hnum & Hcon & Hend & Hth).
    rewrite Z.max_l in Hend by lia. rewrite Z.max_l by lia.
    assert (consecutive seq_of q0 (s_queue s ++ [e]) /\ Forall numbered (s_queue s ++ [e]))
      as [Hcon' Hnum'].
    { rewrite consecutive_app, Forall_app. split; (split; [done|]).
      - split; [|done]. unfold seq_of. rewrite He. simpl. lia.
      - constructor; [by eexists|constructor]. }
    rewrite Hq1. destruct (s_max_queue_size s <=? length (s_queue s)) eqn:Hfull.
    + apply Nat.leb_le in Hfull. unfold drop_oldest. rewrite Hq1.
      destruct (s_queue s) as [|d q] eqn:Hq; [simpl in *; lia|].
      exists (q0 + 1)%Z. unfold stream_at. cbn. rewrite Hd1, Hf1.
      destruct Hcon' as [Hd Hcon']. inversion Hnum' as [|? ? [m Hdm] Hnum'']; subst.
      repeat split; auto; try (rewrite ?length_app; simpl in *; lia).
      rewrite Hdm. unfold seq_of. rewrite Hdm. simpl. f_equal. lia.
    + exists q0. unfold stream_at. cbn. rewrite Hq1, Hd1, Ht1, Hf1.
      repeat split; auto. rewrite length_app. simpl. lia.
Qed.

Lemma core_publish_one e b s : core (publish_one e b s) = core (enqueue b s e).
Proof.
  unfold publish_one. cbv zeta. rewrite <- (core_raise_bound b (enqueue b s e)).
  destruct (s_backpressure_spent _); [by rewrite core_raise_bound|].
  by destruct (_ <=? _).
Qed.

Lemma core_enqueue_ids b s e :
  s_user_id (enqueue b s e) = s_user_id s /\
  s_control_run_id (enqueue b s e) = s_control_run_id s.
Proof.
  unfold enqueue, drop_oldest, raise_bound. cbv zeta.
  repeat (first [done | split_match]; simpl in * ); done.
Qed.

(** One event of run [key] reaches the subscriber of run [k]. *)
Lemma acct_deliver f e d0 sid k key b b' dl :
  bus_inv b -> acct d0 sid k b dl ->
  heap b' = heap b -> subscribers b' = subscribers b -> is_shutdown b' = is_shutdown b ->
  be_seq e = Some (next_seq_of b key) ->
  (forall k', next_seq_of b' k' =
     if decide (k' = key) then (next_seq_of b key + 1)%Z else next_seq_of b k') ->
  (forall s, core (f b' s) = core (enqueue b' s e)) ->
  acct d0 sid k (deliver f key.1 key.2 b') dl.
Proof.
  intros Hb (s & q0 & Hsub & Hst & Ha) Hh Hss Hsd He Hn Hf.
  assert (user_subs b' = user_subs b) as Hus by (unfold user_subs; by rewrite Hss).
  pose proof Hsub as (Hlk & Hu & Hr & Hin & Hopen).
  destruct (decide (k = key)) as [<-|Hne].
  - destruct (enqueue_stream b' s e q0 (next_seq_of b k)) as (q1 & Hst1 & Hd1 & Hfl);
      try done; [by apply (bi_subs _ Hb _ _ Hlk)|by rewrite Hr|].
    exists (f b' s), q1. specialize (Hf s). pose proof (core_enqueue_ids b' s e) as [Hu1 Hr1].
    unfold core in Hf. injection Hf as Hfu Hfr Hff Hfq Hfd Hft.
    unfold stream_at, stream_end in *. rewrite Hfq, Hft, Hfd, Hff, Hfl.
    assert (next_seq_of (deliver f k.1 k.2 b') k = (next_seq_of b k + 1)%Z) as ->.
    { change (next_seq_of b' k = (next_seq_of b k + 1)%Z). rewrite Hn. by rewrite decide_True. }
    split; [|split; [done|by rewrite Hd1]].
    split; [|repeat split; try congruence; simpl; try congruence].
    + rewrite lookup_deliver, Hh, Hlk. simpl.
      rewrite Hus, bool_decide_true by done.
      rewrite (subscribed_matches _ _ _ _ _ _ Hsub), bool_decide_true; [done|by destruct k].
    + change (sid ∈ user_subs b' k.1). by rewrite Hus.
  - exists s, q0. split; [|split; [|done]].
    + split; [|repeat split; try done; simpl; try congruence].
      * rewrite lookup_deliver, Hh, Hlk. simpl.
        rewrite (subscribed_matches _ _ _ _ _ _ Hsub), (bool_decide_false (_ = k)).
        -- by rewrite andb_false_r.
        -- destruct key. naive_solver.
      * change (sid ∈ user_subs b' k.1). by rewrite Hus.
    + unfold stream_end in *. change (next_seq_of (deliver f key.1 key.2 b') k)
        with (next_seq_of b' k). rewrite Hn, decide_False by done. done.
Qed.

Lemma acct_publish now user run ev d0 sid k b dl :
  bus_inv b -> acct d0 sid k b dl -> acct d0 sid k (publish now user run ev b).1 dl.
Proof.
  intros Hb Ha. unfold publish. destruct (is_shutdown b) eqn:Hs; [done|].
  unfold record_event. cbn [fst snd].
  set (e := mkBus ev now _ _ false).
  apply (acct_deliver (publish_one e) e d0 sid k (user, run) b); try done.
  - intros k'. apply next_seq_of_insert.
  - intros s. apply core_publish_one.
Qed.

Lemma acct_publish_terminal now user run ev d0 sid k b dl :
  bus_inv b -> acct d0 sid k b dl ->
  acct d0 sid k (publish_terminal_if_absent now user run ev b).1 dl.
Proof.
  intros Hb Ha. unfold publish_terminal_if_absent.
  destruct (is_shutdown b) eqn:Hs; [done|]. case_bool_decide; [done|].
  unfold record_event. cbn [fst snd set_runs replay_buffers next_seq_by_run terminated_runs].
  match goal with
  | |- context [schedule_cleanup _ ?b2] =>
    destruct (cleanup_only_schedule (user, run) b2) as (m & t & ->)
  end.
  set (e := mkBus ev now _ _ true).
  apply (acct_deliver (fun b s => enqueue b s e) e d0 sid k (user, run) b); try done.
  intros k'. apply (next_seq_of_insert b).
Qed.

Lemma user_subs_insert b user ids user' :
  user_subs (set_subscribers (<[user := ids]> (subscribers b)) b) user' =
  if decide (user' = user) then ids else user_subs b user'.
Proof.
  unfold user_subs. simpl. destruct (decide (user' = user)) as [->|];
    [by rewrite lookup_insert_eq|by rewrite lookup_insert_ne].
Qed.

Lemma acct_register s d0 sid k b dl :
  acct d0 sid k b dl -> acct d0 sid k (register_subscriber s b).1 dl.
Proof.
  apply acct_frame; [|done]. intros s0 (Hh & Hu & Hr & Hin & Hs). exists s0.
  split; [|done]. repeat split; try done; simpl.
  - rewrite lookup_insert_ne; [done|]. intros Heq.
    apply (is_fresh (dom (heap b))). rewrite Heq. apply elem_of_dom. by eexists.
  - unfold user_subs at 1. simpl. destruct (decide (k.1 = s_user_id s)) as [Heq|Hne].
    + rewrite <- Heq, lookup_insert_eq. simpl. set_solver.
    + by rewrite lookup_insert_ne.
Qed.

Lemma acct_unregister sid' d0 sid k b dl :
  sid' <> sid -> acct d0 sid k b dl -> acct d0 sid k (unregister_subscriber sid' b) dl.
Proof.
  intros Hne. unfold unregister_subscriber.
  destruct (heap b !! sid') as [s'|] eqn:Hh'; [|done].
  destruct (subscribers b !! s_user_id s') as [ids|] eqn:Hids.
  - apply acct_frame; [|done]. intros s (Hh & Hu & Hr & Hin & Hs). exists s.
    split; [|done]. repeat split; try done; simpl; [by rewrite lookup_insert_ne|].
    unfold user_subs at 1. simpl. unfold user_subs in Hin.
    destruct (decide (k.1 = s_user_id s')) as [Heq|Hk].
    + rewrite Heq, Hids in Hin. simpl in Hin. rewrite Heq.
      rewrite bool_decide_false by set_solver. rewrite lookup_insert_eq. set_solver.
    + case_bool_decide; [by rewrite lookup_delete_ne|by rewrite lookup_insert_ne].
  - apply acct_frame; [|done]. intros s (Hh & Hu & Hr & Hin & Hs). exists s.
    split; [|done]. repeat split; try done; simpl. by rewrite lookup_insert_ne.
Qed.

Lemma acct_terminate key d0 sid k b dl :
  acct d0 sid k b dl -> acct d0 sid k (terminate_run key b) dl.
Proof.
  intros Ha. eapply acct_cleanup_only; [apply cleanup_only_schedule|].
  revert Ha. apply acct_frame; [|done]. intros s Hs. by exists s.
Qed.

Lemma acct_set_bufs bufs d0 sid k b dl :
  acct d0 sid k b dl ->
  acct d0 sid k (set_runs bufs (next_seq_by_run b) (terminated_runs b) b) dl.
Proof. apply acct_frame; [|done]. intros s Hs. by exists s. Qed.

Lemma acct_seed now user run evs t d0 sid k b dl :
  (user, run) <> k \/ is_Some (next_seq_by_run b !! k) ->
  acct d0 sid k b dl -> acct d0 sid k (seed_replay_buffer now user run evs t b).1 dl.
Proof.
  intros Hk Ha. unfold seed_replay_buffer. cbv zeta. destruct (is_shutdown b); [done|].
  destruct (bool_decide _ || bool_decide _) eqn:Hex; cbn [fst].
  - destruct t; [|done]. by apply acct_terminate, acct_set_bufs.
  - apply orb_false_iff in Hex as [_ Hex]. apply bool_decide_eq_false in Hex.
    destruct Hk as [Hk|Hk]; [|destruct (decide ((user, run) = k)) as [<-|Hk']; [done|]];
      (assert (forall bufs n, acct d0 sid k (set_runs bufs
        (<[(user, run) := n]> (next_seq_by_run b)) (terminated_runs b) b) dl) as H;
       [intros; revert Ha; apply acct_frame;
        [intros s Hs; by exists s|rewrite next_seq_of_insert; by rewrite decide_False]|]);
      (destruct t; [by apply acct_terminate|done]).
Qed.

Lemma acct_deferred t d0 sid k b dl :
  acct d0 sid k b dl -> acct d0 sid k (deferred_cleanup t b) dl.
Proof.
  intros Ha. unfold deferred_cleanup. destruct (tasks b !! t) as [[k' []]|]; [done| |done].
  pose proof (acct_cleanup_only _ _ _ _ _ _ (cleanup_only_finish t b) Ha) as Ha'.
  case_bool_decide; [|done].
  destruct (has_matching_subscriber b k') eqn:Hm; [done|].
  eapply acct_cleanup_only; [by eexists _, _|]. revert Ha'.
  destruct Ha as (s & _ & Hs & _). apply acct_frame; [intros s' Hs'; by exists s'|].
  unfold next_seq_of. simpl. rewrite lookup_delete_ne; [done|].
  intros ->. by rewrite (subscribed_has_matching _ _ _ _ Hs) in Hm.
Qed.

Lemma acct_other_next now sid' d0 sid k b dl :
  sid' <> sid -> acct d0 sid k b dl -> acct d0 sid k (next_entry now sid' b).1 dl.
Proof.
  intros Hne. unfold next_entry. destruct (heap b !! sid') as [s'|]; [|done].
  assert (forall s1, acct d0 sid k b dl ->
    acct d0 sid k (set_heap (<[sid' := s1]> (heap b)) b) dl) as H.
  { intros s1. apply acct_frame; [|done]. intros s (Hh & ?). exists s. split; [|done].
    split; [|done]. simpl. by rewrite lookup_insert_ne. }
  crush_match; eauto.
Qed.

(** The subscriber's own reads move the account, never skip a number. *)
Lemma acct_read now d0 sid k b b' out dl :
  next_entry now sid b = (b', out) -> acct d0 sid k b dl ->
  match out with
  | NEntry e => acct d0 sid k b' (dl ++ [e])
  | NWait => acct d0 sid k b' dl
  | _ => True
  end.
Proof.
  intros Hn (s & q0 & Hsub & Hst & Ha). unfold next_entry in Hn.
  pose proof Hsub as (Hh & _ & _ & Hin & Hs). rewrite Hh in Hn.
  assert (forall s', core s' = core s \/ s_user_id s' = s_user_id s /\
    s_control_run_id s' = s_control_run_id s ->
    subscribed sid k (set_heap (<[sid := s']> (heap b)) b) s') as Hw.
  { intros s' Hc. destruct Hsub as (_ & Hu & Hr & _).
    repeat split; try done; simpl; [by rewrite lookup_insert_eq| |];
      unfold core in Hc; destruct Hc as [Hc|[? ?]]; congruence. }
  destruct Hst as (Hnum & Hcon & Hend & Hth).
  destruct (s_dropped_count s) as [|c] eqn:Hd.
  - destruct (s_queue s) as [|e q] eqn:Hq; cycle 1; simplify_eq.
    + set (s1 := note_drained b (set_queue q s)).
      assert (core s1 = core (set_queue q s)) as Hc1 by apply core_note_drained.
      exists s1, (q0 + 1)%Z. unfold core in Hc1. injection Hc1 as Hu1 Hr1 Hf1 Hq1 Hd1 Ht1.
      simpl in *. split; [by apply Hw; right|]. unfold stream_at, stream_end in *.
      rewrite Hq1, Hd1, Ht1, Hf1, Hd, Hth. destruct Hcon as [He Hcon].
      apply Forall_cons in Hnum as [[m Hm] Hnum']. split.
      * repeat split; try done. cbn in *. unfold next_seq_of in *. cbn in *. lia.
      * eapply accounted_app; [apply Ha|]. apply acc_event.
        -- unfold seq_of in *. rewrite Hm in *. simpl in *. f_equal. lia.
        -- replace (q0 - Z.of_nat 0 + 1)%Z with (q0 + 1 - Z.of_nat 0)%Z by lia. constructor.
    + destruct (_ || _); simplify_eq; [done|]. destruct (_ && _); simplify_eq; [done|].
      exists (set_updated false s), q0. split; [by apply Hw; left|].
      unfold stream_at, stream_end. cbn. rewrite Hq, Hd. done.
  - simplify_eq. set (s1 := note_drained b (set_dropped 0 None None s)).
    assert (core s1 = core (set_dropped 0 None None s)) as Hc1 by apply core_note_drained.
    exists s1, q0. unfold core in Hc1. injection Hc1 as Hu1 Hr1 Hf1 Hq1 Hd1 Ht1.
    simpl in *. split; [by apply Hw; right|]. unfold stream_at, stream_end in *.
    rewrite Hq1, Hd1, Ht1, Hf1, Hth. split.
    + repeat split; try done.
    + eapply accounted_app; [apply Ha|].
      replace (q0 - 1)%Z with (q0 - Z.of_nat (S c) + Z.of_nat (S c) - 1)%Z by lia.
      apply acc_dropped; [lia|].
      replace (q0 - Z.of_nat (S c) + Z.of_nat (S c))%Z with (q0 - Z.of_nat 0)%Z by lia.
      constructor.
Qed.

Lemma traffic_bus_step sid k x y :
  traffic sid k x y -> bus_step x.1 y.1.
Proof.
  destruct 1; simpl; try (by constructor); try (by econstructor);
    (replace b' with (next_entry now sid b).1; [constructor|by rewrite H]).
Qed.

Lemma traffic_acct d0 sid k x y :
  traffic sid k x y -> bus_inv x.1 -> acct d0 sid k x.1 x.2 -> acct d0 sid k y.1 y.2.
Proof.
  destruct 1 as [now user run ev b dl|now user run ev b dl|sid' b dl|
    now user run evs t b dl Hk|now user run after b dl|user run b b' sid' evs dl Hg|
    user run b dl|t b dl|sid' b dl Hne|now sid' b dl Hne|now b b' e dl Hr|
    now b b' dl Hr]; simpl; intros Hb Ha.
  - by apply acct_publish.
  - by apply acct_publish_terminal.
  - revert Ha. apply acct_frame; [|done]. intros s (Hh & Hs).
    destruct (decide (sid = sid')) as [<-|Hne].
    + exists (set_pressure (s_drained s) true 0 s). split; [|done].
      split; [simpl; by rewrite lookup_alter_eq, Hh|done].
    + exists s. split; [|done]. split; [simpl; by rewrite lookup_alter_ne|done].
  - by apply acct_seed.
  - unfold subscribe_entries. cbv zeta. destruct (is_shutdown b) eqn:Hs.
    { destruct Ha as (s & _ & (_ & _ & _ & _ & Hs') & _). congruence. }
    destruct run as [r|];
      lazymatch goal with
      | |- context [register_subscriber ?s1 b] =>
        pose proof (acct_register s1 d0 sid k b dl Ha);
        destruct (register_subscriber s1 b) as [b1 sid1]
      end; cbn [fst]; by (eapply acct_cleanup_only; [auto with gateway|]).
  - unfold subscribe_register in Hg. destruct (is_shutdown b); [done|].
    pose proof (acct_register (new_subscriber user run (subscriber_queue_max b) 0 false)
      d0 sid k b dl Ha).
    destruct (register_subscriber _ b) as [b1 sid1].
    destruct run; simplify_eq; by eapply acct_cleanup_only; [auto with gateway|].
  - unfold cleanup_run. destruct (is_shutdown b); [done|]. by apply acct_terminate.
  - by apply acct_deferred.
  - unfold unsubscribe. destruct (heap b !! sid') as [s'|]; [|done].
    pose proof (acct_unregister sid' d0 sid k b dl Hne Ha).
    destruct (is_shutdown _); [done|]. eapply acct_cleanup_only; [|done].
    apply cleanup_only_foldr. intros. apply cleanup_only_cond.
  - by apply acct_other_next.
  - exact (acct_read _ _ _ _ _ _ _ _ Hr Ha).
  - exact (acct_read _ _ _ _ _ _ _ _ Hr Ha).
Qed.

Lemma traffic_star_acct d0 sid k x y :
  rtc (traffic sid k) x y -> bus_inv x.1 -> acct d0 sid k x.1 x.2 ->
  bus_inv y.1 /\ acct d0 sid k y.1 y.2.
Proof.
  induction 1 as [|x y z Hs _ IH]; [done|]. intros Hb Ha. apply IH.
  - by eapply bus_step_inv, Hb; eapply traffic_bus_step.
  - by eapply traffic_acct.
Qed.

(** The oldest event a run still retains for replay. *)
Definition oldest_retained (b : UserEventBus) (k : run_key) : Z :=
  (next_seq_of b k - Z.of_nat (length (default [] (replay_buffers b !! k))))%Z.

Lemma after_filter_drop after n buf :
  Forall numbered buf -> consecutive seq_of n buf ->
  after_seq_filter after buf = drop (Z.to_nat (after - n + 1)) buf.
Proof.
  intros Hn Hc. rewrite <- (consecutive_filter_gt _ _ _ after Hc).
  unfold after_seq_filter, seq_after.
  induction Hn as [|e l [m Hm] Hn IH] in n, Hc |- *; [done|].
  destruct Hc as [_ Hc]. rewrite !filter_cons, (IH _ Hc). unfold seq_of in *.
  rewrite Hm. simpl. destruct (Z.ltb_spec after m); simpl;
    [rewrite !decide_True by done|rewrite !decide_False by (done || lia)]; done.
Qed.

Lemma truncation_iff now r after n buf :
  Forall numbered buf -> consecutive seq_of n buf ->
  is_Some (match buf with
           | e :: _ => match be_seq e with
                       | Some h => if (after <? h - 1)%Z then Some (truncated_event now r h) else None
                       | None => None
                       end
           | [] => None
           end) <-> buf <> [] /\ (after + 1 < n)%Z.
Proof.
  intros Hn Hc. destruct Hn as [|e l [m Hm] Hn];
    [split; [by intros [? [=]]|by intros [? _]]|].
  destruct Hc as [He _]. unfold seq_of in He. rewrite Hm in *. simpl in He. subst m.
  destruct (Z.ltb_spec after (n - 1)) as [Hlt|Hge].
  - split; [intros _; split; [done|lia]|intros _; by eexists].
  - split; [by intros [? [=]]|intros [_ ?]; lia].
Qed.

(** What [subscribe_entries] hands to a per-run consumer. *)
Lemma subscribe_entries_acct now user r after b b' es :
  bus_inv b -> is_shutdown b = false ->
  subscribe_entries now user (Some r) after b = (b', es) ->
  let k := (user, r) in
  let from := Z.max (Z.max after 0 + 1) (oldest_retained b k) in
  acct from (es_subscriber es) k b' (es_replay_events es) /\
  (is_Some (es_truncation_event es) <->
   default [] (replay_buffers b !! k) <> [] /\
   (Z.max after 0 + 1 < oldest_retained b k)%Z).
Proof.
  intros Hb Hs Hsub k from. unfold subscribe_entries in Hsub. cbv zeta in Hsub.
  rewrite Hs in Hsub. unfold register_subscriber in Hsub.
  injection Hsub as <- <-. cbn [es_subscriber es_replay_events es_truncation_event].
  destruct (run_inv_view b k (bi_runs _ Hb k)) as (Hn & _ & Hc & H1).
  set (buf := default [] (replay_buffers b !! k)) in *.
  split; [|by apply truncation_iff].
  eapply acct_cleanup_only; [apply cleanup_only_cancel|].
  set (s := set_stream_terminated _ _).
  exists s, (stream_end b k s). split.
  { repeat split; try done.
    - simpl. by rewrite lookup_insert_eq.
    - unfold user_subs at 1. simpl. rewrite lookup_insert_eq. simpl. set_solver. }
  split; [split; [apply Forall_nil_2|]; split; [done|]; split; [exact (Z.add_0_r _)|done]|].
  rewrite (after_filter_drop _ _ _ Hn Hc). change (stream_end b k s)
    with (Z.max (next_seq_of b k) (Z.max after 0 + 1)).
  set (j := Z.to_nat (Z.max after 0 - (next_seq_of b k - Z.of_nat (length buf)) + 1)).
  assert (from = (next_seq_of b k - Z.of_nat (length buf) + Z.of_nat j)%Z) as Hfrom.
  { unfold from, oldest_retained. fold buf. lia. }
  pose proof (accounted_consecutive from (drop j buf) (Forall_drop _ _ _ Hn)) as Hacc.
  specialize (Hacc (consecutive_cast _ _ _ _ (consecutive_drop _ _ _ j Hc) (eq_sym Hfrom))).
  rewrite length_drop in Hacc.
  replace (Z.max (next_seq_of b k) (Z.max after 0 + 1) - Z.of_nat (s_dropped_count s))%Z
    with (from + Z.of_nat (length buf - j))%Z; [done|].
  simpl. unfold from, oldest_retained. fold buf. lia.
Qed.

Lemma traffic_keeps_terminated sid k x y d0 :
  traffic sid k x y -> acct d0 sid k x.1 x.2 ->
  k ∈ terminated_runs x.1 -> k ∈ terminated_runs y.1.
Proof.
  assert (forall b b', cleanup_only b b' -> terminated_runs b' = terminated_runs b) as Hco
    by (by intros b b' (m & t & ->)).
  assert (forall key b, terminated_runs b ⊆ terminated_runs (terminate_run key b)) as Ht.
  { intros key b. unfold terminate_run. rewrite (Hco _ _ (cleanup_only_schedule key _)).
    simpl. set_solver. }
  destruct 1 as [now user run ev b dl|now user run ev b dl|sid' b dl|
    now user run evs t b dl Hk|now user run after b dl|user run b b' sid' evs dl Hg|
    user run b dl|t b dl|sid' b dl Hne|now sid' b dl Hne|now b b' e dl Hr|
    now b b' dl Hr]; simpl; intros Ha Hin; try done.
  - unfold publish. by destruct (is_shutdown b).
  - unfold publish_terminal_if_absent. destruct (is_shutdown b); [done|].
    case_bool_decide; [done|]. cbn [fst record_event].
    unfold deliver. cbn [terminated_runs set_heap].
    rewrite (Hco _ _ (cleanup_only_schedule _ _)). simpl. set_solver.
  - unfold seed_replay_buffer. cbv zeta. destruct (is_shutdown b); [done|].
    destruct (_ || _); destruct t; cbn [fst]; try done; by apply Ht.
  - unfold subscribe_entries. cbv zeta. destruct (is_shutdown b); [done|].
    destruct run; unfold register_subscriber; cbn [fst];
      [rewrite (Hco _ _ (cleanup_only_cancel _ _))|
       rewrite (Hco _ _ (cleanup_only_cancel_user _ _))]; done.
  - unfold subscribe_register in Hg. destruct (is_shutdown b); [done|].
    unfold register_subscriber in Hg. destruct run; simplify_eq;
      [rewrite (Hco _ _ (cleanup_only_cancel _ _))|
       rewrite (Hco _ _ (cleanup_only_cancel_user _ _))]; done.
  - unfold cleanup_run. destruct (is_shutdown b); [done|]. by apply Ht.
  - unfold deferred_cleanup. destruct (tasks b !! t) as [[k' []]|]; [done| |done].
    case_bool_decide; [|done].
    destruct (has_matching_subscriber b k') eqn:Hm; [done|]. simpl.
    destruct Ha as (s & _ & Hs & _). apply elem_of_difference. split; [done|].
    intros ->%elem_of_singleton. by rewrite (subscribed_has_matching _ _ _ _ Hs) in Hm.
  - unfold unsubscribe. destruct (heap b !! sid') as [s'|] eqn:Hs'; [|done].
    assert (terminated_runs (unregister_subscriber sid' b) = terminated_runs b) as Hu.
    { unfold unregister_subscriber. rewrite Hs'. by destruct (subscribers b !! _). }
    destruct (is_shutdown _); [by rewrite Hu|].
    erewrite Hco; [rewrite Hu; done|]. apply cleanup_only_foldr. intros. apply cleanup_only_cond.
  - unfold next_entry. by crush_match.
  - unfold next_entry in Hr. by crush_match.
  - unfold next_entry in Hr. by crush_match.
Qed.

Lemma traffic_star_terminated sid k x y d0 :
  rtc (traffic sid k) x y -> bus_inv x.1 -> acct d0 sid k x.1 x.2 ->
  k ∈ terminated_runs x.1 -> k ∈ terminated_runs y.1 /\ acct d0 sid k y.1 y.2.
Proof.
  induction 1 as [|x y z Hs _ IH]; [done|]. intros Hb Ha Hin. apply IH.
  - by eapply bus_step_inv, Hb; eapply traffic_bus_step.
  - by eapply traffic_acct.
  - by eapply traffic_keeps_terminated.
Qed.

Lemma new_bus_inv q r b : new_bus q r = Some b -> bus_inv b /\ is_shutdown b = false.
Proof.
  unfold new_bus. destruct (q <? 1) eqn:Hq, (r <? 1) eqn:Hr; simpl; try done.
  intros [= <-]. apply Nat.ltb_ge in Hq, Hr. split; [|done].
  split; simpl; try lia; done.
Qed.

Lemma bus_steps_inv b b' : rtc bus_step b b' -> bus_inv b -> bus_inv b'.
Proof. induction 1; eauto using bus_step_inv. Qed.

(** ** Properties *)

(** C4: a consumer that subscribes to one run of a reachable bus with
    [after_seq] and then reads through any interleaving of publishes, other
    subscribers, clean-up tasks and its own reads is told about every event of
    the run from [after_seq + 1] (or the oldest event still retained) on:
    replayed and live deliveries are numbered without gap or repeat, except
    where an [events_dropped] sentinel gives the exact dropped range; whatever
    is not yet delivered is queued or in the pending drop count; and a
    [replay_truncated] event comes first exactly when retained history starts
    after [after_seq + 1]. This holds while the consumer stays subscribed and the bus
    is not shut down, and unless the journal of the run is back-filled behind the
    consumer's back: [seed_replay_buffer] numbers a run that has no number yet
    without telling those already subscribed ([backfill_skips_subscribers]). *)
Theorem no_silent_gap q r b0 b now user run after b1 es b2 dl :
  new_bus q r = Some b0 -> rtc bus_step b0 b -> is_shutdown b = false ->
  subscribe_entries now user (Some run) after b = (b1, es) ->
  rtc (traffic (es_subscriber es) (user, run)) (b1, es_replay_events es) (b2, dl) ->
  let k := (user, run) in
  (exists s told, heap b2 !! es_subscriber es = Some s /\
     accounted (Z.max (Z.max after 0 + 1) (oldest_retained b k)) dl told /\
     (told + Z.of_nat (s_dropped_count s) + Z.of_nat (length (s_queue s)) =
      Z.max (next_seq_of b2 k) (s_after_seq_floor s + 1))%Z) /\
  (is_Some (es_truncation_event es) <->
   default [] (replay_buffers b !! k) <> [] /\
   (Z.max after 0 + 1 < oldest_retained b k)%Z).
Proof.
  intros Hnew Hsteps Hs Hsub Htr k.
  destruct (new_bus_inv _ _ _ Hnew) as [Hb0 _].
  pose proof (bus_steps_inv _ _ Hsteps Hb0) as Hb.
  destruct (subscribe_entries_acct _ _ _ _ _ _ _ Hb Hs Hsub) as [Ha Ht].
  split; [|done].
  assert (bus_inv b1) as Hb1.
  { pose proof (subscribe_entries_inv now user (Some run) after b Hb) as H.
    by rewrite Hsub in H. }
  destruct (traffic_star_acct _ _ _ _ _ Htr Hb1 Ha) as [_ (s & q0 & Hsb & Hst & Hacc)].
  exists s, (q0 - Z.of_nat (s_dropped_count s))%Z. split; [by apply Hsb|].
  split; [done|]. destruct Hst as (_ & _ & Hend & _). unfold stream_end in Hend.
  simpl in Hend. fold k in Hend. lia.
Qed.

(** memory is bounded: in every reachable bus each subscriber's queue stays
    within its bound and each run's replay buffer within [replay_buffer_max],
    holding the most recent events under consecutive numbers. *)
Theorem bus_memory_bounded q r b0 b :
  new_bus q r = Some b0 -> rtc bus_step b0 b ->
  (forall sid s, heap b !! sid = Some s -> length (s_queue s) <= queue_bound s) /\
  (forall k buf, replay_buffers b !! k = Some buf ->
     length buf <= replay_buffer_max b /\ consecutive seq_of (oldest_retained b k) buf).
Proof.
  intros Hnew Hsteps. destruct (new_bus_inv _ _ _ Hnew) as [Hb0 _].
  pose proof (bus_steps_inv _ _ Hsteps Hb0) as Hb. split.
  - intros sid s Hs. by apply (bi_subs _ Hb sid).
  - intros k buf Hk. pose proof (run_inv_view b k (bi_runs _ Hb k)) as (_ & Hl & Hc & _).
    unfold oldest_retained. rewrite Hk in *. done.
Qed.

(** a run's terminal event is published at most once while anyone watches
    the run: after [publish_terminal_if_absent] returned [True], every later
    call returns [False] as long as one subscriber of the run stays
    registered. *)
Theorem terminal_published_once now ev d0 sid k b b1 b2 dl dl' now' ev' :
  bus_inv b -> acct d0 sid k b dl ->
  publish_terminal_if_absent now k.1 k.2 ev b = (b1, Ret true) ->
  rtc (traffic sid k) (b1, dl) (b2, dl') ->
  publish_terminal_if_absent now' k.1 k.2 ev' b2 = (b2, Ret false).
Proof.
  intros Hb Ha Hp Htr.
  assert (bus_inv b1 /\ acct d0 sid k b1 dl) as [Hb1 Ha1].
  { replace b1 with (publish_terminal_if_absent now k.1 k.2 ev b).1 by (by rewrite Hp).
    split; [by eapply bus_step_inv, Hb; constructor|by apply acct_publish_terminal]. }
  assert (k ∈ terminated_runs b1) as Hin.
  { unfold publish_terminal_if_absent in Hp. destruct (is_shutdown b); [done|].
    case_bool_decide; [done|]. cbn [record_event] in Hp. injection Hp as <-.
    unfold deliver. cbn [terminated_runs set_heap].
    match goal with
    | |- context [schedule_cleanup ?k' ?b'] =>
      destruct (cleanup_only_schedule k' b') as (m & t & ->)
    end. destruct k. simpl. set_solver. }
  destruct (traffic_star_terminated _ _ _ _ _ Htr Hb1 Ha1 Hin) as [Hin2 (s & _ & Hs & _)].
  destruct Hs as (_ & _ & _ & _ & Hopen). simpl in Hin2, Hopen.
  unfold publish_terminal_if_absent.
  rewrite Hopen, bool_decide_true; [done|by destruct k].
Qed.

(** publishing to one user's run leaves every subscriber of another user,
    and every per-run subscriber of another run, untouched. *)
Theorem publish_isolated now user run ev b sid s :
  heap b !! sid = Some s ->
  s_user_id s <> user \/ (exists r, s_control_run_id s = Some r /\ r <> run) ->
  heap (publish now user run ev b).1 !! sid = Some s.
Proof.
  intros Hs Hne. unfold publish. destruct (is_shutdown b); [done|].
  cbn [record_event fst]. rewrite lookup_deliver. cbn [heap set_runs]. rewrite Hs. simpl.
  assert (matches s user run = false) as ->; [|by rewrite andb_false_r].
  unfold matches. destruct Hne as [Hu|(r & -> & Hr)].
  - by rewrite bool_decide_false.
  - rewrite (bool_decide_false (r = run)) by done. apply andb_false_r.
Qed.

(** a per-run subscription ends by itself: once its stream has terminated a
    read never blocks, and the [__anext__] after the terminal event reports the
    end and releases the subscriber. *)
Theorem terminal_then_stop now es b sid s :
  es_closed es = false -> es_registered es = true -> es_subscriber es = sid ->
  es_stop_at_terminal es = true -> es_replay_events es = [] ->
  es_truncation_event es = None ->
  heap b !! sid = Some s -> s_stop_at_terminal s = true ->
  s_stream_terminated s = true ->
  exists b' es' out, anext now es b = (b', es', out) /\ out <> AWait /\
  (es_terminal_delivered es = true ->
     out = AStop /\ es_closed es' = true /\ b' = unsubscribe sid b) /\
  (forall e, out = ADeliver e -> be_terminal e = true ->
     es_terminal_delivered es' = true).
Proof.
  intros Hc Hr <- Hstop Hrep Htr Hs Hss Hst.
  unfold anext. rewrite Hc, Htr, Hrep, Hstop. simpl.
  destruct (es_terminal_delivered es) eqn:Htd.
  - unfold aclose. rewrite Hc, Hr. eexists _, _, _. split; [done|]. done.
  - unfold next_entry. rewrite Hs.
    destruct (s_dropped_count s); [destruct (s_queue s)|]; rewrite ?Hss, ?Hst; simpl.
    + unfold aclose. rewrite Hc, Hr.
      destruct (s_closed s || is_shutdown b); eexists _, _, _;
        (split; [done|]; split; [done|]; split; [done|]; by intros e [=]).
    + eexists _, _, _. split; [done|]. split; [done|]. split; [done|].
      intros e0 [= <-] He. simpl. by rewrite Hstop, He, orb_true_r.
    + eexists _, _, _. split; [done|]. split; [done|]. split; [done|].
      by intros e0 [= <-] He.
Qed.

(** ** Witnesses *)

Definition demo_user : str := u "alice".
Definition demo_run : str := u "run_1".
Definition demo_bus0 : UserEventBus := mkUserEventBus 1 2 ∅ ∅ ∅ ∅ ∅ ∅ ∅ false.
Definition demo_pub (n : Z) (b : UserEventBus) : UserEventBus :=
  (publish n demo_user demo_run demo_text b).1.
(** Three events with room for two in the buffer: the first is gone. *)
Definition demo_bus3 : UserEventBus := demo_pub 3 (demo_pub 2 (demo_pub 1 demo_bus0)).

Lemma demo_bus_steps : rtc bus_step demo_bus0 demo_bus3.
Proof.
  unfold demo_bus3, demo_pub.
  eapply rtc_l; [apply (bs_publish 1 demo_user demo_run demo_text)|].
  eapply rtc_l; [apply (bs_publish 2 demo_user demo_run demo_text)|].
  eapply rtc_l; [apply (bs_publish 3 demo_user demo_run demo_text)|].
  apply rtc_refl.
Defined.

Definition demo_sub := subscribe_entries 4 demo_user (Some demo_run) 0 demo_bus3.

Definition demo_dropped : BusEvent :=
  dropped_event 7 1 (Some 5%Z) (Some 4%Z) (Some demo_run).
Definition demo_key : run_key := (demo_user, demo_run).
Definition demo_sid : nat := es_subscriber demo_sub.2.
Definition demo_bus5 : UserEventBus := demo_pub 6 (demo_pub 5 demo_sub.1).
Definition demo_deliveries : list BusEvent := es_replay_events demo_sub.2 ++ [demo_dropped].
Definition demo_term :=
  publish_terminal_if_absent 8 demo_user demo_run demo_text demo_sub.1.

Lemma demo_open : is_shutdown demo_bus3 = false.
Proof. vm_compute. reflexivity. Qed.

Lemma demo_retained : oldest_retained demo_bus3 demo_key = 2%Z.
Proof. vm_compute. reflexivity. Qed.

Lemma demo_buffer_length : length (default [] (replay_buffers demo_bus3 !! demo_key)) = 2.
Proof. vm_compute. reflexivity. Qed.

Lemma demo_traffic :
  rtc (traffic demo_sid demo_key) (demo_sub.1, es_replay_events demo_sub.2)
    ((next_entry 7 demo_sid demo_bus5).1, demo_deliveries).
Proof.
  eapply rtc_l; [apply (tr_publish _ _ 5 demo_user demo_run demo_text)|].
  eapply rtc_l; [apply (tr_publish _ _ 6 demo_user demo_run demo_text)|].
  eapply rtc_l; [|apply rtc_refl]. apply (tr_read _ _ 7). apply pair_split.
  vm_compute. reflexivity.
Qed.

(** A consumer that saw nothing, on a bus that kept only events 2 and 3: it gets
    them after a truncation notice; two more events then overflow its queue of
    one, and the next read is the sentinel for event 4. *)
Lemma no_silent_gap_witness :
  is_Some (es_truncation_event demo_sub.2) /\
  exists told, accounted (Z.max (Z.max 0 0 + 1) (oldest_retained demo_bus3 demo_key))
    demo_deliveries told.
Proof.
  destruct (no_silent_gap 1 2 demo_bus0 demo_bus3 4 demo_user demo_run 0
    demo_sub.1 demo_sub.2 _ _ eq_refl demo_bus_steps demo_open
    (surjective_pairing demo_sub) demo_traffic) as [(s & told & _ & Hacc & _) Ht].
  split; [|exists told; exact Hacc].
  apply Ht. split; [intros Hnil|].
  - pose proof demo_buffer_length as Hl. unfold demo_key in Hl. rewrite Hnil in Hl.
    discriminate Hl.
  - change (demo_user, demo_run) with demo_key. rewrite demo_retained. reflexivity.
Defined.

(** A consumer that subscribes before the journal of its run is back-filled with
    three events: the next event it gets is the fourth. *)
Definition demo_early := subscribe_entries 1 demo_user (Some demo_run) 0 demo_bus0.
Definition demo_backfilled : UserEventBus :=
  demo_pub 3 (seed_replay_buffer 2 demo_user demo_run [demo_text; demo_text; demo_text] false demo_early.1).1.
Example backfill_skips_subscribers :
  es_replay_events demo_early.2 = [] /\ es_truncation_event demo_early.2 = None /\
  match (next_entry 4 (es_subscriber demo_early.2) demo_backfilled).2 with NEntry e => be_seq e = Some 4%Z | _ => False end.
Proof. vm_compute. done. Qed.

Lemma bus_memory_bounded_witness :
  length (default [] (replay_buffers demo_bus3 !! demo_key)) = 2 /\
  forall buf, replay_buffers demo_bus3 !! demo_key = Some buf ->
    length buf <= replay_buffer_max demo_bus3.
Proof.
  split; [exact demo_buffer_length|]. intros buf Hbuf.
  exact (proj1 (proj2 (bus_memory_bounded 1 2 demo_bus0 demo_bus3 eq_refl demo_bus_steps)
    demo_key buf Hbuf)).
Defined.

Lemma demo_sub_acct :
  bus_inv demo_sub.1 /\
  acct (Z.max (Z.max 0 0 + 1) (oldest_retained demo_bus3 demo_key)) demo_sid demo_key
    demo_sub.1 (es_replay_events demo_sub.2).
Proof.
  assert (bus_inv demo_bus3) as Hb.
  { eapply bus_steps_inv; [apply demo_bus_steps|]. by apply (new_bus_inv 1 2). }
  split; [exact (subscribe_entries_inv 4 demo_user (Some demo_run) 0 demo_bus3 Hb)|].
  exact (proj1 (subscribe_entries_acct 4 demo_user demo_run 0 demo_bus3 demo_sub.1
    demo_sub.2 Hb demo_open (surjective_pairing demo_sub))).
Qed.

Lemma demo_term_true : demo_term = (demo_term.1, Ret true).
Proof. apply pair_split. vm_compute. reflexivity. Qed.

Lemma terminal_published_once_witness :
  publish_terminal_if_absent 9 demo_user demo_run demo_text demo_term.1
  = (demo_term.1, Ret false).
Proof.
  exact (terminal_published_once 8 demo_text _ demo_sid demo_key demo_sub.1 demo_term.1
    _ _ _ 9 demo_text (proj1 demo_sub_acct) (proj2 demo_sub_acct) demo_term_true
    (rtc_refl _ _)).
Defined.

Definition demo_watcher : Subscriber :=
  new_subscriber demo_user None 4 0 false.
Definition demo_bus_bob : UserEventBus := (register_subscriber demo_watcher demo_bus0).1.

Lemma publish_isolated_witness :
  heap demo_bus_bob !! 0 = Some demo_watcher /\
  heap (publish 9 (u "bob") demo_run demo_text demo_bus_bob).1 !! 0 = Some demo_watcher.
Proof.
  split; [reflexivity|].
  apply publish_isolated; [reflexivity|]. left. discriminate.
Defined.

Definition demo_done_sub : Subscriber :=
  set_stream_terminated true (new_subscriber demo_user (Some demo_run) 4 0 true).
Definition demo_bus_done : UserEventBus := (register_subscriber demo_done_sub demo_bus0).1.

Lemma terminal_then_stop_witness :
  exists b' es' out,
    anext 9 (mkSubscription 0 [] None true false true true) demo_bus_done = (b', es', out) /\
    out = AStop.
Proof.
  destruct (terminal_then_stop 9 (mkSubscription 0 [] None true false true true)
    demo_bus_done 0 demo_done_sub eq_refl eq_refl eq_refl eq_refl eq_refl eq_refl
    eq_refl eq_refl eq_refl) as (b' & es' & out & Ha & _ & Hd & _).
  exists b', es', out. split; [exact Ha|]. apply (Hd eq_refl).
Defined.

End EventBus.
