(* ===== verification/ForkLedger.v ===== *)
(** * ForkLedger: durable fork receipts and paid-fork admissions

    Models [src/agent_gateway/fork_ledger.py]. The SQLite file is a [LedgerDB]:
    the two tables as maps keyed by [fork_id] and the clock watermark. Every
    row written by a statement is checked against the table's CHECK constraints
    ([receipt_check], [admission_check]); a violation is SQLite's
    IntegrityError, which [_transaction] turns into [ForkLedgerUnavailable].
    Values SQLite cannot bind (lone surrogates, integers over 63 bits) raise as
    in Python. A call receives its environment in [Env]: the clock reading and
    the faults of the file layer (connection, identity check), which is not
    modelled. Tokens drawn by [uuid4] are supplied as a list of draws. The fork
    journal is the task list its [TaskRegistry] shows. *)
From Stdlib Require Import Sorting.Sorted.
From S2P Require Import Prelude.

Module ForkLedger.

(** ** Errors *)
Inductive sql_error := IntegrityError | IntegerOverflow | SchemaIncompatible | FileUnavailable.

Inductive ledger_error :=
| TypeError
| ValueError
| InvalidOperation
| OverflowError
| UnicodeEncodeError
| ForkLedgerUnavailable (why : sql_error)
| ForkLedgerIdentityError
| ForkLedgerClockRollback
| ForkLedgerDuplicate
| JournalError.

(** ** Argument validation *)
Definition MAX_TEXT_LENGTH : nat := Z.to_nat 4096.
Definition MAX_INT64 : Z := 2 ^ 63 - 1.

(** [_required_text] *)
Definition required_text (v : json) : outcome ledger_error str :=
  match v with
  | JStr s =>
    if bool_decide (s = []) || existsb (fun c => (c =? 0)%N) s
       || negb (bool_decide (s = py_strip s)) || (MAX_TEXT_LENGTH <? length s)
    then Raise ValueError
    else Ret s
  | _ => Raise TypeError
  end.

(** [_one_line] *)
Definition one_line (v : json) : outcome ledger_error str :=
  let? t := required_text v in
  if existsb (fun c => (c =? 10)%N || (c =? 13)%N) t then Raise ValueError else Ret t.

(** [_positive_int]: [type(value) is not int] also refuses a bool. *)
Definition positive_int (v : json) : outcome ledger_error Z :=
  match v with
  | JInt z => if (z <=? 0)%Z then Raise ValueError else Ret z
  | _ => Raise ValueError
  end.

(** ** Money *)

(** A [decimal.Decimal]: sign, coefficient and exponent, or a special value. *)
Inductive Decimal :=
| DFinite (neg : bool) (coeff : N) (exp : Z)
| DInfinity
| DNaN.

Definition take_sign (s : str) : bool * str :=
  match s with
  | c :: s' => if (c =? 45)%N then (true, s') else if (c =? 43)%N then (false, s') else (false, s)
  | [] => (false, [])
  end.

(** The exponent part of the numeric grammar: nothing, or [e] sign? digits. *)
Definition parse_exp (s : str) : option Z :=
  match s with
  | [] => Some 0%Z
  | c :: s' =>
    if (c =? 101)%N || (c =? 69)%N then
      let '(neg, ds) := take_sign s' in
      if forallb is_digit ds && negb (bool_decide (ds = []))
      then Some (if neg then - Z.of_N (digits_val ds) else Z.of_N (digits_val ds))%Z
      else None
    else None
  end.

Definition parse_number (neg : bool) (s : str) : option Decimal :=
  let '(ip, r) := span is_digit s in
  let '(fp, r2) :=
    match r with
    | c :: r' => if (c =? 46)%N then span is_digit r' else ([], r)
    | [] => ([], [])
    end in
  if bool_decide (ip ++ fp = []) then None
  else match parse_exp r2 with
       | Some e => Some (DFinite neg (digits_val (ip ++ fp)) (e - Z.of_nat (length fp)))
       | None => None
       end.

(** [Decimal(text)]: [None] where the constructor raises [InvalidOperation].
    Surrounding white space and underscores are dropped; digits are ASCII. *)
Definition decimal_of_str (text : str) : option Decimal :=
  let '(neg, s) := take_sign (filter (fun c => c <> 95%N) (py_strip text)) in
  let l := sql_lower s in
  if bool_decide (l = u "inf") || bool_decide (l = u "infinity") then Some DInfinity
  else
    let payload p := py_startswith p l && forallb is_digit (drop (length p) l) in
    if payload (u "nan") || payload (u "snan") then Some DNaN
    else parse_number neg s.

(** [amount.quantize(MICRO_USD, ROUND_HALF_UP)] of a non-negative amount, as a
    count of micro-dollars; more than the context's 28 digits is refused. *)
Definition quantize_micros (coeff : N) (exp : Z) : outcome ledger_error Z :=
  let c :=
    (if -6 <=? exp then Z.of_N coeff * 10 ^ (exp + 6)
     else let d := 10 ^ (- 6 - exp) in (2 * Z.of_N coeff + d) / (2 * d))%Z in
  if (10 ^ 28 <=? c)%Z then Raise InvalidOperation else Ret c.

(** [_usd_to_micros] on [str(value)]. The product [quantized * 1_000_000] has at
    most 34 digits of which the last six are zeros, so it is exact. *)
Definition usd_to_micros (allow_zero : bool) (value : str) : outcome ledger_error Z :=
  match decimal_of_str value with
  | Some (DFinite neg coeff exp) =>
    if (neg && negb (coeff =? 0)%N) || ((coeff =? 0)%N && negb allow_zero) then Raise ValueError
    else
      let? micros := quantize_micros coeff exp in
      if (micros =? 0)%Z && negb allow_zero then Raise ValueError
      else if (MAX_INT64 <? micros)%Z then Raise ValueError
      else Ret micros
  | _ => Raise ValueError
  end.

(** [_micros_to_usd]: the quantized quotient has exponent -6. *)
Definition micros_to_usd (v : Z) : Decimal := DFinite (v <? 0)%Z (Z.abs_N v) (-6).

(** [str] of a non-negative [Decimal] with exponent -6. *)
Definition usd_str (micros : N) : str :=
  let frac := N_to_str (micros mod 1000000)%N in
  N_to_str (micros / 1000000)%N ++ u "." ++ replicate (6 - length frac) 48%N ++ frac.

(** ** The UTC calendar day *)
Definition NS_PER_DAY : Z := 86400 * 1000000000.

(** [datetime.fromtimestamp(s, tz=utc).date()] of day [days] since 1970-01-01. *)
Definition civil (days : Z) : Z * Z * Z :=
  (let z := days + 719468 in
   let era := z / 146097 in
   let doe := z mod 146097 in
   let yoe := (doe - doe / 1460 + doe / 36524 - doe / 146096) / 365 in
   let doy := doe - (365 * yoe + yoe / 4 - yoe / 100) in
   let mp := (5 * doy + 2) / 153 in
   let d := doy - (153 * mp + 2) / 5 + 1 in
   let m := if mp <? 10 then mp + 3 else mp - 9 in
   (yoe + era * 400 + (if m <=? 2 then 1 else 0), m, d))%Z.

Definition digit (n : Z) : N := (48 + Z.to_N (n mod 10))%N.
Definition two_digits (n : Z) : str := [digit (n / 10); digit n].
Definition four_digits (n : Z) : str := two_digits (n / 100) ++ two_digits n.

(** [.isoformat()] *)
Definition isoformat (ymd : Z * Z * Z) : str :=
  let '(y, m, d) := ymd in
  four_digits y ++ u "-" ++ two_digits m ++ u "-" ++ two_digits d.

(** [_utc_day] *)
Definition utc_day (now_ns : Z) : str :=
  isoformat (civil ((now_ns / 1000000000) / 86400)%Z).

(** ** Rows and their CHECK constraints *)
Inductive ReceiptState := RPending | RClaimed | RAcked.
Inductive AdmissionState := AReserved | AStarted | ASettled | AAbandoned.
#[global] Instance ReceiptState_eq : EqDecision ReceiptState.
Proof. solve_decision. Defined.
#[global] Instance AdmissionState_eq : EqDecision AdmissionState.
Proof. solve_decision. Defined.

Record Receipt := mkReceipt {
  r_session_id : str;
  r_owner : str;
  r_text : str;
  r_state : ReceiptState;
  r_claim_token : option str;
  r_claiming_turn_id : option str;
  r_process_instance_id : option str;
  r_created_at_ns : Z;
  r_updated_at_ns : Z;
  r_claimed_at_ns : option Z;
  r_acked_at_ns : option Z
}.

Record Admission := mkAdmission {
  a_owner : str;
  a_date : str;
  a_max_reserved : Z;
  a_settled : option Z;
  a_state : AdmissionState;
  a_process_instance_id : str;
  a_created_at_ns : Z;
  a_updated_at_ns : Z;
  a_started_at_ns : option Z;
  a_settled_at_ns : option Z
}.

Definition is_null {A} (o : option A) : bool := match o with None => true | _ => false end.
Definition not_null {A} (o : option A) : bool := negb (is_null o).

(** [length(t) BETWEEN 1 AND 4096 AND t = trim(t)] *)
Definition text_check (t : str) : bool :=
  (1 <=? length t) && (length t <=? MAX_TEXT_LENGTH) && bool_decide (t = sql_trim t).

(** The constraints of [_RECEIPTS_SQL]. *)
Definition receipt_check (fork_id : str) (r : Receipt) : bool :=
  text_check fork_id && text_check (r_session_id r) && text_check (r_owner r)
  && (1 <=? length (r_text r)) && (length (r_text r) <=? MAX_TEXT_LENGTH)
  && negb (existsb (fun c => (c =? 10)%N || (c =? 13)%N) (r_text r))
  && (0 <? r_created_at_ns r)%Z && (r_created_at_ns r <=? r_updated_at_ns r)%Z
  && match r_state r with
     | RPending => is_null (r_claim_token r) && is_null (r_claiming_turn_id r)
                   && is_null (r_process_instance_id r)
     | RClaimed => not_null (r_claim_token r) && not_null (r_claiming_turn_id r)
                   && not_null (r_process_instance_id r) && not_null (r_claimed_at_ns r)
     | RAcked => not_null (r_claim_token r) && not_null (r_claiming_turn_id r)
                 && not_null (r_process_instance_id r) && not_null (r_claimed_at_ns r)
                 && not_null (r_acked_at_ns r)
     end.

(** [GLOB '[0-9][0-9][0-9][0-9]-[0-9][0-9]-[0-9][0-9]'] of length 10 *)
Definition date_check (d : str) : bool :=
  match d with
  | [y1; y2; y3; y4; s1; m1; m2; s2; d1; d2] =>
    forallb is_digit [y1; y2; y3; y4; m1; m2; d1; d2] && (s1 =? 45)%N && (s2 =? 45)%N
  | _ => false
  end.

(** The constraints of [_ADMISSIONS_SQL]. *)
Definition admission_check (fork_id : str) (a : Admission) : bool :=
  text_check fork_id && text_check (a_owner a) && date_check (a_date a)
  && (0 <? a_max_reserved a)%Z
  && match a_settled a with None => true | Some z => (0 <=? z)%Z end
  && text_check (a_process_instance_id a)
  && (0 <? a_created_at_ns a)%Z && (a_created_at_ns a <=? a_updated_at_ns a)%Z
  && match a_state a with
     | AReserved => is_null (a_started_at_ns a) && is_null (a_settled_at_ns a)
                    && is_null (a_settled a)
     | AStarted => not_null (a_started_at_ns a) && is_null (a_settled_at_ns a)
                   && is_null (a_settled a)
     | ASettled | AAbandoned => not_null (a_settled_at_ns a) && not_null (a_settled a)
     end.

(** The extra bound of [_V1_ADMISSIONS_SQL]. *)
Definition admission_check_v1 (fork_id : str) (a : Admission) : bool :=
  admission_check fork_id a
  && match a_settled a with None => true | Some z => (z <=? a_max_reserved a)%Z end.

Record LedgerDB := mkDB {
  receipts : gmap str Receipt;
  admissions : gmap str Admission;
  last_observed_wall_ns : Z
}.

Definition set_receipts (m : gmap str Receipt) (db : LedgerDB) : LedgerDB :=
  mkDB m (admissions db) (last_observed_wall_ns db).
Definition set_admissions (m : gmap str Admission) (db : LedgerDB) : LedgerDB :=
  mkDB (receipts db) m (last_observed_wall_ns db).
Definition set_clock (n : Z) (db : LedgerDB) : LedgerDB :=
  mkDB (receipts db) (admissions db) n.

(** ** Statements *)
Abbreviation L := (SE LedgerDB ledger_error).

(** Parameter binding by the sqlite3 module. *)
Definition surrogate (c : N) : bool := ((55296 <=? c) && (c <=? 57343))%N.
Definition bind_texts (ts : list str) : L unit :=
  if existsb (existsb surrogate) ts then se_raise UnicodeEncodeError else se_ret tt.
Definition bind_int (n : Z) : L unit :=
  if (MAX_INT64 <? n)%Z || (n <? - 2 ^ 63)%Z then se_raise OverflowError else se_ret tt.

Definition upd {R} (p : str -> R -> bool) (f : R -> R) (m : gmap str R) : gmap str R :=
  map_imap (fun k r => Some (if p k r then f r else r)) m.

(** [UPDATE t SET ... WHERE p]: the rows matched by [p] are rewritten by [f]
    and checked; the count is [rowcount]. *)
Definition update_rows {R} (check : str -> R -> bool) (p : str -> R -> bool) (f : R -> R)
    (m : gmap str R) : outcome ledger_error (gmap str R * nat) :=
  if bool_decide (map_Forall (fun k r => p k r = true -> check k (f r) = true) m)
  then Ret (upd p f m, size (filter (fun kr => p kr.1 kr.2 = true) m))
  else Raise (ForkLedgerUnavailable IntegrityError).

Definition update_receipts (p : str -> Receipt -> bool) (f : Receipt -> Receipt) : L nat :=
  let! db := se_get in
  let! res := se_lift (update_rows receipt_check p f (receipts db)) in
  let! _ := se_put (set_receipts res.1 db) in
  se_ret res.2.

Definition update_admissions (p : str -> Admission -> bool) (f : Admission -> Admission) : L nat :=
  let! db := se_get in
  let! res := se_lift (update_rows admission_check p f (admissions db)) in
  let! _ := se_put (set_admissions res.1 db) in
  se_ret res.2.

(** ** Transactions *)

(** What one call sees of its surroundings: the value the clock returns and
    the fault, if any, of connecting and of the check before the commit. *)
Inductive file_fault := FUnavailable | FIdentity.

Record Env := mkEnv {
  clock_ns : json;
  connect_fault : option file_fault;
  commit_fault : option file_fault
}.

Definition fault (o : option file_fault) : L unit :=
  match o with
  | Some FUnavailable => se_raise (ForkLedgerUnavailable FileUnavailable)
  | Some FIdentity => se_raise ForkLedgerIdentityError
  | None => se_ret tt
  end.

(** [_now_ns] *)
Definition now_ns (env : Env) : outcome ledger_error Z :=
  match clock_ns env with
  | JInt z => if (z <=? 0)%Z then Raise ValueError else Ret z
  | _ => Raise ValueError
  end.

(** [_observe_clock] *)
Definition observe_clock (now : Z) : L str :=
  let! db := se_get in
  if (now <? last_observed_wall_ns db)%Z then se_raise ForkLedgerClockRollback
  else
    let! _ := bind_int now in
    let! _ := se_put (set_clock now db) in
    se_ret (utc_day now).

(** [_transaction] *)
Definition transaction {A} (env : Env) (operation : Z -> str -> L A) : L A :=
  transact (
    let! _ := fault (connect_fault env) in
    let! now := se_lift (now_ns env) in
    let! day := observe_clock now in
    let! result := operation now day in
    let! _ := fault (commit_fault env) in
    se_ret result).

(** ** Receipts *)

(** [write_receipt] *)
Definition write_receipt (env : Env) (fork_id session_id owner receipt_text : json) : L bool :=
  let! fork_id := se_lift (required_text fork_id) in
  let! session_id := se_lift (required_text session_id) in
  let! owner := se_lift (required_text owner) in
  let! receipt_text := se_lift (one_line receipt_text) in
  transaction env (fun now _ =>
    let! _ := bind_texts [fork_id; session_id; owner; receipt_text] in
    let! db := se_get in
    let row := mkReceipt session_id owner receipt_text RPending None None None now now None None in
    match receipts db !! fork_id with
    | None =>
      if receipt_check fork_id row
      then let! _ := se_put (set_receipts (<[fork_id := row]> (receipts db)) db) in se_ret true
      else se_raise ForkLedgerDuplicate
    | Some ex =>
      if bool_decide ((r_session_id ex, r_owner ex, r_text ex) = (session_id, owner, receipt_text))
      then se_ret false
      else se_raise ForkLedgerDuplicate
    end).

Record ReceiptClaim := mkClaim {
  c_fork_id : str;
  c_session_id : str;
  c_owner : str;
  c_receipt_text : str;
  c_claim_token : str;
  c_claiming_turn_id : str;
  c_process_instance_id : str
}.

(** [ORDER BY created_at_ns, fork_id]: text compares bytewise in UTF-8, which
    is the order of code points. *)
Fixpoint str_leb (a b : str) : bool :=
  match a, b with
  | [], _ => true
  | _ :: _, [] => false
  | x :: a', y :: b' => (x <? y)%N || ((x =? y)%N && str_leb a' b')
  end.

Definition older (x y : str * Receipt) : bool :=
  (r_created_at_ns x.2 <? r_created_at_ns y.2)%Z
  || ((r_created_at_ns x.2 =? r_created_at_ns y.2)%Z && str_leb x.1 y.1).

Fixpoint insert_older (x : str * Receipt) (l : list (str * Receipt)) : list (str * Receipt) :=
  match l with
  | [] => [x]
  | y :: l' => if older x y then x :: l else y :: insert_older x l'
  end.
Definition order_rows (l : list (str * Receipt)) : list (str * Receipt) := foldr insert_older [] l.

Definition pending_rows (session owner : str) (limit : Z) (m : gmap str Receipt) : list (str * Receipt) :=
  take (Z.to_nat limit)
    (order_rows (filter (fun kr => r_session_id kr.2 = session /\ r_owner kr.2 = owner
                                   /\ r_state kr.2 = RPending) (map_to_list m))).

Definition claim_row (token turn pid : str) (now : Z) (r : Receipt) : Receipt :=
  mkReceipt (r_session_id r) (r_owner r) (r_text r) RClaimed (Some token) (Some turn) (Some pid)
    (r_created_at_ns r) now (Some now) (r_acked_at_ns r).

(** The loop of [claim_pending_receipts]: one token per selected row. *)
Fixpoint claim_loop (tokens : list str) (session owner turn pid : str) (now : Z)
    (rows : list (str * Receipt)) : L (list ReceiptClaim) :=
  match rows, tokens with
  | (fork, r) :: rows', token :: tokens' =>
    let! n := update_receipts
      (fun k x => bool_decide (k = fork) && bool_decide (r_state x = RPending))
      (claim_row token turn pid now) in
    let! claims := claim_loop tokens' session owner turn pid now rows' in
    se_ret (if n =? 1 then mkClaim fork session owner (r_text r) token turn pid :: claims else claims)
  | _, _ => se_ret []
  end.

(** [claim_pending_receipts]; [tokens n] is the token of the [n]th [uuid4]. *)
Definition claim_pending_receipts (self : str) (env : Env) (tokens : nat -> str)
    (session_id owner claiming_turn_id limit : json) : L (list ReceiptClaim) :=
  let! session_id := se_lift (required_text session_id) in
  let! owner := se_lift (required_text owner) in
  let! claiming_turn_id := se_lift (required_text claiming_turn_id) in
  let! limit := se_lift (positive_int limit) in
  transaction env (fun now _ =>
    let! _ := bind_texts [session_id; owner] in
    let! _ := bind_int limit in
    let! db := se_get in
    let rows := pending_rows session_id owner limit (receipts db) in
    let! _ := bind_texts (match rows with [] => [] | _ => [claiming_turn_id; self] end) in
    claim_loop (tokens <$> seq 0 (length rows)) session_id owner claiming_turn_id self now rows).

Definition ack_row (now : Z) (r : Receipt) : Receipt :=
  mkReceipt (r_session_id r) (r_owner r) (r_text r) RAcked (r_claim_token r) (r_claiming_turn_id r)
    (r_process_instance_id r) (r_created_at_ns r) now (r_claimed_at_ns r) (Some now).

Definition release_row (now : Z) (r : Receipt) : Receipt :=
  mkReceipt (r_session_id r) (r_owner r) (r_text r) RPending None None None
    (r_created_at_ns r) now None (r_acked_at_ns r).

Definition holds_claim (fork token : str) (k : str) (r : Receipt) : bool :=
  bool_decide (k = fork) && bool_decide (r_state r = RClaimed)
  && bool_decide (r_claim_token r = Some token).

(** [_finish_receipt_claim], behind [ack_receipt] and [revert_receipt_claim]. *)
Definition finish_receipt_claim (env : Env) (fork_id claim_token : json) (ack : bool) : L bool :=
  let! fork_id := se_lift (required_text fork_id) in
  let! claim_token := se_lift (required_text claim_token) in
  transaction env (fun now _ =>
    let! _ := bind_texts [fork_id; claim_token] in
    let! n := update_receipts (holds_claim fork_id claim_token)
                (if ack then ack_row now else release_row now) in
    se_ret (n =? 1)).

Definition ack_receipt (env : Env) (fork_id claim_token : json) : L bool :=
  finish_receipt_claim env fork_id claim_token true.
Definition revert_receipt_claim (env : Env) (fork_id claim_token : json) : L bool :=
  finish_receipt_claim env fork_id claim_token false.

(** ** Admissions *)
Record AdmissionRecord := mkRecord {
  ar_fork_id : str;
  ar_owner : str;
  ar_date : str;
  ar_max_reserved_usd : Decimal;
  ar_settled_usd : option Decimal;
  ar_state : AdmissionState;
  ar_process_instance_id : str
}.

Record AdmissionReservation := mkReservation {
  record : AdmissionRecord;
  day_invocations : Z;
  day_charged_microusd : Z
}.

Definition in_flight (a : Admission) : bool :=
  match a_state a with AReserved | AStarted => true | _ => false end.

(** The [CASE] of the day total. *)
Definition charge (a : Admission) : Z :=
  if in_flight a then a_max_reserved a else default 0%Z (a_settled a).

Definition day_rows (owner day : str) (m : gmap str Admission) : list Admission :=
  filter (fun a => a_owner a = owner /\ a_date a = day) (map_to_list m).*2.

Definition sum_charges (l : list Admission) : Z := foldr (fun a z => charge a + z)%Z 0%Z l.

(** [reserve_admission]; SQLite's [SUM] fails on 64-bit overflow. *)
Definition reserve_admission (self : str) (env : Env) (fork_id owner : json)
    (max_reserved_usd : str) : L AdmissionReservation :=
  let! fork_id := se_lift (required_text fork_id) in
  let! owner := se_lift (required_text owner) in
  let! reserved := se_lift (usd_to_micros false max_reserved_usd) in
  transaction env (fun now day =>
    let! _ := bind_texts [fork_id] in
    let! db := se_get in
    if not_null (admissions db !! fork_id) then se_raise ForkLedgerDuplicate
    else
      let! _ := bind_texts [owner] in
      let rows := day_rows owner day (admissions db) in
      let total := sum_charges rows in
      if (MAX_INT64 <? total)%Z then se_raise (ForkLedgerUnavailable IntegerOverflow)
      else
        let! _ := bind_texts [self] in
        let row := mkAdmission owner day reserved None AReserved self now now None None in
        if admission_check fork_id row then
          let! _ := se_put (set_admissions (<[fork_id := row]> (admissions db)) db) in
          se_ret (mkReservation
            (mkRecord fork_id owner day (micros_to_usd reserved) None AReserved self)
            (Z.of_nat (length rows) + 1) (total + reserved))
        else se_raise (ForkLedgerUnavailable IntegrityError)).

Definition start_row (now : Z) (a : Admission) : Admission :=
  mkAdmission (a_owner a) (a_date a) (a_max_reserved a) (a_settled a) AStarted
    (a_process_instance_id a) (a_created_at_ns a) now (Some now) (a_settled_at_ns a).
Definition settle_row (actual now : Z) (a : Admission) : Admission :=
  mkAdmission (a_owner a) (a_date a) (a_max_reserved a) (Some actual) ASettled
    (a_process_instance_id a) (a_created_at_ns a) now (a_started_at_ns a) (Some now).
Definition abandon_row (now : Z) (a : Admission) : Admission :=
  mkAdmission (a_owner a) (a_date a) (a_max_reserved a) (Some (a_max_reserved a)) AAbandoned
    (a_process_instance_id a) (a_created_at_ns a) now (a_started_at_ns a) (Some now).
Definition adopt_row (self : str) (now : Z) (a : Admission) : Admission :=
  mkAdmission (a_owner a) (a_date a) (a_max_reserved a) (a_settled a) (a_state a)
    self (a_created_at_ns a) now (a_started_at_ns a) (a_settled_at_ns a).

(** [fork_id = ? AND process_instance_id = ?] *)
Definition owned (fork self : str) (k : str) (a : Admission) : bool :=
  bool_decide (k = fork) && bool_decide (a_process_instance_id a = self).

(** [mark_admission_started] *)
Definition mark_admission_started (self : str) (env : Env) (fork_id : json) : L bool :=
  let! fork_id := se_lift (required_text fork_id) in
  transaction env (fun now _ =>
    let! _ := bind_texts [fork_id; self] in
    let! n := update_admissions
      (fun k a => owned fork_id self k a && bool_decide (a_state a = AReserved)) (start_row now) in
    se_ret (n =? 1)).

(** [settle_admission] *)
Definition settle_admission (self : str) (env : Env) (fork_id : json) (actual_cost_usd : str) : L bool :=
  let! fork_id := se_lift (required_text fork_id) in
  let! actual := se_lift (usd_to_micros true actual_cost_usd) in
  transaction env (fun now _ =>
    let! _ := bind_texts [fork_id; self] in
    let! n := update_admissions (fun k a => owned fork_id self k a && in_flight a)
                (settle_row actual now) in
    se_ret (n =? 1)).

(** [abandon_admission] *)
Definition abandon_admission (self : str) (env : Env) (fork_id : json) : L bool :=
  let! fork_id := se_lift (required_text fork_id) in
  transaction env (fun now _ =>
    let! _ := bind_texts [fork_id; self] in
    let! n := update_admissions (fun k a => owned fork_id self k a && in_flight a)
                (abandon_row now) in
    se_ret (n =? 1)).

(** [get_admission]: no transaction, no clock. *)
Definition get_admission (env : Env) (fork_id : json) : L (option AdmissionRecord) :=
  let! fork_id := se_lift (required_text fork_id) in
  let! _ := fault (connect_fault env) in
  let! _ := bind_texts [fork_id] in
  let! db := se_get in
  se_ret ((fun a => mkRecord fork_id (a_owner a) (a_date a) (micros_to_usd (a_max_reserved a))
             (micros_to_usd <$> a_settled a) (a_state a) (a_process_instance_id a))
          <$> admissions db !! fork_id).

(** ** Crash recovery *)

(** A task of the fork's journal as [TaskRegistry.list_tasks] shows it. *)
Record TaskView := mkTaskView {
  tv_delegation_id : option str;   (* of an admitted ordinary delegation *)
  tv_attempt_number : Z;
  tv_awaiting_approval : bool;
  tv_committed : bool
}.

(** [max(attempts, key=...)]: the first of the greatest. *)
Fixpoint latest_attempt (best : TaskView) (l : list TaskView) : TaskView :=
  match l with
  | [] => best
  | t :: l' => latest_attempt (if (tv_attempt_number best <? tv_attempt_number t)%Z then t else best) l'
  end.

(** [_journal_holds_committed_park] *)
Definition journal_holds_committed_park (journal : option (list TaskView)) (fork : str) : bool :=
  match journal with
  | None => false
  | Some tasks =>
    match filter (fun t => tv_delegation_id t = Some fork) tasks with
    | [] => false
    | t :: ts => let latest := latest_attempt t ts in tv_awaiting_approval latest && tv_committed latest
    end
  end.

(** Which instances are dead: all outside a live set, or one. *)
Inductive dead_set := OutsideLive (live : list str) | DeadInstance (pid : str).

Definition is_dead (ds : dead_set) (pid : option str) : bool :=
  match ds, pid with
  | OutsideLive live, Some p => negb (bool_decide (p ∈ live))
  | OutsideLive _, None => true
  | DeadInstance d, Some p => bool_decide (p = d)
  | DeadInstance _, None => false
  end.

(** The argument checks of [reconcile_startup]. *)
Definition reconcile_target (self : str) (live dead : json) : outcome ledger_error dead_set :=
  let is_none v := match v with JNull => true | _ => false end in
  if eqb (is_none live) (is_none dead) then Raise TypeError
  else if is_none live then
    let? d := required_text dead in
    if bool_decide (d = self) then Raise ValueError else Ret (DeadInstance d)
  else
    let? vs := (match live with
                | JList vs => Ret vs
                | JDict d => Ret (JStr <$> d.*1)
                | _ => Raise TypeError
                end) in
    let? ids := omap_list required_text vs in
    if bool_decide (self ∈ ids) then Ret (OutsideLive ids) else Raise ValueError.

(** [fork_journal]: the outer [None] is a read that raises. *)
Abbreviation Journals := (str -> option (option (list TaskView))).

(** The adoption loop: the parked forks of dead instances move to [self]. *)
Fixpoint adopt_loop (self : str) (journal : Journals) (now : Z) (forks : list str) : L unit :=
  match forks with
  | [] => se_ret tt
  | fork :: forks' =>
    let! j := se_lift (match journal fork with Some j => Ret j | None => Raise JournalError end) in
    let! _ :=
      if journal_holds_committed_park j fork
      then let! _ := bind_texts [self] in update_admissions (fun k a => bool_decide (k = fork) && bool_decide (a_state a = AStarted))
             (adopt_row self now)
      else se_ret 0 in
    adopt_loop self journal now forks'
  end.

Definition dead_started (ds : dead_set) (m : gmap str Admission) : list str :=
  (filter (fun ka => a_state ka.2 = AStarted /\ is_dead ds (Some (a_process_instance_id ka.2)) = true)
     (map_to_list m)).*1.

(** [reconcile_startup] *)
Definition reconcile_startup (self : str) (env : Env) (journal : Journals)
    (live dead : json) : L (nat * nat) :=
  let! ds := se_lift (reconcile_target self live dead) in
  transaction env (fun now _ =>
    let! _ := bind_texts (match ds with OutsideLive ids => ids | DeadInstance d => [d] end) in
    let! released := update_receipts
      (fun _ r => bool_decide (r_state r = RClaimed) && is_dead ds (r_process_instance_id r))
      (release_row now) in
    let! db := se_get in
    let! _ := adopt_loop self journal now (dead_started ds (admissions db)) in
    let! abandoned := update_admissions
      (fun _ a => in_flight a && is_dead ds (Some (a_process_instance_id a)))
      (abandon_row now) in
    se_ret (released, abandoned)).

(** ** Opening a ledger *)

(** A database file: nothing in it, the exact objects of a version with their
    rows, or something else. *)
Inductive schema := SEmpty | SV1 | SV2 | SOther.
#[global] Instance schema_eq : EqDecision schema.
Proof. solve_decision. Defined.

Record LedgerFile := mkFile {
  user_version : Z;
  objects : schema;
  content : LedgerDB
}.

(** The instance id [__init__] accepts. *)
Definition valid_instance (self : str) : Prop := required_text (JStr self) = Ret self.

Definition empty_db : LedgerDB := mkDB ∅ ∅ 0.

(** [_validate_schema] *)
Definition validate_schema (version : Z) (s : schema) (f : LedgerFile) : outcome ledger_error unit :=
  if negb (user_version f =? version)%Z || negb (bool_decide (objects f = s))
     || (last_observed_wall_ns (content f) <? 0)%Z
  then Raise (ForkLedgerUnavailable SchemaIncompatible) else Ret tt.

(** [_migrate_v1]: the rows are copied through the v2 constraints. *)
Definition migrate_v1 (f : LedgerFile) : outcome ledger_error LedgerFile :=
  let? _ := validate_schema 1 SV1 f in
  if bool_decide (map_Forall (fun k a => admission_check k a = true) (admissions (content f)))
  then Ret (mkFile 2 SV2 (content f))
  else Raise (ForkLedgerUnavailable IntegrityError).

(** [_prepare], after the file checks. *)
Definition prepare (f : LedgerFile) : outcome ledger_error LedgerFile :=
  let? f' :=
    (if bool_decide (objects f = SEmpty) then Ret (mkFile 2 SV2 empty_db)
     else if (user_version f =? 1)%Z then migrate_v1 f else Ret f) in
  let? _ := validate_schema 2 SV2 f' in
  Ret f'.

(** ** The system: every operation by any instance *)
Inductive ledger_call : forall A : Type, L A -> Prop :=
| lc_write env f s o t : ledger_call _ (write_receipt env f s o t)
| lc_claim self env toks s o t l :
    valid_instance self -> ledger_call _ (claim_pending_receipts self env toks s o t l)
| lc_finish env f t ack : ledger_call _ (finish_receipt_claim env f t ack)
| lc_reserve self env f o usd :
    valid_instance self -> ledger_call _ (reserve_admission self env f o usd)
| lc_start self env f : valid_instance self -> ledger_call _ (mark_admission_started self env f)
| lc_settle self env f usd : valid_instance self -> ledger_call _ (settle_admission self env f usd)
| lc_abandon self env f : valid_instance self -> ledger_call _ (abandon_admission self env f)
| lc_reconcile self env j live dead :
    valid_instance self -> ledger_call _ (reconcile_startup self env j live dead)
| lc_get env f : ledger_call _ (get_admission env f).

Inductive ledger_step (db : LedgerDB) : LedgerDB -> Prop :=
| ledger_step_call A (m : L A) : ledger_call A m -> ledger_step db (m db).1.

(** Rows satisfy their constraints and are not newer than the watermark. *)
Record db_inv (db : LedgerDB) : Prop := {
  di_clock : (0 <= last_observed_wall_ns db <= MAX_INT64)%Z;
  di_receipts : forall k r, receipts db !! k = Some r ->
    receipt_check k r = true /\ (r_updated_at_ns r <= last_observed_wall_ns db)%Z;
  di_admissions : forall k a, admissions db !! k = Some a ->
    admission_check k a = true /\ (a_updated_at_ns a <= last_observed_wall_ns db)%Z
}.

(** ** Lemmas *)

(** *** Monad and statements *)
Lemma lookup_upd {R} (p : str -> R -> bool) (f : R -> R) (m : gmap str R) (k : str) :
  upd p f m !! k = (fun r => if p k r then f r else r) <$> m !! k.
Proof. unfold upd. rewrite map_lookup_imap. by destruct (m !! k). Qed.

Lemma lookup_upd_some {R} (p : str -> R -> bool) (f : R -> R) (m : gmap str R) (k : str) (r : R) :
  m !! k = Some r -> upd p f m !! k = Some (if p k r then f r else r).
Proof. intros H. by rewrite lookup_upd, H. Qed.

Lemma upd_key_ne {R} (p : str -> R -> bool) (f : R -> R) (m : gmap str R) (k : str) :
  (forall r, p k r = false) -> upd p f m !! k = m !! k.
Proof. intros H. rewrite lookup_upd. destruct (m !! k); [|done]. simpl. by rewrite H. Qed.

Lemma update_rows_ok {R} (check p : str -> R -> bool) (f : R -> R) (m : gmap str R) :
  (forall k r, m !! k = Some r -> p k r = true -> check k (f r) = true) ->
  update_rows check p f m = Ret (upd p f m, size (filter (fun kr => p kr.1 kr.2 = true) m)).
Proof. intros H. unfold update_rows. rewrite bool_decide_eq_true_2; [done|]. intros k r; eauto. Qed.

(** The row count of a statement keyed by [fork_id]. *)
Lemma count_key {R} (p : str -> R -> bool) (m : gmap str R) fork :
  (forall k r, p k r = true -> k = fork) ->
  (size (filter (fun kr => p kr.1 kr.2 = true) m) =? 1) =
  match m !! fork with Some r => p fork r | None => false end.
Proof.
  intros Hp. set (F := filter _ m).
  assert (forall k r, F !! k = Some r -> k = fork) as Hk.
  { intros k r [_ H]%map_lookup_filter_Some. by apply Hp in H. }
  destruct (F !! fork) as [r|] eqn:Hf.
  - pose proof (proj1 (map_lookup_filter_Some _ _ _ _) Hf) as [Hr Hpr].
    assert (F = {[fork := r]}) as ->.
    { apply map_eq. intros k. destruct (decide (k = fork)) as [->|].
      - by rewrite lookup_singleton_eq.
      - rewrite lookup_singleton_ne by done. destruct (F !! k) eqn:E; [|done].
        by apply Hk in E. }
    simpl in Hpr. rewrite map_size_singleton, Hr. by rewrite Hpr.
  - assert (F = ∅) as HF.
    { apply map_empty. intros k. destruct (F !! k) eqn:E; [|done].
      pose proof (Hk _ _ E). congruence. }
    rewrite HF, map_size_empty. destruct (m !! fork) as [r|] eqn:E; [|done].
    destruct (p fork r) eqn:Epr; [|done].
    exfalso. assert (F !! fork = Some r) as H; [|congruence].
    by apply map_lookup_filter_Some.
Qed.

Lemma bind_texts_inv ts db db' r :
  bind_texts ts db = (db', r) -> db' = db /\ (r = Ret tt \/ r = Raise UnicodeEncodeError).
Proof.
  unfold bind_texts, se_raise, se_ret. destruct (existsb _ ts); intros; simplify_eq; auto.
Qed.

Lemma fault_inv o db db' r :
  fault o db = (db', r) ->
  db' = db /\ (r = Ret tt \/ r = Raise (ForkLedgerUnavailable FileUnavailable)
               \/ r = Raise ForkLedgerIdentityError).
Proof.
  unfold fault, se_raise, se_ret. destruct o as [[]|]; intros; simplify_eq; auto.
Qed.

(** *** Transactions *)

(** The state an operation starts from. *)
Definition begins (db : LedgerDB) (now : Z) : Prop :=
  (0 < now <= MAX_INT64 /\ last_observed_wall_ns db <= now)%Z.

(** A transaction either raises and changes nothing, or commits its operation
    on the observed clock; the errors are its own or the operation's. *)
Lemma transaction_inv {A} env (op : Z -> str -> L A) db db' r :
  transaction env op db = (db', r) ->
  (db' = db /\ (exists e, r = Raise e /\
     (e <> ForkLedgerUnavailable IntegrityError \/
      exists now db1, begins db now /\ op now (utc_day now) (set_clock now db) = (db1, Raise e))))
  \/ (exists now a, r = Ret a /\ begins db now /\
        op now (utc_day now) (set_clock now db) = (db', Ret a)).
Proof.
  unfold transaction. intros H.
  destruct (transact _ db) as [db0 r0] eqn:Ht. simplify_eq. unfold transact in Ht.
  match type of Ht with (match ?m with _ => _ end) = _ => destruct m as [db1 r1] eqn:Hm end.
  assert (Hcase : (exists e, r1 = Raise e /\ (e <> ForkLedgerUnavailable IntegrityError \/
      exists now db1, begins db now /\ op now (utc_day now) (set_clock now db) = (db1, Raise e)))
   \/ (exists now a, r1 = Ret a /\ begins db now /\
        op now (utc_day now) (set_clock now db) = (db1, Ret a))).
  { clear Ht.
    apply se_bind_inv in Hm as [([] & s1 & Hf & Hm)|(e & Hf & ->)].
    2: { left. eexists. split; [done|]. left.
         apply fault_inv in Hf as [_ [?|[?|?]]]; simplify_eq; done. }
    apply fault_inv in Hf as [-> _].
    apply se_bind_inv in Hm as [(now & s2 & Hn & Hm)|(e & Hn & ->)].
    2: { left. eexists. split; [done|]. left. unfold se_lift, now_ns in Hn. crush_match. }
    unfold se_lift in Hn. injection Hn as <- Hn.
    assert (0 < now)%Z as Hpos.
    { unfold now_ns in *. crush_match. apply Z.leb_gt in Heqb. lia. }
    apply se_bind_inv in Hm as [(day & s3 & Ho & Hm)|(e & Ho & ->)].
    2: { left. eexists. split; [done|]. left.
         unfold observe_clock, se_bind, se_get, bind_int, se_raise, se_ret, se_put in Ho. crush_match. }
    assert (begins db now /\ s3 = set_clock now db /\ day = utc_day now) as (Hb & -> & ->).
    { unfold observe_clock, se_bind, se_get, bind_int, se_raise, se_ret, se_put in Ho.
      crush_match. bool_prop. unfold begins.
      repeat match goal with H : (_ <? _)%Z = _ |- _ => apply Z.ltb_ge in H || apply Z.ltb_lt in H end.
      repeat split; lia. }
    apply se_bind_inv in Hm as [(a & s4 & Hop & Hm)|(e & Hop & ->)].
    2: { left. eexists. split; [done|]. right. eauto. }
    apply se_bind_inv in Hm as [([] & s5 & Hf & Hm)|(e & Hf & ->)].
    2: { left. eexists. split; [done|]. left.
         apply fault_inv in Hf as [_ [?|[?|?]]]; simplify_eq; done. }
    apply fault_inv in Hf as [-> _]. unfold se_ret in Hm. simplify_eq. right. eauto. }
  destruct Hcase as [(e & -> & He)|(now & a & -> & Hb & Hop)]; simplify_eq; eauto 10.
Qed.

Lemma required_text_inv v s :
  required_text v = Ret s ->
  v = JStr s /\ s <> [] /\ s = py_strip s /\ length s <= MAX_TEXT_LENGTH.
Proof.
  unfold required_text. intros. crush_match. bool_prop.
  repeat split; try done. match goal with H : (_ <? _) = false |- _ => apply Nat.ltb_ge in H end. done.
Qed.

(** *** Text constraints follow from the argument checks *)
Lemma drop_while_length p s : length (drop_while p s) <= length s.
Proof. induction s as [|c s IH]; simpl; [done|]. destruct (p c); simpl; lia. Qed.

Lemma drop_while_fix p (q : N -> bool) s :
  (forall c, q c = true -> p c = true) ->
  length s <= length (drop_while p s) -> drop_while p s = s /\ drop_while q s = s.
Proof.
  intros Hqp. destruct s as [|c s]; simpl; [done|]. destruct (p c) eqn:Hp.
  - pose proof (drop_while_length p s). intros. lia.
  - destruct (q c) eqn:Hq; [by apply Hqp in Hq; congruence|done].
Qed.

Lemma strip_by_weaker p (q : N -> bool) s :
  (forall c, q c = true -> p c = true) -> s = strip_by p s -> s = strip_by q s.
Proof.
  intros Hqp Hs. unfold strip_by, rstrip_by, lstrip_by in *.
  assert (length s <= length (drop_while p s)) as Hl.
  { rewrite Hs at 1. rewrite length_reverse.
    etrans; [apply drop_while_length|]. by rewrite length_reverse. }
  destruct (drop_while_fix p q s Hqp Hl) as [E1 E2]. rewrite E1 in Hs. rewrite E2.
  assert (length (reverse s) <= length (drop_while p (reverse s))) as Hl2.
  { rewrite length_reverse. rewrite Hs at 1. by rewrite length_reverse. }
  destruct (drop_while_fix p q _ Hqp Hl2) as [_ E3]. by rewrite E3, reverse_involutive.
Qed.

Lemma required_text_check v s : required_text v = Ret s -> text_check s = true.
Proof.
  intros (_ & Hne & Hs & Hl)%required_text_inv. unfold text_check.
  rewrite !andb_true_iff. repeat split.
  - apply Nat.leb_le. destruct s; simpl; [done|lia].
  - by apply Nat.leb_le.
  - apply bool_decide_eq_true. apply (strip_by_weaker py_isspace); [|done].
    intros c ->%N.eqb_eq. reflexivity.
Qed.

Lemma one_line_inv v s :
  one_line v = Ret s ->
  (1 <=? length s) && (length s <=? MAX_TEXT_LENGTH)
  && negb (existsb (fun c => (c =? 10)%N || (c =? 13)%N) s) = true.
Proof.
  unfold one_line. intros (t & Ht & H)%obind_ret_inv. apply required_text_check in Ht.
  unfold text_check in Ht. destruct (existsb _ t) eqn:E; simplify_eq. rewrite E.
  bool_prop. by rewrite !andb_true_iff.
Qed.

Lemma digit_is_digit n : is_digit (digit n) = true.
Proof.
  unfold is_digit, digit. pose proof (Z.mod_pos_bound n 10 eq_refl).
  apply andb_true_iff; split; apply N.leb_le; lia.
Qed.

Lemma utc_day_check now : date_check (utc_day now) = true.
Proof.
  unfold utc_day. destruct (civil _) as [[y m] d].
  unfold isoformat, four_digits, two_digits. change (u "-") with [45%N].
  cbn [app date_check forallb]. by rewrite !digit_is_digit.
Qed.

(** *** Specifications of transactions

    [tx_spec m Q db]: [m] either returns with [Q], or raises, changes nothing
    and does not raise because of a table constraint. *)
Definition tx_spec {A} (m : L A) (Q : A -> LedgerDB -> Prop) (db : LedgerDB) : Prop :=
  match m db with
  | (db', Ret a) => Q a db'
  | (db', Raise e) => db' = db /\ e <> ForkLedgerUnavailable IntegrityError
  end.

(** [wp m Q db]: the same inside a transaction, where a raise rolls back. *)
Definition wp {A} (m : L A) (Q : A -> LedgerDB -> Prop) (db : LedgerDB) : Prop :=
  match m db with
  | (db', Ret a) => Q a db'
  | (_, Raise e) => e <> ForkLedgerUnavailable IntegrityError
  end.

Lemma wp_ret {A} (a : A) Q db : Q a db -> wp (se_ret a) Q db.
Proof. done. Qed.
Lemma wp_raise {A} e (Q : A -> LedgerDB -> Prop) db :
  e <> ForkLedgerUnavailable IntegrityError -> wp (se_raise e) Q db.
Proof. done. Qed.
Lemma wp_bind {A B} (m : L A) (k : A -> L B) Q db :
  wp m (fun a => wp (k a) Q) db -> wp (se_bind m k) Q db.
Proof. unfold wp, se_bind. destruct (m db) as [db' [a|e]]; done. Qed.
Lemma wp_get Q db : Q db db -> wp se_get Q db.
Proof. done. Qed.
Lemma wp_put db' Q db : Q tt db' -> wp (se_put db') Q db.
Proof. done. Qed.
Lemma wp_texts ts Q db : Q tt db -> wp (bind_texts ts) Q db.
Proof. unfold wp, bind_texts. by destruct (existsb _ ts). Qed.
Lemma wp_int n Q db : Q tt db -> wp (bind_int n) Q db.
Proof. unfold wp, bind_int. by destruct (_ || _). Qed.
Lemma wp_mono {A} (m : L A) (Q Q' : A -> LedgerDB -> Prop) db :
  wp m Q db -> (forall a db', Q a db' -> Q' a db') -> wp m Q' db.
Proof. unfold wp. intros H HQ. destruct (m db) as [? []]; auto. Qed.

Lemma wp_update_receipts p f Q db :
  (forall k r, receipts db !! k = Some r -> p k r = true -> receipt_check k (f r) = true) ->
  Q (size (filter (fun kr => p kr.1 kr.2 = true) (receipts db)))
    (set_receipts (upd p f (receipts db)) db) ->
  wp (update_receipts p f) Q db.
Proof.
  intros Hc HQ. unfold wp, update_receipts, se_bind, se_get, se_lift, se_put, se_ret.
  by rewrite update_rows_ok.
Qed.

Lemma wp_update_admissions p f Q db :
  (forall k a, admissions db !! k = Some a -> p k a = true -> admission_check k (f a) = true) ->
  Q (size (filter (fun kr => p kr.1 kr.2 = true) (admissions db)))
    (set_admissions (upd p f (admissions db)) db) ->
  wp (update_admissions p f) Q db.
Proof.
  intros Hc HQ. unfold wp, update_admissions, se_bind, se_get, se_lift, se_put, se_ret.
  by rewrite update_rows_ok.
Qed.

Lemma tx_transaction {A} env (op : Z -> str -> L A) Q db :
  (forall now, begins db now -> wp (op now (utc_day now)) Q (set_clock now db)) ->
  tx_spec (transaction env op) Q db.
Proof.
  intros H. unfold tx_spec. destruct (transaction env op db) as [db' r] eqn:Ht.
  apply transaction_inv in Ht as [(-> & e & -> & [He|(now & db1 & Hb & Hop)])
                                 |(now & a & -> & Hb & Hop)]; [done| |];
    specialize (H now Hb); unfold wp in H; by rewrite Hop in H.
Qed.

Lemma tx_lift {A B} (o : outcome ledger_error A) (k : A -> L B) Q db :
  (forall e, o = Raise e -> e <> ForkLedgerUnavailable IntegrityError) ->
  (forall a, o = Ret a -> tx_spec (k a) Q db) ->
  tx_spec (se_bind (se_lift o) k) Q db.
Proof. intros He Hk. unfold tx_spec, se_bind, se_lift. destruct o; [by apply Hk|]. auto. Qed.

Lemma required_text_error v e : required_text v = Raise e -> e <> ForkLedgerUnavailable IntegrityError.
Proof. unfold required_text. intros. crush_match. Qed.
Lemma one_line_error v e : one_line v = Raise e -> e <> ForkLedgerUnavailable IntegrityError.
Proof.
  unfold one_line. destruct (required_text v) eqn:E; simpl; intros; simplify_eq.
  - crush_match.
  - by eapply required_text_error.
Qed.
Lemma positive_int_error v e : positive_int v = Raise e -> e <> ForkLedgerUnavailable IntegrityError.
Proof. unfold positive_int. intros. crush_match. Qed.
Lemma usd_to_micros_error z v e :
  usd_to_micros z v = Raise e -> e <> ForkLedgerUnavailable IntegrityError.
Proof.
  unfold usd_to_micros.
  destruct (decimal_of_str v) as [[neg c x| |]|]; intros H; simplify_eq; try done.
  destruct (_ || _) in H; simplify_eq; [done|].
  destruct (quantize_micros c x) as [m|e'] eqn:Eq; simpl in H.
  - destruct (_ && _) in H; [congruence|]. destruct (_ <? _)%Z in H; congruence.
  - unfold quantize_micros in Eq. destruct (10 ^ 28 <=? _)%Z in Eq; congruence.
Qed.
Lemma omap_list_error {A B} (f : A -> outcome ledger_error B) l e :
  omap_list f l = Raise e -> exists x, f x = Raise e.
Proof.
  induction l as [|x l IH]; simpl; [done|]. destruct (f x) eqn:E; simpl.
  - destruct (omap_list f l); simpl; intros; simplify_eq; eauto.
  - intros; simplify_eq; eauto.
Qed.
Lemma reconcile_target_error self live dead e :
  reconcile_target self live dead = Raise e -> e <> ForkLedgerUnavailable IntegrityError.
Proof.
  unfold reconcile_target. destruct (eqb _ _); [congruence|].
  destruct live; simpl.
  1: { destruct (required_text dead) eqn:E; simpl; intros; simplify_eq; [by crush_match|].
       by eapply required_text_error. }
  all: try (intros; simplify_eq; done).
  all: match goal with |- context [omap_list ?f ?l] => destruct (omap_list f l) eqn:E end; simpl;
       intros; simplify_eq; [by crush_match|].
  all: apply omap_list_error in E as [x Hx]; by eapply required_text_error.
Qed.
#[export] Hint Resolve required_text_error one_line_error positive_int_error
  usd_to_micros_error reconcile_target_error required_text_check : gateway.

(** The argument checks of an operation, down to its transaction. *)
Ltac tx_args :=
  repeat (apply tx_lift; [intros ?; eauto with gateway; fail|intros ? ?]);
  apply tx_transaction.
Ltac wp_steps :=
  cbv beta;
  lazymatch goal with
  | |- wp (se_bind _ _) _ _ => apply wp_bind; wp_steps
  | |- wp (bind_texts _) _ _ => apply wp_texts; wp_steps
  | |- wp (bind_int _) _ _ => apply wp_int; wp_steps
  | |- wp se_get _ _ => apply wp_get; wp_steps
  | |- wp (se_put _) _ _ => apply wp_put; wp_steps
  | |- wp (se_ret _) _ _ => apply wp_ret
  | _ => idtac
  end.

(** *** Row transformations keep the constraints *)
Ltac checks :=
  repeat match goal with
  | H : _ && _ = true |- _ => apply andb_true_iff in H; destruct H
  | H : (_ <=? _)%Z = true |- _ => apply Z.leb_le in H
  | H : (_ <? _)%Z = true |- _ => apply Z.ltb_lt in H
  end;
  repeat first [done | apply Z.leb_le; lia | apply Z.ltb_lt; lia | apply andb_true_iff; split].

Lemma claim_row_check k r tok turn pid now :
  receipt_check k r = true -> (r_updated_at_ns r <= now)%Z ->
  receipt_check k (claim_row tok turn pid now r) = true.
Proof. unfold receipt_check, claim_row. simpl. intros. checks. Qed.

Lemma release_row_check k r now :
  receipt_check k r = true -> (r_updated_at_ns r <= now)%Z ->
  receipt_check k (release_row now r) = true.
Proof. unfold receipt_check, release_row. simpl. intros. checks. Qed.

Lemma ack_row_check k r now :
  receipt_check k r = true -> (r_updated_at_ns r <= now)%Z -> r_state r = RClaimed ->
  receipt_check k (ack_row now r) = true.
Proof. unfold receipt_check, ack_row. simpl. intros H ? Hs. rewrite Hs in H. checks. Qed.

Lemma start_row_check k a now :
  admission_check k a = true -> (a_updated_at_ns a <= now)%Z -> a_state a = AReserved ->
  admission_check k (start_row now a) = true.
Proof. unfold admission_check, start_row. simpl. intros H ? Hs. rewrite Hs in H. checks. Qed.

Lemma settle_row_check k a actual now :
  admission_check k a = true -> (a_updated_at_ns a <= now)%Z -> (0 <= actual)%Z ->
  admission_check k (settle_row actual now a) = true.
Proof. unfold admission_check, settle_row. simpl. intros. checks. Qed.

Lemma abandon_row_check k a now :
  admission_check k a = true -> (a_updated_at_ns a <= now)%Z ->
  admission_check k (abandon_row now a) = true.
Proof. unfold admission_check, abandon_row. simpl. intros. checks. Qed.

Lemma adopt_row_check k a self now :
  admission_check k a = true -> (a_updated_at_ns a <= now)%Z -> text_check self = true ->
  admission_check k (adopt_row self now a) = true.
Proof. unfold admission_check, adopt_row. simpl. intros. checks. Qed.

Lemma usd_to_micros_bounds z v m :
  usd_to_micros z v = Ret m ->
  (0 <= m <= MAX_INT64 /\ (z = false -> 0 < m))%Z.
Proof.
  unfold usd_to_micros.
  destruct (decimal_of_str v) as [[neg c x| |]|]; try done.
  destruct (_ || _); [done|]. destruct (quantize_micros c x) as [q|] eqn:Eq; simpl; [|done].
  assert (0 <= q)%Z as Hq.
  { unfold quantize_micros in Eq.
    destruct (10 ^ 28 <=? _)%Z in Eq; [done|]. injection Eq as <-.
    destruct (-6 <=? x)%Z eqn:Ex.
    - apply Z.mul_nonneg_nonneg; [lia|]. apply Z.pow_nonneg. lia.
    - apply Z.leb_gt in Ex. assert (0 < 10 ^ (-6 - x))%Z by (apply Z.pow_pos_nonneg; lia).
      apply Z.div_pos; lia. }
  destruct ((q =? 0)%Z && negb z) eqn:E0; [done|].
  destruct (MAX_INT64 <? q)%Z eqn:Em; [done|]. intros [= <-]. apply Z.ltb_ge in Em.
  split; [lia|]. intros ->. rewrite andb_true_r in E0. apply Z.eqb_neq in E0. lia.
Qed.

Lemma inv_receipt db k r now :
  db_inv db -> begins db now -> receipts db !! k = Some r ->
  receipt_check k r = true /\ (r_updated_at_ns r <= now)%Z.
Proof. intros Hi [_ Hb] Hr. destruct (di_receipts _ Hi _ _ Hr). split; [done|lia]. Qed.
Lemma inv_admission db k a now :
  db_inv db -> begins db now -> admissions db !! k = Some a ->
  admission_check k a = true /\ (a_updated_at_ns a <= now)%Z.
Proof. intros Hi [_ Hb] Hr. destruct (di_admissions _ Hi _ _ Hr). split; [done|lia]. Qed.

(** Where a statement leaves each table row well-formed, the invariant holds. *)
Lemma db_inv_intro db now db' :
  db_inv db -> begins db now -> last_observed_wall_ns db' = now ->
  (forall k r, receipts db' !! k = Some r ->
     receipts db !! k = Some r \/ (receipt_check k r = true /\ r_updated_at_ns r = now)) ->
  (forall k a, admissions db' !! k = Some a ->
     admissions db !! k = Some a \/ (admission_check k a = true /\ a_updated_at_ns a = now)) ->
  db_inv db'.
Proof.
  intros Hi Hb Hnow Hr Ha. split.
  - rewrite Hnow. destruct Hb. lia.
  - intros k r [H|[? ?]]%Hr; [|split; [done|lia]].
    rewrite Hnow. by eapply inv_receipt.
  - intros k a [H|[? ?]]%Ha; [|split; [done|lia]].
    rewrite Hnow. by eapply inv_admission.
Qed.

(** *** What each operation does *)

Lemma write_receipt_spec env f s o t db :
  tx_spec (write_receipt env f s o t) (fun res db' =>
    exists now fork row, f = JStr fork /\ begins db now /\
      receipt_check fork row = true /\ r_state row = RPending /\ r_updated_at_ns row = now /\
      if res : bool
      then receipts db !! fork = None /\
           db' = set_receipts (<[fork := row]> (receipts db)) (set_clock now db)
      else db' = set_clock now db /\ exists ex, receipts db !! fork = Some ex /\
           (r_session_id ex, r_owner ex, r_text ex) = (r_session_id row, r_owner row, r_text row)) db.
Proof.
  unfold write_receipt. tx_args. intros now Hb. wp_steps. simpl.
  assert (receipt_check a (mkReceipt a0 a1 a2 RPending None None None now now None None) = true) as Hc.
  { pose proof (one_line_inv _ _ H2) as Hol. unfold receipt_check. simpl.
    rewrite (required_text_check _ _ H), (required_text_check _ _ H0), (required_text_check _ _ H1).
    destruct Hb. checks. }
  apply required_text_inv in H as [-> _].
  destruct (receipts db !! a) as [ex|] eqn:Ex.
  - case_bool_decide; [|by apply wp_raise]. apply wp_ret.
    eexists now, a, (mkReceipt a0 a1 a2 RPending None None None now now None None).
    repeat (split; [done|]). eauto.
  - rewrite Hc. wp_steps.
    eexists now, a, (mkReceipt a0 a1 a2 RPending None None None now now None None). done.
Qed.

Definition ends_claim (ack : bool) (now : Z) : Receipt -> Receipt :=
  if ack then ack_row now else release_row now.

Lemma finish_receipt_claim_spec env f t ack db :
  db_inv db ->
  tx_spec (finish_receipt_claim env f t ack) (fun res db' =>
    exists now fork tok, f = JStr fork /\ t = JStr tok /\ begins db now /\
      (res = match receipts db !! fork with Some r => holds_claim fork tok fork r | None => false end) /\
      db' = set_receipts (upd (holds_claim fork tok) (ends_claim ack now) (receipts db)) (set_clock now db)) db.
Proof.
  intros Hi. unfold finish_receipt_claim. tx_args. intros now Hb.
  apply required_text_inv in H as [-> _]. apply required_text_inv in H0 as [-> _].
  wp_steps. apply wp_update_receipts.
  - simpl. intros k r Hk Hp. destruct (inv_receipt _ _ _ _ Hi Hb Hk).
    destruct ack; [apply ack_row_check|apply release_row_check]; try done.
    unfold holds_claim in Hp. by bool_prop.
  - apply wp_ret. exists now, a, a0. repeat (split; [done|]). split; [|done].
    apply (count_key (holds_claim a a0)). intros k r Hp. unfold holds_claim in Hp. by bool_prop.
Qed.

(** The effect of an owner-checked update on fork [fork]. *)
Definition owned_update (self fork : str) (p : Admission -> bool) (g : Z -> Admission -> Admission)
    (db : LedgerDB) (res : bool) (db' : LedgerDB) : Prop :=
  exists now, begins db now /\
    (res = match admissions db !! fork with
           | Some a => bool_decide (a_process_instance_id a = self) && p a
           | None => false end) /\
    db' = set_admissions (upd (fun k a => owned fork self k a && p a) (g now) (admissions db))
            (set_clock now db).

(** The three owner-checked admission updates share one transaction. *)
Lemma update_owned_spec self env fork (p : Admission -> bool) (g : Z -> Admission -> Admission) db :
  (forall now k a, begins db now -> admissions db !! k = Some a -> p a = true ->
     admission_check k (g now a) = true) ->
  tx_spec (transaction env (fun now _ =>
       let! _ := bind_texts [fork; self] in
       let! n := update_admissions (fun k a => owned fork self k a && p a) (g now) in
       se_ret (n =? 1))) (owned_update self fork p g db) db.
Proof.
  intros pre. apply tx_transaction. intros now Hb.
  wp_steps. apply wp_update_admissions.
  - simpl. intros k r Hk Hp. bool_prop. by apply (pre now).
  - wp_steps. exists now. repeat (split; [done|]). split; [|done].
    rewrite (count_key (fun k x => owned fork self k x && p x) _ fork).
    + simpl. destruct (admissions db !! fork); [|done]. unfold owned. by rewrite bool_decide_eq_true_2.
    + intros k r Hp. unfold owned in Hp. by bool_prop.
Qed.

Lemma tx_mono {A} (m : L A) (Q Q' : A -> LedgerDB -> Prop) db :
  tx_spec m Q db -> (forall a db', Q a db' -> Q' a db') -> tx_spec m Q' db.
Proof. unfold tx_spec. intros H HQ. destruct (m db) as [? []]; auto. Qed.

Lemma mark_admission_started_spec self env f db :
  db_inv db ->
  tx_spec (mark_admission_started self env f) (fun res db' => exists fork, f = JStr fork /\
    owned_update self fork (fun a => bool_decide (a_state a = AReserved)) start_row db res db') db.
Proof.
  intros Hi. unfold mark_admission_started.
  apply tx_lift; [intros ?; eauto with gateway|intros fork [-> _]%required_text_inv].
  eapply tx_mono; [apply update_owned_spec|intros res db' ?; by exists fork].
  intros now k a Hb Hk Hp. bool_prop. destruct (inv_admission _ _ _ _ Hi Hb Hk).
  by apply start_row_check.
Qed.

Lemma abandon_admission_spec self env f db :
  db_inv db ->
  tx_spec (abandon_admission self env f) (fun res db' => exists fork, f = JStr fork /\
    owned_update self fork in_flight abandon_row db res db') db.
Proof.
  intros Hi. unfold abandon_admission.
  apply tx_lift; [intros ?; eauto with gateway|intros fork [-> _]%required_text_inv].
  eapply tx_mono; [apply update_owned_spec|intros res db' ?; by exists fork].
  intros now k a Hb Hk Hp. destruct (inv_admission _ _ _ _ Hi Hb Hk).
  by apply abandon_row_check.
Qed.

Lemma settle_admission_spec self env f usd db :
  db_inv db ->
  tx_spec (settle_admission self env f usd) (fun res db' => exists fork actual, f = JStr fork /\
    usd_to_micros true usd = Ret actual /\
    owned_update self fork in_flight (settle_row actual) db res db') db.
Proof.
  intros Hi. unfold settle_admission.
  apply tx_lift; [intros ?; eauto with gateway|intros fork [-> _]%required_text_inv].
  apply tx_lift; [intros ?; eauto with gateway|intros actual Ha].
  eapply tx_mono; [apply update_owned_spec|intros res db' ?; by exists fork, actual].
  intros now k a Hb Hk Hp. destruct (inv_admission _ _ _ _ Hi Hb Hk).
  apply settle_row_check; [done|done|]. apply usd_to_micros_bounds in Ha. lia.
Qed.

Lemma reserve_admission_spec self env f o usd db :
  valid_instance self ->
  tx_spec (reserve_admission self env f o usd) (fun res db' =>
    exists now fork owner reserved row, f = JStr fork /\ o = JStr owner /\
      usd_to_micros false usd = Ret reserved /\ begins db now /\
      row = mkAdmission owner (utc_day now) reserved None AReserved self now now None None /\
      admission_check fork row = true /\ admissions db !! fork = None /\
      db' = set_admissions (<[fork := row]> (admissions db)) (set_clock now db) /\
      let rows := day_rows owner (utc_day now) (admissions db) in
      (sum_charges rows <= MAX_INT64)%Z /\
      res = mkReservation (mkRecord fork owner (utc_day now) (micros_to_usd reserved) None AReserved self)
              (Z.of_nat (length rows) + 1) (sum_charges rows + reserved)) db.
Proof.
  intros Hself. unfold reserve_admission. tx_args. intros now Hb. wp_steps. simpl.
  pose proof (required_text_check _ _ H) as Hf. pose proof (required_text_check _ _ H0) as Ho.
  apply required_text_inv in H as [-> _]. apply required_text_inv in H0 as [-> _].
  destruct (admissions db !! a) as [ex|] eqn:Ex; simpl; [by apply wp_raise|].
  wp_steps. destruct (MAX_INT64 <? _)%Z eqn:Em; [by apply wp_raise|]. wp_steps.
  pose proof (usd_to_micros_bounds _ _ _ H1) as [_ Hm].
  set (row := mkAdmission a0 (utc_day now) a1 None AReserved self now now None None).
  assert (admission_check a row = true) as Hc.
  { unfold admission_check, row. cbn [a_owner a_date a_max_reserved a_settled a_process_instance_id
      a_created_at_ns a_updated_at_ns a_state a_started_at_ns a_settled_at_ns].
    pose proof (required_text_check _ _ Hself). pose proof (utc_day_check now).
    specialize (Hm eq_refl). destruct Hb. checks. }
  rewrite Hc. wp_steps. apply Z.ltb_ge in Em.
  exists now, a, a0, a1, row. by repeat (split; [done|]).
Qed.

(** The claim loop gives every selected row its own token. *)
Lemma claim_loop_spec session owner turn pid now rows : forall toks db,
  length toks = length rows -> NoDup rows.*1 ->
  (forall k r, (k, r) ∈ rows -> receipts db !! k = Some r /\ r_state r = RPending /\
     receipt_check k r = true /\ (r_updated_at_ns r <= now)%Z) ->
  wp (claim_loop toks session owner turn pid now rows) (fun claims db' =>
    claims = zip_with (fun kr tok => mkClaim kr.1 session owner (r_text kr.2) tok turn pid) rows toks /\
    admissions db' = admissions db /\ last_observed_wall_ns db' = last_observed_wall_ns db /\
    (forall k, k ∉ rows.*1 -> receipts db' !! k = receipts db !! k) /\
    (forall i k r tok, rows !! i = Some (k, r) -> toks !! i = Some tok ->
       receipts db' !! k = Some (claim_row tok turn pid now r))) db.
Proof.
  induction rows as [|[fork r] rows IH]; intros [|tok toks] db Hlen Hnd Hrows; simplify_eq/=.
  { repeat (split; [done|]). intros i ???. by rewrite lookup_nil. }
  apply NoDup_cons in Hnd as [Hnin Hnd].
  destruct (Hrows fork r) as (Hf & Hs & Hc & Hu); [left|].
  wp_steps. apply wp_update_receipts.
  { intros k x Hk Hp. bool_prop. simplify_eq. by apply claim_row_check. }
  set (p := fun (k : str) x => bool_decide (k = fork) && bool_decide (r_state x = RPending)).
  wp_steps. eapply wp_mono.
  - apply IH; [done|done|]. intros k x Hin. destruct (Hrows k x) as (Hk & ? & ? & ?); [by right|].
    split; [|done]. cbn [receipts set_receipts]. rewrite upd_key_ne; [done|].
    intros y. unfold p. rewrite bool_decide_eq_false_2; [done|]. intros ->. apply Hnin.
    apply list_elem_of_fmap. by exists (fork, x).
  - intros claims db' (-> & Ha & Hck & Hout & Hin). wp_steps.
    rewrite (count_key p _ fork) by (unfold p; intros ?? Hp; by bool_prop).
    assert (p fork r = true) as Hp by (unfold p; by rewrite !bool_decide_eq_true_2).
    rewrite Hf, Hp. split; [done|]. split; [done|]. split; [done|]. split.
    + intros k Hk. apply not_elem_of_cons in Hk as [Hne Hk]. rewrite (Hout k Hk).
      cbn [receipts set_receipts]. rewrite upd_key_ne; [done|].
      intros y. unfold p. by rewrite bool_decide_eq_false_2.
    + intros [|i] k x tok' Hi Htok; simplify_eq/=; [|eauto].
      rewrite (Hout k Hnin). cbn [receipts set_receipts]. rewrite (lookup_upd_some _ _ _ _ _ Hf).
      change (bool_decide (k = k) && bool_decide (r_state x = RPending)) with (p k x). by rewrite Hp.
Qed.

Lemma insert_older_perm x l : insert_older x l ≡ₚ x :: l.
Proof.
  induction l as [|y l IH]; simpl; [done|]. destruct (older x y); [done|].
  rewrite IH. apply Permutation_swap.
Qed.
Lemma order_rows_perm l : order_rows l ≡ₚ l.
Proof. induction l as [|x l IH]; simpl; [done|]. by rewrite insert_older_perm, IH. Qed.

Lemma pending_rows_spec session owner limit m :
  NoDup (pending_rows session owner limit m).*1 /\
  (forall k r, (k, r) ∈ pending_rows session owner limit m ->
     m !! k = Some r /\ r_session_id r = session /\ r_owner r = owner /\ r_state r = RPending).
Proof.
  unfold pending_rows. set (F := filter _ (map_to_list m)).
  assert (NoDup (order_rows F).*1) as Hnd.
  { rewrite order_rows_perm. unfold F.
    eapply sublist_NoDup; [apply (NoDup_fst_map_to_list m)|].
    apply fmap_sublist, sublist_filter. }
  split.
  - eapply sublist_NoDup; [exact Hnd|]. apply fmap_sublist, sublist_take.
  - intros k r Hin.
    assert ((k, r) ∈ order_rows F) as H.
    { rewrite <- (take_drop (Z.to_nat limit) (order_rows F)). apply elem_of_app. by left. }
    rewrite order_rows_perm in H. apply list_elem_of_filter in H as [(? & ? & ?) Hm].
    apply elem_of_map_to_list in Hm. done.
Qed.

Lemma claim_pending_receipts_spec self env toks s o t l db :
  db_inv db ->
  tx_spec (claim_pending_receipts self env toks s o t l) (fun claims db' =>
    exists now session owner turn limit, begins db now /\
      s = JStr session /\ o = JStr owner /\ t = JStr turn /\ l = JInt limit /\ (0 < limit)%Z /\
      let rows := pending_rows session owner limit (receipts db) in
      claims = imap (fun i kr => mkClaim kr.1 session owner (r_text kr.2) (toks i) turn self) rows /\
      admissions db' = admissions db /\ last_observed_wall_ns db' = now /\
      (forall k, k ∉ rows.*1 -> receipts db' !! k = receipts db !! k) /\
      (forall i k r, rows !! i = Some (k, r) ->
         receipts db' !! k = Some (claim_row (toks i) turn self now r))) db.
Proof.
  intros Hi. unfold claim_pending_receipts. tx_args. intros now Hb. wp_steps.
  apply required_text_inv in H as [-> _]. apply required_text_inv in H0 as [-> _].
  apply required_text_inv in H1 as [-> _].
  assert (l = JInt a2 /\ 0 < a2)%Z as [-> Hpos].
  { unfold positive_int in H2. crush_match. split; [done|]. apply Z.leb_gt in Heqb. lia. }
  set (rows := pending_rows a a0 a2 (receipts (set_clock now db))).
  destruct (pending_rows_spec a a0 a2 (receipts db)) as [Hnd Hrows].
  eapply wp_mono; [apply claim_loop_spec|].
  - by rewrite length_fmap, length_seq.
  - exact Hnd.
  - intros k r Hin. destruct (Hrows k r Hin) as (Hk & _ & _ & ?). repeat split; try done;
      by destruct (inv_receipt _ _ _ _ Hi Hb Hk).
  - intros claims db' (-> & Ha & Hc & Hout & Hin).
    exists now, a, a0, a1, a2. repeat (split; [done|]). split.
    { apply list_eq. intros i. rewrite list_lookup_imap, lookup_zip_with, list_lookup_fmap.
      change (pending_rows a a0 a2 (receipts db)) with rows.
      destruct (rows !! i) as [kr|] eqn:Hk; [|done]. simpl.
      rewrite lookup_seq_lt; [done|]. by apply lookup_lt_Some in Hk. }
    split; [exact Ha|]. split; [exact Hc|]. split; [exact Hout|]. intros i k r Hk. apply (Hin i k r (toks i)); [done|].
    rewrite list_lookup_fmap, lookup_seq_lt; [done|]. by apply lookup_lt_Some in Hk.
Qed.

(** *** Recovery *)
Definition parked (journal : Journals) (fork : str) : bool :=
  match journal fork with Some j => journal_holds_committed_park j fork | None => false end.

Lemma adopt_loop_spec self journal now forks : forall db,
  text_check self = true -> NoDup forks ->
  (forall k a, admissions db !! k = Some a ->
     admission_check k a = true /\ (a_updated_at_ns a <= now)%Z) ->
  wp (adopt_loop self journal now forks) (fun _ db' =>
    receipts db' = receipts db /\ last_observed_wall_ns db' = last_observed_wall_ns db /\
    forall k, admissions db' !! k =
      (fun a => if bool_decide (k ∈ forks) && parked journal k && bool_decide (a_state a = AStarted)
                then adopt_row self now a else a) <$> admissions db !! k) db.
Proof.
  induction forks as [|fork forks IH]; intros db Hself Hnd Hall; simpl.
  { repeat (split; [done|]). intros k. by destruct (admissions db !! k). }
  apply NoDup_cons in Hnd as [Hnin Hnd].
  apply wp_bind. destruct (journal fork) as [j|] eqn:Hj; [|done]. simpl. apply wp_bind.
  assert (parked journal fork = journal_holds_committed_park j fork) as Hp
    by (unfold parked; by rewrite Hj).
  rewrite <- Hp. destruct (parked journal fork) eqn:Hpk.
  - wp_steps. apply wp_update_admissions.
    { intros k a Hk Hq. destruct (Hall k a Hk). by apply adopt_row_check. }
    eapply wp_mono; [apply IH; [done|done|]|].
    { simpl. intros k a. rewrite lookup_upd. intros (x & Hk & Hx)%fmap_Some.
      destruct (Hall k x Hk). subst a. destruct (_ && _); [|done]. simpl. split; [|lia].
      by apply adopt_row_check. }
    intros [] db' (Hr & Hc & Ha). repeat (split; [done|]). intros k. rewrite Ha. simpl.
    rewrite lookup_upd, <- option_fmap_compose. destruct (admissions db !! k) as [a|]; [|done].
    simpl. f_equal. destruct (decide (k = fork)) as [->|Hne].
    + rewrite (bool_decide_eq_true_2 (fork = fork)) by done.
      rewrite (bool_decide_eq_false_2 (fork ∈ forks)) by done.
      rewrite (bool_decide_eq_true_2 (fork ∈ fork :: forks)) by left. rewrite Hpk. simpl.
      by destruct (bool_decide _).
    + rewrite (bool_decide_eq_false_2 (k = fork)) by done. simpl.
      rewrite (bool_decide_ext (k ∈ fork :: forks) (k ∈ forks)); [done|]. rewrite elem_of_cons. tauto.
  - wp_steps. eapply wp_mono; [by apply IH|].
    intros [] db' (Hr & Hc & Ha). repeat (split; [done|]). intros k. rewrite Ha.
    destruct (admissions db !! k) as [a|]; [|done]. simpl. f_equal.
    destruct (decide (k = fork)) as [->|Hne]; [rewrite Hpk, !andb_false_r; done|].
    rewrite (bool_decide_ext (k ∈ fork :: forks) (k ∈ forks)); [done|]. rewrite elem_of_cons. tauto.
Qed.

Lemma dead_started_spec ds m :
  NoDup (dead_started ds m) /\
  forall k, k ∈ dead_started ds m <->
    exists a, m !! k = Some a /\ a_state a = AStarted /\ is_dead ds (Some (a_process_instance_id a)) = true.
Proof.
  unfold dead_started. split.
  - eapply sublist_NoDup; [apply (NoDup_fst_map_to_list m)|]. apply fmap_sublist, sublist_filter.
  - intros k. rewrite list_elem_of_fmap. split.
    + intros ([k' a] & -> & [[? ?] Hm]%list_elem_of_filter). apply elem_of_map_to_list in Hm. eauto.
    + intros (a & Hk & ? & ?). exists (k, a). split; [done|].
      apply list_elem_of_filter. split; [done|]. by apply elem_of_map_to_list.
Qed.

(** What recovery makes of an admission. *)
Definition recovered (self : str) (journal : Journals) (ds : dead_set) (now : Z)
    (fork : str) (a : Admission) : Admission :=
  if in_flight a && is_dead ds (Some (a_process_instance_id a)) then
    if bool_decide (a_state a = AStarted) && parked journal fork
    then adopt_row self now a else abandon_row now a
  else a.

Definition dead_claim (ds : dead_set) (k : str) (r : Receipt) : bool :=
  bool_decide (r_state r = RClaimed) && is_dead ds (r_process_instance_id r).

Lemma self_not_dead self live dead ds :
  reconcile_target self live dead = Ret ds -> is_dead ds (Some self) = false.
Proof.
  unfold reconcile_target. destruct (eqb _ _); [done|]. destruct (match live with JNull => true | _ => false end).
  - intros (d & _ & H)%obind_ret_inv. case_bool_decide; simplify_eq. simpl.
    by apply bool_decide_eq_false_2.
  - intros (vs & _ & (ids & _ & H)%obind_ret_inv)%obind_ret_inv. case_bool_decide; simplify_eq. simpl.
    by rewrite bool_decide_eq_true_2.
Qed.

Lemma reconcile_startup_spec self env j live dead db :
  db_inv db -> valid_instance self ->
  tx_spec (reconcile_startup self env j live dead) (fun res db' =>
    exists now ds, begins db now /\ reconcile_target self live dead = Ret ds /\
      last_observed_wall_ns db' = now /\
      receipts db' = upd (dead_claim ds) (release_row now) (receipts db) /\
      res.1 = size (filter (fun kr => dead_claim ds kr.1 kr.2 = true) (receipts db)) /\
      forall k, admissions db' !! k = recovered self j ds now k <$> admissions db !! k) db.
Proof.
  intros Hi Hself. pose proof (required_text_check _ _ Hself) as Hst.
  unfold reconcile_startup. tx_args. rename a into ds, H into Hds. intros now Hb. wp_steps.
  apply wp_update_receipts.
  { simpl. intros k r Hk Hp. destruct (inv_receipt _ _ _ _ Hi Hb Hk). by apply release_row_check. }
  wp_steps. destruct (dead_started_spec ds (admissions db)) as [Hnd Hin].
  eapply wp_mono; [apply (adopt_loop_spec self j now _ _ Hst Hnd)|].
  { simpl. intros k a Hk. by eapply inv_admission. }
  intros [] db1 (Hr1 & Hc1 & Ha1). simpl in Hr1, Hc1, Ha1. wp_steps.
  assert (forall k a, admissions db1 !! k = Some a ->
    admission_check k a = true /\ (a_updated_at_ns a <= now)%Z) as Hall.
  { intros k a. rewrite Ha1. intros (x & Hk & Hx)%fmap_Some.
    destruct (inv_admission _ _ _ _ Hi Hb Hk). subst a. destruct (_ && _); [|done].
    simpl. split; [by apply adopt_row_check|lia]. }
  apply wp_update_admissions.
  { intros k a Hk Hp. destruct (Hall k a Hk). by apply abandon_row_check. }
  wp_steps. exists now, ds. split; [done|]. split; [done|]. split; [done|].
  split; [exact Hr1|]. split; [done|]. intros k. simpl.
  rewrite lookup_upd, Ha1. destruct (admissions db !! k) as [a|] eqn:Hk; [|done].
  simpl. f_equal. unfold recovered.
  assert (bool_decide (k ∈ dead_started ds (admissions db)) =
    bool_decide (a_state a = AStarted) && is_dead ds (Some (a_process_instance_id a))) as ->.
  { destruct (decide (k ∈ dead_started ds (admissions db))) as [H|H].
    - rewrite bool_decide_eq_true_2 by done. apply Hin in H as (x & ? & Hs & Hd). simplify_eq.
      by rewrite bool_decide_eq_true_2, Hd.
    - rewrite bool_decide_eq_false_2 by done. symmetry. apply andb_false_iff.
      destruct (decide (a_state a = AStarted)) as [Hs|Hs]; [right|left; by apply bool_decide_eq_false_2].
      apply not_true_is_false. intros Hd. apply H, Hin. eauto. }
  pose proof (self_not_dead _ _ _ _ Hds) as Hsd.
  destruct (bool_decide (a_state a = AStarted)) eqn:Es, (is_dead ds (Some (a_process_instance_id a))) eqn:Ed,
    (parked j k); simpl; rewrite ?Hsd, ?Ed, ?andb_false_r, ?andb_true_r; simpl; try done;
    rewrite ?andb_false_r, ?Hsd; try done.
  all: bool_prop; unfold in_flight; by rewrite Es.
Qed.

(** *** Row life cycles *)
Inductive receipt_move (now : Z) (k : str) : option Receipt -> option Receipt -> Prop :=
| rm_same o : receipt_move now k o o
| rm_write r : receipt_check k r = true -> r_state r = RPending -> r_updated_at_ns r = now ->
    receipt_move now k None (Some r)
| rm_claim tok turn pid r : r_state r = RPending ->
    receipt_move now k (Some r) (Some (claim_row tok turn pid now r))
| rm_ack r : r_state r = RClaimed -> receipt_move now k (Some r) (Some (ack_row now r))
| rm_release r : r_state r = RClaimed -> receipt_move now k (Some r) (Some (release_row now r)).

Inductive admission_move (now : Z) (k : str) : option Admission -> option Admission -> Prop :=
| am_same o : admission_move now k o o
| am_reserve a : admission_check k a = true -> a_state a = AReserved -> a_updated_at_ns a = now ->
    admission_move now k None (Some a)
| am_start a : a_state a = AReserved -> admission_move now k (Some a) (Some (start_row now a))
| am_settle actual a : (0 <= actual)%Z -> in_flight a = true ->
    admission_move now k (Some a) (Some (settle_row actual now a))
| am_abandon a : in_flight a = true -> admission_move now k (Some a) (Some (abandon_row now a))
| am_adopt self a : text_check self = true -> a_state a = AStarted ->
    admission_move now k (Some a) (Some (adopt_row self now a)).

Lemma moves_inv db now db' :
  db_inv db -> begins db now -> last_observed_wall_ns db' = now ->
  (forall k, receipt_move now k (receipts db !! k) (receipts db' !! k)) ->
  (forall k, admission_move now k (admissions db !! k) (admissions db' !! k)) ->
  db_inv db'.
Proof.
  intros Hi Hb Hnow Hr Ha. apply (db_inv_intro db now); [done|done|done|..].
  - intros k r Hk. specialize (Hr k). rewrite Hk in Hr.
    assert (forall r0, receipts db !! k = Some r0 -> _) as HI
      by (intros r0 H0; exact (inv_receipt _ _ _ _ Hi Hb H0)).
    inversion Hr as [o Ho|x Hc Hs Hu Ho|tok turn pid x Hs Ho|x Hs Ho|x Hs Ho]; subst;
      symmetry in Ho || idtac; auto; right; split; try done;
      match goal with H : receipts db !! k = Some _ |- _ => apply HI in H as [? ?] end;
      eauto using claim_row_check, ack_row_check, release_row_check.
  - intros k a Hk. specialize (Ha k). rewrite Hk in Ha.
    assert (forall a0, admissions db !! k = Some a0 -> _) as HI
      by (intros a0 H0; exact (inv_admission _ _ _ _ Hi Hb H0)).
    inversion Ha as [o Ho|x Hc Hs Hu Ho|x Hs Ho|act x Hn Hs Ho|x Hs Ho|s x Ht Hs Ho]; subst;
      symmetry in Ho || idtac; auto; right; split; try done;
      match goal with H : admissions db !! k = Some _ |- _ => apply HI in H as [? ?] end;
      eauto using start_row_check, settle_row_check, abandon_row_check, adopt_row_check.
Qed.

Lemma upd_moves {R} (move : option R -> option R -> Prop) (p : str -> R -> bool) (f : R -> R) (m : gmap str R) (k : str) :
  (forall o, move o o) ->
  (forall r, m !! k = Some r -> p k r = true -> move (Some r) (Some (f r))) ->
  move (m !! k) (upd p f m !! k).
Proof.
  intros Hs Hm. rewrite lookup_upd. destruct (m !! k) as [r|] eqn:E; simpl; [|apply Hs].
  destruct (p k r) eqn:Ep; [by apply Hm|apply Hs].
Qed.

(** Every call moves rows along their life cycle, or raises without effect. *)
Definition moves (db : LedgerDB) (now : Z) (db' : LedgerDB) : Prop :=
  begins db now /\ last_observed_wall_ns db' = now /\
  (forall k, receipt_move now k (receipts db !! k) (receipts db' !! k)) /\
  (forall k, admission_move now k (admissions db !! k) (admissions db' !! k)).

Lemma owned_update_moves self fork p g db res db' :
  (forall now k a, begins db now -> admissions db !! k = Some a -> p a = true ->
     admission_move now k (Some a) (Some (g now a))) ->
  owned_update self fork p g db res db' -> exists now, moves db now db'.
Proof.
  intros Hg (now & Hb & _ & ->). exists now. split; [done|]. split; [done|]. split.
  - intros k. apply rm_same.
  - intros k. apply (upd_moves (admission_move now k)); [intros; apply am_same|]. intros a Hk Hp. bool_prop. by apply Hg.
Qed.

Lemma recovered_move self j ds now k a :
  text_check self = true -> admission_move now k (Some a) (Some (recovered self j ds now k a)).
Proof.
  intros Hs. unfold recovered. destruct (in_flight a) eqn:Hf; simpl; [|apply am_same].
  destruct (is_dead _ _); [|apply am_same]. case_bool_decide; simpl; [|by apply am_abandon].
  destruct (parked j k); [by apply am_adopt|by apply am_abandon].
Qed.

(** The post-condition shared by all calls. *)
Definition moved {A} (db : LedgerDB) (_ : A) (db' : LedgerDB) : Prop :=
  db' = db \/ exists now, moves db now db'.

Lemma write_receipt_moves env f s o t db : tx_spec (write_receipt env f s o t) (moved db) db.
Proof.
  eapply tx_mono; [apply write_receipt_spec|].
  intros res db' (now & fork & row & -> & Hb & Hck & Hs & Hu & Hres). right. exists now.
  split; [done|]. destruct res.
  - destruct Hres as [Hn ->]. split; [done|]. split; [|intros; apply am_same].
    intros k. simpl. destruct (decide (k = fork)) as [->|Hne].
    + rewrite lookup_insert_eq, Hn. by apply rm_write.
    + rewrite lookup_insert_ne by done. apply rm_same.
  - destruct Hres as [-> _]. split; [done|]. split; intros; [apply rm_same|apply am_same].
Qed.

Lemma claim_moves self env toks s o t l db :
  db_inv db -> tx_spec (claim_pending_receipts self env toks s o t l) (moved db) db.
Proof.
  intros Hi. eapply tx_mono; [by apply claim_pending_receipts_spec|].
  intros claims db' (now & session & owner & turn & limit & Hb & _ & _ & _ & _ & _ & _ & Ha & Hnow & Hout & Hin).
  right. exists now. split; [done|]. split; [done|]. split; [|intros; rewrite Ha; apply am_same].
  intros k. destruct (pending_rows_spec session owner limit (receipts db)) as [_ Hrows].
  destruct (decide (k ∈ (pending_rows session owner limit (receipts db)).*1)) as [Hk|Hk].
  - apply list_elem_of_fmap in Hk as ([k' r] & -> & Hk). simpl.
    destruct (Hrows _ _ Hk) as (Hl & _ & _ & Hs). apply list_elem_of_lookup in Hk as [i Hi'].
    rewrite (Hin _ _ _ Hi'), Hl. by apply rm_claim.
  - rewrite Hout by done. apply rm_same.
Qed.

Lemma finish_moves env f t ack db :
  db_inv db -> tx_spec (finish_receipt_claim env f t ack) (moved db) db.
Proof.
  intros Hi. eapply tx_mono; [by apply finish_receipt_claim_spec|].
  intros res db' (now & fork & tok & _ & _ & Hb & _ & ->). right. exists now.
  split; [done|]. split; [done|]. split; [|intros; apply am_same].
  intros k. apply (upd_moves (receipt_move now k)); [intros; apply rm_same|]. intros r Hk Hp.
  unfold holds_claim in Hp. bool_prop. destruct ack; [by apply rm_ack|by apply rm_release].
Qed.

Lemma reserve_moves self env f o usd db :
  valid_instance self -> tx_spec (reserve_admission self env f o usd) (moved db) db.
Proof.
  intros Hv. eapply tx_mono; [by apply reserve_admission_spec|].
  intros res db' (now & fork & owner & reserved & row & _ & _ & _ & Hb & Hrow & Hck & Hn & -> & _).
  right. exists now. split; [done|]. split; [done|]. split; [intros; apply rm_same|].
  intros k. simpl. destruct (decide (k = fork)) as [->|Hne].
  - rewrite lookup_insert_eq, Hn. apply am_reserve; [done|by rewrite Hrow|by rewrite Hrow].
  - rewrite lookup_insert_ne by done. apply am_same.
Qed.

Lemma reconcile_moves self env j live dead db :
  db_inv db -> valid_instance self -> tx_spec (reconcile_startup self env j live dead) (moved db) db.
Proof.
  intros Hi Hv. eapply tx_mono; [by apply reconcile_startup_spec|].
  intros res db' (now & ds & Hb & _ & Hnow & Hr & _ & Ha). right. exists now.
  split; [done|]. split; [done|]. split; intros k.
  - rewrite Hr. apply (upd_moves (receipt_move now k)); [intros; apply rm_same|]. intros r Hk Hp.
    unfold dead_claim in Hp. bool_prop. by apply rm_release.
  - rewrite Ha. destruct (admissions db !! k); simpl; [|apply am_same].
    apply recovered_move. by eapply required_text_check.
Qed.

Lemma get_moves env f db : tx_spec (get_admission env f) (moved db) db.
Proof.
  unfold get_admission. apply tx_lift; [intros ?; eauto with gateway|intros fork _].
  unfold tx_spec, se_bind. destruct (fault _ db) as [db1 r1] eqn:Hf.
  apply fault_inv in Hf as [-> [->|[->| ->]]]; [|done|done].
  destruct (bind_texts _ db) as [db2 r2] eqn:Ht.
  apply bind_texts_inv in Ht as [-> [->| ->]]; [|done]. by left.
Qed.

Lemma call_moves A (m : L A) db : db_inv db -> ledger_call A m -> tx_spec m (moved db) db.
Proof.
  intros Hi Hc. destruct Hc; eauto using write_receipt_moves, claim_moves, finish_moves,
    reserve_moves, reconcile_moves, get_moves.
  - eapply tx_mono; [by apply mark_admission_started_spec|].
    intros res db' (fork & _ & Hu). right. eapply owned_update_moves; [|exact Hu].
    intros now k a _ _ Hp. cbv beta in Hp. bool_prop. by apply am_start.
  - eapply tx_mono; [by apply settle_admission_spec|].
    intros res db' (fork & actual & _ & Hm & Hu). right. eapply owned_update_moves; [|exact Hu].
    intros now k a _ _ Hp. apply am_settle; [|done]. apply usd_to_micros_bounds in Hm. lia.
  - eapply tx_mono; [by apply abandon_admission_spec|].
    intros res db' (fork & _ & Hu). right. eapply owned_update_moves; [|exact Hu].
    intros now k a _ _ Hp. by apply am_abandon.
Qed.

Lemma tx_step {A} (m : L A) Q (P : LedgerDB -> Prop) db :
  tx_spec m Q db -> P db -> (forall a db', Q a db' -> P db') -> P (m db).1.
Proof. unfold tx_spec. destruct (m db) as [db' [a|e]]; simpl; [eauto|]. intros [-> _]. auto. Qed.

Lemma step_moves db db' :
  db_inv db -> ledger_step db db' -> db' = db \/ exists now, moves db now db'.
Proof.
  intros Hi [A m Hm].
  apply (tx_step m _ (fun d => d = db \/ exists now, moves db now d) db (call_moves A m db Hi Hm)); eauto.
Qed.

Lemma step_inv db db' : db_inv db -> ledger_step db db' -> db_inv db'.
Proof.
  intros Hi [->|(now & Hb & Hn & Hr & Ha)]%step_moves; [done| |done]. by apply (moves_inv db now).
Qed.

Lemma steps_inv db db' : rtc ledger_step db db' -> db_inv db -> db_inv db'.
Proof. induction 1; eauto using step_inv. Qed.

Lemma empty_inv : db_inv empty_db.
Proof. split; simpl; [split; [lia|]; by vm_compute|intros k r H; by rewrite lookup_empty in H..]. Qed.

(** *** Calendar days *)

(** The year of the 400-year era and the day of that year, counted from March. *)
Lemma civil_year_bounds doe yoe :
  (0 <= doe < 146097)%Z -> yoe = ((doe - doe / 1460 + doe / 36524 - doe / 146096) / 365)%Z ->
  (0 <= yoe <= 399 /\ 0 <= doe - (365 * yoe + yoe / 4 - yoe / 100) <= 365)%Z.
Proof.
  intros Hdoe ->.
  assert (0 <= doe / 36524 <= 4)%Z as Hc by (Z.to_euclidean_division_equations; lia).
  set (c := (doe / 36524)%Z) in *.
  assert (c = 0 \/ c = 1 \/ c = 2 \/ c = 3 \/ c = 4)%Z as Hcc by lia.
  assert (c * 36524 <= doe < (c + 1) * 36524)%Z as Hd.
  { unfold c. pose proof (Z.div_mod doe 36524). pose proof (Z.mod_pos_bound doe 36524). lia. }
  clearbody c. destruct Hcc as [->|[->|[->|[->| ->]]]]; Z.to_euclidean_division_equations; lia.
Qed.

Lemma civil_month_bounds doy mp :
  (0 <= doy <= 365)%Z -> mp = ((5 * doy + 2) / 153)%Z ->
  (0 <= mp <= 11 /\ 1 <= doy - (153 * mp + 2) / 5 + 1 <= 31)%Z.
Proof. intros ? ->. Z.to_euclidean_division_equations. lia. Qed.

(** The day number of a civil date. *)
Definition days_of_civil (ymd : Z * Z * Z) : Z :=
  let '(y, m, d) := ymd in
  (let y' := y - (if m <=? 2 then 1 else 0) in
   let yoe := y' mod 400 in
   let mp := if m <=? 2 then m + 9 else m - 3 in
   y' / 400 * 146097 + (365 * yoe + yoe / 4 - yoe / 100) + ((153 * mp + 2) / 5 + d - 1) - 719468)%Z.

Definition date_bounded (ymd : Z * Z * Z) : Prop :=
  let '(y, m, d) := ymd in (0 <= y <= 9999 /\ 1 <= m <= 12 /\ 1 <= d <= 31)%Z.

Definition LAST_DAY : Z := 106751.

Lemma civil_spec days :
  (0 <= days <= LAST_DAY)%Z -> date_bounded (civil days) /\ days_of_civil (civil days) = days.
Proof.
  unfold LAST_DAY, civil. intros Hd. set (z := (days + 719468)%Z).
  pose proof (Z.div_mod z 146097 ltac:(lia)) as Hz. pose proof (Z.mod_pos_bound z 146097 eq_refl) as Hdoe.
  assert (4 <= z / 146097 <= 5)%Z as He by (unfold z in *; lia).
  set (era := (z / 146097)%Z) in *. set (doe := (z mod 146097)%Z) in *. clearbody era doe.
  remember ((doe - doe / 1460 + doe / 36524 - doe / 146096) / 365)%Z as yoe eqn:Hyoe.
  destruct (civil_year_bounds _ _ Hdoe Hyoe) as [Hy Hdoy].
  remember (doe - (365 * yoe + yoe / 4 - yoe / 100))%Z as doy eqn:Ey.
  remember ((5 * doy + 2) / 153)%Z as mp eqn:Hmp.
  destruct (civil_month_bounds _ _ Hdoy Hmp) as [Hm Hday]. clear Hmp Hyoe.
  remember (doy - (153 * mp + 2) / 5 + 1)%Z as d eqn:Eday.
  assert (forall b, ((yoe + era * 400 + b - b) / 400 = era /\ (yoe + era * 400 + b - b) mod 400 = yoe)%Z) as Hq.
  { intros b. replace (yoe + era * 400 + b - b)%Z with (yoe + era * 400)%Z by lia.
    rewrite Z.div_add, Z.mod_add, Z.div_small, Z.mod_small by lia. lia. }
  unfold date_bounded, days_of_civil.
  destruct (mp <? 10)%Z eqn:Em; [apply Z.ltb_lt in Em|apply Z.ltb_ge in Em].
  - assert ((mp + 3 <=? 2)%Z = false) as -> by (apply Z.leb_gt; lia).
    destruct (Hq 0%Z) as [-> ->]. replace (mp + 3 - 3)%Z with mp by lia. unfold z in *. split; lia.
  - assert ((mp - 9 <=? 2)%Z = true) as -> by (apply Z.leb_le; lia).
    destruct (Hq 1%Z) as [-> ->]. replace (mp - 9 + 9)%Z with mp by lia. unfold z in *. split; lia.
Qed.

Lemma digit_inj n n' : digit n = digit n' -> (n mod 10 = n' mod 10)%Z.
Proof.
  unfold digit. pose proof (Z.mod_pos_bound n 10 eq_refl). pose proof (Z.mod_pos_bound n' 10 eq_refl). lia.
Qed.

Lemma two_digits_inj n n' :
  (0 <= n < 100)%Z -> (0 <= n' < 100)%Z -> two_digits n = two_digits n' -> n = n'.
Proof.
  unfold two_digits. intros ? ? H. injection H as Hh Hl.
  apply digit_inj in Hh, Hl. Z.to_euclidean_division_equations. lia.
Qed.

Lemma two_digits_mod n : two_digits n = two_digits (n mod 100).
Proof.
  assert (n mod 100 = n mod 10 + (n / 10) mod 10 * 10)%Z as E.
  { rewrite (Z.mul_comm _ 10). apply (Z.rem_mul_r n 10 10); lia. }
  pose proof (Z.mod_pos_bound n 10 eq_refl) as Hb.
  unfold two_digits, digit. rewrite E, Z.div_add by lia. rewrite (Z.div_small (n mod 10)) by lia.
  by rewrite Z.mod_add, Z.add_0_l, !Z.mod_mod by lia.
Qed.

Lemma isoformat_inj a b :
  date_bounded a -> date_bounded b -> isoformat a = isoformat b -> a = b.
Proof.
  destruct a as [[y m] d], b as [[y' m'] d']. unfold date_bounded, isoformat, four_digits.
  intros (Hy & Hm & Hd) (Hy' & Hm' & Hd') H.
  rewrite (two_digits_mod y), (two_digits_mod y') in H.
  assert (two_digits (y / 100) = two_digits (y' / 100) /\
          two_digits (y mod 100) = two_digits (y' mod 100) /\
          two_digits m = two_digits m' /\ two_digits d = two_digits d') as (E1 & E2 & E3 & E4).
  { unfold two_digits in H |- *. change (u "-") with [45%N] in H. cbn [app] in H.
    injection H as -> -> -> -> -> -> -> ->. done. }
  pose proof (Z.div_mod y 100 ltac:(lia)). pose proof (Z.div_mod y' 100 ltac:(lia)).
  pose proof (Z.mod_pos_bound y 100 eq_refl). pose proof (Z.mod_pos_bound y' 100 eq_refl).
  apply two_digits_inj in E1; [|lia..]. apply two_digits_inj in E2; [|lia..].
  apply two_digits_inj in E3; [|lia..]. apply two_digits_inj in E4; [|lia..].
  repeat f_equal; lia.
Qed.

Lemma utc_day_inj a b :
  (0 <= a <= MAX_INT64)%Z -> (0 <= b <= MAX_INT64)%Z ->
  utc_day a = utc_day b <-> (a / NS_PER_DAY = b / NS_PER_DAY)%Z.
Proof.
  intros Ha Hb. unfold utc_day, NS_PER_DAY.
  rewrite (Z.mul_comm 86400), <- !Z.div_div by lia.
  assert (forall z, (0 <= z <= MAX_INT64)%Z -> (0 <= z / 1000000000 / 86400 <= LAST_DAY)%Z) as Hl.
  { intros z Hz. unfold MAX_INT64, LAST_DAY in *. change (2 ^ 63)%Z with 9223372036854775808%Z in *.
    rewrite Z.div_div by lia. split; [apply Z.div_pos; lia|].
    apply Z.lt_succ_r, Z.div_lt_upper_bound; lia. }
  apply Hl in Ha, Hb. split; [|by intros ->]. intros H.
  destruct (civil_spec _ Ha) as [Ba Ia], (civil_spec _ Hb) as [Bb Ib].
  apply isoformat_inj in H; [|done|done]. congruence.
Qed.

(** *** Decimal text *)

(** Text that starts and ends with digits is its own stripped form. *)
Lemma drop_while_digit p c s : p c = false -> drop_while p (c :: s) = c :: s.
Proof. simpl. by intros ->. Qed.

Lemma digit_not c : is_digit c = true ->
  py_isspace c = false /\ c <> 95%N /\ c <> 45%N /\ c <> 43%N /\ c <> 46%N /\ ascii_lower1 c = c /\
  c <> 105%N /\ c <> 110%N /\ c <> 115%N.
Proof.
  unfold is_digit. intros H. bool_prop. apply N.leb_le in H, H0.
  assert (c ∈ [48; 49; 50; 51; 52; 53; 54; 55; 56; 57]%N) as Hin.
  { assert (c = 48 \/ c = 49 \/ c = 50 \/ c = 51 \/ c = 52 \/ c = 53 \/ c = 54 \/ c = 55 \/ c = 56 \/ c = 57)%N
      as Hc by lia. destruct Hc as [->|[->|[->|[->|[->|[->|[->|[->|[->| ->]]]]]]]]]; set_solver. }
  clear H H0. rewrite !elem_of_cons, elem_of_nil in Hin.
  destruct_or?; subst; try done.
Qed.

Lemma filter_digits ds : forallb is_digit ds = true -> filter (fun c => c <> 95%N) ds = ds.
Proof.
  induction ds as [|d ds IH]; intros H; [done|]. simpl in H. bool_prop.
  rewrite filter_cons_True; [by rewrite IH|]. by apply digit_not.
Qed.

Lemma decimal_of_fixed ip fp :
  forallb is_digit ip = true -> forallb is_digit fp = true -> ip <> [] -> fp <> [] ->
  decimal_of_str (ip ++ [46%N] ++ fp) =
    Some (DFinite false (digits_val (ip ++ fp)) (- Z.of_nat (length fp))).
Proof.
  intros Hi Hf Hine Hfne. destruct ip as [|c ip]; [done|]. clear Hine.
  destruct (exists_last Hfne) as (fp' & d & Hd).
  set (txt := (c :: ip) ++ [46%N] ++ fp).
  assert (is_digit c = true) as Hc by (simpl in Hi; by bool_prop).
  assert (is_digit d = true) as Hdd.
  { rewrite Hd, forallb_app in Hf. simpl in Hf. by bool_prop. }
  destruct (digit_not c Hc) as (Hcs & _ & Hcm & Hcp & _ & Hcl & Hci & Hcn & Hcsn).
  assert (py_strip txt = txt) as Hstrip.
  { unfold py_strip, strip_by, rstrip_by, lstrip_by, txt. simpl app.
    rewrite (drop_while_digit _ _ _ Hcs), Hd.
    replace (c :: ip ++ 46%N :: fp' ++ [d]) with ((c :: ip ++ 46%N :: fp') ++ [d])
      by (simpl; by rewrite <- app_assoc).
    rewrite reverse_snoc, drop_while_digit by apply (digit_not d Hdd).
    by rewrite reverse_cons, reverse_involutive. }
  assert (filter (fun c => c <> 95%N) txt = txt) as Hfil.
  { unfold txt. rewrite !filter_app, (filter_digits _ Hi), (filter_digits _ Hf). done. }
  unfold decimal_of_str. rewrite Hstrip, Hfil. unfold txt, take_sign. cbn [app].
  rewrite (proj2 (N.eqb_neq c 45) Hcm), (proj2 (N.eqb_neq c 43) Hcp).
  assert (forall p s, (match p with x :: _ => x | [] => c end) <> c ->
    sql_lower (c :: s) <> p /\ (p <> [] -> py_startswith p (sql_lower (c :: s)) = false)) as Hhead.
  { intros [|x p] s Hx; [done|]. simpl. rewrite Hcl. split; [by intros [= ->]|].
    intros _. by rewrite (proj2 (N.eqb_neq x c) Hx). }
  change (u "inf") with [105; 110; 102]%N.
  change (u "infinity") with [105; 110; 102; 105; 110; 105; 116; 121]%N.
  change (u "nan") with [110; 97; 110]%N. change (u "snan") with [115; 110; 97; 110]%N.
  rewrite !bool_decide_eq_false_2 by (apply Hhead; simpl; congruence).
  rewrite (proj2 (Hhead [110; 97; 110]%N (ip ++ 46%N :: fp) ltac:(simpl; congruence)) ltac:(done)).
  rewrite (proj2 (Hhead [115; 110; 97; 110]%N (ip ++ 46%N :: fp) ltac:(simpl; congruence)) ltac:(done)).
  cbn [andb orb].
  unfold parse_number. change (c :: ip ++ 46%N :: fp) with ((c :: ip) ++ 46%N :: fp).
  rewrite span_digits by done. cbn -[span digits_val app].
  rewrite <- (app_nil_r fp) at 1. rewrite span_digits by done.
  rewrite bool_decide_eq_false_2 by done. cbn [parse_exp]. by rewrite Z.sub_0_l.
Qed.

(** *** Money text round trip *)
Lemma usd_str_parses m :
  decimal_of_str (usd_str m) = Some (DFinite false m (-6)).
Proof.
  unfold usd_str. set (frac := N_to_str (m mod 1000000)).
  destruct (N_to_str_spec (m / 1000000)) as (Hv & Hd & Hne & _).
  destruct (N_to_str_spec (m mod 1000000)) as (Hfv & Hfd & Hfne & Hlen). fold frac in Hfv, Hfd, Hfne, Hlen.
  assert (length frac <= 6) as Hl6 by (apply Hlen; [apply N.mod_lt; lia|lia]).
  assert (forallb is_digit (replicate (6 - length frac) 48%N) = true) as Hz.
  { generalize (6 - length frac). induction n; [done|]. simpl. done. }
  change (u ".") with [46%N]. rewrite decimal_of_fixed; [|done| |done|].
  2: by rewrite forallb_app, Hz, Hfd.
  2: { intros [_ H]%app_eq_nil. done. }
  assert (length (replicate (6 - length frac) 48%N ++ frac) = 6) as HL
    by (rewrite length_app, length_replicate; lia).
  rewrite HL, digits_val_app, HL, Hv. do 2 f_equal.
  assert (digits_val (replicate (6 - length frac) 48%N ++ frac) = (m mod 1000000)%N) as ->.
  { rewrite digits_val_app, Hfv. generalize (6 - length frac). intros n.
    assert (digits_val (replicate n 48%N) = 0%N) as ->; [|lia].
    induction n as [|n IH]; [done|]. exact IH. }
  change (10 ^ N.of_nat 6)%N with 1000000%N. pose proof (N.div_mod' m 1000000). lia.
Qed.

(** *** Day totals *)
Definition day_total (owner day : str) (db : LedgerDB) : Z :=
  sum_charges (day_rows owner day (admissions db)).

Lemma sum_charges_perm l l' : l ≡ₚ l' -> sum_charges l = sum_charges l'.
Proof. induction 1; simpl; lia. Qed.

Lemma day_rows_insert owner day m k a :
  m !! k = None ->
  day_rows owner day (<[k := a]> m) ≡ₚ
    (if decide (a_owner a = owner /\ a_date a = day) then [a] else []) ++ day_rows owner day m.
Proof.
  intros Hk. unfold day_rows. rewrite map_to_list_insert by done. rewrite fmap_cons, filter_cons.
  simpl. by destruct (decide _).
Qed.

Lemma day_total_insert owner day m k a :
  m !! k = None ->
  sum_charges (day_rows owner day (<[k := a]> m)) =
  ((if decide (a_owner a = owner /\ a_date a = day) then charge a else 0)
   + sum_charges (day_rows owner day m))%Z.
Proof.
  intros Hk. rewrite (sum_charges_perm _ _ (day_rows_insert owner day m k a Hk)).
  destruct (decide _); simpl; lia.
Qed.

(** Rewriting one row moves only its own bucket, by the change of its charge. *)
Lemma day_total_update owner day m k a b :
  m !! k = Some a -> a_owner b = a_owner a -> a_date b = a_date a ->
  sum_charges (day_rows owner day (<[k := b]> m)) =
  (sum_charges (day_rows owner day m)
   + if decide (a_owner a = owner /\ a_date a = day) then charge b - charge a else 0)%Z.
Proof.
  intros Hk Ho Hd. rewrite <- (insert_delete_eq m k b).
  replace (day_rows owner day m) with (day_rows owner day (<[k := a]> (delete k m)))
    by (by rewrite insert_delete_id).
  rewrite !day_total_insert by apply lookup_delete_eq. rewrite Ho, Hd.
  destruct (decide _); lia.
Qed.

Lemma upd_single {R} (p : str -> R -> bool) (f : R -> R) (m : gmap str R) (k : str) (r : R) :
  m !! k = Some r -> p k r = true -> (forall k' r', p k' r' = true -> k' = k) ->
  upd p f m = <[k := f r]> m.
Proof.
  intros Hk Hp Ho. apply map_eq. intros k'. destruct (decide (k' = k)) as [->|Hne].
  - by rewrite lookup_insert_eq, (lookup_upd_some _ _ _ _ _ Hk), Hp.
  - rewrite lookup_insert_ne by done. apply upd_key_ne. intros x.
    destruct (p k' x) eqn:E; [by apply Ho in E|done].
Qed.

Lemma owned_update_total self fork p g db db' a :
  owned_update self fork p g db true db' -> admissions db !! fork = Some a ->
  (forall now x, a_owner (g now x) = a_owner x /\ a_date (g now x) = a_date x) ->
  exists now, p a = true /\ begins db now /\ admissions db' !! fork = Some (g now a) /\
    forall owner day, day_total owner day db' =
      (day_total owner day db + if decide (a_owner a = owner /\ a_date a = day)
                                then charge (g now a) - charge a else 0)%Z.
Proof.
  intros (now & Hb & Hres & ->) Hk Hg. rewrite Hk in Hres. symmetry in Hres. bool_prop.
  exists now. split; [done|]. split; [done|].
  assert (upd (fun k a => owned fork self k a && p a) (g now) (admissions db)
          = <[fork := g now a]> (admissions db)) as Hu.
  { apply upd_single; [done| |].
    - unfold owned. rewrite !bool_decide_eq_true_2 by done. done.
    - intros k' r' H'. unfold owned in H'. by bool_prop. }
  simpl. rewrite Hu. split; [apply lookup_insert_eq|]. intros owner day.
  unfold day_total. simpl. destruct (Hg now a).
  by apply day_total_update.
Qed.

(** *** Life-cycle consequences *)
Definition terminal_admission (a : Admission) : bool := negb (in_flight a).
Definition admission_rank (s : AdmissionState) : nat :=
  match s with AReserved => 0 | AStarted => 1 | ASettled | AAbandoned => 2 end.

Definition admission_succ (a a' : Admission) : Prop :=
  a_owner a' = a_owner a /\ a_date a' = a_date a /\ a_max_reserved a' = a_max_reserved a /\
  a_created_at_ns a' = a_created_at_ns a /\
  admission_rank (a_state a) <= admission_rank (a_state a') /\
  (terminal_admission a = true -> a' = a).

Lemma admission_move_succ now k a o :
  admission_move now k (Some a) o -> exists a', o = Some a' /\ admission_succ a a'.
Proof.
  intros H. inversion H; subst; eexists; (split; [done|]); unfold admission_succ, terminal_admission, in_flight in *;
    simpl; repeat match goal with H : a_state _ = _ |- _ => rewrite H in * end; simpl;
    repeat split; try done; try (destruct (a_state a); simpl; lia);
    destruct (a_state a); done.
Qed.

Lemma admission_succ_trans a b c : admission_succ a b -> admission_succ b c -> admission_succ a c.
Proof.
  unfold admission_succ. intros (?&?&?&?&?&Hab) (?&?&?&?&?&Hbc).
  repeat split; try congruence; [lia|]. intros Ht. pose proof (Hab Ht). subst b. auto.
Qed.

Lemma steps_admission db db' k a :
  rtc ledger_step db db' -> db_inv db -> admissions db !! k = Some a ->
  exists a', admissions db' !! k = Some a' /\ admission_succ a a'.
Proof.
  intros Hs. revert a. induction Hs as [db|db db1 db2 H1 H2 IH]; intros a Hi Hk.
  - exists a. split; [done|]. by repeat split.
  - pose proof (step_inv _ _ Hi H1) as Hi1.
    assert (exists a1, admissions db1 !! k = Some a1 /\ admission_succ a a1) as (a1 & Hk1 & Hs1).
    { destruct (step_moves _ _ Hi H1) as [->|(now & _ & _ & _ & Ha)].
      - exists a. split; [done|]. by repeat split.
      - specialize (Ha k). rewrite Hk in Ha. by apply admission_move_succ in Ha. }
    destruct (IH a1 Hi1 Hk1) as (a2 & Hk2 & Hs2). exists a2. split; [done|].
    by eapply admission_succ_trans.
Qed.

Lemma steps_acked db db' k r :
  rtc ledger_step db db' -> db_inv db -> receipts db !! k = Some r -> r_state r = RAcked ->
  receipts db' !! k = Some r.
Proof.
  intros Hs. induction Hs as [db|db db1 db2 H1 H2 IH]; intros Hi Hk Hst; [done|].
  apply IH; [by eapply step_inv| |done].
  destruct (step_moves _ _ Hi H1) as [->|(now & _ & _ & Hr & _)]; [done|].
  specialize (Hr k). rewrite Hk in Hr. inversion Hr; subst; congruence.
Qed.

(** [order_rows] sorts. *)
Lemma str_leb_total a b : str_leb a b = true \/ str_leb b a = true.
Proof.
  revert b. induction a as [|x a IH]; intros [|y b]; simpl; auto.
  destruct (N.lt_trichotomy x y) as [H|[->|H]].
  - left. by rewrite (proj2 (N.ltb_lt _ _) H).
  - rewrite N.ltb_irrefl, N.eqb_refl. simpl. apply IH.
  - right. by rewrite (proj2 (N.ltb_lt _ _) H).
Qed.

Lemma older_total x y : older x y = false -> older y x = true.
Proof.
  unfold older. intros H. bool_prop. apply Z.ltb_ge in H. apply orb_true_iff.
  destruct (r_created_at_ns x.2 =? r_created_at_ns y.2)%Z eqn:E.
  - right. apply Z.eqb_eq in E. rewrite E, Z.eqb_refl. simpl in *.
    destruct (str_leb_total x.1 y.1); [congruence|done].
  - left. apply Z.eqb_neq in E. apply Z.ltb_lt. lia.
Qed.

Lemma insert_older_sorted x l :
  Sorted (fun a b => older a b = true) l -> Sorted (fun a b => older a b = true) (insert_older x l).
Proof.
  induction 1 as [|y l Hs IH Hh]; simpl; [by repeat constructor|].
  destruct (older x y) eqn:E; [by repeat constructor|]. apply older_total in E.
  constructor; [done|]. destruct l as [|z l]; simpl; [by constructor|].
  destruct (older x z); constructor; [done|]. by inversion Hh.
Qed.

Lemma order_rows_sorted l : Sorted (fun a b => older a b = true) (order_rows l).
Proof. induction l; simpl; [constructor|]. by apply insert_older_sorted. Qed.

Lemma Sorted_take {A} (R : A -> A -> Prop) n (l : list A) : Sorted R l -> Sorted R (take n l).
Proof.
  intros H. revert n. induction H as [|x l Hs IH Hh]; intros [|n]; simpl; try by constructor.
  constructor; [apply IH|]. destruct Hh; destruct n; simpl; by constructor.
Qed.

(** A terminal admission is neither settled nor abandoned again. *)
Lemma settled_refused self env fork usd db db' a b :
  db_inv db -> admissions db !! fork = Some a -> in_flight a = false ->
  settle_admission self env (JStr fork) usd db = (db', Ret b) \/
  abandon_admission self env (JStr fork) db = (db', Ret b) -> b = false.
Proof.
  intros Hi Hk Hf [H|H].
  - pose proof (settle_admission_spec self env (JStr fork) usd db Hi) as Hsp.
    unfold tx_spec in Hsp. rewrite H in Hsp. destruct Hsp as (? & ? & ? & _ & (? & _ & -> & _)).
    simplify_eq. by rewrite Hk, Hf, andb_false_r.
  - pose proof (abandon_admission_spec self env (JStr fork) db Hi) as Hsp.
    unfold tx_spec in Hsp. rewrite H in Hsp. destruct Hsp as (? & ? & (? & _ & -> & _)).
    simplify_eq. by rewrite Hk, Hf, andb_false_r.
Qed.

(** What a successful claim returns. *)
Lemma claim_result self env toks s o t l db db' claims :
  db_inv db -> claim_pending_receipts self env toks s o t l db = (db', Ret claims) ->
  exists session owner limit, s = JStr session /\ o = JStr owner /\ l = JInt limit /\ (0 < limit)%Z /\
    (c_fork_id <$> claims) = (pending_rows session owner limit (receipts db)).*1 /\
    (forall c, c ∈ claims -> exists r r',
       receipts db !! c_fork_id c = Some r /\ r_state r = RPending /\ c_receipt_text c = r_text r /\
       receipts db' !! c_fork_id c = Some r' /\ r_state r' = RClaimed /\
       r_claim_token r' = Some (c_claim_token c) /\ r_process_instance_id r' = Some self).
Proof.
  intros Hi H. pose proof (claim_pending_receipts_spec self env toks s o t l db Hi) as Hsp.
  unfold tx_spec in Hsp. rewrite H in Hsp.
  destruct Hsp as (now & session & owner & turn & limit & _ & -> & -> & -> & -> & Hpos & Hcl & _ & _ & _ & Hin).
  exists session, owner, limit. repeat (split; [done|]).
  destruct (pending_rows_spec session owner limit (receipts db)) as [_ Hrows].
  set (rows := pending_rows session owner limit (receipts db)) in *. rewrite Hcl. split.
  - apply list_eq. intros i. rewrite list_lookup_fmap, list_lookup_imap, list_lookup_fmap.
    by destruct (rows !! i).
  - intros c [i Hc]%list_elem_of_lookup. rewrite list_lookup_imap in Hc.
    destruct (rows !! i) as [[k r]|] eqn:Hk; simplify_eq/=.
    destruct (Hrows k r) as (Hl & _ & _ & Hs); [by eapply list_elem_of_lookup_2|].
    exists r. eexists. split; [done|]. split; [done|]. split; [done|].
    split; [by apply (Hin i)|done].
Qed.

Lemma recovered_cases self j ds now k a :
  let dead_owner := is_dead ds (Some (a_process_instance_id a)) in
  let o' := recovered self j ds now k <$> Some a in
  (dead_owner = false \/ in_flight a = false -> o' = Some a) /\
  (dead_owner = true -> a_state a = AStarted -> parked j k = true -> o' = Some (adopt_row self now a)) /\
  (dead_owner = true -> in_flight a = true -> a_state a <> AStarted \/ parked j k = false ->
     o' = Some (abandon_row now a)).
Proof.
  cbn zeta. unfold recovered. simpl. split; [|split].
  - intros [->| ->]; rewrite ?andb_false_r; done.
  - intros -> Hs ->. unfold in_flight. rewrite Hs. done.
  - intros -> -> Hc. simpl. destruct Hc as [Hc| ->]; [|by rewrite andb_false_r].
    by rewrite bool_decide_eq_false_2.
Qed.

(** ** Properties *)

(** C32: In every ledger reachable by any interleaving of calls from any
    instances, a call either commits, keeping every row within the tables'
    CHECK constraints and the clock watermark monotone, or raises and leaves
    the database exactly as it was; it never raises because a row it wrote
    violated a constraint, and a clock behind the watermark is always refused. *)
Theorem ledger_transactions_sound db A (m : L A) :
  rtc ledger_step empty_db db -> ledger_call A m ->
  match m db with
  | (db', Ret _) => db_inv db' /\ (last_observed_wall_ns db <= last_observed_wall_ns db')%Z
  | (db', Raise e) => db' = db /\ e <> ForkLedgerUnavailable IntegrityError
  end.
Proof.
  intros Hs Hc. pose proof (steps_inv _ _ Hs empty_inv) as Hi.
  pose proof (call_moves A m db Hi Hc) as H. unfold tx_spec in H.
  destruct (m db) as [db' [a|e]]; [|done].
  destruct H as [->|(now & Hb & Hn & Hr & Ha)]; [done|].
  split; [by apply (moves_inv db now)|]. destruct Hb. lia.
Qed.

(** A wall clock behind the durable watermark makes every transaction
    fail with [ForkLedgerClockRollback] before its operation runs, and nothing
    is written; a connection fault is reported first. *)
Theorem clock_rollback_refused {A} now (op : Z -> str -> L A) cf db :
  (0 < now < last_observed_wall_ns db)%Z ->
  transaction (mkEnv (JInt now) None cf) op db = (db, Raise ForkLedgerClockRollback).
Proof.
  intros [Hpos Hlt]. unfold transaction, transact, se_bind, fault, se_ret, se_lift, now_ns. simpl.
  rewrite (proj2 (Z.leb_gt now 0) Hpos). unfold observe_clock, se_bind, se_get. simpl.
  by rewrite (proj2 (Z.ltb_lt _ _) Hlt).
Qed.

(** C6: Over any sequence of calls an admission is never lost: its owner, day,
    reservation and creation time never change, its state only advances
    (reserved, started, then settled or abandoned), and a settled or abandoned
    admission is never written again. *)
Theorem admission_lifecycle db db' k a :
  db_inv db -> rtc ledger_step db db' -> admissions db !! k = Some a ->
  exists a', admissions db' !! k = Some a' /\
    a_owner a' = a_owner a /\ a_date a' = a_date a /\ a_max_reserved a' = a_max_reserved a /\
    a_created_at_ns a' = a_created_at_ns a /\
    admission_rank (a_state a) <= admission_rank (a_state a') /\
    (in_flight a = false -> a' = a).
Proof.
  intros Hi Hs Hk. destruct (steps_admission _ _ _ _ Hs Hi Hk) as (a' & Hk' & ?&?&?&?&?&Ht).
  exists a'. repeat (split; [done|]). intros Hf. apply Ht. unfold terminal_admission. by rewrite Hf.
Qed.

(** [reserve_admission] reports exactly the owner's UTC-day totals with the
    new admission included, and leaves every other owner's and day's total
    unchanged. *)
Theorem reserve_reports_day_totals self env f o usd db db' res :
  valid_instance self -> reserve_admission self env f o usd db = (db', Ret res) ->
  let owner := ar_owner (record res) in
  let day := ar_date (record res) in
  day_charged_microusd res = day_total owner day db' /\
  day_invocations res = Z.of_nat (length (day_rows owner day (admissions db'))) /\
  forall owner' day', (owner', day') <> (owner, day) ->
    day_total owner' day' db' = day_total owner' day' db.
Proof.
  intros Hv H. pose proof (reserve_admission_spec self env f o usd db Hv) as Hsp.
  unfold tx_spec in Hsp. rewrite H in Hsp.
  destruct Hsp as (now & fork & owner & reserved & row & -> & -> & _ & _ & -> & _ & Hn & -> & _ & ->).
  cbn [record ar_owner ar_date day_charged_microusd day_invocations].
  unfold day_total. cbn [admissions set_admissions]. generalize dependent (utc_day now). intros day. split; [|split].
  - rewrite day_total_insert by done. rewrite decide_True by done. apply Z.add_comm.
  - rewrite (day_rows_insert _ _ _ _ _ Hn). rewrite decide_True by done.
    rewrite length_app. cbn [length]. lia.
  - intros owner' day' Hne. rewrite day_total_insert by done. rewrite decide_False; [done|].
    cbn [a_owner a_date]. intros [<- <-]. done.
Qed.

(** Settling a fork replaces its reservation by its actual spend in its own
    owner-day total, at any non-negative amount, and moves no other total;
    a second settlement or abandonment of it is refused. *)
Theorem settlement_exact self env f usd db db' :
  db_inv db -> valid_instance self -> settle_admission self env f usd db = (db', Ret true) ->
  exists fork a actual, f = JStr fork /\ admissions db !! fork = Some a /\ in_flight a = true /\
    usd_to_micros true usd = Ret actual /\
    (forall owner day, day_total owner day db' =
      (day_total owner day db + if decide (a_owner a = owner /\ a_date a = day)
                                then actual - a_max_reserved a else 0)%Z) /\
    (forall self' env' usd' db2 db3 b, rtc ledger_step db' db2 ->
       settle_admission self' env' f usd' db2 = (db3, Ret b) \/
       abandon_admission self' env' f db2 = (db3, Ret b) -> b = false).
Proof.
  intros Hi Hv H. pose proof (settle_admission_spec self env f usd db Hi) as Hsp.
  unfold tx_spec in Hsp. rewrite H in Hsp. destruct Hsp as (fork & actual & -> & Hm & Hu).
  destruct (admissions db !! fork) as [a|] eqn:Hk.
  2: { destruct Hu as (now & _ & Hres & _). by rewrite Hk in Hres. }
  destruct (owned_update_total _ _ _ _ _ _ a Hu Hk) as (now & Hf & Hb & Hk' & Htot); [done|].
  exists fork, a, actual. repeat (split; [done|]). split.
  { intros owner day. rewrite Htot. unfold charge at 1. simpl. unfold charge. by rewrite Hf. }
  intros self' env' usd' db2 db3 b Hs Hcall.
  assert (db_inv db') as Hi'.
  { pose proof (ledger_step_call db _ _ (lc_settle self env (JStr fork) usd Hv)) as Hst.
    rewrite H in Hst. by apply (step_inv db). }
  destruct (steps_admission _ _ _ _ Hs Hi' Hk') as (a2 & Hk2 & _ & _ & _ & _ & _ & Ha2).
  assert (in_flight a2 = false) as Hf2 by (by rewrite Ha2).
  apply (settled_refused self' env' fork usd' db2 db3 a2 b); [by apply (steps_inv db')|done..].
Qed.

(** A claim hands out distinct receipts of the session and owner, at most
    [limit], oldest first; each one was pending, now carries its own token and
    the claiming instance, and is in no claim made while it stays claimed. *)
Theorem claims_exclusive self env toks s o t l db db' claims :
  db_inv db -> claim_pending_receipts self env toks s o t l db = (db', Ret claims) ->
  exists session owner limit rows,
    s = JStr session /\ o = JStr owner /\ l = JInt limit /\
    rows = pending_rows session owner limit (receipts db) /\
    (c_fork_id <$> claims) = rows.*1 /\ NoDup (c_fork_id <$> claims) /\
    (Z.of_nat (length claims) <= limit)%Z /\
    Sorted (fun x y => older x y = true) rows /\
    (forall c, c ∈ claims -> exists r r',
       receipts db !! c_fork_id c = Some r /\ r_state r = RPending /\ c_receipt_text c = r_text r /\
       receipts db' !! c_fork_id c = Some r' /\ r_state r' = RClaimed /\
       r_claim_token r' = Some (c_claim_token c) /\ r_process_instance_id r' = Some self) /\
    (forall c self2 env2 toks2 s2 o2 t2 l2 db2 db3 claims2, c ∈ claims ->
       db_inv db2 -> receipts db2 !! c_fork_id c = receipts db' !! c_fork_id c ->
       claim_pending_receipts self2 env2 toks2 s2 o2 t2 l2 db2 = (db3, Ret claims2) ->
       c_fork_id c ∉ (c_fork_id <$> claims2)).
Proof.
  intros Hi H. destruct (claim_result _ _ _ _ _ _ _ _ _ _ Hi H)
    as (session & owner & limit & -> & -> & -> & Hpos & Hids & Hc).
  pose proof (pending_rows_spec session owner limit (receipts db)) as [Hnd _].
  exists session, owner, limit, (pending_rows session owner limit (receipts db)).
  repeat (split; [done|]). split; [by rewrite Hids|]. split.
  { rewrite <- (length_fmap c_fork_id), Hids, length_fmap. unfold pending_rows.
    rewrite length_take. lia. }
  split; [apply Sorted_take, order_rows_sorted|]. split; [exact Hc|].
  intros c self2 env2 toks2 s2 o2 t2 l2 db2 db3 claims2 Hin Hi2 Hsame H2 Hin2.
  destruct (Hc c Hin) as (r & r' & _ & _ & _ & Hr' & Hst & _). rewrite Hr' in Hsame.
  destruct (claim_result _ _ _ _ _ _ _ _ _ _ Hi2 H2) as (_ & _ & _ & _ & _ & _ & _ & _ & Hc2).
  apply list_elem_of_fmap in Hin2 as (c2 & Heq & Hin2).
  destruct (Hc2 c2 Hin2) as (row & _ & Hx & Hp & _). rewrite <- Heq, Hsame in Hx. congruence.
Qed.

(** An acknowledged receipt is delivered exactly once: after [ack_receipt]
    succeeds, over any further calls the row never changes, is never handed
    out again and never acknowledged or reverted again, under any token. *)
Theorem acked_receipt_delivered_once env f t db db1 db2 :
  db_inv db -> ack_receipt env f t db = (db1, Ret true) -> rtc ledger_step db1 db2 ->
  exists fork r, f = JStr fork /\ receipts db1 !! fork = Some r /\ receipts db2 !! fork = Some r /\
    (forall env' t' ack db3 b, finish_receipt_claim env' f t' ack db2 = (db3, Ret b) -> b = false) /\
    (forall self' env' toks s o t' l db3 claims,
       claim_pending_receipts self' env' toks s o t' l db2 = (db3, Ret claims) ->
       fork ∉ (c_fork_id <$> claims)).
Proof.
  intros Hi H Hs. unfold ack_receipt in H.
  pose proof (finish_receipt_claim_spec env f t true db Hi) as Hsp. unfold tx_spec in Hsp.
  rewrite H in Hsp. destruct Hsp as (now & fork & tok & -> & -> & Hb & Hres & Hdb1).
  destruct (receipts db !! fork) as [r|] eqn:Hr; [|done]. symmetry in Hres.
  assert (db_inv db1) as Hi1.
  { pose proof (ledger_step_call db _ _ (lc_finish env (JStr fork) (JStr tok) true)) as Hst.
    rewrite H in Hst. by apply (step_inv db). }
  assert (receipts db1 !! fork = Some (ack_row now r)) as Hr1.
  { rewrite Hdb1. cbn [receipts set_receipts]. by rewrite (lookup_upd_some _ _ _ _ _ Hr), Hres. }
  pose proof (steps_acked _ _ _ _ Hs Hi1 Hr1 eq_refl) as Hr2. pose proof (steps_inv _ _ Hs Hi1) as Hi2.
  exists fork, (ack_row now r). repeat (split; [done|]). split.
  - intros env' t' ack db3 b H3. pose proof (finish_receipt_claim_spec env' (JStr fork) t' ack db2 Hi2) as Hsp.
    unfold tx_spec in Hsp. rewrite H3 in Hsp. destruct Hsp as (? & ? & ? & ? & _ & _ & -> & _).
    simplify_eq. rewrite Hr2. unfold holds_claim. simpl. by rewrite andb_false_r.
  - intros self' env' toks s o t' l db3 claims H3 Hin.
    destruct (claim_result _ _ _ _ _ _ _ _ _ _ Hi2 H3) as (_ & _ & _ & _ & _ & _ & _ & _ & Hc2).
    apply list_elem_of_fmap in Hin as (c & -> & Hin). destruct (Hc2 c Hin) as (row & _ & Hx & Hp & _).
    rewrite Hr2 in Hx. simplify_eq.
Qed.

(** Recovery never touches what a live instance owns, adopts exactly the
    dead instances' started forks whose journal holds a committed park,
    abandons their other in-flight forks at the reservation, and releases
    their claimed receipts: afterwards nothing in flight belongs to the dead. *)
Theorem recovery_exact self env j live dead db db' res :
  db_inv db -> valid_instance self -> reconcile_startup self env j live dead db = (db', Ret res) ->
  exists now ds, reconcile_target self live dead = Ret ds /\ is_dead ds (Some self) = false /\
    (forall k a, admissions db !! k = Some a ->
       let dead_owner := is_dead ds (Some (a_process_instance_id a)) in
       (dead_owner = false \/ in_flight a = false -> admissions db' !! k = Some a) /\
       (dead_owner = true -> a_state a = AStarted -> parked j k = true ->
          admissions db' !! k = Some (adopt_row self now a)) /\
       (dead_owner = true -> in_flight a = true -> a_state a <> AStarted \/ parked j k = false ->
          admissions db' !! k = Some (abandon_row now a))) /\
    (forall k r, receipts db !! k = Some r -> is_dead ds (r_process_instance_id r) = false ->
       receipts db' !! k = Some r) /\
    (forall k a', admissions db' !! k = Some a' -> in_flight a' = true ->
       is_dead ds (Some (a_process_instance_id a')) = false) /\
    (forall k r', receipts db' !! k = Some r' -> r_state r' = RClaimed ->
       is_dead ds (r_process_instance_id r') = false).
Proof.
  intros Hi Hv H. pose proof (reconcile_startup_spec self env j live dead db Hi Hv) as Hsp.
  unfold tx_spec in Hsp. rewrite H in Hsp.
  destruct Hsp as (now & ds & _ & Hds & _ & Hr & _ & Ha).
  pose proof (self_not_dead _ _ _ _ Hds) as Hself.
  exists now, ds. split; [done|]. split; [done|]. split; [|split; [|split]].
  - intros k a Hk. rewrite Ha, Hk. apply recovered_cases.
  - intros k r Hk Hd. rewrite Hr, (lookup_upd_some _ _ _ _ _ Hk). unfold dead_claim.
    by rewrite Hd, andb_false_r.
  - intros k a'. rewrite Ha. intros (a & Hk & ->)%fmap_Some. unfold recovered.
    destruct (in_flight a) eqn:Hf; simpl; [|congruence].
    destruct (is_dead ds (Some (a_process_instance_id a))) eqn:Hd; [|done].
    destruct (_ && _); [done|]. by intros Hab.
  - intros k r'. rewrite Hr, lookup_upd. intros (r & Hk & ->)%fmap_Some. unfold dead_claim.
    case_bool_decide as Hs; simpl; [|done].
    destruct (is_dead ds (r_process_instance_id r)) eqn:Hd; [by intros|done].
Qed.

(** The UTC-day windows are exact: two clock readings fall into the same
    day bucket exactly when they are on the same UTC calendar day, for every
    reading the 63-bit clock can give. *)
Theorem utc_day_windows a b :
  (0 < a <= MAX_INT64)%Z -> (0 < b <= MAX_INT64)%Z ->
  utc_day a = utc_day b <-> (a / NS_PER_DAY = b / NS_PER_DAY)%Z.
Proof. intros. apply utc_day_inj; lia. Qed.

(** Money round trip: the USD text of any stored amount reads back as the
    same number of micro-dollars. *)
Theorem usd_round_trip m :
  (Z.of_N m <= MAX_INT64)%Z ->
  micros_to_usd (Z.of_N m) = DFinite false m (-6) /\
  usd_to_micros true (usd_str m) = Ret (Z.of_N m).
Proof.
  intros Hm. split.
  - unfold micros_to_usd. rewrite (proj2 (Z.ltb_ge _ _)) by lia. by rewrite Zabs2N.id.
  - unfold usd_to_micros. rewrite usd_str_parses. simpl negb. rewrite andb_false_r. simpl orb.
    unfold quantize_micros. simpl. rewrite Z.mul_1_r.
    assert (Z.of_N m < 10 ^ 28)%Z as Hlt by (unfold MAX_INT64 in Hm; lia).
    rewrite (proj2 (Z.leb_gt _ _) Hlt). simpl. rewrite andb_false_r.
    by rewrite (proj2 (Z.ltb_ge _ _) Hm).
Qed.

(** Opening a v1 ledger whose rows satisfy the v1 constraints always
    succeeds, keeps every row and the watermark, and yields a valid v2 ledger;
    opening it again changes nothing. *)
Theorem v1_migration_lossless db :
  (0 <= last_observed_wall_ns db <= MAX_INT64)%Z ->
  (forall k r, receipts db !! k = Some r ->
     receipt_check k r = true /\ (r_updated_at_ns r <= last_observed_wall_ns db)%Z) ->
  (forall k a, admissions db !! k = Some a ->
     admission_check_v1 k a = true /\ (a_updated_at_ns a <= last_observed_wall_ns db)%Z) ->
  prepare (mkFile 1 SV1 db) = Ret (mkFile 2 SV2 db) /\
  prepare (mkFile 2 SV2 db) = Ret (mkFile 2 SV2 db) /\ db_inv db.
Proof.
  intros Hc Hr Ha.
  assert (forall k a, admissions db !! k = Some a -> admission_check k a = true) as Hck.
  { intros k a Hk. apply Ha in Hk as [Hv _]. unfold admission_check_v1 in Hv. by bool_prop. }
  assert ((last_observed_wall_ns db <? 0)%Z = false) as Hz by (apply Z.ltb_ge; lia).
  assert (prepare (mkFile 2 SV2 db) = Ret (mkFile 2 SV2 db)) as H2.
  { unfold prepare, validate_schema. simpl. by rewrite Hz. }
  split; [|split; [done|]].
  - unfold prepare, migrate_v1, validate_schema. simpl. rewrite Hz. simpl.
    rewrite bool_decide_eq_true_2 by (intros k a Hk; by apply Hck). simpl. by rewrite Hz.
  - split; [done|done|]. intros k a Hk. split; [by apply Hck|]. by apply (Ha k).
Qed.

(** ** Witnesses *)
Definition demo_self : str := u "inst-1".
Definition demo_env (now : Z) : Env := mkEnv (JInt now) None None.
Definition demo_fork : json := JStr (u "fork-1").
Definition demo_alice : json := JStr (u "alice").
Definition demo_day : Z := 1700000000000000000.

Definition demo_reserve : L AdmissionReservation :=
  reserve_admission demo_self (demo_env demo_day) demo_fork demo_alice (u "1.25").
Definition demo_db1 : LedgerDB := (demo_reserve empty_db).1.
Definition demo_reservation : AdmissionReservation :=
  mkReservation (mkRecord (u "fork-1") (u "alice") (u "2023-11-14") (DFinite false 1250000 (-6)) None
    AReserved demo_self) 1 1250000.
Definition demo_admission : Admission :=
  mkAdmission (u "alice") (u "2023-11-14") 1250000 None AReserved demo_self demo_day demo_day None None.

Lemma demo_valid : valid_instance demo_self.
Proof. vm_compute. reflexivity. Qed.

Lemma demo_reserve_result : (demo_reserve empty_db).2 = Ret demo_reservation.
Proof. vm_compute. reflexivity. Qed.
Lemma demo_reserve_eq : demo_reserve empty_db = (demo_db1, Ret demo_reservation).
Proof. rewrite <- demo_reserve_result. apply surjective_pairing. Qed.

Lemma demo_step1 : ledger_step empty_db demo_db1.
Proof. exact (ledger_step_call empty_db _ demo_reserve (lc_reserve _ _ _ _ _ demo_valid)). Qed.
Lemma demo_inv1 : db_inv demo_db1.
Proof. exact (step_inv _ _ empty_inv demo_step1). Qed.
Lemma demo_row1 : admissions demo_db1 !! u "fork-1" = Some demo_admission.
Proof. vm_compute. reflexivity. Qed.

Lemma ledger_transactions_sound_witness : db_inv demo_db1.
Proof.
  pose proof (ledger_transactions_sound empty_db _ demo_reserve (rtc_refl _ _)
    (lc_reserve _ _ _ _ _ demo_valid)) as H.
  rewrite demo_reserve_eq in H. exact (proj1 H).
Defined.

Lemma clock_rollback_refused_witness :
  transaction (demo_env 5) (fun _ _ => se_ret tt) demo_db1 = (demo_db1, Raise ForkLedgerClockRollback).
Proof.
  apply (clock_rollback_refused 5 (fun _ _ => se_ret tt) None demo_db1).
  split; [reflexivity|]. vm_compute. reflexivity.
Defined.

Definition demo_settle : L bool :=
  settle_admission demo_self (demo_env (demo_day + 7)) demo_fork (u "3.5").
Definition demo_db2 : LedgerDB := (demo_settle demo_db1).1.
Lemma demo_settle_result : (demo_settle demo_db1).2 = Ret true.
Proof. vm_compute. reflexivity. Qed.
Lemma demo_settle_eq : demo_settle demo_db1 = (demo_db2, Ret true).
Proof. rewrite <- demo_settle_result. apply surjective_pairing. Qed.
Lemma demo_step2 : ledger_step demo_db1 demo_db2.
Proof. exact (ledger_step_call demo_db1 _ demo_settle (lc_settle _ _ _ _ demo_valid)). Qed.

Lemma admission_lifecycle_witness :
  exists a', admissions demo_db2 !! u "fork-1" = Some a' /\ a_max_reserved a' = 1250000%Z.
Proof.
  destruct (admission_lifecycle demo_db1 demo_db2 (u "fork-1") demo_admission demo_inv1
    (rtc_once _ _ demo_step2) demo_row1) as (a' & Hk & _ & _ & Hm & _).
  exists a'. split; [exact Hk|exact Hm].
Defined.

Lemma reserve_reports_day_totals_witness :
  day_total (u "alice") (u "2023-11-14") demo_db1 = 1250000%Z.
Proof.
  destruct (reserve_reports_day_totals demo_self _ _ _ _ _ _ _ demo_valid demo_reserve_eq) as [H _].
  symmetry. exact H.
Defined.

Lemma settlement_exact_witness :
  exists a actual, admissions demo_db1 !! u "fork-1" = Some a /\
    usd_to_micros true (u "3.5") = Ret actual.
Proof.
  destruct (settlement_exact demo_self _ _ _ _ _ demo_inv1 demo_valid demo_settle_eq)
    as (fork & a & actual & Hf & Hk & _ & Hm & _).
  exists a, actual. injection Hf as <-. split; [exact Hk|exact Hm].
Defined.

Definition demo_write : L bool :=
  write_receipt (demo_env demo_day) demo_fork (JStr (u "sess")) demo_alice (JStr (u "done")).
Definition demo_db3 : LedgerDB := (demo_write empty_db).1.
Definition demo_claim : L (list ReceiptClaim) :=
  claim_pending_receipts demo_self (demo_env (demo_day + 1)) (fun _ => u "tok")
    (JStr (u "sess")) demo_alice (JStr (u "turn-1")) (JInt 10).
Definition demo_db4 : LedgerDB := (demo_claim demo_db3).1.
Definition demo_claims : list ReceiptClaim :=
  [mkClaim (u "fork-1") (u "sess") (u "alice") (u "done") (u "tok") (u "turn-1") demo_self].
Lemma demo_step3 : ledger_step empty_db demo_db3.
Proof. exact (ledger_step_call empty_db _ demo_write (lc_write _ _ _ _ _)). Qed.
Lemma demo_inv3 : db_inv demo_db3.
Proof. exact (step_inv _ _ empty_inv demo_step3). Qed.
Lemma demo_claim_result : (demo_claim demo_db3).2 = Ret demo_claims.
Proof. vm_compute. reflexivity. Qed.
Lemma demo_claim_eq : demo_claim demo_db3 = (demo_db4, Ret demo_claims).
Proof. rewrite <- demo_claim_result. apply surjective_pairing. Qed.
Lemma demo_inv4 : db_inv demo_db4.
Proof.
  exact (step_inv _ _ demo_inv3 (ledger_step_call demo_db3 _ demo_claim (lc_claim _ _ _ _ _ _ _ demo_valid))).
Qed.

Lemma claims_exclusive_witness : NoDup (c_fork_id <$> demo_claims).
Proof.
  destruct (claims_exclusive demo_self _ _ _ _ _ _ _ _ _ demo_inv3 demo_claim_eq)
    as (? & ? & ? & ? & _ & _ & _ & _ & _ & H & _). exact H.
Defined.

Definition demo_ack : L bool := ack_receipt (demo_env (demo_day + 2)) demo_fork (JStr (u "tok")).
Definition demo_db5 : LedgerDB := (demo_ack demo_db4).1.
Lemma demo_ack_result : (demo_ack demo_db4).2 = Ret true.
Proof. vm_compute. reflexivity. Qed.
Lemma demo_ack_eq : demo_ack demo_db4 = (demo_db5, Ret true).
Proof. rewrite <- demo_ack_result. apply surjective_pairing. Qed.

Lemma acked_receipt_delivered_once_witness :
  exists r, receipts demo_db5 !! u "fork-1" = Some r.
Proof.
  destruct (acked_receipt_delivered_once _ _ _ _ _ demo_db5 demo_inv4 demo_ack_eq (rtc_refl _ _))
    as (fork & r & Hf & Hr & _). exists r. injection Hf as <-. exact Hr.
Defined.

(** Instance 2 recovers after instance 1 died with a reserved fork. *)
Definition demo_self2 : str := u "inst-2".
Definition demo_recover : L (nat * nat) :=
  reconcile_startup demo_self2 (demo_env (demo_day + 9)) (fun _ => Some None)
    JNull (JStr demo_self).
Definition demo_db6 : LedgerDB := (demo_recover demo_db1).1.
Lemma demo_valid2 : valid_instance demo_self2.
Proof. vm_compute. reflexivity. Qed.
Lemma demo_recover_result : (demo_recover demo_db1).2 = Ret (0, 1).
Proof. vm_compute. reflexivity. Qed.
Lemma demo_recover_eq : demo_recover demo_db1 = (demo_db6, Ret (0, 1)).
Proof. rewrite <- demo_recover_result. apply surjective_pairing. Qed.

Lemma recovery_exact_witness :
  exists now, admissions demo_db6 !! u "fork-1" = Some (abandon_row now demo_admission).
Proof.
  destruct (recovery_exact demo_self2 _ _ _ _ _ _ _ demo_inv1 demo_valid2 demo_recover_eq)
    as (now & ds & Hds & _ & Ha & _). exists now.
  destruct (Ha _ _ demo_row1) as (_ & _ & Hab).
  assert (ds = DeadInstance demo_self) as -> by (vm_compute in Hds; injection Hds as <-; reflexivity).
  apply Hab; [reflexivity|reflexivity|left; discriminate].
Defined.

Lemma utc_day_windows_witness : utc_day 1 = utc_day 86399999999999.
Proof. apply utc_day_windows; vm_compute; [split; [reflexivity|discriminate]..|reflexivity]. Defined.

Lemma usd_round_trip_witness : usd_to_micros true (usd_str 1250000) = Ret 1250000%Z.
Proof. apply (usd_round_trip 1250000). vm_compute. discriminate. Defined.

Lemma v1_migration_lossless_witness :
  prepare (mkFile 1 SV1 demo_db1) = Ret (mkFile 2 SV2 demo_db1).
Proof.
  refine (proj1 (v1_migration_lossless demo_db1 (di_clock _ demo_inv1) (di_receipts _ demo_inv1) _)).
  intros k a Hk. destruct (di_admissions _ demo_inv1 k a Hk) as [Hc Hu]. split; [|exact Hu].
  unfold admission_check_v1. rewrite Hc.
  assert (a = demo_admission) as ->; [|reflexivity].
  assert (admissions demo_db1 = {[u "fork-1" := demo_admission]}) as Hm by (vm_compute; reflexivity).
  rewrite Hm in Hk. apply lookup_singleton_Some in Hk as [_ <-]. reflexivity.
Defined.

End ForkLedger.
