(* ===== verification/TodoChecklist.v ===== *)
(** * TodoChecklist: the root agent's working checklist

    Models [src/agent_gateway/todo_checklist.py]: the checklist value, the
    model's operations, the analyst's edit, the journal snapshot and its fold,
    the rendered texts and the live [TodoSessionState]. Tool arguments and
    journal events are JSON values and are validated as the code validates
    them. The random tokens of [_new_id] are supplied as a list of draws;
    [NoDraw] is the loop still running when they are used up. [str()] of a
    float or container, [str.lower] and the runner's own-text test of
    [server_compaction] are operations of the class [TodoEnv]. *)
From S2P Require Import Prelude.

Module TodoChecklist.

Class TodoEnv := {
  py_repr : json -> str;
  py_lower : str -> str;
  is_runner_injected_user_text : str -> bool
}.

(** ** Data *)
Inductive TodoStatus := Pending | InProgress | Completed | Abandoned | Blocked.
#[global] Instance TodoStatus_eq : EqDecision TodoStatus.
Proof. solve_decision. Defined.

Definition status_text (s : TodoStatus) : str :=
  match s with
  | Pending => u "pending"
  | InProgress => u "in_progress"
  | Completed => u "completed"
  | Abandoned => u "abandoned"
  | Blocked => u "blocked"
  end.
Definition TODO_STATUSES : list TodoStatus := [Pending; InProgress; Completed; Abandoned; Blocked].

(** [status in OPEN_STATUSES] *)
Definition is_open (s : TodoStatus) : bool :=
  match s with Pending | InProgress => true | _ => false end.

Definition TODO_CONTENT_MAX_CHARS : nat := 500.
Definition TODO_BLOCKER_MAX_CHARS : nat := 500.
Definition TODO_PHASE_MAX_CHARS : nat := 120.
Definition TODO_REMINDER_BOUND : nat := 3.

Inductive todo_error :=
| invalid_text
| invalid_status
| invalid_op
| stale_revision
| duplicate_phase
| duplicate_content
| duplicate_id
| unknown_item
| unknown_phase
| PyTypeError
| PyKeyError
| PyValueError
| PyAttributeError
| NoDraw.

(** [blocker] and [analyst_change] are [None] ([JNull]) or text; a decoded
    journal event may carry anything there. *)
Record TodoItem := mkItem {
  id : str;
  content : str;
  status : TodoStatus;
  blocker : json
}.

Record TodoPhase := mkPhase {
  name : str;
  items : list TodoItem
}.

Record TodoChecklist := mkChecklist {
  revision : Z;
  phases : list TodoPhase;
  analyst_revision : Z;
  analyst_change : json
}.

Definition EMPTY_CHECKLIST : TodoChecklist := mkChecklist 0 [] 0 JNull.

(** [replace(item, status=..., blocker=...)] and [replace(phase, items=...)] *)
Definition with_status (s : TodoStatus) (i : TodoItem) : TodoItem :=
  mkItem (id i) (content i) s (blocker i).
Definition with_state (s : TodoStatus) (b : json) (i : TodoItem) : TodoItem :=
  mkItem (id i) (content i) s b.
Definition set_items (l : list TodoItem) (p : TodoPhase) : TodoPhase := mkPhase (name p) l.
Definition map_items (f : TodoItem -> TodoItem) (p : TodoPhase) : TodoPhase := set_items (f <$> items p) p.

Definition phase_items (ps : list TodoPhase) : list TodoItem := ps ≫= items.
Definition all_items (c : TodoChecklist) : list TodoItem := phase_items (phases c).
(** [open_items] *)
Definition open_items (c : TodoChecklist) : list TodoItem :=
  filter (fun i => is_open (status i) = true) (all_items c).
(** [counts] *)
Definition counts (c : TodoChecklist) : list (TodoStatus * nat) :=
  (fun s => (s, length (filter (fun i => status i = s) (all_items c)))) <$> TODO_STATUSES.
Definition is_empty (c : TodoChecklist) : bool := negb (existsb (fun p => negb (bool_decide (items p = []))) (phases c)).

(** ** Python values *)
Definition dict_set {V} (k : str) (v : V) (d : list (str * V)) : list (str * V) :=
  if existsb (fun kv => bool_decide (kv.1 = k)) d
  then (fun kv => if bool_decide (kv.1 = k) then (k, v) else kv) <$> d
  else d ++ [(k, v)].

Fixpoint dict_lookup {V} (k : str) (d : list (str * V)) : option V :=
  match d with
  | [] => None
  | (k', v) :: d' => if bool_decide (k' = k) then Some v else dict_lookup k d'
  end.

(** [iter(v)] *)
Definition py_iter (v : json) : outcome todo_error (list json) :=
  match v with
  | JList l => Ret l
  | JStr s => Ret ((fun c => JStr [c]) <$> s)
  | JDict d => Ret (JStr <$> d.*1)
  | _ => Raise PyTypeError
  end.

(** [iter(v or ())] *)
Definition py_iter_or_empty (v : json) : outcome todo_error (list json) :=
  if truthy v then py_iter v else Ret [].

(** The digits of an [int] literal: ASCII digits, single underscores between. *)
Fixpoint int_digits (acc : Z) (s : str) : option Z :=
  match s with
  | [] => Some acc
  | c :: s' =>
    if ((48 <=? c) && (c <=? 57))%N then int_digits (acc * 10 + Z.of_N (c - 48)) s'
    else match s' with
         | d :: s'' => if (c =? 95)%N && ((48 <=? d) && (d <=? 57))%N
                       then int_digits (acc * 10 + Z.of_N (d - 48)) s'' else None
         | [] => None
         end
  end.

Definition int_of_text (t : str) : option Z :=
  let s := py_strip t in
  let '(sign, ds) := match s with
                     | c :: s' => if (c =? 45)%N then ((-1)%Z, s') else if (c =? 43)%N then (1%Z, s') else (1%Z, s)
                     | [] => (1%Z, [])
                     end in
  match ds with
  | c :: _ => if ((48 <=? c) && (c <=? 57))%N then Z.mul sign <$> int_digits 0 ds else None
  | [] => None
  end.

(** [int(v)] *)
Definition py_int (v : json) : outcome todo_error Z :=
  match v with
  | JInt z => Ret z
  | JBool b => Ret (if b then 1 else 0)%Z
  | JFloat n d => Ret (Z.quot n (Z.pos d))
  | JStr s => match int_of_text s with Some z => Ret z | None => Raise PyValueError end
  | _ => Raise PyTypeError
  end.

(** [int(v or 0)] *)
Definition py_int_or_zero (v : json) : outcome todo_error Z := if truthy v then py_int v else Ret 0%Z.

(** [_status] *)
Definition parse_status (v : json) : outcome todo_error TodoStatus :=
  match v with
  | JStr s =>
    match filter (fun st => status_text st = s) TODO_STATUSES with
    | st :: _ => Ret st
    | [] => Raise invalid_status
    end
  | _ => Raise invalid_status
  end.

(** [_text] *)
Definition parse_text (limit : nat) (v : json) : outcome todo_error str :=
  match v with
  | JStr s =>
    let t := py_strip s in
    if bool_decide (t = []) then Raise invalid_text
    else if limit <? length t then Raise invalid_text
    else Ret t
  | _ => Raise invalid_text
  end.

(** ** Normal form *)

(** The first loop of [_normalize_active]: later active items become pending. *)
Fixpoint demote_items (seen : bool) (l : list TodoItem) : bool * list TodoItem :=
  match l with
  | [] => (seen, [])
  | i :: l' =>
    let active := bool_decide (status i = InProgress) in
    let i' := if active && seen then with_status Pending i else i in
    let '(seen', l'') := demote_items (seen || active) l' in
    (seen', i' :: l'')
  end.

Fixpoint demote_phases (seen : bool) (ps : list TodoPhase) : bool * list TodoPhase :=
  match ps with
  | [] => (seen, [])
  | p :: ps' =>
    let '(seen1, l) := demote_items seen (items p) in
    let '(seen2, ps'') := demote_phases seen1 ps' in
    (seen2, set_items l p :: ps'')
  end.

(** The second loop: the first pending item becomes active. *)
Fixpoint promote_items (l : list TodoItem) : option (list TodoItem) :=
  match l with
  | [] => None
  | i :: l' =>
    if bool_decide (status i = Pending) then Some (with_status InProgress i :: l')
    else cons i <$> promote_items l'
  end.

Fixpoint promote_phases (ps : list TodoPhase) : list TodoPhase :=
  match ps with
  | [] => []
  | p :: ps' =>
    match promote_items (items p) with
    | Some l => set_items l p :: ps'
    | None => p :: promote_phases ps'
    end
  end.

(** [_normalize_active] *)
Definition normalize_active (ps : list TodoPhase) : list TodoPhase :=
  let '(seen, out) := demote_phases false ps in
  if seen then out else promote_phases out.

(** [_check_unique] *)
Fixpoint check_items (contents ids : gset str) (l : list TodoItem) : outcome todo_error (gset str * gset str) :=
  match l with
  | [] => Ret (contents, ids)
  | i :: l' =>
    if bool_decide (content i ∈ contents) then Raise duplicate_content
    else if bool_decide (id i ∈ ids) then Raise duplicate_id
    else check_items ({[content i]} ∪ contents) ({[id i]} ∪ ids) l'
  end.

Fixpoint check_phases (names contents ids : gset str) (ps : list TodoPhase) : outcome todo_error unit :=
  match ps with
  | [] => Ret tt
  | p :: ps' =>
    if bool_decide (name p ∈ names) then Raise duplicate_phase
    else
      let? seen := check_items contents ids (items p) in
      check_phases ({[name p]} ∪ names) seen.1 seen.2 ps'
  end.

Definition check_unique (ps : list TodoPhase) : outcome todo_error unit := check_phases ∅ ∅ ∅ ps.

(** [_settle] *)
Definition settle (c : TodoChecklist) (ps : list TodoPhase) : outcome todo_error TodoChecklist :=
  let n := normalize_active ps in
  let? _ := check_unique n in
  Ret (mkChecklist (revision c + 1) n (analyst_revision c) (analyst_change c)).

(** ** Addressing *)
Fixpoint index_of {A} (p : A -> bool) (l : list A) : option nat :=
  match l with
  | [] => None
  | x :: l' => if p x then Some 0 else S <$> index_of p l'
  end.

Fixpoint find_item_in (c : str) (ps : list TodoPhase) : option (nat * nat) :=
  match ps with
  | [] => None
  | p :: ps' =>
    match index_of (fun i => bool_decide (content i = c)) (items p) with
    | Some j => Some (0, j)
    | None => (fun ij => (S ij.1, ij.2)) <$> find_item_in c ps'
    end
  end.

(** [_find_item] *)
Definition find_item (c : TodoChecklist) (text : str) : outcome todo_error (nat * nat) :=
  match find_item_in text (phases c) with Some ij => Ret ij | None => Raise unknown_item end.

(** [_find_phase] *)
Definition find_phase (c : TodoChecklist) (nm : str) : outcome todo_error nat :=
  match index_of (fun p => bool_decide (name p = nm)) (phases c) with
  | Some i => Ret i
  | None =>
    match filter (fun ip => py_endswith (u ": " ++ nm) (name ip.2) = true) (imap pair (phases c)) with
    | [(i, _)] => Ret i
    | _ => Raise unknown_phase
    end
  end.

(** [_with_item] *)
Definition with_item (ps : list TodoPhase) (ij : nat * nat) (f : TodoItem -> TodoItem) : list TodoPhase :=
  alter (fun p => set_items (alter f ij.2 (items p)) p) ij.1 ps.

(** ** New ids *)
Record IdState := mkIds { existing : gset str; draws : list str }.
Abbreviation T := (SE IdState todo_error).

Fixpoint first_fresh (ex : gset str) (ds : list str) : option (str * list str) :=
  match ds with
  | [] => None
  | d :: ds' => let cand := u "it_" ++ d in
                if bool_decide (cand ∈ ex) then first_fresh ex ds' else Some (cand, ds')
  end.

(** [_new_id] *)
Definition new_id : T str := fun s =>
  match first_fresh (existing s) (draws s) with
  | Some (cand, ds) => (mkIds ({[cand]} ∪ existing s) ds, Ret cand)
  | None => (s, Raise NoDraw)
  end.

Fixpoint se_map {A B} (f : A -> T B) (l : list A) : T (list B) :=
  match l with
  | [] => se_ret []
  | x :: l' => let! y := f x in let! ys := se_map f l' in se_ret (y :: ys)
  end.

Definition id_set (l : list TodoItem) : gset str := list_to_set (id <$> l).

Section operations.
Context {env : TodoEnv}.

(** [str(v)] *)
Definition py_str (v : json) : str :=
  match v with
  | JStr s => s
  | JInt z => Z_to_str z
  | JBool b => if b then u "True" else u "False"
  | JNull => u "None"
  | _ => py_repr v
  end.

(** ** Parsing phases *)
Definition parse_item (keep_ids : bool) (raw : json) : T TodoItem :=
  match raw with
  | JStr _ =>
    let! i := new_id in
    let! c := se_lift (parse_text TODO_CONTENT_MAX_CHARS raw) in
    se_ret (mkItem i c Pending JNull)
  | JDict d =>
    let! c := se_lift (parse_text TODO_CONTENT_MAX_CHARS (py_get (u "content") d)) in
    let! st := se_lift (parse_status (default (JStr (u "pending")) (dict_get (u "status") d))) in
    let! b := (match py_get (u "blocker") d with
               | JNull => se_ret JNull
               | v => let! t := se_lift (parse_text TODO_BLOCKER_MAX_CHARS v) in se_ret (JStr t)
               end) in
    if bool_decide (st = Blocked) && (match b with JNull => true | _ => false end) then se_raise invalid_op
    else
      let b := if bool_decide (st = Blocked) then b else JNull in
      let raw_id := if keep_ids then py_get (u "id") d else JNull in
      let! i := (if truthy raw_id then se_ret (py_str raw_id) else new_id) in
      se_ret (mkItem i c st b)
  | _ => se_raise invalid_op
  end.

Definition parse_phase (keep_ids : bool) (raw : json) : T TodoPhase :=
  match raw with
  | JDict d =>
    let! n := se_lift (parse_text TODO_PHASE_MAX_CHARS (py_get (u "name") d)) in
    let! raws := se_lift (py_iter_or_empty (py_get (u "items") d)) in
    let! l := se_map (parse_item keep_ids) raws in
    se_ret (mkPhase n l)
  | _ => se_raise invalid_op
  end.

(** [_parse_phases] *)
Definition parse_phases (keep_ids : bool) (raw : json) : T (list TodoPhase) :=
  match raw with
  | JList l => se_map (parse_phase keep_ids) l
  | _ => se_raise invalid_op
  end.

(** ** Model operations *)

(** [_mark] *)
Definition mark_item (st : TodoStatus) (i : TodoItem) : TodoItem :=
  match status i with
  | Completed | Abandoned => i
  | _ => with_state st JNull i
  end.

Definition mark (c : TodoChecklist) (op : list (str * json)) (st : TodoStatus) : outcome todo_error TodoChecklist :=
  match py_get (u "item") op with
  | JNull =>
    match py_get (u "phase") op with
    | JNull =>
      match py_get (u "all") op with
      | JBool true => settle c (map_items (mark_item st) <$> phases c)
      | _ => Raise invalid_op
      end
    | v =>
      let? nm := parse_text TODO_PHASE_MAX_CHARS v in
      let? i := find_phase c nm in
      settle c (alter (map_items (mark_item st)) i (phases c))
    end
  | v =>
    let? t := parse_text TODO_CONTENT_MAX_CHARS v in
    let? ij := find_item c t in
    settle c (with_item (phases c) ij (mark_item st))
  end.

Definition demote_active (i : TodoItem) : TodoItem :=
  if bool_decide (status i = InProgress) then with_status Pending i else i.

(** The skills in scope: [current_skill()] and [current_parent_skill()]. *)
Record SkillContext := mkSkills { current_skill : option str; current_parent_skill : option str }.

(** [str(op.get(key) or fallback or "").strip() or None] *)
Definition skill_name (v : json) (fallback : option str) : option str :=
  let t := py_strip (if truthy v then py_str v else default [] fallback) in
  if bool_decide (t = []) then None else Some t.

(** The phases a nested [init] adds: contents already present are dropped and
    a colliding phase name is qualified by the skill. *)
Fixpoint scope_incoming (skill : str) (contents names : gset str) (incoming : list TodoPhase) : list TodoPhase :=
  match incoming with
  | [] => []
  | p :: ps =>
    let fresh_items := filter (fun i => content i ∉ contents) (items p) in
    if bool_decide (fresh_items = []) then scope_incoming skill contents names ps
    else
      let nm := if bool_decide (name p ∈ names)
                then take TODO_PHASE_MAX_CHARS (skill ++ u ": " ++ name p) else name p in
      mkPhase nm fresh_items
      :: scope_incoming skill (list_to_set (content <$> fresh_items) ∪ contents) ({[nm]} ∪ names) ps
  end.

Definition has_open (p : TodoPhase) : bool := existsb (fun i => is_open (status i)) (items p).

(** The active and the outer skill of an [init]. *)
Definition init_skills (op : list (str * json)) (sk : SkillContext) : outcome todo_error (option str * option str) :=
  let active := skill_name (py_get (u "_active_skill") op) (current_skill sk) in
  let parent := skill_name (py_get (u "_parent_skill") op) (current_parent_skill sk) in
  let? raw_invoked := py_iter_or_empty (py_get (u "_invoked_skills") op) in
  let invoked := filter (fun s => s <> []) ((fun s => py_strip (py_str s)) <$> raw_invoked) in
  Ret (active, match parent with Some p => Some p | None => head invoked end).

(** [_apply_init_op] *)
Definition apply_init_op (c : TodoChecklist) (op : list (str * json)) (sk : SkillContext)
    (tokens : list str) : outcome todo_error TodoChecklist :=
  let existing_ids := id_set (all_items c) in
  let root := skill_name (py_get (u "_root_deliverable") op) None in
  let? skills := init_skills op sk in
  let '(ids1, parsed) := parse_phases false (py_get (u "phases") op) (mkIds existing_ids tokens) in
  let? incoming := parsed in
  let cleared := mkChecklist (revision c) [] (analyst_revision c) (analyst_change c) in
  match skills with
  | (Some skill, Some outer_skill) =>
    if bool_decide (skill = outer_skill) then settle cleared incoming
    else if negb (bool_decide (open_items c = [])) then
      let demoted := map_items demote_active <$> phases c in
      let scoped := scope_incoming skill (list_to_set (content <$> all_items c))
                      (list_to_set (name <$> demoted)) incoming in
      let at_ := default (length demoted) (index_of has_open demoted) in
      settle c (take at_ demoted ++ scoped ++ drop at_ demoted)
    else
      let incoming_text := py_lower (py_join (u " ") (content <$> phase_items incoming)) in
      if py_contains (py_lower outer_skill) incoming_text then settle cleared incoming
      else
        let resume := take TODO_CONTENT_MAX_CHARS
          (match root with
           | Some r => u "Complete root deliverable: " ++ r
           | None => u "Complete " ++ outer_skill ++ u " root deliverable"
           end) in
        let? rid := (new_id (mkIds (existing_ids ∪ id_set (phase_items incoming)) (draws ids1))).2 in
        settle cleared
          (incoming ++ [mkPhase (take TODO_PHASE_MAX_CHARS (u "Root — " ++ outer_skill ++ u " continuation"))
                          [mkItem rid resume Pending JNull]])
  | _ => settle cleared incoming
  end.

Inductive op_name := op_init | op_append | op_start | op_done | op_drop | op_block | op_unblock | op_rm | op_view.
#[global] Instance op_name_eq : EqDecision op_name.
Proof. solve_decision. Defined.
Definition MODEL_OPS : list (str * op_name) :=
  [(u "init", op_init); (u "append", op_append); (u "start", op_start); (u "done", op_done);
   (u "drop", op_drop); (u "block", op_block); (u "unblock", op_unblock); (u "rm", op_rm); (u "view", op_view)].

(** A non-empty sequence that is not text. *)
Definition item_list (v : json) : outcome todo_error (list json) :=
  match v with JList (x :: l) => Ret (x :: l) | _ => Raise invalid_op end.

Definition append_item (raw : json) : T TodoItem :=
  let! i := new_id in
  let! c := se_lift (parse_text TODO_CONTENT_MAX_CHARS raw) in
  se_ret (mkItem i c Pending JNull).

(** The [append] branch. *)
Definition apply_append (c : TodoChecklist) (op : list (str * json)) (tokens : list str) : outcome todo_error TodoChecklist :=
  let? nm := parse_text TODO_PHASE_MAX_CHARS (py_get (u "phase") op) in
  let? raws := item_list (py_get (u "items") op) in
  let? new_items := (se_map append_item raws (mkIds (id_set (all_items c)) tokens)).2 in
  settle c
    (match index_of (fun p => bool_decide (name p = nm)) (phases c) with
     | Some i => alter (fun p => set_items (items p ++ new_items) p) i (phases c)
     | None => phases c ++ [mkPhase nm new_items]
     end).

Definition unblock_item (i : TodoItem) : TodoItem :=
  if bool_decide (status i = Blocked) then with_state Pending JNull i else i.

(** The [start], [block] and [unblock] branches. *)
Definition apply_start (c : TodoChecklist) (ij : nat * nat) : outcome todo_error TodoChecklist :=
  settle c (with_item (map_items demote_active <$> phases c) ij (with_state InProgress JNull)).
Definition apply_block (c : TodoChecklist) (op : list (str * json)) (ij : nat * nat) : outcome todo_error TodoChecklist :=
  let? reason := parse_text TODO_BLOCKER_MAX_CHARS (py_get (u "reason") op) in
  settle c (with_item (phases c) ij (with_state Blocked (JStr reason))).
Definition apply_unblock (c : TodoChecklist) (ij : nat * nat) : outcome todo_error TodoChecklist :=
  settle c (with_item (phases c) ij unblock_item).

(** The [rm] branch. *)
Definition apply_rm (c : TodoChecklist) (op : list (str * json)) : outcome todo_error TodoChecklist :=
  let? raws := item_list (py_get (u "items") op) in
  let? targets := omap_list (parse_text TODO_CONTENT_MAX_CHARS) raws in
  let? _ := omap_list (find_item c) targets in
  settle c ((fun p => set_items (filter (fun i => content i ∉ targets) (items p)) p) <$> phases c).

(** [apply_model_op]; the flag says whether a new checklist object was built. *)
Definition apply_model_op (c : TodoChecklist) (op : list (str * json)) (base_revision : option Z)
    (sk : SkillContext) (tokens : list str) : outcome todo_error (TodoChecklist * bool) :=
  let? opn := (match py_get (u "op") op with
               | JStr s => match dict_lookup s MODEL_OPS with Some o => Ret o | None => Raise invalid_op end
               | _ => Raise invalid_op
               end) in
  let fresh r := let? c' := r in Ret (c', true) in
  let at_item k := let? t := parse_text TODO_CONTENT_MAX_CHARS (py_get (u "item") op) in
                   let? ij := find_item c t in k ij in
  match opn with
  | op_view => Ret (c, false)
  | _ =>
    if match base_revision with
       | Some b => negb (analyst_revision c =? 0)%Z && (b <? analyst_revision c)%Z
       | None => false
       end
    then Raise stale_revision
    else match opn with
    | op_init => fresh (apply_init_op c op sk tokens)
    | op_append => fresh (apply_append c op tokens)
    | op_start => fresh (at_item (apply_start c))
    | op_block => fresh (at_item (apply_block c op))
    | op_unblock => fresh (at_item (apply_unblock c))
    | op_done => fresh (mark c op Completed)
    | op_drop => fresh (mark c op Abandoned)
    | _ => fresh (apply_rm c op)
    end
  end.

(** ** Analyst edits *)

(** [{item.id: item for ...}] *)
Definition items_by_id (c : TodoChecklist) : list (str * TodoItem) :=
  foldl (fun d i => dict_set (id i) i d) [] (all_items c).

Definition quoted (s : str) : str := u "'" ++ s ++ u "'".

Definition change_of (before : list (str * TodoItem)) (i : TodoItem) : list str :=
  match dict_lookup (id i) before with
  | None => [u "added " ++ quoted (content i)]
  | Some prior =>
    if negb (bool_decide (content prior = content i)) then
      [u "reworded " ++ quoted (content prior) ++ u " to " ++ quoted (content i)]
    else if negb (bool_decide (status prior = status i)) && negb (is_open (status prior) && is_open (status i)) then
      [u "marked " ++ quoted (content i) ++ u " " ++ status_text (status i)]
    else
      match blocker i with
      | JNull => []
      | b => if match blocker prior, b with JStr x, JStr y => bool_decide (x = y) | _, _ => false end then []
             else [u "blocked " ++ quoted (content i) ++ u ": " ++ py_str b]
      end
  end.

(** [describe_change] *)
Definition describe_change (before after : TodoChecklist) : str :=
  let b := items_by_id before in
  let a := items_by_id after in
  let parts := (a.*2 ≫= change_of b)
    ++ (b ≫= fun ki => match dict_lookup ki.1 a with
                       | None => [u "removed " ++ quoted (content ki.2)]
                       | Some _ => []
                       end) in
  py_join (u "; ") (match parts with [] => [u "reordered items"] | _ => parts end).

(** [apply_analyst_edit] *)
Definition apply_analyst_edit (c : TodoChecklist) (expected_revision : Z) (raw : json)
    (tokens : list str) : outcome todo_error TodoChecklist :=
  if negb (expected_revision =? revision c)%Z then Raise stale_revision
  else
    let known := id_set (all_items c) in
    let? parsed := (parse_phases true raw (mkIds known tokens)).2 in
    if existsb (fun i => py_startswith (u "it_") (id i) && negb (bool_decide (id i ∈ known))
                         && negb (length (id i) =? 11)) (phase_items parsed)
    then Raise unknown_item
    else
      let? settled := settle c parsed in
      Ret (mkChecklist (revision settled) (phases settled) (revision settled)
             (JStr (describe_change c settled))).

(** ** Journal *)

(** [TodoItem.to_payload], [TodoPhase.to_payload] *)
Definition item_payload (i : TodoItem) : json :=
  JDict ([(u "id", JStr (id i)); (u "content", JStr (content i)); (u "status", JStr (status_text (status i)))]
         ++ match blocker i with JNull => [] | b => [(u "blocker", b)] end).
Definition phase_payload (p : TodoPhase) : json :=
  JDict [(u "name", JStr (name p)); (u "items", JList (item_payload <$> items p))].

Inductive TodoActor := Agent | Analyst.
Definition actor_text (a : TodoActor) : str := match a with Agent => u "agent" | Analyst => u "analyst" end.

(** [build_todo_snapshot_payload] *)
Definition build_todo_snapshot_payload (c : TodoChecklist) (actor : TodoActor) (op gateway_session_id : str)
    : list (str * json) :=
  [(u "type", JStr (u "todo_snapshot")); (u "gateway_session_id", JStr gateway_session_id);
   (u "actor", JStr (actor_text actor)); (u "op", JStr op); (u "revision", JInt (revision c));
   (u "phases", JList (phase_payload <$> phases c));
   (u "analyst_revision", JInt (analyst_revision c)); (u "analyst_change", analyst_change c)].

(** [TodoChecklist.to_payload] *)
Definition to_payload (c : TodoChecklist) : list (str * json) :=
  [(u "revision", JInt (revision c)); (u "phases", JList (phase_payload <$> phases c));
   (u "counts", JDict ((fun sn => (status_text sn.1, JInt (Z.of_nat sn.2))) <$> counts c))]
  ++ (if (analyst_revision c =? 0)%Z then [] else [(u "analyst_revision", JInt (analyst_revision c))])
  ++ match analyst_change c with JNull => [] | v => [(u "analyst_change", v)] end.

Definition dict_item (k : str) (d : list (str * json)) : outcome todo_error json :=
  match dict_get k d with Some v => Ret v | None => Raise PyKeyError end.

Definition item_from_payload (raw : json) : outcome todo_error TodoItem :=
  match raw with
  | JDict d =>
    let? i := dict_item (u "id") d in
    let? c := dict_item (u "content") d in
    let? st := parse_status (default (JStr (u "pending")) (dict_get (u "status") d)) in
    Ret (mkItem (py_str i) (py_str c) st (py_get (u "blocker") d))
  | _ => Raise PyTypeError
  end.

Definition phase_from_payload (raw : json) : outcome todo_error TodoPhase :=
  match raw with
  | JDict d =>
    let? raws := py_iter_or_empty (py_get (u "items") d) in
    let? l := omap_list item_from_payload raws in
    let? n := dict_item (u "name") d in
    Ret (mkPhase (py_str n) l)
  | _ => Raise PyAttributeError
  end.

(** [TodoChecklist.from_payload] *)
Definition from_payload (d : list (str * json)) : outcome todo_error TodoChecklist :=
  let? raws := py_iter_or_empty (py_get (u "phases") d) in
  let? ps := omap_list phase_from_payload raws in
  let? r := py_int_or_zero (py_get (u "revision") d) in
  let? ar := py_int_or_zero (py_get (u "analyst_revision") d) in
  Ret (mkChecklist r ps ar (py_get (u "analyst_change") d)).

Definition json_is (v : json) (s : str) : bool :=
  match v with JStr t => bool_decide (t = s) | _ => false end.

(** The scan of [fold_todo_snapshots]. *)
Fixpoint latest_snapshot (sid : option str) (latest : option (list (str * json)))
    (events : list (list (str * json))) : outcome todo_error (option (list (str * json))) :=
  match events with
  | [] => Ret latest
  | ev :: rest =>
    if negb (json_is (py_get (u "type") ev) (u "todo_snapshot"))
       || match sid with Some s => negb (json_is (py_get (u "gateway_session_id") ev) s) | None => false end
    then latest_snapshot sid latest rest
    else match latest with
    | None => latest_snapshot sid (Some ev) rest
    | Some l =>
      let? r := py_int_or_zero (py_get (u "revision") ev) in
      let? rl := py_int_or_zero (py_get (u "revision") l) in
      latest_snapshot sid (Some (if (rl <=? r)%Z then ev else l)) rest
    end
  end.

(** [fold_todo_snapshots] *)
Definition fold_todo_snapshots (events : list (list (str * json))) (sid : option str)
    : outcome todo_error TodoChecklist :=
  let? latest := latest_snapshot sid None events in
  match latest with None => Ret EMPTY_CHECKLIST | Some ev => from_payload ev end.

(** ** Rendered texts *)
Definition marker (s : TodoStatus) : str :=
  match s with
  | Pending => u "[ ]" | InProgress => u "[>]" | Completed => u "[x]" | Abandoned => u "[-]" | Blocked => u "[!]"
  end.

Definition render_item (i : TodoItem) : str :=
  u "  - " ++ marker (status i) ++ u " " ++ content i
  ++ (if bool_decide (status i = Blocked) && truthy (blocker i)
      then u " (blocked: " ++ py_str (blocker i) ++ u ")" else []).

(** [render_checklist] *)
Definition render_checklist (open_only : bool) (c : TodoChecklist) : str :=
  py_join [10%N] (phases c ≫= fun p =>
    match filter (fun i => negb open_only || is_open (status i) = true) (items p) with
    | [] => []
    | l => (u "- " ++ name p) :: (render_item <$> l)
    end).

(** [render_checklist_projection] *)
Definition render_checklist_projection (c : TodoChecklist) : str :=
  u "Current checklist (revision " ++ Z_to_str (revision c)
  ++ u "); address items by their exact text:" ++ [10%N] ++ render_checklist false c.

(** [render_open_items_reminder] *)
Definition render_open_items_reminder (c : TodoChecklist) (sent bound : nat) : str :=
  let n := length (open_items c) in
  u "You stopped with " ++ Z_to_str (Z.of_nat n) ++ u " checklist "
  ++ (if n =? 1 then u "item" else u "items") ++ u " still open:" ++ [10%N]
  ++ render_checklist true c ++ [10%N; 10%N]
  ++ u "Continue them, or update the checklist: mark items done if they are finished, abandoned if they no longer apply, or blocked with the reason if you are waiting on the analyst or on data you cannot get. (Reminder "
  ++ Z_to_str (Z.of_nat sent) ++ u " of " ++ Z_to_str (Z.of_nat bound) ++ u ".)".

(** [render_analyst_edit_note] *)
Definition render_analyst_edit_note (c : TodoChecklist) : str :=
  u "The analyst edited the checklist: "
  ++ (if truthy (analyst_change c) then py_str (analyst_change c) else u "changed the checklist")
  ++ u ". Do not re-add removed items unless asked. Current revision " ++ Z_to_str (revision c) ++ u ".".

(** ** The session's live state *)

(** [text.split(sep, 1)[0]] *)
Fixpoint before_sep (sep s : str) : str :=
  if py_startswith sep s then []
  else match s with
       | [] => []
       | c :: s' => c :: before_sep sep s'
       end.

(** [str.splitlines], up to empty lines. *)
Definition line_break (c : N) : bool :=
  ((10 <=? c) && (c <=? 13))%N || ((28 <=? c) && (c <=? 30))%N
  || (c =? 133)%N || (c =? 8232)%N || (c =? 8233)%N.
Fixpoint split_lines (cur : str) (s : str) : list str :=
  match s with
  | [] => [reverse cur]
  | c :: s' => if line_break c then reverse cur :: split_lines [] s' else split_lines (c :: cur) s'
  end.

(** [_prompt_first_line] *)
Definition prompt_first_line (v : json) : option str :=
  let block_text b :=
    match b with
    | JDict d => if json_is (py_get (u "type") d) (u "text")
                 then [let t := py_get (u "text") d in if truthy t then py_str t else []] else []
    | _ => []
    end in
  let text := match v with
              | JStr s => Some s
              | JList l => Some (py_join [10%N] (l ≫= block_text))
              | _ => None
              end in
  match text with
  | None => None
  | Some t =>
    let t := py_strip t in
    if is_runner_injected_user_text t then None
    else
      let head_ := py_strip (before_sep ([10%N; 10%N] ++ u "## Current Session Context") t) in
      head (filter (fun l => l <> []) (py_strip <$> split_lines [] head_))
  end.

(** [_has_attachments]; an unhashable block type raises. *)
Fixpoint any_attachment (blocks : list json) : outcome todo_error bool :=
  match blocks with
  | [] => Ret false
  | JDict d :: rest =>
    match py_get (u "type") d with
    | JList _ | JDict _ => Raise PyTypeError
    | JStr t => if bool_decide (t = u "text") || bool_decide (t = u "tool_result")
                then any_attachment rest else Ret true
    | _ => Ret true
    end
  | _ :: rest => any_attachment rest
  end.
Definition has_attachments (ev : list (str * json)) : outcome todo_error bool :=
  if truthy (py_get (u "attachments") ev) then Ret true
  else match py_get (u "content") ev with JList l => any_attachment l | _ => Ret false end.

Record TurnScan := mkScan { invoked_newest_first : list str; scan_root : option str; found_user_turn : bool }.

(** One entry of the backward scan; the flag of the result ends the scan. *)
Definition scan_entry (ev : json) (s : TurnScan) : outcome todo_error TurnScan :=
  match ev with
  | JDict d =>
    match py_get (u "sub_agent_id") d with
    | JNull =>
      let ty := py_get (u "type") d in
      if json_is ty (u "tool_call_start") && json_is (py_get (u "tool_name") d) (u "invoke_skill") then
        match py_get (u "tool_input") d with
        | JDict inp =>
          match skill_name (py_get (u "skill_name") inp) None with
          | Some sk => Ret (mkScan (invoked_newest_first s ++ [sk]) (scan_root s) false)
          | None => Ret s
          end
        | _ => Ret s
        end
      else if json_is ty (u "user_message") && negb (json_is (py_get (u "client_kind") d) (u "operator")) then
        match prompt_first_line (py_get (u "content") d) with
        | Some l => Ret (mkScan (invoked_newest_first s) (Some (take TODO_CONTENT_MAX_CHARS l)) true)
        | None => let? att := has_attachments d in
                  Ret (mkScan (invoked_newest_first s) (scan_root s) att)
        end
      else Ret s
    | _ => Ret s
    end
  | _ => Ret s
  end.

Fixpoint scan_entries (evs : list json) (s : TurnScan) : outcome todo_error TurnScan :=
  match evs with
  | [] => Ret s
  | ev :: rest =>
    let? s' := scan_entry ev s in
    if found_user_turn s' then Ret s' else scan_entries rest s'
  end.

(** The page loop: the log's [query] hands the journal out newest first. *)
Fixpoint scan_pages (pages : list (list json)) (s : TurnScan) : outcome todo_error TurnScan :=
  match pages with
  | [] => Ret s
  | page :: rest =>
    let? s' := scan_entries page s in
    if found_user_turn s' then Ret s' else scan_pages rest s'
  end.

Definition dedup_names (l : list str) : list str :=
  foldl (fun acc s => if bool_decide (s ∈ acc) then acc else acc ++ [s]) [] l.

Record TodoSessionState := mkState {
  checklist : TodoChecklist;
  gateway_session_id : str;
  scope_to_run : bool;
  loaded : bool;
  model_seen_revision : Z;
  reminders_sent : nat;
  moved_since_reminder : bool;
  pending_analyst_note : option str;
  root_deliverable : option str;
  invoked_skills : list str
}.

(** [TodoSessionState.__init__] *)
Definition new_state (c : TodoChecklist) (sid : str) (scope : bool) : TodoSessionState :=
  mkState c sid scope false (revision c) 0 true None None [].

Definition set_turn (root : option str) (invoked : list str) (s : TodoSessionState) : TodoSessionState :=
  mkState (checklist s) (gateway_session_id s) (scope_to_run s) (loaded s) (model_seen_revision s)
    (reminders_sent s) (moved_since_reminder s) (pending_analyst_note s) root invoked.
Definition set_checklist (c : TodoChecklist) (moved : bool) (note : option str) (s : TodoSessionState) : TodoSessionState :=
  mkState c (gateway_session_id s) (scope_to_run s) (loaded s) (model_seen_revision s)
    (reminders_sent s) moved note (root_deliverable s) (invoked_skills s).
Definition set_seen (r : Z) (s : TodoSessionState) : TodoSessionState :=
  mkState (checklist s) (gateway_session_id s) (scope_to_run s) (loaded s) r
    (reminders_sent s) (moved_since_reminder s) (pending_analyst_note s) (root_deliverable s) (invoked_skills s).
Definition set_loaded (s : TodoSessionState) : TodoSessionState :=
  mkState (checklist s) (gateway_session_id s) (scope_to_run s) true (model_seen_revision s)
    (reminders_sent s) (moved_since_reminder s) (pending_analyst_note s) (root_deliverable s) (invoked_skills s).
Definition set_reminders (n : nat) (moved : bool) (s : TodoSessionState) : TodoSessionState :=
  mkState (checklist s) (gateway_session_id s) (scope_to_run s) (loaded s) (model_seen_revision s)
    n moved (pending_analyst_note s) (root_deliverable s) (invoked_skills s).

Abbreviation ST := (SE TodoSessionState todo_error).

(** [snapshot_event] *)
Definition snapshot_event (actor : TodoActor) (op : str) (s : TodoSessionState) : list (str * json) :=
  build_todo_snapshot_payload (checklist s) actor op (gateway_session_id s).

(** [_refresh_current_turn] *)
Definition refresh_current_turn (pages : list (list json)) : ST unit :=
  let! sc := se_lift (scan_pages pages (mkScan [] None false)) in
  let! s := se_get in
  se_put (set_turn (scan_root sc) (dedup_names (reverse (invoked_newest_first sc))) s).

(** [load]: the journal's snapshot entries and its turn pages; returns what it
    appends to the journal. *)
Definition load (entries : list json) (pages : list (list json)) : ST (list (list (str * json))) :=
  let! s := se_get in
  let! appended :=
    (if loaded s then se_ret []
     else
       let snapshots := entries ≫= fun ev =>
         match ev with
         | JDict d => if json_is (py_get (u "type") d) (u "todo_snapshot") then [d] else []
         | _ => []
         end in
       let! folded := se_lift (fold_todo_snapshots snapshots
                                 (if scope_to_run s then Some (gateway_session_id s) else None)) in
       if (revision folded <? revision (checklist s))%Z
       then let! _ := se_put (set_loaded s) in se_ret [snapshot_event Analyst (u "patch") s]
       else
         let! _ := se_put (set_loaded (set_seen (revision folded)
                    (set_checklist folded (moved_since_reminder s) (pending_analyst_note s) s))) in
         se_ret []) in
  let! _ := refresh_current_turn pages in
  se_ret appended.

(** [apply_model] *)
Definition effective_op (op : list (str * json)) (s : TodoSessionState) : list (str * json) :=
  if json_is (py_get (u "op") op) (u "init")
     && (match root_deliverable s with Some (_ :: _) => true | _ => false end
         || negb (bool_decide (invoked_skills s = [])))
  then dict_set (u "_invoked_skills") (JList (JStr <$> invoked_skills s))
         (dict_set (u "_root_deliverable")
            (match root_deliverable s with Some r => JStr r | None => JNull end) op)
  else op.

Definition apply_model (op : list (str * json)) (sk : SkillContext) (tokens : list str) : ST TodoChecklist :=
  fun s =>
    match apply_model_op (checklist s) (effective_op op s) (Some (model_seen_revision s)) sk tokens with
    | Raise stale_revision => (set_seen (revision (checklist s)) s, Raise stale_revision)
    | Raise e => (s, Raise e)
    | Ret (c', built) =>
      let s1 := if built then set_checklist c' true (pending_analyst_note s) s else s in
      let s2 := set_seen (revision (checklist s1)) s1 in
      (s2, Ret (checklist s2))
    end.

(** [apply_analyst] *)
Definition apply_analyst (expected_revision : Z) (raw : json) (tokens : list str) : ST TodoChecklist :=
  fun s =>
    match apply_analyst_edit (checklist s) expected_revision raw tokens with
    | Raise e => (s, Raise e)
    | Ret c' => (set_checklist c' true (Some (render_analyst_edit_note c')) s, Ret c')
    end.

(** [take_analyst_note], [mark_projected], [reset_turn], [note_tool_call] *)
Definition take_analyst_note (s : TodoSessionState) : TodoSessionState * option str :=
  let note := pending_analyst_note s in
  let s1 := set_checklist (checklist s) (moved_since_reminder s) None s in
  (match note with Some _ => set_seen (revision (checklist s)) s1 | None => s1 end, note).
Definition mark_projected (s : TodoSessionState) : TodoSessionState := set_seen (revision (checklist s)) s.
Definition reset_turn (s : TodoSessionState) : TodoSessionState := set_reminders 0 true s.
Definition note_tool_call (s : TodoSessionState) : TodoSessionState := set_reminders (reminders_sent s) true s.

(** [reminder_due], [next_reminder] *)
Definition reminder_due (s : TodoSessionState) : bool :=
  negb (bool_decide (open_items (checklist s) = []))
  && (reminders_sent s <? TODO_REMINDER_BOUND) && moved_since_reminder s.
Definition next_reminder (s : TodoSessionState) : TodoSessionState * str :=
  let s1 := mark_projected (set_reminders (S (reminders_sent s)) false s) in
  (s1, render_open_items_reminder (checklist s1) (reminders_sent s1) TODO_REMINDER_BOUND).

(** [measurements] *)
Definition measurements (s : TodoSessionState) : nat * nat :=
  (reminders_sent s, length (open_items (checklist s))).

(** [ensure_todo_session_state] on the session's state attribute. *)
Definition ensure_todo_session_state (cur : option TodoSessionState) (sid : str) (scope : bool) : TodoSessionState :=
  match cur with
  | None => new_state EMPTY_CHECKLIST sid scope
  | Some s =>
    if negb (bool_decide (gateway_session_id s = sid)) then new_state EMPTY_CHECKLIST sid scope
    else mkState (checklist s) sid scope (loaded s) (model_seen_revision s) (reminders_sent s)
           (moved_since_reminder s) (pending_analyst_note s) (root_deliverable s) (invoked_skills s)
  end.

(** ** Specification *)

(** A blocked item has its reason, every other item has none. *)
Definition item_wf (i : TodoItem) : Prop :=
  match status i with
  | Blocked => exists t, blocker i = JStr t /\ t <> []
  | _ => blocker i = JNull
  end.

Definition n_active (l : list TodoItem) : nat := length (filter (fun i => status i = InProgress) l).

(** At most one active item, and one whenever an item is pending. *)
Definition one_active (l : list TodoItem) : Prop :=
  n_active l <= 1 /\ (Exists (fun i => status i = Pending) l -> n_active l = 1).

Record checklist_wf (c : TodoChecklist) : Prop := {
  wf_names : NoDup (name <$> phases c);
  wf_contents : NoDup (content <$> all_items c);
  wf_ids : NoDup (id <$> all_items c);
  wf_items : Forall item_wf (all_items c);
  wf_active : one_active (all_items c);
  wf_revisions : (0 <= analyst_revision c <= revision c)%Z
}.

(** Everything that happens to a session's checklist state after its load. *)
Inductive todo_step : TodoSessionState -> TodoSessionState -> Prop :=
| ts_model op sk tokens s : todo_step s (apply_model op sk tokens s).1
| ts_analyst r raw tokens s : todo_step s (apply_analyst r raw tokens s).1
| ts_note s : todo_step s (take_analyst_note s).1
| ts_projected s : todo_step s (mark_projected s)
| ts_reset s : todo_step s (reset_turn s)
| ts_tool s : todo_step s (note_tool_call s)
| ts_remind s : reminder_due s = true -> todo_step s (next_reminder s).1
| ts_refresh pages s : todo_step s (refresh_current_turn pages s).1.

(** ** Lemmas: normal form *)
Lemma phase_items_app ps ps' : phase_items (ps ++ ps') = phase_items ps ++ phase_items ps'.
Proof. unfold phase_items. apply bind_app. Qed.

Lemma phase_items_cons p ps : phase_items (p :: ps) = items p ++ phase_items ps.
Proof. done. Qed.

Lemma demote_items_app l1 : forall seen l2,
  demote_items seen (l1 ++ l2) =
  let '(s1, o1) := demote_items seen l1 in let '(s2, o2) := demote_items s1 l2 in (s2, o1 ++ o2).
Proof.
  induction l1 as [|i l1 IH]; intros seen l2; simpl.
  - by destruct (demote_items seen l2).
  - rewrite IH. destruct (demote_items (seen || _) l1) as [s1 o1].
    by destruct (demote_items s1 l2) as [s2 o2].
Qed.

Lemma demote_phases_items ps : forall seen,
  (demote_phases seen ps).1 = (demote_items seen (phase_items ps)).1 /\
  phase_items (demote_phases seen ps).2 = (demote_items seen (phase_items ps)).2 /\
  name <$> (demote_phases seen ps).2 = name <$> ps.
Proof.
  induction ps as [|p ps IH]; intros seen; [done|]. cbn [demote_phases].
  rewrite phase_items_cons, demote_items_app.
  destruct (demote_items seen (items p)) as [s1 l1]. destruct (IH s1) as (E1 & E2 & E3).
  destruct (demote_phases s1 ps) as [s2 ps2]. destruct (demote_items s1 (phase_items ps)) as [s3 l3].
  cbn [fst snd] in *. subst. split; [done|]. split; [done|]. csimpl. by rewrite E3.
Qed.

Lemma promote_items_app l1 l2 :
  promote_items (l1 ++ l2) =
  match promote_items l1 with Some o => Some (o ++ l2) | None => app l1 <$> promote_items l2 end.
Proof.
  induction l1 as [|i l1 IH]; simpl; [by destruct (promote_items l2)|].
  case_bool_decide; [done|]. rewrite IH. destruct (promote_items l1); [done|].
  by destruct (promote_items l2).
Qed.

Lemma promote_phases_items ps :
  phase_items (promote_phases ps) = default (phase_items ps) (promote_items (phase_items ps)) /\
  name <$> promote_phases ps = name <$> ps.
Proof.
  induction ps as [|p ps [IH1 IH2]]; [done|].
  cbn [promote_phases]. rewrite phase_items_cons, promote_items_app.
  destruct (promote_items (items p)) as [l|]; [done|].
  split; [|csimpl; by rewrite IH2]. rewrite phase_items_cons, IH1.
  by destruct (promote_items (phase_items ps)).
Qed.

Definition normal_items (l : list TodoItem) : list TodoItem :=
  let '(seen, out) := demote_items false l in
  if seen then out else default out (promote_items out).

Lemma normalize_active_items ps :
  phase_items (normalize_active ps) = normal_items (phase_items ps) /\
  name <$> normalize_active ps = name <$> ps.
Proof.
  unfold normalize_active, normal_items. destruct (demote_phases_items ps false) as (E1 & E2 & E3).
  destruct (demote_phases false ps) as [seen out], (demote_items false (phase_items ps)) as [seen' out'].
  simpl in *. subst. destruct seen'; [done|]. destruct (promote_phases_items out) as [P1 P2].
  by rewrite P2.
Qed.

(** What normalization may do to an item. *)
Definition renorm (i j : TodoItem) : Prop :=
  id j = id i /\ content j = content i /\ blocker j = blocker i /\
  (status j = status i \/ (is_open (status i) = true /\ is_open (status j) = true)).

Lemma renorm_refl i : renorm i i.
Proof. unfold renorm. auto. Qed.
Lemma renorm_trans i j k : renorm i j -> renorm j k -> renorm i k.
Proof.
  unfold renorm. intros (?&?&?&Hij) (?&?&?&Hjk). repeat split; try congruence.
  destruct Hij as [E1|[? ?]], Hjk as [E2|[? ?]].
  - left. congruence.
  - right. split; [by rewrite <- E1|done].
  - right. split; [done|by rewrite E2].
  - by right.
Qed.

Lemma demote_items_renorm l : forall seen, Forall2 renorm l (demote_items seen l).2.
Proof.
  induction l as [|i l IH]; intros seen; simpl; [constructor|].
  specialize (IH (seen || bool_decide (status i = InProgress))).
  destruct (demote_items _ l) as [s' l']. simpl in *. constructor; [|done].
  case_bool_decide as Hs; simpl; [|apply renorm_refl]. destruct seen; [|apply renorm_refl].
  repeat split. right. by rewrite Hs.
Qed.

Lemma promote_items_renorm l l' : promote_items l = Some l' -> Forall2 renorm l l'.
Proof.
  revert l'. induction l as [|i l IH]; intros l'; simpl; [done|]. case_bool_decide as Hs.
  - intros [= <-]. constructor.
    + repeat split. right. by rewrite Hs.
    + apply Forall2_same_length_lookup_2; [done|]. intros. simplify_eq. apply renorm_refl.
  - intros (l2 & Hl & ->)%fmap_Some. constructor; [apply renorm_refl|]. by apply IH.
Qed.

Lemma Forall2_trans {A} (R : A -> A -> Prop) l1 l2 l3 :
  (forall x y z, R x y -> R y z -> R x z) -> Forall2 R l1 l2 -> Forall2 R l2 l3 -> Forall2 R l1 l3.
Proof. intros HR H. revert l3. induction H; inversion 1; subst; constructor; eauto. Qed.

Lemma normal_items_renorm l : Forall2 renorm l (normal_items l).
Proof.
  unfold normal_items. pose proof (demote_items_renorm l false) as H.
  destruct (demote_items false l) as [seen out]. simpl in H. destruct seen; [done|].
  destruct (promote_items out) as [o|] eqn:E; [|done]. simpl.
  eapply Forall2_trans; [apply renorm_trans|exact H|]. by apply promote_items_renorm.
Qed.

Lemma renorm_fields l l' : Forall2 renorm l l' ->
  (id <$> l') = (id <$> l) /\ (content <$> l') = (content <$> l).
Proof. induction 1 as [|i j l l' (H1 & H2 & _) _ [IH1 IH2]]; [done|]. csimpl. by rewrite H1, H2, IH1, IH2. Qed.

Lemma renorm_wf i j : renorm i j -> item_wf i -> item_wf j.
Proof.
  unfold renorm, item_wf. intros (_ & _ & Hb & Hs). rewrite Hb.
  destruct Hs as [->|[Hi Hj]]; [done|]. by destruct (status i), (status j).
Qed.

Lemma n_active_cons i l : n_active (i :: l) = (if decide (status i = InProgress) then 1 else 0) + n_active l.
Proof. unfold n_active. rewrite filter_cons. by destruct (decide _). Qed.

Lemma demote_items_active l : forall seen,
  n_active (demote_items seen l).2 = (if (demote_items seen l).1 then 1 else 0) - (if seen then 1 else 0) /\
  (seen = true -> (demote_items seen l).1 = true).
Proof.
  induction l as [|i l IH]; intros seen; simpl; [by destruct seen|].
  destruct (IH (seen || bool_decide (status i = InProgress))) as [IH1 IH2].
  destruct (demote_items _ l) as [s' l']. simpl in *. rewrite n_active_cons, IH1.
  case_bool_decide as Hs; simpl in *.
  - rewrite orb_true_r in *. rewrite (IH2 eq_refl). destruct seen; simpl; [done|].
    by rewrite decide_True.
  - rewrite orb_false_r in *. rewrite decide_False by done. split; [done|auto].
Qed.

Lemma promote_items_active l :
  match promote_items l with
  | Some l' => n_active l' = S (n_active l)
  | None => Forall (fun i => status i <> Pending) l
  end.
Proof.
  induction l as [|i l IH]; simpl; [done|]. case_bool_decide as Hs.
  - rewrite !n_active_cons. repeat case_decide; simpl in *; try congruence; lia.
  - destruct (promote_items l) as [l'|]; simpl; [rewrite !n_active_cons; lia|by constructor].
Qed.

Lemma normal_items_active l : one_active (normal_items l).
Proof.
  unfold normal_items, one_active. destruct (demote_items_active l false) as [H _].
  destruct (demote_items false l) as [seen out]. simpl in H. destruct seen; simpl in H; [lia|].
  pose proof (promote_items_active out) as Hp. destruct (promote_items out) as [o|]; simpl; [lia|].
  split; [lia|]. intros (i & Hin & Hi)%Exists_exists. rewrite Forall_forall in Hp. by apply Hp in Hin.
Qed.

(** ** Lemmas: uniqueness *)
Lemma check_items_ok l : forall cs ids cs' ids',
  check_items cs ids l = Ret (cs', ids') ->
  NoDup (content <$> l) /\ NoDup (id <$> l) /\
  (forall i, i ∈ l -> (content i ∉ cs) /\ (id i ∉ ids)) /\
  cs' = list_to_set (content <$> l) ∪ cs /\ ids' = list_to_set (id <$> l) ∪ ids.
Proof.
  induction l as [|i l IH]; intros cs ids cs' ids'; simpl.
  { intros [= <- <-]. split; [constructor|]. split; [constructor|]. split; [set_solver|].
    split; apply leibniz_equiv; set_solver. }
  case_bool_decide as Hc; [done|]. case_bool_decide as Hi; [done|].
  intros (Hn1 & Hn2 & Hout & -> & ->)%IH. csimpl. rewrite !NoDup_cons.
  split; [split; [|done]|split; [split; [|done]|split; [|split]]].
  - intros (j & Hj & Hin)%list_elem_of_fmap. destruct (Hout j Hin) as [H _]. set_solver.
  - intros (j & Hj & Hin)%list_elem_of_fmap. destruct (Hout j Hin) as [_ H]. set_solver.
  - intros j [->|Hin]%elem_of_cons; [done|]. destruct (Hout j Hin). set_solver.
  - apply leibniz_equiv. set_solver.
  - apply leibniz_equiv. set_solver.
Qed.

Lemma check_phases_ok ps : forall ns cs ids,
  check_phases ns cs ids ps = Ret tt ->
  NoDup (name <$> ps) /\ NoDup (content <$> phase_items ps) /\ NoDup (id <$> phase_items ps) /\
  (forall p, p ∈ ps -> name p ∉ ns) /\
  (forall i, i ∈ phase_items ps -> (content i ∉ cs) /\ (id i ∉ ids)).
Proof.
  induction ps as [|p ps IH]; intros ns cs ids; cbn [check_phases].
  { intros _. repeat split; try constructor; set_solver. }
  case_bool_decide as Hn; [done|].
  intros ([cs' ids'] & Hc & Hrest)%obind_ret_inv. simpl in Hrest.
  apply check_items_ok in Hc as (Hc1 & Hc2 & Hc3 & -> & ->).
  apply IH in Hrest as (H1 & H2 & H3 & H4 & H5).
  rewrite phase_items_cons, !fmap_app, !NoDup_app. csimpl. rewrite NoDup_cons. split; [split; [|done]|split; [|split; [|split]]].
  - intros (q & Hq & Hin)%list_elem_of_fmap. apply H4 in Hin. set_solver.
  - split; [done|]. split; [|done]. intros x Hx (j & -> & Hin)%list_elem_of_fmap.
    destruct (H5 j Hin) as [Hj _]. set_solver.
  - split; [done|]. split; [|done]. intros x Hx (j & -> & Hin)%list_elem_of_fmap.
    destruct (H5 j Hin) as [_ Hj]. set_solver.
  - intros q [->|Hin]%elem_of_cons; [done|]. apply H4 in Hin. set_solver.
  - intros i [Hin|Hin]%elem_of_app; [by apply Hc3|]. apply H5 in Hin as [? ?]. set_solver.
Qed.

(** A settled checklist is in normal form, one revision on. *)
Lemma settle_ok c ps c' :
  settle c ps = Ret c' ->
  revision c' = (revision c + 1)%Z /\ analyst_revision c' = analyst_revision c /\
  analyst_change c' = analyst_change c /\
  all_items c' = normal_items (phase_items ps) /\
  NoDup (name <$> phases c') /\ NoDup (content <$> all_items c') /\ NoDup (id <$> all_items c').
Proof.
  unfold settle. intros ([] & Hu & [= <-])%obind_ret_inv. simpl.
  apply check_phases_ok in Hu as (H1 & H2 & H3 & _). destruct (normalize_active_items ps) as [E _].
  repeat split; done.
Qed.

Lemma settle_wf c ps c' :
  (0 <= analyst_revision c <= revision c)%Z -> Forall item_wf (phase_items ps) ->
  settle c ps = Ret c' -> checklist_wf c'.
Proof.
  intros Hr Hw (Hrev & Har & _ & Hit & Hn & Hc & Hi)%settle_ok. split; try done.
  - rewrite Hit. pose proof (normal_items_renorm (phase_items ps)) as HF.
    clear -Hw HF. induction HF; [done|]. inversion Hw; subst. constructor; [by eapply renorm_wf|auto].
  - rewrite Hit. apply normal_items_active.
  - lia.
Qed.

(** ** Lemmas: the operations settle well-formed items *)
Lemma Forall_phase_items (P : TodoItem -> Prop) ps :
  Forall P (phase_items ps) <-> Forall (fun p => Forall P (items p)) ps.
Proof.
  induction ps as [|p ps IH]; [done|]. rewrite phase_items_cons, Forall_app, IH.
  by rewrite Forall_cons.
Qed.

Section keeping.
Context (P : TodoItem -> Prop) (f : TodoItem -> TodoItem) (Hf : forall i, P i -> P (f i)).

Lemma Forall_with_item ps ij :
  Forall P (phase_items ps) -> Forall P (phase_items (with_item ps ij f)).
Proof.
  rewrite !Forall_phase_items. intros H. unfold with_item. apply Forall_alter; [done|].
  intros p Hp Hitems. simpl. apply Forall_alter; [done|]. auto.
Qed.

Lemma Forall_map_items ps :
  Forall P (phase_items ps) -> Forall P (phase_items (map_items f <$> ps)).
Proof.
  rewrite !Forall_phase_items, Forall_fmap. intros H. eapply Forall_impl; [exact H|].
  intros p Hp. simpl. rewrite Forall_fmap. eapply Forall_impl; [exact Hp|apply Hf].
Qed.

Lemma Forall_alter_phase ps n :
  Forall P (phase_items ps) -> Forall P (phase_items (alter (map_items f) n ps)).
Proof.
  rewrite !Forall_phase_items. intros H. apply Forall_alter; [done|].
  intros p Hp Hitems. simpl. rewrite Forall_fmap. eapply Forall_impl; [exact Hitems|apply Hf].
Qed.
End keeping.

Lemma mark_item_wf st i : st <> Blocked -> item_wf i -> item_wf (mark_item st i).
Proof. unfold item_wf, mark_item. intros. destruct (status i) eqn:E; simpl; rewrite ?E; try done; by destruct st. Qed.
Lemma demote_active_wf i : item_wf i -> item_wf (demote_active i).
Proof. unfold item_wf, demote_active. case_bool_decide as E; [|done]. by rewrite E. Qed.
Lemma unblock_item_wf i : item_wf i -> item_wf (unblock_item i).
Proof. unfold item_wf, unblock_item. by case_bool_decide. Qed.

Lemma parse_text_ok limit v t : parse_text limit v = Ret t -> t <> [] /\ length t <= limit.
Proof.
  unfold parse_text. destruct v; try done. case_bool_decide; [done|].
  destruct (limit <? _) eqn:E; [done|]. intros [= <-]. apply Nat.ltb_ge in E. done.
Qed.

Lemma se_map_Forall {A B} (f : A -> T B) (P : B -> Prop) l :
  (forall x s s' y, f x s = (s', Ret y) -> P y) ->
  forall s s' ys, se_map f l s = (s', Ret ys) -> Forall P ys.
Proof.
  intros Hf. induction l as [|x l IH]; intros s s' ys; simpl.
  { intros [= _ <-]. constructor. }
  intros [(y & s1 & Hy & [(zs & s2 & Hz & H)|(e & _ & ?)]%se_bind_inv)|(e & _ & ?)]%se_bind_inv; [|done..].
  unfold se_ret in H. simplify_eq. constructor; eauto.
Qed.

Lemma parse_item_wf keep raw s s' i : parse_item keep raw s = (s', Ret i) -> item_wf i.
Proof.
  unfold parse_item. destruct raw as [| | | |t|l|d]; try done.
  { intros (x & s1 & _ & (c & s2 & _ & H)%se_bind_ret)%se_bind_ret. unfold se_ret in H. by simplify_eq. }
  intros (c & s1 & _ & (st & s2 & _ & (b & s3 & Hb & H)%se_bind_ret)%se_bind_ret)%se_bind_ret.
  assert (b = JNull \/ exists t, b = JStr t /\ t <> []) as Hbb.
  { destruct (py_get (u "blocker") d); unfold se_ret in Hb; simplify_eq; auto;
      apply se_bind_ret in Hb as (t & s4 & Ht & Hb); unfold se_lift in Ht; simplify_eq; right; exists t;
      (split; [done|]); eapply parse_text_ok; eassumption. }
  destruct (bool_decide (st = Blocked) && _) eqn:Hbl; [done|].
  apply se_bind_ret in H as (i' & s4 & _ & H). unfold se_ret in H. simplify_eq.
  unfold item_wf. simpl. case_bool_decide as Hst; [|by destruct st].
  subst st. destruct Hbb as [->|(t & -> & ?)]; [done|eauto].
Qed.

Lemma parse_phases_wf keep raw s s' ps :
  parse_phases keep raw s = (s', Ret ps) -> Forall item_wf (phase_items ps).
Proof.
  unfold parse_phases. destruct raw as [| | | |t|l|d]; try done. intros H. apply Forall_phase_items.
  eapply se_map_Forall; [|exact H]. clear. intros raw s s' p. unfold parse_phase.
  destruct raw as [| | | |t|l|d]; try done.
  intros (n & s1 & _ & (raws & s2 & _ & (l & s3 & Hl & H)%se_bind_ret)%se_bind_ret)%se_bind_ret.
  unfold se_ret in H. simplify_eq. simpl. eapply se_map_Forall; [|exact Hl].
  intros x ???. apply parse_item_wf.
Qed.

Lemma scope_incoming_Forall (P : TodoItem -> Prop) skill ps : forall cs ns,
  Forall P (phase_items ps) -> Forall P (phase_items (scope_incoming skill cs ns ps)).
Proof.
  induction ps as [|p ps IH]; intros cs ns H; [done|]. cbn [scope_incoming].
  rewrite phase_items_cons, Forall_app in H. destruct H as [Hp Hps].
  case_bool_decide; [by apply IH|]. rewrite phase_items_cons, Forall_app. split; [|by apply IH].
  simpl. by apply Forall_filtered.
Qed.

(** [settles c c']: [c'] is [c] one revision on, with well-formed items. *)
Definition settles (c c' : TodoChecklist) : Prop :=
  exists c0 ps, revision c0 = revision c /\ analyst_revision c0 = analyst_revision c /\
    analyst_change c0 = analyst_change c /\ Forall item_wf (phase_items ps) /\ settle c0 ps = Ret c'.

Lemma settles_self c ps c' :
  Forall item_wf (phase_items ps) -> settle c ps = Ret c' -> settles c c'.
Proof. intros. exists c, ps. done. Qed.

Lemma mark_settles c op st c' :
  st <> Blocked -> Forall item_wf (all_items c) -> mark c op st = Ret c' -> settles c c'.
Proof.
  intros Hst Hw. unfold mark.
  pose proof (mark_item_wf st) as Hm.
  assert (forall i, item_wf i -> item_wf (mark_item st i)) as Hf by auto. intros H.
  assert (exists ps, Forall item_wf (phase_items ps) /\ settle c ps = Ret c') as (ps & ? & ?);
    [|by apply (settles_self c ps)].
  destruct (py_get (u "item") op).
  1: destruct (py_get (u "phase") op).
  1: { destruct (py_get (u "all") op) as [|[]| | | | |]; try done. eexists. split; [|exact H].
       by apply Forall_map_items. }
  1-6: apply obind_ret_inv in H as (nm & _ & H); apply obind_ret_inv in H as (i & _ & H);
       eexists; split; [|exact H]; by apply Forall_alter_phase.
  all: apply obind_ret_inv in H as (nm & _ & H); apply obind_ret_inv in H as (ij & _ & H);
       eexists; split; [|exact H]; by apply Forall_with_item.
Qed.

Lemma append_settles c op tokens c' :
  Forall item_wf (all_items c) -> apply_append c op tokens = Ret c' -> settles c c'.
Proof.
  intros Hw. unfold apply_append.
  intros (nm & _ & (raws & _ & (new & Hnew & H)%obind_ret_inv)%obind_ret_inv)%obind_ret_inv.
  destruct (se_map append_item raws _) as [s' r] eqn:Hm. simpl in Hnew. subst r.
  assert (Forall item_wf new) as Hn.
  { eapply se_map_Forall; [|exact Hm]. intros x s1 s2 i. unfold append_item.
    intros (y & s3 & _ & (t & s4 & _ & Hi)%se_bind_ret)%se_bind_ret. unfold se_ret in Hi. by simplify_eq. }
  eapply settles_self; [|exact H]. destruct (index_of _ _) as [n|].
  - apply Forall_phase_items. apply Forall_alter; [by apply Forall_phase_items|].
    intros p Hp Hi. simpl. by apply Forall_app.
  - rewrite phase_items_app, Forall_app. split; [done|]. apply Forall_phase_items. by constructor.
Qed.

Lemma init_settles c op sk tokens c' :
  Forall item_wf (all_items c) -> apply_init_op c op sk tokens = Ret c' -> settles c c'.
Proof.
  intros Hw. unfold apply_init_op. intros (skills & _ & H)%obind_ret_inv.
  destruct (parse_phases false _ _) as [ids1 parsed] eqn:Hp. destruct parsed as [incoming|]; [|done].
  simpl in H. apply parse_phases_wf in Hp.
  assert (forall ps, Forall item_wf (phase_items ps) ->
    settle (mkChecklist (revision c) [] (analyst_revision c) (analyst_change c)) ps = Ret c' -> settles c c') as Hcl.
  { intros ps Hps Hs. eexists _, ps. split; [|split; [|split; [|split; [exact Hps|exact Hs]]]]; done. }
  destruct skills as [[skill|] [outer|]]; [|by eapply Hcl..].
  destruct (bool_decide (skill = outer)); [by eapply Hcl|].
  destruct (negb _).
  - eapply settles_self; [|exact H].
    assert (Forall item_wf (phase_items (map_items demote_active <$> phases c))) as Hd.
    { apply Forall_map_items; [apply demote_active_wf|done]. }
    rewrite !phase_items_app, !Forall_app. split; [|split; [by apply scope_incoming_Forall|]].
    all: apply Forall_phase_items; apply Forall_phase_items in Hd; (by apply Forall_take) || (by apply Forall_drop).
  - destruct (py_contains _ _); [by eapply Hcl|]. apply obind_ret_inv in H as (rid & _ & H).
    eapply Hcl; [|exact H]. rewrite phase_items_app, Forall_app. split; [done|].
    apply Forall_phase_items. repeat constructor.
Qed.

Lemma apply_model_op_settles c op base sk tokens c' b :
  Forall item_wf (all_items c) -> apply_model_op c op base sk tokens = Ret (c', b) ->
  if b then settles c c' else c' = c.
Proof.
  intros Hw. unfold apply_model_op. intros (opn & _ & H)%obind_ret_inv.
  assert (forall r : outcome todo_error TodoChecklist, (let? c1 := r in Ret (c1, true)) = Ret (c', b) ->
    r = Ret c' /\ b = true) as Hr.
  { intros r (c1 & -> & ?)%obind_ret_inv. by simplify_eq. }
  destruct opn; [..|by simplify_eq]; (destruct (match base with Some _ => _ | None => false end); [done|]);
    apply Hr in H as [H ->].
  - by eapply init_settles.
  - by eapply append_settles.
  - apply obind_ret_inv in H as (t & _ & H). apply obind_ret_inv in H as (ij & _ & H).
    eapply settles_self; [|exact H]. apply Forall_with_item; [done|].
    apply Forall_map_items; [apply demote_active_wf|done].
  - refine (mark_settles _ _ _ _ _ Hw H). discriminate.
  - refine (mark_settles _ _ _ _ _ Hw H). discriminate.
  - apply obind_ret_inv in H as (t & _ & H). apply obind_ret_inv in H as (ij & _ & H).
    unfold apply_block in H. apply obind_ret_inv in H as (reason & Hr2 & H).
    eapply settles_self; [|exact H]. apply Forall_with_item; [|done].
    intros i _. exists reason. split; [done|]. by eapply parse_text_ok.
  - apply obind_ret_inv in H as (t & _ & H). apply obind_ret_inv in H as (ij & _ & H).
    eapply settles_self; [|exact H]. apply Forall_with_item; [apply unblock_item_wf|done].
  - unfold apply_rm in H. apply obind_ret_inv in H as (raws & _ & H).
    apply obind_ret_inv in H as (targets & _ & H). apply obind_ret_inv in H as (x & _ & H).
    eapply settles_self; [|exact H]. apply Forall_phase_items. rewrite Forall_fmap.
    apply Forall_phase_items in Hw. eapply Forall_impl; [exact Hw|]. intros p Hp. simpl. by apply Forall_filtered.
Qed.

Lemma settles_wf c c' : (0 <= analyst_revision c <= revision c)%Z -> settles c c' ->
  checklist_wf c' /\ revision c' = (revision c + 1)%Z /\ analyst_revision c' = analyst_revision c.
Proof.
  intros Hr (c0 & ps & E1 & E2 & E3 & Hw & Hs). split; [apply (settle_wf c0 ps); [lia|done|done]|].
  apply settle_ok in Hs as (-> & -> & _). by rewrite E1, E2.
Qed.

Lemma analyst_edit_ok c r raw tokens c' :
  apply_analyst_edit c r raw tokens = Ret c' -> (0 <= revision c)%Z ->
  checklist_wf c' /\ r = revision c /\ revision c' = (revision c + 1)%Z /\ analyst_revision c' = revision c'.
Proof.
  unfold apply_analyst_edit. destruct (r =? revision c)%Z eqn:Er; simpl; [|done].
  intros (parsed & Hp & H)%obind_ret_inv Hpos.
  destruct (existsb _ _); [done|]. apply obind_ret_inv in H as (s & Hs & [= <-]).
  destruct (parse_phases true raw _) as [ids r'] eqn:Hpp. simpl in Hp. subst r'.
  apply parse_phases_wf in Hpp. apply Z.eqb_eq in Er.
  assert (checklist_wf (mkChecklist (revision s) (phases s) 0 JNull)) as [? ? ? ? ? ?].
  { apply settle_ok in Hs as Hok. destruct Hok as (Hrev & _ & _ & Hit & Hn & Hc & Hi).
    assert (settle (mkChecklist (revision c) [] 0 JNull) parsed = Ret (mkChecklist (revision s) (phases s) 0 JNull)) as Hs2.
    { unfold settle in Hs |- *. apply obind_ret_inv in Hs as ([] & -> & [= <-]). done. }
    apply (settle_wf (mkChecklist (revision c) [] 0 JNull) parsed); [simpl; lia|done|done]. }
  apply settle_ok in Hs as (Hrev & _). simpl in *. split; [|simpl; lia].
  split; simpl; try done. lia.
Qed.

(** ** Lemmas: the session *)
Lemma checklist_wf_empty : checklist_wf EMPTY_CHECKLIST.
Proof.
  split; cbn; [apply NoDup_nil_2|apply NoDup_nil_2|apply NoDup_nil_2|apply Forall_nil_2| |done].
  split; [cbn; lia|]. intros H. inversion H.
Qed.

Record state_ok (s : TodoSessionState) : Prop := {
  so_wf : checklist_wf (checklist s);
  so_seen : (0 <= model_seen_revision s <= revision (checklist s))%Z;
  so_reminders : reminders_sent s <= TODO_REMINDER_BOUND
}.

(** What a model operation does to the session. *)
Lemma apply_model_cases op sk tokens s :
  checklist_wf (checklist s) ->
  let s' := (apply_model op sk tokens s).1 in
  reminders_sent s' = reminders_sent s /\ gateway_session_id s' = gateway_session_id s /\
  ((checklist s' = checklist s /\
    (model_seen_revision s' = model_seen_revision s \/ model_seen_revision s' = revision (checklist s))) \/
   (settles (checklist s) (checklist s') /\ model_seen_revision s' = revision (checklist s') /\
    (apply_model op sk tokens s).2 = Ret (checklist s'))).
Proof.
  intros [_ _ _ Hw _ _]. unfold apply_model.
  destruct (apply_model_op _ _ _ sk tokens) as [[c' b]|e] eqn:H.
  - apply apply_model_op_settles in H; [|done]. split; [by destruct b|]. split; [by destruct b|].
    destruct b; simpl; [by right|]. left. split; [done|by right].
  - split; [by destruct e|]. split; [by destruct e|]. left. split; [by destruct e|].
    destruct e; simpl; auto.
Qed.

Lemma apply_analyst_cases r raw tokens s :
  checklist_wf (checklist s) ->
  let s' := (apply_analyst r raw tokens s).1 in
  model_seen_revision s' = model_seen_revision s /\ reminders_sent s' = reminders_sent s /\
  gateway_session_id s' = gateway_session_id s /\
  (s' = s \/ (checklist_wf (checklist s') /\ revision (checklist s') = (revision (checklist s) + 1)%Z)).
Proof.
  intros [_ _ _ _ _ Hr]. unfold apply_analyst. destruct (apply_analyst_edit _ _ _ _) as [c'|e] eqn:H; simpl; [|by auto].
  apply analyst_edit_ok in H as (Hw & _ & Hrev & _); [|lia]. auto 6.
Qed.

Lemma refresh_cases pages s :
  let s' := (refresh_current_turn pages s).1 in
  checklist s' = checklist s /\ model_seen_revision s' = model_seen_revision s /\
  reminders_sent s' = reminders_sent s /\ gateway_session_id s' = gateway_session_id s.
Proof.
  unfold refresh_current_turn, se_bind, se_lift, se_get, se_put. by destruct (scan_pages _ _).
Qed.

Lemma step_ok s s' : state_ok s -> todo_step s s' ->
  state_ok s' /\ gateway_session_id s' = gateway_session_id s /\
  (checklist s' = checklist s \/ revision (checklist s') = (revision (checklist s) + 1)%Z).
Proof.
  intros [Hw Hs Hr] Hst.
  destruct Hst as [op sk tokens s|r raw tokens s|s|s|s|s|s Hd|pages s].
  - destruct (apply_model_cases op sk tokens s Hw) as (E1 & E2 & [[E3 E4]|(E3 & E4 & _)]).
    + split; [|auto]. split; [by rewrite E3|rewrite E3; destruct E4 as [->| ->]; lia|by rewrite E1].
    + destruct (settles_wf _ _ (wf_revisions _ Hw) E3) as (Hw' & Hrev & _).
      split; [|auto]. split; [done|rewrite E4; destruct (wf_revisions _ Hw'); lia|by rewrite E1].
  - destruct (apply_analyst_cases r raw tokens s Hw) as (E1 & E2 & E3 & [->|[Hw' Hrev]]); [split; [by split|auto]|].
    split; [|auto]. split; [done|rewrite E1; lia|by rewrite E2].
  - unfold take_analyst_note. destruct (pending_analyst_note s); simpl;
      (split; [split; simpl; [done|lia|done]|auto]).
  - split; [split; simpl; [done|lia|done]|auto].
  - split; [split; simpl; [done|lia|unfold TODO_REMINDER_BOUND; lia]|auto].
  - split; [split; simpl; [done|lia|done]|auto].
  - unfold reminder_due in Hd. bool_prop. apply Nat.ltb_lt in H1.
    split; [split; simpl; [done|lia|lia]|auto].
  - destruct (refresh_cases pages s) as (E1 & E2 & E3 & E4).
    split; [split; [by rewrite E1|by rewrite E1, E2|by rewrite E3]|rewrite E1; auto].
Qed.

Lemma new_state_ok sid scope : state_ok (new_state EMPTY_CHECKLIST sid scope).
Proof. split; simpl; [apply checklist_wf_empty|lia|lia]. Qed.

Lemma steps_ok s s' : rtc todo_step s s' -> state_ok s -> state_ok s'.
Proof. induction 1 as [|s s1 s2 H1 _ IH]; [done|]. intros H. apply IH. by apply (step_ok s). Qed.

(** ** Lemmas: the journal *)
Lemma py_iter_list l : py_iter_or_empty (JList l) = Ret l.
Proof. by destruct l. Qed.

Lemma parse_status_text s : parse_status (JStr (status_text s)) = Ret s.
Proof. by destruct s. Qed.

Lemma item_round_trip i : item_from_payload (item_payload i) = Ret i.
Proof.
  destruct i as [a b st bl]. unfold item_payload, item_from_payload. cbn [id content status blocker].
  change (dict_item (u "id") _) with (Ret (E := todo_error) (JStr a)). cbn [obind].
  change (dict_item (u "content") _) with (Ret (E := todo_error) (JStr b)). cbn [obind].
  change (default _ (dict_get (u "status") _)) with (JStr (status_text st)).
  rewrite parse_status_text. cbn [obind py_str]. do 2 f_equal. by destruct bl.
Qed.

Lemma omap_round_trip {A} (f : json -> outcome todo_error A) (g : A -> json) l :
  (forall x, f (g x) = Ret x) -> omap_list f (g <$> l) = Ret l.
Proof. intros H. induction l as [|x l IH]; [done|]. csimpl. by rewrite H, IH. Qed.

Lemma phase_round_trip p : phase_from_payload (phase_payload p) = Ret p.
Proof.
  destruct p as [n l]. unfold phase_payload, phase_from_payload. cbn [name items].
  change (py_get (u "items") _) with (JList (item_payload <$> l)). rewrite py_iter_list. cbn [obind].
  rewrite (omap_round_trip _ _ _ item_round_trip). done.
Qed.

Lemma snapshot_get_revision c actor op sid :
  py_int_or_zero (py_get (u "revision") (build_todo_snapshot_payload c actor op sid)) = Ret (revision c).
Proof.
  change (py_get (u "revision") _) with (JInt (revision c)). unfold py_int_or_zero. simpl.
  destruct (revision c =? 0)%Z eqn:E; simpl; [|done]. apply Z.eqb_eq in E. by rewrite E.
Qed.

Lemma from_payload_snapshot c actor op sid :
  from_payload (build_todo_snapshot_payload c actor op sid) = Ret c.
Proof.
  destruct c as [r ps ar ac] eqn:Hc. unfold from_payload. rewrite snapshot_get_revision.
  change (py_get (u "phases") _) with (JList (phase_payload <$> ps)). rewrite py_iter_list. cbn [obind].
  rewrite (omap_round_trip _ _ _ phase_round_trip). cbn [obind].
  change (py_get (u "analyst_revision") _) with (JInt ar).
  change (py_get (u "analyst_change") _) with ac.
  assert (py_int_or_zero (JInt ar) = Ret ar) as ->; [|done].
  unfold py_int_or_zero. simpl. destruct (ar =? 0)%Z eqn:E; simpl; [|done].
  apply Z.eqb_eq in E. by rewrite E.
Qed.

Lemma latest_snapshot_app sid evs1 : forall l evs2,
  latest_snapshot sid l (evs1 ++ evs2) =
  let? l1 := latest_snapshot sid l evs1 in latest_snapshot sid l1 evs2.
Proof.
  induction evs1 as [|ev evs1 IH]; intros l evs2; [done|]. simpl.
  destruct (_ || _); [apply IH|]. destruct l as [l|]; [|apply IH].
  destruct (py_int_or_zero (py_get _ ev)); simpl; [|done].
  destruct (py_int_or_zero (py_get _ l)); simpl; [apply IH|done].
Qed.

(** The event is a snapshot of session [sid]. *)
Definition snapshot_of (sid : str) (ev : list (str * json)) : bool :=
  json_is (py_get (u "type") ev) (u "todo_snapshot") && json_is (py_get (u "gateway_session_id") ev) sid.

(** A session beside its journal: every accepted change is followed by its
    snapshot, and other events and other sessions' snapshots come between. *)
Inductive journaled (sid : str) : TodoSessionState -> list (list (str * json)) -> Prop :=
| jr_new scope : journaled sid (new_state EMPTY_CHECKLIST sid scope) []
| jr_step s s' evs actor op :
    journaled sid s evs -> todo_step s s' ->
    journaled sid s' (if (revision (checklist s') =? revision (checklist s))%Z then evs
                      else evs ++ [snapshot_event actor op s'])
| jr_other s evs ev : journaled sid s evs -> snapshot_of sid ev = false -> journaled sid s (evs ++ [ev]).

Lemma journaled_latest sid s evs :
  journaled sid s evs -> state_ok s /\ gateway_session_id s = sid /\
  exists l, latest_snapshot (Some sid) None evs = Ret l /\
    match l with
    | None => checklist s = EMPTY_CHECKLIST
    | Some ev => exists actor op, ev = build_todo_snapshot_payload (checklist s) actor op sid
    end.
Proof.
  induction 1 as [scope|s s' evs actor op _ (Hok & Hsid & l & Hl & Hm) Hst|s evs ev _ (Hok & Hsid & l & Hl & Hm) Hev].
  - split; [apply new_state_ok|]. split; [done|]. by exists None.
  - destruct (step_ok s s' Hok Hst) as (Hok' & Hsid' & Hc). split; [done|]. split; [congruence|].
    destruct (revision (checklist s') =? revision (checklist s))%Z eqn:E.
    + apply Z.eqb_eq in E. destruct Hc as [->|Hc]; [by exists l|lia].
    + apply Z.eqb_neq in E. destruct Hc as [Hc|Hc]; [by rewrite Hc in E|].
      rewrite latest_snapshot_app, Hl. unfold snapshot_event. rewrite Hsid', Hsid. cbn [obind latest_snapshot].
      change (json_is (py_get (u "type") (build_todo_snapshot_payload _ _ _ _)) _) with true.
      change (json_is (py_get (u "gateway_session_id") (build_todo_snapshot_payload _ _ _ _)) sid)
        with (bool_decide (sid = sid)).
      rewrite bool_decide_eq_true_2 by done. cbn [negb orb].
      destruct l as [ev|]; [|eexists; split; [done|]; by exists actor, op]. destruct Hm as (actor' & op' & ->).
      rewrite !snapshot_get_revision. cbn [obind].
      rewrite (proj2 (Z.leb_le _ _)) by lia. eexists. split; [done|]. by exists actor, op.
  - split; [done|]. split; [done|]. exists l. split; [|done].
    rewrite latest_snapshot_app, Hl. cbn [obind latest_snapshot]. unfold snapshot_of in Hev.
    rewrite <- negb_andb, Hev. done.
Qed.

(** ** Lemmas: marking *)
Section pointwise.
Context (R : TodoItem -> TodoItem -> Prop) (f : TodoItem -> TodoItem)
  (HR : forall i, R i i) (HRf : forall i, R i (f i)).

Lemma Forall2_refl_items l : Forall2 R l l.
Proof. induction l; constructor; auto. Qed.

Lemma Forall2_map_item l : Forall2 R l (f <$> l).
Proof. induction l; constructor; auto. Qed.

Lemma Forall2_alter_item l n : Forall2 R l (alter f n l).
Proof.
  revert n. induction l as [|i l IH]; intros [|n]; [constructor|constructor| |].
  - constructor; [auto|apply Forall2_refl_items].
  - constructor; [auto|apply IH].
Qed.

Lemma Forall2_alter_phases g ps n :
  (forall p, Forall2 R (items p) (items (g p))) ->
  Forall2 R (phase_items ps) (phase_items (alter g n ps)).
Proof.
  intros Hg. revert n. induction ps as [|p ps IH]; intros [|n]; try by constructor.
  - apply Forall2_app; [apply Hg|]. apply Forall2_refl_items.
  - apply Forall2_app; [apply Forall2_refl_items|]. apply IH.
Qed.

Lemma Forall2_map_phases ps : Forall2 R (phase_items ps) (phase_items (map_items f <$> ps)).
Proof.
  induction ps as [|p ps IH]; [constructor|]. apply Forall2_app; [apply Forall2_map_item|done].
Qed.
End pointwise.

Definition settled_status (s : TodoStatus) : bool :=
  match s with Completed | Abandoned => true | _ => false end.

(** The effect of [done] and [drop] on one item: settled work is untouched,
    other work keeps its identity and is either settled or left as it was. *)
Definition marked (st : TodoStatus) (i j : TodoItem) : Prop :=
  id j = id i /\ content j = content i /\ (settled_status (status i) = true -> j = i) /\
  (status j = st \/ status j = status i \/ (is_open (status i) = true /\ is_open (status j) = true)).

Lemma mark_item_marked st i : marked st i (mark_item st i).
Proof. unfold marked, mark_item. destruct (status i) eqn:E; simpl; rewrite ?E; auto 6; by repeat split; auto. Qed.

Lemma marked_renorm st i j k :
  settled_status st = true -> marked st i j -> renorm j k -> marked st i k.
Proof.
  unfold marked, renorm. intros Hst (Hi & Hc & Hs & Hm) (Hi' & Hc' & Hb & Hn).
  split; [congruence|]. split; [congruence|]. split.
  - intros Hi0. specialize (Hs Hi0). subst j. destruct Hn as [Hn|[Ho _]].
    + destruct i, k; simpl in *. by subst.
    + by destruct (status i).
  - destruct Hn as [->|[Ho Ho']]; [done|]. destruct Hm as [Hm|[Hm|[Hm _]]].
    + rewrite Hm in Ho. by destruct st.
    + right. right. split; [by rewrite <- Hm|done].
    + by right; right.
Qed.

Lemma Forall2_compose {A} (R1 R2 R3 : A -> A -> Prop) l1 l2 l3 :
  (forall x y z, R1 x y -> R2 y z -> R3 x z) -> Forall2 R1 l1 l2 -> Forall2 R2 l2 l3 -> Forall2 R3 l1 l3.
Proof. intros HR H. revert l3. induction H; inversion 1; subst; constructor; eauto. Qed.

Lemma mark_spec c op st c' :
  settled_status st = true -> mark c op st = Ret c' ->
  exists ps, settle c ps = Ret c' /\ Forall2 (marked st) (all_items c) (phase_items ps) /\
    (py_get (u "item") op = JNull -> py_get (u "phase") op = JNull ->
     ps = (map_items (mark_item st) <$> phases c)).
Proof.
  intros Hst H. unfold mark in H.
  assert (forall i, marked st i i) as Hrefl by (unfold marked; auto 6).
  pose proof (mark_item_marked st) as Hm.
  destruct (py_get (u "item") op) eqn:Hi.
  1: destruct (py_get (u "phase") op) eqn:Hp.
  1: { destruct (py_get (u "all") op) as [|[]| | | | |]; try done. eexists. split; [exact H|].
       split; [by apply Forall2_map_phases|done]. }
  1-6: apply obind_ret_inv in H as (nm & _ & H); apply obind_ret_inv in H as (n & _ & H);
       eexists; (split; [exact H|]); (split; [|done]);
       (apply Forall2_alter_phases; [done|]); intros p; by apply Forall2_map_item.
  all: apply obind_ret_inv in H as (nm & _ & H); apply obind_ret_inv in H as (ij & _ & H);
       eexists; (split; [exact H|]); (split; [|done]); unfold with_item;
       (apply Forall2_alter_phases; [done|]); intros p; by apply Forall2_alter_item.
Qed.

(** Marking everything leaves nothing open or blocked. *)
Lemma mark_all_closed st ps :
  settled_status st = true ->
  Forall (fun i => settled_status (status i) = true) (normal_items (phase_items (map_items (mark_item st) <$> ps))).
Proof.
  intros Hst. set (l := phase_items _).
  assert (Forall (fun i => settled_status (status i) = true) l) as Hl.
  { unfold l. apply Forall_phase_items. rewrite Forall_fmap. apply Forall_true. intros p. simpl.
    rewrite Forall_fmap. apply Forall_true. intros i. simpl. unfold mark_item.
    destruct (status i) eqn:E; simpl; rewrite ?E; done. }
  pose proof (normal_items_renorm l) as HF. clearbody l. induction HF as [|i j l l' HR _ IH]; [done|].
  apply Forall_cons in Hl as [Hi Hl]. apply Forall_cons. split; [|auto].
  destruct HR as (_ & _ & _ & [->|[Ho _]]); [done|]. by destruct (status i).
Qed.

Lemma demote_active_renorm i : renorm i (demote_active i).
Proof.
  unfold demote_active. case_bool_decide as E; [|apply renorm_refl]. repeat split. right. by rewrite E.
Qed.

Lemma Forall2_elem {A B} (R : A -> B -> Prop) l l' x :
  Forall2 R l l' -> x ∈ l -> exists y, y ∈ l' /\ R x y.
Proof.
  intros HF [n Hn]%list_elem_of_lookup. destruct (Forall2_lookup_l _ _ _ _ _ HF Hn) as (y & Hy & HR).
  exists y. split; [by eapply list_elem_of_lookup_2|done].
Qed.

(** The name an operation goes by, and the revision check it passes. *)
Lemma apply_model_op_named c op base sk tokens o :
  (exists s, py_get (u "op") op = JStr s /\ dict_lookup s MODEL_OPS = Some o) -> o <> op_view ->
  apply_model_op c op base sk tokens =
  if match base with
     | Some b => negb (analyst_revision c =? 0)%Z && (b <? analyst_revision c)%Z
     | None => false
     end
  then Raise stale_revision
  else let? c' := (match o with
    | op_init => apply_init_op c op sk tokens
    | op_append => apply_append c op tokens
    | op_start => let? t := parse_text TODO_CONTENT_MAX_CHARS (py_get (u "item") op) in
                  let? ij := find_item c t in apply_start c ij
    | op_block => let? t := parse_text TODO_CONTENT_MAX_CHARS (py_get (u "item") op) in
                  let? ij := find_item c t in apply_block c op ij
    | op_unblock => let? t := parse_text TODO_CONTENT_MAX_CHARS (py_get (u "item") op) in
                  let? ij := find_item c t in apply_unblock c ij
    | op_done => mark c op Completed
    | op_drop => mark c op Abandoned
    | _ => apply_rm c op
    end) in Ret (c', true).
Proof.
  intros (s & Hs & Ho) Hv. unfold apply_model_op. rewrite Hs, Ho. cbn [obind].
  destruct o; try done; by destruct (match base with Some _ => _ | None => false end).
Qed.

(** ** Properties *)

(** C8: Whatever the model, the analyst and the runner do, in any order, the
    checklist keeps unique phase names, contents and ids, has a reason exactly
    on its blocked items, at most one item in progress and one whenever
    anything is pending; the model never claims a revision that does not
    exist, never more than three reminders are sent in a turn, and every step
    either keeps the checklist or advances its revision by one. *)
Theorem checklist_always_wellformed sid scope s :
  rtc todo_step (new_state EMPTY_CHECKLIST sid scope) s ->
  checklist_wf (checklist s) /\
  (0 <= model_seen_revision s <= revision (checklist s))%Z /\
  reminders_sent s <= TODO_REMINDER_BOUND /\
  forall s', todo_step s s' ->
    checklist s' = checklist s \/ revision (checklist s') = (revision (checklist s) + 1)%Z.
Proof.
  intros Hs. pose proof (steps_ok _ _ Hs (new_state_ok sid scope)) as Hok.
  split; [apply Hok|]. split; [apply Hok|]. split; [apply Hok|].
  intros s' Hst. by apply (step_ok s s' Hok Hst).
Qed.

(** C29: An analyst edit the model has not seen cannot be overwritten: until
    then every model operation leaves the checklist alone, a well-named
    mutation is answered [stale_revision], and that answer shows the model the
    current revision, so its next attempt is not stale. *)
Theorem unseen_analyst_edit_protected op sk tokens s o name_ :
  (0 < analyst_revision (checklist s) <= revision (checklist s))%Z ->
  (model_seen_revision s < analyst_revision (checklist s))%Z ->
  py_get (u "op") (effective_op op s) = JStr name_ -> dict_lookup name_ MODEL_OPS = Some o ->
  checklist (apply_model op sk tokens s).1 = checklist s /\
  (o <> op_view -> apply_model op sk tokens s =
     (set_seen (revision (checklist s)) s, Raise stale_revision)) /\
  model_seen_revision (apply_model op sk tokens s).1 = revision (checklist s) /\
  (forall c', checklist (apply_model op sk tokens s).1 = c' ->
     (analyst_revision c' <= model_seen_revision (apply_model op sk tokens s).1)%Z).
Proof.
  intros Har Hseen Hn Ho.
  assert (o <> op_view -> apply_model op sk tokens s =
     (set_seen (revision (checklist s)) s, Raise stale_revision)) as Hst.
  { intros Hv. unfold apply_model. rewrite (apply_model_op_named _ _ _ _ _ o) by eauto.
    rewrite (proj2 (Z.eqb_neq _ 0)) by lia. by rewrite (proj2 (Z.ltb_lt _ _) Hseen). }
  assert ((apply_model op sk tokens s).1 = set_seen (revision (checklist s)) s) as Hs1.
  { destruct (decide (o = op_view)) as [->|Hv]; [|by rewrite Hst].
    unfold apply_model, apply_model_op. by rewrite Hn, Ho. }
  rewrite Hs1. split; [done|]. split; [done|]. split; [done|]. intros c' <-. simpl. lia.
Qed.

(** A nested skill's [init] never discards outer work: every item of the
    checklist survives with its id, text and blocker, in the same order, and
    with its status up to which open item is active. *)
Theorem nested_init_keeps_outer_work c op sk tokens c' skill outer :
  init_skills op sk = Ret (Some skill, Some outer) -> skill <> outer -> open_items c <> [] ->
  apply_init_op c op sk tokens = Ret c' ->
  (forall i, i ∈ all_items c -> exists j, j ∈ all_items c' /\ renorm i j) /\
  (id <$> all_items c) `sublist_of` (id <$> all_items c').
Proof.
  intros Hsk Hne Hop H. unfold apply_init_op in H. rewrite Hsk in H. cbn [obind] in H.
  destruct (parse_phases false _ _) as [ids1 [incoming|]]; [|done]. cbn [obind] in H.
  rewrite bool_decide_eq_false_2 in H by done. rewrite bool_decide_eq_false_2 in H by done.
  cbn [negb] in H. set (demoted := map_items demote_active <$> phases c) in H.
  apply settle_ok in H as (_ & _ & _ & Hit & _).
  set (n := default _ _) in Hit. rewrite !phase_items_app in Hit.
  set (scoped := phase_items (scope_incoming _ _ _ _)) in Hit.
  assert (phase_items (take n demoted) ++ phase_items (drop n demoted) = phase_items demoted) as Hsplit
    by (by rewrite <- phase_items_app, take_drop).
  assert (Forall2 renorm (all_items c) (phase_items demoted)) as HF
    by (apply Forall2_map_phases; [apply demote_active_renorm]).
  pose proof (normal_items_renorm (phase_items (take n demoted) ++ scoped ++ phase_items (drop n demoted))) as HN.
  rewrite <- Hit in HN. split.
  - intros i Hi. destruct (Forall2_elem _ _ _ _ HF Hi) as (j & Hj & Hij).
    rewrite <- Hsplit in Hj. destruct (Forall2_elem _ _ _ j HN) as (k & Hk & Hjk).
    { apply elem_of_app in Hj as [?|?]; rewrite !elem_of_app; auto. }
    exists k. split; [done|]. by eapply renorm_trans.
  - destruct (renorm_fields _ _ HN) as [-> _]. destruct (renorm_fields _ _ HF) as [<- _].
    rewrite <- Hsplit, !fmap_app. apply sublist_app; [done|]. by apply sublist_inserts_l.
Qed.

(** [done] and [drop] settle only work that is not settled yet: items keep
    their order, ids and texts, completed and abandoned items are unchanged,
    every other item is settled as asked or left (up to the active pointer),
    and with [all] nothing stays open or blocked. *)
Theorem settling_spares_settled_work c op st c' :
  settled_status st = true -> mark c op st = Ret c' ->
  Forall2 (marked st) (all_items c) (all_items c') /\
  (py_get (u "item") op = JNull -> py_get (u "phase") op = JNull ->
   Forall (fun j => settled_status (status j) = true) (all_items c')).
Proof.
  intros Hst H. destruct (mark_spec _ _ _ _ Hst H) as (ps & Hs & HF & Hall).
  apply settle_ok in Hs as (_ & _ & _ & Hit & _). rewrite Hit. split.
  - eapply Forall2_compose; [|exact HF|apply normal_items_renorm]. intros i j k. by apply marked_renorm.
  - intros Hi Hp. rewrite (Hall Hi Hp). by apply mark_all_closed.
Qed.

(** The journal is the checklist: when every accepted change is followed by
    its snapshot, folding the journal of any run of the session, whatever
    other events and other sessions' snapshots it holds, gives back exactly
    the live checklist; and a snapshot decodes to the checklist it was made of. *)
Theorem journal_fold_is_current sid s evs :
  journaled sid s evs ->
  fold_todo_snapshots evs (Some sid) = Ret (checklist s) /\
  forall actor op, from_payload (snapshot_event actor op s) = Ret (checklist s).
Proof.
  intros Hj. destruct (journaled_latest _ _ _ Hj) as (_ & _ & l & Hl & Hm). split.
  - unfold fold_todo_snapshots. rewrite Hl. cbn [obind]. destruct l as [ev|]; [|by rewrite Hm].
    destruct Hm as (actor & op & ->). apply from_payload_snapshot.
  - intros. apply from_payload_snapshot.
Qed.

End operations.

(** ** Witnesses *)
Definition demo_todo_env : TodoEnv :=
  {| py_repr := fun _ => []; py_lower := sql_lower; is_runner_injected_user_text := fun _ => false |}.
#[local] Existing Instance demo_todo_env.

Definition demo_sk : SkillContext := mkSkills None None.
Definition demo_phase (n : str) (l : list str) : json :=
  JDict [(u "name", JStr n); (u "items", JList (JStr <$> l))].
Definition demo_init : list (str * json) :=
  [(u "op", JStr (u "init")); (u "phases", JList [demo_phase (u "Plan") [u "read"; u "write"]])].
Definition demo_s0 : TodoSessionState := new_state EMPTY_CHECKLIST (u "sess") false.
Definition demo_s1 : TodoSessionState := (apply_model demo_init demo_sk [u "00000001"; u "00000002"] demo_s0).1.
Definition demo_edit : json := JList [demo_phase (u "Plan") [u "review"]].
Definition demo_s2 : TodoSessionState := (apply_analyst 1 demo_edit [u "00000003"] demo_s1).1.

Lemma demo_step01 : todo_step demo_s0 demo_s1.
Proof. exact (ts_model demo_init demo_sk _ demo_s0). Qed.
Lemma demo_step12 : todo_step demo_s1 demo_s2.
Proof. exact (ts_analyst 1 demo_edit _ demo_s1). Qed.
Lemma demo_revision2 : revision (checklist demo_s2) = 2%Z.
Proof. vm_compute. reflexivity. Qed.

Lemma checklist_always_wellformed_witness :
  revision (checklist demo_s2) = 2%Z /\ checklist_wf (checklist demo_s2).
Proof.
  split; [exact demo_revision2|].
  refine (proj1 (checklist_always_wellformed (u "sess") false demo_s2 _)).
  exact (rtc_l _ _ _ _ demo_step01 (rtc_once _ _ demo_step12)).
Defined.

Definition demo_done : list (str * json) := [(u "op", JStr (u "done")); (u "all", JBool true)].

Lemma demo_unseen :
  (0 < analyst_revision (checklist demo_s2) <= revision (checklist demo_s2))%Z /\
  (model_seen_revision demo_s2 < analyst_revision (checklist demo_s2))%Z.
Proof. vm_compute. split; [split; [reflexivity|discriminate]|reflexivity]. Qed.

Lemma unseen_analyst_edit_protected_witness :
  checklist (apply_model demo_done demo_sk [] demo_s2).1 = checklist demo_s2.
Proof.
  refine (proj1 (unseen_analyst_edit_protected demo_done demo_sk [] demo_s2 op_done (u "done")
    (proj1 demo_unseen) (proj2 demo_unseen) _ _)); vm_compute; reflexivity.
Defined.

Definition demo_nested : list (str * json) :=
  [(u "op", JStr (u "init")); (u "_active_skill", JStr (u "inner")); (u "_parent_skill", JStr (u "outer"));
   (u "phases", JList [demo_phase (u "Plan") [u "probe"]])].
Definition demo_nested_result : outcome todo_error TodoChecklist :=
  apply_init_op (checklist demo_s1) demo_nested demo_sk [u "00000009"].
Definition demo_nested_checklist : TodoChecklist :=
  match demo_nested_result with Ret c => c | Raise _ => EMPTY_CHECKLIST end.
Lemma demo_nested_ok : demo_nested_result = Ret demo_nested_checklist.
Proof. vm_compute. reflexivity. Qed.
Lemma demo_nested_open : open_items (checklist demo_s1) <> [].
Proof. vm_compute. discriminate. Qed.

Lemma nested_init_keeps_outer_work_witness :
  (id <$> all_items (checklist demo_s1)) `sublist_of` (id <$> all_items demo_nested_checklist).
Proof.
  refine (proj2 (nested_init_keeps_outer_work (checklist demo_s1) demo_nested demo_sk [u "00000009"]
    demo_nested_checklist (u "inner") (u "outer") _ _ demo_nested_open demo_nested_ok));
    [vm_compute; reflexivity|vm_compute; discriminate].
Defined.

Definition demo_marked : TodoChecklist :=
  match mark (checklist demo_s1) demo_done Completed with Ret c => c | Raise _ => EMPTY_CHECKLIST end.
Lemma demo_mark_ok : mark (checklist demo_s1) demo_done Completed = Ret demo_marked.
Proof. vm_compute. reflexivity. Qed.

Lemma settling_spares_settled_work_witness :
  Forall (fun j => settled_status (status j) = true) (all_items demo_marked).
Proof.
  refine (proj2 (settling_spares_settled_work (checklist demo_s1) demo_done Completed demo_marked
    eq_refl demo_mark_ok) _ _); reflexivity.
Defined.

Definition demo_journal : list (list (str * json)) :=
  (if (revision (checklist demo_s1) =? revision (checklist demo_s0))%Z then []
   else [] ++ [snapshot_event Agent (u "init") demo_s1]).

Lemma journal_fold_is_current_witness :
  fold_todo_snapshots demo_journal (Some (u "sess")) = Ret (checklist demo_s1).
Proof.
  refine (proj1 (journal_fold_is_current (u "sess") demo_s1 demo_journal _)).
  exact (jr_step (u "sess") demo_s0 demo_s1 [] Agent (u "init") (jr_new (u "sess") false) demo_step01).
Defined.

End TodoChecklist.
