(* ===== verification/ApprovalPolicy.v ===== *)
(** * ApprovalPolicy: approval requests and what a decision authorizes

    Models [src/agent_gateway/approval_policy.py]: the request record with the
    validation of [ApprovalRequest.__post_init__], the shaping of a policy
    decision ([constrain_approval_decision], [apply_decision_to_request]), the
    two questions the rest of the gateway asks of a stored request
    ([approval_is_executable], [approval_reuse_scope_authorized]) and
    [build_approval_request]. The request's fields are grouped by who writes
    them: call identity, frozen constraint, policy columns, decision state.
    Times are integers. [validate_approval_identity] belongs to the server
    policy package and is an operation of the class [PolicyEnv]. *)
From S2P Require Import Prelude.

Module ApprovalPolicy.

Inductive ToolClass :=
| read | pure_transform | artifact_write | state_write | external_write | portfolio_config | irreversible.
#[global] Instance ToolClass_eq : EqDecision ToolClass.
Proof. solve_decision. Defined.

Definition ToolClass_text (c : ToolClass) : str :=
  match c with
  | read => u "read" | pure_transform => u "pure_transform" | artifact_write => u "artifact_write"
  | state_write => u "state_write" | external_write => u "external_write"
  | portfolio_config => u "portfolio_config" | irreversible => u "irreversible"
  end.

Definition all_tool_classes : list ToolClass :=
  [read; pure_transform; artifact_write; state_write; external_write; portfolio_config; irreversible].
Definition MONEY_BOUNDARY_TOOL_CLASSES : list ToolClass := [irreversible].
Definition STANDING_APPROVED_TOOL_CLASSES : list ToolClass :=
  filter (fun c => c ∉ MONEY_BOUNDARY_TOOL_CLASSES) all_tool_classes.

(** The literal types; a value outside the literals is the last constructor. *)
Inductive ApprovalConstraint := standard | fresh_human_owner | legacy_unknown | other_constraint (s : str).
Inductive AuthorizationMode :=
| HUMAN | AUTO_ALLOW | CACHE_HIT | PERSISTENT_GRANT | OWNER_CONTROL_PLANE | other_mode (s : str).
Inductive ApprovalReuseMode := legacy | disabled | exact | other_reuse (s : str).
Inductive ApprovalIdentitySource := change_set | reviewed_change_binding | other_source (s : str).
Inductive ApprovalState := created | auto_approved | auto_denied | pending_user | approved | denied | expired.
Inductive ApprovalOutcome := auto_approve | auto_deny | request_user_approval.
Inductive ApprovalNotificationPolicy := notify_auto | notify_interrupt | notify_skip.
#[global] Instance ApprovalConstraint_eq : EqDecision ApprovalConstraint.
Proof. solve_decision. Defined.
#[global] Instance AuthorizationMode_eq : EqDecision AuthorizationMode.
Proof. solve_decision. Defined.
#[global] Instance ApprovalReuseMode_eq : EqDecision ApprovalReuseMode.
Proof. solve_decision. Defined.
#[global] Instance ApprovalState_eq : EqDecision ApprovalState.
Proof. solve_decision. Defined.
#[global] Instance ApprovalIdentitySource_eq : EqDecision ApprovalIdentitySource.
Proof. solve_decision. Defined.

(** The call a request is about. *)
Record RequestIdentity := mkIdentity {
  approval_id : str;
  tool_call_id : str;
  parent_approval_id : option str;
  approval_chain_id : str;
  delegation_id : option str;
  request_id : str;
  session_id : option str;
  run_id : option str;
  user_id : str;
  profile : str;
  channel : str;
  tool_name : str;
  tool_class : ToolClass;
  requested_at : Z;
  tenant_id : option str;
  skill : option str
}.

(** The frozen terms under which it can be approved. *)
Record RequestConstraint := mkConstraint {
  approval_constraint : ApprovalConstraint;
  required_owner_user_id : option str;
  identity_source : option ApprovalIdentitySource;
  change_set_id : option str;
  change_hash : option str;
  base_vector_hash : option str;
  reviewed_change_binding_digest : option str;
  review_reference : option (list (str * json));
  execution_semantics_digest : option str;
  approval_reuse_mode : ApprovalReuseMode;
  approval_reuse_key : option str
}.

(** What the policy decision writes. *)
Record RequestPolicy := mkPolicy {
  tool_args_redacted : list (str * json);
  args_hash : str;
  reason : option str;
  blast_radius_summary : str;
  args_predicate : option (list (str * json));
  policy_id : str;
  policy_version : str;
  policy_bundle_hash : str;
  persistent_grant_scope : option str;
  notification_policy : ApprovalNotificationPolicy;
  authorization_mode : AuthorizationMode;
  grant_reference : option str;
  cache_reference : option str
}.

(** The decision state. *)
Record RequestState := mkReqState {
  state : ApprovalState;
  state_version : Z;
  expires_at : option Z;
  decided_at : option Z;
  decider_id : option str;
  decider_role : option str;
  decision : option ApprovalState;
  decision_reason : option str
}.

Record ApprovalRequest := mkRequest {
  rq_id : RequestIdentity;
  rq_terms : RequestConstraint;
  rq_policy : RequestPolicy;
  rq_state : RequestState;
  notification : option (list (str * json))
}.

Inductive policy_error := ApprovalConstraintError | ValueError | TypeError.

Class PolicyEnv := { validate_approval_identity : ApprovalRequest -> bool }.

(** ** Validation *)
(** [^[0-9a-f]{64}$] *)
Definition hex_digest (s : str) : bool := (length s =? 64) && forallb is_lower_hex s.
(** [^sha256:[0-9a-f]{64}$] and [^reviewed-change:v1:[0-9a-f]{64}$] *)
Definition prefixed_digest (p : str) (s : str) : bool := py_startswith p s && hex_digest (drop (length p) s).
Definition sha256_digest : str -> bool := prefixed_digest (u "sha256:").
Definition reviewed_change_id : str -> bool := prefixed_digest (u "reviewed-change:v1:").

Definition matches_re (re : str -> bool) (v : option str) : bool :=
  match v with Some s => re s | None => false end.
(** [isinstance(v, str) and v and v == v.strip()] *)
Definition canonical_text (v : option str) : bool :=
  match v with Some s => negb (bool_decide (s = [])) && bool_decide (s = py_strip s) | None => false end.
(** [not v] of an optional string *)
Definition falsy (v : option str) : bool := match v with Some (_ :: _) => false | _ => true end.

Section policy.
Context {env : PolicyEnv}.

(** The identity part of [__post_init__]. *)
Definition check_identity (q : ApprovalRequest) : outcome policy_error unit :=
  let t := rq_terms q in
  match identity_source t with
  | None =>
    if is_none (change_set_id t) && is_none (change_hash t) && is_none (base_vector_hash t)
       && is_none (reviewed_change_binding_digest t) && is_none (review_reference t)
       && is_none (execution_semantics_digest t)
    then Ret tt else Raise ValueError
  | Some (other_source _) => Raise ValueError
  | Some change_set =>
    if matches_re hex_digest (change_set_id t) && matches_re hex_digest (change_hash t)
       && matches_re hex_digest (base_vector_hash t)
       && is_none (reviewed_change_binding_digest t) && is_none (execution_semantics_digest t)
       && validate_approval_identity q
    then Ret tt else Raise ValueError
  | Some reviewed_change_binding =>
    if matches_re sha256_digest (change_hash t) && matches_re sha256_digest (base_vector_hash t)
       && matches_re reviewed_change_id (change_set_id t)
       && matches_re sha256_digest (reviewed_change_binding_digest t)
       && matches_re sha256_digest (execution_semantics_digest t)
       && validate_approval_identity q
    then Ret tt else Raise ValueError
  end.

(** The constraint, authorization and reuse parts. *)
Definition check_constraint (t : RequestConstraint) : outcome policy_error unit :=
  match approval_constraint t with
  | other_constraint _ => Raise ApprovalConstraintError
  | fresh_human_owner =>
    if canonical_text (required_owner_user_id t) then Ret tt else Raise ApprovalConstraintError
  | _ => if is_none (required_owner_user_id t) then Ret tt else Raise ApprovalConstraintError
  end.

Definition check_authorization (p : RequestPolicy) : outcome policy_error unit :=
  match authorization_mode p with
  | other_mode _ => Raise ValueError
  | m =>
    if bool_decide (m = CACHE_HIT) && falsy (cache_reference p) then Raise ValueError
    else if bool_decide (m = PERSISTENT_GRANT) && falsy (grant_reference p) then Raise ValueError
    else if negb (bool_decide (m = CACHE_HIT)) && negb (is_none (cache_reference p)) then Raise ValueError
    else if negb (bool_decide (m = PERSISTENT_GRANT)) && negb (is_none (grant_reference p)) then Raise ValueError
    else Ret tt
  end.

Definition check_reuse (t : RequestConstraint) : outcome policy_error unit :=
  match approval_reuse_mode t with
  | other_reuse _ => Raise ValueError
  | exact => if canonical_text (approval_reuse_key t) then Ret tt else Raise ValueError
  | _ => if is_none (approval_reuse_key t) then Ret tt else Raise ValueError
  end.

(** [ApprovalRequest.__post_init__] *)
Definition post_init (q : ApprovalRequest) : outcome policy_error ApprovalRequest :=
  let? _ := check_constraint (rq_terms q) in
  let? _ := check_authorization (rq_policy q) in
  let? _ := check_reuse (rq_terms q) in
  let? _ := check_identity q in
  Ret q.

(** [revalidate_approval_request] *)
Definition revalidate_approval_request (q : ApprovalRequest) : outcome policy_error ApprovalRequest := post_init q.

(** ** Decisions *)
Record ApprovalDecision := mkDecision {
  outcome_ : ApprovalOutcome;
  d_reason : str;
  expiry_seconds : option Z;
  allow_persistent_grant : bool;
  persistent_grant_scope_hint : option str;
  redacted_args_for_audit : option (list (str * json));
  modified_tool_args : option (list (str * json));
  d_args_predicate : option (list (str * json));
  d_notification_policy : ApprovalNotificationPolicy;
  d_policy_id : str;
  d_policy_version : str;
  d_grant_reference : option str
}.

(** [replace(decision, allow_persistent_grant=..., persistent_grant_scope_hint=..., grant_reference=...)] *)
Definition with_reuse (allow : bool) (scope grant : option str) (d : ApprovalDecision) : ApprovalDecision :=
  mkDecision (outcome_ d) (d_reason d) (expiry_seconds d) allow scope (redacted_args_for_audit d)
    (modified_tool_args d) (d_args_predicate d) (d_notification_policy d) (d_policy_id d)
    (d_policy_version d) grant.

(** [constrain_approval_decision] *)
Definition constrain_approval_decision (q : ApprovalRequest) (d : ApprovalDecision) : ApprovalDecision :=
  let scope := persistent_grant_scope_hint d in
  match approval_reuse_mode (rq_terms q) with
  | disabled => with_reuse false None None d
  | exact =>
    let scope_matches := bool_decide (scope = approval_reuse_key (rq_terms q)) in
    with_reuse (allow_persistent_grant d && scope_matches)
      (if scope_matches && (allow_persistent_grant d || negb (is_none (d_grant_reference d))) then scope else None)
      (if scope_matches then d_grant_reference d else None) d
  | _ =>
    if negb (allow_persistent_grant d) && is_none (d_grant_reference d)
    then with_reuse (allow_persistent_grant d) None (d_grant_reference d) d
    else d
  end.

(** [approval_is_executable] *)
Definition approval_is_executable (q : ApprovalRequest) : bool :=
  match approval_constraint (rq_terms q) with
  | legacy_unknown => false
  | fresh_human_owner =>
    bool_decide (state (rq_state q) = approved)
    && bool_decide (decider_id (rq_state q) = required_owner_user_id (rq_terms q))
  | _ => bool_decide (state (rq_state q) = approved) || bool_decide (state (rq_state q) = auto_approved)
  end.

(** [approval_reuse_scope_authorized] *)
Definition approval_reuse_scope_authorized (q : ApprovalRequest) : bool :=
  match persistent_grant_scope (rq_policy q) with
  | None | Some [] => false
  | Some scope =>
    match approval_reuse_mode (rq_terms q) with
    | legacy => true
    | exact => bool_decide (Some scope = approval_reuse_key (rq_terms q))
    | _ => false
    end
  end.

(** [apply_decision_to_request] *)
Definition apply_decision_to_request (q : ApprovalRequest) (d0 : ApprovalDecision) : outcome policy_error ApprovalRequest :=
  let d := constrain_approval_decision q d0 in
  let p := rq_policy q in
  let '(mode, grant) :=
    match d_grant_reference d with
    | Some g => (PERSISTENT_GRANT, Some g)
    | None =>
      (match outcome_ d, authorization_mode p with
       | auto_approve, HUMAN => AUTO_ALLOW
       | _, m => m
       end, grant_reference p)
    end in
  post_init
    (mkRequest (rq_id q) (rq_terms q)
       (mkPolicy (tool_args_redacted p) (args_hash p) (Some (d_reason d)) (blast_radius_summary p)
          (d_args_predicate d) (d_policy_id d) (d_policy_version d) (policy_bundle_hash p)
          (persistent_grant_scope_hint d) (d_notification_policy d) mode grant (cache_reference p))
       (rq_state q) (notification q)).

(** ** Building a request *)
Record RunContext := mkRunContext {
  rc_user_id : str;
  rc_request_id : str;
  rc_session_id : option str;
  rc_run_id : option str;
  rc_profile : str;
  rc_channel : str;
  rc_skill : option str;
  rc_tenant_id : option str;
  rc_parent_approval_id : option str;
  rc_delegation_id : option str;   (* [delegation.delegation_id] *)
  rc_policy_bundle_hash : str
}.

(** The keyword arguments of [ApprovalIdentity]. *)
Record ApprovalIdentity := mkApprovalIdentity {
  ai_identity_source : option ApprovalIdentitySource;
  ai_change_set_id : option str;
  ai_change_hash : option str;
  ai_base_vector_hash : option str;
  ai_reviewed_change_binding_digest : option str;
  ai_review_reference : option (list (str * json));
  ai_execution_semantics_digest : option str
}.

(** [build_approval_request]; [new_id] is the fresh approval id, [now] the clock. *)
Definition build_approval_request (new_id : str) (now : Z) (call_id tool : str) (cls : ToolClass)
    (redacted : list (str * json)) (hash : str) (rc : RunContext) (rsn : option str) (st : ApprovalState)
    (ident : ApprovalIdentity) (con : ApprovalConstraint) (owner : option str)
    (reuse : ApprovalReuseMode) (key : option str) : outcome policy_error ApprovalRequest :=
  post_init
    (mkRequest
       (mkIdentity new_id call_id (rc_parent_approval_id rc)
          (match rc_parent_approval_id rc with Some (c :: p) => c :: p | _ => new_id end)
          (rc_delegation_id rc) (rc_request_id rc) (rc_session_id rc) (rc_run_id rc) (rc_user_id rc)
          (rc_profile rc) (rc_channel rc) tool cls now (rc_tenant_id rc) (rc_skill rc))
       (mkConstraint con owner (ai_identity_source ident) (ai_change_set_id ident) (ai_change_hash ident)
          (ai_base_vector_hash ident) (ai_reviewed_change_binding_digest ident) (ai_review_reference ident)
          (ai_execution_semantics_digest ident) reuse key)
       (mkPolicy redacted hash rsn (ToolClass_text cls ++ u ":" ++ tool) None (u "single-user") (u "1")
          (rc_policy_bundle_hash rc) None notify_auto HUMAN None None)
       (mkReqState st 0 None None None None None None) None).

(** ** Lemmas *)
Lemma post_init_ret q q' : post_init q = Ret q' -> q' = q.
Proof.
  unfold post_init. intros (? & _ & (? & _ & (? & _ & (? & _ & [= ->])%obind_ret_inv)%obind_ret_inv)%obind_ret_inv)%obind_ret_inv.
  done.
Qed.

Lemma post_init_inv q q' : post_init q = Ret q' ->
  check_constraint (rq_terms q) = Ret tt /\ check_authorization (rq_policy q) = Ret tt /\
  check_reuse (rq_terms q) = Ret tt /\ check_identity q = Ret tt.
Proof.
  unfold post_init.
  intros ([] & ? & ([] & ? & ([] & ? & ([] & ? & _)%obind_ret_inv)%obind_ret_inv)%obind_ret_inv)%obind_ret_inv.
  done.
Qed.

(** ** Properties *)

(** A decision never widens a request's reuse: whatever the policy answers,
    a request whose reuse is disabled ends without a grant scope and without a
    grant authorization from the decision, an exact-reuse request carries no
    scope but its own frozen key, and reuse is authorized only when the policy
    allowed a persistent grant or used one. *)
Theorem decision_never_widens_reuse q d q' :
  apply_decision_to_request q d = Ret q' ->
  rq_terms q' = rq_terms q /\ rq_state q' = rq_state q /\ rq_id q' = rq_id q /\
  (approval_reuse_mode (rq_terms q) = disabled ->
     persistent_grant_scope (rq_policy q') = None /\ grant_reference (rq_policy q') = grant_reference (rq_policy q)) /\
  (approval_reuse_mode (rq_terms q) = exact ->
     persistent_grant_scope (rq_policy q') = None \/
     persistent_grant_scope (rq_policy q') = approval_reuse_key (rq_terms q)) /\
  (approval_reuse_scope_authorized q' = true ->
     allow_persistent_grant d = true \/ is_Some (d_grant_reference d)).
Proof.
  unfold apply_decision_to_request. destruct (match d_grant_reference _ with Some g => _ | None => _ end) as [mode grant] eqn:Hg.
  intros H. apply post_init_ret in H as ->. simpl.
  unfold approval_reuse_scope_authorized. simpl. unfold constrain_approval_decision in *.
  split; [done|]. split; [done|]. split; [done|]. destruct (approval_reuse_mode (rq_terms q)); simpl in *.
  - split; [done|]. split; [done|]. destruct (allow_persistent_grant d) eqn:Ha; [auto|]. simpl in *.
    destruct (d_grant_reference d) eqn:Hd; simpl in *; [eauto|done].
  - split; [by simplify_eq|]. done.
  - split; [done|]. case_bool_decide as Hs; simpl; [|split; [by left|done]]. split.
    + destruct (_ || _); auto.
    + destruct (allow_persistent_grant d); simpl; [auto|]. destruct (d_grant_reference d); simpl; [eauto|done].
  - split; [done|]. split; [done|]. by destruct (persistent_grant_scope_hint _) as [[|]|].
Qed.

End policy.

(** ** Witnesses *)
Definition demo_policy_env : PolicyEnv := {| validate_approval_identity := fun _ => true |}.
#[local] Existing Instance demo_policy_env.

Definition demo_context : RunContext :=
  mkRunContext (u "alice") (u "req-1") (Some (u "sess")) (Some (u "run-1")) (u "chat") (u "web")
    None None None None (u "unknown").
Definition demo_no_identity : ApprovalIdentity := mkApprovalIdentity None None None None None None None.
Definition demo_built (reuse : ApprovalReuseMode) (key : option str) : outcome policy_error ApprovalRequest :=
  build_approval_request (u "ap-1") 5 (u "call-1") (u "place_order") irreversible [] (u "hash") demo_context
    None created demo_no_identity standard None reuse key.
Definition demo_request : ApprovalRequest :=
  match demo_built disabled None with Ret q => q | Raise _ =>
    mkRequest (mkIdentity [] [] None [] None [] None None [] [] [] [] read 0 None None)
      (mkConstraint legacy_unknown None None None None None None None None legacy None)
      (mkPolicy [] [] None [] None [] [] [] None notify_auto HUMAN None None)
      (mkReqState created 0 None None None None None None) None end.
Definition demo_decision : ApprovalDecision :=
  mkDecision request_user_approval (u "needs a human") None true (Some (u "scope")) None None None
    notify_auto (u "single-user") (u "1") (Some (u "grant-1")).
Definition demo_decided : ApprovalRequest :=
  match apply_decision_to_request demo_request demo_decision with Ret q => q | Raise _ => demo_request end.
Lemma demo_decided_ok : apply_decision_to_request demo_request demo_decision = Ret demo_decided.
Proof. vm_compute. reflexivity. Qed.

Lemma decision_never_widens_reuse_witness :
  persistent_grant_scope (rq_policy demo_decided) = None.
Proof.
  destruct (decision_never_widens_reuse demo_request demo_decision demo_decided demo_decided_ok)
    as (_ & _ & _ & Hd & _).
  apply Hd. vm_compute. reflexivity.
Defined.

End ApprovalPolicy.
