(* ===== verification/ApprovalStore.v ===== *)
(** * ApprovalStore: durable approvals, votes, grants and executable bindings

    Models the transactions of [SQLiteApprovalStore] in
    [src/agent_gateway/approval_store.py] on the tables of [StoreDB]: creation,
    updates and state transitions of approval requests, votes, cancellation and
    abort, executable bindings with their claim and completion, persistent
    grants with revocation and cancellation fences, delegation grants. Every
    method body between [BEGIN] and [COMMIT] is one [transact]; a raise rolls it
    back. A stored row is the request it encodes and is validated again on
    every read, as [_row_to_request] does. The bodies of votes and
    cancellations are shared with [ApprovalDelivery], which adds the delivery of
    an autonomous run; here are the paths without one. JSON text, SHA-256 and
    [str.lower] are operations of the class [StoreEnv]; audit emission is not
    modelled. The theorems are in [ApprovalLifecycle]. *)
From S2P Require Import Prelude ApprovalPolicy.
Import ApprovalPolicy.

Module ApprovalStore.

Class StoreEnv := {
  store_policy_env :: PolicyEnv;
  str_lower : str -> str;
  json_dumps : json -> option str;
  json_loads : str -> option json;
  sha256_hex : str -> str;
  dt_to_text : Z -> str;
  model_validate : str -> json -> option json
}.

(** ** Tables *)
Record ApprovalVote := mkVote {
  vote_id : str;
  v_approval_id : str;
  v_decider_id : str;
  v_decider_role : option str;
  v_approved : bool;
  v_decision_reason : option str;
  v_decided_at : Z
}.

Record PersistentGrant := mkGrant {
  grant_id : str;
  g_user_id : str;
  g_tool_name : str;
  scope_hint : str;
  g_args_predicate : option (list (str * json));
  granted_at : Z;
  g_expires_at : option Z;
  g_revoked_at : option Z;
  granted_via_approval_id : str;
  g_policy_id : str
}.

Record DelegationGrant := mkDelegation {
  dl_delegator_user_id : str;
  dl_delegator_run_id : option str;
  dl_delegator_session_id : option str;
  dl_delegator_profile : str;
  dl_delegator_channel : str;
  bound_excel_session_id : str;
  bound_relay_request_id : str;
  bound_workbook : option str;
  tool_class_ceiling : list ToolClass;
  dl_args_predicate : option (list (str * json));
  window_seconds : Z;
  dl_created_at : Z;
  dl_expires_at : option Z;
  dl_revoked_at : option Z;
  dl_consumed_at : option Z
}.

Inductive execution_state := unclaimed | claimed | completed.
#[global] Instance execution_state_eq : EqDecision execution_state.
Proof. solve_decision. Defined.

Record BindingMeta := mkMeta {
  b_job_id : str;
  b_tool_call_id : str;
  b_nonce : str;
  b_tenant_storage_id : str;
  b_tool_name : str;
  b_exact_backend : option str;
  b_credential_ref : option str;
  b_request_args_hash : str
}.
#[global] Instance BindingMeta_eq : EqDecision BindingMeta.
Proof. solve_decision. Defined.

Record BindingRow := mkBinding {
  b_meta : BindingMeta;
  prepared_input_json : str;
  dispatch_context_json : str;
  operand_digest : str;
  exec_state : execution_state;
  exec_claim_token : option str;
  exec_decision_version : option Z;
  exec_result_json : option str;
  exec_result_digest : option str
}.

Record PolicyGeneration := mkGeneration {
  pg_policy_id : str;
  pg_policy_version : str;
  pg_policy_bundle_hash : str
}.
#[global] Instance PolicyGeneration_eq : EqDecision PolicyGeneration.
Proof. solve_decision. Defined.

(** A row of [approval_root_turns]; its refs are (tool call, nonce) pairs. *)
Record RootTurn := mkTurn {
  rt_tenant_storage_id : str;
  rt_capability_bind_json : str;
  rt_credential_ref : option str;
  rt_effective_grant_json : str;
  rt_grant_digest : str;
  rt_research_binding_json : str;
  rt_selection_snapshot_json : str;
  rt_selection_provenance_json : str;
  rt_approval_route_kind : str;
  rt_generation_ref : str;
  rt_created_at : str;
  rt_snapshot_digest : str;
  rt_executable_refs : list (str * str)
}.
#[global] Instance RootTurn_eq : EqDecision RootTurn.
Proof. solve_decision. Defined.

Record StoreDB := mkStore {
  requests : gmap str ApprovalRequest;
  votes : gmap (str * str) ApprovalVote;
  bindings : gmap str BindingRow;
  grants : gmap str PersistentGrant;
  fences : gmap str Z;
  delegations : gmap str DelegationGrant;
  generations : gmap str (PolicyGeneration * bool);  (* with [is_current] *)
  root_turns : gmap (str * str) RootTurn;            (* by job and turn *)
  notification_outbox : list str;
  raw_patch_claims : gset str;
  reserved_publications : list (str * str * str)     (* active: approval, call, nonce *)
}.

Definition set_requests m db := mkStore m (votes db) (bindings db) (grants db) (fences db) (delegations db) (generations db) (root_turns db) (notification_outbox db) (raw_patch_claims db) (reserved_publications db).
Definition set_votes m db := mkStore (requests db) m (bindings db) (grants db) (fences db) (delegations db) (generations db) (root_turns db) (notification_outbox db) (raw_patch_claims db) (reserved_publications db).
Definition set_bindings m db := mkStore (requests db) (votes db) m (grants db) (fences db) (delegations db) (generations db) (root_turns db) (notification_outbox db) (raw_patch_claims db) (reserved_publications db).
Definition set_grants m db := mkStore (requests db) (votes db) (bindings db) m (fences db) (delegations db) (generations db) (root_turns db) (notification_outbox db) (raw_patch_claims db) (reserved_publications db).
Definition set_fences m db := mkStore (requests db) (votes db) (bindings db) (grants db) m (delegations db) (generations db) (root_turns db) (notification_outbox db) (raw_patch_claims db) (reserved_publications db).
Definition set_delegations m db := mkStore (requests db) (votes db) (bindings db) (grants db) (fences db) m (generations db) (root_turns db) (notification_outbox db) (raw_patch_claims db) (reserved_publications db).
Definition set_generations m db := mkStore (requests db) (votes db) (bindings db) (grants db) (fences db) (delegations db) m (root_turns db) (notification_outbox db) (raw_patch_claims db) (reserved_publications db).
Definition set_root_turns m db := mkStore (requests db) (votes db) (bindings db) (grants db) (fences db) (delegations db) (generations db) m (notification_outbox db) (raw_patch_claims db) (reserved_publications db).
Definition set_outbox m db := mkStore (requests db) (votes db) (bindings db) (grants db) (fences db) (delegations db) (generations db) (root_turns db) m (raw_patch_claims db) (reserved_publications db).

Inductive binding_code :=
| missing_binding | nonce_mismatch | tenant_mismatch | call_identity_mismatch | operand_mismatch
| decision_mismatch | execution_outcome_unknown | claim_token_mismatch | result_mismatch.

Inductive turn_code := missing_root_turn | turn_tenant_mismatch | snapshot_mismatch | turn_link_mismatch.

Inductive store_error :=
| PolicyFailure (e : policy_error)
| StoreKeyError
| StoreValueError
| StoreRuntimeError
| StoreIntegrityError
| RawPatchAuthorizationError
| ApprovalRemoteReservationActive
| PersistentGrantCancellationFenced
| ApprovalExecutableBindingError (code : binding_code)
| RootTurnRecordError (code : turn_code).

Abbreviation A := (SE StoreDB store_error).

Definition lift_policy {X} (o : outcome policy_error X) : A X :=
  match o with Ret x => se_ret x | Raise e => se_raise (PolicyFailure e) end.
Definition guard (b : bool) (e : store_error) : A unit := if b then se_ret tt else se_raise e.
Definition binding_error {X} (c : binding_code) : A X := se_raise (ApprovalExecutableBindingError c).

(** [state in TERMINAL_STATES] *)
Definition is_terminal_state (s : ApprovalState) : bool :=
  match s with approved | denied | auto_approved | auto_denied | expired => true | _ => false end.

Section store.
Context {env : StoreEnv}.

(** ** Requests *)

(** [SELECT * ... WHERE approval_id = ?] and [_row_to_request]; a missing row
    is a [KeyError]. *)
Definition load_request (aid : str) : A ApprovalRequest :=
  let! db := se_get in
  match requests db !! aid with
  | None => se_raise StoreKeyError
  | Some row => lift_policy (post_init row)
  end.

(** [_raw_patch_auth.get_claim(...) is not None] raises. *)
Definition refuse_raw_claim (aid : str) : A unit :=
  let! db := se_get in
  guard (negb (bool_decide (aid ∈ raw_patch_claims db))) RawPatchAuthorizationError.

(** [_insert_request] *)
Definition insert_request (q : ApprovalRequest) : A unit :=
  let! db := se_get in
  let aid := approval_id (rq_id q) in
  if bool_decide (is_Some (requests db !! aid)) then se_raise StoreIntegrityError
  else se_put (set_requests (<[aid := q]> (requests db)) db).

(** [create] *)
Definition create (q0 : ApprovalRequest) : A ApprovalRequest :=
  let! q := lift_policy (revalidate_approval_request q0) in
  transact (let! _ := insert_request q in se_ret q).

(** [ORDER BY requested_at DESC LIMIT 1] *)
Fixpoint latest_requested (best : option ApprovalRequest) (l : list ApprovalRequest) : option ApprovalRequest :=
  match l with
  | [] => best
  | q :: l' =>
    latest_requested
      (match best with
       | Some b => if (requested_at (rq_id b) <? requested_at (rq_id q))%Z then Some q else best
       | None => Some q
       end) l'
  end.
Definition find_by_tool_call (call : str) (db : StoreDB) : option ApprovalRequest :=
  latest_requested None (filter (fun q => tool_call_id (rq_id q) = call) (map_to_list (requests db)).*2).

(** [create_or_get_by_tool_call_id] *)
Definition same_reuse_terms (a b : RequestConstraint) : bool :=
  bool_decide (approval_constraint a = approval_constraint b)
  && bool_decide (required_owner_user_id a = required_owner_user_id b)
  && bool_decide (approval_reuse_mode a = approval_reuse_mode b)
  && bool_decide (approval_reuse_key a = approval_reuse_key b).

Definition create_or_get_by_tool_call_id (q0 : ApprovalRequest) : A (ApprovalRequest * bool) :=
  let! q := lift_policy (revalidate_approval_request q0) in
  transact (
    let! db := se_get in
    match find_by_tool_call (tool_call_id (rq_id q)) db with
    | None => let! _ := insert_request q in se_ret (q, true)
    | Some row =>
      let! stored := lift_policy (post_init row) in
      let! _ := guard (same_reuse_terms (rq_terms stored) (rq_terms q)) StoreValueError in
      se_ret (stored, false)
    end).

(** [_verify_executable_request_identity] *)
Definition verify_request_identity (aid : str) (m : BindingMeta) (q : ApprovalRequest) : A unit :=
  if negb (bool_decide (user_id (rq_id q) = b_tenant_storage_id m)) then binding_error tenant_mismatch
  else if negb (bool_decide (approval_id (rq_id q) = aid)
                && bool_decide (tool_call_id (rq_id q) = b_tool_call_id m)
                && bool_decide (tool_name (rq_id q) = b_tool_name m))
  then binding_error call_identity_mismatch
  else if negb (bool_decide (args_hash (rq_policy q) = b_request_args_hash m))
  then binding_error operand_mismatch
  else se_ret tt.

(** The frozen fields [update_request] compares. *)
Definition same_terms (a b : RequestConstraint) : bool :=
  same_reuse_terms a b
  && bool_decide (identity_source a = identity_source b)
  && bool_decide (change_set_id a = change_set_id b) && bool_decide (change_hash a = change_hash b)
  && bool_decide (base_vector_hash a = base_vector_hash b)
  && bool_decide (reviewed_change_binding_digest a = reviewed_change_binding_digest b)
  && match review_reference a, review_reference b with
     | None, None => true
     | Some x, Some y => py_eq (JDict x) (JDict y)
     | _, _ => false
     end
  && bool_decide (execution_semantics_digest a = execution_semantics_digest b).

Definition with_policy (p : RequestPolicy) (q : ApprovalRequest) : ApprovalRequest :=
  mkRequest (rq_id q) (rq_terms q) p (rq_state q) (notification q).
Definition with_req_state (s : RequestState) (q : ApprovalRequest) : ApprovalRequest :=
  mkRequest (rq_id q) (rq_terms q) (rq_policy q) s (notification q).

(** [update_request] *)
Definition update_request (q0 : ApprovalRequest) : A ApprovalRequest :=
  let! q := lift_policy (revalidate_approval_request q0) in
  let aid := approval_id (rq_id q) in
  transact (
    let! db := se_get in
    match requests db !! aid with
    | None => se_raise StoreKeyError
    | Some row =>
      let! _ := refuse_raw_claim aid in
      let! current := lift_policy (post_init row) in
      let! _ := (match bindings db !! aid with
                 | Some b => verify_request_identity aid (b_meta b) q
                 | None => se_ret tt
                 end) in
      let! _ := guard (same_terms (rq_terms current) (rq_terms q)) StoreValueError in
      let! _ := se_put (set_requests (<[aid := with_policy (rq_policy q) row]> (requests db)) db) in
      se_ret q
    end).

(** ** State transitions *)
Record CancelCompare := mkCompare {
  expected_state_version : Z;
  expected_tool_call_id : str;
  expected_user_id : str;
  expected_request_id : str;
  expected_run_id : str;
  expected_session_id : str;
  expected_channel : str
}.

(** The cancellation predicate as SQLite evaluates it. *)
Definition cancel_where (c : CancelCompare) (row : ApprovalRequest) : bool :=
  bool_decide (state (rq_state row) = pending_user)
  && (state_version (rq_state row) =? expected_state_version c)%Z
  && bool_decide (tool_call_id (rq_id row) = expected_tool_call_id c)
  && bool_decide (user_id (rq_id row) = expected_user_id c)
  && bool_decide (request_id (rq_id row) = expected_request_id c)
  && bool_decide (run_id (rq_id row) = Some (expected_run_id c))
  && bool_decide (session_id (rq_id row) = Some (expected_session_id c))
  && bool_decide (sql_lower (sql_trim (channel (rq_id row))) = expected_channel c).

(** [_write_request_transition_locked]: returns the row count. *)
Definition write_request_transition (updated : ApprovalRequest) (cmp : option CancelCompare) : A nat :=
  let! db := se_get in
  let aid := approval_id (rq_id updated) in
  let target := is_terminal_state (state (rq_state updated)) in
  let ok row := match cmp with
                | Some c => cancel_where c row
                | None => target || negb (is_terminal_state (state (rq_state row)))
                end in
  let! n := (match requests db !! aid with
             | Some row =>
               if ok row
               then let! _ := se_put (set_requests (<[aid := with_req_state (rq_state updated) row]> (requests db)) db) in
                    se_ret 1
               else se_ret 0
             | None => se_ret 0
             end) in
  if is_none cmp && negb target && negb (n =? 1) then se_raise StoreValueError else se_ret n.

Definition or_else {X} (a b : option X) : option X := match a with Some _ => a | None => b end.

(** [transition_state] *)
Definition transition_state (now : Z) (aid : str) (st : ApprovalState) (expected : option Z)
    (expires : option Z) (decider role : option str) (dec : option ApprovalState) (rsn : option str)
    : A ApprovalRequest :=
  transact (
    let! db := se_get in
    match requests db !! aid with
    | None => se_raise StoreKeyError
    | Some row =>
      let! _ := refuse_raw_claim aid in
      let! current := lift_policy (post_init row) in
      let cs := rq_state current in
      let! _ := guard (match expected with Some v => (state_version cs =? v)%Z | None => true end) StoreRuntimeError in
      let terminal := is_terminal_state st in
      let! updated := lift_policy (post_init (with_req_state
        (mkReqState st (state_version cs + 1) (or_else expires (expires_at cs))
           (if terminal then Some now else decided_at cs)
           (or_else decider (decider_id cs)) (or_else role (decider_role cs))
           (or_else dec (if terminal then Some st else None))
           (or_else rsn (decision_reason cs))) current)) in
      let! _ := write_request_transition updated None in
      se_ret updated
    end).

(** ** Cancellation *)

(** [str(channel or "").strip().lower()] *)
Definition norm_channel (c : option str) : str := str_lower (py_strip (default [] c)).

Definition identity_matches (call usr req run sess : str) (chan : option str) (q : ApprovalRequest) : bool :=
  bool_decide (tool_call_id (rq_id q) = call) && bool_decide (user_id (rq_id q) = usr)
  && bool_decide (request_id (rq_id q) = req) && bool_decide (run_id (rq_id q) = Some run)
  && bool_decide (session_id (rq_id q) = Some sess)
  && bool_decide (norm_channel (Some (channel (rq_id q))) = norm_channel chan).

(** [_autonomous_publication_reserved]: [? IS NULL OR column = ?] *)
Definition matches_if (expected : option str) (actual : str) : bool :=
  match expected with None => true | Some e => bool_decide (actual = e) end.
Definition publication_reserved (aid : str) (call nonce : option str) (db : StoreDB) : bool :=
  existsb (fun r => bool_decide (r.1.1 = aid) && matches_if call r.1.2 && matches_if nonce r.2)
    (reserved_publications db).

(** [_require_unreserved_autonomous_publication] *)
Definition require_unreserved (aid : str) (call nonce : option str) : A unit :=
  let! db := se_get in
  guard (negb (publication_reserved aid call nonce db)) ApprovalRemoteReservationActive.

(** The transaction of [terminalize_pending_for_cancellation] up to the
    delivery: the request, whether it was transitioned and whether its identity
    matched. *)
Definition terminalize_locked (now : Z) (aid call usr req run sess : str)
    (chan : option str) (decider role : option str) (rsn : str) : A (ApprovalRequest * bool * bool) :=
    let! _ := require_unreserved aid None None in
    let! current := load_request aid in
    let cs := rq_state current in
    if negb (identity_matches call usr req run sess chan current) then se_ret (current, false, false)
    else if negb (bool_decide (state cs = pending_user)) then se_ret (current, false, true)
    else
      let! _ := refuse_raw_claim aid in
      let! updated := lift_policy (post_init (with_req_state
        (mkReqState denied (state_version cs + 1) (expires_at cs) (Some now)
           (or_else decider (decider_id cs)) (or_else role (decider_role cs))
           (Some denied) (Some rsn)) current)) in
      let! n := write_request_transition updated
        (Some (mkCompare (state_version cs) call usr req run sess (norm_channel chan))) in
      let! _ := guard (n =? 1) StoreRuntimeError in
      se_ret (updated, true, true).

(** [terminalize_pending_for_cancellation] with [autonomous_delivery=None]. *)
Definition terminalize_pending_for_cancellation (now : Z) (aid call usr req run sess : str)
    (chan : option str) (decider role : option str) (rsn : str) : A (ApprovalRequest * bool * bool) :=
  transact (terminalize_locked now aid call usr req run sess chan decider role rsn).

(** [UPDATE persistent_grants SET revoked_at = ? WHERE p] *)
Definition revoke_grant (when : Z) (g : PersistentGrant) : PersistentGrant :=
  mkGrant (grant_id g) (g_user_id g) (g_tool_name g) (scope_hint g) (g_args_predicate g) (granted_at g)
    (g_expires_at g) (Some when) (granted_via_approval_id g) (g_policy_id g).
Definition active_via (aid : str) (g : PersistentGrant) : bool :=
  bool_decide (granted_via_approval_id g = aid) && is_none (g_revoked_at g).
Definition revoke_active_via (when : Z) (aid : str) : A nat :=
  let! db := se_get in
  let! _ := se_put (set_grants ((fun g => if active_via aid g then revoke_grant when g else g) <$> grants db) db) in
  se_ret (length (filter (fun g => active_via aid g = true) (map_to_list (grants db)).*2)).

(** [abort_unpublished_approval] *)
Definition abort_unpublished_approval (now : Z) (aid call usr req run sess : str)
    (chan : option str) (rsn : str) : A (ApprovalRequest * bool * bool) :=
  transact (
    let! current := load_request aid in
    let cs := rq_state current in
    if negb (identity_matches call usr req run sess chan current) then se_ret (current, false, false)
    else
      let! _ := refuse_raw_claim aid in
      let! res :=
        (if is_terminal_state (state cs) then se_ret (current, false)
         else
           let! updated := lift_policy (post_init (with_req_state
             (mkReqState denied (state_version cs + 1) (expires_at cs) (Some now)
                (decider_id cs) (decider_role cs) (Some denied) (Some rsn)) current)) in
           let! _ := write_request_transition updated None in
           se_ret (updated, true)) in
      let! _ := revoke_active_via now aid in
      let! db := se_get in
      let! _ := se_put (set_outbox (filter (fun a => a <> aid) (notification_outbox db)) db) in
      se_ret (res.1, res.2, true)).

(** ** Votes *)

(** The transaction of [_record_vote] up to the delivery; [call] is the tool
    call of the delivery, if there is one. The flag says whether this vote
    decided the request. *)
Definition record_vote_locked (call : option str) (aid : str) (v : ApprovalVote) : A (ApprovalRequest * bool) :=
    let! current := load_request aid in
    let! _ := guard (matches_if call (tool_call_id (rq_id current))) StoreValueError in
    let cs := rq_state current in
    if is_terminal_state (state cs) then se_ret (current, false)
    else
      let! db := se_get in
      let! _ :=
        (match votes db !! (aid, v_decider_id v) with
         | None =>
           if existsb (fun w => bool_decide (vote_id w = vote_id v)) (map_to_list (votes db)).*2
           then se_raise StoreIntegrityError
           else se_put (set_votes (<[(aid, v_decider_id v) := v]> (votes db)) db)
         | Some w => guard (bool_decide (vote_id w = vote_id v) && eqb (v_approved w) (v_approved v)) StoreValueError
         end) in
      let st := if v_approved v then approved else denied in
      let! updated := lift_policy (post_init (with_req_state
        (mkReqState st (state_version cs + 1) (expires_at cs) (Some (v_decided_at v))
           (Some (v_decider_id v)) (v_decider_role v) (Some st) (v_decision_reason v)) current)) in
      let! _ := write_request_transition updated None in
      se_ret (updated, true).

(** [record_vote]: [_record_vote] with [autonomous_delivery=None]. *)
Definition record_vote (aid : str) (v : ApprovalVote) : A ApprovalRequest :=
  if negb (bool_decide (v_approval_id v = aid)) then se_raise StoreValueError
  else transact (let! res := record_vote_locked None aid v in se_ret res.1).

(** ** Executable bindings *)
Record ExecutableApprovalBinding := mkExecutable {
  x_approval_id : str;
  x_meta : BindingMeta;
  x_prepared_input : list (str * json);
  x_dispatch_context : list (str * json);
  x_operand_digest : str
}.

Definition json_opt (v : option str) : json := match v with Some s => JStr s | None => JNull end.

Definition digest_of (v : json) : option str :=
  match json_dumps v with Some t => Some (u "sha256:" ++ sha256_hex t) | None => None end.

(** [_executable_operand_digest] *)
Definition executable_operand_digest (aid : str) (m : BindingMeta) (input ctx : list (str * json)) : option str :=
  digest_of (JDict
    [(u "approval_id", JStr aid); (u "job_id", JStr (b_job_id m)); (u "tool_call_id", JStr (b_tool_call_id m));
     (u "nonce", JStr (b_nonce m)); (u "tenant_storage_id", JStr (b_tenant_storage_id m));
     (u "tool_name", JStr (b_tool_name m)); (u "exact_backend", json_opt (b_exact_backend m));
     (u "credential_generation_ref", json_opt (b_credential_ref m));
     (u "request_args_hash", JStr (b_request_args_hash m));
     (u "prepared_input", JDict input); (u "dispatch_context", JDict ctx)]).

(** [_executable_result_digest] *)
Definition executable_result_digest (b : ExecutableApprovalBinding) (token : str) (version : Z) (result : str) : option str :=
  digest_of (JDict
    [(u "operand_digest", JStr (x_operand_digest b)); (u "claim_token", JStr token);
     (u "decision_state_version", JInt version); (u "result_json", JStr result)]).

(** The row a caller addresses by [(job_id, tool_call_id)]. *)
Definition find_binding (job call : str) (db : StoreDB) : option (str * BindingRow) :=
  head (filter (fun kb => b_job_id (b_meta kb.2) = job /\ b_tool_call_id (b_meta kb.2) = call)
          (map_to_list (bindings db))).

(** [_read_executable_binding_locked] *)
Definition read_executable_binding (job call nonce tenant : str) : A (ExecutableApprovalBinding * ApprovalRequest) :=
  let! db := se_get in
  match find_binding job call db with
  | None => binding_error missing_binding
  | Some (aid, row) =>
    let m := b_meta row in
    if negb (bool_decide (b_tenant_storage_id m = tenant)) then binding_error tenant_mismatch
    else if negb (bool_decide (b_nonce m = nonce)) then binding_error nonce_mismatch
    else match requests db !! aid with
    | None => binding_error missing_binding
    | Some q =>
      let! request := lift_policy (post_init q) in
      let! _ := verify_request_identity aid m request in
      match json_loads (prepared_input_json row), json_loads (dispatch_context_json row) with
      | Some (JDict input), Some (JDict ctx) =>
        match executable_operand_digest aid m input ctx with
        | Some digest =>
          if bool_decide (digest = operand_digest row)
          then se_ret (mkExecutable aid m input ctx digest, request)
          else binding_error operand_mismatch
        | None => binding_error operand_mismatch
        end
      | _, _ => binding_error operand_mismatch
      end
    end
  end.

(** [current != binding]; the argument hash is not a field of the dataclass. *)
Definition same_binding (a b : ExecutableApprovalBinding) : bool :=
  bool_decide (x_approval_id a = x_approval_id b)
  && bool_decide (b_job_id (x_meta a) = b_job_id (x_meta b))
  && bool_decide (b_tool_call_id (x_meta a) = b_tool_call_id (x_meta b))
  && bool_decide (b_nonce (x_meta a) = b_nonce (x_meta b))
  && bool_decide (b_tenant_storage_id (x_meta a) = b_tenant_storage_id (x_meta b))
  && bool_decide (b_tool_name (x_meta a) = b_tool_name (x_meta b))
  && py_eq (JDict (x_prepared_input a)) (JDict (x_prepared_input b))
  && py_eq (JDict (x_dispatch_context a)) (JDict (x_dispatch_context b))
  && bool_decide (b_exact_backend (x_meta a) = b_exact_backend (x_meta b))
  && bool_decide (b_credential_ref (x_meta a) = b_credential_ref (x_meta b))
  && bool_decide (x_operand_digest a = x_operand_digest b).

(** [_verify_executable_attempt_locked] *)
Definition verify_executable_attempt (b : ExecutableApprovalBinding) : A (ApprovalRequest * BindingRow) :=
  let m := x_meta b in
  let! cur := read_executable_binding (b_job_id m) (b_tool_call_id m) (b_nonce m) (b_tenant_storage_id m) in
  if negb (same_binding cur.1 b) then binding_error operand_mismatch
  else
    let! db := se_get in
    match bindings db !! x_approval_id b with
    | None => binding_error missing_binding
    | Some row => se_ret (cur.2, row)
    end.

(** The identity predicate of the claim and completion statements. *)
Definition binding_where (b : ExecutableApprovalBinding) (row : BindingRow) : bool :=
  bool_decide (b_job_id (b_meta row) = b_job_id (x_meta b))
  && bool_decide (b_tool_call_id (b_meta row) = b_tool_call_id (x_meta b))
  && bool_decide (b_nonce (b_meta row) = b_nonce (x_meta b))
  && bool_decide (b_tenant_storage_id (b_meta row) = b_tenant_storage_id (x_meta b))
  && bool_decide (operand_digest row = x_operand_digest b).

(** A tool result: its value with its kind, and its error object. *)
Record ToolResult := mkToolResult {
  tr_kind : str;
  tr_value : json;
  tr_error : option (list (str * json))
}.

(** [_executable_result_json] *)
Definition executable_result_json (r : ToolResult) : option str :=
  json_dumps (JList [JDict [(u "kind", JStr (tr_kind r)); (u "value", tr_value r)];
                     match tr_error r with Some d => JDict d | None => JNull end]).

(** [_restore_executable_result] *)
Definition restore_executable_result (d : list (str * json)) : option (str * json) :=
  match dict_get (u "kind") d, dict_get (u "value") d with
  | Some (JStr k), Some v =>
    if negb (length d =? 2) then None
    else if bool_decide (k = u "json") then Some (k, v)
    else if bool_decide (k = u "AgentCompletionEnvelope") || bool_decide (k = u "TaskResult")
    then match model_validate k v with Some w => Some (k, w) | None => None end
    else None
  | _, _ => None
  end.

(** [_read_executable_result_locked] *)
Definition read_executable_result (b : ExecutableApprovalBinding) (row : BindingRow) : A ToolResult :=
  let! db := se_get in
  match bindings db !! x_approval_id b with
  | Some cur =>
    if negb (binding_where b cur && bool_decide (exec_state cur = completed)) then binding_error result_mismatch
    else match exec_result_json cur, exec_claim_token row, exec_decision_version row with
    | Some text, Some (t :: token), Some version =>
      match json_loads text with
      | Some (JList [JDict d; err]) =>
        match err with
        | JNull | JDict _ =>
          if bool_decide (executable_result_digest b (t :: token) version text = exec_result_digest row) then
            match restore_executable_result d with
            | Some (k, v) => se_ret (mkToolResult k v (match err with JDict e => Some e | _ => None end))
            | None => binding_error result_mismatch
            end
          else binding_error result_mismatch
        | _ => binding_error result_mismatch
        end
      | _ => binding_error result_mismatch
      end
    | _, _, _ => binding_error result_mismatch
    end
  | None => binding_error result_mismatch
  end.

(** [_read_completed_executable_result_for_executor] *)
Definition read_completed_executable_result (b : ExecutableApprovalBinding) : A (option ToolResult) :=
  transact (
    let! att := verify_executable_attempt b in
    match exec_state att.2 with
    | claimed => binding_error execution_outcome_unknown
    | completed => let! r := read_executable_result b att.2 in se_ret (Some r)
    | unclaimed => se_ret None
    end).

Definition set_execution (st : execution_state) (token : option str) (version : option Z)
    (result digest : option str) (row : BindingRow) : BindingRow :=
  mkBinding (b_meta row) (prepared_input_json row) (dispatch_context_json row) (operand_digest row)
    st token version result digest.

(** [_claim_executable_binding_for_executor]: [None] is a fresh reservation. *)
Definition claim_executable_binding (b : ExecutableApprovalBinding) (version : Z) (token : str)
    : A (option ToolResult) :=
  if bool_decide (token = []) then binding_error claim_token_mismatch
  else transact (
    let! att := verify_executable_attempt b in
    let row := att.2 in
    match exec_state row with
    | completed => let! r := read_executable_result b row in se_ret (Some r)
    | claimed => binding_error execution_outcome_unknown
    | unclaimed =>
      if negb (state_version (rq_state att.1) =? version)%Z || negb (approval_is_executable att.1)
      then binding_error decision_mismatch
      else
        let! db := se_get in
        match bindings db !! x_approval_id b with
        | Some cur =>
          if binding_where b cur && bool_decide (exec_state cur = unclaimed) && is_none (exec_claim_token cur)
             && is_none (exec_decision_version cur) && is_none (exec_result_json cur) && is_none (exec_result_digest cur)
          then
            let! _ := se_put (set_bindings (<[x_approval_id b :=
              set_execution claimed (Some token) (Some version) None None cur]> (bindings db)) db) in
            se_ret None
          else binding_error execution_outcome_unknown
        | None => binding_error execution_outcome_unknown
        end
    end).

(** [_complete_executable_binding_for_executor] *)
Definition complete_executable_binding (b : ExecutableApprovalBinding) (version : Z) (token : str)
    (result : ToolResult) : A unit :=
  if bool_decide (token = []) then binding_error claim_token_mismatch
  else match executable_result_json result with
  | None => binding_error result_mismatch
  | Some text =>
    match executable_result_digest b token version text with
    | None => binding_error result_mismatch
    | Some digest =>
      transact (
        let! att := verify_executable_attempt b in
        let row := att.2 in
        if negb (bool_decide (exec_claim_token row = Some token)) then binding_error claim_token_mismatch
        else if negb (bool_decide (exec_decision_version row = Some version)) then binding_error decision_mismatch
        else if bool_decide (exec_state row = completed) then
          let! existing := read_executable_result b row in
          if bool_decide (executable_result_json existing = Some text) then se_ret tt
          else binding_error result_mismatch
        else
          let! db := se_get in
          match bindings db !! x_approval_id b with
          | Some cur =>
            if binding_where b cur && bool_decide (exec_state cur = claimed)
               && bool_decide (exec_claim_token cur = Some token)
               && bool_decide (exec_decision_version cur = Some version)
               && is_none (exec_result_json cur) && is_none (exec_result_digest cur)
            then se_put (set_bindings (<[x_approval_id b :=
                   set_execution completed (Some token) (Some version) (Some text) (Some digest) cur]> (bindings db)) db)
            else binding_error execution_outcome_unknown
          | None => binding_error execution_outcome_unknown
          end)
    end
  end.

(** [_executable_binding_payload]: the operands' JSON texts. *)
Definition executable_binding_payload (aid : str) (m : BindingMeta) (input ctx : list (str * json))
    : outcome store_error (str * str) :=
  if existsb (fun t : str => bool_decide (t = []))
       [aid; b_job_id m; b_tool_call_id m; b_nonce m; b_tenant_storage_id m; b_tool_name m]
     || bool_decide (b_credential_ref m = Some [])
  then Raise (ApprovalExecutableBindingError call_identity_mismatch)
  else match json_dumps (JDict input), json_dumps (JDict ctx) with
  | Some i, Some c => Ret (i, c)
  | _, _ => Raise (ApprovalExecutableBindingError operand_mismatch)
  end.

(** [record_executable_binding]; when both disjuncts of its [SELECT] have a row
    the one of the approval is taken. *)
Definition with_args_hash (h : str) (m : BindingMeta) : BindingMeta :=
  mkMeta (b_job_id m) (b_tool_call_id m) (b_nonce m) (b_tenant_storage_id m) (b_tool_name m)
    (b_exact_backend m) (b_credential_ref m) h.

Definition record_executable_binding (aid : str) (m0 : BindingMeta) (input ctx : list (str * json)) : A unit :=
  let! texts := se_lift (executable_binding_payload aid m0 input ctx) in
  let '(input_json, ctx_json) := texts in
  transact (
    let! db := se_get in
    match requests db !! aid with
    | None => binding_error missing_binding
    | Some q =>
      let! request := lift_policy (post_init q) in
      let m := with_args_hash (args_hash (rq_policy request)) m0 in
      let! _ := verify_request_identity aid m request in
      match executable_operand_digest aid m input ctx with
      | None => se_raise StoreValueError
      | Some digest =>
        match (match bindings db !! aid with
               | Some row => Some (aid, row)
               | None => find_binding (b_job_id m) (b_tool_call_id m) db
               end) with
        | Some (aid', row) =>
          let n := b_meta row in
          if negb (bool_decide (b_tenant_storage_id n = b_tenant_storage_id m)) then binding_error tenant_mismatch
          else if negb (bool_decide (b_nonce n = b_nonce m)) then binding_error nonce_mismatch
          else if negb (bool_decide (aid' = aid) && bool_decide (b_job_id n = b_job_id m)
                        && bool_decide (b_tool_call_id n = b_tool_call_id m) && bool_decide (b_tool_name n = b_tool_name m))
          then binding_error call_identity_mismatch
          else if negb (bool_decide (operand_digest row = digest) && bool_decide (b_exact_backend n = b_exact_backend m)
                        && bool_decide (b_credential_ref n = b_credential_ref m)
                        && bool_decide (b_request_args_hash n = b_request_args_hash m)
                        && bool_decide (prepared_input_json row = input_json)
                        && bool_decide (dispatch_context_json row = ctx_json))
          then binding_error operand_mismatch
          else se_ret tt
        | None =>
          se_put (set_bindings (<[aid := mkBinding m input_json ctx_json digest unclaimed None None None None]>
                    (bindings db)) db)
        end
      end
    end).
(** ** Persistent grants *)

(** [create_persistent_grant] *)
Definition create_persistent_grant (g : PersistentGrant) : A PersistentGrant :=
  transact (
    let! db := se_get in
    let src := granted_via_approval_id g in
    let! _ := guard (is_none (fences db !! src)) PersistentGrantCancellationFenced in
    match requests db !! src with
    | None => se_raise StoreValueError
    | Some row =>
      let! source := lift_policy (post_init row) in
      let t := rq_terms source in
      let! _ := guard
        (bool_decide (approval_constraint t = standard)
         && bool_decide (state (rq_state source) = approved)
         && bool_decide (decision (rq_state source) = Some approved)
         && bool_decide (user_id (rq_id source) = g_user_id g)
         && bool_decide (tool_name (rq_id source) = g_tool_name g)
         && bool_decide (persistent_grant_scope (rq_policy source) = Some (scope_hint g))
         && negb (bool_decide (approval_reuse_mode t = disabled))
         && negb (bool_decide (approval_reuse_mode t = exact)
                  && negb (bool_decide (approval_reuse_key t = Some (scope_hint g)))))
        StoreValueError in
      let! _ := guard (is_none (grants db !! grant_id g)) StoreIntegrityError in
      let! _ := se_put (set_grants (<[grant_id g := g]> (grants db)) db) in
      se_ret g
    end).

(** The newest of the matching grants. *)
Fixpoint newest_grant (best : option PersistentGrant) (l : list PersistentGrant) : option PersistentGrant :=
  match l with
  | [] => best
  | g :: l' =>
    newest_grant (match best with
                  | Some b => if (granted_at b <? granted_at g)%Z then Some g else best
                  | None => Some g
                  end) l'
  end.

Definition grant_matches (db : StoreDB) (usr tool scope : str) (now : Z) (reuse : ApprovalReuseMode)
    (key : option str) (g : PersistentGrant) : bool :=
  bool_decide (g_user_id g = usr) && bool_decide (g_tool_name g = tool) && bool_decide (scope_hint g = scope)
  && is_none (g_revoked_at g)
  && match g_expires_at g with None => true | Some e => (now <? e)%Z end
  && match requests db !! granted_via_approval_id g with
     | Some src => bool_decide (approval_reuse_mode (rq_terms src) = reuse)
                   && match reuse with
                      | exact => bool_decide (approval_reuse_key (rq_terms src) = key)
                      | _ => true
                      end
     | None => false
     end
  && is_none (fences db !! granted_via_approval_id g).

(** [find_persistent_grant] *)
Definition find_persistent_grant (usr tool scope : str) (now : Z) (con : ApprovalConstraint)
    (reuse : ApprovalReuseMode) (key : option str) : A (option PersistentGrant) :=
  if negb (bool_decide (con = standard)) then se_ret None
  else match reuse with
  | disabled => se_ret None
  | other_reuse _ => se_raise StoreValueError
  | exact =>
    let! _ := guard (canonical_text key) StoreValueError in
    let! db := se_get in
    se_ret (newest_grant None (filter (fun g => grant_matches db usr tool scope now reuse key g = true)
                                 (map_to_list (grants db)).*2))
  | legacy =>
    let! _ := guard (is_none key) StoreValueError in
    let! db := se_get in
    se_ret (newest_grant None (filter (fun g => grant_matches db usr tool scope now reuse key g = true)
                                 (map_to_list (grants db)).*2))
  end.

(** [revoke_persistent_grant], [revoke_persistent_grants_for_approval] *)
Definition revoke_persistent_grant (gid : str) (when : Z) : A unit :=
  transact (
    let! db := se_get in
    se_put (set_grants (alter (revoke_grant when) gid (grants db)) db)).
Definition revoke_persistent_grants_for_approval (aid : str) (when : Z) : A nat :=
  transact (revoke_active_via when aid).

(** [fence_persistent_grants_for_cancellation] *)
Definition fence_persistent_grants_for_cancellation (now : Z) (aid call usr req run sess : str)
    (chan : option str) : A (ApprovalRequest * bool) :=
  transact (
    let! _ := require_unreserved aid None None in
    let! current := load_request aid in
    if negb (identity_matches call usr req run sess chan current) then se_ret (current, false)
    else
      let! db := se_get in
      let! _ := se_put (set_fences (match fences db !! aid with
                                    | Some _ => fences db
                                    | None => <[aid := now]> (fences db)
                                    end) db) in
      let! _ := revoke_active_via now aid in
      se_ret (current, true)).

(** ** Delegation grants *)
Definition set_delegation_times (revoked consumed : option Z) (g : DelegationGrant) : DelegationGrant :=
  mkDelegation (dl_delegator_user_id g) (dl_delegator_run_id g) (dl_delegator_session_id g)
    (dl_delegator_profile g) (dl_delegator_channel g) (bound_excel_session_id g) (bound_relay_request_id g)
    (bound_workbook g) (tool_class_ceiling g) (dl_args_predicate g) (window_seconds g) (dl_created_at g)
    (dl_expires_at g) revoked consumed.

(** [create_delegation_grant], [claim_delegation_grant], [revoke_delegation_grant] *)
Definition create_delegation_grant (did : str) (g : DelegationGrant) : A DelegationGrant :=
  transact (
    let! db := se_get in
    let! _ := guard (is_none (delegations db !! did)) StoreIntegrityError in
    let! _ := se_put (set_delegations (<[did := g]> (delegations db)) db) in
    se_ret g).

Definition delegation_claimable (rid sid : str) (now : Z) (g : DelegationGrant) : bool :=
  bool_decide (bound_relay_request_id g = rid) && bool_decide (bound_excel_session_id g = sid)
  && is_none (dl_consumed_at g) && is_none (dl_revoked_at g)
  && match dl_expires_at g with None => true | Some e => (now <? e)%Z end.

Definition claim_delegation_grant (did rid sid : str) (now : Z) : A (option DelegationGrant) :=
  transact (
    let! db := se_get in
    match delegations db !! did with
    | Some g =>
      if delegation_claimable rid sid now g then
        let g' := set_delegation_times (dl_revoked_at g) (Some now) g in
        let! _ := se_put (set_delegations (<[did := g']> (delegations db)) db) in
        se_ret (Some g')
      else se_ret None
    | None => se_ret None
    end).

Definition revoke_delegation_grant (did : str) (when : Z) : A unit :=
  transact (
    let! db := se_get in
    se_put (set_delegations
      (alter (fun g => set_delegation_times (Some when) (dl_consumed_at g) g) did (delegations db)) db)).


End store.

End ApprovalStore.
