(* ===== verification/ApprovalParking.v ===== *)
(** * ApprovalParking: policy generations, root turns, parked calls

    Models the part of [SQLiteApprovalStore] ([src/agent_gateway/approval_store.py])
    that parks an approval across turns: [record_policy_generation],
    [record_root_turn] and [link_root_turn_executable_binding],
    [park_executable_binding] and [reissue_parked_approval], on the tables of
    [ApprovalStore.StoreDB]. The random ids and the nonce of a re-issue are
    arguments; JSON text, SHA-256 and time text are operations of [StoreEnv]. *)
From S2P Require Import Prelude ApprovalPolicy ApprovalStore.
Import ApprovalPolicy ApprovalStore.

Module ApprovalParking.

Section parking.
Context {env : StoreEnv}.

(** ** Policy generations and root turns *)

(** [record_policy_generation] *)
Definition record_policy_generation (g : PolicyGeneration) (make_current : bool) : A str :=
  match digest_of (JDict [(u "policy_id", JStr (pg_policy_id g)); (u "policy_version", JStr (pg_policy_version g));
                          (u "policy_bundle_hash", JStr (pg_policy_bundle_hash g))]) with
  | None => se_raise StoreValueError
  | Some digest =>
    let ref := u "approval-policy:" ++ digest in
    transact (
      let! db := se_get in
      let! _ := (match generations db !! ref with
                 | Some _ => se_ret tt
                 | None =>
                   if existsb (fun row => bool_decide (row.1 = g)) (map_to_list (generations db)).*2
                   then se_raise StoreIntegrityError
                   else se_put (set_generations (<[ref := (g, false)]> (generations db)) db)
                 end) in
      let! db1 := se_get in
      match generations db1 !! ref with
      | Some (g', _) =>
        if negb (bool_decide (g' = g)) then se_raise (RootTurnRecordError snapshot_mismatch)
        else
          let! _ := (if make_current
                     then se_put (set_generations
                            (<[ref := (g', true)]> ((fun row => (row.1, false)) <$> generations db1)) db1)
                     else se_ret tt) in
          se_ret ref
      | None => se_raise (RootTurnRecordError snapshot_mismatch)
      end)
  end.

(** The authority a root turn records. *)
Record RootTurnInput := mkTurnInput {
  ri_capability_bind : json;
  ri_credential_ref : option str;
  ri_effective_grant : json;
  ri_research_binding : json;
  ri_selection_snapshot : json;
  ri_selection_provenance : json;
  ri_approval_route_kind : str;
  ri_generation_ref : str
}.

(** [identity_json_dumps(dict(v))], and with [None] allowed. *)
Definition dump_dict (v : json) : option str := match v with JDict _ => json_dumps v | _ => None end.
Definition dump_opt_dict (v : json) : option str := match v with JNull | JDict _ => json_dumps v | _ => None end.

(** The snapshot columns without digest and refs, and [_root_turn_snapshot_digest]. *)
Definition turn_digest (job turn : str) (t : RootTurn) : option str :=
  digest_of (JDict
    [(u "job_id", JStr job); (u "turn_id", JStr turn); (u "tenant_storage_id", JStr (rt_tenant_storage_id t));
     (u "credential_generation_ref", json_opt (rt_credential_ref t));
     (u "approval_route_kind", JStr (rt_approval_route_kind t));
     (u "policy_generation_ref", JStr (rt_generation_ref t));
     (u "capability_bind_json", JStr (rt_capability_bind_json t));
     (u "effective_grant_json", JStr (rt_effective_grant_json t));
     (u "research_binding_json", JStr (rt_research_binding_json t));
     (u "selection_snapshot_json", JStr (rt_selection_snapshot_json t));
     (u "selection_provenance_json", JStr (rt_selection_provenance_json t));
     (u "grant_digest", JStr (rt_grant_digest t)); (u "created_at", JStr (rt_created_at t))]).
Definition with_turn_digest (d : str) (refs : list (str * str)) (t : RootTurn) : RootTurn :=
  mkTurn (rt_tenant_storage_id t) (rt_capability_bind_json t) (rt_credential_ref t) (rt_effective_grant_json t)
    (rt_grant_digest t) (rt_research_binding_json t) (rt_selection_snapshot_json t) (rt_selection_provenance_json t)
    (rt_approval_route_kind t) (rt_generation_ref t) (rt_created_at t) d refs.

(** [_record_root_turn_locked] *)
Definition record_root_turn_locked (now : Z) (job turn tenant : str) (i : RootTurnInput) (created : option Z) : A unit :=
  match dump_dict (ri_capability_bind i), dump_dict (ri_effective_grant i), dump_opt_dict (ri_research_binding i),
        dump_dict (ri_selection_snapshot i), dump_opt_dict (ri_selection_provenance i) with
  | Some cap, Some grant, Some research, Some sel, Some prov =>
    match digest_of (JDict [(u "effective_grant_json", JStr grant)]) with
    | None => se_raise StoreValueError
    | Some gd =>
      let snapshot at_ := mkTurn tenant cap (ri_credential_ref i) grant gd research sel prov
        (ri_approval_route_kind i) (ri_generation_ref i) at_ [] [] in
      let! db := se_get in
      match root_turns db !! (job, turn) with
      | Some ex =>
        if negb (bool_decide (rt_tenant_storage_id ex = tenant))
        then se_raise (RootTurnRecordError turn_tenant_mismatch)
        else
          let t := snapshot (match created with Some c => dt_to_text c | None => rt_created_at ex end) in
          match turn_digest job turn t with
          | None => se_raise StoreValueError
          | Some d =>
            if bool_decide (with_turn_digest d [] t = with_turn_digest (rt_snapshot_digest ex) [] ex) then se_ret tt
            else se_raise (RootTurnRecordError snapshot_mismatch)
          end
      | None =>
        let t := snapshot (dt_to_text (default now created)) in
        match turn_digest job turn t with
        | None => se_raise StoreValueError
        | Some d =>
          if bool_decide (is_Some (generations db !! ri_generation_ref i))
          then se_put (set_root_turns (<[(job, turn) := with_turn_digest d [] t]> (root_turns db)) db)
          else se_raise StoreIntegrityError
        end
      end
    end
  | _, _, _, _, _ => se_raise (RootTurnRecordError snapshot_mismatch)
  end.
Definition record_root_turn (now : Z) (job turn tenant : str) (i : RootTurnInput) (created : option Z) : A unit :=
  transact (record_root_turn_locked now job turn tenant i created).

(** [_link_root_turn_executable_binding_locked] *)
Definition link_root_turn_locked (job turn call nonce tenant : str) : A unit :=
  let! db := se_get in
  match root_turns db !! (job, turn) with
  | None => se_raise (RootTurnRecordError missing_root_turn)
  | Some root =>
    if negb (bool_decide (rt_tenant_storage_id root = tenant))
    then se_raise (RootTurnRecordError turn_tenant_mismatch)
    else
      let! held := (match find_binding job call db with
        | None =>
          if existsb (fun q => bool_decide (session_id (rq_id q) = Some job) && bool_decide (tool_call_id (rq_id q) = call)
                               && bool_decide (user_id (rq_id q) = tenant)) (map_to_list (requests db)).*2
          then se_ret None else binding_error missing_binding
        | Some (_, row) =>
          if negb (bool_decide (b_tenant_storage_id (b_meta row) = tenant)) then binding_error tenant_mismatch
          else if negb (bool_decide (b_nonce (b_meta row) = nonce)) then binding_error nonce_mismatch
          else se_ret (Some (b_nonce (b_meta row)))
        end) in
      let linked (kt : (str * str) * RootTurn) :=
        bool_decide (kt.1.1 = job) && negb (bool_decide (kt.1.2 = turn))
        && existsb (fun ref => bool_decide (ref.1 = call)
                               && match held with None => true | Some n => bool_decide (ref.2 = n) end)
             (rt_executable_refs kt.2) in
      if existsb linked (map_to_list (root_turns db)) then se_raise (RootTurnRecordError turn_link_mismatch)
      else if bool_decide ((call, nonce) ∈ rt_executable_refs root) then se_ret tt
      else se_put (set_root_turns (<[(job, turn) :=
             with_turn_digest (rt_snapshot_digest root) (rt_executable_refs root ++ [(call, nonce)]) root]>
             (root_turns db)) db)
  end.
Definition link_root_turn_executable_binding (job turn call nonce tenant : str) : A unit :=
  transact (link_root_turn_locked job turn call nonce tenant).

(** ** Parking *)

(** [_linked_root_generation_locked] *)
Definition linked_root_generation (db : StoreDB) (m : BindingMeta) : option str :=
  match mjoin ((fun kt : (str * str) * RootTurn =>
           if bool_decide (kt.1.1 = b_job_id m) && bool_decide (rt_tenant_storage_id kt.2 = b_tenant_storage_id m)
           then (fun _ => rt_generation_ref kt.2)
                  <$> filter (fun ref => ref = (b_tool_call_id m, b_nonce m)) (rt_executable_refs kt.2)
           else []) <$> map_to_list (root_turns db)) with
  | [g] => Some g
  | _ => None
  end.

Definition undecided (s : ApprovalState) : bool := match s with created | pending_user => true | _ => false end.
Definition supersedable (s : ApprovalState) : bool :=
  match s with created | pending_user | approved => true | _ => false end.
Definition refused (s : ApprovalState) : bool := match s with denied | auto_denied | expired => true | _ => false end.

(** [approval_id = ? OR (job_id = ? AND tool_call_id = ?)] *)
Definition park_match (aid : str) (m : BindingMeta) (kb : str * BindingRow) : Prop :=
  kb.1 = aid \/ (b_job_id (b_meta kb.2) = b_job_id m /\ b_tool_call_id (b_meta kb.2) = b_tool_call_id m).
#[global] Instance park_match_dec aid m kb : Decision (park_match aid m kb).
Proof. unfold park_match. apply _. Defined.

(** The loop over the existing rows: the nonce to publish and the superseded
    approvals. *)
Fixpoint park_scan (db : StoreDB) (gen : option str) (aid : str) (open : bool) (m : BindingMeta)
    (rows : list (str * BindingRow)) (nonce : str) (superseded : list str) : outcome store_error (str * list str) :=
  match rows with
  | [] => Ret (nonce, superseded)
  | (k, row) :: rows' =>
    match requests db !! k with
    | None => park_scan db gen aid open m rows' nonce superseded
    | Some q =>
      let n := b_meta row in
      let s := state (rq_state q) in
      let next := park_scan db gen aid open m rows'
        (if bool_decide (b_job_id n = b_job_id m) && bool_decide (b_tool_call_id n = b_tool_call_id m)
         then b_nonce n else nonce) superseded in
      let fail c := Raise (ApprovalExecutableBindingError c) in
      if negb (bool_decide (b_tenant_storage_id n = b_tenant_storage_id m)) then fail tenant_mismatch
      else if negb (bool_decide (b_tool_name n = b_tool_name m)) || negb (bool_decide (exec_state row = unclaimed))
      then fail call_identity_mismatch
      else if bool_decide (k = aid) then (if open then next else fail call_identity_mismatch)
      else if negb (is_none gen) && supersedable s
              && match linked_root_generation db n with
                 | None => false
                 | Some g => negb (bool_decide (Some g = gen))
                 end
      then park_scan db gen aid open m rows' nonce (superseded ++ [k])
      else if refused s then next
      else fail call_identity_mismatch
    end
  end.

Definition with_call (c : str) (i : RequestIdentity) : RequestIdentity :=
  mkIdentity (approval_id i) c (parent_approval_id i) (approval_chain_id i) (delegation_id i) (request_id i)
    (session_id i) (run_id i) (user_id i) (profile i) (channel i) (tool_name i) (tool_class i) (requested_at i)
    (tenant_id i) (skill i).
Definition with_tool_call (c : str) (q : ApprovalRequest) : ApprovalRequest :=
  mkRequest (with_call c (rq_id q)) (rq_terms q) (rq_policy q) (rq_state q) (notification q).
Definition with_nonce (n : str) (m : BindingMeta) : BindingMeta :=
  mkMeta (b_job_id m) (b_tool_call_id m) n (b_tenant_storage_id m) (b_tool_name m)
    (b_exact_backend m) (b_credential_ref m) (b_request_args_hash m).

Definition REISSUED_AS : str := u "approval policy generation changed; re-issued as ".

(** The predecessors expire. *)
Fixpoint expire_superseded (now : Z) (aid : str) (ks : list str) : A (list ApprovalRequest) :=
  match ks with
  | [] => se_ret []
  | k :: ks' =>
    let! predecessor := load_request k in
    let cs := rq_state predecessor in
    let! updated := lift_policy (post_init (with_req_state
      (mkReqState expired (state_version cs + 1) (expires_at cs) (Some now) (decider_id cs) (decider_role cs)
         (Some expired) (Some (REISSUED_AS ++ aid))) predecessor)) in
    let! _ := write_request_transition updated None in
    let! rest := expire_superseded now aid ks' in
    se_ret (updated :: rest)
  end.

(** The request of a park, moved to the pending call if need be. *)
Definition park_request (aid : str) (m : BindingMeta) (q : ApprovalRequest) (db : StoreDB) : A ApprovalRequest :=
  if bool_decide (tool_call_id (rq_id q) = b_tool_call_id m) then se_ret q
  else if undecided (state (rq_state q)) then
    let! _ := se_put (set_requests (<[aid := with_tool_call (b_tool_call_id m) q]> (requests db)) db) in
    lift_policy (post_init (with_tool_call (b_tool_call_id m) q))
  else binding_error call_identity_mismatch.

(** [_park_executable_binding_locked] *)
Definition park_locked (now : Z) (gen : option str) (aid : str) (m0 : BindingMeta) (input ctx : list (str * json))
    (texts : str * str) : A (str * list ApprovalRequest) :=
  let! db := se_get in
  match requests db !! aid with
  | None => binding_error missing_binding
  | Some q0 =>
    let! request := lift_policy (post_init q0) in
    let open := undecided (state (rq_state request)) in
    let! scan := se_lift (park_scan db gen aid open m0 (filter (park_match aid m0) (map_to_list (bindings db)))
                            (b_nonce m0) []) in
    let! request' := park_request aid m0 request db in
    let m := with_nonce scan.1 (with_args_hash (args_hash (rq_policy request')) m0) in
    let! _ := verify_request_identity aid m request' in
    match executable_operand_digest aid m input ctx with
    | None => se_raise StoreValueError
    | Some digest =>
      let! db1 := se_get in
      let kept := filter (fun kb => ~ park_match aid m0 kb) (bindings db1) in
      let! _ := se_put (set_bindings (<[aid := mkBinding m texts.1 texts.2 digest unclaimed None None None None]> kept) db1) in
      let! gone := expire_superseded now aid scan.2 in
      se_ret (scan.1, gone)
    end
  end.

(** [park_executable_binding] *)
Definition park_executable_binding (now : Z) (gen : option str) (aid : str) (m0 : BindingMeta)
    (input ctx : list (str * json)) : A str :=
  let! texts := se_lift (executable_binding_payload aid m0 input ctx) in
  transact (let! res := park_locked now gen aid m0 input ctx texts in se_ret res.1).

(** [_reissued_successor_locked] *)
Definition reissued_successor (predecessor : ApprovalRequest) (job call tenant : str)
    : A (option (ApprovalRequest * str * str)) :=
  let! db := se_get in
  match find_binding job call db with
  | Some (bound, row) =>
    if negb (bool_decide (b_tenant_storage_id (b_meta row) = tenant))
       || negb (bool_decide (decision_reason (rq_state predecessor) = Some (REISSUED_AS ++ bound))) then se_ret None
    else
      match mjoin ((fun kt : (str * str) * RootTurn =>
              if bool_decide (kt.1.1 = job) && bool_decide (rt_tenant_storage_id kt.2 = tenant)
              then (fun _ => kt.1.2) <$> filter (fun ref => ref = (call, b_nonce (b_meta row))) (rt_executable_refs kt.2)
              else []) <$> map_to_list (root_turns db)) with
      | [turn] =>
        let! successor := load_request bound in
        se_ret (Some (successor, b_nonce (b_meta row), turn))
      | _ => se_ret None
      end
  | None => se_ret None
  end.

(** [_root_turn_record_from_row] *)
Definition root_turn_input (job turn : str) (t : RootTurn) : outcome store_error RootTurnInput :=
  if negb (bool_decide (turn_digest job turn t = Some (rt_snapshot_digest t)))
  then Raise (RootTurnRecordError snapshot_mismatch)
  else match json_loads (rt_capability_bind_json t), json_loads (rt_effective_grant_json t),
             json_loads (rt_research_binding_json t), json_loads (rt_selection_snapshot_json t),
             json_loads (rt_selection_provenance_json t) with
  | Some cap, Some grant, Some research, Some sel, Some prov =>
    Ret (mkTurnInput cap (rt_credential_ref t) grant research sel prov (rt_approval_route_kind t) (rt_generation_ref t))
  | _, _, _, _, _ => Raise (RootTurnRecordError snapshot_mismatch)
  end.

Definition with_generation (ref : str) (i : RootTurnInput) : RootTurnInput :=
  mkTurnInput (ri_capability_bind i) (ri_credential_ref i) (ri_effective_grant i) (ri_research_binding i)
    (ri_selection_snapshot i) (ri_selection_provenance i) (ri_approval_route_kind i) ref.

(** The successor request of a re-issue. *)
Definition successor_request (new_id : str) (now : Z) (g : PolicyGeneration) (q : ApprovalRequest) : ApprovalRequest :=
  let i := rq_id q in
  let p := rq_policy q in
  mkRequest
    (mkIdentity new_id (tool_call_id i) (parent_approval_id i) (approval_chain_id i) (delegation_id i) (request_id i)
       (session_id i) (run_id i) (user_id i) (profile i) (channel i) (tool_name i) (tool_class i) now
       (tenant_id i) (skill i))
    (rq_terms q)
    (mkPolicy (tool_args_redacted p) (args_hash p) (reason p) (blast_radius_summary p) (args_predicate p)
       (pg_policy_id g) (pg_policy_version g) (pg_policy_bundle_hash g) (persistent_grant_scope p)
       (notification_policy p) (authorization_mode p) (grant_reference p) (cache_reference p))
    (mkReqState created 0 None None None None None None) None.

(** [reissue_parked_approval]; the new approval id, turn id and nonce are the
    random draws. *)
Definition reissue_parked_approval (now : Z) (new_id new_turn new_nonce : str) (aid job call nonce turn tenant gref : str)
    (g : PolicyGeneration) : A (ApprovalRequest * str * str * bool) :=
  transact (
    let! db := se_get in
    match requests db !! aid with
    | None => se_raise (RootTurnRecordError missing_root_turn)
    | Some row =>
      let! request := lift_policy (post_init row) in
      let! issued := (if bool_decide (state (rq_state request) = expired)
                      then reissued_successor request job call tenant else se_ret None) in
      match issued with
      | Some (successor, n, t) => se_ret (successor, n, t, false)
      | None =>
        match root_turns db !! (job, turn) with
        | None => se_raise (RootTurnRecordError missing_root_turn)
        | Some t =>
          if negb (bool_decide (rt_tenant_storage_id t = tenant))
          then se_raise (RootTurnRecordError missing_root_turn)
          else
            let! record := se_lift (root_turn_input job turn t) in
            let! found := read_executable_binding job call nonce tenant in
            let b := found.1 in
            let! successor := lift_policy (revalidate_approval_request (successor_request new_id now g request)) in
            let! _ := insert_request successor in
            let! _ := record_root_turn_locked now job new_turn tenant (with_generation gref record) None in
            let m := mkMeta job call new_nonce tenant (b_tool_name (x_meta b)) (b_exact_backend (x_meta b))
                       (b_credential_ref (x_meta b)) [] in
            let! texts := se_lift (executable_binding_payload new_id m (x_prepared_input b) (x_dispatch_context b)) in
            let! parked := park_locked now (Some gref) new_id m (x_prepared_input b) (x_dispatch_context b) texts in
            let! _ := link_root_turn_locked job new_turn call parked.1 tenant in
            let! current := load_request new_id in
            let cs := rq_state current in
            let! final := lift_policy (post_init (with_req_state
              (mkReqState pending_user (state_version cs + 1)
                 (match expires_at (rq_state request) with
                  | Some e => Some (now + (e - requested_at (rq_id request)))%Z
                  | None => expires_at cs
                  end) (decided_at cs) (decider_id cs) (decider_role cs) (decision cs) (decision_reason cs)) current)) in
            let! _ := write_request_transition final None in
            se_ret (final, parked.1, new_turn, true)
        end
      end
    end).

End parking.

End ApprovalParking.
