(* ===== verification/ApprovalLifecycle.v ===== *)
(** * ApprovalLifecycle: what the approval store guarantees

    The methods of [ApprovalStore] and [ApprovalParking] as steps on one store,
    an abstract specification of them as atomic effects on single tables
    ([store_effect]), the refinement of the first by the second, and the
    properties of every reachable store: at-most-once execution and replay,
    forward-only rows, votes, cancellation, parking, grants and delegations. *)
From S2P Require Import Prelude ApprovalPolicy ApprovalStore ApprovalParking.
Import ApprovalPolicy ApprovalStore ApprovalParking.

Module ApprovalLifecycle.

Section lifecycle.
Context {env : StoreEnv}.

(** ** Atomic effects

    What the transactions may do to the tables, one table at a time. The
    methods refine sequences of these ([store_methods_refine_effects]); the invariants
    below are proved on the effects. *)

(** The identity a binding shares with its request. *)
Definition binding_agrees (aid : str) (m : BindingMeta) (q : ApprovalRequest) : Prop :=
  user_id (rq_id q) = b_tenant_storage_id m /\ approval_id (rq_id q) = aid /\
  tool_call_id (rq_id q) = b_tool_call_id m /\ tool_name (rq_id q) = b_tool_name m /\
  args_hash (rq_policy q) = b_request_args_hash m.

(** What minting a grant requires of its source approval. *)
Definition mintable (src : ApprovalRequest) (g : PersistentGrant) : Prop :=
  approval_constraint (rq_terms src) = standard /\
  user_id (rq_id src) = g_user_id g /\ tool_name (rq_id src) = g_tool_name g /\
  approval_reuse_mode (rq_terms src) <> disabled /\
  (approval_reuse_mode (rq_terms src) = exact -> approval_reuse_key (rq_terms src) = Some (scope_hint g)).

Definition maybe_revoked (g g' : PersistentGrant) : Prop := g' = g \/ exists w, g' = revoke_grant w g.

Definition delegation_le (g g' : DelegationGrant) : Prop :=
  (is_Some (dl_consumed_at g) -> dl_consumed_at g' = dl_consumed_at g) /\
  (is_Some (dl_revoked_at g) -> is_Some (dl_revoked_at g')).

Inductive store_effect (db : StoreDB) : StoreDB -> Prop :=
| effect_insert aid q :
    requests db !! aid = None -> approval_id (rq_id q) = aid -> post_init q = Ret q ->
    store_effect db (set_requests (<[aid := q]> (requests db)) db)
| effect_policy aid row p :
    requests db !! aid = Some row ->
    (forall b, bindings db !! aid = Some b -> args_hash p = b_request_args_hash (b_meta b)) ->
    store_effect db (set_requests (<[aid := with_policy p row]> (requests db)) db)
| effect_state aid row s :
    requests db !! aid = Some row ->
    state_version s = (state_version (rq_state row) + 1)%Z ->
    (is_terminal_state (state (rq_state row)) = true -> is_terminal_state (state s) = true) ->
    store_effect db (set_requests (<[aid := with_req_state s row]> (requests db)) db)
| effect_vote aid v :
    votes db !! (aid, v_decider_id v) = None -> v_approval_id v = aid ->
    store_effect db (set_votes (<[(aid, v_decider_id v) := v]> (votes db)) db)
| effect_bind aid m q i c d :
    bindings db !! aid = None -> find_binding (b_job_id m) (b_tool_call_id m) db = None ->
    requests db !! aid = Some q -> binding_agrees aid m q ->
    store_effect db (set_bindings (<[aid := mkBinding m i c d unclaimed None None None None]> (bindings db)) db)
| effect_claim aid row q version token :
    bindings db !! aid = Some row -> exec_state row = unclaimed ->
    requests db !! aid = Some q -> state_version (rq_state q) = version -> approval_is_executable q = true ->
    store_effect db (set_bindings (<[aid := set_execution claimed (Some token) (Some version) None None row]> (bindings db)) db)
| effect_complete aid row version token text digest :
    bindings db !! aid = Some row -> exec_state row = claimed ->
    exec_claim_token row = Some token -> exec_decision_version row = Some version ->
    store_effect db (set_bindings (<[aid :=
      set_execution completed (Some token) (Some version) (Some text) (Some digest) row]> (bindings db)) db)
| effect_mint g src :
    grants db !! grant_id g = None -> requests db !! granted_via_approval_id g = Some src -> mintable src g ->
    fences db !! granted_via_approval_id g = None ->
    store_effect db (set_grants (<[grant_id g := g]> (grants db)) db)
| effect_revoke m :
    (forall gid, option_Forall2 maybe_revoked (grants db !! gid) (m !! gid)) ->
    store_effect db (set_grants m db)
| effect_fence aid now :
    fences db !! aid = None -> store_effect db (set_fences (<[aid := now]> (fences db)) db)
| effect_delegation m :
    (forall did g, delegations db !! did = Some g -> exists g', m !! did = Some g' /\ delegation_le g g') ->
    store_effect db (set_delegations m db)
| effect_outbox l : store_effect db (set_outbox l db)
| effect_unbind m :
    (forall k row, bindings db !! k = Some row -> m !! k = Some row \/ (m !! k = None /\ exec_state row = unclaimed)) ->
    (forall k row, m !! k = Some row -> bindings db !! k = Some row) ->
    store_effect db (set_bindings m db)
| effect_rename aid row call :
    requests db !! aid = Some row -> bindings db !! aid = None -> is_terminal_state (state (rq_state row)) = false ->
    store_effect db (set_requests (<[aid := with_tool_call call row]> (requests db)) db)
| effect_turns m : store_effect db (set_root_turns m db)
| effect_generations m : store_effect db (set_generations m db).

(** ** The methods as steps; the flag says whether the call returned. *)
Definition is_ret {E X} (o : outcome E X) : bool := match o with Ret _ => true | Raise _ => false end.

Inductive store_step (db : StoreDB) : bool -> StoreDB -> Prop :=
| step_create q db' r : create q db = (db', r) -> store_step db (is_ret r) db'
| step_create_or_get q db' r : create_or_get_by_tool_call_id q db = (db', r) -> store_step db (is_ret r) db'
| step_update q db' r : update_request q db = (db', r) -> store_step db (is_ret r) db'
| step_transition now aid st ex e d ro de rs db' r :
    transition_state now aid st ex e d ro de rs db = (db', r) -> store_step db (is_ret r) db'
| step_cancel now aid call usr req run sess chan d ro rs db' r :
    terminalize_pending_for_cancellation now aid call usr req run sess chan d ro rs db = (db', r) ->
    store_step db (is_ret r) db'
| step_abort now aid call usr req run sess chan rs db' r :
    abort_unpublished_approval now aid call usr req run sess chan rs db = (db', r) -> store_step db (is_ret r) db'
| step_vote aid v db' r : record_vote aid v db = (db', r) -> store_step db (is_ret r) db'
| step_record aid m i c db' r :
    record_executable_binding aid m i c db = (db', r) -> store_step db (is_ret r) db'
| step_generation g cur db' r : record_policy_generation g cur db = (db', r) -> store_step db (is_ret r) db'
| step_turn now job turn tenant i cr db' r :
    record_root_turn now job turn tenant i cr db = (db', r) -> store_step db (is_ret r) db'
| step_link job turn call n tenant db' r :
    link_root_turn_executable_binding job turn call n tenant db = (db', r) -> store_step db (is_ret r) db'
| step_park now gen aid m i c db' r :
    park_executable_binding now gen aid m i c db = (db', r) -> store_step db (is_ret r) db'
| step_reissue now nid nturn nn aid job call n turn tenant gref g db' r :
    reissue_parked_approval now nid nturn nn aid job call n turn tenant gref g db = (db', r) ->
    store_step db (is_ret r) db'
| step_read_result b db' r : read_completed_executable_result b db = (db', r) -> store_step db (is_ret r) db'
| step_claim b v t db' r : claim_executable_binding b v t db = (db', r) -> store_step db (is_ret r) db'
| step_complete b v t res db' r : complete_executable_binding b v t res db = (db', r) -> store_step db (is_ret r) db'
| step_mint g db' r : create_persistent_grant g db = (db', r) -> store_step db (is_ret r) db'
| step_find usr tool scope now con reuse key db' r :
    find_persistent_grant usr tool scope now con reuse key db = (db', r) -> store_step db (is_ret r) db'
| step_revoke gid w db' r : revoke_persistent_grant gid w db = (db', r) -> store_step db (is_ret r) db'
| step_revoke_via aid w db' r : revoke_persistent_grants_for_approval aid w db = (db', r) -> store_step db (is_ret r) db'
| step_fence now aid call usr req run sess chan db' r :
    fence_persistent_grants_for_cancellation now aid call usr req run sess chan db = (db', r) ->
    store_step db (is_ret r) db'
| step_delegate did g db' r : create_delegation_grant did g db = (db', r) -> store_step db (is_ret r) db'
| step_claim_delegation did rid sid now db' r :
    claim_delegation_grant did rid sid now db = (db', r) -> store_step db (is_ret r) db'
| step_revoke_delegation did w db' r : revoke_delegation_grant did w db = (db', r) -> store_step db (is_ret r) db'.

Definition any_step (db db' : StoreDB) : Prop := exists ok, store_step db ok db'.
Definition empty_store (raw : gset str) (reserved : list (str * str * str)) : StoreDB := mkStore ∅ ∅ ∅ ∅ ∅ ∅ ∅ ∅ [] raw reserved.

(** ** Lemmas: running a method *)
Lemma lift_policy_ret {X} (o : outcome policy_error X) db db' x :
  lift_policy o db = (db', Ret x) -> db' = db /\ o = Ret x.
Proof. destruct o; [intros [= <- <-]; done|done]. Qed.
Lemma guard_ret b e db db' x : guard b e db = (db', Ret x) -> db' = db /\ b = true.
Proof. destruct b; [intros [= <- _]; done|done]. Qed.

Lemma is_none_true {X} (o : option X) : is_none o = true -> o = None.
Proof. by destruct o. Qed.

(** Decompose a returning run into its steps. *)
Ltac run_step :=
  first [se_core
  | match goal with
    | H : lift_policy _ _ = (_, Ret _) |- _ => apply lift_policy_ret in H as [-> H]
    | H : guard _ _ _ = (_, Ret _) |- _ => apply guard_ret in H as [-> H]
    | H : binding_error _ _ = (_, Ret _) |- _ => discriminate H
    | H : post_init ?q = Ret ?q' |- _ =>
      is_var q'; tryif constr_eq q q' then fail else idtac; pose proof (post_init_ret _ _ H); subst q'
    end
  | se_case].
Ltac run_ret := repeat (cbv beta zeta in *; run_step).

Lemma load_request_ret aid db db' q :
  load_request aid db = (db', Ret q) -> db' = db /\ requests db !! aid = Some q /\ post_init q = Ret q.
Proof. unfold load_request. intros H. run_ret. naive_solver. Qed.
Lemma refuse_raw_claim_ret aid db db' x :
  refuse_raw_claim aid db = (db', Ret x) -> db' = db /\ aid ∉ raw_patch_claims db.
Proof. unfold refuse_raw_claim. intros H. run_ret. bool_prop. done. Qed.
Lemma require_unreserved_ret aid call n db db' x :
  require_unreserved aid call n db = (db', Ret x) -> db' = db /\ publication_reserved aid call n db = false.
Proof. unfold require_unreserved. intros H. run_ret. bool_prop. done. Qed.
Lemma insert_request_ret q db db' x :
  insert_request q db = (db', Ret x) ->
  requests db !! approval_id (rq_id q) = None /\
  db' = set_requests (<[approval_id (rq_id q) := q]> (requests db)) db.
Proof.
  unfold insert_request. intros H. run_ret. bool_prop. split; [|done]. by apply eq_None_not_Some.
Qed.
Lemma verify_request_identity_ret aid m q db db' x :
  verify_request_identity aid m q db = (db', Ret x) -> db' = db /\ binding_agrees aid m q.
Proof. unfold verify_request_identity. intros H. run_ret. bool_prop. done. Qed.

Lemma find_binding_some job call db aid row :
  find_binding job call db = Some (aid, row) ->
  bindings db !! aid = Some row /\ b_job_id (b_meta row) = job /\ b_tool_call_id (b_meta row) = call.
Proof.
  unfold find_binding. intros H%head_Some_elem_of.
  apply list_elem_of_filter in H as [[? ?] Hl%elem_of_map_to_list]. done.
Qed.
Lemma find_binding_none job call db aid row :
  find_binding job call db = None -> bindings db !! aid = Some row ->
  b_job_id (b_meta row) = job -> b_tool_call_id (b_meta row) = call -> False.
Proof.
  unfold find_binding. intros H Hl Hj Hc.
  assert (Hin : (aid, row) ∈ filter (fun kb : str * BindingRow =>
      b_job_id (b_meta kb.2) = job /\ b_tool_call_id (b_meta kb.2) = call) (map_to_list (bindings db))).
  { apply list_elem_of_filter. split; [done|]. by apply elem_of_map_to_list. }
  destruct (filter _ _); [by apply not_elem_of_nil in Hin|done].
Qed.

(** The one statement that writes a request's state. *)
Lemma write_transition_ret q row cmp db db' n :
  write_request_transition q cmp db = (db', Ret n) ->
  requests db !! approval_id (rq_id q) = Some row ->
  (n = 0 /\ db' = db /\ (cmp = None -> False)) \/
  (n = 1 /\ db' = set_requests (<[approval_id (rq_id q) := with_req_state (rq_state q) row]> (requests db)) db /\
   match cmp with
   | Some c => cancel_where c row = true
   | None => is_terminal_state (state (rq_state q)) = false -> is_terminal_state (state (rq_state row)) = false
   end).
Proof.
  unfold write_request_transition. intros H Hl. apply se_bind_ret in H as (d0 & d1 & Hg & H).
  injection Hg as <- <-. cbv beta zeta in H. rewrite Hl in H.
  apply se_bind_ret in H as (k & d2 & Hw & H).
  destruct cmp as [c|]; simpl in *.
  - destruct (cancel_where c row) eqn:Hc; run_ret; simpl in *; naive_solver.
  - right. destruct (is_terminal_state (state (rq_state q))) eqn:Ht; simpl in *.
    + run_ret. done.
    + destruct (is_terminal_state (state (rq_state row))) eqn:Hr; simpl in *; run_ret; simpl in *; naive_solver.
Qed.

Lemma write_transition_cancel q row c db db' :
  write_request_transition q (Some c) db = (db', Ret 1) -> requests db !! approval_id (rq_id q) = Some row ->
  db' = set_requests (<[approval_id (rq_id q) := with_req_state (rq_state q) row]> (requests db)) db /\
  cancel_where c row = true.
Proof. intros H Hl. destruct (write_transition_ret _ _ _ _ _ _ H Hl) as [(? & _)|(_ & ? & ?)]; [done|auto]. Qed.

Lemma write_transition_plain q row db db' n :
  write_request_transition q None db = (db', Ret n) -> requests db !! approval_id (rq_id q) = Some row ->
  db' = set_requests (<[approval_id (rq_id q) := with_req_state (rq_state q) row]> (requests db)) db /\
  (is_terminal_state (state (rq_state row)) = true -> is_terminal_state (state (rq_state q)) = true).
Proof.
  intros H Hl. destruct (write_transition_ret _ _ _ _ _ _ H Hl) as [(_ & _ & Hf)|(_ & ? & Hi)]; [by destruct Hf|].
  split; [done|]. intros Hr. destruct (is_terminal_state (state (rq_state q))); [done|]. rewrite Hi in Hr; done.
Qed.

(** A request is stored under its own id. *)
Definition keyed (db : StoreDB) : Prop :=
  forall aid q, requests db !! aid = Some q -> approval_id (rq_id q) = aid.

Lemma effect_keyed db db' : store_effect db db' -> keyed db -> keyed db'.
Proof.
  intros He Hk. destruct He; try exact Hk; intros a q'; simpl; rewrite lookup_insert_Some;
    intros [[<- <-]|[_ ?]]; simpl; eauto.
Qed.

Lemma create_effect q db db' r : create q db = (db', Ret r) -> rtc store_effect db db'.
Proof.
  unfold create, revalidate_approval_request. intros H. run_ret.
  match goal with H : insert_request _ _ = _ |- _ => apply insert_request_ret in H as [? ->] end.
  apply rtc_once. by constructor.
Qed.

Lemma create_or_get_effect q db db' r :
  create_or_get_by_tool_call_id q db = (db', Ret r) -> rtc store_effect db db'.
Proof.
  unfold create_or_get_by_tool_call_id, revalidate_approval_request. intros H. run_ret; [done|].
  match goal with H : insert_request _ _ = _ |- _ => apply insert_request_ret in H as [? ->] end.
  apply rtc_once. by constructor.
Qed.

Lemma update_request_effect q db db' r : update_request q db = (db', Ret r) -> rtc store_effect db db'.
Proof.
  unfold update_request, revalidate_approval_request. intros H. run_ret;
  match goal with H : refuse_raw_claim _ _ = _ |- _ => apply refuse_raw_claim_ret in H as [-> _] end;
  try match goal with H : verify_request_identity _ _ _ _ = _ |- _ => apply verify_request_identity_ret in H as [-> ?] end;
  apply rtc_once; constructor; [done|intros b' Hb'; simplify_eq|done|intros b' Hb'; simplify_eq].
  unfold binding_agrees in *. by destruct_and!.
Qed.

Lemma transition_state_effect now aid st ex e d ro de rs db db' r :
  keyed db -> transition_state now aid st ex e d ro de rs db = (db', Ret r) ->
  exists row, requests db !! aid = Some row /\ rq_id r = rq_id row /\ rq_terms r = rq_terms row /\
    state (rq_state r) = st /\
    state_version (rq_state r) = (state_version (rq_state row) + 1)%Z /\
    (is_terminal_state (state (rq_state row)) = true -> is_terminal_state st = true) /\
    db' = set_requests (<[aid := with_req_state (rq_state r) row]> (requests db)) db.
Proof.
  unfold transition_state. intros Hk H. run_ret.
  match goal with H : refuse_raw_claim _ _ = _ |- _ => apply refuse_raw_claim_ret in H as [-> _] end.
  match goal with H : requests db !! aid = Some ?a |- _ => rename a into row; pose proof (Hk _ _ H) as Hid end.
  match goal with H : write_request_transition _ _ _ = _ |- _ =>
    eapply write_transition_plain in H as [-> ?]; [|simpl; rewrite Hid; eassumption] end.
  simpl in *. exists row. rewrite Hid. done.
Qed.

(** Cancellation, by its three returns. *)
Lemma cancel_ret now aid call usr req run sess chan d ro rs db db' q t m :
  keyed db ->
  terminalize_locked now aid call usr req run sess chan d ro rs db = (db', Ret (q, t, m)) ->
  publication_reserved aid None None db = false /\
  exists row, requests db !! aid = Some row /\
    m = identity_matches call usr req run sess chan row /\
    ((t = false /\ q = row /\ db' = db /\ (m = true -> state (rq_state row) <> pending_user)) \/
     (t = true /\ m = true /\ state (rq_state row) = pending_user /\ aid ∉ raw_patch_claims db /\
      q = with_req_state (mkReqState denied (state_version (rq_state row) + 1) (expires_at (rq_state row)) (Some now)
           (or_else d (decider_id (rq_state row))) (or_else ro (decider_role (rq_state row)))
           (Some denied) (Some rs)) row /\
      db' = set_requests (<[aid := q]> (requests db)) db)).
Proof.
  unfold terminalize_locked. intros Hk H. run_ret; subst t m;
  match goal with H : require_unreserved _ _ _ _ = _ |- _ => apply require_unreserved_ret in H as [-> ?] end;
  match goal with H : load_request _ _ = _ |- _ => apply load_request_ret in H as (-> & Hl & _) end;
  (split; [done|]); bool_prop; eexists; (split; [eassumption|]).
  - split; [symmetry; assumption|]. left. done.
  - split; [symmetry; assumption|]. left. done.
  - match goal with H : refuse_raw_claim _ _ = _ |- _ => apply refuse_raw_claim_ret in H as [-> ?] end.
    split; [symmetry; assumption|]. right.
    match goal with H : (_ =? 1) = true |- _ => apply Nat.eqb_eq in H; subst end.
    pose proof (Hk _ _ Hl) as Hid.
    match goal with H : write_request_transition _ _ _ = _ |- _ =>
      eapply write_transition_cancel in H as [-> _]; [|simpl; rewrite Hid; eassumption] end.
    simpl. rewrite Hid. by destruct x1.
Qed.

Lemma cancel_locked_effect now aid call usr req run sess chan d ro rs db db' r :
  keyed db -> terminalize_locked now aid call usr req run sess chan d ro rs db = (db', Ret r) ->
  rtc store_effect db db'.
Proof.
  destruct r as [[q t] m]. intros Hk H.
  destruct (cancel_ret _ _ _ _ _ _ _ _ _ _ _ _ _ _ _ _ Hk H) as (_ & row & Hl & _ & [(_ & _ & -> & _)|(_ & _ & Hp & _ & -> & ->)]);
    [done|].
  apply rtc_once. apply (effect_state db aid row); [done|done|]. simpl. by rewrite Hp.
Qed.
Lemma cancel_effect now aid call usr req run sess chan d ro rs db db' r :
  keyed db ->
  terminalize_pending_for_cancellation now aid call usr req run sess chan d ro rs db = (db', Ret r) ->
  rtc store_effect db db'.
Proof. intros Hk H. apply (proj1 (transact_ret _ _ _ _)) in H. exact (cancel_locked_effect _ _ _ _ _ _ _ _ _ _ _ _ _ _ Hk H). Qed.

Lemma revoke_all_maybe (f : PersistentGrant -> bool) (w : Z) (m : gmap str PersistentGrant) (gid : str) :
  option_Forall2 maybe_revoked (m !! gid) (((fun g => if f g then revoke_grant w g else g) <$> m) !! gid).
Proof.
  rewrite lookup_fmap. destruct (m !! gid) as [g|]; simpl; constructor.
  unfold maybe_revoked. destruct (f g); eauto.
Qed.

Lemma revoke_active_ret w aid db db' n :
  revoke_active_via w aid db = (db', Ret n) ->
  db' = set_grants ((fun g => if active_via aid g then revoke_grant w g else g) <$> grants db) db.
Proof. unfold revoke_active_via. intros H. by run_ret. Qed.

Lemma revoke_active_effect w aid db db' n :
  revoke_active_via w aid db = (db', Ret n) -> store_effect db db'.
Proof. intros ->%revoke_active_ret. apply effect_revoke. intros gid. apply revoke_all_maybe. Qed.

Lemma abort_effect now aid call usr req run sess chan rs db db' r :
  keyed db -> abort_unpublished_approval now aid call usr req run sess chan rs db = (db', Ret r) ->
  rtc store_effect db db'.
Proof.
  unfold abort_unpublished_approval. intros Hk H. run_ret;
  match goal with H : load_request _ _ = _ |- _ => apply load_request_ret in H as (-> & Hl & _) end; [done|..];
  match goal with H : refuse_raw_claim _ _ = _ |- _ => apply refuse_raw_claim_ret in H as [-> _] end;
  match goal with H : revoke_active_via _ _ _ = _ |- _ => apply revoke_active_effect in H end.
  - eapply rtc_l; [eassumption|]. apply rtc_once, effect_outbox.
  - pose proof (Hk _ _ Hl) as Hid.
    match goal with H : write_request_transition _ _ _ = _ |- _ =>
      apply (fun H => write_transition_plain _ x _ _ _ H) in H as [-> ?]; [|simpl; rewrite Hid; exact Hl] end.
    match goal with H : store_effect _ _ |- _ => simpl in H; rewrite Hid in H; rename H into Hrev end.
    eapply rtc_l; [|eapply rtc_l; [exact Hrev|]; apply rtc_once, effect_outbox].
    by apply (effect_state db aid x).
Qed.

(** A vote on an open request. *)
Definition voted_state (v : ApprovalVote) (s : RequestState) : RequestState :=
  let st := if v_approved v then approved else denied in
  mkReqState st (state_version s + 1) (expires_at s) (Some (v_decided_at v))
    (Some (v_decider_id v)) (v_decider_role v) (Some st) (v_decision_reason v).

Lemma record_vote_locked_ret call aid v db db' r dec :
  keyed db -> record_vote_locked call aid v db = (db', Ret (r, dec)) ->
  exists row, requests db !! aid = Some row /\ matches_if call (tool_call_id (rq_id row)) = true /\
  ((is_terminal_state (state (rq_state row)) = true /\ dec = false /\ r = row /\ db' = db) \/
   (is_terminal_state (state (rq_state row)) = false /\ dec = true /\
    r = with_req_state (voted_state v (rq_state row)) row /\
    exists db1, db' = set_requests (<[aid := r]> (requests db)) db1 /\
     ((votes db !! (aid, v_decider_id v) = None /\
       db1 = set_votes (<[(aid, v_decider_id v) := v]> (votes db)) db) \/
      (db1 = db /\ exists w, votes db !! (aid, v_decider_id v) = Some w /\
        vote_id w = vote_id v /\ v_approved w = v_approved v)))).
Proof.
  unfold record_vote_locked. intros Hk H. run_ret; subst dec;
  match goal with H : load_request _ _ = _ |- _ => apply load_request_ret in H as (-> & Hl & _) end;
  (eexists; split; [eassumption|]; split; [assumption|]); [left; done|right..]; (split; [assumption|]; split; [done|]);
  pose proof (Hk _ _ Hl) as Hid;
  match goal with H : write_request_transition _ _ _ = _ |- _ =>
    eapply write_transition_plain in H as [-> _]; [|simpl; rewrite Hid; eassumption] end;
  simpl; rewrite Hid; (split; [done|]); eexists; (split; [done|]); [right|left; done].
  bool_prop. split; [done|]. eexists. split; [eassumption|]. split; [done|]. by apply eqb_prop.
Qed.

Lemma set_requests_votes m m' db :
  set_requests m (set_votes m' db) = set_votes m' (set_requests m db).
Proof. done. Qed.

Lemma record_vote_locked_effect call aid v db db' r :
  keyed db -> v_approval_id v = aid -> record_vote_locked call aid v db = (db', Ret r) -> rtc store_effect db db'.
Proof.
  destruct r as [r dec]. intros Hk Hv H.
  destruct (record_vote_locked_ret _ _ _ _ _ _ _ Hk H) as (row & Hl & _ & [(_ & _ & _ & ->)|(Ht & _ & -> & db1 & -> & Hc)]); [done|].
  assert (Hs : forall d, requests d = requests db ->
    store_effect d (set_requests (<[aid := with_req_state (voted_state v (rq_state row)) row]> (requests db)) d)).
  { intros d Hd. rewrite <- Hd in Hl |- *. apply (effect_state d aid row); [done|done|by rewrite Ht]. }
  destruct Hc as [[Hn ->]|[-> _]]; [|by apply rtc_once, Hs].
  eapply rtc_l; [apply (effect_vote db aid v Hn Hv)|]. by apply rtc_once, Hs.
Qed.
Lemma record_vote_body aid v db db' r :
  record_vote aid v db = (db', Ret r) ->
  v_approval_id v = aid /\ exists dec, record_vote_locked None aid v db = (db', Ret (r, dec)).
Proof.
  unfold record_vote. intros H. case_bool_decide as Hv; simpl in H; [|done]. split; [done|].
  run_ret. destruct x as [? dec]. by exists dec.
Qed.
Lemma record_vote_effect aid v db db' r :
  keyed db -> record_vote aid v db = (db', Ret r) -> rtc store_effect db db'.
Proof. intros Hk [Hv [dec H]]%record_vote_body. exact (record_vote_locked_effect _ _ _ _ _ _ Hk Hv H). Qed.

(** ** Lemmas: bindings *)
Lemma read_binding_ret job call nonce tenant db db' x q :
  read_executable_binding job call nonce tenant db = (db', Ret (x, q)) ->
  db' = db /\ exists row, bindings db !! x_approval_id x = Some row /\ x_meta x = b_meta row /\
    b_job_id (b_meta row) = job /\ b_tool_call_id (b_meta row) = call /\ x_operand_digest x = operand_digest row /\
    requests db !! x_approval_id x = Some q /\ binding_agrees (x_approval_id x) (b_meta row) q.
Proof.
  unfold read_executable_binding. intros H. run_ret.
  match goal with H : verify_request_identity _ _ _ _ = _ |- _ => apply verify_request_identity_ret in H as [-> ?] end.
  match goal with H : find_binding _ _ _ = _ |- _ => apply find_binding_some in H as (? & ? & ?) end.
  bool_prop. subst. simpl in *. split; [done|]. eexists. done.
Qed.

Lemma verify_attempt_ret b db db' q row :
  verify_executable_attempt b db = (db', Ret (q, row)) ->
  db' = db /\ bindings db !! x_approval_id b = Some row /\ requests db !! x_approval_id b = Some q /\
  binding_agrees (x_approval_id b) (b_meta row) q /\
  b_job_id (b_meta row) = b_job_id (x_meta b) /\ b_tool_call_id (b_meta row) = b_tool_call_id (x_meta b) /\
  operand_digest row = x_operand_digest b.
Proof.
  unfold verify_executable_attempt. intros H. run_ret.
  match goal with H : read_executable_binding _ _ _ _ _ = (_, Ret ?c) |- _ =>
    destruct c as [x q']; apply read_binding_ret in H as (-> & r & ? & ? & ? & ? & ? & ? & ?) end.
  simpl in *. unfold same_binding in *. bool_prop.
  match goal with H : x_approval_id x = _ |- _ => rewrite H in * end. simplify_eq.
  repeat (split; [done|]). congruence.
Qed.

Lemma read_result_db b row db db' r : read_executable_result b row db = (db', Ret r) -> db' = db.
Proof.
  unfold read_executable_result. intros H. run_ret; done.
Qed.

Lemma claim_ret b v t db db' r :
  claim_executable_binding b v t db = (db', Ret r) ->
  exists q row, bindings db !! x_approval_id b = Some row /\ requests db !! x_approval_id b = Some q /\
    binding_agrees (x_approval_id b) (b_meta row) q /\
    b_job_id (b_meta row) = b_job_id (x_meta b) /\ b_tool_call_id (b_meta row) = b_tool_call_id (x_meta b) /\
    ((exists res, r = Some res /\ exec_state row = completed /\ db' = db /\
        read_executable_result b row db = (db, Ret res)) \/
     (r = None /\ exec_state row = unclaimed /\ approval_is_executable q = true /\
      state_version (rq_state q) = v /\
      db' = set_bindings (<[x_approval_id b := set_execution claimed (Some t) (Some v) None None row]> (bindings db)) db)).
Proof.
  unfold claim_executable_binding. intros H.
  case_bool_decide; [done|].
  run_ret; match goal with H : verify_executable_attempt _ _ = (_, Ret ?c) |- _ =>
    destruct c as [q row]; apply verify_attempt_ret in H as (-> & ? & ? & ? & ? & ? & ?) end; simpl in *.
  - exists q, row. repeat (split; [done|]). right. simplify_eq.
    match goal with H : _ || _ = false |- _ => apply orb_false_iff in H as [?%negb_false_iff ?%negb_false_iff] end.
    split; [done|]. split; [done|]. split; [done|]. split; [by apply Z.eqb_eq|done].
  - match goal with H : read_executable_result _ _ _ = (_, Ret _) |- _ =>
      pose proof (read_result_db _ _ _ _ _ H); subst end.
    exists q, row. repeat (split; [done|]). left. eauto.
Qed.

Lemma complete_ret b v t res db db' x :
  complete_executable_binding b v t res db = (db', Ret x) ->
  exists q row text digest, executable_result_json res = Some text /\
    executable_result_digest b t v text = Some digest /\
    bindings db !! x_approval_id b = Some row /\ requests db !! x_approval_id b = Some q /\
    b_job_id (b_meta row) = b_job_id (x_meta b) /\ b_tool_call_id (b_meta row) = b_tool_call_id (x_meta b) /\
    exec_claim_token row = Some t /\ exec_decision_version row = Some v /\
    ((exec_state row = completed /\ db' = db) \/
     (exec_state row = claimed /\
      db' = set_bindings (<[x_approval_id b :=
        set_execution completed (Some t) (Some v) (Some text) (Some digest) row]> (bindings db)) db)).
Proof.
  unfold complete_executable_binding. intros H.
  case_bool_decide; [done|].
  run_ret; match goal with H : verify_executable_attempt _ _ = (_, Ret ?c) |- _ =>
    destruct c as [q row]; apply verify_attempt_ret in H as (-> & ? & ? & ? & ? & ? & ?) end; simpl in *; bool_prop.
  - match goal with H : read_executable_result _ _ _ = (_, Ret _) |- _ =>
      pose proof (read_result_db _ _ _ _ _ H); subst end.
    eexists q, row, _, _. repeat (split; [done|]). left. done.
  - simplify_eq. eexists q, row, _, _. repeat (split; [done|]). right. done.
Qed.

Lemma record_binding_effect aid m i c db db' x :
  record_executable_binding aid m i c db = (db', Ret x) -> rtc store_effect db db'.
Proof.
  unfold record_executable_binding. intros H. run_ret;
  match goal with H : verify_request_identity _ _ _ _ = _ |- _ => apply verify_request_identity_ret in H as [-> ?] end;
  [done|..].
  apply rtc_once.
  match goal with H : (match bindings db !! aid with Some _ => _ | None => _ end) = None |- _ =>
    destruct (bindings db !! aid) eqn:?; [done|] end.
  eapply effect_bind; eassumption.
Qed.

(** ** Lemmas: grants and delegations *)
Lemma mint_ret g db db' r :
  create_persistent_grant g db = (db', Ret r) ->
  r = g /\ grants db !! grant_id g = None /\ fences db !! granted_via_approval_id g = None /\
  (exists src, requests db !! granted_via_approval_id g = Some src /\ mintable src g /\
     state (rq_state src) = approved) /\
  db' = set_grants (<[grant_id g := g]> (grants db)) db.
Proof.
  unfold create_persistent_grant. intros H. run_ret. bool_prop.
  repeat match goal with H : is_none _ = true |- _ => apply is_none_true in H end.
  repeat (split; [done|]). split; [|done]. eexists. split; [reflexivity|]. split; [|done].
  unfold mintable. repeat (split; [done|]). intros Hx.
  match goal with H : bool_decide _ && _ = false |- _ => rewrite bool_decide_true in H by done; simpl in H end.
  by bool_prop.
Qed.

Lemma revoke_grant_effect gid w db db' x :
  revoke_persistent_grant gid w db = (db', Ret x) -> rtc store_effect db db'.
Proof.
  unfold revoke_persistent_grant. intros H. run_ret. apply rtc_once, effect_revoke. intros k.
  destruct (decide (k = gid)) as [->|Hne].
  - rewrite lookup_alter_eq. destruct (grants db !! gid); constructor. right. eauto.
  - rewrite lookup_alter_ne by done. destruct (grants db !! k); constructor. by left.
Qed.

Lemma fence_ret now aid call usr req run sess chan db db' q m :
  fence_persistent_grants_for_cancellation now aid call usr req run sess chan db = (db', Ret (q, m)) ->
  requests db !! aid = Some q /\ m = identity_matches call usr req run sess chan q /\
  rtc store_effect db db' /\ (m = false -> db' = db) /\ (m = true -> is_Some (fences db' !! aid)).
Proof.
  unfold fence_persistent_grants_for_cancellation. intros H. run_ret; subst;
  match goal with H : require_unreserved _ _ _ _ = _ |- _ => apply require_unreserved_ret in H as [-> _] end;
  match goal with H : load_request _ _ = _ |- _ => apply load_request_ret in H as (-> & ? & _) end; bool_prop;
  (split; [done|]); (split; [done|]); [done|].
  match goal with H : revoke_active_via _ _ _ = _ |- _ =>
    pose proof (revoke_active_ret _ _ _ _ _ H) as ->; apply revoke_active_effect in H end.
  split; [|split; [done|]].
  - destruct (fences db !! aid) eqn:Hf; (eapply rtc_l; [|by apply rtc_once]); [|by apply effect_fence].
    replace (set_fences (fences db) db) with (set_outbox (notification_outbox db) db) by done.
    apply effect_outbox.
  - intros _. simpl. destruct (fences db !! aid) eqn:Hf; [by rewrite Hf|]. by rewrite lookup_insert_eq.
Qed.

Lemma delegation_insert_effect did g g' db :
  delegations db !! did = g -> (forall h, g = Some h -> delegation_le h g') ->
  store_effect db (set_delegations (<[did := g']> (delegations db)) db).
Proof.
  intros Hl Hle. apply effect_delegation. intros k h Hk.
  destruct (decide (k = did)) as [->|Hne].
  - rewrite lookup_insert_eq. eexists. split; [done|]. apply Hle. congruence.
  - rewrite lookup_insert_ne by done. exists h. split; [done|]. split; auto.
Qed.

Lemma create_delegation_effect did g db db' r :
  create_delegation_grant did g db = (db', Ret r) -> rtc store_effect db db'.
Proof.
  unfold create_delegation_grant. intros H. run_ret.
  match goal with H : is_none _ = true |- _ => apply is_none_true in H end.
  eapply rtc_once, delegation_insert_effect; [eassumption|done].
Qed.

Lemma claim_delegation_ret did rid sid now db db' r :
  claim_delegation_grant did rid sid now db = (db', Ret r) ->
  (r = None /\ db' = db) \/
  exists g, delegations db !! did = Some g /\ delegation_claimable rid sid now g = true /\
    r = Some (set_delegation_times (dl_revoked_at g) (Some now) g) /\
    db' = set_delegations (<[did := set_delegation_times (dl_revoked_at g) (Some now) g]> (delegations db)) db.
Proof. unfold claim_delegation_grant. intros H. run_ret; naive_solver. Qed.

Lemma claim_delegation_effect did rid sid now db db' r :
  claim_delegation_grant did rid sid now db = (db', Ret r) -> rtc store_effect db db'.
Proof.
  intros H. apply claim_delegation_ret in H as [[_ ->]|(g & Hl & Hc & _ & ->)]; [done|].
  eapply rtc_once, delegation_insert_effect; [eassumption|]. intros h [= <-].
  unfold delegation_claimable in Hc. bool_prop.
  repeat match goal with H : is_none _ = true |- _ => apply is_none_true in H end.
  split; simpl; [|done]. intros [? ?]. congruence.
Qed.

Lemma revoke_delegation_effect did w db db' r :
  revoke_delegation_grant did w db = (db', Ret r) -> rtc store_effect db db'.
Proof.
  unfold revoke_delegation_grant. intros H. run_ret. apply rtc_once, effect_delegation. intros k g Hk.
  destruct (decide (k = did)) as [->|Hne].
  - rewrite lookup_alter_eq, Hk. simpl. eexists. split; [done|]. split; simpl; eauto.
  - rewrite lookup_alter_ne by done. exists g. split; [done|]. split; auto.
Qed.

Lemma read_completed_ret b db db' r : read_completed_executable_result b db = (db', Ret r) -> db' = db.
Proof.
  unfold read_completed_executable_result. intros H. run_ret;
  match goal with H : verify_executable_attempt _ _ = (_, Ret ?c) |- _ =>
    destruct c; apply verify_attempt_ret in H as (-> & _) end; [done|].
  by match goal with H : read_executable_result _ _ _ = _ |- _ => apply read_result_db in H end.
Qed.

Lemma find_grant_state usr tool scope now con reuse key db db' r :
  find_persistent_grant usr tool scope now con reuse key db = (db', r) -> db' = db.
Proof.
  unfold find_persistent_grant. case_bool_decide; cbn [negb]; [|by intros [= <- _]].
  destruct reuse; unfold se_bind, guard, se_get, se_ret, se_raise; intros Hf; crush_match.
Qed.

(** ** Every method is a transaction over the effects *)
Lemma claim_effect b v t db db' r : claim_executable_binding b v t db = (db', Ret r) -> rtc store_effect db db'.
Proof.
  intros H. apply claim_ret in H as (q & row & Hb & Hq & _ & _ & _ & [(res & _ & _ & -> & _)|(_ & Hu & He & Hv & ->)]); [done|].
  by eapply rtc_once, effect_claim.
Qed.
Lemma complete_effect b v t res db db' r :
  complete_executable_binding b v t res db = (db', Ret r) -> rtc store_effect db db'.
Proof.
  intros H. apply complete_ret in H as (q & row & text & dg & _ & _ & Hb & _ & _ & _ & Ht & Hv & [[_ ->]|[Hs ->]]); [done|].
  by eapply rtc_once, effect_complete.
Qed.
Lemma transition_effect now aid st ex e d ro de rs db db' r :
  keyed db -> transition_state now aid st ex e d ro de rs db = (db', Ret r) -> rtc store_effect db db'.
Proof.
  intros Hk H. destruct (transition_state_effect _ _ _ _ _ _ _ _ _ _ _ _ Hk H) as (row & Hl & _ & _ & Hs & Hv & Ht & ->).
  apply rtc_once. apply (effect_state db aid row); [done|done|by rewrite Hs].
Qed.
Lemma mint_effect g db db' r : create_persistent_grant g db = (db', Ret r) -> rtc store_effect db db'.
Proof. intros H. apply mint_ret in H as (_ & Hn & Hf & (src & Hl & Hm & _) & ->). by eapply rtc_once, effect_mint. Qed.
Lemma fence_effect now aid call usr req run sess chan db db' r :
  fence_persistent_grants_for_cancellation now aid call usr req run sess chan db = (db', Ret r) ->
  rtc store_effect db db'.
Proof. destruct r. intros H. by apply fence_ret in H as (_ & _ & He & _). Qed.

(** A raise leaves the tables as they were. *)
Ltac raise_same :=
  intros H; repeat match type of H with
  | transact _ _ = _ => by apply transact_raise in H
  | se_bind (lift_policy ?o) _ _ = _ => destruct o; [|by injection H as <- _]; cbn in H
  | se_bind (se_lift ?o) _ _ = _ => destruct o; [|by injection H as <- _]; unfold se_bind at 1 in H; cbn [se_lift] in H
  | (if ?b then _ else _) _ = _ => destruct b; [by injection H as <- _|]
  | (match ?o with Some _ => _ | None => _ end) _ = _ => destruct o; [|by injection H as <- _]
  end.
Lemma create_raise q db db' e : create q db = (db', Raise e) -> db' = db.
Proof. unfold create. raise_same. Qed.
Lemma create_or_get_raise q db db' e : create_or_get_by_tool_call_id q db = (db', Raise e) -> db' = db.
Proof. unfold create_or_get_by_tool_call_id. raise_same. Qed.
Lemma update_raise q db db' e : update_request q db = (db', Raise e) -> db' = db.
Proof. unfold update_request. raise_same. Qed.
Lemma vote_raise aid v db db' e : record_vote aid v db = (db', Raise e) -> db' = db.
Proof. unfold record_vote. raise_same. Qed.
Lemma claim_raise b v t db db' e : claim_executable_binding b v t db = (db', Raise e) -> db' = db.
Proof. unfold claim_executable_binding. raise_same. Qed.
Lemma complete_raise b v t res db db' e : complete_executable_binding b v t res db = (db', Raise e) -> db' = db.
Proof. unfold complete_executable_binding. raise_same. Qed.

Create HintDb store_effects.
#[local] Hint Resolve create_effect create_or_get_effect update_request_effect transition_effect cancel_effect
  abort_effect record_vote_effect record_binding_effect claim_effect complete_effect mint_effect
  revoke_grant_effect revoke_active_effect fence_effect create_delegation_effect claim_delegation_effect
  revoke_delegation_effect : store_effects.
#[local] Hint Resolve create_raise create_or_get_raise update_raise vote_raise claim_raise complete_raise
  transact_raise find_grant_state : store_effects.

(** An invariant of the effects is an invariant of the store. *)
Lemma effects_invariant (P : StoreDB -> Prop) db db' :
  (forall d d', store_effect d d' -> P d -> P d') -> rtc store_effect db db' -> P db -> P db'.
Proof. intros Hp He. induction He; eauto. Qed.

Lemma keyed_empty raw res : keyed (empty_store raw res).
Proof. intros aid q H. simpl in H. by rewrite lookup_empty in H. Qed.

(** ** Lemmas: how rows evolve *)
Definition request_le (q q' : ApprovalRequest) : Prop :=
  (exists c, rq_id q' = with_call c (rq_id q)) /\
  (is_terminal_state (state (rq_state q)) = true -> rq_id q' = rq_id q) /\
  rq_terms q' = rq_terms q /\ notification q' = notification q /\
  (state_version (rq_state q) <= state_version (rq_state q'))%Z /\
  (state_version (rq_state q') = state_version (rq_state q) -> rq_state q' = rq_state q) /\
  (is_terminal_state (state (rq_state q)) = true -> is_terminal_state (state (rq_state q')) = true).

Definition binding_le (b b' : BindingRow) : Prop :=
  b_meta b' = b_meta b /\ prepared_input_json b' = prepared_input_json b /\
  dispatch_context_json b' = dispatch_context_json b /\ operand_digest b' = operand_digest b /\
  match exec_state b with
  | unclaimed => True
  | claimed => b' = b \/ (exec_state b' = completed /\ exec_claim_token b' = exec_claim_token b /\
                          exec_decision_version b' = exec_decision_version b)
  | completed => b' = b
  end.

Lemma with_call_same i : with_call (tool_call_id i) i = i.
Proof. by destruct i. Qed.

#[local] Instance request_le_pre : PreOrder request_le.
Proof.
  split.
  - intros q. split; [exists (tool_call_id (rq_id q)); by rewrite with_call_same|]. by repeat split.
  - intros a b c ([x Hx] & ? & ? & ? & ? & Hab & ?) ([y Hy] & ? & ? & ? & ? & Hbc & ?).
    split; [exists y; by rewrite Hy, Hx|]. split; [intros Ht; transitivity (rq_id b); auto|].
    split; [congruence|]. split; [congruence|]. split; [lia|]. split; [|auto]. intros Hv.
    rewrite Hbc by lia. apply Hab. lia.
Qed.

#[local] Instance binding_le_pre : PreOrder binding_le.
Proof.
  split; [intros b; repeat split; destruct (exec_state b); auto|].
  intros a b c (? & ? & ? & ? & Hab) (? & ? & ? & ? & Hbc). unfold binding_le.
  do 4 (split; [congruence|]). destruct (exec_state a) eqn:Ha; [done| |].
  - destruct Hab as [->|(Hs & ? & ?)]; [by rewrite Ha in Hbc|]. rewrite Hs in Hbc. subst c. auto.
  - subst b. by rewrite Ha in Hbc.
Qed.

#[local] Instance delegation_le_pre : PreOrder delegation_le.
Proof.
  split; [by split|]. intros a b c [H1 H2] [H3 H4]. split; [|auto]. intros H. rewrite H3; [auto|]. by rewrite H1.
Qed.

(** Rows of a table persist and only move up. *)
Definition grows {X} (R : relation X) (m m' : gmap str X) : Prop :=
  forall k x, m !! k = Some x -> exists x', m' !! k = Some x' /\ R x x'.

Lemma grows_refl {X} (R : relation X) `{!Reflexive R} m : grows R m m.
Proof. intros k x Hx. eauto. Qed.
Lemma grows_insert {X} (R : relation X) `{!Reflexive R} m k x :
  (forall y, m !! k = Some y -> R y x) -> grows R m (<[k := x]> m).
Proof.
  intros Hr k' y Hy. destruct (decide (k = k')) as [<-|Hne].
  - rewrite lookup_insert_eq. eauto.
  - rewrite lookup_insert_ne by done. eauto.
Qed.
Lemma effects_grow {X} (get : StoreDB -> gmap str X) (R : relation X) `{!PreOrder R} db db' :
  (forall d d', store_effect d d' -> grows R (get d) (get d')) ->
  rtc store_effect db db' -> grows R (get db) (get db').
Proof.
  intros Hp He. induction He as [|d d1 d2 H1 _ IH]; [by apply grows_refl; apply _|].
  intros k x Hx. destruct (Hp _ _ H1 _ _ Hx) as (y & Hy & ?). destruct (IH _ _ Hy) as (z & ? & ?).
  exists z. split; [done|]. by etrans.
Qed.

Lemma request_le_intro q q' :
  rq_id q' = rq_id q -> rq_terms q' = rq_terms q -> notification q' = notification q ->
  (rq_state q' = rq_state q \/ (state_version (rq_state q') = (state_version (rq_state q) + 1)%Z /\
     (is_terminal_state (state (rq_state q)) = true -> is_terminal_state (state (rq_state q')) = true))) ->
  request_le q q'.
Proof.
  intros Hi Ht Hn Hs. split; [exists (tool_call_id (rq_id q)); by rewrite with_call_same|].
  do 3 (split; [done|]). destruct Hs as [->|[Hv Hterm]]; [done|]. split; [lia|]. split; [intros; lia|done].
Qed.

Lemma effect_requests db db' : store_effect db db' -> grows request_le (requests db) (requests db').
Proof.
  destruct 1; try (apply grows_refl, _); apply grows_insert; try apply _; intros y Hy; simplify_eq.
  - by apply request_le_intro; auto.
  - by apply request_le_intro; auto.
  - split; [by exists call|]. split; [by intros ?; simplify_eq/=; congruence|done].
Qed.

(** A reserved binding persists. *)
Lemma effect_reserved db db' aid row :
  store_effect db db' -> bindings db !! aid = Some row -> exec_state row <> unclaimed ->
  exists row', bindings db' !! aid = Some row' /\ binding_le row row' /\ exec_state row' <> unclaimed.
Proof.
  intros He Hb Hne.
  assert (Hsame : exists row', bindings db !! aid = Some row' /\ binding_le row row' /\ exec_state row' <> unclaimed)
    by by exists row.
  assert (Hins : forall k r, (k = aid -> binding_le row r /\ exec_state r <> unclaimed) ->
    exists row', <[k := r]> (bindings db) !! aid = Some row' /\ binding_le row row' /\ exec_state row' <> unclaimed).
  { intros k r Hk. destruct (decide (k = aid)) as [->|Hn]; [|by rewrite lookup_insert_ne].
    rewrite lookup_insert_eq. eexists. split; [done|]. auto. }
  destruct He as [| | | |k m q i c d Hn|k r q v t Hl Hs|k r v t x y Hl Hs Ht Hv| | | | | |m Hm| | |]; simpl; try exact Hsame;
    try (apply Hins; intros ->; simplify_eq).
  - split; [|done]. do 4 (split; [done|]). rewrite Hs. right. simpl. by rewrite Ht, Hv.
  - destruct (Hm _ _ Hb) as [?|[_ ?]]; [by exists row|done].
Qed.
Lemma effect_delegations db db' : store_effect db db' -> grows delegation_le (delegations db) (delegations db').
Proof. destruct 1; try (apply grows_refl, _); intros k g Hg; eauto. Qed.
Lemma effect_fences db db' : store_effect db db' -> grows (fun _ _ => True) (fences db) (fences db').
Proof. destruct 1; try (apply grows_refl; done); by apply grows_insert. Qed.

(** ** Well-formed stores *)
Record store_ok (db : StoreDB) : Prop := {
  ok_keyed : keyed db;
  ok_bound : forall aid row, bindings db !! aid = Some row ->
    exists q, requests db !! aid = Some q /\ binding_agrees aid (b_meta row) q;
  ok_unique : forall a1 a2 r1 r2, bindings db !! a1 = Some r1 -> bindings db !! a2 = Some r2 ->
    b_job_id (b_meta r1) = b_job_id (b_meta r2) -> b_tool_call_id (b_meta r1) = b_tool_call_id (b_meta r2) -> a1 = a2;
  ok_grants : forall gid g, grants db !! gid = Some g ->
    gid = grant_id g /\ exists src, requests db !! granted_via_approval_id g = Some src /\ mintable src g
}.

Lemma mintable_le src src' g g' :
  request_le src src' -> maybe_revoked g g' -> mintable src g -> mintable src' g'.
Proof. intros ([c Hi] & _ & Ht & _) Hg. unfold mintable. rewrite Hi, Ht. by destruct Hg as [->|[w ->]]. Qed.

Lemma effect_bound db db' : store_effect db db' -> store_ok db ->
  forall aid row, bindings db' !! aid = Some row ->
    exists q, requests db' !! aid = Some q /\ binding_agrees aid (b_meta row) q.
Proof.
  intros He [_ Hb _ _].
  destruct He as [a q Hn|a q p Hl Hp|a q s Hl|a v|a m q i c d Hn Hf Hq Hag|a r q v t Hl Hs|a r v t x y Hl Hs|?|?|?|?|?|m Hm Hsub|a q c Hl Hn Ht|?|?];
    simpl; try exact Hb; intros aid row.
  - intros Hr. destruct (Hb _ _ Hr) as (q' & Hq & ?). rewrite lookup_insert_ne by congruence. eauto.
  - intros Hr. destruct (Hb _ _ Hr) as (q' & Hq & Hag). destruct (decide (a = aid)) as [<-|Hne].
    + rewrite lookup_insert_eq. eexists. split; [done|]. simplify_eq.
      unfold binding_agrees in *. simpl. destruct_and!. by rewrite (Hp _ Hr).
    + rewrite lookup_insert_ne by done. eauto.
  - intros Hr. destruct (Hb _ _ Hr) as (q' & Hq & Hag). destruct (decide (a = aid)) as [<-|Hne].
    + rewrite lookup_insert_eq. eexists. split; [done|]. by simplify_eq.
    + rewrite lookup_insert_ne by done. eauto.
  - rewrite lookup_insert_Some. intros [[<- <-]|[_ Hr]]; eauto.
  - rewrite lookup_insert_Some. intros [[<- <-]|[_ Hr]]; [|eauto]. apply (Hb _ _ Hl).
  - rewrite lookup_insert_Some. intros [[<- <-]|[_ Hr]]; [|eauto]. apply (Hb _ _ Hl).
  - intros Hr. eauto.
  - intros Hr. rewrite lookup_insert_ne by congruence. eauto.
Qed.

(** Rewriting a binding in place keeps the (job, tool call) keys. *)
Lemma unique_insert (m : gmap str BindingRow) aid r r' :
  m !! aid = Some r -> b_meta r' = b_meta r ->
  (forall a1 a2 r1 r2, m !! a1 = Some r1 -> m !! a2 = Some r2 ->
    b_job_id (b_meta r1) = b_job_id (b_meta r2) -> b_tool_call_id (b_meta r1) = b_tool_call_id (b_meta r2) -> a1 = a2) ->
  forall a1 a2 r1 r2, <[aid := r']> m !! a1 = Some r1 -> <[aid := r']> m !! a2 = Some r2 ->
    b_job_id (b_meta r1) = b_job_id (b_meta r2) -> b_tool_call_id (b_meta r1) = b_tool_call_id (b_meta r2) -> a1 = a2.
Proof.
  intros Hl Hm Hu a1 a2 r1 r2. rewrite !lookup_insert_Some.
  intros [[<- <-]|[_ H1]] [[<- <-]|[_ H2]]; rewrite ?Hm; eauto.
Qed.

Lemma effect_unique db db' : store_effect db db' -> store_ok db ->
  forall a1 a2 r1 r2, bindings db' !! a1 = Some r1 -> bindings db' !! a2 = Some r2 ->
    b_job_id (b_meta r1) = b_job_id (b_meta r2) -> b_tool_call_id (b_meta r1) = b_tool_call_id (b_meta r2) -> a1 = a2.
Proof.
  intros He [_ _ Hu _]. destruct He as [| | | |a m q i c d Hn Hf| | | | | | | |m Hm Hsub| | |]; try exact Hu.
  - intros a1 a2 r1 r2. simpl. rewrite !lookup_insert_Some.
    intros [[<- <-]|[_ H1]] [[<- <-]|[_ H2]]; simpl; [done| | |eauto]; intros Hj Hc; exfalso.
    + by apply (find_binding_none _ _ _ _ _ Hf H2).
    + by apply (find_binding_none _ _ _ _ _ Hf H1).
  - by eapply unique_insert.
  - by eapply unique_insert.
  - simpl. eauto.
Qed.

Lemma effect_grants db db' : store_effect db db' -> store_ok db ->
  forall gid g, grants db' !! gid = Some g ->
    gid = grant_id g /\ exists src, requests db' !! granted_via_approval_id g = Some src /\ mintable src g.
Proof.
  intros He [_ _ _ Hg] gid g Hl.
  assert (Hold : grants db !! gid = Some g -> gid = grant_id g /\
    exists src, requests db' !! granted_via_approval_id g = Some src /\ mintable src g).
  { intros H. destruct (Hg _ _ H) as (? & src & Hs & Hm). split; [done|].
    destruct (effect_requests _ _ He _ _ Hs) as (src' & ? & Hle). exists src'. split; [done|].
    eapply mintable_le; [exact Hle|by left|done]. }
  destruct He as [| | | | | | |g' src Hn Hr Hm Hf|m Hm| | | | | | |]; simpl in Hl; try exact (Hold Hl).
  - apply lookup_insert_Some in Hl as [[<- <-]|[_ Hl]]; [eauto|exact (Hold Hl)].
  - specialize (Hm gid). rewrite Hl in Hm. inversion Hm as [g0 g1 Hmr H0|]; subst.
    destruct (Hg gid g0 ltac:(done)) as (-> & src & Hs & Hmt).
    destruct Hmr as [->|[w ->]]; simpl; (split; [done|]); exists src; (split; [done|]); exact Hmt.
Qed.

Lemma effect_ok db db' : store_effect db db' -> store_ok db -> store_ok db'.
Proof.
  intros He Hok. split; [eapply effect_keyed; [exact He|apply Hok]|by eapply effect_bound
    |by eapply effect_unique|by eapply effect_grants].
Qed.

Lemma empty_ok raw res : store_ok (empty_store raw res).
Proof. split; [apply keyed_empty|..]; intros *; simpl; by rewrite lookup_empty. Qed.

(** ** Lemmas: parking *)
Lemma park_scan_ret db gen aid open m rows n0 sup n sups :
  park_scan db gen aid open m rows n0 sup = Ret (n, sups) ->
  (forall k, k ∈ sup -> k ∈ sups) /\
  forall k row q, (k, row) ∈ rows -> requests db !! k = Some q ->
    exec_state row = unclaimed /\
    (k = aid \/ refused (state (rq_state q)) = true \/ k ∈ sups).
Proof.
  revert n0 sup. induction rows as [|[k0 r0] rows IH]; intros n0 sup H; cbn [park_scan] in H.
  { injection H as <- <-. split; [done|]. by intros k row q []%not_elem_of_nil. }
  destruct (requests db !! k0) as [q0|] eqn:Hq0.
  2: { destruct (IH _ _ H) as [Hs Hr]. split; [done|]. intros k row q [[= -> ->]|Hin]%elem_of_cons Hq; [congruence|eauto]. }
  cbv zeta in H. case_bool_decide as Ht; simpl in H; [|done]. case_bool_decide as Hn; simpl in H; [|done].
  case_bool_decide as Hu; simpl in H; [|done].
  assert (Hgo : forall n1 sup1, park_scan db gen aid open m rows n1 sup1 = Ret (n, sups) ->
    (forall k, k ∈ sup -> k ∈ sup1) -> (k0 = aid \/ refused (state (rq_state q0)) = true \/ k0 ∈ sup1) ->
    (forall k, k ∈ sup -> k ∈ sups) /\ forall k row q, (k, row) ∈ (k0, r0) :: rows -> requests db !! k = Some q ->
      exec_state row = unclaimed /\ (k = aid \/ refused (state (rq_state q)) = true \/ k ∈ sups)).
  { intros n1 sup1 H1 Hsub Hk. destruct (IH _ _ H1) as [Hs Hr]. split; [auto|].
    intros k row q [[= -> ->]|Hin]%elem_of_cons Hq; [|eauto]. rewrite Hq0 in Hq. injection Hq as <-.
    split; [done|]. naive_solver. }
  case_bool_decide as Hk; [destruct open; [|done]; by eapply Hgo; [exact H|auto|auto]|].
  destruct (_ && _) eqn:Hsup.
  - eapply Hgo; [exact H|intros k ?; apply elem_of_app; by left|]. right. right. apply elem_of_app. right. by left.
  - destruct (refused (state (rq_state q0))) eqn:Hr; [|done]. eapply Hgo; [exact H|auto|auto].
Qed.

Lemma expire_ret now aid ks db db' l :
  keyed db -> expire_superseded now aid ks db = (db', Ret l) ->
  rtc store_effect db db' /\ bindings db' = bindings db /\
  (forall k, k ∉ ks -> requests db' !! k = requests db !! k) /\
  (forall k, k ∈ ks -> exists q, requests db' !! k = Some q /\ state (rq_state q) = expired).
Proof.
  revert db l. induction ks as [|k ks IH]; intros db l Hk H; cbn [expire_superseded] in H.
  { run_ret. split; [done|]. split; [done|]. split; [done|]. by intros k []%not_elem_of_nil. }
  run_ret. match goal with H : load_request _ _ = (_, Ret ?q) |- _ =>
    apply load_request_ret in H as (-> & Hl & _); rename q into row end.
  pose proof (Hk _ _ Hl) as Hid.
  match goal with H : write_request_transition _ _ _ = _ |- _ =>
    apply (fun H => write_transition_plain _ row _ _ _ H) in H as [-> _]; [|simpl; rewrite Hid; exact Hl] end.
  simpl in *. rewrite Hid in *.
  set (s := mkReqState _ _ _ _ _ _ _ _) in *.
  assert (He : store_effect db (set_requests (<[k := with_req_state s row]> (requests db)) db)) by by apply effect_state.
  match goal with H : expire_superseded _ _ _ _ = _ |- _ =>
    apply IH in H as (Hr & Hb & Hsame & Hexp); [|by eapply effect_keyed] end.
  split; [by eapply rtc_l|]. split; [done|]. split.
  - intros k' Hnot. rewrite not_elem_of_cons in Hnot. destruct Hnot. rewrite Hsame by done. simpl.
    by rewrite lookup_insert_ne.
  - intros k' [->|Hin]%elem_of_cons; [|auto]. destruct (decide (k ∈ ks)); [auto|].
    rewrite Hsame by done. simpl. rewrite lookup_insert_eq. eauto.
Qed.

(** The bindings a park leaves alone. *)
Definition kept_bindings (aid : str) (m : BindingMeta) (db : StoreDB) : gmap str BindingRow :=
  filter (fun kb => ~ park_match aid m kb) (bindings db).

Lemma kept_none aid m db : kept_bindings aid m db !! aid = None.
Proof. apply map_lookup_filter_None. right. intros r _ Hn. apply Hn. by left. Qed.
Lemma kept_find_none aid m db R :
  find_binding (b_job_id m) (b_tool_call_id m) (set_bindings (kept_bindings aid m db) (set_requests R db)) = None.
Proof.
  destruct (find_binding _ _ _) as [[k r]|] eqn:Hf; [|done]. exfalso.
  apply find_binding_some in Hf as (Hk & Hj & Hc). apply map_lookup_filter_Some in Hk as [_ Hn]. apply Hn. by right.
Qed.

(** What a scan establishes of the rows to be replaced. *)
Definition replaceable (db : StoreDB) (aid : str) (m : BindingMeta) (sups : list str) : Prop :=
  forall k row, bindings db !! k = Some row -> park_match aid m (k, row) ->
    exists q, requests db !! k = Some q /\ exec_state row = unclaimed /\
      (k = aid \/ refused (state (rq_state q)) = true \/ k ∈ sups).

Lemma scan_replaceable db gen aid open m n0 n sups :
  store_ok db ->
  park_scan db gen aid open m (filter (park_match aid m) (map_to_list (bindings db))) n0 [] = Ret (n, sups) ->
  replaceable db aid m sups.
Proof.
  intros Hok [_ Hrows]%park_scan_ret k row Hk Hm. destruct (ok_bound _ Hok _ _ Hk) as (q & Hq & _).
  exists q. split; [done|]. apply (Hrows k row q); [|done]. apply list_elem_of_filter.
  split; [done|]. by apply elem_of_map_to_list.
Qed.

Lemma park_unbinds db aid m sups :
  replaceable db aid m sups -> store_effect db (set_bindings (kept_bindings aid m db) db).
Proof.
  intros Hr. apply effect_unbind.
  - intros k row Hk. destruct (decide (park_match aid m (k, row))) as [Hm|Hm].
    + right. destruct (Hr _ _ Hk Hm) as (q & _ & Hu & _). split; [|done].
      apply map_lookup_filter_None. right. intros r Hr'. simplify_eq. tauto.
    + left. by apply map_lookup_filter_Some.
  - intros k row Hk%map_lookup_filter_Some. tauto.
Qed.

Lemma park_renames aid m q db d1 q' :
  requests db !! aid = Some q -> park_request aid m q db db = (d1, Ret q') ->
  exists R, d1 = set_requests R db /\ R !! aid = Some q' /\
    (forall k, k <> aid -> R !! k = requests db !! k) /\
    rtc store_effect (set_bindings (kept_bindings aid m db) db) (set_bindings (kept_bindings aid m db) (set_requests R db)).
Proof.
  intros Hq. unfold park_request. case_bool_decide.
  { intros Hrun. run_ret. exists (requests db). by destruct db. }
  destruct (undecided (state (rq_state q))) eqn:Hund; [|done]. intros Hrun. run_ret.
  eexists. split; [done|]. split; [by rewrite lookup_insert_eq|]. split; [intros k Hne; by rewrite lookup_insert_ne|].
  apply rtc_once. apply (effect_rename (set_bindings (kept_bindings aid m db) db) aid q); [done|apply kept_none|].
  by destruct (state (rq_state q)).
Qed.

(** Parking unbinds what it replaces, renames, binds, and expires what it
    supersedes. *)
Lemma park_locked_ret now gen aid m0 i c texts db db' n gone :
  store_ok db -> park_locked now gen aid m0 i c texts db = (db', Ret (n, gone)) ->
  rtc store_effect db db' /\
  (exists row, bindings db' = <[aid := row]> (kept_bindings aid m0 db) /\
     exec_state row = unclaimed /\ b_nonce (b_meta row) = n /\ b_job_id (b_meta row) = b_job_id m0 /\
     b_tool_call_id (b_meta row) = b_tool_call_id m0 /\ b_tenant_storage_id (b_meta row) = b_tenant_storage_id m0) /\
  (forall k row, bindings db !! k = Some row -> park_match aid m0 (k, row) ->
     exec_state row = unclaimed /\
     (k = aid \/ exists q, requests db' !! k = Some q /\ refused (state (rq_state q)) = true)).
Proof.
  intros Hok H. unfold park_locked in H.
  apply se_bind_ret in H as (d0 & d1 & Hg & H). injection Hg as <- <-. cbv beta zeta in H.
  destruct (requests db !! aid) as [q0|] eqn:Hq0; [|done].
  apply se_bind_ret in H as (rq & d1 & Hp & H). apply lift_policy_ret in Hp as [-> Hp].
  pose proof (post_init_ret _ _ Hp) as ->. cbv beta zeta in H.
  apply se_bind_ret in H as ([nn sups] & d1 & Hscan & H). apply se_lift_ret in Hscan as [-> Hscan].
  apply (scan_replaceable _ _ _ _ _ _ _ _ Hok) in Hscan. cbv beta zeta in H.
  apply se_bind_ret in H as (q' & d1 & Hren & H). cbv beta zeta in H.
  destruct (park_renames aid m0 q0 db d1 q' Hq0 Hren) as (R & -> & HR & HRo & E2).
  apply se_bind_ret in H as (? & d2 & Hver & H). apply verify_request_identity_ret in Hver as [-> Hag].
  cbv beta zeta in H. destruct (executable_operand_digest _ _ _ _) as [dg|]; [|done].
  apply se_bind_ret in H as (d3 & d4 & Hg & H). injection Hg as <- <-.
  apply se_bind_ret in H as (? & d5 & Hg & H). injection Hg as <- <-. cbv beta zeta in H.
  change (filter _ (bindings (set_requests R db))) with (kept_bindings aid m0 db) in H.
  set (m := with_nonce _ _) in *. set (row := mkBinding m _ _ dg unclaimed None None None None) in *.
  assert (Epre : rtc store_effect db (set_bindings (<[aid := row]> (kept_bindings aid m0 db)) (set_requests R db))).
  { eapply rtc_l; [by eapply park_unbinds|]. eapply rtc_r; [exact E2|].
    apply (effect_bind (set_bindings (kept_bindings aid m0 db) (set_requests R db)) aid m q' texts.1 texts.2 dg);
      [apply kept_none|exact (kept_find_none aid m0 db R)|done|done]. }
  apply se_bind_ret in H as (gone' & d6 & Hexp & H). injection H as <- <- <-.
  apply expire_ret in Hexp as (E4 & Hb & Hsame & Hexpd);
    [|apply (effects_invariant keyed _ _ effect_keyed Epre), Hok].
  split; [etrans; [exact Epre|exact E4]|]. split; [exists row; by rewrite Hb|].
  intros k r Hk Hm. destruct (Hscan _ _ Hk Hm) as (q & Hq & Hu & Hc). split; [done|].
  destruct (decide (k = aid)) as [->|Hne]; [by left|]. right. destruct (decide (k ∈ sups)) as [Hin|Hout].
  - destruct (Hexpd _ Hin) as (qe & Hqe & Hst). exists qe. by rewrite Hst.
  - exists q. rewrite Hsame by done. simpl. rewrite HRo by done. split; [done|]. naive_solver.
Qed.

Lemma park_effect now gen aid m i c db db' n :
  store_ok db -> park_executable_binding now gen aid m i c db = (db', Ret n) -> rtc store_effect db db'.
Proof.
  intros Hok H. unfold park_executable_binding in H. run_ret.
  match goal with H : park_locked _ _ _ _ _ _ _ _ = (_, Ret ?r) |- _ => destruct r; by apply park_locked_ret in H as [? _] end.
Qed.

Lemma generation_effect g cur db db' r :
  record_policy_generation g cur db = (db', Ret r) -> rtc store_effect db db'.
Proof.
  unfold record_policy_generation. intros H. run_ret; try done;
    repeat match goal with |- rtc _ ?d (set_generations _ ?d') => eapply rtc_r; [|apply effect_generations] end; done.
Qed.
Lemma record_turn_effect now job turn tenant i cr db db' x :
  record_root_turn_locked now job turn tenant i cr db = (db', Ret x) -> rtc store_effect db db'.
Proof.
  unfold record_root_turn_locked. intros H. run_ret; try done. apply rtc_once, effect_turns.
Qed.
Lemma link_turn_effect job turn call n tenant db db' x :
  link_root_turn_locked job turn call n tenant db = (db', Ret x) -> rtc store_effect db db'.
Proof.
  unfold link_root_turn_locked. intros H. run_ret; try done; apply rtc_once, effect_turns.
Qed.
Lemma reissued_successor_ret q job call tenant db db' r :
  reissued_successor q job call tenant db = (db', Ret r) -> db' = db.
Proof.
  unfold reissued_successor. intros H. run_ret; try done.
  by match goal with H : load_request _ _ = _ |- _ => apply load_request_ret in H as [? _] end.
Qed.

(** Re-issue: the successor is created, parked in place of its predecessors,
    linked and made pending. *)
Lemma reissue_ret now nid nturn nn aid job call n turn tenant gref g db db' q pn t fresh :
  store_ok db ->
  reissue_parked_approval now nid nturn nn aid job call n turn tenant gref g db = (db', Ret (q, pn, t, fresh)) ->
  (fresh = false /\ db' = db) \/
  (fresh = true /\ rtc store_effect db db' /\ requests db' !! nid = Some q /\ state (rq_state q) = pending_user).
Proof.
  intros Hok H. unfold reissue_parked_approval, revalidate_approval_request in H.
  apply (proj1 (transact_ret _ _ _ _)) in H.
  apply se_bind_ret in H as (d0 & d1 & Hg & H). injection Hg as <- <-. cbv beta zeta in H.
  destruct (requests db !! aid) as [q0|]; [|done].
  apply se_bind_ret in H as (rq & d1 & Hp & H). apply lift_policy_ret in Hp as [-> _]. cbv beta zeta in H.
  apply se_bind_ret in H as (iss & d1 & Hi & H). cbv beta zeta in H.
  assert (d1 = db) as -> by (destruct (bool_decide _); [by eapply reissued_successor_ret|by injection Hi as <- _]).
  destruct iss as [[[s ps] pt]|]; [left; by injection H as <- _ _ _ <-|]. right.
  destruct (root_turns db !! (job, turn)) as [t0|]; [|done]. clear Hi. case_bool_decide; simpl in H; [|done].
  apply se_bind_ret in H as (rec & d1 & Hr & H). apply se_lift_ret in Hr as [-> _].
  apply se_bind_ret in H as ([b qb] & d1 & Hb & H). apply read_binding_ret in Hb as [-> _].
  apply se_bind_ret in H as (suc & d1 & Hs & H). apply lift_policy_ret in Hs as [-> Hs].
  pose proof (post_init_ret _ _ Hs) as ->.
  apply se_bind_ret in H as (? & d1 & Hins & H). apply insert_request_ret in Hins as [Hnone ->].
  set (db1 := set_requests _ db) in *.
  assert (E1 : store_effect db db1) by by apply effect_insert.
  apply se_bind_ret in H as (? & d2 & Ht & H). apply record_turn_effect in Ht.
  apply se_bind_ret in H as (texts & d3 & Htx & H). apply se_lift_ret in Htx as [-> _].
  apply se_bind_ret in H as ([pn' gone] & d4 & Hpk & H).
  apply park_locked_ret in Hpk as [E3 _];
    [|apply (effects_invariant store_ok db _ effect_ok); [by eapply rtc_l|done]].
  apply se_bind_ret in H as (? & d5 & Hlk & H). apply link_turn_effect in Hlk.
  assert (E5 : rtc store_effect db d5).
  { eapply rtc_l; [exact E1|]. etrans; [exact Ht|]. etrans; [exact E3|exact Hlk]. }
  pose proof (effects_invariant store_ok _ _ effect_ok E5 Hok) as Hok5.
  apply se_bind_ret in H as (cur & d6 & Hcur & H). apply load_request_ret in Hcur as (-> & Hcur & _). cbv beta zeta in H.
  apply se_bind_ret in H as (fin & d6 & Hf & H). apply lift_policy_ret in Hf as [-> Hf].
  pose proof (post_init_ret _ _ Hf) as ->.
  pose proof (ok_keyed _ Hok5 _ _ Hcur) as Hid.
  apply se_bind_ret in H as (? & d6 & Hw & H).
  apply (fun H => write_transition_plain _ cur _ _ _ H) in Hw as [-> Hterm]; [|simpl; rewrite Hid; exact Hcur].
  simpl in *. rewrite Hid in *. injection H as <- <- <- <- <-. split; [done|]. split.
  - eapply rtc_r; [exact E5|]. by apply effect_state.
  - simpl. by rewrite lookup_insert_eq.
Qed.
Lemma reissue_effect now nid nturn nn aid job call n turn tenant gref g db db' r :
  store_ok db -> reissue_parked_approval now nid nturn nn aid job call n turn tenant gref g db = (db', Ret r) ->
  rtc store_effect db db'.
Proof.
  destruct r as [[[q pn] t] fresh]. intros Hok H.
  destruct (reissue_ret _ _ _ _ _ _ _ _ _ _ _ _ _ _ _ _ _ _ Hok H) as [[_ ->]|(_ & ? & _)]; done.
Qed.

Lemma record_raise aid m i c db db' e : record_executable_binding aid m i c db = (db', Raise e) -> db' = db.
Proof. unfold record_executable_binding. raise_same. destruct a. by apply transact_raise in H. Qed.
Lemma generation_raise g cur db db' e : record_policy_generation g cur db = (db', Raise e) -> db' = db.
Proof. unfold record_policy_generation. raise_same. Qed.
Lemma park_raise now gen aid m i c db db' e : park_executable_binding now gen aid m i c db = (db', Raise e) -> db' = db.
Proof. unfold park_executable_binding. raise_same. Qed.
#[local] Hint Resolve park_effect generation_effect record_turn_effect link_turn_effect reissue_effect
  record_raise generation_raise park_raise : store_effects.

Lemma step_raise db db' : store_step db false db' -> db' = db.
Proof.
  intros H. inversion H; subst; destruct r; simplify_eq/=; eauto with store_effects.
Qed.

Lemma step_effect db db' ok : store_ok db -> store_step db ok db' -> rtc store_effect db db'.
Proof.
  intros Hok H. pose proof (ok_keyed _ Hok) as Hk. destruct ok; [|by rewrite (step_raise _ _ H)].
  inversion H; subst; destruct r; simplify_eq/=; eauto with store_effects.
  - unfold record_root_turn in *. run_ret. by eapply record_turn_effect.
  - unfold link_root_turn_executable_binding in *. run_ret. by eapply link_turn_effect.
  - match goal with H : read_completed_executable_result _ _ = _ |- _ => by apply read_completed_ret in H as -> end.
  - match goal with H : find_persistent_grant _ _ _ _ _ _ _ _ = _ |- _ => by apply find_grant_state in H as -> end.
  - unfold revoke_persistent_grants_for_approval in *. run_ret. eapply rtc_once, revoke_active_effect; eassumption.
Qed.

Lemma effects_ok db db' : rtc store_effect db db' -> store_ok db -> store_ok db'.
Proof. apply effects_invariant, effect_ok. Qed.

Lemma steps_effects db db' : store_ok db -> rtc any_step db db' -> rtc store_effect db db'.
Proof.
  intros Hok Hs. induction Hs as [|db1 db2 db3 [ok Hs] _ IH]; [done|].
  pose proof (step_effect _ _ _ Hok Hs) as He. etrans; [exact He|]. apply IH. by apply (effects_ok _ _ He).
Qed.

Lemma reachable_ok raw res db : rtc any_step (empty_store raw res) db -> store_ok db.
Proof. intros H%steps_effects; [|apply empty_ok]. apply (effects_ok _ _ H), empty_ok. Qed.

(** ** Lemmas for the properties *)
Lemma newest_grant_spec best l g :
  newest_grant best l = Some g ->
  (g ∈ l \/ best = Some g) /\ (forall g', g' ∈ l \/ best = Some g' -> (granted_at g' <= granted_at g)%Z).
Proof.
  revert best. induction l as [|x l IH]; intros best H; simpl in H.
  { subst. split; [by right|]. intros g' [[]%not_elem_of_nil|[= ->]]. lia. }
  apply IH in H as [Hin Hmax]. split.
  - rewrite elem_of_cons. destruct Hin as [?|Hb]; [tauto|]. destruct best as [b|]; [|naive_solver].
    destruct (_ <? _)%Z; naive_solver.
  - intros g'. rewrite elem_of_cons. intros [[->|?]|Hb]; [|auto|].
    + destruct best as [b|]; [|auto]. destruct (granted_at b <? granted_at x)%Z eqn:E; [auto|].
      specialize (Hmax b (or_intror eq_refl)). lia.
    + destruct best as [b|]; [|done]. injection Hb as ->.
      destruct (granted_at g' <? granted_at x)%Z eqn:E; [|auto]. specialize (Hmax x (or_intror eq_refl)). lia.
Qed.

Lemma find_grant_ret usr tool scope now con reuse key db db' g :
  find_persistent_grant usr tool scope now con reuse key db = (db', Ret (Some g)) ->
  con = standard /\ reuse <> disabled /\ (exists gid, grants db !! gid = Some g) /\
  grant_matches db usr tool scope now reuse key g = true /\
  (forall gid g', grants db !! gid = Some g' -> grant_matches db usr tool scope now reuse key g' = true ->
     (granted_at g' <= granted_at g)%Z).
Proof.
  unfold find_persistent_grant. intros H. case_bool_decide as Hc; cbn [negb] in H; [|done].
  assert (Hn : newest_grant None (filter (fun g => grant_matches db usr tool scope now reuse key g = true)
                 (map_to_list (grants db)).*2) = Some g /\ reuse <> disabled).
  { destruct reuse; [| | |done]; [unfold se_bind, guard, se_get, se_ret in H|done|unfold se_bind, guard, se_get, se_ret in H]; crush_match. }
  destruct Hn as [Hn Hd]. split; [done|]. split; [done|].
  apply newest_grant_spec in Hn as [[Hin|?] Hmax]; [|done].
  apply list_elem_of_filter in Hin as [Hm Hin]. apply list_elem_of_fmap in Hin as ([gid g0] & Heq & Hin).
  simpl in Heq. subst g0. apply elem_of_map_to_list in Hin.
  split; [eauto|]. split; [done|]. intros gid' g' Hl Hm'. apply Hmax. left.
  apply list_elem_of_filter. split; [done|]. apply list_elem_of_fmap. exists (gid', g').
  split; [done|]. by apply elem_of_map_to_list.
Qed.

Lemma grant_matches_facts db usr tool scope now reuse key g :
  grant_matches db usr tool scope now reuse key g = true ->
  g_user_id g = usr /\ g_tool_name g = tool /\ scope_hint g = scope /\ g_revoked_at g = None /\
  (forall e, g_expires_at g = Some e -> (now < e)%Z) /\ fences db !! granted_via_approval_id g = None /\
  (forall src, requests db !! granted_via_approval_id g = Some src ->
     approval_reuse_mode (rq_terms src) = reuse /\ (reuse = exact -> approval_reuse_key (rq_terms src) = key)).
Proof.
  unfold grant_matches. intros H. bool_prop.
  repeat match goal with H : is_none _ = true |- _ => apply is_none_true in H end.
  do 4 (split; [done|]). split; [|split; [done|]].
  - intros e He. rewrite He in *. lia.
  - intros src Hs. rewrite Hs in *. bool_prop. split; [done|]. intros ->. by bool_prop.
Qed.

Lemma fenced_forever db db' aid :
  rtc store_effect db db' -> is_Some (fences db !! aid) -> is_Some (fences db' !! aid).
Proof.
  intros He [w Hw]. assert (PreOrder (fun _ _ : Z => True)) by by split.
  apply (effects_grow fences (fun _ _ => True) _ _ effect_fences) in He.
  destruct (He _ _ Hw) as (? & ? & _). eauto.
Qed.

Lemma fenced_mint g db : is_Some (fences db !! granted_via_approval_id g) ->
  create_persistent_grant g db = (db, Raise PersistentGrantCancellationFenced).
Proof. intros [w Hw]. unfold create_persistent_grant, transact, se_bind, se_get, guard. by rewrite Hw. Qed.

(** A reserved binding keeps its reservation. *)
Lemma reserved_persists db db' aid row :
  rtc store_effect db db' -> bindings db !! aid = Some row -> exec_state row <> unclaimed ->
  exists row', bindings db' !! aid = Some row' /\ binding_le row row' /\ exec_state row' <> unclaimed.
Proof.
  intros He. revert row. induction He as [|d d1 d2 H1 _ IH]; intros row Hl Hs; [by exists row|].
  destruct (effect_reserved _ _ _ _ H1 Hl Hs) as (r1 & Hl1 & Hle1 & Hs1).
  destruct (IH _ Hl1 Hs1) as (r2 & Hl2 & Hle2 & Hs2). exists r2. split; [done|]. split; [by etrans|done].
Qed.
Lemma reservation_persists db db' aid row :
  rtc store_effect db db' -> bindings db !! aid = Some row -> exec_state row <> unclaimed ->
  exists row', bindings db' !! aid = Some row' /\ binding_le row row' /\ exec_state row' <> unclaimed /\
    exec_claim_token row' = exec_claim_token row /\ exec_decision_version row' = exec_decision_version row.
Proof.
  intros He Hl Hs. destruct (reserved_persists _ _ _ _ He Hl Hs) as (row' & Hl' & Hle & Hs').
  exists row'. do 3 (split; [done|]). destruct Hle as (_ & _ & _ & _ & Hm).
  destruct (exec_state row); [done| |by subst]. destruct Hm as [->|(_ & ? & ?)]; done.
Qed.

Lemma claim_keeps_ok b v t db db1 r : store_ok db -> claim_executable_binding b v t db = (db1, Ret r) -> store_ok db1.
Proof. intros Hok H%claim_effect. eapply effects_invariant; [apply effect_ok|exact H|done]. Qed.

Lemma same_call_same_binding db a1 a2 r1 r2 :
  store_ok db -> bindings db !! a1 = Some r1 -> bindings db !! a2 = Some r2 ->
  b_job_id (b_meta r1) = b_job_id (b_meta r2) -> b_tool_call_id (b_meta r1) = b_tool_call_id (b_meta r2) ->
  a1 = a2 /\ r1 = r2.
Proof. intros Hok H1 H2 Hj Hc. pose proof (ok_unique _ Hok _ _ _ _ H1 H2 Hj Hc). subst. split; [done|congruence]. Qed.

(** Reading a completed row returns what its text encodes. *)
Lemma read_result_text b row db db' out text :
  read_executable_result b row db = (db', Ret out) -> bindings db !! x_approval_id b = Some row ->
  exec_result_json row = Some text ->
  exists d err, json_loads text = Some (JList [JDict d; err]) /\
    restore_executable_result d = Some (tr_kind out, tr_value out) /\
    (err = JNull /\ tr_error out = None \/ exists e, err = JDict e /\ tr_error out = Some e).
Proof.
  unfold read_executable_result. intros H Hl Ht. run_ret; simplify_eq; eexists _, _; (split; [done|]); simpl; eauto.
Qed.

(** ** Properties *)

(** C1: An approved call runs at most once. A claim returns a fresh reservation
    only for a binding whose request exists, names the same tenant, tool, call
    and arguments, and is executable at exactly the state version the caller
    presents. From then on, whatever methods run, no claim of any binding for
    the same job and tool call reserves again, and only the holder of that
    token and version can complete it. *)
Theorem execution_at_most_once raw res db b v t db1 db2 b' v' t' :
  rtc any_step (empty_store raw res) db ->
  claim_executable_binding b v t db = (db1, Ret None) ->
  rtc any_step db1 db2 ->
  b_job_id (x_meta b') = b_job_id (x_meta b) -> b_tool_call_id (x_meta b') = b_tool_call_id (x_meta b) ->
  (exists q row, requests db !! x_approval_id b = Some q /\ bindings db !! x_approval_id b = Some row /\
     binding_agrees (x_approval_id b) (b_meta row) q /\
     approval_is_executable q = true /\ state_version (rq_state q) = v) /\
  (forall db3, claim_executable_binding b' v' t' db2 <> (db3, Ret None)) /\
  (forall out db3 x, complete_executable_binding b' v' t' out db2 = (db3, Ret x) -> t' = t /\ v' = v).
Proof.
  intros Hr Hc Hs Hj Ht. pose proof (reachable_ok _ _ _ Hr) as Hok.
  pose proof (claim_keeps_ok _ _ _ _ _ _ Hok Hc) as Hok1. pose proof (steps_effects _ _ Hok1 Hs) as He.
  pose proof (effects_invariant store_ok _ _ effect_ok He Hok1) as Hok2.
  apply claim_ret in Hc as (q & row & Hb & Hq & Hag & Hj0 & Ht0 & [(? & ? & _)|(_ & Hu & Hx & Hv & ->)]); [done|].
  split; [exists q, row; done|].
  destruct (reservation_persists _ _ (x_approval_id b) (set_execution claimed (Some t) (Some v) None None row) He)
    as (row' & Hl' & (Hm & _) & Hs' & Htok & Hver); [by simpl; rewrite lookup_insert_eq|done|]. simpl in *.
  split.
  - intros db3 Hc'. apply claim_ret in Hc' as (q' & r' & Hb' & _ & _ & Hj' & Ht' & [(? & ? & _)|(_ & Hu' & _)]); [done|].
    destruct (same_call_same_binding _ _ _ _ _ Hok2 Hb' Hl') as [_ ->]; congruence.
  - intros out db3 x Hc'.
    apply complete_ret in Hc' as (q' & r' & text & dg & _ & _ & Hb' & _ & Hj' & Ht' & Htk & Hvr & _).
    destruct (same_call_same_binding _ _ _ _ _ Hok2 Hb' Hl') as [_ ->]; [congruence|congruence|].
    split; congruence.
Qed.

(** A completed call is replayed, never repeated. After the holder of a
    reservation records its result, every later claim of that binding leaves
    the store unchanged and can only return that same result (given that the
    result's own JSON document reads back as written). *)
Theorem completed_result_replays raw res db b v t out text row0 db1 db2 b' v' t' db3 r :
  rtc any_step (empty_store raw res) db ->
  bindings db !! x_approval_id b = Some row0 -> exec_state row0 = claimed ->
  complete_executable_binding b v t out db = (db1, Ret tt) ->
  executable_result_json out = Some text ->
  json_loads text = Some (JList [JDict [(u "kind", JStr (tr_kind out)); (u "value", tr_value out)];
                                 match tr_error out with Some d => JDict d | None => JNull end]) ->
  restore_executable_result [(u "kind", JStr (tr_kind out)); (u "value", tr_value out)]
    = Some (tr_kind out, tr_value out) ->
  rtc any_step db1 db2 -> x_approval_id b' = x_approval_id b ->
  claim_executable_binding b' v' t' db2 = (db3, r) ->
  db3 = db2 /\ (r = Ret (Some out) \/ exists e, r = Raise e).
Proof.
  intros Hr Hb0 Hs0 Hc Htx Hload Hrest Hs Hid Hcl.
  pose proof (effects_ok _ _ (complete_effect _ _ _ _ _ _ _ Hc) (reachable_ok _ _ _ Hr)) as Hok1.
  pose proof (steps_effects _ _ Hok1 Hs) as He.
  apply complete_ret in Hc as (q & row & text' & dg & Htx' & _ & Hb & _ & _ & _ & _ & _ & [[Hx _]|[_ ->]]);
    [congruence|]. rewrite Htx in Htx'. injection Htx' as <-.
  destruct (reserved_persists _ _ (x_approval_id b)
    (set_execution completed (Some t) (Some v) (Some text) (Some dg) row) He)
    as (row' & Hl' & (_ & _ & _ & _ & Hrow) & _); [by simpl; rewrite lookup_insert_eq|done|]. simpl in Hrow. subst row'.
  destruct r as [r|e]; [|split; [by eapply claim_raise|eauto]].
  apply claim_ret in Hcl as (q' & r' & Hb' & _ & _ & _ & _ & [(o & -> & _ & -> & Hrd)|(_ & Hu & _)]);
    rewrite Hid, Hl' in Hb'; injection Hb' as <-; [|done].
  split; [done|]. left. do 2 f_equal.
  destruct (read_result_text _ _ _ _ _ text Hrd) as (d & err & Hld & Hrs & Herr); [by rewrite Hid|done|].
  rewrite Hload in Hld. injection Hld as <- <-. rewrite Hrest in Hrs. injection Hrs as Hk Hv.
  destruct out as [k w e], o as [k' w' e']; simpl in *; subst. f_equal.
  destruct e; naive_solver.
Qed.

(** Approval rows only move forward. Over any sequence of methods a stored
    request keeps its frozen terms and its identity, except that parking may move
    an undecided one to another tool call; its state version never
    decreases, two observations at one version show the same decision, and a
    terminal request is never reopened. *)
Theorem approval_rows_move_forward raw res db db' aid q :
  rtc any_step (empty_store raw res) db -> rtc any_step db db' -> requests db !! aid = Some q ->
  exists q', requests db' !! aid = Some q' /\
    (exists c, rq_id q' = with_call c (rq_id q)) /\
    (is_terminal_state (state (rq_state q)) = true -> rq_id q' = rq_id q) /\
    rq_terms q' = rq_terms q /\
    (state_version (rq_state q) <= state_version (rq_state q'))%Z /\
    (state_version (rq_state q') = state_version (rq_state q) -> rq_state q' = rq_state q) /\
    (is_terminal_state (state (rq_state q)) = true -> is_terminal_state (state (rq_state q')) = true).
Proof.
  intros Hr Hs Hq. pose proof (reachable_ok _ _ _ Hr) as Hok.
  pose proof (steps_effects _ _ Hok Hs) as He.
  destruct (effects_grow requests request_le _ _ effect_requests He _ _ Hq) as (q' & Hq' & ? & ? & ? & _ & ?).
  exists q'. done.
Qed.

(** A vote decides an open request once. On a terminal request a vote
    changes nothing and returns the stored decision; on an open one it is the
    decider's only stored vote, it sets the decision and advances the version,
    and the result authorizes execution exactly when the vote approves and the
    request's constraint accepts this decider: never for [legacy_unknown],
    only from the required owner for [fresh_human_owner]. *)
Theorem vote_decides_once raw res db aid v db' r :
  rtc any_step (empty_store raw res) db -> record_vote aid v db = (db', Ret r) ->
  exists row, requests db !! aid = Some row /\ requests db' !! aid = Some r /\
  ((is_terminal_state (state (rq_state row)) = true /\ r = row /\ db' = db) \/
   (is_terminal_state (state (rq_state row)) = false /\
    state (rq_state r) = (if v_approved v then approved else denied) /\
    state_version (rq_state r) = (state_version (rq_state row) + 1)%Z /\
    (exists w, votes db' !! (aid, v_decider_id v) = Some w /\ vote_id w = vote_id v /\ v_approved w = v_approved v) /\
    (approval_is_executable r = true <->
     v_approved v = true /\
     match approval_constraint (rq_terms row) with
     | legacy_unknown => False
     | fresh_human_owner => required_owner_user_id (rq_terms row) = Some (v_decider_id v)
     | _ => True
     end))).
Proof.
  intros Hr Hv. pose proof (ok_keyed _ (reachable_ok _ _ _ Hr)) as Hk.
  apply record_vote_body in Hv as (_ & dec & Hv).
  destruct (record_vote_locked_ret _ _ _ _ _ _ _ Hk Hv) as (row & Hl & _ & [(Ht & _ & -> & ->)|(Ht & _ & -> & db1 & -> & Hdb)]);
    exists row; (split; [done|]); [split; [done|by left]|].
  split; [by simpl; rewrite lookup_insert_eq|]. right. split; [done|]. split; [done|]. split; [done|]. split.
  - destruct Hdb as [[_ ->]|[-> Hw]]; [|exact Hw]. exists v. simpl. by rewrite lookup_insert_eq.
  - unfold approval_is_executable. simpl. destruct (approval_constraint _), (v_approved v);
      rewrite ?andb_true_iff, ?orb_true_iff, ?bool_decide_eq_true; naive_solver.
Qed.

(** The row a cancellation writes. *)
Definition cancelled_request (now : Z) (d ro : option str) (rs : str) (row : ApprovalRequest) : ApprovalRequest :=
  let cs := rq_state row in
  with_req_state (mkReqState denied (state_version cs + 1) (expires_at cs) (Some now)
    (or_else d (decider_id cs)) (or_else ro (decider_role cs)) (Some denied) (Some rs)) row.

(** C31: What a cancellation does, on every branch of a readable, unreserved and
    unclaimed row. It changes the row only if all six identity fields match and
    the request is still pending; then it is denied, the version advances by
    one and the row is no longer executable, provided the channel also compares
    equal as SQLite normalizes it. A channel that Python's [strip]/[lower]
    accepts and SQLite's [TRIM]/[LOWER] does not makes the call raise, and the
    approval stays pending. *)
Theorem cancellation_exact raw res db now aid call usr req run sess chan d ro rs row :
  rtc any_step (empty_store raw res) db ->
  requests db !! aid = Some row -> post_init row = Ret row ->
  post_init (cancelled_request now d ro rs row) = Ret (cancelled_request now d ro rs row) ->
  publication_reserved aid None None db = false -> aid ∉ raw_patch_claims db ->
  terminalize_pending_for_cancellation now aid call usr req run sess chan d ro rs db =
    (if negb (identity_matches call usr req run sess chan row) then (db, Ret (row, false, false))
     else if negb (bool_decide (state (rq_state row) = pending_user)) then (db, Ret (row, false, true))
     else if bool_decide (sql_lower (sql_trim (channel (rq_id row))) = norm_channel chan)
     then (set_requests (<[aid := cancelled_request now d ro rs row]> (requests db)) db,
           Ret (cancelled_request now d ro rs row, true, true))
     else (db, Raise StoreRuntimeError)) /\
  approval_is_executable (cancelled_request now d ro rs row) = false.
Proof.
  intros Hr Hl Hp Hp' Hres Hraw. split.
  2: { unfold approval_is_executable. simpl. by destruct (approval_constraint _). }
  pose proof (ok_keyed _ (reachable_ok _ _ _ Hr) _ _ Hl) as Hid.
  unfold terminalize_pending_for_cancellation, terminalize_locked, transact, require_unreserved, load_request, refuse_raw_claim, guard.
  unfold se_bind, se_get, se_ret, se_raise.
  rewrite Hres. cbn [negb]. rewrite Hl, Hp. cbn [lift_policy]. unfold se_ret.
  destruct (identity_matches call usr req run sess chan row) eqn:Hm; cbn [negb]; [|done].
  case_bool_decide as Hpend; cbn [negb]; [|done].
  rewrite (bool_decide_false _ Hraw). cbn [negb].
  fold (cancelled_request now d ro rs row). rewrite Hp'. cbn [lift_policy]. unfold se_ret.
  unfold write_request_transition, se_bind, se_get. simpl. rewrite Hid, Hl.
  unfold identity_matches in Hm. bool_prop. unfold cancel_where. simpl.
  repeat (rewrite bool_decide_true by assumption; simpl). rewrite Z.eqb_refl. simpl.
  repeat (rewrite bool_decide_true by assumption; simpl).
  by case_bool_decide.
Qed.

(** A cancellation fence is final. After it, whatever runs, no lookup ever
    returns a grant minted by that approval, and no further grant can be minted
    from it. *)
Theorem cancellation_fence_is_final raw res db now aid call usr req run sess chan q db1 db2 :
  rtc any_step (empty_store raw res) db ->
  fence_persistent_grants_for_cancellation now aid call usr req run sess chan db = (db1, Ret (q, true)) ->
  rtc any_step db1 db2 ->
  (forall usr' tool scope now' con reuse key db3 g,
     find_persistent_grant usr' tool scope now' con reuse key db2 = (db3, Ret (Some g)) ->
     granted_via_approval_id g <> aid) /\
  (forall g, granted_via_approval_id g = aid ->
     create_persistent_grant g db2 = (db2, Raise PersistentGrantCancellationFenced)).
Proof.
  intros Hr Hf Hs. pose proof (ok_keyed _ (reachable_ok _ _ _ Hr)) as Hk.
  apply fence_ret in Hf as (_ & _ & He1 & _ & Hfence). specialize (Hfence eq_refl).
  pose proof (effects_ok _ _ He1 (reachable_ok _ _ _ Hr)) as Hk1.
  pose proof (fenced_forever _ _ _ (steps_effects _ _ Hk1 Hs) Hfence) as Hfin.
  split; [|by intros g <-; apply fenced_mint].
  intros usr' tool scope now' con reuse key db3 g Hg.
  apply find_grant_ret in Hg as (_ & _ & _ & Hm & _).
  apply grant_matches_facts in Hm as (_ & _ & _ & _ & _ & Hn & _).
  intros Hv. rewrite Hv in Hn. destruct Hfin. congruence.
Qed.

(** A grant that a lookup returns is sound: it is stored, unrevoked,
    unexpired and unfenced, it names the asking user, tool and scope, and it
    was minted by an approval of that user and tool under the standard
    constraint with the reuse mode asked for, where exact reuse pins scope and
    key to the approval's frozen key; no matching grant is newer. *)
Theorem found_grant_is_sound raw res db usr tool scope now con reuse key db' g :
  rtc any_step (empty_store raw res) db ->
  find_persistent_grant usr tool scope now con reuse key db = (db', Ret (Some g)) ->
  db' = db /\ con = standard /\ grants db !! grant_id g = Some g /\
  g_user_id g = usr /\ g_tool_name g = tool /\ scope_hint g = scope /\
  g_revoked_at g = None /\ (forall e, g_expires_at g = Some e -> (now < e)%Z) /\
  fences db !! granted_via_approval_id g = None /\
  (exists src, requests db !! granted_via_approval_id g = Some src /\
     user_id (rq_id src) = usr /\ tool_name (rq_id src) = tool /\
     approval_constraint (rq_terms src) = standard /\
     approval_reuse_mode (rq_terms src) = reuse /\ reuse <> disabled /\
     (reuse = exact -> key = Some scope /\ approval_reuse_key (rq_terms src) = key)) /\
  (forall gid g', grants db !! gid = Some g' -> grant_matches db usr tool scope now reuse key g' = true ->
     (granted_at g' <= granted_at g)%Z).
Proof.
  intros Hr Hf. pose proof (reachable_ok _ _ _ Hr) as Hok. pose proof (find_grant_state _ _ _ _ _ _ _ _ _ _ Hf) as ->.
  apply find_grant_ret in Hf as (-> & Hd & (gid & Hg) & Hm & Hmax).
  destruct (ok_grants _ Hok _ _ Hg) as (-> & src & Hs & Hc & Hu & Ht & Hnd & Hk).
  apply grant_matches_facts in Hm as (<- & <- & <- & ? & ? & ? & Hsrc). destruct (Hsrc _ Hs) as [Hmode Hkey].
  repeat (split; [done|]). split; [|done]. exists src. repeat (split; [done|]).
  intros Hx. specialize (Hkey Hx). rewrite Hx in Hmode. specialize (Hk Hmode). split; congruence.
Qed.

(** A delegation is consumed at most once: a claim succeeds only for the
    relay request and session it is bound to, before its expiry and while
    unrevoked, and after a successful claim every later claim returns nothing
    and changes nothing. *)
Theorem delegation_consumed_once raw res db did rid sid now g db1 db2 rid' sid' now' :
  rtc any_step (empty_store raw res) db ->
  claim_delegation_grant did rid sid now db = (db1, Ret (Some g)) -> rtc any_step db1 db2 ->
  bound_relay_request_id g = rid /\ bound_excel_session_id g = sid /\ dl_revoked_at g = None /\
  (forall e, dl_expires_at g = Some e -> (now < e)%Z) /\ dl_consumed_at g = Some now /\
  claim_delegation_grant did rid' sid' now' db2 = (db2, Ret None).
Proof.
  intros Hr Hc Hs. pose proof (ok_keyed _ (reachable_ok _ _ _ Hr)) as Hk.
  pose proof (effects_ok _ _ (claim_delegation_effect _ _ _ _ _ _ _ Hc) (reachable_ok _ _ _ Hr)) as Hk1.
  pose proof (effects_grow delegations delegation_le _ _ effect_delegations (steps_effects _ _ Hk1 Hs)) as Hgr.
  apply claim_delegation_ret in Hc as [[? _]|(g0 & Hl & Hcl & [= ->] & ->)]; [done|].
  destruct (Hgr did (set_delegation_times (dl_revoked_at g0) (Some now) g0)) as (g2 & Hl2 & Hle & _);
    [by simpl; rewrite lookup_insert_eq|].
  unfold delegation_claimable in Hcl. bool_prop.
  repeat match goal with H : is_none _ = true |- _ => apply is_none_true in H end. simpl in *.
  do 3 (split; [done|]). split; [intros e He; rewrite He in *; lia|]. split; [done|].
  unfold claim_delegation_grant, transact, se_bind, se_get. rewrite Hl2. unfold delegation_claimable.
  rewrite Hle by eauto. by rewrite !andb_false_r.
Qed.

(** A parked call has one authority. Parking refuses a call that was ever
    claimed; when it returns, the call is bound to the given approval alone,
    unclaimed, under the nonce it returns, and every other approval the call was
    bound to is denied or expired, so it can no longer authorize execution. *)
Theorem parked_call_single_authority raw res db now gen aid m i c db' n :
  rtc any_step (empty_store raw res) db ->
  park_executable_binding now gen aid m i c db = (db', Ret n) ->
  (exists row, bindings db' !! aid = Some row /\ exec_state row = unclaimed /\ b_nonce (b_meta row) = n /\
     b_job_id (b_meta row) = b_job_id m /\ b_tool_call_id (b_meta row) = b_tool_call_id m /\
     forall k row', bindings db' !! k = Some row' ->
       b_job_id (b_meta row') = b_job_id m -> b_tool_call_id (b_meta row') = b_tool_call_id m -> k = aid) /\
  (forall k row, bindings db !! k = Some row ->
     b_job_id (b_meta row) = b_job_id m -> b_tool_call_id (b_meta row) = b_tool_call_id m ->
     exec_state row = unclaimed /\
     (k = aid \/ exists q, requests db' !! k = Some q /\ refused (state (rq_state q)) = true /\
                          approval_is_executable q = false)).
Proof.
  intros Hr H. pose proof (reachable_ok _ _ _ Hr) as Hok. pose proof (park_effect _ _ _ _ _ _ _ _ _ Hok H) as He.
  unfold park_executable_binding in H. apply se_bind_ret in H as (tx & d1 & Htx & H).
  apply se_lift_ret in Htx as [-> _]. apply (proj1 (transact_ret _ _ _ _)) in H.
  apply se_bind_ret in H as ([n' gone] & d2 & Hp & H). injection H as -> ->.
  apply (park_locked_ret _ _ _ _ _ _ _ _ _ _ _ Hok) in Hp as (_ & (row & Hb & Hu & Hn & Hj & Hc & _) & Hold).
  assert (Hrow : bindings db' !! aid = Some row) by by rewrite Hb, lookup_insert_eq.
  split.
  - exists row. do 5 (split; [done|]). intros k row' Hk Hj' Hc'.
    apply (ok_unique _ (effects_ok _ _ He Hok) _ _ _ _ Hk Hrow); congruence.
  - intros k r Hk Hj' Hc'. destruct (Hold k r Hk) as [Hun Hcase]; [by right|]. split; [done|].
    destruct Hcase as [->|(q & Hq & Href)]; [by left|]. right. exists q. split; [done|]. split; [done|].
    unfold approval_is_executable. by destruct (approval_constraint _), (state (rq_state q)).
Qed.


End lifecycle.

(** ** Witnesses *)
Definition demo_dumps (v : json) : option str :=
  match v with JList _ => Some (u "result") | _ => Some (u "object") end.
Definition demo_loads (s : str) : option json :=
  if bool_decide (s = u "result")
  then Some (JList [JDict [(u "kind", JStr (u "json")); (u "value", JInt 7)]; JNull])
  else if bool_decide (s = u "object") then Some (JDict []) else None.
Definition demo_store_env : StoreEnv :=
  {| store_policy_env := demo_policy_env; str_lower := sql_lower; json_dumps := demo_dumps;
     json_loads := demo_loads; sha256_hex := fun s => s; dt_to_text := Z_to_str; model_validate := fun _ v => Some v |}.
#[local] Existing Instance demo_store_env.

Definition demo_ask (chan : str) : ApprovalRequest :=
  mkRequest
    (mkIdentity (u "a") (u "call") None (u "a") None (u "req") (Some (u "s")) (Some (u "run")) (u "bob")
       (u "chat") chan (u "buy") irreversible 5 None None)
    (mkConstraint standard None None None None None None None None exact (Some (u "k")))
    (mkPolicy [] (u "h") None [] None (u "p") (u "1") [] (Some (u "k")) notify_auto HUMAN None None)
    (mkReqState pending_user 0 None None None None None None) None.
Definition demo_vote : ApprovalVote := mkVote (u "v") (u "a") (u "bob") None true None 9.
Definition demo_meta : BindingMeta := mkMeta (u "j") (u "call") (u "n") (u "bob") (u "buy") None None (u "h").
Definition demo_binding : ExecutableApprovalBinding :=
  mkExecutable (u "a") demo_meta [] [] (u "sha256:object").
Definition demo_result : ToolResult := mkToolResult (u "json") (JInt 7) None.
Definition demo_grant : PersistentGrant :=
  mkGrant (u "g") (u "bob") (u "buy") (u "k") None 10 (Some 99%Z) None (u "a") (u "p").
Definition demo_delegation : DelegationGrant :=
  mkDelegation (u "bob") None None [] [] (u "x") (u "r") None [] None 60 0 (Some 60%Z) None None.

Definition demo_db0 : StoreDB := empty_store ∅ [].
Definition demo_pending : StoreDB := (create (demo_ask (u " WEB")) demo_db0).1.
Definition demo_approved : StoreDB := (record_vote (u "a") demo_vote demo_pending).1.
Definition demo_bound : StoreDB :=
  (record_executable_binding (u "a") demo_meta [] [] demo_approved).1.
Definition demo_claimed : StoreDB := (claim_executable_binding demo_binding 1 (u "t") demo_bound).1.
Definition demo_completed : StoreDB := (complete_executable_binding demo_binding 1 (u "t") demo_result demo_claimed).1.
Definition demo_granted : StoreDB := (create_persistent_grant demo_grant demo_approved).1.
Definition demo_delegated : StoreDB := (create_delegation_grant (u "d") demo_delegation demo_db0).1.
Definition demo_tab : StoreDB := (create (demo_ask (9%N :: u "web")) demo_db0).1.

Lemma step_any db ok db' : store_step db ok db' -> any_step db db'.
Proof. by exists ok. Qed.
Lemma demo_pending_reached : rtc any_step (empty_store ∅ []) demo_pending.
Proof. eapply rtc_once, step_any, step_create, surjective_pairing. Qed.
Lemma demo_tab_reached : rtc any_step (empty_store ∅ []) demo_tab.
Proof. eapply rtc_once, step_any, step_create, surjective_pairing. Qed.
Lemma demo_delegated_reached : rtc any_step (empty_store ∅ []) demo_delegated.
Proof. eapply rtc_once, step_any, step_delegate, surjective_pairing. Qed.
Lemma demo_approved_reached : rtc any_step (empty_store ∅ []) demo_approved.
Proof. eapply rtc_r; [exact demo_pending_reached|]. eapply step_any, step_vote, surjective_pairing. Qed.
Lemma demo_granted_reached : rtc any_step (empty_store ∅ []) demo_granted.
Proof. eapply rtc_r; [exact demo_approved_reached|]. eapply step_any, step_mint, surjective_pairing. Qed.
Lemma demo_bound_reached : rtc any_step (empty_store ∅ []) demo_bound.
Proof. eapply rtc_r; [exact demo_approved_reached|]. eapply step_any, step_record, surjective_pairing. Qed.
Lemma demo_claimed_reached : rtc any_step (empty_store ∅ []) demo_claimed.
Proof. eapply rtc_r; [exact demo_bound_reached|]. eapply step_any, step_claim, surjective_pairing. Qed.
Lemma demo_completing : any_step demo_claimed demo_completed.
Proof. eapply step_any, step_complete, surjective_pairing. Qed.

Lemma demo_vote_ok : (record_vote (u "a") demo_vote demo_pending).2 =
  Ret (with_req_state (voted_state demo_vote (rq_state (demo_ask (u " WEB")))) (demo_ask (u " WEB"))).
Proof. vm_compute. reflexivity. Qed.
Lemma demo_claim_ok : (claim_executable_binding demo_binding 1 (u "t") demo_bound).2 = Ret None.
Proof. vm_compute. reflexivity. Qed.
Lemma demo_complete_ok : (complete_executable_binding demo_binding 1 (u "t") demo_result demo_claimed).2 = Ret tt.
Proof. vm_compute. reflexivity. Qed.
Lemma demo_replay_ok :
  (claim_executable_binding demo_binding 1 (u "t2") demo_completed).2 = Ret (Some demo_result).
Proof. vm_compute. reflexivity. Qed.

Lemma execution_at_most_once_witness :
  claim_executable_binding demo_binding 1 (u "again") demo_completed <> (demo_completed, Ret None).
Proof.
  apply (proj1 (proj2 (execution_at_most_once ∅ [] demo_bound demo_binding 1 (u "t") demo_claimed demo_completed
    demo_binding 1 (u "again") demo_bound_reached (pair_split _ _ demo_claim_ok)
    (rtc_once _ _ demo_completing) eq_refl eq_refl))).
Defined.

Definition demo_claimed_row : BindingRow :=
  mkBinding demo_meta (u "object") (u "object") (u "sha256:object") claimed (Some (u "t")) (Some 1%Z) None None.
Lemma demo_claimed_row_ok : bindings demo_claimed !! u "a" = Some demo_claimed_row.
Proof. vm_compute. reflexivity. Qed.
Lemma completed_result_replays_witness :
  exists db3, claim_executable_binding demo_binding 1 (u "t2") demo_completed = (db3, Ret (Some demo_result)) /\
    db3 = demo_completed.
Proof.
  exists (claim_executable_binding demo_binding 1 (u "t2") demo_completed).1.
  split; [exact (pair_split _ _ demo_replay_ok)|].
  apply (completed_result_replays ∅ [] demo_claimed demo_binding 1 (u "t") demo_result (u "result") demo_claimed_row
    demo_completed demo_completed demo_binding 1 (u "t2") _ (Ret (Some demo_result))
    demo_claimed_reached demo_claimed_row_ok eq_refl (pair_split _ _ demo_complete_ok)).
  - reflexivity.
  - vm_compute. reflexivity.
  - vm_compute. reflexivity.
  - apply rtc_refl.
  - reflexivity.
  - exact (pair_split _ _ demo_replay_ok).
Defined.

Lemma demo_pending_row : requests demo_pending !! u "a" = Some (demo_ask (u " WEB")).
Proof. vm_compute. reflexivity. Qed.
Lemma demo_tab_row : requests demo_tab !! u "a" = Some (demo_ask (9%N :: u "web")).
Proof. vm_compute. reflexivity. Qed.
Lemma approval_rows_move_forward_witness :
  exists q', requests demo_approved !! u "a" = Some q' /\ rq_terms q' = rq_terms (demo_ask (u " WEB")).
Proof.
  destruct (approval_rows_move_forward ∅ [] demo_pending demo_approved (u "a") (demo_ask (u " WEB"))) as (q' & Hq & _ & _ & Ht & _).
  - exact demo_pending_reached.
  - eapply rtc_once, step_any, step_vote, surjective_pairing.
  - exact demo_pending_row.
  - exists q'. split; [exact Hq|exact Ht].
Defined.

Lemma vote_decides_once_witness :
  exists row, requests demo_pending !! u "a" = Some row /\ is_Some (requests demo_approved !! u "a").
Proof.
  destruct (vote_decides_once ∅ [] demo_pending (u "a") demo_vote demo_approved _ demo_pending_reached
    (pair_split _ _ demo_vote_ok)) as (row & Hr & Hr' & _).
  exists row. split; [exact Hr|]. eexists. exact Hr'.
Defined.

Lemma demo_tab_matches : identity_matches (u "call") (u "bob") (u "req") (u "run") (u "s")
  (Some (9%N :: u "web")) (demo_ask (9%N :: u "web")) = true.
Proof. vm_compute. reflexivity. Qed.
(** The approval of a run on channel ["\tweb"] cannot be cancelled. *)
Lemma cancellation_exact_witness :
  terminalize_pending_for_cancellation 9 (u "a") (u "call") (u "bob") (u "req") (u "run") (u "s")
    (Some (9%N :: u "web")) None None (u "cancelled") demo_tab = (demo_tab, Raise StoreRuntimeError).
Proof.
  rewrite (proj1 (cancellation_exact ∅ [] demo_tab 9 (u "a") (u "call") (u "bob") (u "req") (u "run") (u "s")
    (Some (9%N :: u "web")) None None (u "cancelled") (demo_ask (9%N :: u "web")) demo_tab_reached demo_tab_row
    eq_refl eq_refl eq_refl (not_elem_of_empty _))).
  rewrite demo_tab_matches. reflexivity.
Defined.

Definition demo_fence_call :=
  fence_persistent_grants_for_cancellation 20 (u "a") (u "call") (u "bob") (u "req") (u "run") (u "s")
    (Some (u "web")) demo_granted.
Lemma demo_fence_ok : exists q, demo_fence_call.2 = Ret (q, true).
Proof. eexists. vm_compute. reflexivity. Qed.
Lemma cancellation_fence_is_final_witness :
  create_persistent_grant demo_grant demo_fence_call.1 =
    (demo_fence_call.1, Raise PersistentGrantCancellationFenced).
Proof.
  destruct demo_fence_ok as [q Hq].
  apply (proj2 (cancellation_fence_is_final ∅ [] demo_granted 20 (u "a") (u "call") (u "bob") (u "req") (u "run") (u "s")
    (Some (u "web")) q demo_fence_call.1 demo_fence_call.1 demo_granted_reached (pair_split _ _ Hq) (rtc_refl _ _))).
  reflexivity.
Defined.

Lemma demo_found_ok :
  (find_persistent_grant (u "bob") (u "buy") (u "k") 20 standard exact (Some (u "k")) demo_granted).2
    = Ret (Some demo_grant).
Proof. vm_compute. reflexivity. Qed.
Lemma found_grant_is_sound_witness :
  g_revoked_at demo_grant = None /\ fences demo_granted !! u "a" = None.
Proof.
  destruct (found_grant_is_sound ∅ [] demo_granted (u "bob") (u "buy") (u "k") 20 standard exact (Some (u "k")) _
    demo_grant demo_granted_reached (pair_split _ _ demo_found_ok)) as (_ & _ & _ & _ & _ & _ & H1 & _ & H2 & _).
  split; [exact H1|exact H2].
Defined.

Definition demo_delegation_call := claim_delegation_grant (u "d") (u "r") (u "x") 30 demo_delegated.
Lemma demo_delegation_ok :
  demo_delegation_call.2 = Ret (Some (set_delegation_times None (Some 30%Z) demo_delegation)).
Proof. vm_compute. reflexivity. Qed.
Lemma delegation_consumed_once_witness :
  claim_delegation_grant (u "d") (u "r") (u "x") 31 demo_delegation_call.1 = (demo_delegation_call.1, Ret None).
Proof.
  apply (delegation_consumed_once ∅ [] demo_delegated (u "d") (u "r") (u "x") 30
    (set_delegation_times None (Some 30%Z) demo_delegation) demo_delegation_call.1 demo_delegation_call.1
    (u "r") (u "x") 31 demo_delegated_reached (pair_split _ _ demo_delegation_ok) (rtc_refl _ _)).
Defined.


Definition demo_parked := park_executable_binding 12 None (u "a") demo_meta [] [] demo_pending.
Lemma demo_parked_ok : demo_parked.2 = Ret (u "n").
Proof. vm_compute. reflexivity. Qed.
Lemma parked_call_single_authority_witness :
  exists row, bindings demo_parked.1 !! u "a" = Some row /\ exec_state row = unclaimed.
Proof.
  destruct (parked_call_single_authority ∅ [] demo_pending 12 None (u "a") demo_meta [] [] demo_parked.1 (u "n")
    demo_pending_reached (pair_split _ _ demo_parked_ok)) as [(row & Hb & Hu & _) _].
  exists row. split; [exact Hb|exact Hu].
Defined.

End ApprovalLifecycle.
