(* ===== verification/ApprovalDelivery.v ===== *)
(** * ApprovalDelivery: the durable outbox of autonomous approval decisions

    Models the autonomous delivery part of [src/agent_gateway/approval_store.py]:
    the outbox row with the CHECK constraints of its table, the delivery
    sequence, the trusted clock, votes and cancellations that write a decision
    and its delivery in one transaction, and the transactions that audit,
    publish, reconcile, acknowledge, fail and quarantine a delivery.
    [DeliveryDB] adds these tables to [StoreDB]; [zoom] runs a store transaction
    inside it. [ensure_autonomous_approval_delivery_audited] suspends while the
    audit writer runs: it is three parts, and a suspended call is a [Ticket] of
    the [World] whose steps interleave with every other transaction. A Python
    [datetime] is its microseconds since the epoch; an outbox row is keyed by
    its approval ([UNIQUE (approval_id)]); [allow_tool_type] is constantly
    false and omitted. *)
From S2P Require Import Prelude ApprovalPolicy ApprovalStore ApprovalParking ApprovalLifecycle.
Import ApprovalPolicy ApprovalStore ApprovalParking ApprovalLifecycle.

Module ApprovalDelivery.

(** ** Rows *)
Inductive delivery_state := d_pending | d_published | d_acknowledged | d_quarantined.
#[global] Instance delivery_state_eq : EqDecision delivery_state.
Proof. solve_decision. Defined.

(** The normalized context of a delivery. *)
Record Authority := mkAuthority {
  au_task_id : str;
  au_control_run_id : str;
  au_session_id : str;
  au_channel_id : str;
  au_tool_call_id : str;
  au_nonce : str
}.
#[global] Instance Authority_eq : EqDecision Authority.
Proof. solve_decision. Defined.

(** What a row is inserted with and no statement updates. *)
Record DeliveryTerms := mkTerms {
  delivery_sequence : Z;
  dv_authority : Authority;
  dv_approved : bool;
  dv_decided_at_ns : Z;
  dv_triggering_vote_id : option str;
  dv_vote_audit_entry_id : option str;
  dv_terminal_audit_entry_id : str;
  dv_created_at : str
}.

Record Delivery := mkDelivery {
  dv_terms : DeliveryTerms;
  dv_state : delivery_state;
  dv_audit_ready : bool;
  dv_last_attempt_ns : option Z;
  dv_attempt_count : Z;
  dv_last_error : option str;
  dv_updated_at : str;
  dv_audit_ready_at : option str;
  dv_published_at : option str;
  dv_acknowledged_at : option str;
  dv_quarantined_at : option str
}.

Record DeliveryDB := mkDDB {
  d_store : StoreDB;
  d_outbox : gmap str Delivery;
  d_next_value : option Z;
  d_clock : option Z
}.
Definition with_store (s : StoreDB) (d : DeliveryDB) : DeliveryDB := mkDDB s (d_outbox d) (d_next_value d) (d_clock d).
Definition with_outbox (m : gmap str Delivery) (d : DeliveryDB) : DeliveryDB := mkDDB (d_store d) m (d_next_value d) (d_clock d).
Definition with_next (n : option Z) (d : DeliveryDB) : DeliveryDB := mkDDB (d_store d) (d_outbox d) n (d_clock d).
Definition with_clock (c : option Z) (d : DeliveryDB) : DeliveryDB := mkDDB (d_store d) (d_outbox d) (d_next_value d) c.

Abbreviation D := (SE DeliveryDB store_error).

(** A statement of the other tables inside the same transaction. *)
Definition zoom {X} (m : A X) : D X :=
  fun d => let '(s, r) := m (d_store d) in (with_store s d, r).
Definition check (b : bool) (e : store_error) : D unit := if b then se_ret tt else se_raise e.

(** The CHECK constraints of the table. *)
Definition delivery_checks (r : Delivery) : bool :=
  let t := dv_terms r in
  (0 <? delivery_sequence t)%Z && (0 <? dv_decided_at_ns t)%Z
  && match dv_last_attempt_ns r with None => true | Some n => (0 <? n)%Z end
  && (0 <=? dv_attempt_count r)%Z
  && eqb (is_none (dv_triggering_vote_id t)) (is_none (dv_vote_audit_entry_id t))
  && eqb (dv_audit_ready r) (negb (is_none (dv_audit_ready_at r)))
  && match dv_state r with
     | d_pending => is_none (dv_published_at r) && is_none (dv_acknowledged_at r) && is_none (dv_quarantined_at r)
     | d_published =>
       dv_audit_ready r && negb (is_none (dv_published_at r)) && is_none (dv_acknowledged_at r) && is_none (dv_quarantined_at r)
     | d_acknowledged =>
       dv_audit_ready r && negb (is_none (dv_published_at r)) && negb (is_none (dv_acknowledged_at r)) && is_none (dv_quarantined_at r)
     | d_quarantined => is_none (dv_published_at r) && is_none (dv_acknowledged_at r) && negb (is_none (dv_quarantined_at r))
     end.

Definition SQLITE_MAX_INTEGER : Z := 2 ^ 63 - 1.

(** ** Values *)

(** [_canonical_delivery_text] accepts *)
Definition canonical_delivery_text (max_length : Z) (s : str) : bool :=
  negb (bool_decide (s = [])) && bool_decide (s = py_strip s)
  && (Z.of_nat (length s) <=? max_length)%Z && negb (bool_decide (0%N ∈ s)).

Definition CONTEXT_FIELDS : list str :=
  [u "task_id"; u "control_run_id"; u "session_id"; u "channel_id"; u "tool_call_id"; u "nonce"].

Definition context_field (value : list (str * json)) (name : str) : outcome store_error str :=
  match dict_get name value with
  | Some (JStr s) => if canonical_delivery_text 512 s then Ret s else Raise StoreValueError
  | _ => Raise StoreValueError
  end.

(** [_normalize_autonomous_approval_delivery_context] *)
Definition normalize_delivery_context (value : list (str * json)) : outcome store_error Authority :=
  if negb (forallb (fun kv => bool_decide (kv.1 ∈ CONTEXT_FIELDS)) value
           && forallb (fun k => bool_decide (k ∈ value.*1)) CONTEXT_FIELDS)
  then Raise StoreValueError
  else
    let? task := context_field value (u "task_id") in
    let? run := context_field value (u "control_run_id") in
    let? sess := context_field value (u "session_id") in
    let? chan := context_field value (u "channel_id") in
    let? call := context_field value (u "tool_call_id") in
    let? nonce := context_field value (u "nonce") in
    if negb (length chan =? 64) || negb (forallb is_lower_hex chan) then Raise StoreValueError
    else Ret (mkAuthority task run sess chan call nonce).

Definition authority_context (a : Authority) : list (str * json) :=
  [(u "task_id", JStr (au_task_id a)); (u "control_run_id", JStr (au_control_run_id a));
   (u "session_id", JStr (au_session_id a)); (u "channel_id", JStr (au_channel_id a));
   (u "tool_call_id", JStr (au_tool_call_id a)); (u "nonce", JStr (au_nonce a))].

(** [_datetime_to_epoch_ns], [_datetime_from_epoch_ns] *)
Definition datetime_to_epoch_ns (t : Z) : Z := (t * 1000)%Z.
Definition datetime_from_epoch_ns (v : Z) : Z := (v / 1000000000 * 1000000 + v mod 1000000000 / 1000)%Z.

(** [_trusted_utc_now]: advance the stored high water or refuse. *)
Definition trusted_utc_now (now_ns : Z) : D (Z * Z) :=
  let! d := se_get in
  let! _ := check (match d_clock d with Some prior => (prior <=? now_ns)%Z | None => true end) StoreRuntimeError in
  let! _ := check (0 <? now_ns)%Z StoreIntegrityError in
  let! _ := se_put (with_clock (Some now_ns) d) in
  se_ret (now_ns, datetime_from_epoch_ns now_ns).

Section delivery.
Context {env : StoreEnv}.

Definition now_text (now_ns : Z) : D str :=
  let! t := trusted_utc_now now_ns in se_ret (dt_to_text t.2).

(** [_autonomous_approval_audit_entry_id] *)
Definition audit_entry_id (event aid call nonce source : str) (at_ns : Z) : str :=
  u "autonomous-approval-delivery-v1:" ++
  sha256_hex (py_join [0%N] [u "autonomous-approval-delivery-audit-v1"; event; aid; call; nonce; source; Z_to_str at_ns]).

Definition decision_state (approved_ : bool) : ApprovalState := if approved_ then approved else denied.
Definition decision_text (approved_ : bool) : str := if approved_ then u "approved" else u "denied".
Definition vote_entry_id (aid call nonce : str) (vote : option ApprovalVote) : option str :=
  v ← vote; Some (audit_entry_id (u "vote_recorded") aid call nonce (vote_id v) (datetime_to_epoch_ns (v_decided_at v))).
Definition terminal_entry_id (aid call nonce : str) (approved_ : bool) (vote : option ApprovalVote) (at_ns : Z) : str :=
  audit_entry_id (decision_text approved_) aid call nonce
    (match vote with Some v => vote_id v | None => u "cancellation" end) at_ns.

(** [WHERE approval_id = ? AND tool_call_id = ? AND nonce = ?] *)
Definition find_delivery (d : DeliveryDB) (aid call nonce : str) : option Delivery :=
  match d_outbox d !! aid with
  | Some r =>
    let a := dv_authority (dv_terms r) in
    if bool_decide (au_tool_call_id a = call) && bool_decide (au_nonce a = nonce) then Some r else None
  | None => None
  end.

(** A written row must satisfy the constraints of the table. *)
Definition put_delivery (aid : str) (r : Delivery) : D unit :=
  let! d := se_get in
  let! _ := check (delivery_checks r) StoreIntegrityError in
  se_put (with_outbox (<[aid := r]> (d_outbox d)) d).

(** ** Inserting a delivery *)

(** Draw the next delivery sequence. *)
Definition take_sequence : D Z :=
  let! d := se_get in
  match d_next_value d with
  | None => let! _ := se_put (with_next (Some 2%Z) d) in se_ret 1%Z
  | Some n =>
    let! _ := check ((1 <=? n)%Z && (n <? SQLITE_MAX_INTEGER)%Z) StoreRuntimeError in
    let! _ := se_put (with_next (Some (n + 1)%Z) d) in
    se_ret n
  end.

Definition delivery_matches_request (q : ApprovalRequest) (a : Authority) : bool :=
  bool_decide (request_id (rq_id q) = au_control_run_id a)
  && bool_decide (run_id (rq_id q) = Some (au_control_run_id a))
  && bool_decide (session_id (rq_id q) = Some (au_session_id a)).

Definition vote_matches (aid : str) (st : ApprovalState) (at_ns : Z) (v : ApprovalVote) : bool :=
  bool_decide (v_approval_id v = aid) && bool_decide (decision_state (v_approved v) = st)
  && (datetime_to_epoch_ns (v_decided_at v) =? at_ns)%Z.

(** The fields [expected_delivery] compares. *)
Definition same_delivery_terms (a b : DeliveryTerms) : bool :=
  bool_decide (dv_authority a = dv_authority b) && eqb (dv_approved a) (dv_approved b)
  && (dv_decided_at_ns a =? dv_decided_at_ns b)%Z
  && bool_decide (dv_triggering_vote_id a = dv_triggering_vote_id b)
  && bool_decide (dv_vote_audit_entry_id a = dv_vote_audit_entry_id b)
  && bool_decide (dv_terminal_audit_entry_id a = dv_terminal_audit_entry_id b).

Definition new_delivery (t : DeliveryTerms) : Delivery :=
  mkDelivery t d_pending false None 0 None (dv_created_at t) None None None None.

(** [_insert_autonomous_approval_delivery_in_transaction] *)
Definition insert_delivery (now_ns : Z) (q : ApprovalRequest) (a : Authority) (approved_ : bool)
    (vote : option ApprovalVote) : D Delivery :=
  let aid := approval_id (rq_id q) in
  let call := tool_call_id (rq_id q) in
  let! _ := check (bool_decide (state (rq_state q) = decision_state approved_)) StoreValueError in
  let! _ := check (bool_decide (call = au_tool_call_id a)) StoreValueError in
  let! _ := check (delivery_matches_request q a) StoreValueError in
  match decided_at (rq_state q) with
  | None => se_raise StoreRuntimeError
  | Some at_ =>
    let ns := datetime_to_epoch_ns at_ in
    let! _ := check (match vote with Some v => vote_matches aid (decision_state approved_) ns v | None => true end)
                StoreValueError in
    let! created_text := now_text now_ns in
    let! seq := take_sequence in
    let terms := mkTerms seq a approved_ ns (vote_id <$> vote) (vote_entry_id aid call (au_nonce a) vote)
                   (terminal_entry_id aid call (au_nonce a) approved_ vote ns) created_text in
    let! d := se_get in
    let! _ := check (is_none (d_outbox d !! aid)
                     && forallb (fun r => negb (delivery_sequence (dv_terms r) =? seq)%Z) (map_to_list (d_outbox d)).*2)
                StoreIntegrityError in
    let! _ := put_delivery aid (new_delivery terms) in
    let! d' := se_get in
    match find_delivery d' aid call (au_nonce a) with
    | None => se_raise StoreRuntimeError
    | Some r =>
      let! _ := check (1 <=? delivery_sequence (dv_terms r))%Z StoreRuntimeError in
      let! _ := check (same_delivery_terms (dv_terms r) terms) StoreValueError in
      se_ret r
    end
  end.

(** [_record_vote] before its transaction: an earlier delivery of the same
    decision is a retry, a different one is refused. *)
Definition retry_delivery (aid : str) (v : ApprovalVote) (a : Authority) : D bool :=
  let! d := se_get in
  match find_delivery d aid (au_tool_call_id a) (au_nonce a) with
  | None => se_ret false
  | Some r =>
    let! _ := check (bool_decide (dv_authority (dv_terms r) = a) && eqb (dv_approved (dv_terms r)) (v_approved v))
                StoreValueError in
    se_ret true
  end.
Definition retry_request (aid : str) (v : ApprovalVote) : D ApprovalRequest :=
  let! d := se_get in
  match requests (d_store d) !! aid with
  | None => se_raise StoreValueError
  | Some row =>
    let! q := zoom (lift_policy (post_init row)) in
    let st := decision_state (v_approved v) in
    let! _ := check (bool_decide (state (rq_state q) = st) && bool_decide (decision (rq_state q) = Some st)
                     && bool_decide (decider_id (rq_state q) = Some (v_decider_id v))) StoreValueError in
    se_ret q
  end.

(** [_record_vote]: the transaction of a vote with a delivery. *)
Definition record_vote_delivery (now_ns : Z) (aid : str) (v : ApprovalVote) (ctx : list (str * json))
    : D (ApprovalRequest * bool) :=
  let! _ := check (bool_decide (v_approval_id v = aid)) StoreValueError in
  let! a := se_lift (normalize_delivery_context ctx) in
  transact (
    let! res := zoom (record_vote_locked (Some (au_tool_call_id a)) aid v) in
    if (res.2 : bool) then
      let! _ := insert_delivery now_ns res.1 a (v_approved v) (Some v) in
      se_ret res
    else se_ret res).

(** [record_vote_with_autonomous_delivery] without interruption, up to the
    audit that follows: [inl] is a retry, [inr] the result of the transaction. *)
Definition record_vote_with_delivery (now_ns : Z) (aid : str) (v : ApprovalVote) (ctx : list (str * json))
    : D (ApprovalRequest + ApprovalRequest * bool) :=
  let! _ := check (bool_decide (v_approval_id v = aid)) StoreValueError in
  let! a := se_lift (normalize_delivery_context ctx) in
  let! again := retry_delivery aid v a in
  if (again : bool) then let! q := retry_request aid v in se_ret (inl q)
  else let! res := record_vote_delivery now_ns aid v ctx in se_ret (inr res).

(** [terminalize_pending_for_cancellation] with a delivery. *)
Definition terminalize_with_delivery (now now_ns : Z) (aid call usr req run sess : str) (chan : option str)
    (decider role : option str) (rsn : str) (ctx : list (str * json)) : D (ApprovalRequest * bool * bool) :=
  let! a := se_lift (normalize_delivery_context ctx) in
  transact (
    let! res := zoom (terminalize_locked now aid call usr req run sess chan decider role rsn) in
    if (res.1.2 : bool) then
      let! _ := insert_delivery now_ns res.1.1 a false None in
      se_ret res
    else se_ret res).

(** ** Audit *)

(** The identity arguments of a delivery method. *)
Definition delivery_key (aid call nonce : str) : D unit :=
  check (canonical_delivery_text 512 aid && canonical_delivery_text 512 call && canonical_delivery_text 512 nonce)
    StoreValueError.

(** [SELECT * FROM approval_votes WHERE vote_id = ?] *)
Definition find_vote (vid : str) (db : StoreDB) : option ApprovalVote :=
  head (filter (fun v => vote_id v = vid) (map_to_list (votes db)).*2).

(** The audit entries a delivery must have, computed from the durable request
    and vote; [None] means it is already audited. *)
Record AuditPlan := mkPlan { plan_vote : option str; plan_terminal : str }.

(** [ensure_autonomous_approval_delivery_audited] up to the emission. *)
Definition audit_plan (aid call nonce : str) : D (Delivery * option AuditPlan) :=
  let! _ := delivery_key aid call nonce in
  let! d := se_get in
  match find_delivery d aid call nonce with
  | None => se_raise StoreKeyError
  | Some r =>
    let t := dv_terms r in
    let a := dv_authority t in
    if dv_audit_ready r then se_ret (r, None)
    else
      let! _ := check (bool_decide (dv_state r = d_pending)) StoreRuntimeError in
      match requests (d_store d) !! aid with
      | None => se_raise StoreRuntimeError
      | Some row =>
        let! q := zoom (lift_policy (post_init row)) in
        let st := decision_state (dv_approved t) in
        let! _ := check (bool_decide (state (rq_state q) = st) && bool_decide (decision (rq_state q) = Some st)
                         && bool_decide (approval_id (rq_id q) = aid)
                         && bool_decide (tool_call_id (rq_id q) = au_tool_call_id a)
                         && delivery_matches_request q a
                         && bool_decide (datetime_to_epoch_ns <$> decided_at (rq_state q) = Some (dv_decided_at_ns t)))
                    StoreRuntimeError in
        let! vote := (match dv_triggering_vote_id t with
                      | None => se_ret None
                      | Some vid =>
                        match find_vote vid (d_store d) with
                        | None => se_raise StoreRuntimeError
                        | Some v => let! _ := check (vote_matches aid st (dv_decided_at_ns t) v) StoreRuntimeError in
                                    se_ret (Some v)
                        end
                      end) in
        let ve := vote_entry_id aid call nonce vote in
        let te := terminal_entry_id aid call nonce (dv_approved t) vote (dv_decided_at_ns t) in
        let! _ := check (bool_decide (dv_vote_audit_entry_id t = ve) && bool_decide (dv_terminal_audit_entry_id t = te))
                    StoreRuntimeError in
        se_ret (r, Some (mkPlan ve te))
      end
  end.

(** The entries it emits, in order. *)
Definition plan_entries (p : AuditPlan) : list str := option_list (plan_vote p) ++ [plan_terminal p].

Definition with_audit (text : str) (r : Delivery) : Delivery :=
  mkDelivery (dv_terms r) (dv_state r) true (dv_last_attempt_ns r) (dv_attempt_count r) (dv_last_error r) text
    (Some text) (dv_published_at r) (dv_acknowledged_at r) (dv_quarantined_at r).

(** Its transaction after the emission. *)
Definition audit_commit (now_ns : Z) (aid call nonce : str) (p : AuditPlan) : D Delivery :=
  transact (
    let! text := now_text now_ns in
    let! d := se_get in
    match find_delivery d aid call nonce with
    | None => se_raise StoreRuntimeError
    | Some r =>
      if dv_audit_ready r then se_ret r
      else if bool_decide (dv_state r = d_pending)
              && bool_decide (dv_terminal_audit_entry_id (dv_terms r) = plan_terminal p)
              && bool_decide (dv_vote_audit_entry_id (dv_terms r) = plan_vote p)
      then let! _ := put_delivery aid (with_audit text r) in se_ret (with_audit text r)
      else se_raise StoreRuntimeError
    end).

(** ** Publication *)
Definition with_published (text : str) (r : Delivery) : Delivery :=
  mkDelivery (dv_terms r) d_published (dv_audit_ready r) (dv_last_attempt_ns r) (dv_attempt_count r + 1) None text
    (dv_audit_ready_at r) (Some text) (dv_acknowledged_at r) (dv_quarantined_at r).

(** The guard of an approval against its cancellation fence. *)
Definition require_unfenced (approved_ : bool) (aid : str) : D unit :=
  let! d := se_get in
  check (negb approved_ || is_none (fences (d_store d) !! aid)) PersistentGrantCancellationFenced.

(** [UPDATE ... SET state = 'published' ... WHERE state = 'pending' AND
    audit_state = 'ready'] *)
Definition publish_row (now_ns : Z) (aid call nonce : str) : D Delivery :=
  let! text := now_text now_ns in
  let! d := se_get in
  match find_delivery d aid call nonce with
  | Some r =>
    if bool_decide (dv_state r = d_pending) && dv_audit_ready r
    then let! _ := put_delivery aid (with_published text r) in se_ret (with_published text r)
    else se_raise StoreRuntimeError
  | None => se_raise StoreRuntimeError
  end.

(** [autonomous_approval_delivery_append_transaction] before it yields. *)
Definition append_check (aid call nonce : str) (approved_ : bool) : D unit :=
  let! _ := delivery_key aid call nonce in
  let! d := se_get in
  match find_delivery d aid call nonce with
  | None => se_raise StoreKeyError
  | Some r =>
    let! _ := check (eqb (dv_approved (dv_terms r)) approved_) StoreValueError in
    let! _ := check (dv_audit_ready r) StoreRuntimeError in
    let! _ := check (bool_decide (dv_state r = d_pending)) StoreRuntimeError in
    require_unfenced approved_ aid
  end.

(** The whole transaction around a [with] body that returns or raises. *)
Definition append_transaction (now_ns : Z) (aid call nonce : str) (approved_ : bool) (body : outcome store_error unit) : D unit :=
  transact (
    let! _ := append_check aid call nonce approved_ in
    let! _ := se_lift body in
    let! _ := publish_row now_ns aid call nonce in
    se_ret tt).

(** [reconcile_autonomous_approval_delivery_duplicate] *)
Definition reconcile_duplicate (now_ns : Z) (aid call nonce : str) (approved_ : bool) : D Delivery :=
  let! _ := delivery_key aid call nonce in
  transact (
    let! d := se_get in
    match find_delivery d aid call nonce with
    | None => se_raise StoreKeyError
    | Some r =>
      let! _ := check (eqb (dv_approved (dv_terms r)) approved_) StoreValueError in
      let! _ := check (dv_audit_ready r) StoreRuntimeError in
      match dv_state r with
      | d_published | d_acknowledged => se_ret r
      | d_quarantined => se_raise StoreRuntimeError
      | d_pending =>
        let! _ := require_unfenced approved_ aid in
        publish_row now_ns aid call nonce
      end
    end).

(** ** Acknowledgement, failure, quarantine *)
Definition with_acknowledged (text : str) (r : Delivery) : Delivery :=
  mkDelivery (dv_terms r) d_acknowledged (dv_audit_ready r) (dv_last_attempt_ns r) (dv_attempt_count r) None text
    (dv_audit_ready_at r) (dv_published_at r) (Some text) (dv_quarantined_at r).

(** [acknowledge_autonomous_approval_delivery] *)
Definition acknowledge_delivery (now_ns : Z) (aid : str) (a0 : Authority) (approved_ : bool) (decided_ns : Z) : D Delivery :=
  let! _ := check (canonical_delivery_text 512 aid) StoreValueError in
  let! a := se_lift (normalize_delivery_context (authority_context a0)) in
  let! _ := check (1 <=? decided_ns)%Z StoreValueError in
  transact (
    let! _ := zoom (require_unreserved aid (Some (au_tool_call_id a)) (Some (au_nonce a))) in
    let! text := now_text now_ns in
    let! d := se_get in
    match find_delivery d aid (au_tool_call_id a) (au_nonce a) with
    | None => se_raise StoreKeyError
    | Some r =>
      let t := dv_terms r in
      let! _ := check (bool_decide (dv_authority t = a) && eqb (dv_approved t) approved_
                       && (dv_decided_at_ns t =? decided_ns)%Z) StoreValueError in
      let! _ := check (dv_audit_ready r) StoreRuntimeError in
      match dv_state r with
      | d_acknowledged => se_ret r
      | d_published =>
        let! _ := put_delivery aid (with_acknowledged text r) in
        se_ret (with_acknowledged text r)
      | _ => se_raise StoreRuntimeError
      end
    end).

Definition with_failure (error text : str) (now_ns : Z) (r : Delivery) : Delivery :=
  mkDelivery (dv_terms r) (dv_state r) (dv_audit_ready r) (Some now_ns) (dv_attempt_count r + 1) (Some error) text
    (dv_audit_ready_at r) (dv_published_at r) (dv_acknowledged_at r) (dv_quarantined_at r).

(** [record_autonomous_approval_delivery_failure] *)
Definition record_delivery_failure (now_ns : Z) (aid call nonce error : str) : D Delivery :=
  let! _ := delivery_key aid call nonce in
  let! _ := check (canonical_delivery_text 512 error) StoreValueError in
  transact (
    let! _ := zoom (require_unreserved aid (Some call) (Some nonce)) in
    let! d := se_get in
    match find_delivery d aid call nonce with
    | None => se_raise StoreKeyError
    | Some r =>
      match dv_state r with
      | d_acknowledged | d_quarantined => se_ret r
      | _ =>
        let! text := now_text now_ns in
        let! _ := put_delivery aid (with_failure error text now_ns r) in
        se_ret (with_failure error text now_ns r)
      end
    end).

Definition with_quarantined (error text : str) (now_ns : Z) (r : Delivery) : Delivery :=
  mkDelivery (dv_terms r) d_quarantined (dv_audit_ready r) (Some now_ns) (dv_attempt_count r + 1) (Some error) text
    (dv_audit_ready_at r) (dv_published_at r) (dv_acknowledged_at r) (Some text).

(** [quarantine_autonomous_approval_delivery] *)
Definition quarantine_delivery (now_ns : Z) (aid call nonce error : str) : D Delivery :=
  let! _ := delivery_key aid call nonce in
  let! _ := check (canonical_delivery_text 512 error) StoreValueError in
  transact (
    let! _ := zoom (require_unreserved aid (Some call) (Some nonce)) in
    let! d := se_get in
    match find_delivery d aid call nonce with
    | None => se_raise StoreKeyError
    | Some r =>
      match dv_state r with
      | d_quarantined => se_ret r
      | d_pending =>
        let! text := now_text now_ns in
        let! _ := put_delivery aid (with_quarantined error text now_ns r) in
        se_ret (with_quarantined error text now_ns r)
      | _ => se_raise StoreRuntimeError
      end
    end).

(** ** Recovery *)

(** [ORDER BY delivery_sequence ASC] *)
Fixpoint insert_by_sequence (x : str * Delivery) (l : list (str * Delivery)) : list (str * Delivery) :=
  match l with
  | [] => [x]
  | y :: l' => if (delivery_sequence (dv_terms x.2) <=? delivery_sequence (dv_terms y.2))%Z
               then x :: y :: l' else y :: insert_by_sequence x l'
  end.
Definition sort_by_sequence (l : list (str * Delivery)) : list (str * Delivery) := foldr insert_by_sequence [] l.

(** [list_pending_autonomous_approval_deliveries] *)
Definition pending_between (after : Z) (through : option Z) (kr : str * Delivery) : bool :=
  bool_decide (dv_state kr.2 = d_pending) && (after <? delivery_sequence (dv_terms kr.2))%Z
  && match through with None => true | Some h => (delivery_sequence (dv_terms kr.2) <=? h)%Z end.
Definition list_pending (d : DeliveryDB) (after : Z) (through : option Z) : list (str * Delivery) :=
  sort_by_sequence (filter (fun kr => pending_between after through kr = true) (map_to_list (d_outbox d))).

(** [COALESCE(MAX(delivery_sequence), 0)] *)
Definition high_water (d : DeliveryDB) : Z :=
  foldr (fun kr m => Z.max (delivery_sequence (dv_terms kr.2)) m) 0%Z (map_to_list (d_outbox d)).

(** [autonomous_approval_delivery_recovery_window] *)
Definition recovery_window (now_ns : Z) : D (Z * Z) :=
  transact (
    let! t := trusted_utc_now now_ns in
    let! d := se_get in
    se_ret (high_water d, t.1)).

(** [ApprovalAuditEmitter._write] of an event before execution: a failed write
    raises for the tool classes that change something outside, and is a warning
    for the others. [Some b] is a return, [b] whether the entry was written. *)
Definition audited_strictly (c : ToolClass) : bool :=
  match c with state_write | external_write | portfolio_config | irreversible => true | _ => false end.
Definition audit_write (writer_ok : bool) (c : ToolClass) : option bool :=
  if writer_ok then Some true else if audited_strictly c then None else Some false.

(** ** Interleavings

    A coroutine inside [ensure_autonomous_approval_delivery_audited] holds the
    plan it computed and the entries it has still to emit. *)
Record Ticket := mkTicket {
  tk_aid : str;
  tk_call : str;
  tk_nonce : str;
  tk_class : ToolClass;       (* of the request it audits *)
  tk_plan : AuditPlan;
  tk_todo : list str
}.
Record World := mkWorld {
  w_db : DeliveryDB;
  w_log : list str;           (* entries whose emission returned *)
  w_tickets : list Ticket;
  w_written : list str        (* entries the audit writer holds *)
}.
Definition with_db (d : DeliveryDB) (w : World) : World := mkWorld d (w_log w) (w_tickets w) (w_written w).

Inductive world_step (w : World) : World -> Prop :=
| ws_store ok s : store_step (d_store (w_db w)) ok s -> world_step w (with_db (with_store s (w_db w)) w)
| ws_vote now_ns aid v ctx d r :
    record_vote_delivery now_ns aid v ctx (w_db w) = (d, r) -> world_step w (with_db d w)
| ws_cancel now now_ns aid call usr req run sess chan de ro rs ctx d r :
    terminalize_with_delivery now now_ns aid call usr req run sess chan de ro rs ctx (w_db w) = (d, r) ->
    world_step w (with_db d w)
| ws_audit_start aid call nonce d r p q :
    audit_plan aid call nonce (w_db w) = (d, Ret (r, Some p)) -> requests (d_store d) !! aid = Some q ->
    world_step w (mkWorld d (w_log w)
      (mkTicket aid call nonce (tool_class (rq_id q)) p (plan_entries p) :: w_tickets w) (w_written w))
| ws_audit_emit l1 l2 tk e es writer_ok wrote :
    w_tickets w = l1 ++ tk :: l2 -> tk_todo tk = e :: es -> audit_write writer_ok (tk_class tk) = Some wrote ->
    world_step w (mkWorld (w_db w) (e :: w_log w)
      (l1 ++ mkTicket (tk_aid tk) (tk_call tk) (tk_nonce tk) (tk_class tk) (tk_plan tk) es :: l2)
      (if wrote then e :: w_written w else w_written w))
| ws_audit_fail l1 l2 tk :                               (* the emitter raised *)
    w_tickets w = l1 ++ tk :: l2 -> world_step w (mkWorld (w_db w) (w_log w) (l1 ++ l2) (w_written w))
| ws_audit_commit l1 l2 tk now_ns d r :
    w_tickets w = l1 ++ tk :: l2 -> tk_todo tk = [] ->
    audit_commit now_ns (tk_aid tk) (tk_call tk) (tk_nonce tk) (tk_plan tk) (w_db w) = (d, r) ->
    world_step w (mkWorld d (w_log w) (l1 ++ l2) (w_written w))
| ws_publish now_ns aid call nonce ap body d r :
    append_transaction now_ns aid call nonce ap body (w_db w) = (d, r) -> world_step w (with_db d w)
| ws_duplicate now_ns aid call nonce ap d r :
    reconcile_duplicate now_ns aid call nonce ap (w_db w) = (d, r) -> world_step w (with_db d w)
| ws_acknowledge now_ns aid a ap ns d r :
    acknowledge_delivery now_ns aid a ap ns (w_db w) = (d, r) -> world_step w (with_db d w)
| ws_failure now_ns aid call nonce e d r :
    record_delivery_failure now_ns aid call nonce e (w_db w) = (d, r) -> world_step w (with_db d w)
| ws_quarantine now_ns aid call nonce e d r :
    quarantine_delivery now_ns aid call nonce e (w_db w) = (d, r) -> world_step w (with_db d w)
| ws_window now_ns d r : recovery_window now_ns (w_db w) = (d, r) -> world_step w (with_db d w).

Definition empty_world (raw : gset str) (res : list (str * str * str)) : World :=
  mkWorld (mkDDB (empty_store raw res) ∅ None None) [] [] [].

(** ** What a step may do to the tables *)
Inductive row_step (fenced : bool) (r : Delivery) : Delivery -> Prop :=
| rs_publish text : dv_state r = d_pending -> dv_audit_ready r = true ->
    (dv_approved (dv_terms r) = true -> fenced = false) -> row_step fenced r (with_published text r)
| rs_acknowledge text : dv_state r = d_published -> row_step fenced r (with_acknowledged text r)
| rs_failure error text now_ns : dv_state r = d_pending \/ dv_state r = d_published ->
    row_step fenced r (with_failure error text now_ns r)
| rs_quarantine error text now_ns : dv_state r = d_pending -> row_step fenced r (with_quarantined error text now_ns r).

Definition is_fenced (d : DeliveryDB) (aid : str) : bool := negb (is_none (fences (d_store d) !! aid)).

(** The audit entries of a row. *)
Definition row_entries (r : Delivery) : list str :=
  option_list (dv_vote_audit_entry_id (dv_terms r)) ++ [dv_terminal_audit_entry_id (dv_terms r)].

Inductive delivery_effect (log : list str) (d : DeliveryDB) : DeliveryDB -> Prop :=
| de_store s : rtc store_effect (d_store d) s -> delivery_effect log d (with_store s d)
| de_clock n : (match d_clock d with Some p => (p <= n)%Z | None => True end) -> delivery_effect log d (with_clock (Some n) d)
| de_insert aid t :
    d_outbox d !! aid = None -> default 1%Z (d_next_value d) = delivery_sequence t ->
    delivery_checks (new_delivery t) = true ->
    delivery_effect log d (with_outbox (<[aid := new_delivery t]> (d_outbox d)) (with_next (Some (delivery_sequence t + 1)%Z) d))
| de_audit aid r text :
    d_outbox d !! aid = Some r -> dv_state r = d_pending -> row_entries r ⊆ log ->
    delivery_checks (with_audit text r) = true ->
    delivery_effect log d (with_outbox (<[aid := with_audit text r]> (d_outbox d)) d)
| de_row aid r r' :
    d_outbox d !! aid = Some r -> row_step (is_fenced d aid) r r' -> delivery_checks r' = true ->
    delivery_effect log d (with_outbox (<[aid := r']> (d_outbox d)) d).

(** ** Lemmas: the parts of a transaction *)
Lemma check_ret b e d d' x : check b e d = (d', Ret x) -> d' = d /\ b = true.
Proof. destruct b; [by intros [= <- _]|done]. Qed.
Lemma zoom_ret {X} (m : A X) d d' x :
  zoom m d = (d', Ret x) -> exists s, m (d_store d) = (s, Ret x) /\ d' = with_store s d.
Proof. unfold zoom. destruct (m (d_store d)) as [s r]. intros [= <- ->]. eauto. Qed.
Lemma with_store_same d : with_store (d_store d) d = d.
Proof. by destruct d. Qed.

Ltac d_step :=
  first [se_core
  | match goal with
    | H : check _ _ _ = (_, Ret _) |- _ => apply check_ret in H as [-> H]
    | H : zoom _ _ = (_, Ret _) |- _ => apply zoom_ret in H as (? & H & ->)
    | H : lift_policy _ _ = (_, Ret _) |- _ => apply lift_policy_ret in H as [-> H]
    end
  | se_case].
Ltac d_run := repeat (cbv beta zeta in *; d_step).

Lemma trusted_ret n d d' x :
  trusted_utc_now n d = (d', Ret x) ->
  match d_clock d with Some p => (p <= n)%Z | None => True end /\ (0 < n)%Z /\
  d' = with_clock (Some n) d /\ x = (n, datetime_from_epoch_ns n).
Proof.
  unfold trusted_utc_now. intros H. apply se_bind_ret in H as (d0 & d1 & Hg & H). injection Hg as <- <-.
  apply se_bind_ret in H as (? & d2 & Hc%check_ret & H). destruct Hc as [-> Hc].
  d_run. split; [|split; [by apply Z.ltb_lt|done]]. destruct (d_clock d); [by apply Z.leb_le|done].
Qed.
Lemma now_text_ret n d d' x :
  now_text n d = (d', Ret x) ->
  match d_clock d with Some p => (p <= n)%Z | None => True end /\ (0 < n)%Z /\
  d' = with_clock (Some n) d /\ x = dt_to_text (datetime_from_epoch_ns n).
Proof.
  unfold now_text. intros H. apply se_bind_ret in H as (t & d1 & Ht & H).
  apply trusted_ret in Ht as (? & ? & -> & ->). by injection H as <- <-.
Qed.
Lemma find_delivery_some d aid call n r :
  find_delivery d aid call n = Some r ->
  d_outbox d !! aid = Some r /\ au_tool_call_id (dv_authority (dv_terms r)) = call /\ au_nonce (dv_authority (dv_terms r)) = n.
Proof. unfold find_delivery. intros. repeat case_match; simplify_eq; bool_prop. done. Qed.
Lemma put_delivery_ret aid r d d' x :
  put_delivery aid r d = (d', Ret x) -> delivery_checks r = true /\ d' = with_outbox (<[aid := r]> (d_outbox d)) d.
Proof. unfold put_delivery. intros H. by d_run. Qed.
Lemma unfenced_ret ap aid d d' x :
  require_unfenced ap aid d = (d', Ret x) -> d' = d /\ (ap = true -> is_fenced d aid = false).
Proof.
  unfold require_unfenced, is_fenced. intros H. d_run. split; [done|]. intros ->. by destruct (fences _ !! aid).
Qed.
Lemma delivery_key_ret aid call n d d' x : delivery_key aid call n d = (d', Ret x) -> d' = d.
Proof. by intros [-> _]%check_ret. Qed.

Lemma take_sequence_ret d d' n :
  take_sequence d = (d', Ret n) -> n = default 1%Z (d_next_value d) /\ d' = with_next (Some (n + 1)%Z) d.
Proof. unfold take_sequence. intros H. d_run; done. Qed.

Lemma insert_ret log now q a ap v d d' r :
  insert_delivery now q a ap v d = (d', Ret r) ->
  rtc (delivery_effect log) d d' /\ d_store d' = d_store d /\
  d_outbox d !! approval_id (rq_id q) = None /\
  state (rq_state q) = decision_state ap /\
  exists t at_, r = new_delivery t /\ d_outbox d' = <[approval_id (rq_id q) := r]> (d_outbox d) /\
    delivery_sequence t = default 1%Z (d_next_value d) /\ dv_authority t = a /\ dv_approved t = ap /\
    decided_at (rq_state q) = Some at_ /\ dv_decided_at_ns t = datetime_to_epoch_ns at_ /\
    dv_triggering_vote_id t = vote_id <$> v.
Proof.
  unfold insert_delivery. intros H.
  apply se_bind_ret in H as (? & ? & [-> Hst]%check_ret & H).
  apply se_bind_ret in H as (? & ? & [-> Hcall]%check_ret & H).
  apply se_bind_ret in H as (? & ? & [-> Hrun]%check_ret & H).
  destruct (decided_at (rq_state q)) as [at_|] eqn:Hat; [|done]. cbv zeta in H.
  apply se_bind_ret in H as (? & ? & [-> Hv]%check_ret & H).
  apply se_bind_ret in H as (txt & ? & (Hck & _ & -> & _)%now_text_ret & H).
  apply se_bind_ret in H as (seq & ? & [Hseq ->]%take_sequence_ret & H).
  apply se_bind_ret in H as (d0 & ? & Hg & H). injection Hg as <- <-.
  apply se_bind_ret in H as (? & ? & [-> Hfree]%check_ret & H).
  apply se_bind_ret in H as (? & ? & [Hok ->]%put_delivery_ret & H).
  apply se_bind_ret in H as (d0 & ? & Hg & H). injection Hg as <- <-.
  destruct (find_delivery _ _ _ _) as [r0|] eqn:Hf; [|done].
  apply find_delivery_some in Hf as (Hf & _ & _).
  simpl in Hf. rewrite lookup_insert_eq in Hf. injection Hf as <-.
  apply se_bind_ret in H as (? & ? & [-> _]%check_ret & H).
  apply se_bind_ret in H as (? & ? & [-> _]%check_ret & H). injection H as <- <-.
  apply andb_true_iff in Hfree as [Hnone%is_none_true _]. bool_prop. simpl in *.
  split; [|split; [done|]; split; [done|]; split; [done|]; eexists _, at_; done].
  eapply rtc_l; [by apply (de_clock log d now)|]. apply rtc_once.
  refine (de_insert log (with_clock (Some now) d) _ (mkTerms _ _ _ _ _ _ _ _) Hnone (eq_sym Hseq) Hok).
Qed.

(** A delivery with its decision, and nothing without it. *)
Lemma vote_delivery_ret log now aid v ctx d d' q dec :
  store_ok (d_store d) -> record_vote_delivery now aid v ctx d = (d', Ret (q, dec)) ->
  exists a, normalize_delivery_context ctx = Ret a /\ v_approval_id v = aid /\
  rtc (delivery_effect log) d d' /\
  exists row, requests (d_store d) !! aid = Some row /\
  ((is_terminal_state (state (rq_state row)) = true /\ dec = false /\ q = row /\ d' = d) \/
   (is_terminal_state (state (rq_state row)) = false /\ dec = true /\
    q = with_req_state (voted_state v (rq_state row)) row /\
    requests (d_store d') !! aid = Some q /\ d_outbox d !! aid = None /\
    exists t, d_outbox d' = <[aid := new_delivery t]> (d_outbox d) /\
      delivery_sequence t = default 1%Z (d_next_value d) /\ dv_authority t = a /\
      dv_approved t = v_approved v /\ dv_decided_at_ns t = datetime_to_epoch_ns (v_decided_at v) /\
      dv_triggering_vote_id t = Some (vote_id v))).
Proof.
  intros Hok H. unfold record_vote_delivery in H.
  apply se_bind_ret in H as (? & ? & [-> Hv]%check_ret & H). apply bool_decide_eq_true in Hv.
  apply se_bind_ret in H as (a & ? & [-> Ha]%se_lift_ret & H). apply (proj1 (transact_ret _ _ _ _)) in H.
  apply se_bind_ret in H as ([q0 dec0] & ? & (s & Hl & ->)%zoom_ret & H). cbn [fst snd] in H.
  exists a. split; [done|]. split; [done|].
  pose proof (record_vote_locked_effect _ _ _ _ _ _ (ok_keyed _ Hok) Hv Hl) as He.
  destruct (record_vote_locked_ret _ _ _ _ _ _ _ (ok_keyed _ Hok) Hl)
    as (row & Hrow & _ & [(Ht & -> & -> & ->)|(Ht & -> & -> & db1 & -> & _)]).
  - injection H as <- <- <-. rewrite with_store_same. split; [done|]. exists row. split; [done|]. by left.
  - apply se_bind_ret in H as (r & d1 & Hi & H). injection H as -> <- <-.
    apply (insert_ret log) in Hi as (Hi & Hs & Hn & _ & t & at_ & -> & Ho & Hsq & Hau & Hap & Hat & Hns & Hvt).
    simpl in *. rewrite (ok_keyed _ Hok _ _ Hrow) in *. injection Hat as <-.
    split; [eapply rtc_l; [apply (de_store log d _ He)|exact Hi]|].
    exists row. split; [done|]. right. split; [done|]. split; [done|]. split; [done|].
    split; [by rewrite Hs; simpl; rewrite lookup_insert_eq|]. split; [done|]. exists t. done.
Qed.

Lemma cancel_delivery_ret log now now_ns aid call usr req run sess chan de ro rs ctx d d' q t m :
  store_ok (d_store d) ->
  terminalize_with_delivery now now_ns aid call usr req run sess chan de ro rs ctx d = (d', Ret (q, t, m)) ->
  rtc (delivery_effect log) d d' /\
  (t = false -> d' = d) /\
  (t = true -> exists a tm, normalize_delivery_context ctx = Ret a /\ state (rq_state q) = denied /\
     requests (d_store d') !! aid = Some q /\ d_outbox d !! aid = None /\
     d_outbox d' = <[aid := new_delivery tm]> (d_outbox d) /\
     delivery_sequence tm = default 1%Z (d_next_value d) /\ dv_authority tm = a /\ dv_approved tm = false /\
     dv_decided_at_ns tm = datetime_to_epoch_ns now /\ dv_triggering_vote_id tm = None).
Proof.
  intros Hok H. unfold terminalize_with_delivery in H.
  apply se_bind_ret in H as (a & ? & [-> Ha]%se_lift_ret & H). apply (proj1 (transact_ret _ _ _ _)) in H.
  apply se_bind_ret in H as ([[q0 t0] m0] & ? & (s & Hl & ->)%zoom_ret & H). cbn [fst snd] in H.
  pose proof (cancel_locked_effect _ _ _ _ _ _ _ _ _ _ _ _ _ _ (ok_keyed _ Hok) Hl) as He.
  destruct (cancel_ret _ _ _ _ _ _ _ _ _ _ _ _ _ _ _ _ (ok_keyed _ Hok) Hl)
    as (_ & row & Hrow & _ & [(-> & -> & -> & _)|(-> & _ & _ & _ & -> & ->)]).
  - injection H as <- <- <- <-. rewrite with_store_same. done.
  - apply se_bind_ret in H as (r & d1 & Hi & H). injection H as -> <- <- <-.
    apply (insert_ret log) in Hi as (Hi & Hs & Hn & _ & tm & at_ & -> & Ho & Hsq & Hau & Hap & Hat & Hns & Hvt).
    simpl in *. rewrite (ok_keyed _ Hok _ _ Hrow) in *. injection Hat as <-.
    split; [eapply rtc_l; [apply (de_store log d _ He)|exact Hi]|]. split; [done|]. intros _.
    exists a, tm. split; [done|]. split; [done|]. split; [by rewrite Hs; simpl; rewrite lookup_insert_eq|]. done.
Qed.

Lemma audit_plan_ret aid call n d d' x : audit_plan aid call n d = (d', Ret x) -> d' = d.
Proof.
  unfold audit_plan. intros H. apply se_bind_ret in H as (? & ? & ->%delivery_key_ret & H).
  d_run; try done; by destruct d.
Qed.

Lemma audit_commit_ret log now aid call n p d d' r :
  plan_entries p ⊆ log -> audit_commit now aid call n p d = (d', Ret r) -> rtc (delivery_effect log) d d'.
Proof.
  intros Hp H. unfold audit_commit in H. apply (proj1 (transact_ret _ _ _ _)) in H.
  apply se_bind_ret in H as (txt & ? & (Hck & _ & -> & _)%now_text_ret & H).
  eapply rtc_l; [by apply (de_clock log d now)|]. revert H. generalize (with_clock (Some now) d). intros d1 H.
  apply se_bind_ret in H as (d0 & ? & Hg & H). injection Hg as <- <-.
  destruct (find_delivery _ _ _ _) as [r0|] eqn:Hf; [|done]. apply find_delivery_some in Hf as (Hf & _).
  destruct (dv_audit_ready r0) eqn:Hr; [by injection H as <- _|].
  destruct (_ && _) eqn:Hc in H; [|done]. bool_prop.
  apply se_bind_ret in H as (? & ? & [Hok ->]%put_delivery_ret & H). injection H as <- <-.
  apply rtc_once, (de_audit log d1 aid r0); [done|done| |done].
  unfold row_entries, plan_entries in *. by repeat match goal with H : _ = plan_vote _ |- _ => rewrite H | H : _ = plan_terminal _ |- _ => rewrite H end.
Qed.

Lemma publish_row_ret log now aid call n d d' r r0 :
  find_delivery d aid call n = Some r0 -> (dv_approved (dv_terms r0) = true -> is_fenced d aid = false) ->
  publish_row now aid call n d = (d', Ret r) -> rtc (delivery_effect log) d d'.
Proof.
  intros Hf Hfe H. unfold publish_row in H.
  apply se_bind_ret in H as (txt & ? & (Hck & _ & -> & _)%now_text_ret & H).
  eapply rtc_l; [by apply (de_clock log d now)|].
  apply se_bind_ret in H as (d0 & ? & Hg & H). injection Hg as <- <-.
  change (find_delivery (with_clock (Some now) d) aid call n) with (find_delivery d aid call n) in H. rewrite Hf in H.
  destruct (_ && _) eqn:Hc in H; [|done]. bool_prop.
  apply se_bind_ret in H as (? & ? & [Hok ->]%put_delivery_ret & H). injection H as <- <-.
  apply find_delivery_some in Hf as (Hf & _).
  apply rtc_once, (de_row log (with_clock (Some now) d) aid r0); [done|by apply rs_publish|done].
Qed.

Lemma append_ret log now aid call n ap body d d' x :
  append_transaction now aid call n ap body d = (d', Ret x) -> rtc (delivery_effect log) d d'.
Proof.
  intros H. unfold append_transaction in H. apply (proj1 (transact_ret _ _ _ _)) in H.
  apply se_bind_ret in H as (? & ? & Hc & H).
  apply se_bind_ret in H as (? & ? & [-> _]%se_lift_ret & H).
  apply se_bind_ret in H as (r & ? & Hp & H). injection H as -> _.
  unfold append_check in Hc. apply se_bind_ret in Hc as (? & ? & ->%delivery_key_ret & Hc).
  apply se_bind_ret in Hc as (d0 & ? & Hg & Hc). injection Hg as <- <-.
  destruct (find_delivery _ _ _ _) as [r0|] eqn:Hf; [|done].
  apply se_bind_ret in Hc as (? & ? & [-> Hap%eqb_prop]%check_ret & Hc).
  apply se_bind_ret in Hc as (? & ? & [-> _]%check_ret & Hc).
  apply se_bind_ret in Hc as (? & ? & [-> _]%check_ret & Hc).
  apply unfenced_ret in Hc as [-> Hc]. subst ap. by apply (publish_row_ret log _ _ _ _ _ _ _ _ Hf Hc Hp).
Qed.

Lemma duplicate_ret log now aid call n ap d d' x :
  reconcile_duplicate now aid call n ap d = (d', Ret x) -> rtc (delivery_effect log) d d'.
Proof.
  intros H. unfold reconcile_duplicate in H.
  apply se_bind_ret in H as (? & ? & ->%delivery_key_ret & H). apply (proj1 (transact_ret _ _ _ _)) in H.
  apply se_bind_ret in H as (d0 & ? & Hg & H). injection Hg as <- <-.
  destruct (find_delivery _ _ _ _) as [r0|] eqn:Hf; [|done].
  apply se_bind_ret in H as (? & ? & [-> Hap%eqb_prop]%check_ret & H).
  apply se_bind_ret in H as (? & ? & [-> _]%check_ret & H).
  destruct (dv_state r0); [|by injection H as <- _..|done].
  apply se_bind_ret in H as (? & ? & Hc & H). apply unfenced_ret in Hc as [-> Hc]. subst ap.
  by apply (publish_row_ret log _ _ _ _ _ _ _ _ Hf Hc H).
Qed.

Lemma unreserved_zoom_ret aid call n d d' x : zoom (require_unreserved aid call n) d = (d', Ret x) -> d' = d.
Proof. intros (s & [-> _]%require_unreserved_ret & ->)%zoom_ret. apply with_store_same. Qed.

Lemma acknowledge_ret log now aid a ap ns d d' r :
  acknowledge_delivery now aid a ap ns d = (d', Ret r) -> rtc (delivery_effect log) d d'.
Proof.
  intros H. unfold acknowledge_delivery in H.
  apply se_bind_ret in H as (? & ? & [-> _]%check_ret & H).
  apply se_bind_ret in H as (a1 & ? & [-> _]%se_lift_ret & H).
  apply se_bind_ret in H as (? & ? & [-> _]%check_ret & H). apply (proj1 (transact_ret _ _ _ _)) in H.
  apply se_bind_ret in H as (? & ? & ->%unreserved_zoom_ret & H).
  apply se_bind_ret in H as (txt & ? & (Hck & _ & -> & _)%now_text_ret & H).
  eapply rtc_l; [by apply (de_clock log d now)|]. revert H. generalize (with_clock (Some now) d). intros d1 H.
  apply se_bind_ret in H as (d0 & ? & Hg & H). injection Hg as <- <-.
  destruct (find_delivery _ _ _ _) as [r0|] eqn:Hf; [|done]. apply find_delivery_some in Hf as (Hf & _).
  apply se_bind_ret in H as (? & ? & [-> _]%check_ret & H).
  apply se_bind_ret in H as (? & ? & [-> _]%check_ret & H).
  destruct (dv_state r0) eqn:Hs; [done| |by injection H as <- _|done].
  apply se_bind_ret in H as (? & ? & [Hok ->]%put_delivery_ret & H). injection H as <- <-.
  by apply rtc_once, (de_row log d1 aid r0); [|apply rs_acknowledge|].
Qed.

(** A failed or quarantined row: both methods share their frame. *)
Lemma mark_ret log now aid call n error (f : str -> str -> Z -> Delivery -> Delivery) keep d d' r :
  (forall d r0 txt, find_delivery d aid call n = Some r0 -> keep r0 = false ->
     row_step (is_fenced d aid) r0 (f error txt now r0)) ->
  (let! _ := zoom (require_unreserved aid (Some call) (Some n)) in
   let! d := se_get in
   match find_delivery d aid call n with
   | None => se_raise StoreKeyError
   | Some r =>
     if (keep r : bool) then se_ret r
     else let! text := now_text now in
          let! _ := put_delivery aid (f error text now r) in
          se_ret (f error text now r)
   end) d = (d', Ret r) -> rtc (delivery_effect log) d d'.
Proof.
  intros Hstep H.
  apply se_bind_ret in H as (? & ? & ->%unreserved_zoom_ret & H).
  apply se_bind_ret in H as (d0 & ? & Hg & H). injection Hg as <- <-.
  destruct (find_delivery _ _ _ _) as [r0|] eqn:Hf; [|done].
  destruct (keep r0) eqn:Hk; [by injection H as <- _|].
  apply se_bind_ret in H as (txt & ? & (Hck & _ & -> & _)%now_text_ret & H).
  apply se_bind_ret in H as (? & ? & [Hok ->]%put_delivery_ret & H). injection H as <- <-.
  eapply rtc_l; [by apply (de_clock log d now)|].
  apply rtc_once, (de_row log (with_clock (Some now) d) aid r0); [|by apply Hstep|done].
  by apply find_delivery_some in Hf as (? & _).
Qed.

Definition settled_row (r : Delivery) : bool :=
  match dv_state r with d_acknowledged | d_quarantined => true | _ => false end.

Lemma failure_ret log now aid call n error d d' r :
  record_delivery_failure now aid call n error d = (d', Ret r) -> rtc (delivery_effect log) d d'.
Proof.
  intros H. unfold record_delivery_failure in H.
  apply se_bind_ret in H as (? & ? & ->%delivery_key_ret & H).
  apply se_bind_ret in H as (? & ? & [-> _]%check_ret & H). apply (proj1 (transact_ret _ _ _ _)) in H.
  apply (mark_ret log now aid call n error with_failure settled_row _ _ r).
  - intros d0 r0 txt _ Hk. apply rs_failure. unfold settled_row in Hk. destruct (dv_state r0); naive_solver.
  - rewrite <- H. unfold settled_row, se_bind, se_get. destruct (zoom _ _) as [d1 [x1|]]; [|done].
    destruct (find_delivery _ _ _ _) as [r0|]; [|done]. by destruct (dv_state r0).
Qed.

Lemma quarantine_ret log now aid call n error d d' r :
  quarantine_delivery now aid call n error d = (d', Ret r) -> rtc (delivery_effect log) d d'.
Proof.
  intros H. unfold quarantine_delivery in H.
  apply se_bind_ret in H as (? & ? & ->%delivery_key_ret & H).
  apply se_bind_ret in H as (? & ? & [-> _]%check_ret & H). apply (proj1 (transact_ret _ _ _ _)) in H.
  apply (mark_ret log now aid call n error with_quarantined (fun r => negb (bool_decide (dv_state r = d_pending))) _ _ r).
  - intros d0 r0 txt _ Hk. apply rs_quarantine. by apply negb_false_iff, bool_decide_eq_true in Hk.
  - revert H. unfold se_bind, se_get. destruct (zoom _ _) as [d1 [x1|]]; [|done].
    destruct (find_delivery _ _ _ _) as [r0|]; [|done]. destruct (dv_state r0) eqn:Hs; done.
Qed.

Lemma window_ret log now d d' x : recovery_window now d = (d', Ret x) -> rtc (delivery_effect log) d d' /\ x.1 = high_water d.
Proof.
  intros H. unfold recovery_window in H. apply (proj1 (transact_ret _ _ _ _)) in H.
  apply se_bind_ret in H as (t & ? & (Hck & _ & -> & _)%trusted_ret & H).
  apply se_bind_ret in H as (d0 & ? & Hg & H). injection Hg as <- <-. injection H as <- <-.
  split; [|done]. by apply rtc_once, (de_clock log d now).
Qed.

(** A call that raises changes nothing. *)
Lemma bind_raise {X Y} (m : D X) (k : X -> D Y) d d' e :
  (forall x d1 , m d = (d1, Ret x) -> d1 = d) -> (forall d1 e, m d = (d1, Raise e) -> d1 = d) ->
  (forall x, k x d = (d', Raise e) -> d' = d) -> se_bind m k d = (d', Raise e) -> d' = d.
Proof.
  intros Hr Hf Hk H. unfold se_bind in H. destruct (m d) as [d1 [x|e1]] eqn:Hm.
  - rewrite (Hr _ _ eq_refl) in H. eauto.
  - injection H as <- <-. eauto.
Qed.
Lemma check_raise b e0 d d' e : check b e0 d = (d', Raise e) -> d' = d.
Proof. destruct b; [done|]. by intros [= <- _]. Qed.

Ltac d_raise :=
  match goal with
  | |- transact _ _ = (_, Raise _) -> _ => apply transact_raise
  | |- se_bind (check _ _) _ _ = (_, Raise _) -> _ =>
    apply bind_raise; [by intros ? ? [-> _]%check_ret|by intros ? ? ?%check_raise|intros ?; d_raise]
  | |- se_bind (delivery_key _ _ _) _ _ = (_, Raise _) -> _ =>
    apply bind_raise; [by intros ? ? ->%delivery_key_ret|by intros ? ? ?%check_raise|intros ?; d_raise]
  | |- se_bind (se_lift _) _ _ = (_, Raise _) -> _ =>
    apply bind_raise; [by intros ? ? [-> _]%se_lift_ret|by intros ? ? [= <- _]|intros ?; d_raise]
  end.

(** ** Lemmas: what holds in every world *)
Record world_ok (w : World) : Prop := {
  wo_store : store_ok (d_store (w_db w));
  wo_rows : forall aid r, d_outbox (w_db w) !! aid = Some r ->
    delivery_checks r = true /\ (dv_audit_ready r = true -> row_entries r ⊆ w_log w) /\
    (delivery_sequence (dv_terms r) < default 1 (d_next_value (w_db w)))%Z;
  wo_unique : forall k1 k2 r1 r2, d_outbox (w_db w) !! k1 = Some r1 -> d_outbox (w_db w) !! k2 = Some r2 ->
    delivery_sequence (dv_terms r1) = delivery_sequence (dv_terms r2) -> k1 = k2;
  wo_tickets : forall tk, tk ∈ w_tickets w -> forall e, e ∈ plan_entries (tk_plan tk) -> e ∈ w_log w \/ e ∈ tk_todo tk
}.

Definition db_ok (log : list str) (d : DeliveryDB) : Prop := world_ok (mkWorld d log [] []).

Lemma row_step_terms f r r' : row_step f r r' -> dv_terms r' = dv_terms r /\ dv_audit_ready r' = dv_audit_ready r.
Proof. by destruct 1. Qed.

Lemma row_write_ok log d aid r r' :
  db_ok log d -> d_outbox d !! aid = Some r -> delivery_checks r' = true -> dv_terms r' = dv_terms r ->
  (dv_audit_ready r' = true -> row_entries r' ⊆ log) -> db_ok log (with_outbox (<[aid := r']> (d_outbox d)) d).
Proof.
  intros [Hs Hr Hu _] Hl Hc Ht Ha. split; [done| | |by intros ? ?%not_elem_of_nil]; simpl in *.
  - intros k x [[-> <-]|[Hne Hx]]%lookup_insert_Some; [|eauto]. split; [done|]. split; [done|].
    rewrite Ht. by destruct (Hr _ _ Hl) as (_ & _ & ?).
  - assert (Hlift : forall k x, <[aid:=r']> (d_outbox d) !! k = Some x ->
      exists y, d_outbox d !! k = Some y /\ dv_terms y = dv_terms x).
    { intros k x [[-> <-]|[Hne Hx]]%lookup_insert_Some; eauto. }
    intros k1 k2 x1 x2 (y1 & H1 & E1)%Hlift (y2 & H2 & E2)%Hlift Hq. apply (Hu _ _ _ _ H1 H2). congruence.
Qed.

Lemma effect_db_ok log d d' : delivery_effect log d d' -> db_ok log d -> db_ok log d'.
Proof.
  intros He Hok. pose proof Hok as [Hs Hr Hu _]. simpl in *. destruct He.
  - split; [by apply (effects_ok _ _ H)|done|done|by intros ? ?%not_elem_of_nil].
  - split; [done|done|done|by intros ? ?%not_elem_of_nil].
  - split; simpl; [done| | |by intros ? ?%not_elem_of_nil].
    + intros k x [[-> <-]|[Hne Hx]]%lookup_insert_Some; [split; [done|]; split; [done|]; simpl; lia|].
      destruct (Hr _ _ Hx) as (? & ? & ?). split; [done|]. split; [done|]. lia.
    + intros k1 k2 x1 x2 [[-> <-]|[Hn1 H1']]%lookup_insert_Some [[-> <-]|[Hn2 H2']]%lookup_insert_Some Hq; try done.
      * destruct (Hr _ _ H2') as (_ & _ & ?). simpl in *. lia.
      * destruct (Hr _ _ H1') as (_ & _ & ?). simpl in *. lia.
      * eauto.
  - by eapply row_write_ok.
  - destruct (row_step_terms _ _ _ H0) as [Ht Ha]. eapply row_write_ok; [done..|].
    rewrite Ha. intros Hy. destruct (Hr _ _ H) as (_ & Hin & _). unfold row_entries. rewrite Ht. by apply Hin.
Qed.

Lemma effects_db_ok log d d' : rtc (delivery_effect log) d d' -> db_ok log d -> db_ok log d'.
Proof. apply rtc_invariant, effect_db_ok. Qed.

Lemma world_db_ok w : world_ok w <-> db_ok (w_log w) (w_db w) /\
  (forall tk, tk ∈ w_tickets w -> forall e, e ∈ plan_entries (tk_plan tk) -> e ∈ w_log w \/ e ∈ tk_todo tk).
Proof.
  split.
  - intros [? ? ? ?]. split; [|done]. split; try done. by intros ? ?%not_elem_of_nil.
  - intros [[? ? ? _] ?]. by split.
Qed.

(** A method that is a run of effects when it returns and nothing when it raises. *)
Lemma op_effects {X} log (m : D X) d d' r :
  (forall d' x, m d = (d', Ret x) -> rtc (delivery_effect log) d d') ->
  (forall d' e, m d = (d', Raise e) -> d' = d) -> m d = (d', r) -> rtc (delivery_effect log) d d'.
Proof. intros Hr He Hm. destruct r as [x|e]; [by eapply Hr|]. by rewrite (He _ _ Hm). Qed.

Lemma append_effects log now aid call n ap body d d' r :
  append_transaction now aid call n ap body d = (d', r) -> rtc (delivery_effect log) d d'.
Proof. apply op_effects; [intros ? ?; apply append_ret|intros ? ?; unfold append_transaction; d_raise]. Qed.
Lemma duplicate_effects log now aid call n ap d d' r :
  reconcile_duplicate now aid call n ap d = (d', r) -> rtc (delivery_effect log) d d'.
Proof. apply op_effects; [intros ? ?; apply duplicate_ret|intros ? ?; unfold reconcile_duplicate; d_raise]. Qed.
Lemma acknowledge_effects log now aid a ap ns d d' r :
  acknowledge_delivery now aid a ap ns d = (d', r) -> rtc (delivery_effect log) d d'.
Proof. apply op_effects; [intros ? ?; apply acknowledge_ret|intros ? ?; unfold acknowledge_delivery; d_raise]. Qed.
Lemma failure_effects log now aid call n e d d' r :
  record_delivery_failure now aid call n e d = (d', r) -> rtc (delivery_effect log) d d'.
Proof. apply op_effects; [intros ? ?; apply failure_ret|intros ? ?; unfold record_delivery_failure; d_raise]. Qed.
Lemma quarantine_effects log now aid call n e d d' r :
  quarantine_delivery now aid call n e d = (d', r) -> rtc (delivery_effect log) d d'.
Proof. apply op_effects; [intros ? ?; apply quarantine_ret|intros ? ?; unfold quarantine_delivery; d_raise]. Qed.
Lemma commit_effects log now aid call n p d d' r :
  plan_entries p ⊆ log -> audit_commit now aid call n p d = (d', r) -> rtc (delivery_effect log) d d'.
Proof. intros Hp. apply op_effects; [intros ? ?; by apply audit_commit_ret|intros ? ?; unfold audit_commit; d_raise]. Qed.
Lemma window_effects log now d d' r : recovery_window now d = (d', r) -> rtc (delivery_effect log) d d'.
Proof. apply op_effects; [by intros ? ? [? _]%(window_ret log)|intros ? ?; unfold recovery_window; d_raise]. Qed.

(** Every step is a run of effects under the log it starts with. *)
Lemma world_step_effects w w' :
  world_ok w -> world_step w w' -> rtc (delivery_effect (w_log w)) (w_db w) (w_db w').
Proof.
  intros Hw Hs. pose proof (wo_store _ Hw) as Hst. destruct Hs; simpl; try done.
  - apply rtc_once, de_store. by apply (step_effect _ _ ok).
  - revert H. apply op_effects; [|intros ? ?; unfold record_vote_delivery; d_raise].
    intros d' [q dec] H. by destruct (vote_delivery_ret (w_log w) _ _ _ _ _ _ _ _ Hst H) as (? & _ & _ & ? & _).
  - revert H. apply op_effects; [|intros ? ?; unfold terminalize_with_delivery; d_raise].
    intros d' [[q t] m] H. by apply (cancel_delivery_ret (w_log w)) in H as (? & _).
  - by rewrite (audit_plan_ret _ _ _ _ _ _ H).
  - revert H1. apply commit_effects. intros e He.
    destruct (wo_tickets _ Hw tk) with (e := e) as [?|Hin]; [rewrite H; set_solver|done|done|].
    rewrite H0 in Hin. by apply not_elem_of_nil in Hin.
  - by eapply append_effects.
  - by eapply duplicate_effects.
  - by eapply acknowledge_effects.
  - by eapply failure_effects.
  - by eapply quarantine_effects.
  - by eapply window_effects.
Qed.

Lemma step_log w w' : world_step w w' -> w_log w ⊆ w_log w'.
Proof. destruct 1; simpl; set_solver. Qed.

Lemma step_tickets w w' : world_ok w -> world_step w w' ->
  forall tk, tk ∈ w_tickets w' -> forall e, e ∈ plan_entries (tk_plan tk) -> e ∈ w_log w' \/ e ∈ tk_todo tk.
Proof.
  intros Hw Hs. pose proof (wo_tickets _ Hw) as Ht.
  destruct Hs; simpl; try done; try rewrite H in Ht.
  - intros tk [->|Hin]%elem_of_cons e He; [by right|]. by eapply Ht.
  - intros tk' Hin e' He. apply elem_of_app in Hin as [Hin|[->|Hin]%elem_of_cons].
    + destruct (Ht tk') with (e := e') as [?|?]; [set_solver|done|left; set_solver|by right].
    + destruct (Ht tk) with (e := e') as [?|Hx]; [set_solver|done|left; set_solver|]. simpl.
      rewrite H0 in Hx. apply elem_of_cons in Hx as [->|?]; [left; set_solver|by right].
    + destruct (Ht tk') with (e := e') as [?|?]; [set_solver|done|left; set_solver|by right].
  - intros tk' Hin e He. apply (Ht tk'); [set_solver|done].
  - intros tk' Hin e He. apply (Ht tk'); [set_solver|done].
Qed.

Lemma db_ok_log log log' d : log ⊆ log' -> db_ok log d -> db_ok log' d.
Proof.
  intros Hl [Hs Hr Hu _]. split; simpl in *; [done| |done|by intros ? ?%not_elem_of_nil].
  intros aid r Hx. destruct (Hr _ _ Hx) as (? & Hin & ?). split; [done|]. split; [|done]. intros Ha. set_solver.
Qed.

Lemma world_step_ok w w' : world_step w w' -> world_ok w -> world_ok w'.
Proof.
  intros Hs Hw. apply world_db_ok. split; [|by apply (step_tickets w)].
  apply (db_ok_log (w_log w)); [by apply step_log|].
  apply (effects_db_ok _ _ _ (world_step_effects _ _ Hw Hs)). by apply world_db_ok in Hw as [? _].
Qed.

Lemma empty_world_ok raw res : world_ok (empty_world raw res).
Proof.
  split; simpl; [apply empty_ok|..]; intros *; rewrite ?lookup_empty; try done. by intros ?%not_elem_of_nil.
Qed.

Lemma reachable_world_ok raw res w : rtc world_step (empty_world raw res) w -> world_ok w.
Proof.
  intros Hr. exact (rtc_invariant _ _ _ _ world_step_ok Hr (empty_world_ok raw res)).
Qed.

(** ** Lemmas: what the audit writer holds *)
Definition of_class (c : ToolClass) (aid : str) (d : DeliveryDB) : Prop :=
  exists q, requests (d_store d) !! aid = Some q /\ tool_class (rq_id q) = c.
(** The entries of a strictly audited ticket or receipt are written. *)
Record audit_kept (w : World) : Prop := {
  ak_tickets : forall tk, tk ∈ w_tickets w -> of_class (tk_class tk) (tk_aid tk) (w_db w) /\
    (audited_strictly (tk_class tk) = true -> forall e, e ∈ plan_entries (tk_plan tk) -> e ∈ w_written w \/ e ∈ tk_todo tk);
  ak_rows : forall aid r, d_outbox (w_db w) !! aid = Some r -> dv_audit_ready r = true ->
    exists c, of_class c aid (w_db w) /\ (audited_strictly c = true -> row_entries r ⊆ w_written w)
}.

(** What keeps requests and writes no receipt. *)
Definition no_receipt (d d' : DeliveryDB) : Prop :=
  (forall c aid, of_class c aid d -> of_class c aid d') /\
  (forall aid r, d_outbox d' !! aid = Some r -> dv_audit_ready r = true ->
    exists r0, d_outbox d !! aid = Some r0 /\ dv_audit_ready r0 = true /\ dv_terms r0 = dv_terms r).
#[local] Instance no_receipt_pre : PreOrder no_receipt.
Proof.
  split; [split; eauto|]. intros d1 d2 d3 [C1 R1] [C2 R2]. split; [eauto|]. intros aid r Hl Ha.
  destruct (R2 _ _ Hl Ha) as (r2 & H2 & A2 & T2). destruct (R1 _ _ H2 A2) as (r1 & H1 & A1 & T1).
  exists r1. split; [done|]. split; [done|]. congruence.
Qed.
Lemma of_class_store c aid d s : rtc store_effect (d_store d) s -> of_class c aid d -> of_class c aid (with_store s d).
Proof.
  intros He (q & Hq & Hc). destruct (effects_invariant (fun s => exists q, requests s !! aid = Some q /\ tool_class (rq_id q) = c) (d_store d) s) as (q' & ? & ?);
    [|exact He|eauto|by exists q'].
  intros s1 s2 H (q1 & H1 & C1). destruct (effect_requests _ _ H _ _ H1) as (q2 & H2 & [x Hi] & _).
  exists q2. split; [done|]. by rewrite Hi.
Qed.
Lemma row_entries_nil r : ~ row_entries r ⊆ [].
Proof. intros H. apply (not_elem_of_nil (dv_terminal_audit_entry_id (dv_terms r))), H. unfold row_entries. set_solver. Qed.
Lemma effect_no_receipt d d' : delivery_effect [] d d' -> no_receipt d d'.
Proof.
  destruct 1 as [s He|n Hn|aid t Hn Hd Hc|aid r text Hl Hp Hsub Hc|aid r r' Hl Hs Hc]; (split; [try by intros|]).
  - intros c aid. by apply of_class_store.
  - simpl. eauto.
  - simpl. eauto.
  - simpl. intros k x [[-> <-]|[Hne Hx]]%lookup_insert_Some Ha; [done|eauto].
  - by apply row_entries_nil in Hsub.
  - simpl. intros k x [[-> <-]|[Hne Hx]]%lookup_insert_Some Ha; [|eauto]. destruct (row_step_terms _ _ _ Hs) as [Ht Hr].
    exists r. split; [done|]. split; congruence.
Qed.
Lemma effects_no_receipt d d' : rtc (delivery_effect []) d d' -> no_receipt d d'.
Proof. induction 1 as [|d1 d2 d3 H%effect_no_receipt _ IH]; [done|by etrans]. Qed.
Lemma kept_no_receipt w d : audit_kept w -> no_receipt (w_db w) d -> audit_kept (with_db d w).
Proof.
  intros [Ht Hr] [Hc Hd]. split; simpl.
  - intros tk Hin. destruct (Ht _ Hin) as [? ?]. auto.
  - intros aid r Hl Ha. destruct (Hd _ _ Hl Ha) as (r0 & H0 & A0 & T0). destruct (Hr _ _ H0 A0) as (c & Hcl & Hs).
    exists c. split; [auto|]. unfold row_entries in *. by rewrite <- T0.
Qed.
(** The receipt of a commit is on the row of its ticket. *)
Lemma commit_receipt now aid call n p d d' r : audit_commit now aid call n p d = (d', r) ->
  (forall c k, of_class c k d -> of_class c k d') /\
  forall k x, d_outbox d' !! k = Some x -> dv_audit_ready x = true ->
    (exists x0, d_outbox d !! k = Some x0 /\ dv_audit_ready x0 = true /\ dv_terms x0 = dv_terms x) \/
    k = aid /\ row_entries x = plan_entries p.
Proof.
  intros H. destruct r as [r|e]; [|apply transact_raise in H as ->; eauto 7].
  unfold audit_commit in H. apply (proj1 (transact_ret _ _ _ _)) in H.
  apply se_bind_ret in H as (txt & ? & (Hck & _ & -> & _)%now_text_ret & H).
  apply se_bind_ret in H as (d0 & ? & Hg & H). injection Hg as <- <-.
  destruct (find_delivery _ _ _ _) as [r0|] eqn:Hf; [|done]. apply find_delivery_some in Hf as (Hf & _).
  destruct (dv_audit_ready r0) eqn:Hr; [injection H as <- _; simpl; split; [done|eauto 7]|].
  destruct (_ && _) eqn:Hc in H; [|done]. bool_prop.
  apply se_bind_ret in H as (? & ? & [Hok ->]%put_delivery_ret & H). injection H as <- <-. split; [done|].
  simpl. intros k y [[-> <-]|[Hne Hy]]%lookup_insert_Some Ha; [right|left; eauto 7]. split; [done|].
  unfold row_entries, plan_entries. simpl. congruence.
Qed.
Lemma step_kept w w' : world_ok w -> world_step w w' -> audit_kept w -> audit_kept w'.
Proof.
  intros Hw Hs Hk. pose proof (wo_store _ Hw) as Hst.
  destruct Hs; try (apply kept_no_receipt; [done|]; apply effects_no_receipt).
  - apply rtc_once, de_store. by apply (step_effect _ _ ok).
  - revert H. apply op_effects; [|intros ? ?; unfold record_vote_delivery; d_raise].
    intros d' [q dec] H. by destruct (vote_delivery_ret [] _ _ _ _ _ _ _ _ Hst H) as (? & _ & _ & ? & _).
  - revert H. apply op_effects; [|intros ? ?; unfold terminalize_with_delivery; d_raise].
    intros d' [[q t] m] H. by apply (cancel_delivery_ret []) in H as (? & _).
  - pose proof (audit_plan_ret _ _ _ _ _ _ H) as ->. destruct Hk as [Ht Hr]. split; simpl; [|done].
    intros tk [->|Hin]%elem_of_cons; [|auto]. simpl. split; [by exists q|]. by right.
  - destruct Hk as [Ht Hr]. split; simpl.
    + assert (w_written w ⊆ if wrote then e :: w_written w else w_written w) as Hsub by (destruct wrote; set_solver).
      intros tk' Hin. apply elem_of_app in Hin as [Hin|[->|Hin]%elem_of_cons].
      * destruct (Ht tk') as [? Hx]; [rewrite H; set_solver|]. split; [done|]. intros Hc e' He'. destruct (Hx Hc e' He'); auto.
      * destruct (Ht tk) as [? Hx]; [rewrite H; set_solver|]. split; [done|]. simpl. intros Hc e' He'. destruct (Hx Hc e' He') as [?|Hin]; [auto|].
        rewrite H0 in Hin. apply elem_of_cons in Hin as [->|?]; [|auto]. left. unfold audit_write in H1. rewrite Hc in H1.
        destruct writer_ok; [|done]. injection H1 as <-. set_solver.
      * destruct (Ht tk') as [? Hx]; [rewrite H; set_solver|]. split; [done|]. intros Hc e' He'. destruct (Hx Hc e' He'); auto.
    + intros aid r Hl Ha. destruct (Hr _ _ Hl Ha) as (c & ? & Hc). exists c. split; [done|]. destruct wrote; set_solver.
  - destruct Hk as [Ht Hr]. split; simpl; [|done]. intros tk' Hin. apply Ht. rewrite H. set_solver.
  - destruct Hk as [Ht Hr]. destruct (commit_receipt _ _ _ _ _ _ _ _ H1) as [Hcl Hrow]. split; simpl.
    + intros tk' Hin. destruct (Ht tk') as [? ?]; [rewrite H; set_solver|]. auto.
    + intros aid x Hl Ha. destruct (Hrow _ _ Hl Ha) as [(x0 & H2 & A0 & T0)|[-> He]].
      * destruct (Hr _ _ H2 A0) as (c & ? & Hc). exists c. split; [auto|]. unfold row_entries in *. by rewrite <- T0.
      * destruct (Ht tk) as [Hc Hx]; [rewrite H; set_solver|]. exists (tk_class tk). split; [auto|]. rewrite He. intros Hcs e Hin.
        destruct (Hx Hcs e Hin) as [?|Hnil]; [done|]. rewrite H0 in Hnil. by apply not_elem_of_nil in Hnil.
  - by eapply append_effects.
  - by eapply duplicate_effects.
  - by eapply acknowledge_effects.
  - by eapply failure_effects.
  - by eapply quarantine_effects.
  - by eapply window_effects.
Qed.
Lemma reachable_kept raw res w : rtc world_step (empty_world raw res) w -> audit_kept w.
Proof.
  intros Hr. assert (world_ok w /\ audit_kept w) as [_ ?]; [|done].
  apply (rtc_invariant world_step (fun w => world_ok w /\ audit_kept w) (empty_world raw res)); [|done|].
  - intros a b Hs [Ho Hk]. split; [by apply (world_step_ok a)|by apply (step_kept a)].
  - split; [apply empty_world_ok|]. split; simpl; [by intros ? ?%not_elem_of_nil|]. intros *. by rewrite lookup_empty.
Qed.

(** How a row may change over a run. *)
Definition state_rank (s : delivery_state) : nat :=
  match s with d_pending => 0 | d_published => 1 | d_acknowledged => 2 | d_quarantined => 2 end.
Definition delivery_le (r r' : Delivery) : Prop :=
  dv_terms r' = dv_terms r /\
  (state_rank (dv_state r) <= state_rank (dv_state r')) /\
  (dv_state r <> d_pending -> dv_state r' = d_quarantined -> dv_state r = d_quarantined) /\
  (dv_state r = d_acknowledged \/ dv_state r = d_quarantined -> dv_state r' = dv_state r) /\
  (dv_audit_ready r = true -> dv_audit_ready r' = true) /\
  (dv_attempt_count r <= dv_attempt_count r')%Z.
#[global] Instance delivery_le_preorder : PreOrder delivery_le.
Proof.
  split.
  - intros r. unfold delivery_le. repeat split; try lia; try done. 
  - intros r1 r2 r3 (T1 & S1 & Q1 & F1 & A1 & C1) (T2 & S2 & Q2 & F2 & A2 & C2).
    split; [congruence|]. split; [lia|]. split; [|split; [|split; [auto|lia]]].
    + intros Hp H3. destruct (decide (dv_state r2 = d_pending)) as [Hp2|Hp2].
      * rewrite Hp2 in S1. destruct (dv_state r1); simpl in *; [done|lia..].
      * apply Q1; [done|]. by apply Q2.
    + intros Hf. pose proof (F1 Hf) as E. rewrite <- E in Hf |- *. auto.
Qed.

Lemma row_step_le f r r' : row_step f r r' -> delivery_le r r'.
Proof.
  destruct 1 as [? Hs ?|? Hs|? ? ? Hs|? ? ? Hs]; unfold delivery_le; simpl;
    (try destruct Hs as [Hs|Hs]); rewrite ?Hs; repeat split; simpl; try lia; naive_solver.
Qed.

Lemma effect_delivery_le log d d' : delivery_effect log d d' -> grows delivery_le (d_outbox d) (d_outbox d').
Proof.
  destruct 1; simpl; try apply grows_refl, _.
  - apply grows_insert; [apply _|]. intros x Hx. congruence.
  - apply grows_insert; [apply _|]. intros x Hx. assert (x = r) as -> by congruence.
    unfold delivery_le. simpl. rewrite H0. repeat split; try lia; naive_solver.
  - apply grows_insert; [apply _|]. intros x Hx. assert (x = r) as -> by congruence. by eapply row_step_le.
Qed.

Lemma effects_delivery_le log d d' :
  rtc (delivery_effect log) d d' -> grows delivery_le (d_outbox d) (d_outbox d').
Proof.
  induction 1 as [|d1 d2 d3 He _ IHe]; [apply grows_refl, _|].
  intros k x Hx. destruct (effect_delivery_le _ _ _ He _ _ Hx) as (y & Hy & ?).
  destruct (IHe _ _ Hy) as (z & ? & ?). exists z. split; [done|]. by etrans.
Qed.

Lemma run_rows w w' aid r :
  world_ok w -> rtc world_step w w' -> d_outbox (w_db w) !! aid = Some r ->
  exists r', d_outbox (w_db w') !! aid = Some r' /\ delivery_le r r'.
Proof.
  intros Hw Hs. revert r. induction Hs as [|w1 w2 w3 Hs _ IH]; intros r Hr; [by exists r|].
  destruct (effects_delivery_le _ _ _ (world_step_effects _ _ Hw Hs) _ _ Hr) as (r2 & Hr2 & ?).
  destruct (IH (world_step_ok _ _ Hs Hw) _ Hr2) as (r3 & ? & ?).
  exists r3. split; [done|]. by etrans.
Qed.

(** A fenced approval that is not published. *)
Definition held_back (aid : str) (d : DeliveryDB) : Prop :=
  is_Some (fences (d_store d) !! aid) /\
  forall r, d_outbox d !! aid = Some r -> dv_approved (dv_terms r) = true ->
    dv_state r = d_pending \/ dv_state r = d_quarantined.

Lemma held_write aid k r r' d :
  held_back aid d -> d_outbox d !! k = Some r -> dv_terms r' = dv_terms r ->
  (k = aid -> dv_approved (dv_terms r) = true -> dv_state r = d_pending \/ dv_state r = d_quarantined ->
   dv_state r' = d_pending \/ dv_state r' = d_quarantined) ->
  held_back aid (with_outbox (<[k := r']> (d_outbox d)) d).
Proof.
  intros [Hf Hr] Hl Ht Hk. split; [done|]. simpl. intros x [[-> <-]|[_ Hx]]%lookup_insert_Some Hap; [|eauto].
  rewrite Ht in Hap. apply Hk; eauto.
Qed.

Lemma effect_held log aid d d' : delivery_effect log d d' -> held_back aid d -> held_back aid d'.
Proof.
  intros He Hh. pose proof Hh as [Hf Hr]. destruct He.
  - split; [by apply (fenced_forever _ _ _ H)|done].
  - done.
  - split; [done|]. simpl. intros r [[-> <-]|[_ Hx]]%lookup_insert_Some Hap; [by left|eauto].
  - eapply held_write; [done..|]. simpl. auto.
  - eapply held_write; [done|done|by eapply row_step_terms|]. intros -> Hap Hst.
    destruct H0 as [? Hp ? Hn|? Hp|? ? ? Hp|? ? ? Hp]; simpl; auto.
    + specialize (Hn Hap). unfold is_fenced in Hn. destruct Hf as [? Hf]. by rewrite Hf in Hn.
    + rewrite Hp in Hst. by destruct Hst.
Qed.

Lemma run_held aid w w' : world_ok w -> rtc world_step w w' -> held_back aid (w_db w) -> held_back aid (w_db w').
Proof.
  intros Hw Hs. induction Hs as [|w1 w2 w3 Hs _ IH]; [done|]. intros Hh. apply IH; [by apply (world_step_ok w1)|].
  exact (rtc_invariant _ _ _ _ (effect_held _ _) (world_step_effects _ _ Hw Hs) Hh).
Qed.

(** ** Properties *)

(** A decision and its delivery are written together. A vote with a
    delivery that raises changes nothing; on a terminal request it returns that
    request and changes nothing; otherwise the request is decided as voted and,
    in the same transaction, the approval gets its one outbox row: pending,
    unaudited, unattempted, with exactly the context's authority, the vote's
    decision and time, and a sequence above that of every earlier row. *)
Theorem decision_and_delivery_atomic raw res w now_ns aid v ctx d r :
  rtc world_step (empty_world raw res) w ->
  record_vote_delivery now_ns aid v ctx (w_db w) = (d, r) ->
  match r with
  | Raise _ => d = w_db w
  | Ret (q, false) => d = w_db w /\ requests (d_store d) !! aid = Some q /\ is_terminal_state (state (rq_state q)) = true
  | Ret (q, true) =>
    exists a row x,
      normalize_delivery_context ctx = Ret a /\
      requests (d_store (w_db w)) !! aid = Some row /\ is_terminal_state (state (rq_state row)) = false /\
      q = with_req_state (voted_state v (rq_state row)) row /\ requests (d_store d) !! aid = Some q /\
      d_outbox (w_db w) !! aid = None /\ d_outbox d !! aid = Some x /\
      dv_state x = d_pending /\ dv_audit_ready x = false /\ dv_attempt_count x = 0%Z /\
      dv_authority (dv_terms x) = a /\ dv_approved (dv_terms x) = v_approved v /\
      dv_decided_at_ns (dv_terms x) = (v_decided_at v * 1000)%Z /\
      dv_triggering_vote_id (dv_terms x) = Some (vote_id v) /\
      forall k y, d_outbox d !! k = Some y -> k <> aid ->
        (delivery_sequence (dv_terms y) < delivery_sequence (dv_terms x))%Z
  end.
Proof.
  intros Hr Hv. pose proof (reachable_world_ok _ _ _ Hr) as Hw. destruct r as [[q dec]|e].
  - destruct (vote_delivery_ret [] _ _ _ _ _ _ _ _ (wo_store _ Hw) Hv)
      as (a & Ha & _ & _ & row & Hrow & [(Ht & -> & -> & ->)|(Ht & -> & Hq & Hq' & Hn & t & Ho & Hs & Hau & Hap & Hns & Hvt)]); [done|].
    exists a, row, (new_delivery t). rewrite Ho, lookup_insert_eq. do 14 (split; [done|]).
    intros k y [[-> _]|[_ Hy]]%lookup_insert_Some Hne; [done|].
    destruct (wo_rows _ Hw _ _ Hy) as (_ & _ & Hlt). simpl. lia.
  - revert Hv. unfold record_vote_delivery. d_raise.
Qed.

(** C9: No decision of a tool that writes is published before it is audited. In
    every world, whatever coroutines are suspended inside the audit and whichever
    writes of the audit log fail, a row that is published or acknowledged has an
    audit receipt, which was given after the emissions of its vote and terminal
    entries returned. Its request is stored, and if it is for a tool of the class
    state_write, external_write, portfolio_config or irreversible the audit writer
    holds those entries; for the other classes the emitter only warns of a failed
    write, so the entries may be missing. *)
Theorem published_only_after_audit raw res w aid r :
  rtc world_step (empty_world raw res) w -> d_outbox (w_db w) !! aid = Some r ->
  dv_state r = d_published \/ dv_state r = d_acknowledged ->
  dv_audit_ready r = true /\ is_Some (dv_audit_ready_at r) /\ row_entries r ⊆ w_log w /\
  exists q, requests (d_store (w_db w)) !! aid = Some q /\
    (audited_strictly (tool_class (rq_id q)) = true -> row_entries r ⊆ w_written w).
Proof.
  intros Hr Hl Hs. destruct (wo_rows _ (reachable_world_ok _ _ _ Hr) _ _ Hl) as (Hc & Hin & _).
  assert (Ha : dv_audit_ready r = true /\ is_Some (dv_audit_ready_at r)).
  { unfold delivery_checks in Hc. bool_prop. destruct Hs as [Hs|Hs]; rewrite Hs in *; bool_prop;
      (split; [done|]); destruct (dv_audit_ready_at r); try done; by destruct (dv_audit_ready r). }
  destruct Ha as [Ha ?]. do 2 (split; [done|]). split; [auto|].
  destruct (ak_rows _ (reachable_kept _ _ _ Hr) _ _ Hl Ha) as (c & (q & Hq & <-) & Hw). eauto.
Qed.

(** A delivery only moves forward. Over any run its terms never change, its
    state goes from pending to published to acknowledged or from pending to
    quarantined and nowhere else, an audit receipt is never lost and the number
    of attempts never decreases; no row disappears. *)
Theorem delivery_moves_forward raw res w w' aid r :
  rtc world_step (empty_world raw res) w -> rtc world_step w w' -> d_outbox (w_db w) !! aid = Some r ->
  exists r', d_outbox (w_db w') !! aid = Some r' /\ dv_terms r' = dv_terms r /\
    (dv_state r = d_published -> dv_state r' = d_published \/ dv_state r' = d_acknowledged) /\
    (dv_state r = d_acknowledged -> dv_state r' = d_acknowledged) /\
    (dv_state r = d_quarantined -> dv_state r' = d_quarantined) /\
    (dv_audit_ready r = true -> dv_audit_ready r' = true) /\
    (dv_attempt_count r <= dv_attempt_count r')%Z.
Proof.
  intros Hr Hs Hl. destruct (run_rows _ _ _ _ (reachable_world_ok _ _ _ Hr) Hs Hl) as (r' & ? & Ht & Hk & Hq & Hf & ? & ?).
  exists r'. do 2 (split; [done|]). split; [|split; [|split; [|done]]].
  - intros E. rewrite E in *. destruct (dv_state r'); simpl in *; [lia|auto..|]. by discriminate (Hq (fun X => ltac:(discriminate X)) eq_refl).
  - intros E. rewrite Hf by auto. done.
  - intros E. rewrite Hf by auto. done.
Qed.

(** A cancellation fence holds an approval back. Once an approval is fenced
    and its delivery, if there is one, is not published, no later step publishes
    it: neither an append that was under way, nor a duplicate found in the
    child's inbox, nor a vote that arrives late. *)
Theorem fenced_approval_never_published raw res w w' aid r' :
  rtc world_step (empty_world raw res) w -> rtc world_step w w' ->
  is_Some (fences (d_store (w_db w)) !! aid) ->
  (forall r, d_outbox (w_db w) !! aid = Some r -> dv_state r = d_pending \/ dv_state r = d_quarantined) ->
  d_outbox (w_db w') !! aid = Some r' -> dv_approved (dv_terms r') = true ->
  dv_state r' = d_pending \/ dv_state r' = d_quarantined.
Proof.
  intros Hr Hs Hf Hp Hl Hap.
  destruct (run_held aid w w' (reachable_world_ok _ _ _ Hr) Hs) as [_ Hh]; [split; [done|auto]|]. eauto.
Qed.

End delivery.

(** ** Witnesses *)
#[local] Existing Instance demo_store_env.

Definition demo_run_ask : ApprovalRequest :=
  mkRequest
    (mkIdentity (u "a") (u "call") None (u "a") None (u "run") (Some (u "s")) (Some (u "run")) (u "bob")
       (u "chat") (u "web") (u "buy") irreversible 5 None None)
    (mkConstraint standard None None None None None None None None exact (Some (u "k")))
    (mkPolicy [] (u "h") None [] None (u "p") (u "1") [] (Some (u "k")) notify_auto HUMAN None None)
    (mkReqState pending_user 0 None None None None None None) None.
Definition demo_authority : Authority :=
  mkAuthority (u "task") (u "run") (u "s") (replicate 64 97%N) (u "call") (u "n").
Definition demo_world0 : World := empty_world ∅ [].
Definition demo_world1 : World := with_db (with_store (create demo_run_ask (d_store (w_db demo_world0))).1 (w_db demo_world0)) demo_world0.
Definition demo_voted : DeliveryDB := (record_vote_delivery 20000 (u "a") demo_vote (authority_context demo_authority) (w_db demo_world1)).1.
Definition demo_plan : AuditPlan :=
  mkPlan (vote_entry_id (u "a") (u "call") (u "n") (Some demo_vote))
    (terminal_entry_id (u "a") (u "call") (u "n") true (Some demo_vote) 9000).
Definition demo_audited : DeliveryDB := (audit_commit 21000 (u "a") (u "call") (u "n") demo_plan demo_voted).1.
Definition demo_published : DeliveryDB := (append_transaction 22000 (u "a") (u "call") (u "n") true (Ret tt) demo_audited).1.
Definition demo_fenced : DeliveryDB :=
  with_store (fence_persistent_grants_for_cancellation 22 (u "a") (u "call") (u "bob") (u "run") (u "run") (u "s")
    (Some (u "web")) (d_store demo_audited)).1 demo_audited.

Lemma demo_world1_reached : rtc world_step (empty_world ∅ []) demo_world1.
Proof. apply rtc_once. eapply ws_store, step_create, surjective_pairing. Qed.
Lemma demo_voted_reached : rtc world_step (empty_world ∅ []) (with_db demo_voted demo_world1).
Proof. eapply rtc_r; [exact demo_world1_reached|]. eapply ws_vote, surjective_pairing. Qed.

Lemma demo_plan_ok : audit_plan (u "a") (u "call") (u "n") demo_voted =
  (demo_voted, Ret (default (new_delivery (mkTerms 0 demo_authority true 0 None None [] [])) (d_outbox demo_voted !! u "a"), Some demo_plan)).
Proof. vm_compute. reflexivity. Qed.
Definition demo_asked : ApprovalRequest := default demo_run_ask (requests (d_store demo_voted) !! u "a").
Lemma demo_voted_request : requests (d_store demo_voted) !! u "a" = Some demo_asked.
Proof. vm_compute. reflexivity. Qed.
Definition demo_log : list str := rev (plan_entries demo_plan).
Definition demo_suspended (log todo : list str) : World :=
  mkWorld demo_voted log [mkTicket (u "a") (u "call") (u "n") irreversible demo_plan todo] log.
Lemma demo_suspended_reached : rtc world_step (empty_world ∅ []) (demo_suspended demo_log []).
Proof.
  eapply rtc_r; [eapply rtc_r; [eapply rtc_r; [exact demo_voted_reached|]|]|].
  - exact (ws_audit_start (with_db demo_voted demo_world1) _ _ _ _ _ _ _ demo_plan_ok demo_voted_request).
  - exact (ws_audit_emit (demo_suspended [] (plan_entries demo_plan)) [] [] _ _ _ true true eq_refl eq_refl eq_refl).
  - exact (ws_audit_emit (demo_suspended [_] [_]) [] [] _ _ _ true true eq_refl eq_refl eq_refl).
Qed.
Lemma demo_audited_reached : rtc world_step (empty_world ∅ []) (mkWorld demo_audited demo_log [] demo_log).
Proof.
  eapply rtc_r; [exact demo_suspended_reached|].
  exact (ws_audit_commit (demo_suspended demo_log []) [] [] _ 21000 _ _ eq_refl eq_refl (surjective_pairing _)).
Qed.
Lemma demo_published_reached : rtc world_step (empty_world ∅ []) (mkWorld demo_published demo_log [] demo_log).
Proof. eapply rtc_r; [exact demo_audited_reached|]. eapply (ws_publish (mkWorld demo_audited _ _ _)), surjective_pairing. Qed.
Lemma demo_fenced_reached : rtc world_step (empty_world ∅ []) (mkWorld demo_fenced demo_log [] demo_log).
Proof.
  eapply rtc_r; [exact demo_audited_reached|].
  eapply (ws_store (mkWorld demo_audited _ _ _)), step_fence, surjective_pairing.
Qed.

Definition row_of (d : DeliveryDB) : Delivery :=
  default (new_delivery (mkTerms 0 demo_authority true 0 None None [] [])) (d_outbox d !! u "a").
Lemma demo_published_row : d_outbox demo_published !! u "a" = Some (row_of demo_published) /\ dv_state (row_of demo_published) = d_published.
Proof. split; vm_compute; reflexivity. Qed.
Lemma demo_vote_returns : exists q, (record_vote_delivery 20000 (u "a") demo_vote (authority_context demo_authority) (w_db demo_world1)).2 = Ret (q, true).
Proof. eexists. vm_compute. reflexivity. Qed.

Lemma decision_and_delivery_atomic_witness :
  exists x, d_outbox demo_voted !! u "a" = Some x /\ dv_approved (dv_terms x) = true.
Proof.
  destruct demo_vote_returns as [q Hq].
  pose proof (decision_and_delivery_atomic ∅ [] demo_world1 20000 (u "a") demo_vote (authority_context demo_authority)
    demo_voted (Ret (q, true)) demo_world1_reached (pair_split _ _ Hq)) as (a & row & x & _ & _ & _ & _ & _ & _ & Hx & _ & _ & _ & _ & Hap & _).
  exists x. split; [exact Hx|exact Hap].
Defined.

Lemma demo_published_request q : requests (d_store demo_published) !! u "a" = Some q -> tool_class (rq_id q) = irreversible.
Proof. intros H. assert (tool_class ∘ rq_id <$> requests (d_store demo_published) !! u "a" = Some irreversible) as E by (vm_compute; reflexivity). rewrite H in E. by injection E. Qed.
Lemma published_only_after_audit_witness : row_entries (row_of demo_published) ⊆ demo_log.
Proof.
  destruct demo_published_row as [Hl Hs].
  destruct (published_only_after_audit ∅ [] _ (u "a") (row_of demo_published) demo_published_reached Hl (or_introl Hs))
    as (_ & _ & _ & q & Hq & Hw).
  apply Hw. rewrite (demo_published_request q Hq). reflexivity.
Defined.

(** A decision for an artifact: both writes fail, both emissions return, and the
    delivery is published with nothing in the audit log. *)
Definition mild_ask : ApprovalRequest :=
  mkRequest
    (mkIdentity (u "a") (u "call") None (u "a") None (u "run") (Some (u "s")) (Some (u "run")) (u "bob")
       (u "chat") (u "web") (u "draw") artifact_write 5 None None)
    (rq_terms demo_run_ask) (rq_policy demo_run_ask) (rq_state demo_run_ask) None.
Definition mild_world1 : World := with_db (with_store (create mild_ask (d_store (w_db demo_world0))).1 (w_db demo_world0)) demo_world0.
Definition mild_voted : DeliveryDB := (record_vote_delivery 20000 (u "a") demo_vote (authority_context demo_authority) (w_db mild_world1)).1.
Definition mild_audited : DeliveryDB := (audit_commit 21000 (u "a") (u "call") (u "n") demo_plan mild_voted).1.
Definition mild_published : DeliveryDB := (append_transaction 22000 (u "a") (u "call") (u "n") true (Ret tt) mild_audited).1.
Definition mild_suspended (log todo : list str) : World :=
  mkWorld mild_voted log [mkTicket (u "a") (u "call") (u "n") artifact_write demo_plan todo] [].
Lemma mild_plan_ok : audit_plan (u "a") (u "call") (u "n") mild_voted = (mild_voted, Ret (row_of mild_voted, Some demo_plan)) /\
  requests (d_store mild_voted) !! u "a" = Some (default mild_ask (requests (d_store mild_voted) !! u "a")).
Proof. split; vm_compute; reflexivity. Qed.
Lemma mild_published_reached : rtc world_step (empty_world ∅ []) (mkWorld mild_published demo_log [] []).
Proof.
  eapply rtc_l; [eapply ws_store, step_create, (surjective_pairing (create mild_ask _))|].
  eapply rtc_l; [eapply (ws_vote mild_world1), surjective_pairing|].
  eapply rtc_l; [exact (ws_audit_start (with_db mild_voted mild_world1) _ _ _ _ _ _ _ (proj1 mild_plan_ok) (proj2 mild_plan_ok))|].
  eapply rtc_l; [exact (ws_audit_emit (mild_suspended [] (plan_entries demo_plan)) [] [] _ _ _ false false eq_refl eq_refl eq_refl)|].
  eapply rtc_l; [exact (ws_audit_emit (mild_suspended [_] [_]) [] [] _ _ _ false false eq_refl eq_refl eq_refl)|].
  eapply rtc_l; [exact (ws_audit_commit (mild_suspended demo_log []) [] [] _ 21000 _ _ eq_refl eq_refl (surjective_pairing _))|].
  apply rtc_once. eapply (ws_publish (mkWorld mild_audited _ _ _)), surjective_pairing.
Qed.
Example mild_delivery_unaudited : rtc world_step (empty_world ∅ []) (mkWorld mild_published demo_log [] []) /\
  dv_state <$> d_outbox mild_published !! u "a" = Some d_published.
Proof. split; [exact mild_published_reached|vm_compute; reflexivity]. Qed.

Lemma demo_audited_row : d_outbox demo_audited !! u "a" = Some (row_of demo_audited) /\ dv_audit_ready (row_of demo_audited) = true.
Proof. split; vm_compute; reflexivity. Qed.
Lemma delivery_moves_forward_witness :
  exists r', d_outbox demo_published !! u "a" = Some r' /\ dv_audit_ready r' = true.
Proof.
  destruct demo_audited_row as [Hl Ha].
  destruct (delivery_moves_forward ∅ [] (mkWorld demo_audited demo_log [] demo_log) (mkWorld demo_published demo_log [] demo_log) (u "a") (row_of demo_audited))
    as (r' & Hr & _ & _ & _ & _ & Hy & _).
  - exact demo_audited_reached.
  - apply rtc_once. eapply (ws_publish (mkWorld demo_audited _ _ _)), surjective_pairing.
  - exact Hl.
  - exists r'. split; [exact Hr|exact (Hy Ha)].
Defined.

Definition demo_late : DeliveryDB := (append_transaction 23000 (u "a") (u "call") (u "n") true (Ret tt) demo_fenced).1.
Lemma demo_late_row : d_outbox demo_late !! u "a" = Some (row_of demo_late) /\ dv_approved (dv_terms (row_of demo_late)) = true /\
  is_Some (fences (d_store demo_fenced) !! u "a") /\ dv_state <$> d_outbox demo_fenced !! u "a" = Some d_pending.
Proof. split; [|split; [|split]]; [vm_compute; reflexivity..|eexists; vm_compute; reflexivity|vm_compute; reflexivity]. Qed.
Lemma fenced_approval_never_published_witness :
  dv_state (row_of demo_late) = d_pending \/ dv_state (row_of demo_late) = d_quarantined.
Proof.
  destruct demo_late_row as (Hl & Ha & Hf & Hp).
  apply (fenced_approval_never_published ∅ [] (mkWorld demo_fenced demo_log [] demo_log) (mkWorld demo_late demo_log [] demo_log) (u "a")).
  - exact demo_fenced_reached.
  - apply rtc_once. eapply (ws_publish (mkWorld demo_fenced _ _ _)), surjective_pairing.
  - exact Hf.
  - intros r Hr. cbn [w_db] in Hr. rewrite Hr in Hp. left. by injection Hp.
  - exact Hl.
  - exact Ha.
Defined.

End ApprovalDelivery.
