(* ===== verification/Wire.v ===== *)
(** * Wire: UTF-8 and canonical JSON of flat objects

    What the private channels of the gateway put on a socket:
    [json.dumps(value, sort_keys=True, separators=(",", ":"),
    ensure_ascii=False, allow_nan=False).encode("utf-8")] of an object whose
    values are strings, integers and booleans ([_canonical_body] of
    [src/agent_gateway/autonomous_approval_channel.py]), and the reader of such
    text. A receiver re-encodes what it parsed and compares, so only canonical
    text is ever accepted; [parse_object] therefore reads the canonical subset
    of what [json.loads] reads. Bytes are numbers below 256. *)
From S2P Require Import Prelude.
From Stdlib Require Import ZArith Lia.

Module Wire.

(** ** UTF-8 *)
Definition utf8_char (c : N) : option (list N) :=
  if (c <? 128)%N then Some [c]
  else if (c <? 2048)%N then Some [192 + c / 64; 128 + c mod 64]%N
  else if (c <? 65536)%N then
    if ((55296 <=? c) && (c <=? 57343))%N then None      (* a surrogate *)
    else Some [224 + c / 4096; 128 + c / 64 mod 64; 128 + c mod 64]%N
  else if (c <? 1114112)%N then
    Some [240 + c / 262144; 128 + c / 4096 mod 64; 128 + c / 64 mod 64; 128 + c mod 64]%N
  else None.

(** [s.encode("utf-8")]; [None] is a [UnicodeEncodeError]. *)
Fixpoint utf8_encode (s : str) : option (list N) :=
  match s with
  | [] => Some []
  | c :: s' => b ← utf8_char c; bs ← utf8_encode s'; Some (b ++ bs)
  end.

Definition is_tail (b : N) : bool := ((128 <=? b) && (b <? 192))%N.

(** [b.decode("utf-8", errors="strict")]; [None] is a [UnicodeDecodeError]. A
    code point is accepted only in its shortest form. *)
Fixpoint utf8_read (bs : list N) : option str :=
  match bs with
  | [] => Some []
  | b0 :: rest =>
    if (b0 <? 128)%N then s ← utf8_read rest; Some (b0 :: s)
    else if (b0 <? 224)%N then
      match rest with
      | b1 :: rest1 =>
        let c := ((b0 - 192) * 64 + (b1 - 128))%N in
        if is_tail b1 && (192 <=? b0)%N && (128 <=? c)%N then s ← utf8_read rest1; Some (c :: s) else None
      | _ => None
      end
    else if (b0 <? 240)%N then
      match rest with
      | b1 :: b2 :: rest2 =>
        let c := ((b0 - 224) * 4096 + (b1 - 128) * 64 + (b2 - 128))%N in
        if is_tail b1 && is_tail b2 && (2048 <=? c)%N && negb ((55296 <=? c) && (c <=? 57343))%N
        then s ← utf8_read rest2; Some (c :: s) else None
      | _ => None
      end
    else
      match rest with
      | b1 :: b2 :: b3 :: rest3 =>
        let c := ((b0 - 240) * 262144 + (b1 - 128) * 4096 + (b2 - 128) * 64 + (b3 - 128))%N in
        if is_tail b1 && is_tail b2 && is_tail b3 && (65536 <=? c)%N && (c <? 1114112)%N && (b0 <? 248)%N
        then s ← utf8_read rest3; Some (c :: s) else None
      | _ => None
      end
  end.

(** ** JSON text *)
Definition hex_digit (n : N) : N := if (n <? 10)%N then (48 + n)%N else (87 + n)%N.

(** One character of a JSON string, [ensure_ascii=False]. *)
Definition json_char (c : N) : str :=
  if (c =? 34)%N then [92; 34]%N
  else if (c =? 92)%N then [92; 92]%N
  else if (c =? 10)%N then [92; 110]%N
  else if (c =? 13)%N then [92; 114]%N
  else if (c =? 9)%N then [92; 116]%N
  else if (c =? 12)%N then [92; 102]%N
  else if (c =? 8)%N then [92; 98]%N
  else if (c <? 32)%N then [92; 117; 48; 48; hex_digit (c / 16); hex_digit (c mod 16)]%N
  else [c].
Definition json_string (s : str) : str := 34%N :: mjoin (json_char <$> s) ++ [34%N].

(** A value of a flat object. *)
Definition json_scalar (v : json) : option str :=
  match v with
  | JStr s => Some (json_string s)
  | JInt z => Some (Z_to_str z)
  | JBool true => Some (u "true")
  | JBool false => Some (u "false")
  | _ => None
  end.

(** [sort_keys=True]: by code points. *)
Fixpoint key_le (a b : str) : bool :=
  match a, b with
  | [], _ => true
  | _ :: _, [] => false
  | x :: a', y :: b' => (x <? y)%N || ((x =? y)%N && key_le a' b')
  end.
Fixpoint insert_field (f : str * json) (l : list (str * json)) : list (str * json) :=
  match l with
  | [] => [f]
  | g :: l' => if key_le f.1 g.1 then f :: l else g :: insert_field f l'
  end.
Definition sort_fields (l : list (str * json)) : list (str * json) := foldr insert_field [] l.

Definition json_field (f : str * json) : option str := v ← json_scalar f.2; Some (json_string f.1 ++ 58%N :: v).
Fixpoint json_fields (l : list (str * json)) : option str :=
  match l with
  | [] => Some []
  | [f] => json_field f
  | f :: l' => a ← json_field f; b ← json_fields l'; Some (a ++ 44%N :: b)
  end.
Definition json_object (l : list (str * json)) : option str :=
  b ← json_fields (sort_fields l); Some (123%N :: b ++ [125%N]).

(** ** Reading it back *)
Definition hex_value (c : N) : option N :=
  if ((48 <=? c) && (c <=? 57))%N then Some (c - 48)%N
  else if ((97 <=? c) && (c <=? 102))%N then Some (c - 87)%N else None.

(** The characters of a string up to its closing quote, and what follows. *)
Fixpoint parse_chars (t : str) : option (str * str) :=
  match t with
  | [] => None
  | c :: t' =>
    if (c =? 34)%N then Some ([], t')
    else if (c =? 92)%N then
      let ret x rest := p ← parse_chars rest; Some (x :: p.1, p.2) in
      match t' with
      | e :: t2 =>
        if (e =? 34)%N then ret 34%N t2
        else if (e =? 92)%N then ret 92%N t2
        else if (e =? 110)%N then ret 10%N t2
        else if (e =? 114)%N then ret 13%N t2
        else if (e =? 116)%N then ret 9%N t2
        else if (e =? 102)%N then ret 12%N t2
        else if (e =? 98)%N then ret 8%N t2
        else if (e =? 117)%N then
          match t2 with
          | z0 :: z1 :: h :: l :: t6 =>
            x ← hex_value h; y ← hex_value l;
            if ((z0 =? 48) && (z1 =? 48))%N then ret (x * 16 + y)%N t6 else None
          | _ => None
          end
        else None
      | [] => None
      end
    else if (c <? 32)%N then None
    else p ← parse_chars t'; Some (c :: p.1, p.2)
  end.

Definition parse_nat (t : str) : option (N * str) :=
  let '(ds, rest) := span is_digit t in
  if bool_decide (ds = []) then None else Some (digits_val ds, rest).

Fixpoint expect (p t : str) : option str :=
  match p, t with
  | [], _ => Some t
  | a :: p', b :: t' => if (a =? b)%N then expect p' t' else None
  | _ :: _, [] => None
  end.

Definition parse_value (t : str) : option (json * str) :=
  match t with
  | [] => None
  | c :: t' =>
    if (c =? 34)%N then p ← parse_chars t'; Some (JStr p.1, p.2)
    else if (c =? 116)%N then r ← expect (u "true") t; Some (JBool true, r)
    else if (c =? 102)%N then r ← expect (u "false") t; Some (JBool false, r)
    else if (c =? 45)%N then p ← parse_nat t'; Some (JInt (- Z.of_N p.1), p.2)
    else p ← parse_nat t; Some (JInt (Z.of_N p.1), p.2)
  end.

(** Fields up to the closing brace; each one consumes text, so the length of
    the text is enough fuel. *)
Fixpoint parse_fields (fuel : nat) (t : str) : option (list (str * json)) :=
  match fuel with
  | O => None
  | S fuel =>
    match t with
    | 34%N :: t1 =>
      k ← parse_chars t1;
      match k.2 with
      | 58%N :: t2 =>
        v ← parse_value t2;
        match v.2 with
        | [125%N] => Some [(k.1, v.1)]
        | 44%N :: t3 => l ← parse_fields fuel t3; Some ((k.1, v.1) :: l)
        | _ => None
        end
      | _ => None
      end
    | _ => None
    end
  end.
Definition parse_object (t : str) : option (list (str * json)) :=
  match t with
  | 123%N :: t' => if bool_decide (t' = [125%N]) then Some [] else parse_fields (length t') t'
  | _ => None
  end.

(** ** Round trips *)
Ltac dlia := zify; Z.to_euclidean_division_equations; lia.

Lemma utf8_char_read c b rest :
  utf8_char c = Some b -> utf8_read (b ++ rest) = s ← utf8_read rest; Some (c :: s).
Proof.
  unfold utf8_char. intros H.
  destruct (c <? 128)%N eqn:H1; [injection H as <-; simpl; by rewrite H1|apply N.ltb_ge in H1].
  destruct (c <? 2048)%N eqn:H2; [apply N.ltb_lt in H2|apply N.ltb_ge in H2].
  { injection H as <-. cbn [app utf8_read].
    replace (192 + c / 64 <? 128)%N with false by (symmetry; apply N.ltb_ge; dlia).
    replace (192 + c / 64 <? 224)%N with true by (symmetry; apply N.ltb_lt; dlia).
    replace ((192 + c / 64 - 192) * 64 + (128 + c mod 64 - 128))%N with c by dlia.
    replace (is_tail (128 + c mod 64)) with true
      by (symmetry; unfold is_tail; apply andb_true_iff; split; [apply N.leb_le|apply N.ltb_lt]; dlia).
    replace (192 <=? 192 + c / 64)%N with true by (symmetry; apply N.leb_le; dlia).
    by replace (128 <=? c)%N with true by (symmetry; apply N.leb_le; dlia). }
  destruct (c <? 65536)%N eqn:H3; [apply N.ltb_lt in H3|apply N.ltb_ge in H3].
  { destruct (_ && _) eqn:Hsur; [done|]. injection H as <-. cbn [app utf8_read].
    replace (224 + c / 4096 <? 128)%N with false by (symmetry; apply N.ltb_ge; dlia).
    replace (224 + c / 4096 <? 224)%N with false by (symmetry; apply N.ltb_ge; dlia).
    replace (224 + c / 4096 <? 240)%N with true by (symmetry; apply N.ltb_lt; dlia).
    replace ((224 + c / 4096 - 224) * 4096 + (128 + c / 64 mod 64 - 128) * 64 + (128 + c mod 64 - 128))%N with c by dlia.
    assert (Ht : forall x, (x < 64)%N -> is_tail (128 + x) = true)
      by (intros x Hx; unfold is_tail; apply andb_true_iff; split; [apply N.leb_le|apply N.ltb_lt]; dlia).
    rewrite !Ht by dlia. rewrite Hsur.
    by replace (2048 <=? c)%N with true by (symmetry; apply N.leb_le; dlia). }
  destruct (c <? 1114112)%N eqn:H4; [|done]. injection H as <-. cbn [app utf8_read]. pose proof H4 as H5. apply N.ltb_lt in H5.
  replace (240 + c / 262144 <? 128)%N with false by (symmetry; apply N.ltb_ge; dlia).
  replace (240 + c / 262144 <? 224)%N with false by (symmetry; apply N.ltb_ge; dlia).
  replace (240 + c / 262144 <? 240)%N with false by (symmetry; apply N.ltb_ge; dlia).
  replace ((240 + c / 262144 - 240) * 262144 + (128 + c / 4096 mod 64 - 128) * 4096 +
    (128 + c / 64 mod 64 - 128) * 64 + (128 + c mod 64 - 128))%N with c by dlia.
  assert (Ht : forall x, (x < 64)%N -> is_tail (128 + x) = true)
    by (intros x Hx; unfold is_tail; apply andb_true_iff; split; [apply N.leb_le|apply N.ltb_lt]; dlia).
  rewrite !Ht by dlia. rewrite H4.
  replace (65536 <=? c)%N with true by (symmetry; apply N.leb_le; dlia).
  by replace (240 + c / 262144 <? 248)%N with true by (symmetry; apply N.ltb_lt; dlia).
Qed.

Lemma utf8_round_trip s bs : utf8_encode s = Some bs -> utf8_read bs = Some s.
Proof.
  revert bs. induction s as [|c s IH]; intros bs; simpl; [by intros [= <-]|].
  destruct (utf8_char c) as [b|] eqn:Hc; [|done]. simpl.
  destruct (utf8_encode s) as [bs'|]; [|done]. intros [= <-].
  by rewrite (utf8_char_read _ _ _ Hc), (IH _ eq_refl).
Qed.

Lemma utf8_char_bytes c b : utf8_char c = Some b -> Forall (fun x => (x < 256)%N) b /\ b <> [].
Proof.
  unfold utf8_char. intros H. repeat case_match; simplify_eq;
    repeat match goal with H : (_ <? _)%N = true |- _ => apply N.ltb_lt in H | H : (_ <? _)%N = false |- _ => apply N.ltb_ge in H end;
    split; try done; repeat constructor; dlia.
Qed.

Lemma utf8_bytes s bs : utf8_encode s = Some bs -> Forall (fun x => (x < 256)%N) bs.
Proof.
  revert bs. induction s as [|c s IH]; intros bs; simpl; [intros [= <-]; constructor|].
  destruct (utf8_char c) as [b|] eqn:Hc; [|done]. simpl.
  destruct (utf8_encode s) as [bs'|]; [|done]. intros [= <-]. apply Forall_app. split; [|by apply IH].
  by apply utf8_char_bytes in Hc as [? _].
Qed.

Lemma hex_digit_value n : (n < 16)%N -> hex_value (hex_digit n) = Some n.
Proof.
  intros Hn. assert (Hc : forall k : nat, k < 16 -> hex_value (hex_digit (N.of_nat k)) = Some (N.of_nat k)).
  { intros k Hk. do 16 (destruct k as [|k]; [reflexivity|]). dlia. }
  rewrite <- (N2Nat.id n). apply Hc. dlia.
Qed.

Lemma parse_json_char c t :
  parse_chars (json_char c ++ t) = p ← parse_chars t; Some (c :: p.1, p.2).
Proof.
  unfold json_char.
  destruct (c =? 34)%N eqn:E1; [apply N.eqb_eq in E1 as ->; reflexivity|].
  destruct (c =? 92)%N eqn:E2; [apply N.eqb_eq in E2 as ->; reflexivity|].
  destruct (c =? 10)%N eqn:E3; [apply N.eqb_eq in E3 as ->; reflexivity|].
  destruct (c =? 13)%N eqn:E4; [apply N.eqb_eq in E4 as ->; reflexivity|].
  destruct (c =? 9)%N eqn:E5; [apply N.eqb_eq in E5 as ->; reflexivity|].
  destruct (c =? 12)%N eqn:E6; [apply N.eqb_eq in E6 as ->; reflexivity|].
  destruct (c =? 8)%N eqn:E7; [apply N.eqb_eq in E7 as ->; reflexivity|].
  destruct (c <? 32)%N eqn:E8; [|simpl; by rewrite E1, E2, E8].
  apply N.ltb_lt in E8. cbn [app parse_chars].
  change ((92 =? 34)%N) with false. change ((92 =? 92)%N) with true. cbv iota beta zeta.
  change ((117 =? 34)%N) with false. change ((117 =? 92)%N) with false. change ((117 =? 110)%N) with false.
  change ((117 =? 114)%N) with false. change ((117 =? 116)%N) with false. change ((117 =? 102)%N) with false.
  change ((117 =? 98)%N) with false. change ((117 =? 117)%N) with true. cbv iota.
  rewrite !hex_digit_value by dlia. cbn [mbind option_bind].
  change (((48 =? 48) && (48 =? 48))%N) with true. cbv iota.
  by replace (c / 16 * 16 + c mod 16)%N with c by dlia.
Qed.

Lemma parse_json_string s t : parse_chars (mjoin (json_char <$> s) ++ 34%N :: t) = Some (s, t).
Proof.
  induction s as [|c s IH]; [done|].
  change (mjoin (json_char <$> c :: s)) with (json_char c ++ mjoin (json_char <$> s)).
  by rewrite <- app_assoc, parse_json_char, IH.
Qed.

Definition no_digit (t : str) : Prop := (match t with c :: _ => is_digit c | [] => false end) = false.

Lemma parse_N_to_str n t : no_digit t -> parse_nat (N_to_str n ++ t) = Some (n, t).
Proof.
  intros Ht. destruct (N_to_str_spec n) as (Hv & Hd & Hne & _). unfold parse_nat.
  rewrite (span_digits _ _ Hd Ht), bool_decide_false by done. by rewrite Hv.
Qed.

Lemma N_to_str_head n : exists c l, N_to_str n = c :: l /\ is_digit c = true.
Proof.
  destruct (N_to_str_spec n) as (_ & Hd & Hne & _). destruct (N_to_str n) as [|c l]; [done|].
  simpl in Hd. bool_prop. eauto.
Qed.

Lemma parse_int z t : no_digit t -> parse_value (Z_to_str z ++ t) = Some (JInt z, t).
Proof.
  intros Ht. unfold Z_to_str. destruct (z <? 0)%Z eqn:Hz; [apply Z.ltb_lt in Hz|apply Z.ltb_ge in Hz].
  - change (u "-" ++ N_to_str (Z.to_N (- z))) with (45%N :: N_to_str (Z.to_N (- z))).
    cbn [app]. unfold parse_value. change ((45 =? 34)%N) with false. change ((45 =? 116)%N) with false.
    change ((45 =? 102)%N) with false. change ((45 =? 45)%N) with true. cbv iota.
    rewrite parse_N_to_str by done. cbn [mbind option_bind fst snd]. do 3 f_equal. dlia.
  - pose proof (parse_N_to_str (Z.to_N z) t Ht) as Hp.
    destruct (N_to_str_head (Z.to_N z)) as (c & l & Heq & Hc). rewrite Heq in *. cbn [app] in *. unfold parse_value.
    unfold is_digit in Hc. bool_prop. apply N.leb_le in H, H0.
    assert (Hne : forall k, (k < 48 \/ 57 < k)%N -> (c =? k)%N = false) by (intros; apply N.eqb_neq; dlia).
    rewrite !Hne by dlia. rewrite Hp. cbn [mbind option_bind fst snd]. do 3 f_equal. dlia.
Qed.

Lemma parse_scalar v x t : json_scalar v = Some x -> no_digit t -> parse_value (x ++ t) = Some (v, t).
Proof.
  intros Hv Ht. destruct v as [|b|z| |s| |]; try done; simpl in Hv.
  - destruct b; injection Hv as <-; reflexivity.
  - injection Hv as <-. by apply parse_int.
  - injection Hv as <-. unfold json_string.
    change ((34%N :: mjoin (json_char <$> s) ++ [34%N]) ++ t) with (34%N :: (mjoin (json_char <$> s) ++ [34%N]) ++ t).
    rewrite <- app_assoc. cbn [app].
    unfold parse_value. change ((34 =? 34)%N) with true. cbv iota. by rewrite parse_json_string.
Qed.

Lemma json_fields_cons k v f l x :
  json_fields ((k, v) :: f :: l) = Some x ->
  exists tv b, json_scalar v = Some tv /\ json_fields (f :: l) = Some b /\ x = (json_string k ++ 58%N :: tv) ++ 44%N :: b.
Proof.
  change (json_fields ((k, v) :: f :: l)) with (a ← json_field (k, v); b ← json_fields (f :: l); Some (a ++ 44%N :: b)).
  unfold json_field. cbn [fst snd]. destruct (json_scalar v) as [tv|]; [|done].
  change (a ← (v0 ← Some tv; Some (json_string k ++ 58%N :: v0)); b ← json_fields (f :: l); Some (a ++ 44%N :: b))
    with (b ← json_fields (f :: l); Some ((json_string k ++ 58%N :: tv) ++ 44%N :: b)).
  destruct (json_fields (f :: l)) as [b|]; [|done]. intros [= <-]. eauto.
Qed.

Lemma parse_json_fields l x fuel :
  l <> [] -> json_fields l = Some x -> length l <= fuel -> parse_fields fuel (x ++ [125%N]) = Some l.
Proof.
  revert x fuel. induction l as [|[k v] l IH]; intros x fuel Hne Hx Hf; [done|].
  destruct fuel as [|fuel]; [simpl in Hf; dlia|].
  assert (Hstep : forall tv t, json_scalar v = Some tv -> no_digit t ->
    parse_fields (S fuel) ((json_string k ++ 58%N :: tv) ++ t) =
      match t with
      | [125%N] => Some [(k, v)]
      | 44%N :: t3 => l ← parse_fields fuel t3; Some ((k, v) :: l)
      | _ => None
      end).
  { intros tv t Hv Ht. unfold json_string. cbn [app parse_fields]. rewrite <- !app_assoc. cbn [app].
    rewrite parse_json_string. cbn [mbind option_bind fst snd]. rewrite (parse_scalar _ _ _ Hv Ht). cbn [mbind option_bind fst snd]. reflexivity. }
  destruct l as [|f l].
  - simpl in Hx. unfold json_field in Hx. simpl in Hx. destruct (json_scalar v) as [tv|] eqn:Hv; [|done].
    injection Hx as <-. by rewrite (Hstep _ _ eq_refl) by reflexivity.
  - apply json_fields_cons in Hx as (tv & b & Hv & Hb & ->).
    rewrite <- app_assoc. rewrite (Hstep _ _ Hv) by reflexivity. cbn [app].
    rewrite (IH b fuel) by (done || simpl in *; dlia). done.
Qed.

Lemma insert_field_length f l : length (insert_field f l) = S (length l).
Proof. induction l as [|g l IH]; simpl; [done|]. case_match; simpl; dlia. Qed.
Lemma json_fields_length l x : json_fields l = Some x -> length l <= length x.
Proof.
  revert x. induction l as [|[k v] l IH]; intros x Hx; [simpl; dlia|].
  assert (Hf : forall tv, 1 <= length (json_string k ++ 58%N :: tv)) by (intros; unfold json_string; simpl; dlia).
  destruct l as [|f l].
  - simpl in Hx. unfold json_field in Hx. simpl in Hx. destruct (json_scalar v) as [tv|]; [|done]. injection Hx as <-. apply Hf.
  - apply json_fields_cons in Hx as (tv & b & _ & Hb & ->). specialize (IH _ Hb). specialize (Hf tv).
    rewrite length_app. cbn [length] in *. dlia.
Qed.

(** Canonical text reads back as the object with its fields in key order. *)
Lemma json_object_round_trip l t : json_object l = Some t -> parse_object t = Some (sort_fields l).
Proof.
  unfold json_object. destruct (json_fields (sort_fields l)) as [b|] eqn:Hb; [|done]. intros [= <-].
  unfold parse_object. cbn [app]. destruct (sort_fields l) as [|f fs] eqn:Hs.
  - injection Hb as <-. done.
  - rewrite bool_decide_false.
    + apply (parse_json_fields _ _ _); [done|done|]. pose proof (json_fields_length _ _ Hb). rewrite length_app. simpl in *. dlia.
    + intros E. pose proof (json_fields_length _ _ Hb) as Hl. apply (f_equal length) in E.
      rewrite length_app in E. simpl in *. dlia.
Qed.

(** Sorting keeps the fields, so reading one by name is unaffected. *)
Lemma insert_field_get k f l :
  f.1 ∉ l.*1 -> dict_get k (insert_field f l) = dict_get k (f :: l).
Proof.
  destruct f as [kf vf]. induction l as [|[kg vg] l IH]; intros Hn; [done|]. cbn [insert_field].
  destruct (key_le _ _); [done|]. cbn [dict_get]. simpl in Hn. apply not_elem_of_cons in Hn as [Hne Hn].
  rewrite IH by done. cbn [dict_get]. repeat case_decide; simplify_eq; done.
Qed.
Lemma insert_field_keys f l : (insert_field f l).*1 ≡ₚ f.1 :: l.*1.
Proof.
  induction l as [|g l IH]; [done|]. cbn [insert_field]. case_match; [done|].
  cbn [fmap list_fmap]. rewrite IH. apply Permutation_swap.
Qed.
Lemma sort_fields_keys l : (sort_fields l).*1 ≡ₚ l.*1.
Proof. induction l as [|f l IH]; [done|]. cbn [sort_fields foldr]. rewrite insert_field_keys. simpl. by rewrite IH. Qed.
Lemma sort_fields_get k l : NoDup l.*1 -> dict_get k (sort_fields l) = dict_get k l.
Proof.
  induction l as [|[kf vf] l IH]; intros Hnd; [done|]. cbn [sort_fields foldr]. simpl in Hnd.
  apply NoDup_cons in Hnd as [Hn Hnd]. rewrite insert_field_get.
  - cbn [dict_get]. by case_decide; [|apply IH].
  - simpl. intros Hin. apply Hn. by rewrite <- (sort_fields_keys l).
Qed.

(** [struct.Struct("!I")]: four bytes, big endian. *)
Definition be32 (n : N) : list N :=
  [n / 16777216 mod 256; n / 65536 mod 256; n / 256 mod 256; n mod 256]%N.
Definition of_be32 (bs : list N) : N :=
  match bs with
  | [a; b; c; d] => (a * 16777216 + b * 65536 + c * 256 + d)%N
  | _ => 0%N
  end.
Lemma be32_round_trip n : (n < 4294967296)%N -> of_be32 (be32 n) = n.
Proof. intros. unfold of_be32, be32. dlia. Qed.
End Wire.
