(* ===== verification/ApprovalChannel.v ===== *)
(** * ApprovalChannel: the private socket that carries decisions to a child

    Models [src/agent_gateway/autonomous_approval_channel.py]: the channel
    authority and the decision with their validation, the canonical frame and
    its length header, the loops that write and read bytes in whatever pieces
    the operating system grants, and the two endpoints with the sequence
    bookkeeping that makes a resend harmless. An endpoint operation runs on the
    endpoint and the bytes in flight ([pipe]); its schedule lists what the
    operating system reports until the deadline. Descriptor transfer, the file
    number and the socket options are not modelled. *)
From Stdlib Require Import Sorting.Sorted.
From S2P Require Import Prelude Wire.
Import Wire.

Module ApprovalChannel.

Definition AUTONOMOUS_APPROVAL_CHANNEL_VERSION : Z := 1.
Definition DECISION_KIND : str := u "APPROVAL_DECISION".

Inductive channel_error :=
| ChannelStateError | ChannelProtocolError | ChannelTimeout | ChannelTransportError
| ChannelValueError | ChannelStructError.
#[global] Instance channel_error_eq : EqDecision channel_error.
Proof. solve_decision. Defined.

(** ** Values *)

(** [_canonical_text] and [_hex_text] accept *)
Definition canonical_text (max_length : nat) (s : str) : bool :=
  negb (bool_decide (s = [])) && bool_decide (s = py_strip s) && (length s <=? max_length)
  && forallb (fun c => (32 <=? c)%N) s.
Definition hex_text (n : nat) (s : str) : bool := canonical_text n s && (length s =? n) && forallb is_lower_hex s.

(** [AutonomousApprovalChannelAuthority] *)
Record ChannelAuthority := mkChannelAuthority {
  ca_launch_nonce : str;
  ca_task_id : str;
  ca_control_run_id : str;
  ca_session_id : str;
  ca_channel_id : str
}.
#[global] Instance ChannelAuthority_eq : EqDecision ChannelAuthority.
Proof. solve_decision. Defined.
Definition authority_valid (a : ChannelAuthority) : bool :=
  hex_text 32 (ca_launch_nonce a) && canonical_text 512 (ca_task_id a) && canonical_text 512 (ca_control_run_id a)
  && canonical_text 512 (ca_session_id a) && hex_text 64 (ca_channel_id a).

(** [AutonomousApprovalDecision] *)
Record ApprovalDecision := mkDecision {
  dc_authority : ChannelAuthority;
  dc_sequence : Z;
  dc_approval_id : str;
  dc_tool_call_id : str;
  dc_nonce : str;
  dc_approved : bool;
  dc_decided_at_ns : Z
}.
#[global] Instance ApprovalDecision_eq : EqDecision ApprovalDecision.
Proof. solve_decision. Defined.
Definition decision_valid (d : ApprovalDecision) : bool :=
  authority_valid (dc_authority d) && (1 <=? dc_sequence d)%Z && canonical_text 512 (dc_approval_id d)
  && canonical_text 512 (dc_tool_call_id d) && canonical_text 512 (dc_nonce d) && (1 <=? dc_decided_at_ns d)%Z.
Definition delivery_id (d : ApprovalDecision) : str * str * str := (dc_approval_id d, dc_tool_call_id d, dc_nonce d).

(** [frame]: [**self.authority.receipt()] in its place. *)
Definition decision_frame (d : ApprovalDecision) : list (str * json) :=
  let a := dc_authority d in
  [(u "kind", JStr DECISION_KIND); (u "version", JInt AUTONOMOUS_APPROVAL_CHANNEL_VERSION);
   (u "launch_nonce", JStr (ca_launch_nonce a)); (u "task_id", JStr (ca_task_id a));
   (u "control_run_id", JStr (ca_control_run_id a)); (u "session_id", JStr (ca_session_id a));
   (u "channel_id", JStr (ca_channel_id a)); (u "delivery_sequence", JInt (dc_sequence d));
   (u "approval_id", JStr (dc_approval_id d)); (u "tool_call_id", JStr (dc_tool_call_id d));
   (u "nonce", JStr (dc_nonce d)); (u "approved", JBool (dc_approved d));
   (u "allow_tool_type", JBool false); (u "decided_at_ns", JInt (dc_decided_at_ns d))].
Definition DECISION_FIELDS : list str :=
  [u "kind"; u "version"; u "launch_nonce"; u "task_id"; u "control_run_id"; u "session_id"; u "channel_id";
   u "delivery_sequence"; u "approval_id"; u "tool_call_id"; u "nonce"; u "approved"; u "allow_tool_type"; u "decided_at_ns"].

(** [_canonical_body]; [None] is a protocol error. *)
Definition canonical_body (value : list (str * json)) : option (list N) := t ← json_object value; utf8_encode t.

(** [_encode_decision]: the framed payload and the body. *)
Definition encode_decision (d : ApprovalDecision) : outcome channel_error (list N * list N) :=
  match canonical_body (decision_frame d) with
  | None => Raise ChannelProtocolError
  | Some body =>
    let n := N.of_nat (length body) in
    if (n <? 4294967296)%N then Ret (be32 n ++ body, body) else Raise ChannelStructError
  end.

(** The frame's fields by name, with their types. *)
Definition get_str (k : str) (v : list (str * json)) : option str :=
  match dict_get k v with Some (JStr s) => Some s | _ => None end.
Definition get_int (k : str) (v : list (str * json)) : option Z :=
  match dict_get k v with Some (JInt z) => Some z | _ => None end.
Definition get_bool (k : str) (v : list (str * json)) : option bool :=
  match dict_get k v with Some (JBool b) => Some b | _ => None end.

Definition frame_decision (v : list (str * json)) : option ApprovalDecision :=
  ln ← get_str (u "launch_nonce") v; task ← get_str (u "task_id") v;
  run ← get_str (u "control_run_id") v; sess ← get_str (u "session_id") v; chan ← get_str (u "channel_id") v;
  seq ← get_int (u "delivery_sequence") v; aid ← get_str (u "approval_id") v;
  call ← get_str (u "tool_call_id") v; nonce ← get_str (u "nonce") v; ap ← get_bool (u "approved") v;
  at_ ← get_int (u "decided_at_ns") v;
  Some (mkDecision (mkChannelAuthority ln task run sess chan) seq aid call nonce ap at_).

(** The closed contract: exactly the fields, the kind, the version. *)
Definition closed_contract (v : list (str * json)) : bool :=
  bool_decide (NoDup v.*1)
  && forallb (fun kv => bool_decide (kv.1 ∈ DECISION_FIELDS)) v
  && forallb (fun k => bool_decide (k ∈ v.*1)) DECISION_FIELDS
  && bool_decide (get_str (u "kind") v = Some DECISION_KIND)
  && bool_decide (get_int (u "version") v = Some AUTONOMOUS_APPROVAL_CHANNEL_VERSION)
  && bool_decide (get_bool (u "allow_tool_type") v = Some false).

(** [_decode_decision] *)
Definition decode_decision (authority : ChannelAuthority) (body : list N) : outcome channel_error ApprovalDecision :=
  match utf8_read body ≫= parse_object with
  | None => Raise ChannelProtocolError
  | Some value =>
    if negb (closed_contract value) then Raise ChannelProtocolError
    else if negb (bool_decide (canonical_body value = Some body)) then Raise ChannelProtocolError
    else match frame_decision value with
    | Some d =>
      if negb (decision_valid d) then Raise ChannelProtocolError
      else if bool_decide (dc_authority d = authority) then Ret d else Raise ChannelProtocolError
    | None => Raise ChannelProtocolError
    end
  end.

(** ** Bytes on the socket *)

(** What a readiness wait or a socket call reports. *)
Inductive io_event :=
| io_bytes (n : nat)      (* ready; at most [n] bytes move *)
| io_again                (* [BlockingIOError] *)
| io_failed.              (* [OSError], an exceptional state *)

(** [_send_all]: the bytes that reached the pipe, and how it ended. *)
Fixpoint send_all (evs : list io_event) (payload : list N) : list N * outcome channel_error unit :=
  match payload with
  | [] => ([], Ret tt)
  | _ :: _ =>
    match evs with
    | [] => ([], Raise ChannelTimeout)
    | io_again :: evs' => send_all evs' payload
    | io_failed :: _ => ([], Raise ChannelTransportError)
    | io_bytes O :: _ => ([], Raise ChannelTransportError)
    | io_bytes n :: evs' =>
      let '(out, r) := send_all evs' (drop n payload) in (take n payload ++ out, r)
    end
  end.

(** [_receive_exact]: what was read, what is left, the rest of the schedule. *)
Fixpoint receive_exact (evs : list io_event) (size : nat) (pipe : list N)
    : outcome channel_error (list N * list io_event) * list N :=
  match size with
  | O => (Ret ([], evs), pipe)
  | S _ =>
    match evs with
    | [] => (Raise ChannelTimeout, pipe)
    | io_again :: evs' => receive_exact evs' size pipe
    | io_failed :: _ => (Raise ChannelTransportError, pipe)
    | io_bytes n :: evs' =>
      let chunk := take (n `min` size) pipe in
      if bool_decide (chunk = []) then (Raise ChannelTransportError, pipe)
      else match receive_exact evs' (size - length chunk) (drop (length chunk) pipe) with
           | (Ret (bs, evs2), rest) => (Ret (chunk ++ bs, evs2), rest)
           | (Raise e, rest) => (Raise e, rest)
           end
    end
  end.

(** ** Endpoints *)

(** The bookkeeping both endpoints keep: the body (and, at the child, the
    decision) of each sequence, the sequence of each delivery, the last
    sequence. *)
Record Ledger (B : Type) := mkLedger {
  by_sequence : gmap Z B;
  by_delivery : gmap (str * str * str) Z;
  last_sequence : Z
}.
Arguments mkLedger {B}. Arguments by_sequence {B}. Arguments by_delivery {B}. Arguments last_sequence {B}.

(** [_OwnedApprovalEndpoint]: authority, socket and flags. *)
Record Endpoint (B : Type) := mkEndpoint {
  ep_authority : ChannelAuthority;
  ep_socket : bool;
  ep_closed : bool;
  ep_failed : bool;
  ep_ledger : Ledger B
}.
Arguments mkEndpoint {B}. Arguments ep_authority {B}. Arguments ep_socket {B}. Arguments ep_closed {B}.
Arguments ep_failed {B}. Arguments ep_ledger {B}.

Abbreviation Parent := (Endpoint (list N)).
Abbreviation Child := (Endpoint (list N * ApprovalDecision)).

Definition open_endpoint {B} (a : ChannelAuthority) : Endpoint B := mkEndpoint a true false false (mkLedger ∅ ∅ 0).
Definition with_ledger {B} (l : Ledger B) (e : Endpoint B) : Endpoint B :=
  mkEndpoint (ep_authority e) (ep_socket e) (ep_closed e) (ep_failed e) l.

(** [_abort] and [close] *)
Definition abort_endpoint {B} (e : Endpoint B) : Endpoint B := mkEndpoint (ep_authority e) false true true (ep_ledger e).
Definition close_endpoint {B} (e : Endpoint B) : Endpoint B := mkEndpoint (ep_authority e) false true (ep_failed e) (ep_ledger e).

(** An endpoint with the bytes in flight. *)
Abbreviation E B := (SE (Endpoint B * list N) channel_error).
Definition ensure {B} (b : bool) (e : channel_error) : E B unit := if b then se_ret tt else se_raise e.

(** [_operation]: a second owner, an unusable endpoint or any exception aborts
    the endpoint. *)
Definition operation {B X} (busy : bool) (m : E B X) : E B X :=
  fun s =>
    let abort (s : Endpoint B * list N) := (abort_endpoint s.1, s.2) in
    if busy || ep_closed s.1 || ep_failed s.1 then (abort s, Raise ChannelStateError)
    else match m s with
         | (s', Ret x) => (s', Ret x)
         | (s', Raise e) => (abort s', Raise e)
         end.

(** [_require_socket] *)
Definition require_socket {B} : E B unit := let! s := se_get in ensure (ep_socket s.1) ChannelStateError.

(** Both endpoints compare a decision with what they have seen. *)
Inductive verdict := fresh | duplicate | conflict.
#[global] Instance verdict_eq : EqDecision verdict.
Proof. solve_decision. Defined.
Definition judge {B} (body_of : B -> list N) (l : Ledger B) (d : ApprovalDecision) (body : list N) : verdict :=
  let prior_sequence := by_delivery l !! delivery_id d in
  match by_sequence l !! dc_sequence d with
  | Some b =>
    if bool_decide (body_of b = body) && bool_decide (prior_sequence = Some (dc_sequence d)) then duplicate else conflict
  | None => if bool_decide (is_Some prior_sequence) || (dc_sequence d <=? last_sequence l)%Z then conflict else fresh
  end.
Definition note {B} (b : B) (d : ApprovalDecision) (l : Ledger B) : Ledger B :=
  mkLedger (<[dc_sequence d := b]> (by_sequence l)) (<[delivery_id d := dc_sequence d]> (by_delivery l)) (dc_sequence d).

(** [AutonomousApprovalChannelParent.send] *)
Definition send_frame (evs : list io_event) (d : ApprovalDecision) : E (list N) ApprovalDecision :=
    let! s := se_get in
    let! _ := ensure (bool_decide (dc_authority d = ep_authority s.1)) ChannelProtocolError in
    let! enc := se_lift (encode_decision d) in
    let v := judge id (ep_ledger s.1) d enc.2 in
    let! _ := ensure (negb (bool_decide (v = conflict))) ChannelProtocolError in
    let! _ := require_socket in
    let io := send_all evs enc.1 in
    let! _ := se_put (s.1, s.2 ++ io.1) in
    let! _ := se_lift io.2 in
    let! _ := (if bool_decide (v = fresh)
               then se_put (with_ledger (note enc.2 d (ep_ledger s.1)) s.1, s.2 ++ io.1) else se_ret tt) in
    se_ret d.
Definition parent_send (busy : bool) (evs : list io_event) (d : ApprovalDecision) : E (list N) ApprovalDecision :=
  operation busy (send_frame evs d).

(** [require_sent] *)
Definition require_sent (d : ApprovalDecision) (p : Parent) : outcome channel_error unit :=
  let? enc := encode_decision d in
  if bool_decide (by_sequence (ep_ledger p) !! dc_sequence d = Some enc.2)
     && bool_decide (by_delivery (ep_ledger p) !! delivery_id d = Some (dc_sequence d))
  then Ret tt else Raise ChannelProtocolError.

(** [decisions_sent], [sent_frame_bytes] *)
Definition decisions_sent (p : Parent) : nat := size (by_sequence (ep_ledger p)).
Definition sent_frame_bytes (p : Parent) (seq : Z) : option nat := length <$> by_sequence (ep_ledger p) !! seq.

Definition read_bytes {B} (evs : list io_event) (size : nat) : E B (list N * list io_event) :=
  let! s := se_get in
  let io := receive_exact evs size s.2 in
  let! _ := se_put (s.1, io.2) in
  se_lift io.1.

(** [AutonomousApprovalChannelChild.receive]: the decision and whether it is a
    duplicate. *)
Definition receive_frame (evs : list io_event) : E (list N * ApprovalDecision) (ApprovalDecision * bool) :=
    let! _ := require_socket in
    let! head := read_bytes evs 4 in
    let n := of_be32 head.1 in
    let! _ := ensure (1 <=? n)%N ChannelProtocolError in
    let! rest := read_bytes head.2 (N.to_nat n) in
    let body := rest.1 in
    let! s := se_get in
    let! d := se_lift (decode_decision (ep_authority s.1) body) in
    match judge fst (ep_ledger s.1) d body with
    | duplicate =>
      match by_sequence (ep_ledger s.1) !! dc_sequence d with
      | Some b => se_ret (b.2, true)
      | None => se_raise ChannelProtocolError
      end
    | conflict => se_raise ChannelProtocolError
    | fresh =>
      let! _ := se_put (with_ledger (note (body, d) d (ep_ledger s.1)) s.1, s.2) in
      se_ret (d, false)
    end.
Definition child_receive (busy : bool) (evs : list io_event) : E (list N * ApprovalDecision) (ApprovalDecision * bool) :=
  operation busy (receive_frame evs).

(** ** The two ends together

    [sent] lists the decisions the parent has newly recorded, [taken] those the
    child has returned as new; both are history only. *)
Record Channel := mkChannel {
  ch_parent : Parent;
  ch_pipe : list N;
  ch_child : Child;
  ch_sent : list ApprovalDecision;
  ch_taken : list ApprovalDecision
}.
Definition new_channel (a : ChannelAuthority) : Channel := mkChannel (open_endpoint a) [] (open_endpoint a) [] [].

Definition newly_sent (p p' : Parent) (d : ApprovalDecision) : list ApprovalDecision :=
  if bool_decide (by_sequence (ep_ledger p) !! dc_sequence d = by_sequence (ep_ledger p') !! dc_sequence d) then [] else [d].
Definition newly_taken (r : outcome channel_error (ApprovalDecision * bool)) : list ApprovalDecision :=
  match r with Ret (d, false) => [d] | _ => [] end.

Inductive channel_step (c : Channel) : Channel -> Prop :=
| cs_send busy evs d p pipe r :
    decision_valid d = true -> parent_send busy evs d (ch_parent c, ch_pipe c) = ((p, pipe), r) ->
    channel_step c (mkChannel p pipe (ch_child c) (ch_sent c ++ newly_sent (ch_parent c) p d) (ch_taken c))
| cs_receive busy evs k pipe r :
    child_receive busy evs (ch_child c, ch_pipe c) = ((k, pipe), r) ->
    channel_step c (mkChannel (ch_parent c) pipe k (ch_sent c) (ch_taken c ++ newly_taken r))
| cs_close_parent : channel_step c (mkChannel (close_endpoint (ch_parent c)) (ch_pipe c) (ch_child c) (ch_sent c) (ch_taken c))
| cs_close_child : channel_step c (mkChannel (ch_parent c) (ch_pipe c) (close_endpoint (ch_child c)) (ch_sent c) (ch_taken c)).

(** ** Lemmas: frames *)
Lemma decision_round_trip d payload body :
  decision_valid d = true -> encode_decision d = Ret (payload, body) ->
  decode_decision (dc_authority d) body = Ret d /\
  payload = be32 (N.of_nat (length body)) ++ body /\ 1 <= length body /\ (N.of_nat (length body) < 4294967296)%N.
Proof.
  intros Hv He. unfold encode_decision in He. destruct (canonical_body (decision_frame d)) as [b|] eqn:Hb; [|done].
  cbv zeta in He. destruct (N.of_nat (length b) <? 4294967296)%N eqn:Hl; [|done]. injection He as <- <-.
  apply N.ltb_lt in Hl. unfold canonical_body in Hb.
  destruct (json_object (decision_frame d)) as [t|] eqn:Ht; [|done]. cbn [mbind option_bind] in Hb.
  pose proof (json_object_round_trip _ _ Ht) as Hp. pose proof (utf8_round_trip _ _ Hb) as Hu.
  assert (Hs : sort_fields (sort_fields (decision_frame d)) = sort_fields (decision_frame d)) by (vm_compute; reflexivity).
  split; [|split; [done|]; split; [|done]].
  - unfold decode_decision. rewrite Hu. cbn [mbind option_bind]. rewrite Hp.
    assert (Hc : closed_contract (sort_fields (decision_frame d)) = true) by (vm_compute; reflexivity).
    assert (Hf : frame_decision (sort_fields (decision_frame d)) = Some d)
      by (destruct d as [[]]; vm_compute; reflexivity).
    rewrite Hc, Hf, Hv. cbn [negb]. unfold canonical_body.
    replace (json_object (sort_fields (decision_frame d))) with (json_object (decision_frame d))
      by (unfold json_object; by rewrite Hs).
    rewrite Ht. cbn [mbind option_bind]. rewrite Hb, !bool_decide_true by done. done.
  - destruct b; simpl; [|lia]. by destruct t.
Qed.

(** ** Lemmas: bytes *)
Lemma send_all_spec evs payload :
  (send_all evs payload).2 = Ret tt /\ (send_all evs payload).1 = payload \/
  exists e tail, (send_all evs payload).2 = Raise e /\ payload = (send_all evs payload).1 ++ tail /\ tail <> [] /\
    e <> ChannelProtocolError.
Proof.
  revert payload. induction evs as [|ev evs IH]; intros payload.
  - destruct payload; [by left|]. right. eexists _, _. done.
  - destruct payload as [|b bs]; [by left|]. destruct ev as [[|n]| |]; cbn [send_all];
      [right; by eexists _, _| |by apply IH|right; by eexists _, _].
    destruct (send_all evs (drop (S n) (b :: bs))) as [out r] eqn:Hs.
    specialize (IH (drop (S n) (b :: bs))). rewrite Hs in IH. cbn [fst snd] in *.
    destruct IH as [[-> ->]|(e & tail & -> & Ht & ? & ?)].
    + left. split; [done|]. by rewrite take_drop.
    + right. exists e, tail. split; [done|]. split; [|done]. rewrite <- app_assoc, <- Ht. by rewrite take_drop.
Qed.

Lemma receive_exact_spec evs size pipe :
  match receive_exact evs size pipe with
  | (Ret (bs, _), rest) => pipe = bs ++ rest /\ length bs = size
  | (Raise e, _) => e <> ChannelProtocolError
  end.
Proof.
  revert size pipe. induction evs as [|ev evs IH]; intros size pipe; destruct size as [|size]; cbn [receive_exact]; try done.
  destruct ev as [n| |]; [|by apply IH|done]. cbv zeta. case_bool_decide as Hc; [done|].
  set (chunk := take (n `min` S size) pipe) in *.
  specialize (IH (S size - length chunk) (drop (length chunk) pipe)).
  destruct (receive_exact _ _ _) as [[[bs evs2]|e] rest]; [|done]. destruct IH as [Hp Hl].
  assert (Hk : length chunk <= S size) by (unfold chunk; rewrite length_take; lia).
  split; [|rewrite length_app; lia]. rewrite <- app_assoc, <- Hp. unfold chunk.
  rewrite length_take. replace (take _ pipe) with (take ((n `min` S size) `min` length pipe) pipe).
  { by rewrite take_drop. }
  destruct (decide (n `min` S size <= length pipe)) as [Hle|Hgt]; [by rewrite Nat.min_l|].
  rewrite Nat.min_r, !take_ge by lia. done.
Qed.

(** ** Lemmas: ledgers *)
Definition body_of (d : ApprovalDecision) : list N :=
  match encode_decision d with Ret p => p.2 | Raise _ => [] end.
Definition payload_of (d : ApprovalDecision) : list N :=
  match encode_decision d with Ret p => p.1 | Raise _ => [] end.
Definition sendable (a : ChannelAuthority) (d : ApprovalDecision) : Prop :=
  decision_valid d = true /\ dc_authority d = a /\ encode_decision d = Ret (payload_of d, body_of d).

Definition empty_ledger {B} : Ledger B := mkLedger ∅ ∅ 0.
Definition judged (l : Ledger (list N)) (d : ApprovalDecision) : verdict := judge id l d (body_of d).
Definition absorb (l : Ledger (list N)) (d : ApprovalDecision) : Ledger (list N) :=
  if bool_decide (judged l d = fresh) then note (body_of d) d l else l.
Definition ledger_of (W : list ApprovalDecision) : Ledger (list N) := foldl absorb empty_ledger W.

(** The decisions of [W] that were new when they came, and that none conflicts. *)
Fixpoint news (l : Ledger (list N)) (W : list ApprovalDecision) : list ApprovalDecision :=
  match W with
  | [] => []
  | d :: W' => (if bool_decide (judged l d = fresh) then [d] else []) ++ news (absorb l d) W'
  end.
Fixpoint clean (l : Ledger (list N)) (W : list ApprovalDecision) : Prop :=
  match W with
  | [] => True
  | d :: W' => judged l d <> conflict /\ clean (absorb l d) W'
  end.

Lemma news_app l W V : news l (W ++ V) = news l W ++ news (foldl absorb l W) V.
Proof. revert l. induction W as [|d W IH]; intros l; [done|]. simpl. by rewrite IH, app_assoc. Qed.
Lemma clean_app l W V : clean l (W ++ V) <-> clean l W /\ clean (foldl absorb l W) V.
Proof. revert l. induction W as [|d W IH]; intros l; simpl; [tauto|]. rewrite IH. tauto. Qed.
Lemma ledger_snoc W d : ledger_of (W ++ [d]) = absorb (ledger_of W) d.
Proof. unfold ledger_of. by rewrite foldl_app. Qed.

Lemma judge_fresh {B} (f : B -> list N) l d b :
  judge f l d b = fresh ->
  by_sequence l !! dc_sequence d = None /\ by_delivery l !! delivery_id d = None /\ (last_sequence l < dc_sequence d)%Z.
Proof.
  unfold judge. intros H. destruct (by_sequence l !! dc_sequence d); [by case_match|].
  split; [done|]. destruct (by_delivery l !! delivery_id d); simpl in H; [done|].
  split; [done|]. destruct (dc_sequence d <=? last_sequence l)%Z eqn:Hl; [done|by apply Z.leb_gt in Hl].
Qed.

(** New decisions come in increasing sequence, each delivery once. *)
Definition ledger_bound (l : Ledger (list N)) (ds : list ApprovalDecision) : Prop :=
  (forall d, d ∈ ds -> (dc_sequence d <= last_sequence l)%Z /\ is_Some (by_delivery l !! delivery_id d)).
Definition increasing (ds : list ApprovalDecision) : Prop :=
  StronglySorted (fun d e => (dc_sequence d < dc_sequence e)%Z) ds /\ NoDup (delivery_id <$> ds).

Lemma increasing_snoc ds d :
  increasing ds -> (forall e, e ∈ ds -> (dc_sequence e < dc_sequence d)%Z /\ delivery_id e <> delivery_id d) ->
  increasing (ds ++ [d]).
Proof.
  intros [Hs Hn] Hd. split.
  - clear Hn. induction Hs as [|x l Hs IH Hx]; simpl; [repeat constructor|]. constructor.
    + apply IH. intros e He. apply Hd. set_solver.
    + apply Forall_app. split; [done|]. constructor; [|done]. apply Hd. set_solver.
  - rewrite fmap_app. apply NoDup_app. split; [done|]. split; [|apply NoDup_singleton].
    intros i (e & -> & He)%list_elem_of_fmap Hi%list_elem_of_singleton. by apply Hd in He as [_ ?].
Qed.

Lemma ledger_news W :
  increasing (news empty_ledger W) /\ ledger_bound (ledger_of W) (news empty_ledger W).
Proof.
  induction W as [|d W IH] using rev_ind; [split; [split; constructor|by intros ? ?%not_elem_of_nil]|].
  rewrite news_app, ledger_snoc. fold (ledger_of W). destruct IH as [Hi Hb]. cbn [news]. rewrite app_nil_r. unfold absorb.
  case_bool_decide as Hf; [|by rewrite app_nil_r].
  apply judge_fresh in Hf as (_ & Hd & Hl). split.
  - apply increasing_snoc; [done|]. intros e He. destruct (Hb e He) as [? [x Hx]]. split; [lia|]. intros E. congruence.
  - intros e [He| ->%list_elem_of_singleton]%elem_of_app; simpl.
    + destruct (Hb e He) as [? Hx]. split; [lia|]. destruct (decide (delivery_id e = delivery_id d)) as [->|Hne].
      * rewrite lookup_insert_eq. eauto.
      * by rewrite lookup_insert_ne by done.
    + rewrite lookup_insert_eq. split; [lia|eauto].
Qed.

(** ** Lemmas: the endpoints *)
Lemma ensure_ret {B} b e (s s' : Endpoint B * list N) x : ensure b e s = (s', Ret x) -> s' = s /\ b = true.
Proof. destruct b; [by intros [= <- _]|done]. Qed.
Lemma ensure_raise {B} b e (s s' : Endpoint B * list N) e' : ensure b e s = (s', Raise e') -> s' = s /\ e' = e.
Proof. destruct b; [done|]. by intros [= <- <-]. Qed.
Lemma require_socket_same {B} (s s' : Endpoint B * list N) r :
  require_socket s = (s', r) -> s' = s /\ r <> Raise ChannelProtocolError.
Proof.
  unfold require_socket, se_bind, se_get, ensure. destruct (ep_socket s.1); by intros [= <- <-].
Qed.

Lemma operation_spec {B X} busy (m : E B X) s s' r :
  operation busy m s = (s', r) ->
  (exists e, r = Raise e /\ s'.1 = abort_endpoint s.1 /\ s'.2 = s.2 /\ e = ChannelStateError) \/
  (ep_closed s.1 = false /\ ep_failed s.1 = false /\
   ((exists x, m s = (s', Ret x) /\ r = Ret x) \/
    (exists e s1, m s = (s1, Raise e) /\ r = Raise e /\ s' = (abort_endpoint s1.1, s1.2)))).
Proof.
  unfold operation. destruct (busy || ep_closed s.1 || ep_failed s.1) eqn:Hc.
  - intros [= <- <-]. left. eexists. done.
  - apply orb_false_iff in Hc as [[_ Hc]%orb_false_iff Hf]. right. split; [done|]. split; [done|].
    destruct (m s) as [s1 [x|e]]; injection H as <- <-; [left|right]; eauto 6.
Qed.

Lemma with_ledger_same {B} (e : Endpoint B) : with_ledger (ep_ledger e) e = e.
Proof. by destruct e. Qed.

(** What a send writes. *)
Lemma send_frame_spec evs d p pipe s' r :
  decision_valid d = true -> send_frame evs d (p, pipe) = (s', r) ->
  (s'.1 = p /\ exists e, r = Raise e /\
     (s'.2 = pipe \/ exists out tail, sendable (ep_authority p) d /\ s'.2 = pipe ++ out /\ payload_of d = out ++ tail /\ tail <> [])) \/
  (r = Ret d /\ sendable (ep_authority p) d /\ judged (ep_ledger p) d <> conflict /\
   s' = (with_ledger (absorb (ep_ledger p) d) p, pipe ++ payload_of d)).
Proof.
  intros Hv H. unfold send_frame in H. unfold se_bind at 1, se_get in H. cbn [fst snd] in H.
  unfold ensure at 1, se_bind at 1 in H. case_bool_decide as Ha; [|injection H as <- <-; left; eauto 6].
  unfold se_ret at 1, se_bind at 1, se_lift at 1 in H.
  destruct (encode_decision d) as [[pl body]|e] eqn:He; [|injection H as <- <-; left; eauto 6]. cbn [fst snd] in H.
  assert (Hs : sendable (ep_authority p) d) by (unfold sendable, payload_of, body_of; rewrite He; done).
  assert (Hb : body = body_of d) by (unfold body_of; by rewrite He).
  assert (Hp : pl = payload_of d) by (unfold payload_of; by rewrite He). subst body pl.
  fold (judged (ep_ledger p) d) in H.
  unfold se_bind at 1, ensure at 1 in H. case_bool_decide as Hc; cbn [negb] in H; [injection H as <- <-; left; eauto 6|].
  unfold se_ret at 1, se_bind at 1 in H. destruct (require_socket (p, pipe)) as [s1 r1] eqn:Hr.
  destruct (require_socket_same _ _ _ Hr) as [-> _]. destruct r1 as [|e1]; [|injection H as <- <-; left; eauto 6].
  unfold se_bind at 1, se_put at 1 in H. unfold se_bind at 1, se_lift at 1 in H.
  destruct (send_all_spec evs (payload_of d)) as [[E1 E2]|(e & tail & E1 & E2 & Ht & _)]; rewrite E1 in H.
  - right. rewrite E2 in H. unfold absorb. unfold se_bind, se_put, se_ret in H.
    case_bool_decide as Hf; injection H as <- <-; (split; [done|]); (split; [done|]); (split; [done|]); [done|].
    by rewrite with_ledger_same.
  - injection H as <- <-. left. split; [done|]. exists e. split; [done|]. right. eauto 6.
Qed.

Definition ledgers_agree (k : Ledger (list N * ApprovalDecision)) (l : Ledger (list N)) : Prop :=
  (forall s, fst <$> by_sequence k !! s = by_sequence l !! s) /\ by_delivery k = by_delivery l /\ last_sequence k = last_sequence l.

Lemma judge_agree k l d b : ledgers_agree k l -> judge fst k d b = judge id l d b.
Proof.
  intros (Hs & Hd & Hl). unfold judge. rewrite Hd, Hl. rewrite <- (Hs (dc_sequence d)).
  by destruct (by_sequence k !! dc_sequence d).
Qed.
Lemma note_agree k l d b : ledgers_agree k l -> ledgers_agree (note (b, d) d k) (note b d l).
Proof.
  intros (Hs & Hd & Hl). split; [|split; simpl; [by rewrite Hd|done]]. intros s. simpl.
  destruct (decide (dc_sequence d = s)) as [->|Hne]; [by rewrite !lookup_insert_eq|].
  by rewrite !lookup_insert_ne by done.
Qed.

Lemma read_bytes_spec {B} evs n (s s' : Endpoint B * list N) r :
  read_bytes evs n s = (s', r) -> s'.1 = s.1 /\
  match r with
  | Ret (bs, _) => s.2 = bs ++ s'.2 /\ length bs = n
  | Raise e => e <> ChannelProtocolError
  end.
Proof.
  unfold read_bytes, se_bind, se_get, se_put, se_lift. pose proof (receive_exact_spec evs n s.2) as Hs.
  destruct (receive_exact evs n s.2) as [r0 rest]. intros [= <- <-]. simpl. split; [done|].
  destruct r0 as [[bs evs2]|e]; done.
Qed.

Lemma sendable_frame a d : sendable a d ->
  payload_of d = be32 (N.of_nat (length (body_of d))) ++ body_of d /\ 1 <= length (body_of d) /\
  of_be32 (be32 (N.of_nat (length (body_of d)))) = N.of_nat (length (body_of d)) /\ decode_decision a (body_of d) = Ret d.
Proof.
  intros (Hv & <- & He). destruct (decision_round_trip _ _ _ Hv He) as (Hd & Hp & Hl & Hn).
  split; [done|]. split; [done|]. split; [by apply be32_round_trip|done].
Qed.

(** The header and body of the next frame, or nothing. *)
Definition in_flight (a : ChannelAuthority) (S : list ApprovalDecision) (part pipe : list N) : Prop :=
  Forall (sendable a) S /\ pipe = mjoin (payload_of <$> S) ++ part /\
  (part = [] \/ exists d tail, sendable a d /\ payload_of d = part ++ tail /\ tail <> []).

Lemma in_flight_header a S part pipe hd rest :
  in_flight a S part pipe -> pipe = hd ++ rest -> length hd = 4 ->
  exists d, sendable a d /\ of_be32 hd = N.of_nat (length (body_of d)) /\
    ((exists S', S = d :: S' /\ rest = body_of d ++ mjoin (payload_of <$> S') ++ part) \/
     (length rest < length (body_of d))).
Proof.
  intros (HS & Hp & Hpart) Hh Hl. destruct S as [|d S'].
  - simpl in Hp. subst part. destruct Hpart as [Hnil|(d & tail & Hd & Hpl & Ht)].
    { rewrite Hnil in Hh. symmetry in Hh. apply app_eq_nil in Hh as [-> _]. done. }
    destruct (sendable_frame _ _ Hd) as (Hfr & _ & Hbe & _). exists d. split; [done|].
    rewrite Hfr, Hh, <- app_assoc in Hpl. apply app_inj_1 in Hpl as [<- Hb]; [|simpl; lia]. split; [done|]. right.
    rewrite Hb, length_app. destruct tail; [done|]. simpl. lia.
  - apply Forall_cons in HS as [Hd _]. destruct (sendable_frame _ _ Hd) as (Hfr & _ & Hbe & _).
    exists d. split; [done|].
    change (mjoin (payload_of <$> d :: S')) with (payload_of d ++ mjoin (payload_of <$> S')) in Hp.
    rewrite Hh, Hfr, <- !app_assoc in Hp. apply app_inj_1 in Hp as [-> Hb]; [|simpl; lia].
    split; [done|]. left. eauto.
Qed.

Lemma receive_frame_spec a evs k l pipe s' r S part :
  ep_authority k = a -> in_flight a S part pipe -> ledgers_agree (ep_ledger k) l ->
  (forall d, head S = Some d -> judged l d <> conflict) ->
  (forall s b, by_sequence (ep_ledger k) !! s = Some b -> decode_decision a b.1 = Ret b.2) ->
  receive_frame evs (k, pipe) = (s', r) ->
  (exists e, r = Raise e /\ e <> ChannelProtocolError /\ s'.1 = k) \/
  (exists d S', S = d :: S' /\ s'.2 = mjoin (payload_of <$> S') ++ part /\
     ((judged l d = fresh /\ r = Ret (d, false) /\ s'.1 = with_ledger (note (body_of d, d) d (ep_ledger k)) k) \/
      (judged l d = duplicate /\ r = Ret (d, true) /\ s'.1 = k /\ exists s, by_sequence (ep_ledger k) !! s = Some (body_of d, d)))).
Proof.
  intros Hau Hfl Hag Hnc Hdec H. unfold receive_frame in H. unfold se_bind at 1 in H.
  destruct (require_socket (k, pipe)) as [s1 [x1|e1]] eqn:Hr; destruct (require_socket_same _ _ _ Hr) as [-> Hne].
  2: { injection H as <- <-. left. exists e1. split; [done|]. split; [|done]. intros ->. by apply Hne. }
  unfold se_bind at 1 in H. destruct (read_bytes evs 4 (k, pipe)) as [s1 r1] eqn:H1.
  apply read_bytes_spec in H1 as [K1 H1]. destruct r1 as [[hd evs2]|e]; [|injection H as <- <-; left; eauto].
  destruct H1 as [H1 L1]. cbn [fst snd] in *.
  destruct (in_flight_header _ _ _ _ _ _ Hfl H1 L1) as (d & Hd & Hn & Hcase). rewrite Hn in H.
  destruct (sendable_frame _ _ Hd) as (_ & Hpos & _ & Hdd).
  unfold se_bind at 1, ensure at 1 in H.
  replace (1 <=? N.of_nat (length (body_of d)))%N with true in H by (symmetry; apply N.leb_le; lia).
  unfold se_ret at 1, se_bind at 1 in H. rewrite Nat2N.id in H.
  destruct (read_bytes evs2 (length (body_of d)) s1) as [s2 r2] eqn:H2.
  apply read_bytes_spec in H2 as [K2 H2]. destruct r2 as [[body evs3]|e]; [|injection H as <- <-; left; exists e; split; [done|]; split; [done|congruence]].
  destruct H2 as [H2 L2].
  destruct Hcase as [(S' & -> & Hrest)|Hshort]; [|apply (f_equal length) in H2; rewrite length_app in H2; lia].
  rewrite Hrest in H2. apply app_inj_1 in H2 as [<- H2]; [|done].
  cbn [fst snd] in H. unfold se_bind at 1, se_get in H. unfold se_bind at 1, se_lift in H.
  rewrite K2, K1, Hau, Hdd in H. rewrite (judge_agree _ _ _ _ Hag) in H. fold (judged l d) in H.
  right. exists d, S'. split; [done|].
  destruct (judged l d) eqn:Hj.
  - unfold se_bind, se_put, se_ret in H. injection H as <- <-. simpl. split; [done|]. left. done.
  - assert (Hlk : exists b, by_sequence (ep_ledger k) !! dc_sequence d = Some b /\ b.1 = body_of d).
    { unfold judged, judge in Hj. destruct Hag as (Hs & _). rewrite <- Hs in Hj.
      destruct (by_sequence (ep_ledger k) !! dc_sequence d) as [b|]; simpl in Hj; [|by case_match].
      exists b. split; [done|]. destruct (_ && _) eqn:Hb in Hj; [|done]. apply andb_true_iff in Hb as [Hb _].
      by apply bool_decide_eq_true in Hb. }
    destruct Hlk as ([b1 b2] & Hb & Hb1). rewrite Hb in H. injection H as <- <-. cbn [fst snd] in *. subst b1.
    pose proof (Hdec _ _ Hb) as Hd2. cbn [fst snd] in Hd2. assert (b2 = d) as -> by congruence.
    split; [done|]. right. split; [done|]. split; [done|]. split; [congruence|eauto].
  - exfalso. by apply (Hnc d).
Qed.

(** ** Lemmas: the channel *)
Record channel_ok (a : ChannelAuthority) (c : Channel) : Prop := {
  co_parent : ep_authority (ch_parent c) = a;
  co_child : ep_authority (ch_child c) = a;
  co_history : exists R S part,
    Forall (sendable a) (R ++ S) /\ clean empty_ledger (R ++ S) /\
    ep_ledger (ch_parent c) = ledger_of (R ++ S) /\ ledgers_agree (ep_ledger (ch_child c)) (ledger_of R) /\
    ch_sent c = news empty_ledger (R ++ S) /\ ch_taken c = news empty_ledger R /\
    (ep_failed (ch_child c) = false -> in_flight a S part (ch_pipe c)) /\
    (ep_closed (ch_parent c) = false -> part = []);
  co_taken : forall s b, by_sequence (ep_ledger (ch_child c)) !! s = Some b ->
    decode_decision a b.1 = Ret b.2 /\ b.2 ∈ ch_taken c
}.

Lemma new_channel_ok a : channel_ok a (new_channel a).
Proof.
  split; [done|done| |by intros s b; simpl; rewrite lookup_empty].
  exists [], [], []. simpl. do 3 (split; [done|]). split; [|split; [done|]; split; [done|]; split; [|done]; intros _; split; [done|]; split; [done|by left]].
  split; [intros s; simpl; by rewrite !lookup_empty|done].
Qed.

Lemma mjoin_snoc (S : list ApprovalDecision) d : mjoin (payload_of <$> S ++ [d]) = mjoin (payload_of <$> S) ++ payload_of d.
Proof. rewrite fmap_app, join_app. simpl. by rewrite app_nil_r. Qed.

Lemma newly_sent_absorb (p : Parent) d :
  newly_sent p (with_ledger (absorb (ep_ledger p) d) p) d = if bool_decide (judged (ep_ledger p) d = fresh) then [d] else [].
Proof.
  unfold newly_sent, absorb. destruct (bool_decide (judged (ep_ledger p) d = fresh)) eqn:Hf; simpl.
  - rewrite lookup_insert_eq. apply bool_decide_eq_true, judge_fresh in Hf as (-> & _). by rewrite bool_decide_false.
  - by rewrite bool_decide_true.
Qed.

Lemma in_flight_snoc a S d pipe :
  in_flight a S [] pipe -> sendable a d -> in_flight a (S ++ [d]) [] (pipe ++ payload_of d).
Proof.
  intros (HS & -> & _) Hd. split; [|split; [|by left]].
  - apply Forall_app. split; [done|]. by constructor.
  - by rewrite mjoin_snoc, !app_nil_r.
Qed.
Lemma in_flight_part a S d pipe out tail :
  in_flight a S [] pipe -> sendable a d -> payload_of d = out ++ tail -> tail <> [] -> in_flight a S out (pipe ++ out).
Proof. intros (HS & -> & _) Hd Hp Ht. split; [done|]. split; [by rewrite app_nil_r|]. right. eauto. Qed.

Lemma send_ok a c busy evs d p pipe r :
  channel_ok a c -> decision_valid d = true -> parent_send busy evs d (ch_parent c, ch_pipe c) = ((p, pipe), r) ->
  channel_ok a (mkChannel p pipe (ch_child c) (ch_sent c ++ newly_sent (ch_parent c) p d) (ch_taken c)).
Proof.
  intros [Hp Hk (R & S & part & HF & Hcl & Hlp & Hag & Hse & Hta & Hfl & Hpt) Hb] Hv H.
  assert (Habort : forall e : Parent, newly_sent e (abort_endpoint e) d = []) by (intros e; unfold newly_sent; by rewrite bool_decide_true).
  apply operation_spec in H as [(e & -> & H1 & H2 & _)|(Hc & Hf & [(x & H & ->)|(e & s1 & H & -> & H1)])]; simpl in *.
  - subst p pipe. rewrite Habort, app_nil_r. split; [done|done| |done]. exists R, S, part. done.
  - apply send_frame_spec in H as [(_ & e & He & _)|(_ & Hs & Hj & H)]; [done| |done]. injection H as -> ->.
    rewrite Hp in Hs. rewrite newly_sent_absorb, Hlp in *. specialize (Hpt Hc). subst part.
    split; [done|done| |done]. exists R, (S ++ [d]), []. rewrite !app_assoc. simpl.
    split; [apply Forall_app; split; [done|by constructor]|].
    split; [apply clean_app; split; [done|]; simpl; done|].
    split; [by rewrite ledger_snoc|]. split; [done|].
    split; [rewrite news_app, Hse; simpl; by rewrite app_nil_r|]. split; [done|]. split; [|done].
    intros Hfc. apply in_flight_snoc; auto.
  - apply send_frame_spec in H as [(Hsp & e' & _ & Hout)|(Hr & _)]; [|done|done]. injection H1 as -> ->.
    rewrite Hsp, Habort, app_nil_r. specialize (Hpt Hc). subst part.
    split; [done|done| |done].
    destruct Hout as [->|(out & tail & Hs & -> & Hpl & Ht)]; [by exists R, S, []|].
    rewrite Hp in Hs. exists R, S, out. do 6 (split; [done|]). split; [|done].
    intros Hfc. eapply in_flight_part; eauto.
Qed.

Lemma receive_ok a c busy evs k pipe r :
  channel_ok a c -> child_receive busy evs (ch_child c, ch_pipe c) = ((k, pipe), r) ->
  channel_ok a (mkChannel (ch_parent c) pipe k (ch_sent c) (ch_taken c ++ newly_taken r)) /\
  r <> Raise ChannelProtocolError /\ (forall d, r = Ret (d, true) -> d ∈ ch_taken c).
Proof.
  intros [Hp Hk (R & S & part & HF & Hcl & Hlp & Hag & Hse & Hta & Hfl & Hpt) Hb] H.
  assert (Habort : forall e : Child, ep_failed (abort_endpoint e) = true) by done.
  apply operation_spec in H as [(e & -> & H1 & H2 & ->)|(Hc & Hf & Hcase)]; simpl in *.
  - subst k pipe. rewrite app_nil_r. split; [|done]. split; [done|done| |done]. exists R, S, part. done.
  - assert (Hnc : forall d, head S = Some d -> judged (ledger_of R) d <> conflict).
    { intros d Hd. destruct S as [|d' S']; [done|]. injection Hd as ->. by apply clean_app in Hcl as [_ [? _]]. }
    assert (Hdec : forall s b, by_sequence (ep_ledger (ch_child c)) !! s = Some b -> decode_decision a b.1 = Ret b.2)
      by (intros s b Hs; by destruct (Hb s b Hs)).
    destruct Hcase as [(x & H & ->)|(e & s1 & H & -> & H1)];
      apply (receive_frame_spec a _ _ (ledger_of R) _ _ _ S part Hk (Hfl Hf) Hag Hnc Hdec) in H.
    + destruct H as [(e & He & _)|(d & S' & -> & Hpi & Hjd)]; [done|]. simpl in *.
      pose proof (Hfl Hf) as (HFS & Hpipe & Hpp). apply Forall_cons in HFS as [Hd HFS].
      assert (Hnews : forall V, news empty_ledger (R ++ V) = news empty_ledger R ++ news (ledger_of R) V) by (intros; apply news_app).
      destruct Hjd as [(Hj & [= ->] & ->)|(Hj & [= ->] & -> & s & Hbs)].
      * split; [|done]. split; [done|done| |].
        -- exists (R ++ [d]), S', part. rewrite <- app_assoc. simpl.
           do 3 (split; [done|]). split; [rewrite ledger_snoc; unfold absorb; rewrite bool_decide_true by done; by apply note_agree|].
           split; [done|]. split; [rewrite Hnews, Hta; cbn [news]; by rewrite bool_decide_true|]. split; [|done]. intros _. done.
        -- simpl. intros s b [[<- <-]|[_ Hs]]%lookup_insert_Some; simpl.
           ++ split; [by apply sendable_frame|]. apply elem_of_app. right. by apply list_elem_of_singleton.
           ++ destruct (Hb s b Hs). split; [done|]. apply elem_of_app. by left.
      * rewrite app_nil_r. split.
        -- split; [done|done| |done]. exists (R ++ [d]), S', part. rewrite <- app_assoc. simpl.
           assert (Hjf : bool_decide (judged (ledger_of R) d = fresh) = false) by (apply bool_decide_false; congruence).
           do 3 (split; [done|]). split; [rewrite ledger_snoc; unfold absorb; by rewrite Hjf|].
           split; [done|]. split; [rewrite Hnews, Hta; cbn [news]; by rewrite Hjf, !app_nil_r|]. split; [|done]. intros _. done.
        -- split; [done|]. intros d' [= <-]. by destruct (Hb _ _ Hbs).
    + destruct H as [(e' & [= <-] & Hne & Hs1)|(d & S' & _ & _ & [(_ & ? & _)|(_ & ? & _)])]; [|done..].
      injection H1 as -> ->. rewrite Hs1, app_nil_r. split; [|split; [congruence|done]]. split; [done|done| |done].
      exists R, S, part. done.
Qed.

Lemma channel_step_ok a c c' : channel_step c c' -> channel_ok a c -> channel_ok a c'.
Proof.
  intros Hs Hok. destruct Hs as [busy evs d p pipe r Hv H|busy evs k pipe r H| |].
  - by eapply send_ok.
  - by eapply receive_ok.
  - destruct Hok as [Hp Hk (R & S & part & H) Hb]. split; [done|done| |done]. exists R, S, part. simpl. naive_solver.
  - destruct Hok as [Hp Hk (R & S & part & H) Hb]. split; [done|done| |done]. exists R, S, part. done.
Qed.

Lemma channel_reachable a c : rtc channel_step (new_channel a) c -> channel_ok a c.
Proof. intros H. exact (rtc_invariant _ _ _ _ (channel_step_ok a) H (new_channel_ok a)). Qed.

(** ** Properties *)

(** C30: The frame of a decision survives the wire. Whatever pieces the
    operating system takes from [_send_all] and hands to [_receive_exact], a
    completed send puts exactly the four-byte length and the canonical body on
    the pipe, the child reads exactly these back and leaves what follows, and
    decoding the body under the same authority gives the decision that was
    sent. *)
Theorem decision_survives_wire d payload body evs out pipe evs4 hd evs4' rest evsn body' evsn' rest' :
  decision_valid d = true -> encode_decision d = Ret (payload, body) ->
  send_all evs payload = (out, Ret tt) ->
  receive_exact evs4 4 (out ++ pipe) = (Ret (hd, evs4'), rest) ->
  receive_exact evsn (N.to_nat (of_be32 hd)) rest = (Ret (body', evsn'), rest') ->
  body' = body /\ rest' = pipe /\ decode_decision (dc_authority d) body' = Ret d.
Proof.
  intros Hv He Hs H4 Hn. destruct (decision_round_trip _ _ _ Hv He) as (Hd & Hp & _ & Hl).
  destruct (send_all_spec evs payload) as [[_ E]|(e & ? & E & _)]; rewrite Hs in E; [|done]. cbn [fst] in E. subst out.
  pose proof (receive_exact_spec evs4 4 (payload ++ pipe)) as S4. rewrite H4 in S4. destruct S4 as [S4 L4].
  rewrite Hp, <- app_assoc in S4. apply app_inj_1 in S4 as [<- <-]; [|by rewrite L4].
  rewrite be32_round_trip, Nat2N.id in Hn by done.
  pose proof (receive_exact_spec evsn (length body) (body ++ pipe)) as Sn. rewrite Hn in Sn. destruct Sn as [Sn Ln].
  apply app_inj_1 in Sn as [<- <-]; done.
Qed.

(** C7: The child takes each decision once and in order. In any run of sends,
    receives, closes and failures on either side, the decisions the child has
    returned as new are an initial part of those the parent has recorded as
    sent; both are in strictly increasing sequence with every delivery once,
    and carry the channel's own authority. *)
Theorem decisions_taken_once_in_order a c :
  rtc channel_step (new_channel a) c ->
  ch_taken c `prefix_of` ch_sent c /\
  StronglySorted (fun d e => (dc_sequence d < dc_sequence e)%Z) (ch_sent c) /\
  NoDup (delivery_id <$> ch_sent c) /\ Forall (fun d => dc_authority d = a) (ch_sent c).
Proof.
  intros [_ _ (R & S & part & HF & _ & _ & _ & Hs & Ht & _) _]%channel_reachable.
  destruct (ledger_news (R ++ S)) as [[Hso Hnd] _]. rewrite Hs, Ht. split; [rewrite news_app; by eexists|].
  split; [done|]. split; [done|]. apply (Forall_impl (sendable a)); [|by intros d (_ & ? & _)].
  rewrite Forall_forall in HF |- *. intros d Hd. apply HF. clear -Hd. revert Hd. generalize (@empty_ledger (list N)).
  induction (R ++ S) as [|e W IH]; intros l; simpl; [done|].
  intros [Hd|Hd]%elem_of_app; [|apply elem_of_cons; right; by eapply IH].
  destruct (bool_decide _); [apply list_elem_of_singleton in Hd as ->|by apply not_elem_of_nil in Hd].
  apply elem_of_cons. by left.
Qed.

(** C34: The child never rejects what its parent sent. In any run a receive does
    not raise a protocol error: no frame is malformed, changed, stale or in
    conflict, even when the parent repeats a decision or fails in the middle of
    a frame; and a receive that reports a duplicate reports a decision the
    child has already taken. *)
Theorem child_never_rejects_parent a c busy evs s r :
  rtc channel_step (new_channel a) c -> child_receive busy evs (ch_child c, ch_pipe c) = (s, r) ->
  r <> Raise ChannelProtocolError /\ (forall d, r = Ret (d, true) -> d ∈ ch_taken c).
Proof.
  intros Hr H. destruct s as [k pipe]. by apply (receive_ok a) in H as (_ & ? & ?); [|by apply channel_reachable].
Qed.

(** ** Witnesses *)
Definition demo_channel_authority : ChannelAuthority :=
  mkChannelAuthority (replicate 32 97%N) (u "task") (u "run") (u "s") (replicate 64 97%N).
Definition demo_decision (n : Z) : ApprovalDecision :=
  mkDecision demo_channel_authority n (u "a" ++ Z_to_str n) (u "call") (u "n") true 9000.
Definition demo_frame : list N * list N :=
  match encode_decision (demo_decision 1) with Ret p => p | Raise _ => ([], []) end.
Definition trickle (n : nat) : list io_event := replicate n (io_bytes 1).
Lemma demo_frame_ok : decision_valid (demo_decision 1) = true /\ encode_decision (demo_decision 1) = Ret demo_frame /\
  send_all (io_again :: trickle 600) demo_frame.1 = (demo_frame.1, Ret tt).
Proof. repeat split; vm_compute; reflexivity. Qed.
Definition demo_header : list N * list io_event * list N :=
  match receive_exact (trickle 5) 4 (demo_frame.1 ++ [7%N]) with (Ret (hd, evs), rest) => (hd, evs, rest) | _ => ([], [], []) end.
Definition demo_body : list N * list io_event * list N :=
  match receive_exact [io_bytes 9; io_again; io_bytes 1000] (N.to_nat (of_be32 demo_header.1.1)) demo_header.2 with
  | (Ret (bs, evs), rest) => (bs, evs, rest) | _ => ([], [], []) end.
Lemma demo_reads : receive_exact (trickle 5) 4 (demo_frame.1 ++ [7%N]) = (Ret demo_header.1, demo_header.2) /\
  receive_exact [io_bytes 9; io_again; io_bytes 1000] (N.to_nat (of_be32 demo_header.1.1)) demo_header.2 = (Ret demo_body.1, demo_body.2).
Proof. split; vm_compute; reflexivity. Qed.
Lemma decision_survives_wire_witness : decode_decision demo_channel_authority demo_body.1.1 = Ret (demo_decision 1).
Proof.
  destruct demo_frame_ok as (Hv & He & Hs). destruct demo_reads as [H4 Hn]. rewrite (surjective_pairing demo_frame) in He.
  rewrite (surjective_pairing demo_header.1) in H4. rewrite (surjective_pairing demo_body.1) in Hn.
  exact (proj2 (proj2 (decision_survives_wire (demo_decision 1) _ _ _ _ [7%N] _ _ _ _ _ _ _ _ Hv He Hs H4 Hn))).
Defined.

(** The parent sends two decisions and repeats the first; the child reads all. *)
Definition big : list io_event := replicate 4 (io_bytes 1000).
Definition send_to (d : ApprovalDecision) (c : Channel) : Channel :=
  let x := parent_send false big d (ch_parent c, ch_pipe c) in
  mkChannel x.1.1 x.1.2 (ch_child c) (ch_sent c ++ newly_sent (ch_parent c) x.1.1 d) (ch_taken c).
Definition receive_from (c : Channel) : Channel :=
  let x := child_receive false big (ch_child c, ch_pipe c) in
  mkChannel (ch_parent c) x.1.2 x.1.1 (ch_sent c) (ch_taken c ++ newly_taken x.2).
Lemma send_to_step d c : decision_valid d = true -> channel_step c (send_to d c).
Proof.
  intros Hv. unfold send_to. destruct (parent_send _ _ _ _) as [[p pipe] r] eqn:H. by eapply cs_send.
Qed.
Lemma receive_from_step c : channel_step c (receive_from c).
Proof. unfold receive_from. destruct (child_receive _ _ _) as [[p pipe] r] eqn:H. by eapply cs_receive. Qed.

Definition demo_channel1 : Channel := send_to (demo_decision 1) (send_to (demo_decision 2) (send_to (demo_decision 1) (new_channel demo_channel_authority))).
Definition demo_channel2 : Channel := receive_from (receive_from demo_channel1).
Lemma demo_decision_valid n : (1 <= n <= 2)%Z -> decision_valid (demo_decision n) = true.
Proof. intros H. assert (n = 1%Z \/ n = 2%Z) as [-> | ->] by lia; vm_compute; reflexivity. Qed.
Lemma demo_channel2_reached : rtc channel_step (new_channel demo_channel_authority) demo_channel2.
Proof.
  unfold demo_channel2, demo_channel1.
  do 2 (eapply rtc_r; [|apply receive_from_step]).
  do 3 (eapply rtc_r; [|apply send_to_step, demo_decision_valid; lia]). done.
Qed.
Lemma demo_taken : ch_taken demo_channel2 = [demo_decision 1; demo_decision 2] /\
  (child_receive false big (ch_child demo_channel2, ch_pipe demo_channel2)).2 = Ret (demo_decision 1, true).
Proof. split; vm_compute; reflexivity. Qed.
Lemma decisions_taken_once_in_order_witness : [demo_decision 1; demo_decision 2] `prefix_of` ch_sent demo_channel2.
Proof.
  destruct demo_taken as [<- _].
  exact (proj1 (decisions_taken_once_in_order demo_channel_authority demo_channel2 demo_channel2_reached)).
Defined.
Lemma child_never_rejects_parent_witness : demo_decision 1 ∈ ch_taken demo_channel2.
Proof.
  destruct demo_taken as [_ Hd].
  exact (proj2 (child_never_rejects_parent demo_channel_authority demo_channel2 false big _ _ demo_channel2_reached
    (pair_split _ _ Hd)) _ eq_refl).
Defined.

End ApprovalChannel.
