(* ===== verification/ApprovalHandoff.v ===== *)
(** * ApprovalHandoff: from the outbox to the child and back

    Models the code between the outbox ([ApprovalDelivery]) and the private
    channel ([ApprovalChannel]): of
    [src/agent_gateway/control_plane/autonomous_approval_delivery.py] the
    matching of a row with its run and request and
    [deliver_autonomous_approval_outbox]; of [autonomous_runner.py] the lookup
    of a run and [send_approval_decision]; all of [autonomous_approval_ack.py];
    of [control_plane/autonomous_approval_drainer.py] the delivery of one row,
    the recording of its failure, the drain loop and the retry back-off.

    The registry is the insertion-ordered dict of runs; a run holds its end of
    the channel and the bytes in flight. What the outside world answers during
    one delivery (clock readings, the audit writer, socket readiness, the
    roster, a continuation) is a [DeliveryIO]. The drain loop is a section over
    the attempt function, so its theorem covers every attempt and everything
    that runs while an attempt is suspended. *)
From Stdlib Require Import Sorting.Sorted.
From S2P Require Import Prelude ApprovalPolicy ApprovalStore ApprovalParking ApprovalLifecycle ApprovalDelivery Wire ApprovalChannel.
Import ApprovalPolicy ApprovalStore ApprovalParking ApprovalLifecycle ApprovalDelivery ApprovalChannel.

Module ApprovalHandoff.

(** ** Runs *)
Inductive run_state :=
| run_starting | run_queued | run_waiting | run_running | run_approval_pending | run_remediating
| run_awaiting_approval | run_continued | run_completed | run_failed | run_killed | run_interrupted | run_blocked.
#[global] Instance run_state_eq : EqDecision run_state.
Proof. solve_decision. Defined.

(** [AUTONOMOUS_RUN_STATE_CLASSIFICATION]: the active-process column. *)
Definition active_process (s : run_state) : bool :=
  match s with
  | run_starting | run_queued | run_waiting | run_running | run_approval_pending | run_remediating => true
  | _ => false
  end.

(** The fields of [AutonomousTask] the hand-off reads. [at_returncode] is
    [None] without a process, [Some None] while it runs. *)
Record AutonomousTask := mkTask {
  at_task_id : str;
  at_control_run_id : str;
  at_session_id : str;
  at_channel_id : str;
  at_user_id : str;
  at_owner_user_id : option str;
  at_channel : option str;
  at_launch_nonce : option str;
  at_state : run_state;
  at_returncode : option (option Z);
  at_continuation : option str;                 (* its approval id *)
  at_endpoint : option (Parent * list N)
}.
Definition with_endpoint (e : Parent * list N) (t : AutonomousTask) : AutonomousTask :=
  mkTask (at_task_id t) (at_control_run_id t) (at_session_id t) (at_channel_id t) (at_user_id t) (at_owner_user_id t)
    (at_channel t) (at_launch_nonce t) (at_state t) (at_returncode t) (at_continuation t) (Some e).

Record Handoff := mkHandoff {
  h_db : DeliveryDB;
  h_log : list str;                             (* the audit entries whose emission returned *)
  h_tasks : list (str * AutonomousTask)
}.

Inductive handoff_error :=
| HStore (e : store_error) | HChannel (e : channel_error)
| HRuntime | HValue | HPermission | HPermanent.

Abbreviation H := (SE Handoff handoff_error).
Definition need (b : bool) (e : handoff_error) : H unit := if b then se_ret tt else se_raise e.
Definition lift_store_outcome {X} (o : outcome store_error X) : outcome handoff_error X :=
  match o with Ret x => Ret x | Raise e => Raise (HStore e) end.
Definition on_db {X} (m : D X) : H X :=
  fun h => let '(d, r) := m (h_db h) in (mkHandoff d (h_log h) (h_tasks h), lift_store_outcome r).

(** What the outside answers during one delivery. *)
Record DeliveryIO := mkIO {
  io_now : nat -> Z;              (* successive clock readings *)
  io_emitter : bool;              (* an audit emitter is configured *)
  io_emit : str -> bool;          (* the emission of an entry returns *)
  io_admitted : bool;             (* the roster still has the owner *)
  io_continue : bool;             (* [continue_approval] delivered or had delivered *)
  io_busy : bool;                 (* another thread holds the endpoint *)
  io_still_running : bool;        (* the run accepts decisions inside the transaction *)
  io_socket : list io_event;
  io_error_text : str;            (* [type: message] of a failure *)
  io_task_id : bool               (* the task id matches [_AUTONOMOUS_TASK_ID_RE] *)
}.

Fixpoint task_get (k : str) (l : list (str * AutonomousTask)) : option AutonomousTask :=
  match l with [] => None | (k', t) :: l' => if bool_decide (k = k') then Some t else task_get k l' end.
Fixpoint task_set (k : str) (t : AutonomousTask) (l : list (str * AutonomousTask)) : list (str * AutonomousTask) :=
  match l with [] => [] | (k', t') :: l' => if bool_decide (k = k') then (k, t) :: l' else (k', t') :: task_set k t l' end.

(** [_find_by_control_run_id], with the key of the run. *)
Definition find_by_control_run_id (run : str) (l : list (str * AutonomousTask)) : option (str * AutonomousTask) :=
  match task_get run l with
  | Some t => Some (run, t)
  | None => head (filter (fun kt => at_control_run_id kt.2 = run) l)
  end.

(** [str(record.owner_user_id or "").strip()] *)
Definition owner_text (t : AutonomousTask) : str := py_strip (default [] (at_owner_user_id t)).

(** [_APPROVAL_DECISION_AUTONOMOUS_STATES] and the process check *)
Definition takes_decisions (t : AutonomousTask) : bool :=
  match at_state t with run_running | run_approval_pending | run_remediating => true | _ => false end
  && match at_returncode t with Some (Some _) => false | _ => true end.

(** [autonomous_run_accepts_approval_decisions] *)
Definition accepts_decisions (t : AutonomousTask) : bool :=
  match at_state t with
  | run_running | run_approval_pending | run_remediating | run_awaiting_approval | run_continued =>
    negb (is_none (at_continuation t)) || match at_returncode t with Some (Some _) => false | _ => true end
  | _ => false
  end.

(** [autonomous_decision_unavailable(record) is None] *)
Definition decision_available (t : AutonomousTask) : bool :=
  accepts_decisions t && (negb (is_none (at_continuation t)) || negb (is_none (at_endpoint t))).

Section handoff.
Context {env : StoreEnv}.

(** [_normalize_channel], [_channel_matches] *)
Definition normalize_channel (c : option str) : option str :=
  match c with
  | Some s => if bool_decide (py_strip s = []) then None else Some (str_lower (py_strip s))
  | None => None
  end.
Definition channel_matches (record_channel authenticated : option str) : bool :=
  match normalize_channel record_channel with
  | None => true
  | Some e => bool_decide (normalize_channel authenticated = Some e)
  end.

(** [require_matching_autonomous_delivery] *)
Definition delivery_for_run (t : AutonomousTask) (r : Delivery) (call nonce : str) : bool :=
  bool_decide (dv_authority (dv_terms r) =
    mkAuthority (at_task_id t) (at_control_run_id t) (at_session_id t) (at_channel_id t) call nonce).
Definition request_for_run (t : AutonomousTask) (q : ApprovalRequest) (aid call : str) : bool :=
  let i := rq_id q in
  bool_decide (approval_id i = aid) && bool_decide (tool_call_id i = call) && bool_decide (user_id i = owner_text t)
  && bool_decide (request_id i = at_control_run_id t) && bool_decide (run_id i = Some (at_control_run_id t))
  && bool_decide (session_id i = Some (at_session_id t)) && channel_matches (at_channel t) (Some (channel i))
  && bool_decide (decider_id (rq_state q) = Some (owner_text t)).
Definition require_matching (t : AutonomousTask) (r : Delivery) (q : ApprovalRequest) (aid call nonce : str)
    (approved_ : bool) : H unit :=
  let! _ := need (delivery_for_run t r call nonce) HRuntime in
  let! _ := need (eqb (dv_approved (dv_terms r)) approved_) HValue in
  let! _ := need (negb (bool_decide (owner_text t = []))) HValue in
  let! _ := need (request_for_run t q aid call) HRuntime in
  need (bool_decide (state (rq_state q) = decision_state approved_)) HRuntime.

(** ** Audit, without interruption *)
Fixpoint emit_all (io : DeliveryIO) (es : list str) : H unit :=
  match es with
  | [] => se_ret tt
  | e :: es' =>
    let! _ := need (io_emit io e) HRuntime in
    let! h := se_get in
    let! _ := se_put (mkHandoff (h_db h) (e :: h_log h) (h_tasks h)) in
    emit_all io es'
  end.

(** [ensure_autonomous_approval_delivery_audited] *)
Definition ensure_audited (io : DeliveryIO) (aid call nonce : str) : H Delivery :=
  let! plan := on_db (audit_plan aid call nonce) in
  match plan.2 with
  | None => se_ret plan.1
  | Some p =>
    let! _ := need (io_emitter io) HRuntime in
    let! _ := emit_all io (plan_entries p) in
    on_db (audit_commit (io_now io 0) aid call nonce p)
  end.

(** ** Publication *)
Definition run_authority (t : AutonomousTask) (launch_nonce : str) : ChannelAuthority :=
  mkChannelAuthority launch_nonce (at_task_id t) (at_control_run_id t) (at_session_id t) (at_channel_id t).

Definition is_sent (p : Parent) (d : ApprovalDecision) : bool :=
  match require_sent d p with Ret _ => true | Raise _ => false end.

Inductive delivery_status := delivered | duplicated | reconciled.

(** [publish] of [send_approval_decision]: the outbox transaction around the
    send; when it raises although the decision was sent, the row is reconciled.
    [BEGIN IMMEDIATE] excludes every other writer, so nothing interleaves. *)
Definition publish (io : DeliveryIO) (aid call nonce : str) (approved_ : bool) (dec : ApprovalDecision)
    (s : DeliveryDB * (Parent * list N)) : DeliveryDB * (Parent * list N) * outcome handoff_error delivery_status :=
  let '(d, ep) := s in
  let already := is_sent ep.1 dec in
  let '(ep', attempt) :=
    match append_check aid call nonce approved_ d with
    | (_, Raise e) => (ep, (d, Raise (HStore e)))
    | (_, Ret _) =>
      if negb (io_still_running io) then (ep, (d, Raise HRuntime))
      else match parent_send (io_busy io) (io_socket io) dec ep with
           | (ep', Raise e) => (ep', (d, Raise (HChannel e)))
           | (ep', Ret _) =>
             (ep', match append_transaction (io_now io 1) aid call nonce approved_ (Ret tt) d with
                   | (d', r) => (d', lift_store_outcome r)
                   end)
           end
    end in
  match attempt with
  | (d', Ret _) => (d', ep', Ret (if already then duplicated else delivered))
  | (_, Raise e) =>
    if is_sent ep'.1 dec
    then match reconcile_duplicate (io_now io 2) aid call nonce approved_ d with
         | (d', Ret _) => (d', ep', Ret reconciled)
         | (d', Raise e') => (d', ep', Raise (HStore e'))
         end
    else (d, ep', Raise e)
  end.

(** [send_approval_decision] *)
Definition send_approval_decision (io : DeliveryIO) (run usr : str) (chan : option str) (aid call nonce : str)
    (approved_ : bool) (decided_ns seq : Z) : H delivery_status :=
  let! h := se_get in
  match find_by_control_run_id run (h_tasks h) with
  | None => se_raise HValue
  | Some (key, t) =>
    let! _ := need (negb (bool_decide (owner_text t = []))) HValue in
    let! _ := need (bool_decide (owner_text t = usr)) HPermission in
    let! _ := need (match at_channel t with None => true | Some c => bool_decide (normalize_channel chan = Some c) end) HPermission in
    let! _ := need (takes_decisions t) HRuntime in
    match at_endpoint t, at_launch_nonce t with
    | Some ep, Some ln =>
      let! _ := need (canonical_delivery_text 512 aid && canonical_delivery_text 512 call && canonical_delivery_text 512 nonce
                      && (0 <? decided_ns)%Z && (1 <=? seq)%Z) HValue in
      let dec := mkDecision (run_authority t ln) seq aid call nonce approved_ decided_ns in
      let! _ := need (decision_valid dec) HValue in
      let '(d', ep', r) := publish io aid call nonce approved_ dec (h_db h, ep) in
      let! _ := se_put (mkHandoff d' (h_log h) (task_set key (with_endpoint ep' t) (h_tasks h))) in
      se_lift r
    | _, _ => se_raise HRuntime
    end
  end.

(** [publish_to_child_inbox] *)
Definition publish_to_child_inbox (io : DeliveryIO) (t : AutonomousTask) (r : Delivery) (aid call nonce : str)
    (approved_ : bool) (usr : str) (chan : option str) : H unit :=
  if bool_decide (at_continuation t = Some aid) then
    let! _ := need (io_continue io) HRuntime in
    on_db (append_transaction (io_now io 1) aid call nonce approved_ (Ret tt))
  else
    let! _ := send_approval_decision io (at_control_run_id t) usr chan aid call nonce approved_
                (dv_decided_at_ns (dv_terms r)) (delivery_sequence (dv_terms r)) in
    se_ret tt.

(** [deliver_autonomous_approval_outbox]: a failed publication is recorded and
    raised again. *)
Definition deliver_outbox (io : DeliveryIO) (t : AutonomousTask) (q : ApprovalRequest) (r : Delivery)
    (aid call nonce : str) (approved_ : bool) (usr : str) (chan : option str) : H unit :=
  let! _ := require_matching t r q aid call nonce approved_ in
  match dv_state r with
  | d_published | d_acknowledged => se_ret tt
  | d_quarantined => se_raise HRuntime
  | d_pending =>
    let! r' := ensure_audited io aid call nonce in
    let! _ := require_matching t r' q aid call nonce approved_ in
    let! _ := need (dv_audit_ready r') HRuntime in
    match dv_state r' with
    | d_published | d_acknowledged => se_ret tt
    | d_quarantined => se_raise HRuntime
    | d_pending =>
      let! _ := need (decision_available t) HRuntime in
      fun h => match publish_to_child_inbox io t r' aid call nonce approved_ usr chan h with
               | (h', Ret x) => (h', Ret x)
               | (h', Raise e) =>
                 (let! _ := on_db (record_delivery_failure (io_now io 3) aid call nonce (io_error_text io)) in
                  se_raise e) h'
               end
    end
  end.

(** ** Acknowledgement *)
Definition ACK_FIELDS : list str :=
  [u "type"; u "launch_nonce"; u "delivery_sequence"; u "approval_id"; u "tool_call_id"; u "nonce"; u "task_id";
   u "control_run_id"; u "session_id"; u "channel_id"; u "approved"; u "allow_tool_type"; u "decided_at_ns"].

(** The decision an acknowledgement event names, or [None] if the event is
    malformed or of another run. *)
Definition ack_decision (t : AutonomousTask) (event : list (str * json)) : option ApprovalDecision :=
  if negb (forallb (fun kv => bool_decide (kv.1 ∈ ACK_FIELDS)) event && forallb (fun k => bool_decide (k ∈ event.*1)) ACK_FIELDS)
  then None
  else if negb (bool_decide (get_str (u "type") event = Some (u "approval_delivery_acknowledged"))) then None
  else
    aid ← get_str (u "approval_id") event; call ← get_str (u "tool_call_id") event; nonce ← get_str (u "nonce") event;
    ap ← get_bool (u "approved") event; seq ← get_int (u "delivery_sequence") event; at_ ← get_int (u "decided_at_ns") event;
    ln ← get_str (u "launch_nonce") event;
    let a := run_authority t ln in
    let d := mkDecision a seq aid call nonce ap at_ in
    if canonical_text 512 aid && canonical_text 512 call && canonical_text 512 nonce
       && (1 <=? seq)%Z && (1 <=? at_)%Z && bool_decide (get_bool (u "allow_tool_type") event = Some false)
       && bool_decide (get_str (u "task_id") event = Some (at_task_id t))
       && bool_decide (get_str (u "control_run_id") event = Some (at_control_run_id t))
       && bool_decide (get_str (u "session_id") event = Some (at_session_id t))
       && bool_decide (get_str (u "channel_id") event = Some (at_channel_id t))
       && decision_valid d && bool_decide (at_launch_nonce t = Some ln)
    then Some d else None.

(** The row is the delivery of exactly this decision, audited and out. *)
Definition row_of_decision (d : ApprovalDecision) (r : Delivery) : bool :=
  let tm := dv_terms r in
  let a := dc_authority d in
  bool_decide (dv_authority tm = mkAuthority (ca_task_id a) (ca_control_run_id a) (ca_session_id a) (ca_channel_id a)
                                   (dc_tool_call_id d) (dc_nonce d))
  && eqb (dv_approved tm) (dc_approved d) && (dv_decided_at_ns tm =? dc_decided_at_ns d)%Z
  && (delivery_sequence tm =? dc_sequence d)%Z && dv_audit_ready r.

(** [record.owner_user_id or record.user_id] *)
Definition ack_owner (t : AutonomousTask) : str :=
  match at_owner_user_id t with Some (c :: s) => c :: s | _ => at_user_id t end.

(** The durable request still is the decided one of this run. *)
Definition request_acknowledges (t : AutonomousTask) (d : ApprovalDecision) (q : ApprovalRequest) : bool :=
  let i := rq_id q in
  let st := decision_state (dc_approved d) in
  bool_decide (approval_id i = dc_approval_id d) && bool_decide (tool_call_id i = dc_tool_call_id d)
  && bool_decide (user_id i = ack_owner t) && bool_decide (request_id i = at_control_run_id t)
  && bool_decide (run_id i = Some (at_control_run_id t)) && bool_decide (session_id i = Some (at_session_id t))
  && bool_decide (Some (channel i) = at_channel t) && bool_decide (decider_id (rq_state q) = Some (ack_owner t))
  && bool_decide (state (rq_state q) = st) && bool_decide (decision (rq_state q) = Some st)
  && bool_decide (datetime_to_epoch_ns <$> decided_at (rq_state q) = Some (dc_decided_at_ns d)).

(** [require_durable_autonomous_approval_acknowledgement] *)
Definition acknowledge (io : DeliveryIO) (t : AutonomousTask) (event : list (str * json)) : H Delivery :=
  match ack_decision t event with
  | None => se_raise HRuntime
  | Some d =>
    match at_endpoint t with
    | None => se_raise HRuntime
    | Some ep =>
      let! _ := (match require_sent d ep.1 with Ret _ => se_ret tt | Raise e => se_raise (HChannel e) end) in
      let! h := se_get in
      let! _ := on_db (delivery_key (dc_approval_id d) (dc_tool_call_id d) (dc_nonce d)) in
      match find_delivery (h_db h) (dc_approval_id d) (dc_tool_call_id d) (dc_nonce d) with
      | None => se_raise HRuntime
      | Some r =>
        let! _ := need (row_of_decision d r && match dv_state r with d_published | d_acknowledged => true | _ => false end) HRuntime in
        match requests (d_store (h_db h)) !! dc_approval_id d with
        | None => se_raise HRuntime
        | Some row =>
          let! q := on_db (zoom (lift_policy (post_init row))) in
          let! _ := need (request_acknowledges t d q) HRuntime in
          let! r' := (if bool_decide (dv_state r = d_published)
                      then on_db (acknowledge_delivery (io_now io 0) (dc_approval_id d) (dv_authority (dv_terms r))
                                    (dc_approved d) (dc_decided_at_ns d))
                      else se_ret r) in
          let! _ := need (row_of_decision d r' && bool_decide (dv_state r' = d_acknowledged)
                          && negb (is_none (dv_acknowledged_at r'))) HRuntime in
          se_ret r'
        end
      end
    end
  end.

(** ** The drainer *)

(** [_deliver_one]: every refusal is permanent, everything else is as it was
    raised. The row's own fields are typed, so their checks are the empty-text
    ones. *)
Definition deliver_one (io : DeliveryIO) (aid : str) (r : Delivery) : H unit :=
  let a := dv_authority (dv_terms r) in
  let call := au_tool_call_id a in
  let nonce := au_nonce a in
  let ap := dv_approved (dv_terms r) in
  let! _ := need (negb (bool_decide (au_task_id a = []))) HPermanent in
  let! h := se_get in
  match task_get (au_task_id a) (h_tasks h) with
  | None => se_raise HPermanent
  | Some t =>
    let! _ := need (accepts_decisions t) HPermanent in
    let! _ := need (bool_decide (owner_text t = []) || io_admitted io) HPermanent in
    let! _ := need (negb (bool_decide (aid = [])) && negb (bool_decide (call = [])) && negb (bool_decide (nonce = []))) HPermanent in
    match requests (d_store (h_db h)) !! aid with
    | None => se_raise HPermanent
    | Some row =>
      let! q := on_db (zoom (lift_policy (post_init row))) in
      let! _ := (fun h => match require_matching t r q aid call nonce ap h with
                          | (h', Ret x) => (h', Ret x)
                          | (h', Raise _) => (h', Raise HPermanent)
                          end) in
      deliver_outbox io t q r aid call nonce ap (owner_text t) (Some (channel (rq_id q)))
    end
  end.

(** How one attempt of the drain ended. *)
Inductive attempt_result :=
| at_done                 (* delivered, or failed and no longer pending *)
| at_undelivered          (* failed, recorded, still pending *)
| at_unrecorded           (* the store did not record the failure *)
| at_owner_failed.        (* quarantined; the owner run is failed *)

(** [_record_failure]: nothing is recorded for a row that is gone, acknowledged
    or already counted. *)
Definition drain_record_failure (io : DeliveryIO) (aid : str) (r : Delivery) : H (option Delivery) :=
  let a := dv_authority (dv_terms r) in
  let! _ := on_db (delivery_key aid (au_tool_call_id a) (au_nonce a)) in
  let! h := se_get in
  match find_delivery (h_db h) aid (au_tool_call_id a) (au_nonce a) with
  | None => se_ret None
  | Some cur =>
    if bool_decide (dv_state cur = d_acknowledged) || (dv_attempt_count r <? dv_attempt_count cur)%Z then se_ret (Some cur)
    else
      let! out := on_db (record_delivery_failure (io_now io 4) aid (au_tool_call_id a) (au_nonce a) (io_error_text io)) in
      se_ret (Some out)
  end.

(** [fail_autonomous_approval_delivery]: the run fails and its channel closes. *)
Definition failed_task (t : AutonomousTask) : AutonomousTask :=
  mkTask (at_task_id t) (at_control_run_id t) (at_session_id t) (at_channel_id t) (at_user_id t) (at_owner_user_id t)
    (at_channel t) (at_launch_nonce t) run_failed (at_returncode t) (at_continuation t) None.
Definition fail_owner (io : DeliveryIO) (task : str) (h : Handoff) : Handoff :=
  match task_get task (h_tasks h) with
  | Some t =>
    if io_task_id io && active_process (at_state t)
    then mkHandoff (h_db h) (h_log h) (task_set task (failed_task t) (h_tasks h)) else h
  | None => h
  end.

(** The body of the drain loop. *)
Definition drain_attempt (io : DeliveryIO) (aid : str) (r : Delivery) (h : Handoff) : Handoff * attempt_result :=
  let a := dv_authority (dv_terms r) in
  match deliver_one io aid r h with
  | (h1, Ret _) => (h1, at_done)
  | (h1, Raise HPermanent) =>
    match on_db (quarantine_delivery (io_now io 5) aid (au_tool_call_id a) (au_nonce a) (io_error_text io)) h1 with
    | (h2, Ret _) => (fail_owner io (au_task_id a) h2, at_owner_failed)
    | (h2, Raise _) => (h2, at_unrecorded)
    end
  | (h1, Raise _) =>
    match drain_record_failure io aid r h1 with
    | (h2, Raise _) => (h2, at_unrecorded)
    | (h2, Ret (Some cur)) => (h2, if bool_decide (dv_state cur = d_pending) then at_undelivered else at_done)
    | (h2, Ret None) => (h2, at_done)
    end
  end.

(** ** The drain loop

    [W] is whatever the drain runs in, [attempt] one attempt with everything
    that runs while it is suspended, [closing n] whether the coordinator is
    closing after [n] attempts. *)
Record DrainState (W : Type) := mkDrain {
  ds_world : W;
  ds_after : Z;
  ds_attempted : list Z;          (* sequences, in order *)
  ds_unrecorded : bool;
  ds_undelivered : bool
}.
Arguments mkDrain {W}. Arguments ds_world {W}. Arguments ds_after {W}. Arguments ds_attempted {W}.
Arguments ds_unrecorded {W}. Arguments ds_undelivered {W}.

Section drain.
Context {W : Type} (db_of : W -> DeliveryDB) (attempt : nat -> str -> Delivery -> W -> W * attempt_result).
Context (closing : nat -> bool).

(** [for delivery in deliveries] *)
Fixpoint drain_batch (high : Z) (rows : list (str * Delivery)) (s : DrainState W) : DrainState W * outcome handoff_error unit :=
  match rows with
  | [] => (s, Ret tt)
  | (aid, r) :: rows' =>
    let n := length (ds_attempted s) in
    let seq := delivery_sequence (dv_terms r) in
    if closing n then (s, Ret tt)
    else if negb ((ds_after s <? seq)%Z && (seq <=? high)%Z) then (s, Raise HRuntime)
    else
      let '(w', res) := attempt n aid r (ds_world s) in
      drain_batch high rows'
        (mkDrain w' seq (ds_attempted s ++ [seq])
           (match res with at_unrecorded => true | _ => ds_unrecorded s end)
           (match res with at_undelivered => true | _ => ds_undelivered s end))
  end.

(** [while after_sequence < high_water and not self._closing]; [None] is out of
    fuel. *)
Fixpoint drain_loop (fuel : nat) (high : Z) (s : DrainState W) : DrainState W * option (outcome handoff_error unit) :=
  match fuel with
  | O => (s, None)
  | S fuel =>
    if (ds_after s <? high)%Z && negb (closing (length (ds_attempted s))) then
      match list_pending (db_of (ds_world s)) (ds_after s) (Some high) with
      | [] => (s, Some (Ret tt))
      | rows =>
        match drain_batch high rows s with
        | (s', Raise e) => (s', Some (Raise e))
        | (s', Ret _) => drain_loop fuel high s'
        end
      end
    else (s, Some (Ret tt))
  end.

(** Each round moves past at least one sequence. *)
Definition drain_fuel (high : Z) : nat := S (Z.to_nat high).
Definition drain_start (w : W) : DrainState W := mkDrain w 0 [] false false.
End drain.

(** [drain_once]: the number of attempts, or the failure to report. *)
Definition drain_once (now_ns : Z) (closing : nat -> bool) (attempt : nat -> str -> Delivery -> Handoff -> Handoff * attempt_result)
    : Handoff -> Handoff * option (outcome handoff_error nat) :=
  fun h =>
    match on_db (recovery_window now_ns) h with
    | (h1, Raise e) => (h1, Some (Raise e))
    | (h1, Ret (high, _)) =>
      match drain_loop h_db attempt closing (drain_fuel high) high (drain_start h1) with
      | (s, None) => (ds_world s, None)
      | (s, Some (Raise e)) => (ds_world s, Some (Raise e))
      | (s, Some (Ret _)) =>
        (ds_world s, Some (if ds_unrecorded s || ds_undelivered s then Raise HRuntime else Ret (length (ds_attempted s))))
      end
    end.

(** [_record_drain_failure], [_arm_retry]: the delay after [n] failures, in
    seconds. *)
Definition retry_delay (n : nat) : Z := Z.min (2 ^ Z.of_nat (Nat.min (n - 1) 16)) 16.

(** ** Lemmas: the pending list *)
Lemma insert_by_sequence_perm x l : insert_by_sequence x l ≡ₚ x :: l.
Proof. induction l as [|y l IH]; [done|]. simpl. case_match; [done|]. rewrite IH. apply Permutation_swap. Qed.
Lemma sort_by_sequence_perm l : sort_by_sequence l ≡ₚ l.
Proof. induction l as [|x l IH]; [done|]. simpl. by rewrite insert_by_sequence_perm, IH. Qed.

Definition seq_of (kr : str * Delivery) : Z := delivery_sequence (dv_terms kr.2).
Lemma insert_by_sequence_sorted x l :
  StronglySorted (fun a b => (seq_of a <= seq_of b)%Z) l -> StronglySorted (fun a b => (seq_of a <= seq_of b)%Z) (insert_by_sequence x l).
Proof.
  induction 1 as [|y l Hs IH Hy]; simpl; [repeat constructor|].
  destruct (_ <=? _)%Z eqn:Hle; [apply Z.leb_le in Hle|apply Z.leb_gt in Hle].
  - constructor; [by constructor|]. constructor; [done|].
    eapply Forall_impl; [exact Hy|]. intros z Hz. unfold seq_of in *. lia.
  - constructor; [done|]. apply Forall_forall. intros z Hz. rewrite insert_by_sequence_perm in Hz.
    apply elem_of_cons in Hz as [->|Hz]; [unfold seq_of; lia|]. by eapply Forall_forall in Hy.
Qed.
Lemma sort_by_sequence_sorted l : StronglySorted (fun a b => (seq_of a <= seq_of b)%Z) (sort_by_sequence l).
Proof. induction l; simpl; [constructor|]. by apply insert_by_sequence_sorted. Qed.

Definition unique_sequences (d : DeliveryDB) : Prop :=
  forall k1 k2 r1 r2, d_outbox d !! k1 = Some r1 -> d_outbox d !! k2 = Some r2 ->
    delivery_sequence (dv_terms r1) = delivery_sequence (dv_terms r2) -> k1 = k2.

Lemma list_pending_elem d after high kr :
  kr ∈ list_pending d after (Some high) <->
  d_outbox d !! kr.1 = Some kr.2 /\ dv_state kr.2 = d_pending /\ (after < seq_of kr <= high)%Z.
Proof.
  unfold list_pending. rewrite sort_by_sequence_perm, list_elem_of_filter. destruct kr as [k r].
  rewrite elem_of_map_to_list. unfold pending_between, seq_of. simpl. rewrite !andb_true_iff, bool_decide_eq_true, Z.ltb_lt, Z.leb_le.
  naive_solver.
Qed.

Lemma list_pending_strict d after high :
  unique_sequences d -> StronglySorted (fun a b => (seq_of a < seq_of b)%Z) (list_pending d after (Some high)).
Proof.
  intros Hu. assert (Hin := fun kr => proj1 (list_pending_elem d after high kr)).
  assert (Hnd : NoDup (list_pending d after (Some high))).
  { unfold list_pending. rewrite sort_by_sequence_perm. apply NoDup_filter, NoDup_map_to_list. }
  pose proof (sort_by_sequence_sorted (filter (fun kr => pending_between after (Some high) kr = true) (map_to_list (d_outbox d)))) as Hs.
  fold (list_pending d after (Some high)) in Hs. revert Hs Hnd Hin. generalize (list_pending d after (Some high)).
  induction 1 as [|x l Hs IH Hx]; intros Hnd Hin; [constructor|]. apply NoDup_cons in Hnd as [Hxl Hnd].
  constructor; [apply IH; [done|]; intros kr Hk; apply Hin; apply elem_of_cons; by right|].
  rewrite Forall_forall in Hx |- *. intros y Hy. specialize (Hx y Hy).
  destruct (decide (seq_of x = seq_of y)) as [E|]; [|lia]. exfalso. apply Hxl.
  destruct (Hin x) as [Kx _]; [apply elem_of_cons; by left|]. destruct (Hin y) as [Ky _]; [apply elem_of_cons; by right|].
  pose proof (Hu _ _ _ _ Kx Ky E) as Ek. destruct x as [kx rx], y as [ky ry]. simpl in *. subst ky.
  rewrite Kx in Ky. injection Ky as <-. done.
Qed.

(** ** Lemmas: the loop *)
Section drain_lemmas.
Context {W : Type} (db_of : W -> DeliveryDB) (attempt : nat -> str -> Delivery -> W -> W * attempt_result).
Context (closing : nat -> bool) (Inv : W -> Prop).
Context (inv_unique : forall w, Inv w -> unique_sequences (db_of w)).
Context (attempt_inv : forall n aid r w, Inv w -> Inv (attempt n aid r w).1 /\
  grows delivery_le (d_outbox (db_of w)) (d_outbox (db_of (attempt n aid r w).1))).

Definition drain_rel (high : Z) (s s' : DrainState W) : Prop :=
  Inv (ds_world s') /\ grows delivery_le (d_outbox (db_of (ds_world s))) (d_outbox (db_of (ds_world s'))) /\
  (ds_after s <= ds_after s')%Z /\
  exists l, ds_attempted s' = ds_attempted s ++ l /\
    StronglySorted Z.lt l /\ Forall (fun q => (ds_after s < q <= high)%Z /\ (q <= ds_after s')%Z) l.

Lemma drain_rel_refl high s : Inv (ds_world s) -> drain_rel high s s.
Proof.
  intros Hi. split; [done|]. split; [apply grows_refl, _|]. split; [lia|].
  exists []. rewrite app_nil_r. repeat constructor.
Qed.

Lemma grows_trans {X} (R : relation X) `{!Transitive R} m1 m2 m3 : grows R m1 m2 -> grows R m2 m3 -> grows R m1 m3.
Proof. intros H1 H2 k x Hx. destruct (H1 _ _ Hx) as (y & Hy & ?). destruct (H2 _ _ Hy) as (z & Hz & ?). exists z. split; [done|by etrans]. Qed.

Lemma drain_rel_trans high s1 s2 s3 : drain_rel high s1 s2 -> drain_rel high s2 s3 -> drain_rel high s1 s3.
Proof.
  intros (_ & G1 & A1 & l1 & E1 & S1 & F1) (I2 & G2 & A2 & l2 & E2 & S2 & F2).
  split; [done|]. split; [by eapply grows_trans; [apply _|..]|]. split; [lia|]. exists (l1 ++ l2). split; [by rewrite E2, E1, app_assoc|].
  rewrite Forall_forall in F1, F2. split.
  - clear E1 E2. induction S1 as [|x l S1 IH Hx]; [done|]. simpl. constructor.
    + apply IH. intros q Hq. apply F1, elem_of_cons. by right.
    + apply Forall_app. split; [done|]. apply Forall_forall. intros y Hy.
      destruct (F1 x) as [_ ?]; [apply elem_of_cons; by left|]. destruct (F2 y Hy) as [? _]. lia.
  - apply Forall_app. split; apply Forall_forall; intros q Hq.
    + destruct (F1 q Hq). lia.
    + destruct (F2 q Hq). lia.
Qed.

Lemma drain_batch_spec high rows s :
  Inv (ds_world s) -> StronglySorted (fun a b => (seq_of a < seq_of b)%Z) rows ->
  Forall (fun kr => (ds_after s < seq_of kr <= high)%Z) rows ->
  (drain_batch attempt closing high rows s).2 = Ret tt /\
  drain_rel high s (drain_batch attempt closing high rows s).1 /\
  ((exists n, closing n = true /\ n = length (ds_attempted (drain_batch attempt closing high rows s).1)) \/
   forall kr, kr ∈ rows -> seq_of kr ∈ ds_attempted (drain_batch attempt closing high rows s).1) /\
  (rows <> [] -> closing (length (ds_attempted s)) = false -> (ds_after s < ds_after (drain_batch attempt closing high rows s).1)%Z).
Proof.
  intros Hi Hs. revert s Hi. induction Hs as [|[aid r] rows Hs IH Hx]; intros s Hi Hf.
  { simpl. split; [done|]. split; [by apply drain_rel_refl|]. split; [|done]. right. by intros ? ?%not_elem_of_nil. }
  apply Forall_cons in Hf as [Hseq Hf]. cbn [drain_batch]. unfold seq_of in Hseq. simpl in Hseq.
  destruct (closing (length (ds_attempted s))) eqn:Hc.
  { simpl. split; [done|]. split; [by apply drain_rel_refl|]. split; [|done]. left. eauto. }
  replace ((ds_after s <? delivery_sequence (dv_terms r))%Z) with true by (symmetry; apply Z.ltb_lt; lia).
  replace ((delivery_sequence (dv_terms r) <=? high)%Z) with true by (symmetry; apply Z.leb_le; lia).
  cbn [andb negb]. pose proof (attempt_inv (length (ds_attempted s)) aid r (ds_world s) Hi) as [Hi1 Hg1].
  destruct (attempt (length (ds_attempted s)) aid r (ds_world s)) as [w' res] eqn:Hat. simpl in Hi1, Hg1.
  set (s1 := mkDrain w' (delivery_sequence (dv_terms r)) (ds_attempted s ++ [delivery_sequence (dv_terms r)]) _ _).
  destruct (IH s1 Hi1) as (Hr & Hrel & Hall & _).
  { eapply Forall_impl; [apply (List.Forall_and Hx Hf)|]. intros kr [? ?]. unfold s1, seq_of in *. simpl in *. lia. }
  assert (H1 : drain_rel high s s1).
  { split; [done|]. split; [done|]. split; [simpl; lia|]. exists [delivery_sequence (dv_terms r)]. split; [done|].
    split; [repeat constructor|]. constructor; [simpl; lia|constructor]. }
  pose proof (drain_rel_trans _ _ _ _ H1 Hrel) as Htr. split; [done|]. split; [done|].
  destruct Hrel as (_ & _ & Haf & l & El & _). simpl in Haf. split; [|intros; lia].
  destruct Hall as [?|Hall]; [by left|]. right. intros kr [->|Hk]%elem_of_cons; [|by apply Hall].
  rewrite El. simpl. apply elem_of_app. left. apply elem_of_app. right. by apply list_elem_of_singleton.
Qed.

Lemma drain_loop_spec fuel high s :
  Inv (ds_world s) -> Z.to_nat (high - ds_after s) < fuel ->
  (drain_loop db_of attempt closing fuel high s).2 = Some (Ret tt) /\
  drain_rel high s (drain_loop db_of attempt closing fuel high s).1 /\
  ((exists n, closing n = true /\ n = length (ds_attempted (drain_loop db_of attempt closing fuel high s).1)) \/
   forall kr, kr ∈ list_pending (db_of (ds_world s)) (ds_after s) (Some high) ->
     seq_of kr ∈ ds_attempted (drain_loop db_of attempt closing fuel high s).1).
Proof.
  revert s. induction fuel as [|fuel IH]; intros s Hi Hfuel; [lia|]. cbn [drain_loop].
  destruct (ds_after s <? high)%Z eqn:Hlt; cbn [andb].
  2: { apply Z.ltb_ge in Hlt. simpl. split; [done|]. split; [by apply drain_rel_refl|]. right.
       intros kr (_ & _ & ?)%list_pending_elem. lia. }
  apply Z.ltb_lt in Hlt. destruct (closing (length (ds_attempted s))) eqn:Hc; cbn [negb].
  { simpl. split; [done|]. split; [by apply drain_rel_refl|]. left. eauto. }
  destruct (list_pending (db_of (ds_world s)) (ds_after s) (Some high)) as [|kr0 rows0] eqn:Hp.
  { simpl. split; [done|]. split; [by apply drain_rel_refl|]. right. by intros ? ?%not_elem_of_nil. }
  destruct (drain_batch_spec high (kr0 :: rows0) s Hi) as (Hr & Hrel & Hall & Hmove).
  { rewrite <- Hp. by apply list_pending_strict, inv_unique. }
  { apply Forall_forall. intros kr Hk. rewrite <- Hp in Hk. by apply list_pending_elem in Hk as (_ & _ & ?). }
  destruct (drain_batch attempt closing high (kr0 :: rows0) s) as [s1 r1]. simpl in Hr, Hrel, Hall, Hmove. subst r1.
  specialize (Hmove ltac:(done) Hc). destruct (IH s1) as (H2 & Hrel2 & Hall2).
  { by destruct Hrel. }
  { lia. }
  split; [done|]. split; [by eapply drain_rel_trans|].
  destruct Hall as [(n & Hn & ->)|Hall].
  - left. destruct fuel as [|fuel']; [lia|]. cbn [drain_loop] in *. rewrite Hn in *. cbn [negb] in *. rewrite andb_false_r in *. eauto.
  - right. intros kr Hk. destruct Hrel2 as (_ & _ & _ & l & El & _). rewrite El. apply elem_of_app. left. by apply Hall.
Qed.
End drain_lemmas.

(** ** Lemmas: what a delivery may do to the outbox *)
Definition handoff_ok (h : Handoff) : Prop := db_ok (h_log h) (h_db h).
Definition handoff_le (h h' : Handoff) : Prop :=
  handoff_ok h' /\ h_log h ⊆ h_log h' /\ grows delivery_le (d_outbox (h_db h)) (d_outbox (h_db h')).
Definition keeps {X} (m : H X) : Prop := forall h h' r, handoff_ok h -> m h = (h', r) -> handoff_le h h'.

Lemma handoff_le_refl h : handoff_ok h -> handoff_le h h.
Proof. intros Hok. split; [done|]. split; [done|]. apply grows_refl, _. Qed.
Lemma handoff_le_trans h1 h2 h3 : handoff_le h1 h2 -> handoff_le h2 h3 -> handoff_le h1 h3.
Proof.
  intros (_ & L1 & G1) (O2 & L2 & G2). split; [done|]. split; [by etrans|]. by eapply grows_trans; [apply _|..].
Qed.
Lemma handoff_le_db h d log tasks :
  handoff_ok h -> rtc (delivery_effect (h_log h)) (h_db h) d -> h_log h ⊆ log -> handoff_le h (mkHandoff d log tasks).
Proof.
  intros Hok He Hl. split; [|split; [done|by eapply effects_delivery_le]].
  apply (db_ok_log (h_log h)); [done|]. by apply (effects_db_ok _ _ _ He).
Qed.

Lemma keeps_pure {X} (m : H X) : (forall h, (m h).1 = h) -> keeps m.
Proof. intros Hm h h' r Hok Hr. specialize (Hm h). rewrite Hr in Hm. simpl in Hm. subst. by apply handoff_le_refl. Qed.
Lemma keeps_need b e : keeps (need b e).
Proof. apply keeps_pure. by destruct b. Qed.
Lemma keeps_raise {X} e : keeps (se_raise (A := X) e).
Proof. by apply keeps_pure. Qed.
Lemma keeps_ret {X} (x : X) : keeps (se_ret x).
Proof. by apply keeps_pure. Qed.
Lemma keeps_bind {X Y} (m : H X) (k : X -> H Y) : keeps m -> (forall x, keeps (k x)) -> keeps (se_bind m k).
Proof.
  intros Hm Hk h h' r Hok Hr. unfold se_bind in Hr. destruct (m h) as [h1 [x|e]] eqn:E.
  - pose proof (Hm _ _ _ Hok E) as L1. eapply handoff_le_trans; [exact L1|]. eapply Hk; [|exact Hr]. by destruct L1.
  - injection Hr as <- <-. by eapply Hm.
Qed.
Lemma keeps_get {Y} (k : Handoff -> H Y) : (forall h, keeps (k h)) -> keeps (se_bind se_get k).
Proof. intros Hk. apply keeps_bind; [by apply keeps_pure|done]. Qed.
Lemma keeps_db {X} (m : D X) :
  (forall log d d' r, db_ok log d -> m d = (d', r) -> rtc (delivery_effect log) d d') -> keeps (on_db m).
Proof.
  intros Hm h h' r Hok Hr. unfold on_db in Hr. destruct (m (h_db h)) as [d r0] eqn:E. injection Hr as <- <-.
  apply handoff_le_db; [done|by eapply Hm|done].
Qed.

Lemma read_effects {X} (m : D X) log d d' r : (forall d, (m d).1 = d) -> m d = (d', r) -> rtc (delivery_effect log) d d'.
Proof. intros Hm E. specialize (Hm d). rewrite E in Hm. simpl in Hm. by subst. Qed.
Lemma zoom_policy_same {X} (o : outcome policy_error X) d : (zoom (lift_policy o) d).1 = d.
Proof. destruct d, o; reflexivity. Qed.
Lemma check_same b e d : (check b e d).1 = d.
Proof. by destruct b. Qed.
Lemma reads_bind {X Y} (m : D X) (k : X -> D Y) :
  (forall d, (m d).1 = d) -> (forall x d, (k x d).1 = d) -> forall d, (se_bind m k d).1 = d.
Proof.
  intros Hm Hk d. unfold se_bind. specialize (Hm d). destruct (m d) as [d1 [x|e]]; simpl in *; subst; auto.
Qed.
Ltac reads_step :=
  match goal with
  | |- forall d, (check _ _ d).1 = d => intros; apply check_same
  | |- forall d, (delivery_key _ _ _ d).1 = d => intros; apply check_same
  | |- forall d, (zoom (lift_policy _) d).1 = d => intros; apply zoom_policy_same
  | |- forall d, (se_bind _ _ d).1 = d => apply reads_bind; [|intros ?]
  | |- forall d, ((match ?x with _ => _ end) d).1 = d => destruct x
  | |- forall d, (_ d).1 = d => by intros
  end.
Lemma audit_plan_same aid call n : forall d, (audit_plan aid call n d).1 = d.
Proof. unfold audit_plan. repeat reads_step. Qed.

Lemma emit_all_spec io es h h' r :
  emit_all io es h = (h', r) -> h_db h' = h_db h /\ h_tasks h' = h_tasks h /\ h_log h ⊆ h_log h' /\ (r = Ret tt -> es ⊆ h_log h').
Proof.
  revert h. induction es as [|e es IH]; intros h; cbn [emit_all]; [intros [= <- <-]; set_solver|].
  unfold se_bind at 1, need. destruct (io_emit io e); [|by intros [= <- <-]].
  unfold se_ret, se_bind, se_get, se_put. intros (Hd & Ht & Hl & Hr)%IH. simpl in *.
  split; [done|]. split; [done|]. split; [set_solver|]. intros ->. specialize (Hr eq_refl). set_solver.
Qed.

Lemma ensure_audited_keeps io aid call n : keeps (ensure_audited io aid call n).
Proof.
  intros h h' r Hok Hr. unfold ensure_audited, se_bind at 1, on_db at 1 in Hr.
  destruct (audit_plan aid call n (h_db h)) as [d r0] eqn:E. pose proof (audit_plan_same aid call n (h_db h)) as Hs.
  rewrite E in Hs. simpl in Hs. subst d. destruct h as [d log tasks]. simpl in *.
  destruct r0 as [[r0 [p|]]|e]; simpl in Hr; [|injection Hr as <- <-; by apply handoff_le_refl..].
  unfold se_bind at 1, need in Hr. destruct (io_emitter io); [|injection Hr as <- <-; by apply handoff_le_refl].
  unfold se_ret at 1, se_bind at 1 in Hr. destruct (emit_all io (plan_entries p) (mkHandoff d log tasks)) as [h1 r1] eqn:Em.
  apply emit_all_spec in Em as (Hd & Ht & Hl & Hin). simpl in *.
  assert (L1 : handoff_le (mkHandoff d log tasks) h1).
  { destruct h1 as [d1 log1 tasks1]. simpl in *. subst. by apply handoff_le_db. }
  destruct r1 as [[]|e]; [|by injection Hr as <- <-]. specialize (Hin eq_refl).
  eapply handoff_le_trans; [exact L1|]. destruct L1 as [Hok1 _]. unfold on_db in Hr.
  destruct (audit_commit _ _ _ _ _ _) as [d2 r2] eqn:Ec. injection Hr as <- <-. apply handoff_le_db; [done| |done].
  by eapply commit_effects.
Qed.

Lemma publish_effects log io aid call n ap dec d ep d' ep' r :
  publish io aid call n ap dec (d, ep) = (d', ep', r) -> rtc (delivery_effect log) d d'.
Proof.
  intros E. unfold publish in E.
  assert (Hap : forall d2 r2, append_transaction (io_now io 1) aid call n ap (Ret tt) d = (d2, r2) -> rtc (delivery_effect log) d d2).
  { intros d2 r2. apply append_effects. }
  assert (Hre : forall d2 r2, reconcile_duplicate (io_now io 2) aid call n ap d = (d2, r2) -> rtc (delivery_effect log) d d2).
  { intros d2 r2. apply duplicate_effects. }
  destruct (append_check aid call n ap d) as [d1 [x|e]].
  - destruct (negb (io_still_running io)); [|destruct (parent_send _ _ _ _) as [ep1 [x1|e1]]].
    + destruct (is_sent ep.1 dec); [|by injection E as <- _ _].
      destruct (reconcile_duplicate _ _ _ _ _ _) as [d2 [|]] eqn:Er; injection E as <- _ _; by eapply Hre.
    + destruct (append_transaction _ _ _ _ _ _ _) as [d2 [x2|e2]] eqn:Ea; simpl in E; [injection E as <- _ _; by eapply Hap|].
      destruct (is_sent ep1.1 dec); [|by injection E as <- _ _].
      destruct (reconcile_duplicate _ _ _ _ _ _) as [d3 [|]] eqn:Er; injection E as <- _ _; by eapply Hre.
    + destruct (is_sent ep1.1 dec); [|by injection E as <- _ _].
      destruct (reconcile_duplicate _ _ _ _ _ _) as [d3 [|]] eqn:Er; injection E as <- _ _; by eapply Hre.
  - destruct (is_sent ep.1 dec); [|by injection E as <- _ _].
    destruct (reconcile_duplicate _ _ _ _ _ _) as [d3 [|]] eqn:Er; injection E as <- _ _; by eapply Hre.
Qed.

Create HintDb keeps.
#[local] Hint Resolve keeps_need keeps_raise keeps_ret ensure_audited_keeps : keeps.
Ltac keep_step :=
  match goal with
  | |- keeps (se_bind se_get _) => apply keeps_get; intros ?
  | |- keeps (se_bind _ _) => apply keeps_bind; [|intros ?]
  | |- keeps (match ?x with _ => _ end) => destruct x
  | |- keeps (let '(_, _) := ?x in _) => destruct x
  | |- keeps _ => solve [eauto with keeps]
  end.

Lemma require_matching_keeps t r q aid call n ap : keeps (require_matching t r q aid call n ap).
Proof. unfold require_matching. repeat keep_step. Qed.
Lemma delivery_key_keeps aid call n : keeps (on_db (delivery_key aid call n)).
Proof. apply keeps_db. intros log d d' r _. apply read_effects. intros. apply check_same. Qed.
Lemma load_keeps row : keeps (on_db (zoom (lift_policy (post_init row)))).
Proof. apply keeps_db. intros log d d' r _. apply read_effects. intros. apply zoom_policy_same. Qed.
Lemma append_keeps io aid call n ap b : keeps (on_db (append_transaction (io_now io 1) aid call n ap b)).
Proof. apply keeps_db. intros log d d' r _. apply append_effects. Qed.
Lemma failure_keeps now aid call n e : keeps (on_db (record_delivery_failure now aid call n e)).
Proof. apply keeps_db. intros log d d' r _. apply failure_effects. Qed.
Lemma quarantine_keeps now aid call n e : keeps (on_db (quarantine_delivery now aid call n e)).
Proof. apply keeps_db. intros log d d' r _. apply quarantine_effects. Qed.
Lemma acknowledge_keeps now aid a ap ns : keeps (on_db (acknowledge_delivery now aid a ap ns)).
Proof. apply keeps_db. intros log d d' r _. apply acknowledge_effects. Qed.
#[local] Hint Resolve require_matching_keeps delivery_key_keeps load_keeps append_keeps failure_keeps quarantine_keeps
  acknowledge_keeps : keeps.

Lemma keeps_at {X} (m : H X) h h' r : handoff_ok h -> keeps m -> m h = (h', r) -> handoff_le h h'.
Proof. intros Hok Hm. by apply Hm. Qed.

(** A chain of guards before the part that matters. *)
Lemma needs_at {X} b e (m : H X) h h' r :
  handoff_ok h -> (let! _ := need b e in m) h = (h', r) -> (m h = (h', r) -> handoff_le h h') -> handoff_le h h'.
Proof.
  intros Hok E Hm. unfold se_bind, need in E. destruct b; [by apply Hm|]. injection E as <- <-. by apply handoff_le_refl.
Qed.

Lemma send_keeps io run usr chan aid call n ap ns seq : keeps (send_approval_decision io run usr chan aid call n ap ns seq).
Proof.
  intros h h' r Hok Hr. unfold send_approval_decision, se_bind at 1, se_get in Hr.
  destruct (find_by_control_run_id run (h_tasks h)) as [[key t]|]; [|by apply (keeps_at _ _ _ _ Hok (keeps_raise _) Hr)].
  do 4 (eapply needs_at; [exact Hok|exact Hr|clear Hr; intros Hr]).
  destruct (at_endpoint t) as [ep|]; [|by apply (keeps_at _ _ _ _ Hok (keeps_raise _) Hr)].
  destruct (at_launch_nonce t) as [ln|]; [|by apply (keeps_at _ _ _ _ Hok (keeps_raise _) Hr)].
  eapply needs_at; [exact Hok|exact Hr|clear Hr; intros Hr]. cbv zeta in Hr.
  eapply needs_at; [exact Hok|exact Hr|clear Hr; intros Hr].
  destruct (publish _ _ _ _ _ _ _) as [[d' ep'] r'] eqn:Ep. unfold se_bind, se_put, se_lift in Hr. injection Hr as <- <-.
  apply handoff_le_db; [done|by eapply publish_effects|done].
Qed.
#[local] Hint Resolve send_keeps : keeps.

Lemma publish_inbox_keeps io t r aid call n ap usr chan : keeps (publish_to_child_inbox io t r aid call n ap usr chan).
Proof. unfold publish_to_child_inbox. repeat keep_step. Qed.

Lemma keeps_catch {X} (m : H X) (f : handoff_error -> H X) :
  keeps m -> (forall e, keeps (f e)) ->
  keeps (fun h => match m h with (h', Ret x) => (h', Ret x) | (h', Raise e) => f e h' end).
Proof.
  intros Hm Hf h h' r Hok E. destruct (m h) as [h1 [x|e]] eqn:Em.
  - injection E as <- <-. by eapply Hm.
  - pose proof (Hm _ _ _ Hok Em) as L1. eapply handoff_le_trans; [exact L1|]. eapply Hf; [|exact E]. by destruct L1.
Qed.

Lemma deliver_outbox_keeps io t q r aid call n ap usr chan : keeps (deliver_outbox io t q r aid call n ap usr chan).
Proof.
  unfold deliver_outbox. apply keeps_bind; [by auto with keeps|intros _]. destruct (dv_state r); [|by auto with keeps..].
  apply keeps_bind; [by auto with keeps|intros r']. do 2 (apply keeps_bind; [by auto with keeps|intros _]).
  destruct (dv_state r'); [|by auto with keeps..]. apply keeps_bind; [by auto with keeps|intros _].
  apply (keeps_catch _ (fun e => let! _ := on_db (record_delivery_failure (io_now io 3) aid call n (io_error_text io)) in se_raise e));
    [apply publish_inbox_keeps|]. intros e. repeat keep_step.
Qed.

Lemma deliver_one_keeps io aid r : keeps (deliver_one io aid r).
Proof.
  unfold deliver_one. cbv zeta. apply keeps_bind; [by auto with keeps|intros _]. apply keeps_get. intros h. destruct (task_get _ _); [|by auto with keeps].
  do 3 (keep_step; [by auto with keeps|]). destruct (requests _ !! aid); [|by auto with keeps].
  keep_step; [by auto with keeps|]. keep_step; [|apply deliver_outbox_keeps].
  apply (keeps_catch _ (fun _ => se_raise HPermanent)); auto with keeps.
Qed.

Lemma drain_failure_keeps io aid r : keeps (drain_record_failure io aid r).
Proof. unfold drain_record_failure. cbv zeta. repeat keep_step. Qed.

Lemma drain_attempt_keeps io aid r h : handoff_ok h -> handoff_le h (drain_attempt io aid r h).1.
Proof.
  intros Hok. unfold drain_attempt. cbv zeta. destruct (deliver_one io aid r h) as [h1 r1] eqn:E1.
  pose proof (deliver_one_keeps _ _ _ _ _ _ Hok E1) as L1. assert (Hok1 : handoff_ok h1) by by destruct L1.
  assert (Hrec : handoff_le h (match drain_record_failure io aid r h1 with
    | (h2, Raise _) => (h2, at_unrecorded)
    | (h2, Ret (Some cur)) => (h2, if bool_decide (dv_state cur = d_pending) then at_undelivered else at_done)
    | (h2, Ret None) => (h2, at_done) end).1).
  { destruct (drain_record_failure io aid r h1) as [h2 r2] eqn:E2. pose proof (drain_failure_keeps _ _ _ _ _ _ Hok1 E2) as L2.
    pose proof (handoff_le_trans _ _ _ L1 L2) as L. destruct r2 as [[cur|]|e]; exact L. }
  destruct r1 as [x|[]]; cbn [fst]; try assumption.
  destruct (on_db (quarantine_delivery _ _ _ _ _) h1) as [h2 r2] eqn:E2. pose proof (quarantine_keeps _ _ _ _ _ _ _ _ Hok1 E2) as L2.
  pose proof (handoff_le_trans _ _ _ L1 L2) as L. destruct r2; cbn [fst]; [|exact L].
  unfold fail_owner. destruct (task_get _ _); [|exact L]. destruct (_ && _); exact L.
Qed.

(** ** Lemmas: sent decisions *)
Lemma absorbed_sent a l d :
  sendable a d -> judged l d <> conflict ->
  by_sequence (absorb l d) !! dc_sequence d = Some (body_of d) /\ by_delivery (absorb l d) !! delivery_id d = Some (dc_sequence d).
Proof.
  intros _ Hj. unfold absorb. case_bool_decide as Hf; [simpl; by rewrite !lookup_insert_eq|].
  unfold judged, judge in Hj, Hf. destruct (by_sequence l !! dc_sequence d) as [b|].
  - destruct (bool_decide _) eqn:E1 in Hj; [|done]. destruct (bool_decide _) eqn:E2 in Hj; [|done].
    apply bool_decide_eq_true in E1, E2. unfold id in E1. by subst.
  - by case_match.
Qed.

Lemma send_marks_sent busy evs dec p pipe s r :
  decision_valid dec = true -> parent_send busy evs dec (p, pipe) = (s, r) ->
  (exists out, s.2 = pipe ++ out) /\ (r = Ret dec -> is_sent s.1 dec = true) /\ (forall x, r = Ret x -> x = dec).
Proof.
  intros Hv E. apply operation_spec in E as [(e & -> & _ & -> & _)|(_ & _ & [(x & E & ->)|(e & s1 & E & -> & ->)])]; simpl in *.
  - split; [exists []; by rewrite app_nil_r|done].
  - apply send_frame_spec in E as [(_ & e & He & _)|(-> & Hs & Hj & ->)]; [done| |done].
    split; [by eexists|]. split; [|by intros ? [= <-]]. intros _. simpl. unfold is_sent, require_sent.
    destruct (absorbed_sent _ _ _ Hs Hj) as [H1 H2]. destruct Hs as (_ & _ & ->). simpl. by rewrite H1, H2, !bool_decide_true.
  - apply send_frame_spec in E as [(_ & e' & _ & [->|(out & tail & _ & -> & _)])|(? & _)]; [|split; [by eexists|done]|done|done].
    split; [exists []; by rewrite app_nil_r|done].
Qed.

Lemma publish_row_finds now aid call n d d' r r0 :
  find_delivery d aid call n = Some r0 -> publish_row now aid call n d = (d', Ret r) ->
  find_delivery d' aid call n = Some r /\ dv_state r = d_published /\ dv_terms r = dv_terms r0.
Proof.
  intros Hf E. unfold publish_row in E.
  apply se_bind_ret in E as (txt & ? & (_ & _ & -> & _)%now_text_ret & E).
  apply se_bind_ret in E as (d0 & ? & Hg & E). injection Hg as <- <-.
  change (find_delivery (with_clock (Some now) d) aid call n) with (find_delivery d aid call n) in E. rewrite Hf in E.
  destruct (_ && _) eqn:Hc in E; [|done].
  apply se_bind_ret in E as (? & ? & [_ ->]%put_delivery_ret & E). injection E as <- <-.
  apply find_delivery_some in Hf as (_ & Hcall & Hn). split; [|done].
  unfold find_delivery. simpl. rewrite lookup_insert_eq. simpl. by rewrite Hcall, Hn, !bool_decide_true.
Qed.

Lemma append_finds now aid call n ap body d d' x :
  append_transaction now aid call n ap body d = (d', Ret x) ->
  exists r, find_delivery d' aid call n = Some r /\ dv_state r = d_published /\ dv_approved (dv_terms r) = ap.
Proof.
  intros E. unfold append_transaction in E. apply (proj1 (transact_ret _ _ _ _)) in E.
  apply se_bind_ret in E as (? & ? & Hc & E).
  apply se_bind_ret in E as (? & ? & [-> _]%se_lift_ret & E).
  apply se_bind_ret in E as (r & ? & Hp & E). injection E as -> _.
  unfold append_check in Hc. apply se_bind_ret in Hc as (? & ? & ->%delivery_key_ret & Hc).
  apply se_bind_ret in Hc as (d0 & ? & Hg & Hc). injection Hg as <- <-.
  destruct (find_delivery _ _ _ _) as [r0|] eqn:Hf; [|done].
  apply se_bind_ret in Hc as (? & ? & [-> Hap%eqb_prop]%check_ret & Hc).
  apply se_bind_ret in Hc as (? & ? & [-> _]%check_ret & Hc).
  apply se_bind_ret in Hc as (? & ? & [-> _]%check_ret & Hc). apply unfenced_ret in Hc as [-> _].
  destruct (publish_row_finds _ _ _ _ _ _ _ _ Hf Hp) as (? & ? & Ht). exists r. split; [done|]. split; [done|]. by rewrite Ht.
Qed.

Lemma duplicate_finds now aid call n ap d d' x :
  reconcile_duplicate now aid call n ap d = (d', Ret x) ->
  exists r, find_delivery d' aid call n = Some r /\ (dv_state r = d_published \/ dv_state r = d_acknowledged) /\ dv_approved (dv_terms r) = ap.
Proof.
  intros E. unfold reconcile_duplicate in E.
  apply se_bind_ret in E as (? & ? & ->%delivery_key_ret & E). apply (proj1 (transact_ret _ _ _ _)) in E.
  apply se_bind_ret in E as (d0 & ? & Hg & E). injection Hg as <- <-.
  destruct (find_delivery _ _ _ _) as [r0|] eqn:Hf; [|done].
  apply se_bind_ret in E as (? & ? & [-> Hap%eqb_prop]%check_ret & E).
  apply se_bind_ret in E as (? & ? & [-> _]%check_ret & E).
  destruct (dv_state r0) eqn:Hs; [|injection E as <- <-; exists r0; by auto..|done].
  apply se_bind_ret in E as (? & ? & [-> _]%unfenced_ret & E).
  destruct (publish_row_finds _ _ _ _ _ _ _ _ Hf E) as (? & ? & Ht). exists x. split; [done|]. split; [by left|]. by rewrite Ht.
Qed.

Lemma reconcile_raise now aid call n ap d d' e : reconcile_duplicate now aid call n ap d = (d', Raise e) -> d' = d.
Proof.
  unfold reconcile_duplicate, se_bind at 1. intros E. destruct (delivery_key aid call n d) as [d1 [x|e1]] eqn:Hk.
  - apply delivery_key_ret in Hk as ->. by apply transact_raise in E.
  - apply check_raise in Hk as ->. by injection E as <- _.
Qed.

Lemma high_water_bound d kr : kr ∈ map_to_list (d_outbox d) -> (delivery_sequence (dv_terms kr.2) <= high_water d)%Z.
Proof.
  unfold high_water. induction (map_to_list (d_outbox d)) as [|y m IH]; intros Hin; [by apply not_elem_of_nil in Hin|].
  simpl. apply elem_of_cons in Hin as [<-|Hin]; [lia|]. specialize (IH Hin). lia.
Qed.

(** ** Properties *)

(** Publication and outbox agree. When the publication of a decision
    returns, the parent's end of the channel has recorded exactly this decision
    as sent and the row is published (or already acknowledged) with the same
    decision; when it raises, the outbox is unchanged. Bytes are only ever
    appended to the pipe. *)
Theorem publication_exact io aid call n ap dec d p pipe d' ep r :
  decision_valid dec = true -> publish io aid call n ap dec (d, (p, pipe)) = (d', ep, r) ->
  (exists out, ep.2 = pipe ++ out) /\
  match r with
  | Ret _ => is_sent ep.1 dec = true /\ exists x, find_delivery d' aid call n = Some x /\
      (dv_state x = d_published \/ dv_state x = d_acknowledged) /\ dv_approved (dv_terms x) = ap
  | Raise _ => d' = d
  end.
Proof.
  intros Hv E. unfold publish in E.
  assert (Hrec : forall ep1 e, (exists out, ep1.2 = pipe ++ out) ->
    (if is_sent ep1.1 dec
     then match reconcile_duplicate (io_now io 2) aid call n ap d with
          | (d', Ret _) => (d', ep1, Ret reconciled)
          | (d', Raise e') => (d', ep1, Raise (HStore e'))
          end
     else (d, ep1, Raise e)) = (d', ep, r) ->
    (exists out, ep.2 = pipe ++ out) /\
    match r with
    | Ret _ => is_sent ep.1 dec = true /\ exists x, find_delivery d' aid call n = Some x /\
        (dv_state x = d_published \/ dv_state x = d_acknowledged) /\ dv_approved (dv_terms x) = ap
    | Raise _ => d' = d
    end).
  { intros ep1 e Hout Eq. destruct (is_sent ep1.1 dec) eqn:Hs; [|by injection Eq as <- <- <-].
    destruct (reconcile_duplicate _ _ _ _ _ _) as [d2 [x|e2]] eqn:Er; injection Eq as <- <- <-; split; try done.
    - split; [done|]. by eapply duplicate_finds.
    - by apply reconcile_raise in Er. }
  assert (H0 : exists out, (p, pipe).2 = pipe ++ out) by (exists []; by rewrite app_nil_r).
  destruct (append_check aid call n ap d) as [d1 [x|e]]; [|by eapply Hrec].
  destruct (negb (io_still_running io)); [by eapply Hrec|].
  destruct (parent_send _ _ _ _) as [ep1 r1] eqn:Es. destruct (send_marks_sent _ _ _ _ _ _ _ Hv Es) as (Hout & Hsent & Hx).
  destruct r1 as [x1|e1]; [|by eapply Hrec]. rewrite (Hx x1 eq_refl) in *.
  destruct (append_transaction _ _ _ _ _ _ _) as [d2 [x2|e2]] eqn:Ea; cbn [lift_store_outcome] in E; [|by eapply Hrec].
  injection E as <- <- <-. split; [done|]. split; [by apply Hsent|].
  destruct (append_finds _ _ _ _ _ _ _ _ _ Ea) as (y & ? & ? & ?). exists y. auto.
Qed.

(** One drain attempts every pending delivery once, in order, and ends.
    Whatever the attempts do and whatever else runs while they are suspended,
    the loop stops within its fuel without an ordering error, its attempts are
    in strictly increasing sequence up to the high water; and unless the
    coordinator is closing, every row of the outbox that is still pending when
    it stops has been attempted. *)
Theorem drain_attempts_each_pending_once now closing ios others h h1 high t :
  handoff_ok h -> (forall i x, handoff_ok x -> handoff_le x (others i x)) ->
  on_db (recovery_window now) h = (h1, Ret (high, t)) ->
  let attempt i aid r x := let '(x1, res) := drain_attempt (ios i) aid r x in (others i x1, res) in
  let s := drain_loop h_db attempt closing (drain_fuel high) high (drain_start h1) in
  s.2 = Some (Ret tt) /\ (drain_once now closing attempt h).2 <> None /\
  StronglySorted Z.lt (ds_attempted s.1) /\ Forall (fun q => (0 < q <= high)%Z) (ds_attempted s.1) /\
  ((forall i, closing i = false) ->
   forall aid r r', d_outbox (h_db h) !! aid = Some r -> d_outbox (h_db (ds_world s.1)) !! aid = Some r' ->
     dv_state r' = d_pending -> delivery_sequence (dv_terms r) ∈ ds_attempted s.1).
Proof.
  intros Hok Hoth Hw attempt s. subst s.
  assert (Hd1 : d_outbox (h_db h1) = d_outbox (h_db h) /\ high = high_water (h_db h) /\ handoff_ok h1).
  { unfold on_db in Hw. destruct (recovery_window now (h_db h)) as [d r0] eqn:E. destruct r0 as [x|]; [|done].
    injection Hw as <- ->. pose proof (window_effects (h_log h) _ _ _ _ E) as He.
    unfold recovery_window in E. apply (proj1 (transact_ret _ _ _ _)) in E.
    apply se_bind_ret in E as (tt0 & ? & (_ & _ & -> & _)%trusted_ret & E).
    apply se_bind_ret in E as (d0 & ? & Hg & E). injection Hg as <- <-. injection E as <- <- _.
    split; [done|]. split; [done|]. by apply (effects_db_ok _ _ _ He). }
  destruct Hd1 as (Hout & Hhigh & Hok1).
  pose proof (drain_loop_spec h_db attempt closing handoff_ok) as Hspec.
  specialize (Hspec (fun w Hw k1 k2 r1 r2 H1 H2 => wo_unique _ Hw k1 k2 r1 r2 H1 H2)).
  destruct (Hspec) with (fuel := drain_fuel high) (high := high) (s := drain_start h1) as (Hr & Hrel & Hall).
  { intros i aid r w Hi. unfold attempt. pose proof (drain_attempt_keeps (ios i) aid r w Hi) as L1.
    destruct (drain_attempt (ios i) aid r w) as [x1 res]. cbn [fst] in *. assert (Hx1 : handoff_ok x1) by by destruct L1.
    destruct (handoff_le_trans _ _ _ L1 (Hoth i x1 Hx1)) as (? & _ & ?). done. }
  { done. }
  { unfold drain_fuel, drain_start. simpl. lia. }
  split; [done|]. split.
  { unfold drain_once. rewrite Hw. cbn [fst snd]. destruct (drain_loop _ _ _ _ _ _) as [s' r']. simpl in Hr. subst r'. done. }
  destruct Hrel as (_ & Hgr & _ & l & El & Hso & Hfo). change (ds_attempted (drain_start h1)) with (@nil Z) in El. rewrite app_nil_l in El. rewrite El. split; [done|]. split.
  { eapply Forall_impl; [exact Hfo|]. intros q [? _]. simpl in *. lia. }
  intros Hnc aid r r' Hl Hl' Hp. destruct Hall as [(i & Hi & _)|Hall]; [by rewrite Hnc in Hi|].
  rewrite <- El. apply (Hall (aid, r)). apply list_pending_elem. simpl. rewrite <- Hout in Hl. split; [done|].
  destruct (Hgr _ _ Hl) as (r2 & Hr2 & Hle). assert (r2 = r') as -> by congruence.
  destruct Hle as (_ & Hrank & _). rewrite Hp in Hrank.
  split; [by destruct (dv_state r); simpl in Hrank; [|lia..]|].
  destruct (wo_rows _ Hok1 _ _ Hl) as (Hc & _ & _). unfold delivery_checks in Hc. bool_prop.
  repeat match goal with X : (_ <? _)%Z = true |- _ => apply Z.ltb_lt in X end. unfold seq_of. simpl. split; [done|].
  rewrite Hhigh. apply (high_water_bound (h_db h) (aid, r)). apply elem_of_map_to_list. by rewrite <- Hout.
Qed.

(** ** Lemmas: acknowledgement *)
Lemma acknowledge_stores now aid a ap ns d d' r :
  acknowledge_delivery now aid a ap ns d = (d', Ret r) ->
  d_outbox d' !! aid = Some r /\ dv_state r = d_acknowledged /\ d_store d' = d_store d.
Proof.
  intros E. unfold acknowledge_delivery in E.
  apply se_bind_ret in E as (? & ? & [-> _]%check_ret & E).
  apply se_bind_ret in E as (a1 & ? & [-> _]%se_lift_ret & E).
  apply se_bind_ret in E as (? & ? & [-> _]%check_ret & E). apply (proj1 (transact_ret _ _ _ _)) in E.
  apply se_bind_ret in E as (? & ? & ->%unreserved_zoom_ret & E).
  apply se_bind_ret in E as (txt & ? & (_ & _ & -> & _)%now_text_ret & E).
  apply se_bind_ret in E as (d0 & ? & Hg & E). injection Hg as <- <-.
  destruct (find_delivery _ _ _ _) as [r0|] eqn:Hf; [|done]. apply find_delivery_some in Hf as (Hf & _).
  apply se_bind_ret in E as (? & ? & [-> _]%check_ret & E).
  apply se_bind_ret in E as (? & ? & [-> _]%check_ret & E).
  destruct (dv_state r0) eqn:Hs; [done| |by injection E as <- <-|done].
  apply se_bind_ret in E as (? & ? & [_ ->]%put_delivery_ret & E). injection E as <- <-.
  split; [|done]. simpl. by rewrite lookup_insert_eq.
Qed.

Lemma need_ret b e h h' x : need b e h = (h', Ret x) -> h' = h /\ b = true.
Proof. destruct b; [by intros [= <- _]|done]. Qed.
Lemma on_db_ret {X} (m : D X) h h' x :
  on_db m h = (h', Ret x) -> exists d, m (h_db h) = (d, Ret x) /\ h' = mkHandoff d (h_log h) (h_tasks h).
Proof. unfold on_db. destruct (m (h_db h)) as [d [y|e]]; [intros [= <- <-]; eauto|done]. Qed.
Lemma handoff_same h : mkHandoff (h_db h) (h_log h) (h_tasks h) = h.
Proof. by destruct h. Qed.

Lemma load_ret row h h' q :
  on_db (zoom (lift_policy (post_init row))) h = (h', Ret q) -> h' = h /\ post_init row = Ret q.
Proof.
  intros (d & (s & [-> Hq]%lift_policy_ret & ->)%zoom_ret & ->)%on_db_ret.
  rewrite with_store_same, handoff_same. done.
Qed.

Lemma on_db_same {X} (m : D X) h : (forall d, (m d).1 = d) -> on_db m h = (h, lift_store_outcome (m (h_db h)).2).
Proof. intros Hm. unfold on_db. specialize (Hm (h_db h)). destruct (m (h_db h)) as [d r]. simpl in *. subst d. by rewrite handoff_same. Qed.

(** Everything an acknowledgement that returns has checked. *)
Lemma acknowledge_checks io t event h h' r :
  acknowledge io t event h = (h', Ret r) ->
  exists dec ep r0 row q,
    ack_decision t event = Some dec /\ at_endpoint t = Some ep /\ require_sent dec ep.1 = Ret tt /\
    d_outbox (h_db h) !! dc_approval_id dec = Some r0 /\
    (dv_state r0 = d_published \/ dv_state r0 = d_acknowledged) /\
    requests (d_store (h_db h)) !! dc_approval_id dec = Some row /\ post_init row = Ret q /\
    request_acknowledges t dec q = true /\ row_of_decision dec r = true /\ dv_state r = d_acknowledged /\
    d_outbox (h_db h') !! dc_approval_id dec = Some r /\ d_store (h_db h') = d_store (h_db h).
Proof.
  intros E. unfold acknowledge in E. destruct (ack_decision t event) as [dec|] eqn:Hd; [|done].
  destruct (at_endpoint t) as [ep|] eqn:He; [|done].
  apply se_bind_ret in E as ([] & h1 & Hs & E). destruct (require_sent dec ep.1) as [[]|] eqn:Hsent; [|done]. injection Hs as <-.
  apply se_bind_ret in E as (h0 & h2 & Hg & E). injection Hg as <- <-.
  apply se_bind_ret in E as ([] & h3 & (d & ->%delivery_key_ret & ->)%on_db_ret & E). rewrite handoff_same in E.
  destruct (find_delivery _ _ _ _) as [r0|] eqn:Hf; [|done]. apply find_delivery_some in Hf as (Hf & _).
  apply se_bind_ret in E as (? & h4 & [-> Hr0]%need_ret & E).
  destruct (requests _ !! _) as [row|] eqn:Hrow; [|done].
  apply se_bind_ret in E as (q & h5 & [-> Hq]%load_ret & E).
  apply se_bind_ret in E as (? & h6 & [-> Hqa]%need_ret & E).
  apply se_bind_ret in E as (r1 & h7 & Ha & E). apply se_bind_ret in E as (? & h8 & [-> Hr1]%need_ret & E). injection E as <- <-.
  apply andb_true_iff in Hr0 as [_ Hst]. apply andb_true_iff in Hr1 as [[Hr1 Hack%bool_decide_eq_true]%andb_true_iff _].
  exists dec, ep, r0, row, q. do 4 (split; [done|]). split; [destruct (dv_state r0); auto; done|].
  do 5 (split; [done|]). case_bool_decide as Hp.
  - apply on_db_ret in Ha as (d1 & (? & ? & ?)%acknowledge_stores & ->). done.
  - injection Ha as <- <-. done.
Qed.

(** An acknowledgement is exact. When the acknowledgement of an event
    returns, the event names a decision of this run which the parent's end of
    the channel has recorded as sent, the stored row is the published delivery
    of exactly that decision and is acknowledged now, and the stored request is
    the one of this run, decided that way at that time. *)
Theorem acknowledgement_exact io t event h h' r :
  acknowledge io t event h = (h', Ret r) ->
  exists dec ep r0 row q,
    ack_decision t event = Some dec /\ at_endpoint t = Some ep /\ is_sent ep.1 dec = true /\
    d_outbox (h_db h) !! dc_approval_id dec = Some r0 /\ (dv_state r0 = d_published \/ dv_state r0 = d_acknowledged) /\
    d_outbox (h_db h') !! dc_approval_id dec = Some r /\ row_of_decision dec r = true /\ dv_state r = d_acknowledged /\
    requests (d_store (h_db h')) !! dc_approval_id dec = Some row /\ post_init row = Ret q /\
    state (rq_state q) = decision_state (dc_approved dec) /\ run_id (rq_id q) = Some (at_control_run_id t).
Proof.
  intros (dec & ep & r0 & row & q & Hd & He & Hs & H0 & Hst & Hrow & Hq & Hqa & Hr & Ha & H1 & Hdb)%acknowledge_checks.
  exists dec, ep, r0, row, q. unfold is_sent. rewrite Hs, Hdb. unfold request_acknowledges in Hqa. bool_prop. done.
Qed.

Lemma unrestricted_acknowledge_raises io t event h : at_channel t = None -> exists e, acknowledge io t event h = (h, Raise e).
Proof.
  intros Ht. unfold acknowledge.
  destruct (ack_decision t event) as [dec|]; [|by eexists]. destruct (at_endpoint t) as [ep|]; [|by eexists].
  unfold se_bind, se_get. destruct (require_sent dec ep.1) as [[]|]; [|by eexists].
  unfold se_ret at 1. cbv iota beta zeta. rewrite on_db_same by (intros; apply check_same). destruct (delivery_key _ _ _ _).2 as [[]|e]; [|by eexists]. simpl.
  destruct (find_delivery _ _ _ _) as [r0|]; [|by eexists]. unfold need at 1. destruct (_ && _); [|by eexists]. simpl.
  destruct (requests _ !! _) as [row|]; [|by eexists].
  rewrite on_db_same by (intros; apply zoom_policy_same). destruct (zoom _ _).2 as [q|e]; [|by eexists]. simpl.
  assert (request_acknowledges t dec q = false) as ->; [|by eexists].
  unfold request_acknowledges. rewrite Ht. rewrite (bool_decide_eq_false_2 (Some _ = None)) by done.
  by rewrite !andb_false_r.
Qed.
Lemma task_get_set k t l t0 : task_get k l = Some t0 -> task_get k (task_set k t l) = Some t.
Proof.
  induction l as [|[k' t'] l IH]; simpl; [done|]. case_bool_decide; simpl; intros H1; [by rewrite bool_decide_true|].
  rewrite bool_decide_false by done. by apply IH.
Qed.
Lemma find_run_keyed run l k t : find_by_control_run_id run l = Some (k, t) -> exists t0, task_get k l = Some t0.
Proof.
  unfold find_by_control_run_id. destruct (task_get run l) as [t1|] eqn:E; [intros [= <- <-]; eauto|].
  intros (l' & H)%head_Some. assert ((k, t) ∈ l) as Hin.
  { assert ((k, t) ∈ filter (fun kt => at_control_run_id kt.2 = run) l) as Hf by (rewrite H; left). by apply list_elem_of_filter in Hf as [_ Hf]. }
  clear E H. induction l as [|[k' t'] l IH]; [by apply not_elem_of_nil in Hin|]. simpl. case_bool_decide; [eauto|].
  apply elem_of_cons in Hin as [[=]|Hin]; [done|auto].
Qed.

(** C38: A run launched without a channel gets its decisions but cannot
    acknowledge them. When [send_approval_decision] returns for such a run, for
    whatever channel the decider came from, the run's end of the channel has
    recorded the decision as sent, and the outbox row is published with that
    decision; but in every later state, every acknowledgement the run makes of any
    event raises and changes nothing, since the run's missing channel is compared
    with the text in the request. *)
Theorem unrestricted_run_cannot_acknowledge io run key t usr chan aid call nonce ap ns seq h h1 st :
  find_by_control_run_id run (h_tasks h) = Some (key, t) -> at_channel t = None ->
  send_approval_decision io run usr chan aid call nonce ap ns seq h = (h1, Ret st) ->
  exists t1 ep x,
    task_get key (h_tasks h1) = Some t1 /\ at_endpoint t1 = Some ep /\
    (exists ln, at_launch_nonce t = Some ln /\ is_sent ep.1 (mkDecision (run_authority t ln) seq aid call nonce ap ns) = true) /\
    find_delivery (h_db h1) aid call nonce = Some x /\ (dv_state x = d_published \/ dv_state x = d_acknowledged) /\
    dv_approved (dv_terms x) = ap /\
    forall io2 event h2, exists e, acknowledge io2 t1 event h2 = (h2, Raise e).
Proof.
  intros Hget Hch H. unfold send_approval_decision in H. unfold se_bind at 1, se_get in H.
  rewrite Hget in H. apply find_run_keyed in Hget as [t0 Hget].
  unfold se_bind at 1, need at 1 in H. destruct (negb _); [|done]. cbv beta iota delta [se_ret] in H.
  unfold se_bind at 1, need at 1 in H. case_bool_decide; [|done]. cbv beta iota delta [se_ret] in H.
  rewrite Hch in H. unfold se_bind at 1, need at 1 in H. cbv beta iota delta [se_ret] in H.
  unfold se_bind at 1, need at 1 in H. destruct (takes_decisions t); [|done]. cbv beta iota delta [se_ret] in H.
  destruct (at_endpoint t) as [ep|] eqn:He; [|done]. destruct (at_launch_nonce t) as [ln|] eqn:Hln; [|done].
  unfold se_bind at 1, need at 1 in H. destruct (_ && _) in H; [|done]. cbv beta iota delta [se_ret] zeta in H.
  unfold se_bind at 1, need at 1 in H. destruct (decision_valid _) eqn:Hv in H; [|done]. cbv beta iota delta [se_ret] in H.
  destruct ep as [p pipe]. destruct (publish _ _ _ _ _ _ _) as [[d' ep'] r] eqn:Ep. unfold se_bind, se_put, se_lift in H. injection H as <- ->.
  destruct (publication_exact _ _ _ _ _ _ _ _ _ _ _ _ Hv Ep) as (_ & Hs & x & Hx & Hst & Hap).
  exists (with_endpoint ep' t), ep', x. split; [by eapply task_get_set|]. split; [done|]. split; [by exists ln|].
  do 3 (split; [done|]). intros io2 event h2. by apply unrestricted_acknowledge_raises.
Qed.

Lemma error_text_refused type_name : canonical_delivery_text 512 (type_name ++ u ": ") = false.
Proof.
  unfold canonical_delivery_text. rewrite (bool_decide_eq_false_2 (_ = py_strip _)); [by rewrite andb_false_r|].
  change (type_name ++ u ": ") with (type_name ++ ([58%N] ++ [32%N])). rewrite app_assoc. by apply strip_not_trailing.
Qed.

(** A failure whose exception has no message cannot be recorded. The error
    text is the type, a colon, a space and the message; with an empty message
    it ends in a space, which the store refuses as not canonical. For a row the
    drainer has to count, the recording raises [ValueError] and changes nothing:
    the row keeps its attempt count and the attempt ends unrecorded. *)
Theorem empty_failure_message_unrecorded io type_name aid r cur h h1 e :
  io_error_text io = type_name ++ u ": " -> e <> HPermanent ->
  deliver_one io aid r h = (h1, Raise e) ->
  let a := dv_authority (dv_terms r) in
  delivery_key aid (au_tool_call_id a) (au_nonce a) (h_db h1) = (h_db h1, Ret tt) ->
  find_delivery (h_db h1) aid (au_tool_call_id a) (au_nonce a) = Some cur ->
  dv_state cur <> d_acknowledged -> (dv_attempt_count cur <= dv_attempt_count r)%Z ->
  drain_record_failure io aid r h1 = (h1, Raise (HStore StoreValueError)) /\ drain_attempt io aid r h = (h1, at_unrecorded).
Proof.
  intros Ht He Hd a Hk Hf Hs Hc.
  assert (Hrec : drain_record_failure io aid r h1 = (h1, Raise (HStore StoreValueError))).
  { unfold drain_record_failure, se_bind at 1. fold a. unfold on_db at 1. rewrite Hk. cbn [lift_store_outcome].
    rewrite handoff_same. unfold se_bind at 1, se_get. rewrite Hf, bool_decide_false by done.
    replace (dv_attempt_count r <? dv_attempt_count cur)%Z with false by (symmetry; apply Z.ltb_ge; lia). cbn [orb].
    unfold se_bind at 1, on_db, record_delivery_failure, se_bind at 1. rewrite Hk. unfold se_bind at 1, check.
    rewrite Ht, error_text_refused. cbn. by rewrite handoff_same. }
  split; [done|]. unfold drain_attempt. rewrite Hd, Hrec. by destruct e.
Qed.
End handoff.

(** ** Witnesses *)
#[local] Existing Instance demo_store_env.

Definition demo_dec : ApprovalDecision := mkDecision demo_channel_authority 1 (u "a") (u "call") (u "n") true 9000.
Definition demo_task (ep : Parent * list N) : AutonomousTask :=
  mkTask (u "task") (u "run") (u "s") (replicate 64 97%N) (u "bob") (Some (u "bob")) (Some (u "web"))
    (Some (replicate 32 97%N)) run_running (Some None) None (Some ep).
Definition demo_io : DeliveryIO :=
  mkIO (fun n => 30000 + Z.of_nat n)%Z true (fun _ => true) true true false true big (u "E: x") true.
Definition demo_endpoint : Parent * list N := (open_endpoint demo_channel_authority, []).
Definition demo_handoff : Handoff := mkHandoff demo_audited demo_log [(u "task", demo_task demo_endpoint)].
Lemma demo_handoff_ok : handoff_ok demo_handoff.
Proof. exact (proj1 (proj1 (world_db_ok _) (reachable_world_ok _ _ _ demo_audited_reached))). Qed.

Definition demo_publish := publish demo_io (u "a") (u "call") (u "n") true demo_dec (demo_audited, demo_endpoint).
Lemma demo_publish_ok : decision_valid demo_dec = true /\ demo_publish.2 = Ret delivered.
Proof. split; vm_compute; reflexivity. Qed.

Lemma publication_exact_witness : is_sent demo_publish.1.2.1 demo_dec = true.
Proof.
  destruct demo_publish_ok as [Hv Hr].
  refine (proj1 (proj2 (publication_exact demo_io (u "a") (u "call") (u "n") true demo_dec demo_audited
    (open_endpoint demo_channel_authority) [] demo_publish.1.1 demo_publish.1.2 (Ret delivered) Hv _))).
  rewrite <- Hr. unfold demo_publish. destruct (publish _ _ _ _ _ _ _) as [[d ep] r]. reflexivity.
Defined.

Definition demo_window := on_db (recovery_window 23000) demo_handoff.
Definition demo_window_out : Z * Z := match demo_window.2 with Ret x => x | Raise _ => (0, 0)%Z end.
Lemma demo_window_ok : demo_window = (demo_window.1, Ret demo_window_out) /\ demo_window_out.1 = 1%Z.
Proof. split; vm_compute; reflexivity. Qed.
Definition demo_attempt (i : nat) (aid : str) (r : Delivery) (x : Handoff) : Handoff * attempt_result :=
  let '(x1, res) := drain_attempt demo_io aid r x in (x1, res).

Lemma drain_attempts_each_pending_once_witness :
  (drain_loop h_db demo_attempt (fun _ => false) (drain_fuel demo_window_out.1) demo_window_out.1 (drain_start demo_window.1)).2 = Some (Ret tt).
Proof.
  destruct demo_window_ok as [Hw _]. rewrite (surjective_pairing demo_window_out) in Hw.
  exact (proj1 (drain_attempts_each_pending_once 23000 (fun _ => false) (fun _ => demo_io) (fun _ x => x) demo_handoff
    demo_window.1 _ _ demo_handoff_ok (fun _ x Hx => handoff_le_refl x Hx) Hw)).
Defined.

(** The run after the publication, and the child's event. *)
Definition demo_sent_task : AutonomousTask := demo_task demo_publish.1.2.
Definition demo_sent : Handoff := mkHandoff demo_publish.1.1 demo_log [(u "task", demo_sent_task)].
Definition demo_event : list (str * json) :=
  [(u "type", JStr (u "approval_delivery_acknowledged")); (u "launch_nonce", JStr (replicate 32 97%N));
   (u "delivery_sequence", JInt 1); (u "approval_id", JStr (u "a")); (u "tool_call_id", JStr (u "call"));
   (u "nonce", JStr (u "n")); (u "task_id", JStr (u "task")); (u "control_run_id", JStr (u "run"));
   (u "session_id", JStr (u "s")); (u "channel_id", JStr (replicate 64 97%N)); (u "approved", JBool true);
   (u "allow_tool_type", JBool false); (u "decided_at_ns", JInt 9000)].
Definition demo_ack_io : DeliveryIO := mkIO (fun _ => 40000)%Z true (fun _ => true) true true false true [] (u "E: x") true.
Definition demo_ack := acknowledge demo_ack_io demo_sent_task demo_event demo_sent.
Definition demo_acked_row : Delivery := match demo_ack.2 with Ret r => r | Raise _ => row_of demo_audited end.
Lemma demo_ack_ok : acknowledge demo_ack_io demo_sent_task demo_event demo_sent = (demo_ack.1, Ret demo_acked_row).
Proof. vm_compute. reflexivity. Qed.

Lemma acknowledgement_exact_witness : dv_state demo_acked_row = d_acknowledged.
Proof.
  pose proof (acknowledgement_exact demo_ack_io demo_sent_task demo_event demo_sent demo_ack.1 demo_acked_row demo_ack_ok) as Hx.
  destruct Hx as (dec & ep & r0 & row & q & _ & _ & _ & _ & _ & _ & _ & Ha & _). exact Ha.
Defined.

(** The same run without a channel: delivered, never acknowledged. *)
Definition demo_unrestricted : AutonomousTask :=
  mkTask (u "task") (u "run") (u "s") (replicate 64 97%N) (u "bob") (Some (u "bob")) None
    (Some (replicate 32 97%N)) run_running (Some None) None (Some demo_endpoint).
Definition demo_open_handoff : Handoff := mkHandoff demo_audited demo_log [(u "task", demo_unrestricted)].
Definition demo_open_sent := send_approval_decision demo_io (u "run") (u "bob") (Some (u "web")) (u "a") (u "call") (u "n") true 9000 1 demo_open_handoff.
Lemma demo_open_ok : demo_open_sent = (demo_open_sent.1, Ret delivered).
Proof. vm_compute. reflexivity. Qed.
Lemma unrestricted_run_cannot_acknowledge_witness :
  exists t1 x, find_delivery (h_db demo_open_sent.1) (u "a") (u "call") (u "n") = Some x /\
    (dv_state x = d_published \/ dv_state x = d_acknowledged) /\
    exists e, acknowledge demo_ack_io t1 demo_event demo_open_sent.1 = (demo_open_sent.1, Raise e).
Proof.
  destruct (unrestricted_run_cannot_acknowledge demo_io (u "run") (u "task") demo_unrestricted (u "bob") (Some (u "web")) (u "a") (u "call") (u "n") true 9000 1
    demo_open_handoff demo_open_sent.1 delivered eq_refl eq_refl demo_open_ok) as (t1 & ep & x & _ & _ & _ & Hx & Hs & _ & Hack).
  exists t1, x. split; [exact Hx|]. split; [exact Hs|exact (Hack demo_ack_io demo_event demo_open_sent.1)].
Defined.

(** The socket reports an exceptional state and the exception has no message. *)
Definition demo_mute_io : DeliveryIO :=
  mkIO (fun n => 30000 + Z.of_nat n)%Z true (fun _ => true) true true false false big (u "RuntimeError: ") true.
Definition demo_mute := deliver_one demo_mute_io (u "a") (row_of demo_audited) demo_handoff.
Definition demo_mute_error : handoff_error := match demo_mute.2 with Raise e => e | Ret _ => HPermanent end.
Lemma demo_mute_ok :
  deliver_one demo_mute_io (u "a") (row_of demo_audited) demo_handoff = (demo_mute.1, Raise demo_mute_error) /\
  match demo_mute_error with HPermanent => false | _ => true end = true /\
  d_outbox (h_db demo_mute.1) = d_outbox demo_audited.
Proof. split; [|split]; vm_compute; reflexivity. Qed.
Lemma demo_mute_row : find_delivery (h_db demo_mute.1) (u "a") (u "call") (u "n") = Some (row_of demo_audited) /\
  dv_authority (dv_terms (row_of demo_audited)) = demo_authority /\ dv_state (row_of demo_audited) = d_pending.
Proof. split; [|split]; vm_compute; reflexivity. Qed.
Lemma empty_failure_message_unrecorded_witness :
  drain_attempt demo_mute_io (u "a") (row_of demo_audited) demo_handoff = (demo_mute.1, at_unrecorded).
Proof.
  destruct demo_mute_ok as (Hd & He & _). destruct demo_mute_row as (Hf & Ha & Hs).
  apply (empty_failure_message_unrecorded demo_mute_io (u "RuntimeError") (u "a") (row_of demo_audited) (row_of demo_audited)
    demo_handoff demo_mute.1 demo_mute_error eq_refl).
  - intros E. rewrite E in He. discriminate He.
  - exact Hd.
  - rewrite Ha. reflexivity.
  - rewrite Ha. exact Hf.
  - rewrite Hs. discriminate.
  - apply Z.le_refl.
Defined.

End ApprovalHandoff.
