(* ===== verification/LaunchNonceStore.v ===== *)
(** * LaunchNonceStore: one-time consumption of launch nonces

    Models [src/agent_gateway/launch_nonce_store.py]. The SQLite file is a
    [NonceFile]: its [user_version], its schema objects (a definition text is
    the constant of the source it equals, or [other_ddl]), the metadata and
    clock tables and the admissions keyed by nonce, with the CHECK constraints
    of the table. A call receives a [ConsumeEnv]: the clock's three readings,
    what the file-identity checks raise, and the faults of the SQLite layer.
    [consume_transaction] is the part between [BEGIN IMMEDIATE] and [COMMIT];
    [consume_confirm] reads back after the commit, when other processes may
    already have run. Paths, file modes and sidecars are not modelled. *)
From stdpp Require Import sorting.
From S2P Require Import Prelude.

Module LaunchNonceStore.

Definition LAUNCH_NONCE_STORE_SCHEMA_VERSION : Z := 2.
Definition LAUNCH_NONCE_STORE_BUSY_TIMEOUT_MS : Z := 5000.
Definition LAUNCH_NONCE_STORE_PAGE_SIZE : Z := 4096.
Definition LAUNCH_NONCE_STORE_MAX_PAGE_COUNT : Z := 65536.
Definition LAUNCH_NONCE_STORE_MAX_ROWS : Z := 100000.
Definition LAUNCH_NONCE_STORE_CLEANUP_BATCH_SIZE : Z := 512.
Definition MAX_SQLITE_INTEGER : Z := 2 ^ 63 - 1.
Definition MAX_ID_TEXT_LENGTH : nat := 512.
Definition AUTONOMOUS_CAPABILITY_ENVELOPE_AUDIENCE : str := u "agent-gateway.autonomous-capability/v7".

Inductive nonce_error :=
| NonceValueError
| NonceUnicodeError
| LaunchNonceStoreError
| LaunchNonceStoreIdentityError
| LaunchNonceStoreUnavailable
| LaunchNonceReplay
| LaunchNonceExpired (consumed : bool)
| LaunchNonceClockRollback.

Abbreviation C X := (outcome nonce_error X).
Definition require (b : bool) (e : nonce_error) : C unit := if b then Ret tt else Raise e.

(** ** Validation *)

(** [_exact_integer]: [type(value) is int] excludes booleans. *)
Definition exact_integer (minimum : Z) (v : json) : C Z :=
  match v with
  | JInt z => if (z <? minimum)%Z || (MAX_SQLITE_INTEGER <? z)%Z then Raise NonceValueError else Ret z
  | _ => Raise NonceValueError
  end.

(** [_canonical_identifier] *)
Definition canonical_identifier (v : json) : C str :=
  match v with
  | JStr s =>
    if bool_decide (s = []) || negb (bool_decide (s = py_strip s)) || (MAX_ID_TEXT_LENGTH <? length s)
       || existsb (fun c => (c <? 32)%N) s
    then Raise NonceValueError else Ret s
  | _ => Raise NonceValueError
  end.

(** [re.fullmatch] of a run of exactly [n] lowercase hex digits *)
Definition hex_text (n : nat) (v : json) : C str :=
  match v with
  | JStr s => if (length s =? n) && forallb is_lower_hex s then Ret s else Raise NonceValueError
  | _ => Raise NonceValueError
  end.

Record LaunchNonceFacts := mkFacts {
  audience : str;
  nonce : str;
  task_id : str;
  control_run_id : str;
  owner_user_id : str;
  channel_id : str;
  issued_at_ns : Z;
  expires_at_ns : Z
}.
#[global] Instance LaunchNonceFacts_eq : EqDecision LaunchNonceFacts.
Proof. solve_decision. Defined.

(** [LaunchNonceFacts.__post_init__] *)
Definition make_facts (aud non task run owner chan issued expires : json) : C LaunchNonceFacts :=
  let? aud := (match aud with
               | JStr s => if bool_decide (s = AUTONOMOUS_CAPABILITY_ENVELOPE_AUDIENCE) then Ret s else Raise NonceValueError
               | _ => Raise NonceValueError
               end) in
  let? non := hex_text 32 non in
  let? task := canonical_identifier task in
  let? run := canonical_identifier run in
  let? owner := canonical_identifier owner in
  let? chan := hex_text 64 chan in
  let? issued := exact_integer 1 issued in
  let? expires := exact_integer 1 expires in
  if (expires <=? issued)%Z then Raise NonceValueError
  else Ret (mkFacts aud non task run owner chan issued expires).

(** [_closed_mapping]: exactly the expected keys. *)
Definition closed_mapping (fields : list str) (v : json) : C (list (str * json)) :=
  match v with
  | JDict d =>
    if (length d =? length fields) && forallb (fun k => bool_decide (is_Some (dict_get k d))) fields
    then Ret d else Raise NonceValueError
  | _ => Raise NonceValueError
  end.

Definition FACTS_FIELDS : list str :=
  [u "audience"; u "nonce"; u "task_id"; u "control_run_id"; u "owner_user_id"; u "channel_id";
   u "issued_at_ns"; u "expires_at_ns"].
Definition CONSUMED_NONCE_WIRE_FIELDS : list str := [u "receipt"; u "admitted_at_ns"].

(** [LaunchNonceFacts.from_mapping], [to_mapping] *)
Definition facts_from_mapping (v : json) : C LaunchNonceFacts :=
  let? d := closed_mapping FACTS_FIELDS v in
  make_facts (py_get (u "audience") d) (py_get (u "nonce") d) (py_get (u "task_id") d)
    (py_get (u "control_run_id") d) (py_get (u "owner_user_id") d) (py_get (u "channel_id") d)
    (py_get (u "issued_at_ns") d) (py_get (u "expires_at_ns") d).
Definition facts_to_mapping (f : LaunchNonceFacts) : json :=
  JDict [(u "audience", JStr (audience f)); (u "nonce", JStr (nonce f)); (u "task_id", JStr (task_id f));
         (u "control_run_id", JStr (control_run_id f)); (u "owner_user_id", JStr (owner_user_id f));
         (u "channel_id", JStr (channel_id f)); (u "issued_at_ns", JInt (issued_at_ns f));
         (u "expires_at_ns", JInt (expires_at_ns f))].

Record ConsumedLaunchNonce := mkConsumed { facts : LaunchNonceFacts; admitted_at_ns : Z }.

(** [ConsumedLaunchNonce.__post_init__] *)
Definition make_consumed (f : LaunchNonceFacts) (at_ : json) : C ConsumedLaunchNonce :=
  let? admitted := exact_integer 1 at_ in
  if (issued_at_ns f <=? admitted)%Z && (admitted <? expires_at_ns f)%Z
  then Ret (mkConsumed f admitted) else Raise NonceValueError.

(** [ConsumedLaunchNonce.from_wire], [to_wire] *)
Definition from_wire (v : json) : C ConsumedLaunchNonce :=
  let? d := closed_mapping CONSUMED_NONCE_WIRE_FIELDS v in
  let? f := facts_from_mapping (py_get (u "receipt") d) in
  make_consumed f (py_get (u "admitted_at_ns") d).
Definition to_wire (r : ConsumedLaunchNonce) : json :=
  JDict [(u "receipt", facts_to_mapping (facts r)); (u "admitted_at_ns", JInt (admitted_at_ns r))].

(** ** The file *)
Inductive object_type := otable | oindex | otrigger.
Inductive ddl :=
| METADATA_TABLE_SQL | CLOCK_TABLE_SQL | ADMISSIONS_TABLE_SQL | EXPIRY_INDEX_SQL
| NO_ADMISSION_UPDATE_TRIGGER_SQL | NO_METADATA_UPDATE_TRIGGER_SQL
| NO_METADATA_DELETE_TRIGGER_SQL | NO_CLOCK_DELETE_TRIGGER_SQL
| other_ddl (sql : str).
#[global] Instance object_type_eq : EqDecision object_type.
Proof. solve_decision. Defined.
#[global] Instance ddl_eq : EqDecision ddl.
Proof. solve_decision. Defined.

Record AdmissionRow := mkRow { r_schema_version : Z; r_facts : LaunchNonceFacts; r_admitted_at_ns : Z }.

Record NonceFile := mkFile {
  user_version : Z;
  objects : gmap str (object_type * ddl);
  metadata : list (list Z);
  clock : list (Z * Z);
  nonces : gmap str AdmissionRow
}.
Definition set_clock c db := mkFile (user_version db) (objects db) (metadata db) c (nonces db).
Definition set_nonces m db := mkFile (user_version db) (objects db) (metadata db) (clock db) m.

Definition SCHEMA_OBJECTS : gmap str (object_type * ddl) := list_to_map
  [(u "autonomous_admission_ledger_metadata", (otable, METADATA_TABLE_SQL));
   (u "ordinary_autonomous_launch_admissions", (otable, ADMISSIONS_TABLE_SQL));
   (u "autonomous_admission_ledger_clock", (otable, CLOCK_TABLE_SQL));
   (u "idx_autonomous_admissions_expiry", (oindex, EXPIRY_INDEX_SQL));
   (u "trg_autonomous_admission_no_update", (otrigger, NO_ADMISSION_UPDATE_TRIGGER_SQL));
   (u "trg_autonomous_admission_metadata_no_update", (otrigger, NO_METADATA_UPDATE_TRIGGER_SQL));
   (u "trg_autonomous_admission_metadata_no_delete", (otrigger, NO_METADATA_DELETE_TRIGGER_SQL));
   (u "trg_autonomous_admission_clock_no_delete", (otrigger, NO_CLOCK_DELETE_TRIGGER_SQL))].

(** SQLite's [length] stops at a NUL. *)
Fixpoint sql_length (s : str) : nat :=
  match s with [] => 0 | c :: s' => if (c =? 0)%N then 0 else S (sql_length s') end.
Definition id_check (s : str) : bool :=
  (1 <=? sql_length s) && (sql_length s <=? MAX_ID_TEXT_LENGTH) && bool_decide (s = sql_trim s).
Definition hex_check (n : nat) (s : str) : bool := (sql_length s =? n) && forallb is_lower_hex s.

(** The CHECK constraints of [_ADMISSIONS_TABLE_SQL]. *)
Definition admission_check (r : AdmissionRow) : bool :=
  let f := r_facts r in
  hex_check 32 (nonce f) && (r_schema_version r =? LAUNCH_NONCE_STORE_SCHEMA_VERSION)%Z
  && id_check (audience f) && id_check (task_id f) && id_check (control_run_id f) && id_check (owner_user_id f)
  && hex_check 64 (channel_id f) && (0 <? issued_at_ns f)%Z && (issued_at_ns f <? expires_at_ns f)%Z
  && (issued_at_ns f <=? r_admitted_at_ns r)%Z && (r_admitted_at_ns r <? expires_at_ns f)%Z.

(** [_expected_metadata], [_validate_policy_constants] *)
Definition expected_metadata : list Z :=
  [1; LAUNCH_NONCE_STORE_SCHEMA_VERSION; LAUNCH_NONCE_STORE_PAGE_SIZE; LAUNCH_NONCE_STORE_MAX_PAGE_COUNT;
   LAUNCH_NONCE_STORE_MAX_ROWS; LAUNCH_NONCE_STORE_CLEANUP_BATCH_SIZE]%Z.
Definition validate_policy_constants : C unit :=
  let within (t : Z * Z * Z) := let '(v, lo, hi) := t in (lo <=? v)%Z && (v <=? hi)%Z in
  let? _ := require (forallb within
    [(LAUNCH_NONCE_STORE_BUSY_TIMEOUT_MS, 1, 60000); (LAUNCH_NONCE_STORE_PAGE_SIZE, 512, 65536);
     (LAUNCH_NONCE_STORE_MAX_PAGE_COUNT, 16, 1073741823); (LAUNCH_NONCE_STORE_MAX_ROWS, 1, 1000000);
     (LAUNCH_NONCE_STORE_CLEANUP_BATCH_SIZE, 1, LAUNCH_NONCE_STORE_MAX_ROWS)]%Z) LaunchNonceStoreError in
  require (Z.land LAUNCH_NONCE_STORE_PAGE_SIZE (LAUNCH_NONCE_STORE_PAGE_SIZE - 1) =? 0)%Z LaunchNonceStoreError.

(** [_validate_schema] *)
Definition validate_schema (db : NonceFile) : C unit :=
  let? _ := require (user_version db =? LAUNCH_NONCE_STORE_SCHEMA_VERSION)%Z LaunchNonceStoreUnavailable in
  let? _ := require (bool_decide (objects db = SCHEMA_OBJECTS)) LaunchNonceStoreUnavailable in
  let? _ := require (bool_decide (metadata db = [expected_metadata])) LaunchNonceStoreUnavailable in
  match clock db with
  | [(singleton, last)] => require ((singleton =? 1)%Z && (0 <=? last)%Z) LaunchNonceStoreUnavailable
  | _ => Raise LaunchNonceStoreUnavailable
  end.

Abbreviation NS X := (SE NonceFile nonce_error X).

(** [_initialize_or_validate_schema] *)
Definition initialize_or_validate_schema : NS unit :=
  transact (
    let! db := se_get in
    let! _ := (if bool_decide (objects db = ∅)
               then se_put (mkFile LAUNCH_NONCE_STORE_SCHEMA_VERSION SCHEMA_OBJECTS [expected_metadata] [(1, 0)%Z] ∅)
               else se_ret tt) in
    let! db' := se_get in
    se_lift (validate_schema db')).

(** ** Consumption *)
Inductive connect_result := connected | connect_identity | connect_unavailable.

Record ConsumeEnv := mkConsumeEnv {
  clock_1 : json;  (* the three readings of [clock_ns] *)
  clock_2 : json;
  clock_3 : json;
  id_start : bool;                    (* whether each [_verify_identity] succeeds *)
  id_begun : bool;
  id_inserted : bool;
  id_committed : bool;
  id_end : bool;
  connect : connect_result;           (* [_connect] *)
  begin_fault : bool;                 (* [sqlite3.Error] of a statement *)
  insert_fault : bool;
  commit_fault : bool;
  close_fault : bool
}.

Definition verify_identity (ok : bool) : C unit := require ok LaunchNonceStoreIdentityError.
Definition connect_store (r : connect_result) : C unit :=
  match r with
  | connected => Ret tt
  | connect_identity => Raise LaunchNonceStoreIdentityError
  | connect_unavailable => Raise LaunchNonceStoreUnavailable
  end.
Definition sqlite_fault (b : bool) : NS unit := if b then se_raise LaunchNonceStoreUnavailable else se_ret tt.

(** [_wall_time_ns], [_ensure_live] *)
Definition wall_time_ns (v : json) : C Z := exact_integer 1 v.
Definition ensure_live (f : LaunchNonceFacts) (now : Z) (consumed : bool) : C unit :=
  if (now <? issued_at_ns f)%Z then Raise (LaunchNonceExpired consumed)
  else if (expires_at_ns f <=? now)%Z then Raise (LaunchNonceExpired consumed)
  else Ret tt.

(** [ORDER BY expires_at_ns, nonce]; the nonces compare as byte strings. *)
Fixpoint text_le (a b : str) : bool :=
  match a, b with
  | [], _ => true
  | _ :: _, [] => false
  | c :: a', d :: b' => (c <? d)%N || ((c =? d)%N && text_le a' b')
  end.
Definition expiry_le (a b : str * AdmissionRow) : Prop :=
  let ea := expires_at_ns (r_facts a.2) in let eb := expires_at_ns (r_facts b.2) in
  (ea <? eb)%Z || ((ea =? eb)%Z && text_le a.1 b.1) = true.
#[global] Instance expiry_le_dec : RelDecision expiry_le.
Proof. intros a b. unfold expiry_le. apply _. Defined.

Definition expired_row (now : Z) (kr : str * AdmissionRow) : Prop := (expires_at_ns (r_facts kr.2) <= now)%Z.
#[global] Instance expired_row_dec now kr : Decision (expired_row now kr).
Proof. unfold expired_row. apply _. Defined.

(** The nonces of the [DELETE]. *)
Definition swept (now : Z) (m : gmap str AdmissionRow) : list str :=
  (take (Z.to_nat LAUNCH_NONCE_STORE_CLEANUP_BATCH_SIZE)
     (merge_sort expiry_le (filter (expired_row now) (map_to_list m)))).*1.
Definition delete_all (ks : list str) (m : gmap str AdmissionRow) : gmap str AdmissionRow :=
  foldr delete m ks.

Definition surrogate_in (s : str) : bool := existsb (fun c => ((55296 <=? c) && (c <=? 57343))%N) s.
Definition unbindable (f : LaunchNonceFacts) : bool :=
  existsb surrogate_in [nonce f; audience f; task_id f; control_run_id f; owner_user_id f; channel_id f].

(** The [INSERT] and its handler: an [IntegrityError] is a replay when the
    nonce is stored, and [LaunchNonceStoreUnavailable] otherwise. *)
Definition insert_admission (fault : bool) (f : LaunchNonceFacts) (admitted : Z) : NS unit :=
  if unbindable f then se_raise NonceUnicodeError
  else
    let! _ := sqlite_fault fault in
    let! db := se_get in
    let row := mkRow LAUNCH_NONCE_STORE_SCHEMA_VERSION f admitted in
    match nonces db !! nonce f with
    | Some _ => se_raise LaunchNonceReplay
    | None =>
      if admission_check row then se_put (set_nonces (<[nonce f := row]> (nonces db)) db)
      else se_raise LaunchNonceStoreUnavailable
    end.

(** [BEGIN IMMEDIATE] to [COMMIT] of [consume_launch_nonce]: the admission time. *)
Definition consume_transaction (env : ConsumeEnv) (f : LaunchNonceFacts) : NS Z :=
  transact (
    let! _ := sqlite_fault (begin_fault env) in
    let! _ := se_lift (verify_identity (id_begun env)) in
    let! db := se_get in
    let! _ := se_lift (validate_schema db) in
    let! admitted := se_lift (wall_time_ns (clock_2 env)) in
    let! _ := se_lift (ensure_live f admitted false) in
    match head (filter (fun c : Z * Z => c.1 = 1%Z) (clock db)) with
    | None => se_raise LaunchNonceStoreUnavailable
    | Some (_, last) =>
      if (admitted <? last)%Z then se_raise LaunchNonceClockRollback
      else
        let matches (c : Z * Z) := (c.1 =? 1)%Z && (c.2 =? last)%Z in
        let! _ := se_put (set_clock ((fun c => if matches c then (c.1, admitted) else c) <$> clock db) db) in
        if negb (length (filter (fun c => matches c = true) (clock db)) =? 1)
        then se_raise LaunchNonceStoreUnavailable
        else
          let! db1 := se_get in
          let! _ := se_put (set_nonces (delete_all (swept admitted (nonces db1)) (nonces db1)) db1) in
          let! _ := insert_admission (insert_fault env) f admitted in
          let! _ := se_lift (verify_identity (id_inserted env)) in
          let! _ := sqlite_fault (commit_fault env) in
          se_ret admitted
    end).

(** [_record_from_row] *)
Definition record_from_row (r : AdmissionRow) : C ConsumedLaunchNonce :=
  let g := r_facts r in
  let? f := make_facts (JStr (audience g)) (JStr (nonce g)) (JStr (task_id g)) (JStr (control_run_id g))
              (JStr (owner_user_id g)) (JStr (channel_id g)) (JInt (issued_at_ns g)) (JInt (expires_at_ns g)) in
  let? admitted := exact_integer 1 (JInt (r_admitted_at_ns r)) in
  make_consumed f (JInt admitted).

(** After the commit: read back, and the clock once more. *)
Definition consume_confirm (env : ConsumeEnv) (f : LaunchNonceFacts) (admitted : Z) : NS ConsumedLaunchNonce :=
  let! _ := se_lift (verify_identity (id_committed env)) in
  let! db := se_get in
  match nonces db !! nonce f with
  | None => se_raise LaunchNonceStoreUnavailable
  | Some row =>
    let! record := se_lift (record_from_row row) in
    if negb (bool_decide (facts record = f)) || negb (admitted_at_ns record =? admitted)%Z
    then se_raise LaunchNonceStoreUnavailable
    else
      let! observed := se_lift (wall_time_ns (clock_3 env)) in
      if (observed <? admitted)%Z then se_raise LaunchNonceClockRollback
      else
        let! _ := se_lift (ensure_live f observed true) in
        let! _ := se_lift (verify_identity (id_end env)) in
        se_ret record
  end.

(** The checks before the transaction. *)
Definition before_transaction (env : ConsumeEnv) (f : LaunchNonceFacts) : C unit :=
  let? _ := validate_policy_constants in
  let? _ := verify_identity (id_start env) in
  let? now := wall_time_ns (clock_1 env) in
  let? _ := ensure_live f now false in
  connect_store (connect env).

(** [consume_launch_nonce]; [others] is what other processes do to the file
    between the commit and the read. *)
Definition consume_launch_nonce (env : ConsumeEnv) (others : NonceFile -> NonceFile) (f : LaunchNonceFacts)
    : NS ConsumedLaunchNonce :=
  let! _ := se_lift (before_transaction env f) in
  let! admitted := consume_transaction env f in
  let! db := se_get in
  let! _ := se_put (others db) in
  let! record := consume_confirm env f admitted in
  let! _ := sqlite_fault (close_fault env) in
  se_ret record.

Inductive nonce_step (db : NonceFile) : NonceFile -> Prop :=
| nonce_step_consume env f db' r : consume_transaction env f db = (db', r) -> nonce_step db db'
| nonce_step_prepare db' r : initialize_or_validate_schema db = (db', r) -> nonce_step db db'.

(** ** Lemmas *)
Lemma require_ret b e x : require b e = Ret x -> b = true.
Proof. by destruct b. Qed.
Lemma sqlite_fault_ret b db db' x : sqlite_fault b db = (db', Ret x) -> db' = db /\ b = false.
Proof. destruct b; [done|]. intros [= <- _]. done. Qed.

Lemma exact_integer_ret lo v z : exact_integer lo v = Ret z -> v = JInt z /\ (lo <= z <= MAX_SQLITE_INTEGER)%Z.
Proof.
  destruct v; try done. simpl. destruct (_ || _) eqn:H; [done|]. apply orb_false_iff in H as [H1 H2].
  intros [= ->]. split; [done|lia].
Qed.
Lemma exact_integer_ok lo z : (lo <= z <= MAX_SQLITE_INTEGER)%Z -> exact_integer lo (JInt z) = Ret z.
Proof.
  intros [H1 H2]. unfold exact_integer. rewrite (proj2 (Z.ltb_ge z lo)), (proj2 (Z.ltb_ge MAX_SQLITE_INTEGER z)) by done.
  done.
Qed.
Lemma ensure_live_ret f now b x : ensure_live f now b = Ret x -> (issued_at_ns f <= now < expires_at_ns f)%Z.
Proof. unfold ensure_live. repeat case_match; try done. intros _. lia. Qed.

(** What schema validation establishes. *)
Definition schema_ok (db : NonceFile) : Prop :=
  user_version db = LAUNCH_NONCE_STORE_SCHEMA_VERSION /\ objects db = SCHEMA_OBJECTS /\
  metadata db = [expected_metadata] /\ exists last, clock db = [(1, last)%Z] /\ (0 <= last)%Z.

Lemma validate_schema_ret db x : validate_schema db = Ret x <-> schema_ok db.
Proof.
  split.
  - unfold validate_schema.
    intros (? & H1%require_ret & (? & H2%require_ret & (? & H3%require_ret & H4)%obind_ret_inv)%obind_ret_inv)%obind_ret_inv.
    bool_prop. apply Z.eqb_eq in H1. do 3 (split; [done|]).
    destruct (clock db) as [|[s l] [|]]; try done. apply require_ret in H4. bool_prop.
    exists l. split; [|lia]. do 2 f_equal. lia.
  - intros (H1 & H2 & H3 & last & H4 & H5). unfold validate_schema. rewrite H1, H4, Z.eqb_refl.
    rewrite !bool_decide_true by done. cbn [require obind]. rewrite (proj2 (Z.leb_le 0 last) H5). by destruct x.
Qed.

Lemma schema_objects_nonempty : SCHEMA_OBJECTS <> ∅.
Proof. unfold SCHEMA_OBJECTS. simpl. apply insert_non_empty. Qed.

(** ** Lemmas: the sweep *)
Lemma delete_all_lookup ks m k : delete_all ks m !! k = if decide (k ∈ ks) then None else m !! k.
Proof.
  unfold delete_all. induction ks as [|x ks IH]; cbn [foldr].
  { case_decide as H; [by apply not_elem_of_nil in H|done]. }
  destruct (decide (k = x)) as [->|Hne].
  - rewrite lookup_delete_eq. rewrite decide_True by (apply elem_of_cons; by left). done.
  - rewrite lookup_delete_ne by done. rewrite IH. repeat case_decide; rewrite elem_of_cons in *; tauto.
Qed.
Lemma swept_expired now m k :
  k ∈ swept now m -> exists r, m !! k = Some r /\ (expires_at_ns (r_facts r) <= now)%Z.
Proof.
  unfold swept. intros ([k' r] & -> & H)%list_elem_of_fmap. apply elem_of_take in H as (i & Hi & _).
  apply list_elem_of_lookup_2 in Hi. rewrite merge_sort_Permutation in Hi.
  apply list_elem_of_filter in Hi as [He Hi%elem_of_map_to_list]. eauto.
Qed.
Lemma swept_count now m : length (swept now m) <= Z.to_nat LAUNCH_NONCE_STORE_CLEANUP_BATCH_SIZE.
Proof. unfold swept. rewrite length_fmap, length_take. lia. Qed.
(** The sweep is complete unless it filled its batch. *)
Lemma swept_complete now m k r :
  m !! k = Some r -> (expires_at_ns (r_facts r) <= now)%Z ->
  k ∈ swept now m \/ length (swept now m) = Z.to_nat LAUNCH_NONCE_STORE_CLEANUP_BATCH_SIZE.
Proof.
  intros Hk He. unfold swept. set (l := merge_sort _ _).
  assert (Hin : (k, r) ∈ l).
  { unfold l. rewrite merge_sort_Permutation. apply list_elem_of_filter. split; [done|]. by apply elem_of_map_to_list. }
  destruct (decide (length l <= Z.to_nat LAUNCH_NONCE_STORE_CLEANUP_BATCH_SIZE)) as [Hle|Hgt].
  - left. rewrite take_ge by done. apply list_elem_of_fmap. by exists (k, r).
  - right. rewrite length_fmap, length_take. lia.
Qed.
#[local] Opaque swept.

(** ** Lemmas: the transaction *)
Definition admission_row (f : LaunchNonceFacts) (admitted : Z) : AdmissionRow :=
  mkRow LAUNCH_NONCE_STORE_SCHEMA_VERSION f admitted.

Lemma insert_admission_ret fault f admitted db db' x :
  insert_admission fault f admitted db = (db', Ret x) ->
  unbindable f = false /\ nonces db !! nonce f = None /\ admission_check (admission_row f admitted) = true /\
  db' = set_nonces (<[nonce f := admission_row f admitted]> (nonces db)) db.
Proof.
  unfold insert_admission. intros H. se_run.
  match goal with H : sqlite_fault _ _ = _ |- _ => apply sqlite_fault_ret in H as [-> _] end. done.
Qed.

Lemma consume_tx_ret env f db db' admitted :
  consume_transaction env f db = (db', Ret admitted) ->
  exists last, schema_ok db /\ clock db = [(1, last)%Z] /\ (last <= admitted)%Z /\
    clock_2 env = JInt admitted /\ (1 <= admitted <= MAX_SQLITE_INTEGER)%Z /\
    (issued_at_ns f <= admitted < expires_at_ns f)%Z /\
    unbindable f = false /\
    admission_check (admission_row f admitted) = true /\
    delete_all (swept admitted (nonces db)) (nonces db) !! nonce f = None /\
    db' = set_nonces (<[nonce f := admission_row f admitted]> (delete_all (swept admitted (nonces db)) (nonces db)))
            (set_clock [(1, admitted)%Z] db).
Proof.
  unfold consume_transaction. intros H. se_run.
  repeat match goal with
  | H : sqlite_fault _ _ = _ |- _ => apply sqlite_fault_ret in H as [-> _]
  | H : insert_admission _ _ _ _ = _ |- _ => apply insert_admission_ret in H as (? & ? & ? & ->)
  | H : wall_time_ns _ = _ |- _ => apply exact_integer_ret in H as [? ?]
  | H : ensure_live _ _ _ = _ |- _ => apply ensure_live_ret in H
  | H : validate_schema _ = _ |- _ => apply validate_schema_ret in H
  end.
  match goal with H : schema_ok _ |- _ => destruct H as (Hv & Ho & Hm & last & Hc & Hl) end.
  exists last. rewrite Hc in *. simpl in *.
  match goal with H : Some _ = Some _ |- _ => injection H as <- <- end.
  rewrite Z.eqb_refl in *. split; [repeat (split; [done|]); eauto|]. split; [done|].
  match goal with H : (_ <? _)%Z = false |- _ => apply Z.ltb_ge in H end.
  repeat (split; [done|]). done.
Qed.

Lemma consume_tx_raise env f db db' e : consume_transaction env f db = (db', Raise e) -> db' = db.
Proof. apply transact_raise. Qed.

Lemma initialize_cases db db' r :
  initialize_or_validate_schema db = (db', r) ->
  (db' = db /\ (r = Ret tt -> schema_ok db)) \/
  (objects db = ∅ /\ r = Ret tt /\
   db' = mkFile LAUNCH_NONCE_STORE_SCHEMA_VERSION SCHEMA_OBJECTS [expected_metadata] [(1, 0)%Z] ∅).
Proof.
  unfold initialize_or_validate_schema, transact, se_bind, se_get, se_lift. case_bool_decide as Ho.
  - unfold se_put. destruct (validate_schema _) as [[]|e] eqn:Hv; intros [= <- <-]; [by right|by left].
  - unfold se_ret. destruct (validate_schema db) as [[]|e] eqn:Hv; intros [= <- <-]; left; [|done].
    split; [done|]. intros _. by apply validate_schema_ret in Hv.
Qed.

(** A nonce consumed with expiry [e]: its row is still there, or the clock has
    passed [e]. *)
Definition spent (n : str) (e : Z) (db : NonceFile) : Prop :=
  objects db <> ∅ /\
  ((exists r, nonces db !! n = Some r /\ (e <= expires_at_ns (r_facts r))%Z) \/
   (exists last, clock db = [(1, last)%Z] /\ (e <= last)%Z)).

Lemma commit_spends env f db db' a :
  consume_transaction env f db = (db', Ret a) -> spent (nonce f) (expires_at_ns f) db'.
Proof.
  intros H. apply consume_tx_ret in H as (last & (_ & Ho & _) & _ & _ & _ & _ & _ & _ & _ & _ & ->). split.
  - simpl. rewrite Ho. apply schema_objects_nonempty.
  - left. eexists. simpl. rewrite lookup_insert_eq. split; [done|]. simpl. lia.
Qed.

Lemma step_spent n e db db' : nonce_step db db' -> spent n e db -> spent n e db'.
Proof.
  intros [env f d [a|er] H|d r H] [Ho Hs].
  - apply consume_tx_ret in H as (last & _ & Hc & Hl & _ & _ & _ & _ & _ & Hn & ->).
    split; [done|]. simpl. destruct Hs as [(r & Hr & He)|(last' & Hc' & He)].
    + destruct (decide (n ∈ swept a (nonces db))) as [Hin|Hnot].
      * apply swept_expired in Hin as (r' & Hr' & Hx). simplify_eq. right. exists a. split; [done|lia].
      * left. destruct (decide (nonce f = n)) as [Heq|Hne].
        -- subst n. rewrite delete_all_lookup, decide_False in Hn by done. congruence.
        -- exists r. rewrite lookup_insert_ne by done. rewrite delete_all_lookup, decide_False by done. done.
    + right. exists a. split; [done|]. rewrite Hc in Hc'. injection Hc' as <-. lia.
  - apply consume_tx_raise in H as ->. done.
  - apply initialize_cases in H as [[-> _]|(He & _)]; done.
Qed.

Lemma steps_spent n e db db' : rtc nonce_step db db' -> spent n e db -> spent n e db'.
Proof. induction 1; eauto using step_spent. Qed.

Lemma spent_refused env g n e db db' r :
  spent n e db -> nonce g = n -> (expires_at_ns g <= e)%Z ->
  consume_transaction env g db = (db', r) -> db' = db /\ exists er, r = Raise er.
Proof.
  intros [_ Hs] Hn Hle H. destruct r as [a|er]; [exfalso|split; [by eapply consume_tx_raise|eauto]].
  apply consume_tx_ret in H as (last & _ & Hc & Hl & _ & _ & Hlive & _ & _ & Hnone & _).
  destruct Hs as [(row & Hr & He)|(last' & Hc' & He)]; [|rewrite Hc in Hc'; injection Hc' as <-; lia].
  rewrite Hn, delete_all_lookup in Hnone. case_decide as Hin; [|congruence].
  apply swept_expired in Hin as (row' & Hr' & Hx). simplify_eq. lia.
Qed.

(** ** Lemmas: the whole call *)
Definition not_spent_error (e : nonce_error) : Prop := e <> LaunchNonceExpired true.
Definition only_raises {X} (P : nonce_error -> Prop) (m : NS X) : Prop :=
  forall s, match (m s).2 with Raise e => P e | Ret _ => True end.

Lemma only_raises_bind {X Y} P (m : NS X) (k : X -> NS Y) :
  only_raises P m -> (forall x, only_raises P (k x)) -> only_raises P (se_bind m k).
Proof.
  intros Hm Hk s. specialize (Hm s). unfold se_bind. destruct (m s) as [s' [x|e]]; [apply Hk|exact Hm].
Qed.
Lemma only_raises_ret {X} P (x : X) : only_raises P (se_ret x).
Proof. by intros s. Qed.
Lemma only_raises_get P : only_raises P se_get.
Proof. by intros s. Qed.
Lemma only_raises_put P db : only_raises P (se_put db).
Proof. by intros s. Qed.
Lemma only_raises_raise {X} (P : nonce_error -> Prop) e : P e -> only_raises (X := X) P (se_raise e).
Proof. by intros ? s. Qed.
Lemma only_raises_lift {X} (P : nonce_error -> Prop) (o : C X) :
  (forall e, o = Raise e -> P e) -> only_raises P (se_lift o).
Proof. intros H s. unfold se_lift. simpl. destruct o; auto. Qed.
Lemma only_raises_transact {X} P (m : NS X) : only_raises P m -> only_raises P (transact m).
Proof. intros H s. specialize (H s). unfold transact. by destruct (m s) as [s' [x|e]]. Qed.

Lemma only_raises_state {X} P (m : NS X) s s' e : only_raises P m -> m s = (s', Raise e) -> P e.
Proof. intros H Hm. specialize (H s). by rewrite Hm in H. Qed.

Lemma require_raise b e e' : require b e = Raise e' -> e' = e.
Proof. destruct b; [done|]. by intros [= ->]. Qed.
Lemma validate_schema_raise db e : validate_schema db = Raise e -> e = LaunchNonceStoreUnavailable.
Proof.
  unfold validate_schema, require, obind. intros H. repeat case_match; congruence.
Qed.
Lemma wall_time_raise v e : wall_time_ns v = Raise e -> e = NonceValueError.
Proof. unfold wall_time_ns, exact_integer. intros H. repeat case_match; congruence. Qed.
Lemma ensure_live_raise f n b e : ensure_live f n b = Raise e -> e = LaunchNonceExpired b.
Proof. unfold ensure_live. intros H. repeat case_match; congruence. Qed.

Lemma before_raise env f e : before_transaction env f = Raise e -> not_spent_error e.
Proof.
  unfold before_transaction, verify_identity, require. replace validate_policy_constants with (Ret (E := nonce_error) tt) by done.
  cbn [obind]. destruct (id_start env); [|by intros [= <-]]. cbn [obind].
  destruct (wall_time_ns _) as [n|e1] eqn:Hw; cbn [obind]; [|apply wall_time_raise in Hw as ->; by intros [= <-]].
  destruct (ensure_live _ _ _) as [[]|e1] eqn:Hl; cbn [obind]; [|apply ensure_live_raise in Hl as ->; by intros [= <-]].
  destruct (connect env); by intros [= <-].
Qed.

Lemma consume_tx_errors env f : only_raises not_spent_error (consume_transaction env f).
Proof.
  unfold consume_transaction, insert_admission, sqlite_fault, verify_identity.
  apply only_raises_transact.
  repeat first
    [ done
    | apply only_raises_bind; [|intros ?]
    | apply only_raises_ret | apply only_raises_get | apply only_raises_put
    | apply only_raises_raise; done
    | apply only_raises_lift; intros ? Hr;
      first [apply validate_schema_raise in Hr | apply wall_time_raise in Hr | apply ensure_live_raise in Hr | apply require_raise in Hr];
      subst; done
    | case_match ].
Qed.

Lemma confirm_state env f a db db' r : consume_confirm env f a db = (db', r) -> db' = db.
Proof.
  unfold consume_confirm, se_bind, se_get, se_lift, se_raise, se_ret. intros H. crush_match.
Qed.

Lemma confirm_ret env f a db db' rec :
  consume_confirm env f a db = (db', Ret rec) ->
  exists row observed, nonces db !! nonce f = Some row /\ record_from_row row = Ret rec /\ rec = mkConsumed f a /\
    clock_3 env = JInt observed /\ (a <= observed < expires_at_ns f)%Z.
Proof.
  unfold consume_confirm. intros H. se_run.
  match goal with H : _ || _ = false |- _ => apply orb_false_iff in H as [?%negb_false_iff ?%negb_false_iff] end. bool_prop.
  match goal with H : wall_time_ns _ = _ |- _ => apply exact_integer_ret in H as [? ?] end.
  match goal with H : ensure_live _ _ _ = _ |- _ => apply ensure_live_ret in H end.
  eexists _, _. split; [done|]. split; [done|]. split; [|split; [done|lia]].
  match goal with |- ?r = _ => destruct r as [g t]; simpl in *; subst; f_equal; lia end.
Qed.

(** A call either changes nothing before its transaction commits, or commits. *)
Lemma consume_split env others f db db' r :
  consume_launch_nonce env others f db = (db', r) ->
  (db' = db /\ exists e, r = Raise e /\ not_spent_error e /\
     ((before_transaction env f = Raise e) \/ consume_transaction env f db = (db, Raise e))) \/
  exists a db1, consume_transaction env f db = (db1, Ret a) /\ db' = others db1 /\
    ((exists rec, r = Ret rec /\ consume_confirm env f a (others db1) = (others db1, Ret rec)) \/ exists e, r = Raise e).
Proof.
  unfold consume_launch_nonce. intros H. apply se_bind_inv in H as [(x1 & d1 & H1 & H)|(e & H1 & ->)].
  2: { left. injection H1 as <- He. split; [done|]. eexists. split; [done|]. split; [by eapply before_raise|by left]. }
  apply se_lift_ret in H1 as [-> _]. apply se_bind_inv in H as [(a & d2 & H2 & H)|(e & H2 & ->)].
  2: { left. pose proof (consume_tx_raise _ _ _ _ _ H2) as ->. split; [done|]. eexists. split; [done|].
       split; [eapply only_raises_state; [apply consume_tx_errors|exact H2]|by right]. }
  right. exists a, d2. split; [done|]. unfold se_bind at 1 2, se_get, se_put in H.
  apply se_bind_inv in H as [(rec & d3 & H3 & H)|(e & H3 & ->)].
  - pose proof (confirm_state _ _ _ _ _ _ H3) as ->. unfold se_bind, sqlite_fault, se_raise, se_ret in H.
    destruct (close_fault env); injection H as <- <-; (split; [done|]); eauto.
  - pose proof (confirm_state _ _ _ _ _ _ H3) as ->. eauto.
Qed.

(** ** Lemmas: facts on the wire *)
Definition facts_valid (f : LaunchNonceFacts) : Prop :=
  make_facts (JStr (audience f)) (JStr (nonce f)) (JStr (task_id f)) (JStr (control_run_id f))
    (JStr (owner_user_id f)) (JStr (channel_id f)) (JInt (issued_at_ns f)) (JInt (expires_at_ns f)) = Ret f.

Lemma hex_text_ret n v s : hex_text n v = Ret s -> v = JStr s.
Proof. unfold hex_text. intros H. crush_match. Qed.
Lemma canonical_identifier_ret v s : canonical_identifier v = Ret s -> v = JStr s.
Proof. unfold canonical_identifier. intros H. crush_match. Qed.

Lemma make_facts_valid a n t c o ch i e f : make_facts a n t c o ch i e = Ret f -> facts_valid f.
Proof.
  intros H. unfold facts_valid. rewrite <- H. unfold make_facts in H.
  apply obind_ret_inv in H as (a' & Ha & H). apply obind_ret_inv in H as (n' & Hn%hex_text_ret & H).
  apply obind_ret_inv in H as (t' & Ht%canonical_identifier_ret & H).
  apply obind_ret_inv in H as (c' & Hc%canonical_identifier_ret & H).
  apply obind_ret_inv in H as (o' & Ho%canonical_identifier_ret & H).
  apply obind_ret_inv in H as (ch' & Hch%hex_text_ret & H).
  apply obind_ret_inv in H as (i' & [Hi _]%exact_integer_ret & H).
  apply obind_ret_inv in H as (e' & [He _]%exact_integer_ret & H).
  destruct a; try done. case_bool_decide; [|done]. injection Ha as <-.
  case_match; [done|]. injection H as <-. by subst.
Qed.

Lemma facts_round_trip f : facts_valid f -> facts_from_mapping (facts_to_mapping f) = Ret f.
Proof. intros H. exact H. Qed.

Lemma make_consumed_ret f v r :
  make_consumed f v = Ret r ->
  facts r = f /\ v = JInt (admitted_at_ns r) /\ (issued_at_ns f <= admitted_at_ns r < expires_at_ns f)%Z.
Proof.
  unfold make_consumed. intros (z & [-> _]%exact_integer_ret & H)%obind_ret_inv.
  destruct (_ && _) eqn:Hb; [|done]. injection H as <-. bool_prop. simpl. split; [done|]. split; [done|]. lia.
Qed.

Lemma wire_round_trip r :
  facts_valid (facts r) -> make_consumed (facts r) (JInt (admitted_at_ns r)) = Ret r -> from_wire (to_wire r) = Ret r.
Proof.
  intros Hf Hc. change (from_wire (to_wire r)) with
    (let? f := facts_from_mapping (facts_to_mapping (facts r)) in make_consumed f (JInt (admitted_at_ns r))).
  by rewrite facts_round_trip.
Qed.

(** ** Lemmas: the file *)
Definition blank_file : NonceFile := mkFile 0 ∅ [] [] ∅.
Definition rows_ok (db : NonceFile) : Prop :=
  forall n r, nonces db !! n = Some r -> n = nonce (r_facts r) /\ admission_check r = true /\
    forall last, clock db = [(1, last)%Z] -> (r_admitted_at_ns r <= last)%Z.
Definition file_ok (db : NonceFile) : Prop := db = blank_file \/ (schema_ok db /\ rows_ok db).

Lemma commit_ok env f db db' a :
  rows_ok db -> consume_transaction env f db = (db', Ret a) -> schema_ok db' /\ rows_ok db'.
Proof.
  intros Hr H. apply consume_tx_ret in H as (last & (Hv & Ho & Hm & _) & Hc & Hl & _ & Ha & _ & _ & Hck & _ & ->). split.
  - do 3 (split; [done|]). exists a. split; [done|]. lia.
  - intros n r. simpl. rewrite lookup_insert_Some. intros [[<- <-]|[_ Hn]].
    + split; [done|]. split; [done|]. intros l [= <-]. simpl. lia.
    + rewrite delete_all_lookup in Hn. case_decide; [done|]. destruct (Hr _ _ Hn) as (-> & Hck' & Hlast).
      split; [done|]. split; [done|]. intros l [= <-]. specialize (Hlast _ Hc). lia.
Qed.

Lemma step_file_ok db db' : nonce_step db db' -> file_ok db -> file_ok db'.
Proof.
  intros [env f d [a|e] H|d r H] Hok.
  - right. destruct Hok as [->|[_ Hr]]; [|by eapply commit_ok].
    apply consume_tx_ret in H as (last & (Hv & _) & _). done.
  - by apply consume_tx_raise in H as ->.
  - apply initialize_cases in H as [[-> _]|(_ & _ & ->)]; [done|]. right. split.
    + do 3 (split; [done|]). by exists 0%Z.
    + intros n r'. simpl. by rewrite lookup_empty.
Qed.

Lemma steps_file_ok db : rtc nonce_step blank_file db -> file_ok db.
Proof.
  intros Hs. assert (Hb : file_ok blank_file) by by left. revert Hb. induction Hs; eauto using step_file_ok.
Qed.

(** ** Properties *)

(** C5: A launch nonce is consumed at most once, ever. After a transaction for
    the nonce has committed, and whatever processes do to the file afterwards
    (their sweeps of expired rows included), every further call with the same
    envelope facts, or with the same nonce and no later expiry, raises and
    leaves the file as it is. *)
Theorem launch_nonce_consumed_once env f db db1 a db2 env' others g :
  consume_transaction env f db = (db1, Ret a) -> rtc nonce_step db1 db2 ->
  nonce g = nonce f -> (expires_at_ns g <= expires_at_ns f)%Z ->
  exists e, consume_launch_nonce env' others g db2 = (db2, Raise e).
Proof.
  intros Hc Hs Hn He. pose proof (steps_spent _ _ _ _ Hs (commit_spends _ _ _ _ _ Hc)) as Hsp.
  destruct (consume_launch_nonce env' others g db2) as [db3 r] eqn:Hcall.
  destruct (consume_split _ _ _ _ _ _ Hcall) as [(-> & e & -> & _)|(a' & d1 & Htx & _)]; [eauto|].
  destruct (spent_refused _ _ _ _ _ _ _ Hsp Hn He Htx) as (_ & e & [=]).
Qed.

(** What a call does. Either it raises and the file is unchanged, and then
    the error never claims the nonce was consumed; or its transaction
    committed: the clock was not behind the stored watermark and becomes the
    admission time, inside the launch lifetime, the row holds exactly the
    facts, only expired rows left. A returned record is those facts with that
    time, still live at a third reading of the clock. *)
Theorem consume_outcome_exact env others f db db' r :
  consume_launch_nonce env others f db = (db', r) ->
  (db' = db /\ exists e, r = Raise e /\ e <> LaunchNonceExpired true) \/
  exists a db1 last,
    consume_transaction env f db = (db1, Ret a) /\ db' = others db1 /\
    clock db = [(1, last)%Z] /\ (last <= a)%Z /\ clock db1 = [(1, a)%Z] /\
    (issued_at_ns f <= a < expires_at_ns f)%Z /\
    nonces db1 !! nonce f = Some (admission_row f a) /\
    (forall n row, n <> nonce f -> nonces db1 !! n = Some row -> nonces db !! n = Some row) /\
    (forall n row, nonces db !! n = Some row -> n <> nonce f ->
       nonces db1 !! n = Some row \/ (expires_at_ns (r_facts row) <= a)%Z) /\
    (forall rec, r = Ret rec -> rec = mkConsumed f a /\
       exists observed, clock_3 env = JInt observed /\ (a <= observed < expires_at_ns f)%Z).
Proof.
  intros Hcall. destruct (consume_split _ _ _ _ _ _ Hcall) as [(-> & e & -> & Hns & _)|(a & db1 & Htx & -> & Hres)].
  { left. eauto. }
  right. exists a, db1. pose proof Htx as Htx'.
  apply consume_tx_ret in Htx' as (last & _ & Hc & Hl & _ & _ & Hlive & _ & _ & _ & Hdb). exists last.
  split; [done|]. split; [done|]. split; [done|]. split; [done|]. subst db1. simpl in *.
  split; [done|]. split; [done|]. split; [by rewrite lookup_insert_eq|]. split; [|split].
  - intros n row Hne. rewrite lookup_insert_ne by done. rewrite delete_all_lookup. by case_decide.
  - intros n row Hn Hne. rewrite lookup_insert_ne by done. rewrite delete_all_lookup.
    case_decide as Hin; [|by left]. right. apply swept_expired in Hin as (row' & ? & ?). by simplify_eq.
  - intros rec ->. destruct Hres as [(rec' & [= <-] & Hconf)|[e ?]]; [|done].
    apply confirm_ret in Hconf as (row & obs & _ & _ & -> & Hobs & Hlt). eauto.
Qed.

(** A consumed-nonce record survives the wire: whether it was read from the
    wire or returned by a call, encoding and decoding gives it back, and its
    admission time lies in its launch lifetime. *)
Theorem consumed_record_round_trip v env others f db db' r :
  from_wire v = Ret r \/ consume_launch_nonce env others f db = (db', Ret r) ->
  from_wire (to_wire r) = Ret r /\ (issued_at_ns (facts r) <= admitted_at_ns r < expires_at_ns (facts r))%Z.
Proof.
  assert (Hmk : forall g w, facts_valid g -> make_consumed g w = Ret r ->
    from_wire (to_wire r) = Ret r /\ (issued_at_ns (facts r) <= admitted_at_ns r < expires_at_ns (facts r))%Z).
  { intros g w Hg Hm. destruct (make_consumed_ret _ _ _ Hm) as (<- & -> & Hlt). split; [by apply wire_round_trip|done]. }
  intros [H|H].
  - unfold from_wire in H. apply obind_ret_inv in H as (d & _ & H). apply obind_ret_inv in H as (g & Hg & H).
    unfold facts_from_mapping in Hg. apply obind_ret_inv in Hg as (d' & _ & Hg).
    eapply Hmk; [by eapply make_facts_valid|exact H].
  - destruct (consume_split _ _ _ _ _ _ H) as [(_ & e & ? & _)|(a & db1 & _ & _ & [(rec & [= <-] & Hc)|[e ?]])]; [done| |done].
    apply confirm_ret in Hc as (row & obs & _ & Hrow & _). unfold record_from_row in Hrow.
    apply obind_ret_inv in Hrow as (g & Hg & Hrow). apply obind_ret_inv in Hrow as (z & _ & Hrow).
    eapply Hmk; [by eapply make_facts_valid|exact Hrow].
Qed.

(** The file stays valid and is swept. Starting from an empty file, any
    sequence of preparations and transactions leaves it empty or with the
    expected schema, where each row sits under its own nonce, passes the
    table's checks and was admitted no later than the watermark. Each commit
    sweeps at most one batch of expired rows, and if an expired row remains the
    batch was full. *)
Theorem nonce_file_valid_and_swept db env f a db1 :
  rtc nonce_step blank_file db -> consume_transaction env f db = (db1, Ret a) ->
  schema_ok db1 /\ rows_ok db1 /\
  length (swept a (nonces db)) <= Z.to_nat LAUNCH_NONCE_STORE_CLEANUP_BATCH_SIZE /\
  (forall n row, nonces db1 !! n = Some row -> (expires_at_ns (r_facts row) <= a)%Z ->
     length (swept a (nonces db)) = Z.to_nat LAUNCH_NONCE_STORE_CLEANUP_BATCH_SIZE).
Proof.
  intros Hs Hc. assert (Hr : rows_ok db).
  { destruct (steps_file_ok _ Hs) as [->|[_ Hr]]; [|done]. intros n r. simpl. by rewrite lookup_empty. }
  destruct (commit_ok _ _ _ _ _ Hr Hc) as [Hsch Hrows]. split; [done|]. split; [done|]. split; [apply swept_count|].
  apply consume_tx_ret in Hc as (last & _ & _ & _ & _ & _ & Hlive & _ & _ & _ & ->).
  intros n row. simpl. rewrite lookup_insert_Some. intros [[<- <-]|[_ Hn]] Hx; [simpl in Hx; lia|].
  rewrite delete_all_lookup in Hn. case_decide as Hin; [done|].
  destruct (swept_complete a _ _ _ Hn Hx); [done|done].
Qed.

(** ** Witnesses *)
#[local] Transparent swept.
Definition demo_facts : LaunchNonceFacts :=
  mkFacts AUTONOMOUS_CAPABILITY_ENVELOPE_AUDIENCE (repeat 48%N 32) (u "task") (u "run") (u "bob") (repeat 97%N 64) 10 90.
Definition demo_env (t : Z) : ConsumeEnv :=
  mkConsumeEnv (JInt t) (JInt (t + 1)) (JInt (t + 2)) true true true true true connected false false false false.
Definition demo_prepared : NonceFile := (initialize_or_validate_schema blank_file).1.
Definition demo_committed : NonceFile := (consume_transaction (demo_env 20) demo_facts demo_prepared).1.
Lemma demo_prepared_reached : rtc nonce_step blank_file demo_prepared.
Proof. eapply rtc_once, nonce_step_prepare, surjective_pairing. Qed.
Lemma demo_commit_ok : (consume_transaction (demo_env 20) demo_facts demo_prepared).2 = Ret 21%Z.
Proof. vm_compute. reflexivity. Qed.
Lemma demo_call_ok :
  (consume_launch_nonce (demo_env 20) (fun db => db) demo_facts demo_prepared).2 = Ret (mkConsumed demo_facts 21).
Proof. vm_compute. reflexivity. Qed.

Lemma launch_nonce_consumed_once_witness :
  exists e, consume_launch_nonce (demo_env 30) (fun db => db) demo_facts demo_committed = (demo_committed, Raise e).
Proof.
  exact (launch_nonce_consumed_once (demo_env 20) demo_facts demo_prepared demo_committed 21 demo_committed
    (demo_env 30) (fun db => db) demo_facts (pair_split _ _ demo_commit_ok) (rtc_refl _ _) eq_refl (Z.le_refl _)).
Defined.

Lemma consume_outcome_exact_witness :
  exists observed, clock_3 (demo_env 20) = JInt observed /\ (21 <= observed < 90)%Z.
Proof.
  destruct (consume_outcome_exact (demo_env 20) (fun db => db) demo_facts demo_prepared _ _
    (pair_split _ _ demo_call_ok)) as [(_ & e & [=] & _)|(a & db1 & last & _ & _ & _ & _ & _ & _ & _ & _ & _ & Hrec)].
  destruct (Hrec _ eq_refl) as [[= <-] Hobs]. exact Hobs.
Defined.

Lemma consumed_record_round_trip_witness :
  from_wire (to_wire (mkConsumed demo_facts 21)) = Ret (mkConsumed demo_facts 21).
Proof.
  apply (consumed_record_round_trip JNull (demo_env 20) (fun db => db) demo_facts demo_prepared
    (consume_launch_nonce (demo_env 20) (fun db => db) demo_facts demo_prepared).1).
  right. exact (pair_split _ _ demo_call_ok).
Defined.

Lemma nonce_file_valid_and_swept_witness : schema_ok demo_committed /\ rows_ok demo_committed.
Proof.
  destruct (nonce_file_valid_and_swept demo_prepared (demo_env 20) demo_facts 21 demo_committed demo_prepared_reached
    (pair_split _ _ demo_commit_ok)) as (H1 & H2 & _).
  split; [exact H1|exact H2].
Defined.

End LaunchNonceStore.
