(* ===== verification/UsageOutbox.v ===== *)
(** * UsageOutbox: durable evidence of commercial usage

    Models [CommercialUsageOutbox] of [src/agent_gateway/usage_outbox.py] on its
    three tables: usage events with their delivery progress, reconciliation
    reports, and the shipments of those reports. A statement
    [UPDATE ... SET f WHERE sel] is [update_table sel f] with the CHECK
    constraints and triggers of the table as its test; every method body between
    [BEGIN] and [COMMIT] is one [transact].

    Times are microseconds: [_utc_text] renders them at a fixed width, so the
    order of the texts is the order of the times. JSON text, digests, UUIDs, the
    schema validators and the arithmetic consistency check of a report are
    operations of the class [UsageEnv]; a lease token is an argument where the
    source draws a UUID. File permissions, the checks of the stored schema text,
    the version-1 migration and [health] are not modelled. *)
From stdpp Require Import sorting.
From S2P Require Import Prelude Wire.
Import Wire.

Module UsageOutbox.

(** ** Data *)
Inductive outbox_state := us_held | us_pending | us_sending | us_accepted | us_retryable | us_dead.
#[global] Instance outbox_state_eq : EqDecision outbox_state.
Proof. solve_decision. Defined.
Inductive ingest_status := in_accepted | in_duplicate | in_conflict | in_rejected_terminal | in_legacy_unknown.
#[global] Instance ingest_status_eq : EqDecision ingest_status.
Proof. solve_decision. Defined.

(** The columns of [commercial_usage_outbox] that never change. *)
Record UsageSource := mkSource {
  us_payload_sha256 : str;
  us_payload_json : str;
  us_environment : str;
  us_source_product : str;
  us_occurred_at : Z;
  us_request_id : str;
  us_session_id : str;
  us_created_at : Z
}.
#[global] Instance UsageSource_eq : EqDecision UsageSource.
Proof. solve_decision. Defined.

(** The delivery columns both outbox tables have. *)
Record Progress := mkProgress {
  p_state : outbox_state;
  p_attempt_count : Z;
  p_next_attempt_at : option Z;
  p_lease_token : option str;
  p_lease_expires_at : option Z;
  p_ingest_status : option ingest_status;
  p_reason_code : option str;
  p_decided_at : option Z;
  p_accepted_at : option Z;
  p_last_error : option str
}.
#[global] Instance Progress_eq : EqDecision Progress.
Proof. solve_decision. Defined.

Record UsageRow := mkUsage {
  u_source : UsageSource;
  u_canonical_event_id : option str;
  u_progress : Progress
}.
Record Shipment := mkShipment {
  sh_created_at : Z;
  sh_progress : Progress
}.

(** The session a chain of reports is about. *)
Record ChainKey := mkChain {
  ck_environment : str;
  ck_source_product : str;
  ck_request_id : str;
  ck_session_id : str
}.
#[global] Instance ChainKey_eq : EqDecision ChainKey.
Proof. solve_decision. Defined.
Inductive report_status := rs_match | rs_mismatch | rs_incomplete.
Record Report := mkReport {
  rp_chain : ChainKey;
  rp_revision : Z;
  rp_supersedes : option str;
  rp_content_sha256 : str;
  rp_report_sha256 : str;
  rp_payload_json : str;
  rp_status : report_status;
  rp_recorded_at : Z
}.

Record OutboxDB := mkOutbox {
  ob_usage : gmap str UsageRow;            (* by event id *)
  ob_reports : gmap str Report;            (* by report id *)
  ob_shipments : gmap str Shipment         (* by report id *)
}.
Definition empty_outbox : OutboxDB := mkOutbox ∅ ∅ ∅.

Inductive outbox_error :=
| OutboxValueError | OutboxConflict | OutboxIntegrityError | OutboxJSONError | OutboxKeyError | OutboxTypeError.

Abbreviation OB := (SE OutboxDB outbox_error).
Definition require (b : bool) (e : outbox_error) : OB unit := if b then se_ret tt else se_raise e.

Class UsageEnv := {
  (** [str(v)] of a value that is not a string. *)
  other_str : json -> str;
  (** [int(v)] of a value that is not an integer; [None] raises. *)
  other_int : json -> option Z;
  (** [canonical_usage_payload_sha256]; [None] is a [ValueError]. *)
  payload_sha256 : list (str * json) -> option str;
  (** [_source_time_text]; [None] is a [ValueError]. *)
  source_time : json -> option Z;
  (** [_payload_json]; [None] is a [ValueError]. *)
  dumps : list (str * json) -> option str;
  (** [json.loads]; [None] is a decoding error. *)
  loads : str -> option json;
  (** ["sha256:" + sha256(text)] *)
  sha256_text : str -> str;
  (** [uuid5(NAMESPACE_URL, name)] *)
  uuid5 : str -> str;
  (** The evidence schema of a version has no error. *)
  evidence_valid : Z -> list (str * json) -> bool;
  (** [_validate_reconciliation_consistency] returns. *)
  report_consistent : list (str * json) -> bool;
  (** [SHIPPABLE_USAGE_PAYLOAD_SCHEMA_VERSION] *)
  shippable_version : Z;
  (** [f"unshippable_payload_schema_version:{version!r}"] *)
  unshippable_text : json -> str
}.

Section outbox.
Context {env : UsageEnv}.

(** [str(payload.get(k) or "").strip()] *)
Definition text_of (v : json) : str :=
  py_strip (if truthy v then match v with JStr s => s | _ => other_str v end else []).
Definition text_field (k : str) (d : list (str * json)) : str := text_of (py_get k d).

(** ** Constraints *)
Definition in_states (l : list outbox_state) (p : Progress) : bool := bool_decide (p_state p ∈ l).
Definition no_decision (p : Progress) : bool :=
  is_none (p_ingest_status p) && is_none (p_reason_code p) && is_none (p_decided_at p).
Definition is_some {X} (o : option X) : bool := negb (is_none o).

(** A comparison with NULL is unknown, and a CHECK fails only when false. *)
Definition maybe_in (l : list ingest_status) (p : Progress) : bool :=
  match p_ingest_status p with Some s => bool_decide (s ∈ l) | None => true end.
Definition maybe_eq (a b : option Z) : bool :=
  match a, b with Some x, Some y => (x =? y)%Z | _, _ => true end.

(** The lease columns are set exactly while sending. *)
Definition lease_check (p : Progress) : bool :=
  if bool_decide (p_state p = us_sending) then is_some (p_lease_token p) && is_some (p_lease_expires_at p)
  else is_none (p_lease_token p) && is_none (p_lease_expires_at p).

(** The CHECK constraints of [commercial_usage_outbox]. *)
Definition usage_checks (r : UsageRow) : bool :=
  let p := u_progress r in
  negb (bool_decide (p_state p = us_held)) && (0 <=? p_attempt_count p)%Z && lease_check p
  && (if bool_decide (p_state p = us_accepted) then is_some (p_accepted_at p) else is_none (p_accepted_at p))
  && match p_state p with
     | us_accepted =>
       (maybe_in [in_accepted; in_duplicate] p
        && match u_canonical_event_id r with Some (_ :: _) => true | _ => false end && is_some (p_decided_at p))
       || (maybe_in [in_legacy_unknown] p && is_none (u_canonical_event_id r) && is_none (p_reason_code p)
           && maybe_eq (p_decided_at p) (p_accepted_at p))
     | us_dead =>
       (maybe_in [in_conflict; in_rejected_terminal] p && is_some (p_reason_code p) && is_some (p_decided_at p))
       || (no_decision p && is_none (u_canonical_event_id r))
     | _ => no_decision p && is_none (u_canonical_event_id r)
     end.

(** The CHECK constraints of [commercial_usage_reconciliation_shipments]. *)
Definition shipment_checks (s : Shipment) : bool :=
  let p := sh_progress s in
  (0 <=? p_attempt_count p)%Z && lease_check p
  && bool_decide (p_ingest_status p ∈ [None; Some in_accepted; Some in_duplicate; Some in_conflict])
  && match p_state p with
     | us_accepted =>
       maybe_in [in_accepted; in_duplicate] p && is_some (p_decided_at p) && is_some (p_accepted_at p)
     | us_dead =>
       (maybe_in [in_conflict] p && is_some (p_reason_code p) && is_some (p_decided_at p)
        && is_none (p_accepted_at p))
       || (no_decision p && is_none (p_accepted_at p))
     | _ => no_decision p && is_none (p_accepted_at p)
     end.

Definition terminal (p : Progress) : bool := in_states [us_accepted; us_dead] p.

(** The triggers on an update, then the constraints of the new row. *)
Definition usage_update_ok (old new : UsageRow) : bool :=
  negb (bool_decide (p_ingest_status (u_progress new) = Some in_legacy_unknown)
        && negb (bool_decide (p_ingest_status (u_progress old) = Some in_legacy_unknown)))
  && bool_decide (u_source new = u_source old) && negb (terminal (u_progress old)) && usage_checks new.
Definition shipment_update_ok (old new : Shipment) : bool :=
  negb (terminal (sh_progress old)) && shipment_checks new.

(** ** [UPDATE ... SET f WHERE sel]: the new table and the row count, or
    [None] when a trigger or constraint aborts the statement. *)
Definition update_table {R} (ok : R -> R -> bool) (sel : str -> R -> bool) (f : R -> R) (m : gmap str R)
    : option (gmap str R * nat) :=
  let hit := filter (fun kr => sel kr.1 kr.2 = true) (map_to_list m) in
  if forallb (fun kr => ok kr.2 (f kr.2)) hit
  then Some (map_imap (fun k r => Some (if sel k r then f r else r)) m, length hit)
  else None.

Definition update_usage (sel : str -> UsageRow -> bool) (f : UsageRow -> UsageRow) : OB nat :=
  let! db := se_get in
  match update_table usage_update_ok sel f (ob_usage db) with
  | Some (m, n) => let! _ := se_put (mkOutbox m (ob_reports db) (ob_shipments db)) in se_ret n
  | None => se_raise OutboxIntegrityError
  end.
Definition update_shipments (sel : str -> Shipment -> bool) (f : Shipment -> Shipment) : OB nat :=
  let! db := se_get in
  match update_table shipment_update_ok sel f (ob_shipments db) with
  | Some (m, n) => let! _ := se_put (mkOutbox (ob_usage db) (ob_reports db) m) in se_ret n
  | None => se_raise OutboxIntegrityError
  end.

(** ** Enqueue *)
Record Prepared := mkPrepared { pr_event_id : str; pr_source : UsageSource }.

(** The checks of one payload, outside the transaction. *)
Definition prepare (created : Z) (payload : json) : outcome outbox_error Prepared :=
  match payload with
  | JDict d =>
    let event_id := text_field (u "source_event_id") d in
    let digest := text_field (u "source_payload_sha256") d in
    if bool_decide (event_id = []) then Raise OutboxValueError
    else match payload_sha256 d with
    | None => Raise OutboxValueError
    | Some expected =>
      if negb (bool_decide (digest = expected)) then Raise OutboxValueError
      else match source_time (py_get (u "occurred_at") d) with
      | None => Raise OutboxValueError
      | Some occurred =>
        let e := text_field (u "environment") d in
        let p := text_field (u "source_product") d in
        let r := text_field (u "request_id") d in
        let s := text_field (u "session_id") d in
        if bool_decide (e = []) || bool_decide (p = []) || bool_decide (r = []) || bool_decide (s = [])
        then Raise OutboxValueError
        else match dumps d with
        | None => Raise OutboxValueError
        | Some text => Ret (mkPrepared event_id (mkSource digest text e p occurred r s created))
        end
      end
    end
  | _ => Raise OutboxValueError
  end.

(** [for payload in payloads], with the digests seen so far. *)
Fixpoint prepare_all (created : Z) (seen : gmap str str) (payloads : list json) : outcome outbox_error (list Prepared) :=
  match payloads with
  | [] => Ret []
  | payload :: rest =>
    let? x := prepare created payload in
    let digest := us_payload_sha256 (pr_source x) in
    match seen !! pr_event_id x with
    | Some previous =>
      if bool_decide (previous = digest)
      then let? xs := prepare_all created (<[pr_event_id x := digest]> seen) rest in Ret (x :: xs)
      else Raise OutboxConflict
    | None => let? xs := prepare_all created (<[pr_event_id x := digest]> seen) rest in Ret (x :: xs)
    end
  end.

Definition new_progress (st : outbox_state) : Progress := mkProgress st 0 None None None None None None None None.
Definition new_usage (s : UsageSource) : UsageRow := mkUsage s None (new_progress us_pending).

Fixpoint insert_prepared (l : list Prepared) : OB unit :=
  match l with
  | [] => se_ret tt
  | x :: rest =>
    let! db := se_get in
    match ob_usage db !! pr_event_id x with
    | Some old =>
      if bool_decide (us_payload_sha256 (u_source old) = us_payload_sha256 (pr_source x))
      then insert_prepared rest else se_raise OutboxConflict
    | None =>
      let! _ := se_put (mkOutbox (<[pr_event_id x := new_usage (pr_source x)]> (ob_usage db)) (ob_reports db) (ob_shipments db)) in
      insert_prepared rest
    end
  end.

(** [enqueue_batch] *)
Definition enqueue_batch (payloads : list json) (created : Z) : OB unit :=
  let! _ := require (negb (bool_decide (payloads = []))) OutboxValueError in
  let! xs := se_lift (prepare_all created ∅ payloads) in
  transact (insert_prepared xs).

(** ** Leases *)
Definition lease_expired_text : str := u "sending lease expired".

(** [SET state = 'retryable', ... WHERE state = 'sending' AND sending_lease_expires_at <= ?] *)
Definition expired (now : Z) (p : Progress) : bool :=
  bool_decide (p_state p = us_sending) && match p_lease_expires_at p with Some e => (e <=? now)%Z | None => false end.
Definition expire (now : Z) (p : Progress) : Progress :=
  mkProgress us_retryable (p_attempt_count p) (Some now) None None (p_ingest_status p) (p_reason_code p) (p_decided_at p)
    (p_accepted_at p) (Some lease_expired_text).

(** [state IN ('pending', 'retryable')], and due. *)
Definition open_ (p : Progress) : bool := in_states [us_pending; us_retryable] p.
Definition due (now : Z) (p : Progress) : bool :=
  open_ p && match p_next_attempt_at p with Some t => (t <=? now)%Z | None => true end.

Definition dead_letter (error : str) (p : Progress) : Progress :=
  mkProgress us_dead (p_attempt_count p) None None None (p_ingest_status p) (p_reason_code p) (p_decided_at p)
    (p_accepted_at p) (Some error).
Definition take_lease (token : str) (expires : Z) (p : Progress) : Progress :=
  mkProgress us_sending (p_attempt_count p + 1) None (Some token) (Some expires) (p_ingest_status p) (p_reason_code p)
    (p_decided_at p) (p_accepted_at p) (p_last_error p).

Definition on_progress (f : Progress -> Progress) (r : UsageRow) : UsageRow :=
  mkUsage (u_source r) (u_canonical_event_id r) (f (u_progress r)).
Definition on_shipment (f : Progress -> Progress) (s : Shipment) : Shipment := mkShipment (sh_created_at s) (f (sh_progress s)).

(** [ORDER BY created_at, id] *)
Definition row_before {R} (created : R -> Z) (x y : str * R) : Prop :=
  (created x.2 < created y.2)%Z \/ (created x.2 = created y.2 /\ key_le x.1 y.1 = true).
#[global] Instance row_before_dec {R} (created : R -> Z) x y : Decision (row_before created x y).
Proof. unfold row_before. apply _. Defined.
Definition ordered {R} (created : R -> Z) (l : list (str * R)) : list (str * R) := merge_sort (row_before created) l.
Definition usage_created (r : UsageRow) : Z := us_created_at (u_source r).

(** [_queued_payload_schema_version] *)
Definition queued_payload_schema_version (text : str) : json :=
  match loads text with Some (JDict d) => py_get (u "schema_version") d | _ => JNull end.
Definition shippable (r : UsageRow) : bool :=
  py_eq (queued_payload_schema_version (us_payload_json (u_source r))) (JInt shippable_version).

(** The rows the batch looks at. *)
Definition due_rows (now : Z) (limit : nat) (m : gmap str UsageRow) : list (str * UsageRow) :=
  take limit (ordered usage_created (filter (fun kr => due now (u_progress kr.2) = true) (map_to_list m))).

(** [for row in rows]: ids to lease; other rows are dead-lettered. *)
Fixpoint gate_rows (rows : list (str * UsageRow)) : OB (list str) :=
  match rows with
  | [] => se_ret []
  | (k, r) :: rest =>
    if shippable r then let! ids := gate_rows rest in se_ret (k :: ids)
    else
      let error := unshippable_text (queued_payload_schema_version (us_payload_json (u_source r))) in
      let! _ := update_usage (fun k' r' => bool_decide (k' = k) && open_ (u_progress r')) (on_progress (dead_letter error)) in
      gate_rows rest
  end.

Fixpoint lease_rows (token : str) (expires : Z) (ids : list str) : OB unit :=
  match ids with
  | [] => se_ret tt
  | k :: rest =>
    let! _ := update_usage (fun k' r => bool_decide (k' = k) && open_ (u_progress r)) (on_progress (take_lease token expires)) in
    lease_rows token expires rest
  end.

(** [_select_rows] *)
Definition select_rows (ids : list str) (m : gmap str UsageRow) : list (str * UsageRow) :=
  ordered usage_created (filter (fun kr => kr.1 ∈ ids) (map_to_list m)).

(** [lease_batch] *)
Definition lease_batch (limit lease_for now : Z) (token : str) : OB (list (str * UsageRow)) :=
  let! _ := require ((0 <? limit)%Z && (0 <? lease_for)%Z) OutboxValueError in
  transact (
    let! _ := update_usage (fun _ r => expired now (u_progress r)) (on_progress (expire now)) in
    let! db := se_get in
    let! ids := gate_rows (due_rows now (Z.to_nat limit) (ob_usage db)) in
    let! _ := lease_rows token (now + lease_for) ids in
    let! db' := se_get in
    se_ret (select_rows ids (ob_usage db'))).

(** ** Outcome of a delivery *)

(** [error[:4_096]] *)
Definition clip (error : option str) : option str := take 4096 <$> error.

Definition finished (st : outbox_state) (status : option ingest_status) (reason : option str) (decided accepted next : option Z)
    (error : option str) (p : Progress) : Progress :=
  mkProgress st (p_attempt_count p) next None None status reason decided accepted (clip error).

Definition held_by (token : str) (p : Progress) : bool :=
  bool_decide (p_state p = us_sending) && bool_decide (p_lease_token p = Some token).

(** [_finish_sending] *)
Definition finish_sending (id token : str) (st : outbox_state) (status : option ingest_status) (canonical reason : option str)
    (decided accepted next : option Z) (error : option str) : OB bool :=
  let! n := update_usage (fun k r => bool_decide (k = id) && held_by token (u_progress r))
    (fun r => mkUsage (u_source r) canonical (finished st status reason decided accepted next error (u_progress r))) in
  se_ret (n =? 1).

(** [(s or "").strip() or None] *)
Definition stripped (s : option str) : option str :=
  match py_strip (default [] s) with [] => None | t => Some t end.

Definition mark_accepted (id token : str) (duplicate : bool) (canonical : str) (reason : option str) (now : Z) : OB bool :=
  let! _ := require (negb (bool_decide (py_strip canonical = []))) OutboxValueError in
  finish_sending id token us_accepted (Some (if duplicate then in_duplicate else in_accepted)) (Some (py_strip canonical)) reason
    (Some now) (Some now) None None.
Definition mark_retryable (id token : str) (next : Z) (error : str) : OB bool :=
  finish_sending id token us_retryable None None None None None (Some next) (Some error).
Definition mark_dead (id token error : str) (status : option ingest_status) (canonical reason : option str) (now : Z) : OB bool :=
  let! _ := require (is_none status || negb (is_none (stripped reason))) OutboxValueError in
  finish_sending id token us_dead status (stripped canonical) (stripped reason) (if is_none status then None else Some now)
    None None (Some error).

(** ** Reconciliation reports *)
Definition ENVELOPE_FIELDS : list str :=
  [u "evidence_schema_version"; u "evidence_revision"; u "supersedes_report_sha256"; u "content_sha256"].
Definition LINEAGE_FIELDS : list str :=
  [u "workflow_attempt_group_id"; u "workflow_attempt_number"; u "retry_of_workflow_run_id"; u "workflow_attempt_kind";
   u "work_authorization_id"].

(** [str(v)] *)
Definition str_of (v : json) : str := match v with JStr s => s | _ => other_str v end.
Definition has_key (d : list (str * json)) (k : str) : bool := is_some (dict_get k d).
Definition some_keys (ks : list str) (d : list (str * json)) : bool := existsb (has_key d) ks.
Definition all_keys (ks : list str) (d : list (str * json)) : bool := forallb (has_key d) ks.
Definition without_keys (ks : list str) (d : list (str * json)) : list (str * json) := filter (fun kv => kv.1 ∉ ks) d.

(** [self._reconciliation_validators.get(version)] *)
Definition validator_version (v : json) : outcome outbox_error Z :=
  match v with
  | JList _ | JDict _ => Raise OutboxTypeError
  | _ => match head (filter (fun n => py_eq v (JInt n) = true) [1; 2; 3]%Z) with
         | Some n => Ret n
         | None => Raise OutboxValueError
         end
  end.

(** The payload without its envelope, and the content digest it carried. *)
Definition open_envelope (raw : list (str * json)) : outcome outbox_error (list (str * json) * option str) :=
  if some_keys ENVELOPE_FIELDS raw then
    if negb (all_keys ENVELOPE_FIELDS raw) then Raise OutboxValueError
    else
      let? n := validator_version (py_get (u "evidence_schema_version") raw) in
      if evidence_valid n raw
      then Ret (without_keys ENVELOPE_FIELDS raw, Some (str_of (py_get (u "content_sha256") raw)))
      else Raise OutboxValueError
  else Ret (raw, None).

(** [evidence_schema_version] of a payload. *)
Definition evidence_version (d : list (str * json)) : outcome outbox_error Z :=
  let present := some_keys LINEAGE_FIELDS d in
  if present && negb (all_keys LINEAGE_FIELDS d) then Raise OutboxValueError
  else
    let v := py_get (u "source_usage_schema_version") d in
    if py_eq v (JInt 3) then if all_keys LINEAGE_FIELDS d then Ret 3%Z else Raise OutboxValueError
    else if negb (py_eq v JNull) then Raise OutboxValueError
    else Ret (if present then 2 else 1)%Z.

Definition parse_report_status (s : str) : option report_status :=
  if bool_decide (s = u "match") then Some rs_match
  else if bool_decide (s = u "mismatch") then Some rs_mismatch
  else if bool_decide (s = u "incomplete") then Some rs_incomplete else None.

(** Everything before the transaction. *)
Record Draft := mkDraft {
  dr_payload : list (str * json);
  dr_version : Z;
  dr_chain : ChainKey;
  dr_status : report_status;
  dr_content : str                       (* content_sha256 *)
}.
Definition draft_report (raw : json) : outcome outbox_error Draft :=
  match raw with
  | JDict raw =>
    let? env := open_envelope raw in
    let d := env.1 in
    let? version := evidence_version d in
    let chain := mkChain (text_field (u "environment") d) (text_field (u "source_product") d)
                         (text_field (u "request_id") d) (text_field (u "session_id") d) in
    match parse_report_status (text_field (u "status") d) with
    | None => Raise OutboxValueError
    | Some status =>
      if bool_decide (ck_environment chain = []) || bool_decide (ck_source_product chain = [])
         || bool_decide (ck_request_id chain = []) || bool_decide (ck_session_id chain = [])
         || negb (match py_get (u "summary_emitted_as_cost_event") d with JBool false => true | _ => false end)
      then Raise OutboxValueError
      else if negb (report_consistent d) then Raise OutboxValueError
      else match dumps d with
      | None => Raise OutboxValueError
      | Some text =>
        let content := sha256_text text in
        if match env.2 with Some c => bool_decide (c = content) | None => true end
        then Ret (mkDraft d version chain status content) else Raise OutboxValueError
      end
    end
  | _ => Raise OutboxValueError
  end.

(** ** The revision chain *)
Definition chain_rows (c : ChainKey) (m : gmap str Report) : list (str * Report) :=
  filter (fun kr => rp_chain kr.2 = c) (map_to_list m).

(** [ORDER BY revision DESC LIMIT 1] *)
Definition later (x : str * Report) (y : option (str * Report)) : option (str * Report) :=
  match y with Some y' => if (rp_revision x.2 <? rp_revision y'.2)%Z then y else Some x | None => Some x end.
Definition current_report (c : ChainKey) (m : gmap str Report) : option (str * Report) := foldr later None (chain_rows c m).
Definition find_content (c : ChainKey) (content : str) (m : gmap str Report) : option (str * Report) :=
  head (filter (fun kr => rp_content_sha256 kr.2 = content) (chain_rows c m)).

(** Primary key, UNIQUE and CHECK constraints, and the linear-insert trigger. *)
Definition report_insert_ok (id : str) (r : Report) (m : gmap str Report) : bool :=
  let rows := chain_rows (rp_chain r) m in
  is_none (m !! id) && (0 <? rp_revision r)%Z
  && forallb (fun kr => negb (rp_revision kr.2 =? rp_revision r)%Z
                        && negb (bool_decide (rp_content_sha256 kr.2 = rp_content_sha256 r))
                        && negb (bool_decide (rp_report_sha256 kr.2 = rp_report_sha256 r))) rows
  && (if (rp_revision r =? 1)%Z then is_none (rp_supersedes r) && bool_decide (rows = [])
      else match rp_supersedes r with
           | Some s => existsb (fun kr => (rp_revision kr.2 =? rp_revision r - 1)%Z && bool_decide (rp_report_sha256 kr.2 = s)) rows
           | None => false
           end).

Definition new_shipment (enabled : bool) (at_ : Z) : Shipment := mkShipment at_ (new_progress (if enabled then us_pending else us_held)).
Definition insert_report (enabled : bool) (id : str) (r : Report) : OB unit :=
  let! db := se_get in
  let! _ := require (report_insert_ok id r (ob_reports db)) OutboxIntegrityError in
  let! _ := require (is_none (ob_shipments db !! id)) OutboxIntegrityError in
  se_put (mkOutbox (ob_usage db) (<[id := r]> (ob_reports db))
            (<[id := new_shipment enabled (rp_recorded_at r)]> (ob_shipments db))).

(** A report of the same chain keeps the evidence version and attempt. *)
Definition int_of (v : json) : outcome outbox_error Z :=
  match v with JInt z => Ret z | _ => match other_int v with Some z => Ret z | None => Raise OutboxValueError end end.
Definition check_prior (prior : option (str * Report)) (version : Z) (d : list (str * json)) : outcome outbox_error unit :=
  match prior with
  | None => Ret tt
  | Some (_, p) =>
    match loads (rp_payload_json p) with
    | Some (JDict pd) =>
      match dict_get (u "evidence_schema_version") pd with
      | None => Raise OutboxKeyError
      | Some v =>
        let? n := int_of v in
        if negb (n =? version)%Z then Raise OutboxValueError
        else if (1 <? version)%Z && negb (forallb (fun k => py_eq (py_get k pd) (py_get k d)) LINEAGE_FIELDS)
        then Raise OutboxValueError else Ret tt
      end
    | Some _ => Raise OutboxTypeError
    | None => Raise OutboxJSONError
    end
  end.

Definition evidence_of (d : Draft) (revision : Z) (supersedes : option str) : list (str * json) :=
  dr_payload d ++ [(u "evidence_schema_version", JInt (dr_version d)); (u "evidence_revision", JInt revision);
                   (u "supersedes_report_sha256", match supersedes with Some s => JStr s | None => JNull end);
                   (u "content_sha256", JStr (dr_content d))].

(** [record_reconciliation_report]: the row, and whether it was there. *)
Definition record_reconciliation_report (enabled : bool) (raw : json) (now : Z) : OB (str * Report * bool) :=
  let! d := se_lift (draft_report raw) in
  transact (
    let! db := se_get in
    match find_content (dr_chain d) (dr_content d) (ob_reports db) with
    | Some kr => se_ret (kr, true)
    | None =>
      let prior := current_report (dr_chain d) (ob_reports db) in
      let revision := match prior with Some (_, p) => rp_revision p + 1 | None => 1 end%Z in
      let supersedes := (fun kr => rp_report_sha256 kr.2) <$> prior in
      let! _ := se_lift (check_prior prior (dr_version d) (dr_payload d)) in
      let evidence := evidence_of d revision supersedes in
      let! _ := require (evidence_valid (dr_version d) evidence) OutboxValueError in
      match dumps evidence with
      | None => se_raise OutboxValueError
      | Some text =>
        let sha := sha256_text text in
        let c := dr_chain d in
        let id := uuid5 (u "commercial-usage-reconciliation:" ++ ck_request_id c ++ u ":" ++ ck_session_id c ++ u ":" ++ sha) in
        let r := mkReport c revision supersedes (dr_content d) sha text (dr_status d) now in
        let! _ := insert_report enabled id r in
        se_ret ((id, r), false)
      end
    end).

(** ** Shipment of reports *)

(** No predecessor of the chain is still to be accepted. *)
Definition predecessors_accepted (db : OutboxDB) (r : Report) : bool :=
  forallb (fun kp => match ob_shipments db !! kp.1 with
                     | Some s => negb (rp_revision kp.2 <? rp_revision r)%Z || bool_decide (p_state (sh_progress s) = us_accepted)
                     | None => true
                     end) (chain_rows (rp_chain r) (ob_reports db)).
Definition shippable_shipment (now : Z) (db : OutboxDB) (ks : str * Shipment) : bool :=
  due now (sh_progress ks.2)
  && match ob_reports db !! ks.1 with Some r => predecessors_accepted db r | None => false end.
Definition due_shipments (now : Z) (limit : nat) (db : OutboxDB) : list (str * Shipment) :=
  take limit (ordered sh_created_at (filter (fun ks => shippable_shipment now db ks = true) (map_to_list (ob_shipments db)))).

Fixpoint lease_shipments (token : nat -> str) (expires : Z) (n : nat) (ids : list str) : OB (list str) :=
  match ids with
  | [] => se_ret []
  | k :: rest =>
    let! hit := update_shipments (fun k' s => bool_decide (k' = k) && open_ (sh_progress s)) (on_shipment (take_lease (token n) expires)) in
    let! leased := lease_shipments token expires (S n) rest in
    se_ret (if hit =? 1 then k :: leased else leased)
  end.

(** [_select_reconciliation_shipments] *)
Definition select_shipments (ids : list str) (db : OutboxDB) : list (str * Shipment * Report) :=
  omap (fun ks => r ← ob_reports db !! ks.1; Some (ks, r))
    (ordered sh_created_at (filter (fun ks => ks.1 ∈ ids) (map_to_list (ob_shipments db)))).

(** [lease_reconciliation_batch]; [token n] is the n-th UUID drawn. *)
Definition lease_reconciliation_batch (limit lease_for now : Z) (token : nat -> str) : OB (list (str * Shipment * Report)) :=
  let! _ := require ((0 <? limit)%Z && (0 <? lease_for)%Z) OutboxValueError in
  transact (
    let! _ := update_shipments (fun _ s => expired now (sh_progress s)) (on_shipment (expire now)) in
    let! db := se_get in
    let! ids := lease_shipments token (now + lease_for) 0 (due_shipments now (Z.to_nat limit) db).*1 in
    let! db' := se_get in
    se_ret (select_shipments ids db')).

Definition release (p : Progress) : Progress :=
  mkProgress us_pending (p_attempt_count p) (p_next_attempt_at p) (p_lease_token p) (p_lease_expires_at p) (p_ingest_status p)
    (p_reason_code p) (p_decided_at p) (p_accepted_at p) (p_last_error p).
(** [enable_reconciliation_shipping]: the statement and its row count. *)
Definition enable_reconciliation_shipping : OB nat :=
  update_shipments (fun _ s => bool_decide (p_state (sh_progress s) = us_held)) (on_shipment release).

(** [_finish_reconciliation_shipment] *)
Definition finish_shipment (id token : str) (st : outbox_state) (status : option ingest_status) (reason : option str)
    (decided accepted next : option Z) (error : option str) : OB bool :=
  let! n := update_shipments (fun k s => bool_decide (k = id) && held_by token (sh_progress s))
    (on_shipment (finished st status reason decided accepted next error)) in
  se_ret (n =? 1).
Definition mark_reconciliation_accepted (id token : str) (duplicate : bool) (reason : option str) (now : Z) : OB bool :=
  finish_shipment id token us_accepted (Some (if duplicate then in_duplicate else in_accepted)) (stripped reason)
    (Some now) (Some now) None None.
Definition mark_reconciliation_retryable (id token : str) (next : Z) (error : str) : OB bool :=
  finish_shipment id token us_retryable None None None None (Some next) (Some error).
Definition mark_reconciliation_dead (id token error : str) (conflict : bool) (reason : option str) (now : Z) : OB bool :=
  let! _ := require (negb conflict || negb (is_none (stripped reason))) OutboxValueError in
  finish_shipment id token us_dead (if conflict then Some in_conflict else None) (stripped reason)
    (if conflict then Some now else None) None None (Some error).

(** ** Runs

    Any process calls any method; [w_used] are the lease tokens drawn so far,
    and a UUID is never drawn twice. *)
Record UsageWorld := mkUsageWorld { uw_db : OutboxDB; uw_used : list str }.
Definition draws (token : nat -> str) (limit : Z) : list str := token <$> seq 0 (Z.to_nat limit).

Inductive outbox_step (w : UsageWorld) : UsageWorld -> Prop :=
| os_enqueue payloads created db r :
    enqueue_batch payloads created (uw_db w) = (db, r) -> outbox_step w (mkUsageWorld db (uw_used w))
| os_lease limit lease_for now token db r :
    token ∉ uw_used w -> lease_batch limit lease_for now token (uw_db w) = (db, r) ->
    outbox_step w (mkUsageWorld db (token :: uw_used w))
| os_accept id token dup canonical reason now db r :
    mark_accepted id token dup canonical reason now (uw_db w) = (db, r) -> outbox_step w (mkUsageWorld db (uw_used w))
| os_retry id token next error db r :
    mark_retryable id token next error (uw_db w) = (db, r) -> outbox_step w (mkUsageWorld db (uw_used w))
| os_dead id token error status canonical reason now db r :
    mark_dead id token error status canonical reason now (uw_db w) = (db, r) -> outbox_step w (mkUsageWorld db (uw_used w))
| os_report enabled raw now db r :
    record_reconciliation_report enabled raw now (uw_db w) = (db, r) -> outbox_step w (mkUsageWorld db (uw_used w))
| os_lease_reports limit lease_for now token db r :
    NoDup (draws token limit) -> (forall t, t ∈ draws token limit -> t ∉ uw_used w) ->
    lease_reconciliation_batch limit lease_for now token (uw_db w) = (db, r) ->
    outbox_step w (mkUsageWorld db (draws token limit ++ uw_used w))
| os_enable db r :
    enable_reconciliation_shipping (uw_db w) = (db, r) -> outbox_step w (mkUsageWorld db (uw_used w))
| os_report_accept id token dup reason now db r :
    mark_reconciliation_accepted id token dup reason now (uw_db w) = (db, r) -> outbox_step w (mkUsageWorld db (uw_used w))
| os_report_retry id token next error db r :
    mark_reconciliation_retryable id token next error (uw_db w) = (db, r) -> outbox_step w (mkUsageWorld db (uw_used w))
| os_report_dead id token error conflict reason now db r :
    mark_reconciliation_dead id token error conflict reason now (uw_db w) = (db, r) -> outbox_step w (mkUsageWorld db (uw_used w)).
Definition usage_world0 : UsageWorld := mkUsageWorld empty_outbox [].

(** ** What one statement may do to a row; [T] are the tokens it draws. *)
Inductive prog_step (T : list str) (p : Progress) : Progress -> Prop :=
| ps_expire now : expired now p = true -> prog_step T p (expire now p)
| ps_unshippable error : open_ p = true -> prog_step T p (dead_letter error p)
| ps_take token expires : token ∈ T -> open_ p = true -> prog_step T p (take_lease token expires p)
| ps_finish token st status reason decided accepted next error :
    held_by token p = true -> st ∈ [us_accepted; us_retryable; us_dead] ->
    prog_step T p (finished st status reason decided accepted next error p)
| ps_release : p_state p = us_held -> prog_step T p (release p).

Definition usage_row_step (T : list str) (r r' : UsageRow) : Prop :=
  usage_update_ok r r' = true /\ prog_step T (u_progress r) (u_progress r').
Definition shipment_step (T : list str) (s s' : Shipment) : Prop :=
  shipment_update_ok s s' = true /\ sh_created_at s' = sh_created_at s /\ prog_step T (sh_progress s) (sh_progress s').

(** What a method may do to a table: rows take steps, fresh rows appear. *)
Definition table_step {R} (step : relation R) (fresh : R -> Prop) (m m' : gmap str R) : Prop :=
  (forall k r, m !! k = Some r -> exists r', m' !! k = Some r' /\ rtc step r r') /\
  (forall k r', m !! k = None -> m' !! k = Some r' -> exists r, fresh r /\ rtc step r r').
Definition fresh_usage (r : UsageRow) : Prop := exists s, r = new_usage s.
Definition fresh_shipment (s : Shipment) : Prop := exists e t, s = new_shipment e t.

Lemma table_step_refl {R} (step : relation R) fresh m : table_step step fresh m m.
Proof. split; [|congruence]. intros k r Hk. exists r. by split. Qed.
Lemma table_step_trans {R} (step : relation R) fresh m1 m2 m3 :
  table_step step fresh m1 m2 -> table_step step fresh m2 m3 -> table_step step fresh m1 m3.
Proof.
  intros [A1 B1] [A2 B2]. split.
  - intros k r Hr. destruct (A1 _ _ Hr) as (r1 & Hr1 & S1). destruct (A2 _ _ Hr1) as (r2 & Hr2 & S2).
    exists r2. split; [done|by etrans].
  - intros k r3 H1 H3. destruct (m2 !! k) as [r2|] eqn:H2; [|by apply (B2 k)].
    destruct (B1 _ _ H1 H2) as (r & Hf & S1). destruct (A2 _ _ H2) as (r3' & H3' & S2).
    assert (r3' = r3) as -> by congruence. exists r. split; [done|by etrans].
Qed.

Lemma update_table_lookup {R} ok sel (f : R -> R) m m' n k :
  update_table ok sel f m = Some (m', n) -> m' !! k = (fun r => if sel k r then f r else r) <$> m !! k.
Proof.
  unfold update_table. destruct (forallb _ _); [|done]. intros [= <- _]. rewrite map_lookup_imap. by destruct (m !! k).
Qed.
Lemma update_table_ok {R} ok sel (f : R -> R) m m' n k r :
  update_table ok sel f m = Some (m', n) -> m !! k = Some r -> sel k r = true -> ok r (f r) = true.
Proof.
  unfold update_table. destruct (forallb _ _) eqn:Hf; [|done]. intros _ Hk Hs.
  apply (proj1 (forallb_forall _ _) Hf (k, r)). apply list_elem_of_In, list_elem_of_filter. split; [done|]. by apply elem_of_map_to_list.
Qed.
Lemma update_table_step {R} ok sel (f : R -> R) (step : relation R) fresh m m' n :
  update_table ok sel f m = Some (m', n) ->
  (forall k r, m !! k = Some r -> sel k r = true -> ok r (f r) = true -> step r (f r)) -> table_step step fresh m m'.
Proof.
  intros E Hs. split.
  - intros k r Hk. rewrite (update_table_lookup _ _ _ _ _ _ _ E), Hk. simpl. eexists. split; [done|].
    destruct (sel k r) eqn:Hsel; [|done]. apply rtc_once. eapply Hs; [done..|]. by eapply update_table_ok.
  - intros k r' Hk. rewrite (update_table_lookup _ _ _ _ _ _ _ E), Hk. done.
Qed.
Lemma update_table_dom {R} ok sel (f : R -> R) m m' n : update_table ok sel f m = Some (m', n) -> forall k, m' !! k = None <-> m !! k = None.
Proof. intros E k. rewrite (update_table_lookup _ _ _ _ _ _ _ E). by destruct (m !! k). Qed.

(** [n] counts the selected rows. *)
Lemma update_table_count {R} ok sel (f : R -> R) m m' n id :
  update_table ok sel f m = Some (m', n) -> (forall k r, sel k r = true -> k = id) ->
  n = (match m !! id with Some r => if sel id r then 1 else 0 | None => 0 end).
Proof.
  unfold update_table. destruct (forallb _ _); [|done]. intros [= _ <-] Hid.
  assert (Hin : forall kr, kr ∈ filter (fun kr => sel kr.1 kr.2 = true) (map_to_list m) <-> m !! id = Some kr.2 /\ kr.1 = id /\ sel id kr.2 = true).
  { intros [k r]. rewrite list_elem_of_filter, elem_of_map_to_list. simpl. split.
    - intros [Hs Hk]. pose proof (Hid _ _ Hs) as ->. done.
    - by intros (Hk & -> & Hs). }
  assert (Hnd : NoDup (filter (fun kr => sel kr.1 kr.2 = true) (map_to_list m))) by apply NoDup_filter, NoDup_map_to_list.
  destruct (filter _ _) as [|[k r] l]; simpl.
  - destruct (m !! id) as [r|] eqn:Hm; [|done]. destruct (sel id r) eqn:Hs; [|done].
    exfalso. apply (not_elem_of_nil (id, r)). by apply Hin.
  - destruct (proj1 (Hin (k, r))) as (Hm & Hk & Hs); [apply elem_of_cons; by left|]. simpl in *. subst k. rewrite Hm, Hs.
    destruct l as [|[k2 r2] l]; [done|]. exfalso. apply NoDup_cons in Hnd as [Hn _]. apply Hn.
    destruct (proj1 (Hin (k2, r2))) as (Hm2 & Hk2 & _); [apply elem_of_cons; right; apply elem_of_cons; by left|].
    simpl in *. subst k2. rewrite Hm in Hm2. injection Hm2 as <-. apply elem_of_cons. by left.
Qed.

(** ** Lemmas: every method is made of such steps *)
Definition usage_only (T : list str) (db db' : OutboxDB) : Prop :=
  ob_reports db' = ob_reports db /\ ob_shipments db' = ob_shipments db /\
  table_step (usage_row_step T) fresh_usage (ob_usage db) (ob_usage db').
Definition shipments_only (T : list str) (db db' : OutboxDB) : Prop :=
  ob_usage db' = ob_usage db /\ ob_reports db' = ob_reports db /\
  table_step (shipment_step T) (fun _ => False) (ob_shipments db) (ob_shipments db').
#[local] Instance usage_only_pre T : PreOrder (usage_only T).
Proof.
  split; [intros db; split; [done|]; split; [done|]; apply table_step_refl|].
  intros a b c (E1 & F1 & S1) (E2 & F2 & S2). split; [congruence|]. split; [congruence|]. by eapply table_step_trans.
Qed.
#[local] Instance shipments_only_pre T : PreOrder (shipments_only T).
Proof.
  split; [intros db; split; [done|]; split; [done|]; apply table_step_refl|].
  intros a b c (E1 & F1 & S1) (E2 & F2 & S2). split; [congruence|]. split; [congruence|]. by eapply table_step_trans.
Qed.

Section within.
Context (Rel : relation OutboxDB) `{!PreOrder Rel}.
Definition within {X} (m : OB X) : Prop := forall db db' r, m db = (db', r) -> Rel db db'.

Lemma within_pure {X} (m : OB X) : (forall db, (m db).1 = db) -> within m.
Proof. intros Hm db db' r E. specialize (Hm db). rewrite E in Hm. simpl in Hm. by subst. Qed.
Lemma within_ret {X} (x : X) : within (se_ret x).
Proof. by apply within_pure. Qed.
Lemma within_raise {X} e : within (se_raise (A := X) e).
Proof. by apply within_pure. Qed.
Lemma within_get : within se_get.
Proof. by apply within_pure. Qed.
Lemma within_lift {X} (o : outcome outbox_error X) : within (se_lift o).
Proof. by apply within_pure. Qed.
Lemma within_require b e : within (require b e).
Proof. apply within_pure. by destruct b. Qed.
Lemma within_bind {X Y} (m : OB X) (k : X -> OB Y) : within m -> (forall x, within (k x)) -> within (se_bind m k).
Proof.
  intros Hm Hk db db' r E. unfold se_bind in E. destruct (m db) as [d1 [x|e]] eqn:E1.
  - etrans; [by eapply Hm|by eapply Hk].
  - injection E as <- <-. by eapply Hm.
Qed.
Lemma within_transact {X} (m : OB X) : within m -> within (transact m).
Proof.
  intros Hm db db' r E. unfold transact in E. destruct (m db) as [d1 [x|e]] eqn:E1; injection E as <- <-; [by eapply Hm|done].
Qed.
End within.

Create HintDb within.
#[local] Hint Resolve within_ret within_raise within_get within_lift within_require : within.
Ltac within_step :=
  match goal with
  | |- within _ (se_bind _ _) => apply within_bind; [apply _| |intros ?]
  | |- within _ (transact _) => apply within_transact; [apply _|]
  | |- within _ (match ?x with _ => _ end) => destruct x
  | |- within _ (if ?x then _ else _) => destruct x
  | |- within _ _ => solve [auto with within typeclass_instances]
  end.

Lemma update_usage_within T sel f :
  (forall k r, sel k r = true -> usage_update_ok r (f r) = true -> usage_row_step T r (f r)) -> within (usage_only T) (update_usage sel f).
Proof.
  intros Hs db db' r E. unfold update_usage, se_bind, se_get in E. destruct (update_table _ _ _ _) as [[m n]|] eqn:Eu.
  - unfold se_put, se_ret in E. injection E as <- <-. split; [done|]. split; [done|].
    eapply update_table_step; [exact Eu|]. intros k x _ Hx Hok. by apply (Hs k).
  - injection E as <- <-. reflexivity.
Qed.
Lemma update_shipments_within T sel f :
  (forall k s, sel k s = true -> shipment_update_ok s (f s) = true -> shipment_step T s (f s)) ->
  within (shipments_only T) (update_shipments sel f).
Proof.
  intros Hs db db' r E. unfold update_shipments, se_bind, se_get in E. destruct (update_table _ _ _ _) as [[m n]|] eqn:Eu.
  - unfold se_put, se_ret in E. injection E as <- <-. split; [done|]. split; [done|].
    eapply update_table_step; [exact Eu|]. intros k x _ Hx Hok. by apply (Hs k).
  - injection E as <- <-. reflexivity.
Qed.

Lemma gate_rows_within T rows : within (usage_only T) (gate_rows rows).
Proof.
  induction rows as [|[k r] rows IH]; cbn [gate_rows]; [auto with within typeclass_instances|].
  destruct (shippable r); within_step; auto with within typeclass_instances.
  apply update_usage_within. intros k' r' [_ Ho]%andb_true_iff Hok. split; [done|]. by apply ps_unshippable.
Qed.
Lemma lease_rows_within T token expires ids : token ∈ T -> within (usage_only T) (lease_rows token expires ids).
Proof.
  intros Ht. induction ids as [|k ids IH]; cbn [lease_rows]; [auto with within typeclass_instances|].
  within_step; [|done]. apply update_usage_within. intros k' r' [_ Ho]%andb_true_iff Hok. split; [done|]. by apply ps_take.
Qed.
Lemma expire_within T now : within (usage_only T) (update_usage (fun _ r => expired now (u_progress r)) (on_progress (expire now))).
Proof. apply update_usage_within. intros k r He Hok. split; [done|]. by apply ps_expire. Qed.
#[local] Hint Resolve gate_rows_within expire_within : within.
Lemma lease_batch_within limit lf now token : within (usage_only [token]) (lease_batch limit lf now token).
Proof.
  unfold lease_batch. repeat within_step. apply lease_rows_within. apply elem_of_cons. by left.
Qed.

Lemma finish_within T id token st status c r d a n e :
  st ∈ [us_accepted; us_retryable; us_dead] -> within (usage_only T) (finish_sending id token st status c r d a n e).
Proof.
  intros Hst. unfold finish_sending. within_step; [|auto with within typeclass_instances].
  apply update_usage_within. intros k x [_ Hh]%andb_true_iff Hok. split; [done|]. by eapply ps_finish.
Qed.
Lemma finish_shipment_within T id token st status r d a n e :
  st ∈ [us_accepted; us_retryable; us_dead] -> within (shipments_only T) (finish_shipment id token st status r d a n e).
Proof.
  intros Hst. unfold finish_shipment. within_step; [|auto with within typeclass_instances].
  apply update_shipments_within. intros k x [_ Hh]%andb_true_iff Hok. split; [done|]. split; [done|]. by eapply ps_finish.
Qed.
Lemma insert_usage_step T db id s :
  ob_usage db !! id = None ->
  usage_only T db (mkOutbox (<[id := new_usage s]> (ob_usage db)) (ob_reports db) (ob_shipments db)).
Proof.
  intros Hn. split; [done|]. split; [done|]. simpl. split.
  - intros k r Hk. exists r. rewrite lookup_insert_ne by congruence. by split.
  - intros k r Hk Hr. destruct (decide (k = id)) as [->|Hne]; [|rewrite lookup_insert_ne in Hr by done; congruence].
    rewrite lookup_insert_eq in Hr. injection Hr as <-. exists (new_usage s). split; [by exists s|done].
Qed.
Lemma insert_prepared_within T l : within (usage_only T) (insert_prepared l).
Proof.
  induction l as [|x l IH]; cbn [insert_prepared]; [auto with within typeclass_instances|].
  intros db db' r E. unfold se_bind at 1, se_get in E. destruct (ob_usage db !! pr_event_id x) as [old|] eqn:Hk.
  - destruct (bool_decide _); [by eapply IH|]. by injection E as <- <-.
  - unfold se_bind, se_put in E. etrans; [by apply (insert_usage_step T db (pr_event_id x) (pr_source x))|by eapply IH].
Qed.
#[local] Hint Resolve insert_prepared_within : within.
Lemma enqueue_within T payloads created : within (usage_only T) (enqueue_batch payloads created).
Proof. unfold enqueue_batch. repeat within_step. Qed.

Lemma mark_accepted_within T id token dup c r now : within (usage_only T) (mark_accepted id token dup c r now).
Proof. unfold mark_accepted. repeat within_step. apply finish_within. set_solver. Qed.
Lemma mark_retryable_within T id token next e : within (usage_only T) (mark_retryable id token next e).
Proof. apply finish_within. set_solver. Qed.
Lemma mark_dead_within T id token e st c r now : within (usage_only T) (mark_dead id token e st c r now).
Proof. unfold mark_dead. repeat within_step. apply finish_within. set_solver. Qed.
Lemma mark_reconciliation_accepted_within T id token dup r now : within (shipments_only T) (mark_reconciliation_accepted id token dup r now).
Proof. apply finish_shipment_within. set_solver. Qed.
Lemma mark_reconciliation_retryable_within T id token next e : within (shipments_only T) (mark_reconciliation_retryable id token next e).
Proof. apply finish_shipment_within. set_solver. Qed.
Lemma mark_reconciliation_dead_within T id token e c r now : within (shipments_only T) (mark_reconciliation_dead id token e c r now).
Proof. unfold mark_reconciliation_dead. repeat within_step. apply finish_shipment_within. set_solver. Qed.
Lemma enable_within T : within (shipments_only T) enable_reconciliation_shipping.
Proof.
  apply update_shipments_within. intros k s Hh%bool_decide_eq_true Hok. split; [done|]. split; [done|]. by apply ps_release.
Qed.
Lemma lease_shipments_within T token expires n ids :
  (forall i, n <= i < n + length ids -> token i ∈ T) -> within (shipments_only T) (lease_shipments token expires n ids).
Proof.
  revert n. induction ids as [|k ids IH]; intros n Ht; cbn [lease_shipments]; [auto with within typeclass_instances|]. simpl in Ht.
  within_step; [|within_step; [|auto with within typeclass_instances]].
  - apply update_shipments_within. intros k' s [_ Ho]%andb_true_iff Hok. split; [done|]. split; [done|].
    apply ps_take; [apply Ht; lia|done].
  - apply IH. intros i Hi. apply Ht. lia.
Qed.
Lemma due_shipments_length now limit db : length (due_shipments now limit db).*1 <= limit.
Proof. rewrite length_fmap. unfold due_shipments. rewrite length_take. lia. Qed.
Lemma lease_reconciliation_within limit lf now token :
  within (shipments_only (draws token limit)) (lease_reconciliation_batch limit lf now token).
Proof.
  unfold lease_reconciliation_batch. repeat within_step.
  - apply update_shipments_within. intros k s He Hok. split; [done|]. split; [done|]. by apply ps_expire.
  - apply lease_shipments_within. intros i Hi. apply list_elem_of_fmap. exists i. split; [done|].
    apply elem_of_seq. pose proof (due_shipments_length now (Z.to_nat limit) x1). lia.
Qed.

(** ** Lemmas: rows only move forward *)
Definition progress_le (p p' : Progress) : Prop :=
  (p_attempt_count p <= p_attempt_count p')%Z /\ (terminal p = true -> p' = p) /\
  (p_state p <> us_held -> p_state p' <> us_held).
#[local] Instance progress_le_pre : PreOrder progress_le.
Proof.
  split; [intros p; split; [lia|done]|]. intros a b c (A1 & T1 & H1) (A2 & T2 & H2). split; [lia|]. split; [|auto].
  intros Ht. pose proof (T1 Ht) as ->. by apply T2.
Qed.
Lemma states_out l p s : in_states l p = true -> p_state p = s -> s ∈ l.
Proof. intros Hl%bool_decide_eq_true <-. done. Qed.
Lemma prog_step_open T p p' : prog_step T p p' -> terminal p = false.
Proof.
  unfold terminal, in_states. intros H. apply bool_decide_eq_false. intros Hin.
  assert (p_state p = us_accepted \/ p_state p = us_dead) as Ht by set_solver. clear Hin.
  destruct H as [now H|e H|t e _ H|t st status r d a n e H _|H].
  - unfold expired in H. bool_prop. destruct Ht; congruence.
  - apply bool_decide_eq_true in H. destruct Ht as [Ht|Ht]; rewrite Ht in H; set_solver.
  - apply bool_decide_eq_true in H. destruct Ht as [Ht|Ht]; rewrite Ht in H; set_solver.
  - unfold held_by in H. bool_prop. destruct Ht; congruence.
  - destruct Ht; congruence.
Qed.
Lemma prog_step_le T p p' : prog_step T p p' -> progress_le p p'.
Proof.
  intros H. split; [|split].
  - destruct H; simpl; lia.
  - intros Ht. apply prog_step_open in H. congruence.
  - destruct H; simpl; try done. intros _ ->. set_solver.
Qed.

(** ** Lemmas: a run of the outbox *)
Definition db_effect (T : list str) (db db' : OutboxDB) : Prop :=
  table_step (usage_row_step T) fresh_usage (ob_usage db) (ob_usage db') /\
  table_step (shipment_step T) fresh_shipment (ob_shipments db) (ob_shipments db') /\
  ob_reports db ⊆ ob_reports db'.

Lemma table_step_weaken {R} (step : relation R) (f g : R -> Prop) m m' :
  (forall r, f r -> g r) -> table_step step f m m' -> table_step step g m m'.
Proof. intros Hfg [A B]. split; [done|]. intros k r Hn Hr. destruct (B _ _ Hn Hr) as (r0 & ? & ?). eauto. Qed.
Lemma usage_only_effect T db db' : usage_only T db db' -> db_effect T db db'.
Proof. intros (E1 & E2 & Hs). split; [done|]. rewrite E1, E2. split; [apply table_step_refl|done]. Qed.
Lemma shipments_only_effect T db db' : shipments_only T db db' -> db_effect T db db'.
Proof.
  intros (E1 & E2 & Hs). unfold db_effect. rewrite E1, E2. split; [apply table_step_refl|]. split; [|done].
  by eapply table_step_weaken, Hs.
Qed.

Lemma require_usage_ret b e db db' x : require b e db = (db', Ret x) -> db' = db /\ b = true.
Proof. destruct b; [by intros [= <- _]|done]. Qed.

Lemma insert_report_ret enabled id r db db' x :
  insert_report enabled id r db = (db', Ret x) ->
  report_insert_ok id r (ob_reports db) = true /\ ob_shipments db !! id = None /\
  db' = mkOutbox (ob_usage db) (<[id := r]> (ob_reports db)) (<[id := new_shipment enabled (rp_recorded_at r)]> (ob_shipments db)).
Proof.
  intros E. unfold insert_report in E. apply se_bind_ret in E as (d0 & ? & Hg & E). injection Hg as <- <-.
  apply se_bind_ret in E as (? & ? & [-> Hok]%require_usage_ret & E).
  apply se_bind_ret in E as (? & ? & [-> Hn]%require_usage_ret & E). injection E as <-.
  split; [done|]. split; [by destruct (ob_shipments db !! id)|done].
Qed.

(** A report call either changes nothing or inserts one report. *)
Lemma report_cases enabled raw now db db' r :
  record_reconciliation_report enabled raw now db = (db', r) ->
  db' = db \/ exists id x, r = Ret (id, x, false) /\ report_insert_ok id x (ob_reports db) = true /\ ob_shipments db !! id = None /\
    db' = mkOutbox (ob_usage db) (<[id := x]> (ob_reports db)) (<[id := new_shipment enabled (rp_recorded_at x)]> (ob_shipments db)).
Proof.
  intros E. unfold record_reconciliation_report, se_bind at 1, se_lift at 1 in E.
  destruct (draft_report raw) as [d|e]; [|injection E as <- <-; by left].
  destruct r as [[[id x] b]|e]; [|apply transact_raise in E; by left].
  apply (proj1 (transact_ret _ _ _ _)) in E. apply se_bind_ret in E as (d0 & ? & Hg & E). injection Hg as <- <-.
  destruct (find_content _ _ _) as [kr|]; [injection E as <- _; by left|].
  apply se_bind_ret in E as (? & ? & [-> _]%se_lift_ret & E).
  apply se_bind_ret in E as (? & ? & [-> _]%require_usage_ret & E).
  destruct (dumps _) as [text|]; [|done]. cbv zeta in E.
  apply se_bind_ret in E as (? & ? & (Hok & Hn & ->)%insert_report_ret & E). injection E as <- <- <- <-. right. eauto 10.
Qed.
Lemma report_effect T enabled raw now db db' r :
  record_reconciliation_report enabled raw now db = (db', r) -> db_effect T db db'.
Proof.
  intros [->|(id & x & _ & Hok & Hn & ->)]%report_cases.
  { split; [apply table_step_refl|]. split; [apply table_step_refl|done]. }
  split; [apply table_step_refl|]. simpl. split; [split|].
  - intros k s Hk. exists s. rewrite lookup_insert_ne by congruence. by split.
  - intros k s Hk Hs. destruct (decide (k = id)) as [->|Hne]; [|rewrite lookup_insert_ne in Hs by done; congruence].
    rewrite lookup_insert_eq in Hs. injection Hs as <-. eexists. split; [by eexists _, _|done].
  - apply insert_subseteq. unfold report_insert_ok in Hok. bool_prop. by destruct (ob_reports db !! id).
Qed.

Lemma outbox_step_effect w w' :
  outbox_step w w' -> exists T, uw_used w' = T ++ uw_used w /\ (forall t, t ∈ T -> t ∉ uw_used w) /\ db_effect T (uw_db w) (uw_db w').
Proof.
  intros H. destruct H.
  2: { exists [token]. split; [done|]. split; [by intros t ->%list_elem_of_singleton|].
       by eapply usage_only_effect, lease_batch_within. }
  6: { exists (draws token limit). split; [done|]. split; [done|]. by eapply shipments_only_effect, lease_reconciliation_within. }
  all: exists []; split; [done|]; split; [by intros t ?%not_elem_of_nil|].
  - by eapply usage_only_effect, enqueue_within.
  - by eapply usage_only_effect, mark_accepted_within.
  - by eapply usage_only_effect, mark_retryable_within.
  - by eapply usage_only_effect, mark_dead_within.
  - by eapply report_effect.
  - by eapply shipments_only_effect, enable_within.
  - by eapply shipments_only_effect, mark_reconciliation_accepted_within.
  - by eapply shipments_only_effect, mark_reconciliation_retryable_within.
  - by eapply shipments_only_effect, mark_reconciliation_dead_within.
Qed.

(** ** Lemmas: evidence *)
Definition usage_le (r r' : UsageRow) : Prop :=
  u_source r' = u_source r /\ progress_le (u_progress r) (u_progress r') /\ (terminal (u_progress r) = true -> r' = r).
#[local] Instance usage_le_pre : PreOrder usage_le.
Proof.
  split; [done|]. intros a b c (S1 & P1 & T1) (S2 & P2 & T2). split; [congruence|]. split; [by etrans|].
  intros Ht. pose proof (T1 Ht) as ->. by apply T2.
Qed.
Lemma usage_row_step_le T r r' : usage_row_step T r r' -> usage_le r r'.
Proof.
  intros [Hok Hp]. split; [|split; [by eapply prog_step_le|]].
  - unfold usage_update_ok in Hok. by bool_prop.
  - intros Ht. apply prog_step_open in Hp. congruence.
Qed.
Lemma usage_rows_le T r r' : rtc (usage_row_step T) r r' -> usage_le r r'.
Proof. induction 1 as [|x y z H _ IH]; [done|]. etrans; [by eapply usage_row_step_le|done]. Qed.
Lemma usage_rows_check T r r' : rtc (usage_row_step T) r r' -> usage_checks r = true -> usage_checks r' = true.
Proof. induction 1 as [|x y z [H _] _ IH]; [done|]. intros _. apply IH. unfold usage_update_ok in H. by bool_prop. Qed.

Lemma run_usage_le w w' id r :
  rtc outbox_step w w' -> ob_usage (uw_db w) !! id = Some r ->
  exists r', ob_usage (uw_db w') !! id = Some r' /\ usage_le r r'.
Proof.
  intros Hs. revert r. induction Hs as [|x y z H _ IH]; intros r Hr; [by exists r|].
  apply outbox_step_effect in H as (T & _ & _ & [A _] & _). destruct (A _ _ Hr) as (r1 & Hr1 & Hle%usage_rows_le).
  destruct (IH _ Hr1) as (r2 & Hr2 & Hle2). exists r2. split; [done|by etrans].
Qed.

(** The invariant of the usage table and of the tokens. *)
Definition tokens_used (w : UsageWorld) : Prop :=
  (forall id r t, ob_usage (uw_db w) !! id = Some r -> held_by t (u_progress r) = true -> t ∈ uw_used w) /\
  (forall id s t, ob_shipments (uw_db w) !! id = Some s -> held_by t (sh_progress s) = true -> t ∈ uw_used w).
Definition usage_ok (w : UsageWorld) : Prop :=
  (forall id r, ob_usage (uw_db w) !! id = Some r -> usage_checks r = true) /\ tokens_used w.

Lemma prog_step_token T p p' t : prog_step T p p' -> held_by t p' = true -> t ∈ T.
Proof.
  unfold held_by. intros H Ht. bool_prop. destruct H; simpl in *; try done; congruence.
Qed.
Lemma usage_rows_token T r r' t :
  rtc (usage_row_step T) r r' -> held_by t (u_progress r') = true -> r' = r \/ t ∈ T.
Proof.
  intros [->|(y & _ & [_ Hp])]%rtc_inv_r Ht; [by left|]. right. by eapply prog_step_token.
Qed.
Lemma shipment_rows_token T s s' t :
  rtc (shipment_step T) s s' -> held_by t (sh_progress s') = true -> s' = s \/ t ∈ T.
Proof.
  intros [->|(y & _ & _ & _ & Hp)]%rtc_inv_r Ht; [by left|]. right. by eapply prog_step_token.
Qed.

Lemma usage_ok_step w w' : outbox_step w w' -> usage_ok w -> usage_ok w'.
Proof.
  intros (T & Hu & _ & [A B] & [A2 B2] & _)%outbox_step_effect [Hc [Ht1 Ht2]]. split; [|split].
  - intros id r' Hr'. destruct (ob_usage (uw_db w) !! id) as [r|] eqn:Hr.
    + destruct (A _ _ Hr) as (r1 & Hr1 & Hst). assert (r1 = r') as -> by congruence. eapply usage_rows_check; [done|]. by eapply Hc.
    + destruct (B _ _ Hr Hr') as (r & [s ->] & Hst). by eapply usage_rows_check.
  - intros id r' t Hr' Hh. rewrite Hu, elem_of_app. destruct (ob_usage (uw_db w) !! id) as [r|] eqn:Hr.
    + destruct (A _ _ Hr) as (r1 & Hr1 & Hst). assert (r1 = r') as -> by congruence.
      destruct (usage_rows_token _ _ _ _ Hst Hh) as [->|?]; [|by left]. right. by eapply Ht1.
    + destruct (B _ _ Hr Hr') as (r & [s ->] & Hst). destruct (usage_rows_token _ _ _ _ Hst Hh) as [->|?]; [done|by left].
  - intros id r' t Hr' Hh. rewrite Hu, elem_of_app. destruct (ob_shipments (uw_db w) !! id) as [r|] eqn:Hr.
    + destruct (A2 _ _ Hr) as (r1 & Hr1 & Hst). assert (r1 = r') as -> by congruence.
      destruct (shipment_rows_token _ _ _ _ Hst Hh) as [->|?]; [|by left]. right. by eapply Ht2.
    + destruct (B2 _ _ Hr Hr') as (r & (e & t0 & ->) & Hst). destruct (shipment_rows_token _ _ _ _ Hst Hh) as [->|?]; [by destruct e|by left].
Qed.
Lemma usage_reachable w : rtc outbox_step usage_world0 w -> usage_ok w.
Proof.
  intros H. apply (rtc_invariant outbox_step usage_ok _ _ usage_ok_step H).
  split; [|split]; simpl; intros id r; by rewrite lookup_empty.
Qed.

(** ** Lemmas: what a lease returns *)
Definition expire_row (now : Z) (r : UsageRow) : UsageRow := if expired now (u_progress r) then on_progress (expire now) r else r.

Lemma update_usage_ret sel f db db' n :
  update_usage sel f db = (db', Ret n) ->
  update_table usage_update_ok sel f (ob_usage db) = Some (ob_usage db', n) /\
  ob_reports db' = ob_reports db /\ ob_shipments db' = ob_shipments db.
Proof.
  unfold update_usage, se_bind, se_get. destruct (update_table _ _ _ _) as [[m k]|]; [|done].
  unfold se_put, se_ret. by intros [= <- <-].
Qed.
Lemma update_shipments_ret sel f db db' n :
  update_shipments sel f db = (db', Ret n) ->
  update_table shipment_update_ok sel f (ob_shipments db) = Some (ob_shipments db', n) /\
  ob_usage db' = ob_usage db /\ ob_reports db' = ob_reports db.
Proof.
  unfold update_shipments, se_bind, se_get. destruct (update_table _ _ _ _) as [[m k]|]; [|done].
  unfold se_put, se_ret. by intros [= <- <-].
Qed.

Lemma gate_rows_ret rows db db' ids :
  gate_rows rows db = (db', Ret ids) ->
  ids = (filter (fun kr => shippable kr.2 = true) rows).*1 /\
  forall k, k ∉ (filter (fun kr => shippable kr.2 = false) rows).*1 -> ob_usage db' !! k = ob_usage db !! k.
Proof.
  revert db ids. induction rows as [|[k r] rows IH]; intros db ids E; cbn [gate_rows] in E; [by injection E as <- <-|].
  destruct (shippable r) eqn:Hs.
  - apply se_bind_ret in E as (ids1 & d1 & H1 & E). injection E as <- <-. destruct (IH _ _ H1) as [-> Hk].
    rewrite filter_cons_True by done. rewrite filter_cons_False by (simpl; congruence). by rewrite fmap_cons.
  - apply se_bind_ret in E as (n & d1 & (Hu & _)%update_usage_ret & E). destruct (IH _ _ E) as [-> Hk].
    rewrite filter_cons_False by (simpl; congruence). rewrite filter_cons_True by done. split; [done|].
    intros k' Hk'. rewrite fmap_cons, elem_of_cons in Hk'. simpl in Hk'. rewrite Hk by tauto.
    rewrite (update_table_lookup _ _ _ _ _ _ _ Hu). rewrite bool_decide_false by tauto. simpl. by destruct (ob_usage db !! k').
Qed.

Lemma lease_rows_ret token expires ids db db' x :
  NoDup ids -> lease_rows token expires ids db = (db', Ret x) ->
  forall k, ob_usage db' !! k =
    (fun r => if bool_decide (k ∈ ids) && open_ (u_progress r) then on_progress (take_lease token expires) r else r) <$> ob_usage db !! k.
Proof.
  intros Hnd. revert db. induction Hnd as [|i ids Hi Hnd IH]; intros db E k; cbn [lease_rows] in E.
  { injection E as <- _. by destruct (ob_usage db !! k). }
  apply se_bind_ret in E as (n & d1 & (Hu & _)%update_usage_ret & E). rewrite (IH _ E k), (update_table_lookup _ _ _ _ _ _ _ Hu).
  destruct (ob_usage db !! k) as [r|]; [|done]. simpl. f_equal. destruct (decide (k = i)) as [->|Hne].
  - rewrite (bool_decide_true (i = i)) by done. rewrite (bool_decide_false (i ∈ ids)) by done.
    rewrite bool_decide_true by (apply elem_of_cons; by left). by destruct (open_ (u_progress r)).
  - rewrite (bool_decide_false (k = i)) by done. simpl.
    rewrite (bool_decide_ext (k ∈ i :: ids) (k ∈ ids)); [done|]. rewrite elem_of_cons. tauto.
Qed.

(** The order of a table is total, and its keys decide it. *)
Lemma key_le_total a b : key_le a b = true \/ key_le b a = true.
Proof.
  revert b. induction a as [|x a IH]; intros [|y b]; simpl; auto.
  destruct (N.lt_trichotomy x y) as [H|[->|H]]; [left|destruct (IH b); [left|right]|right];
    rewrite ?(proj2 (N.ltb_lt _ _) H), ?N.eqb_refl; try done; apply orb_true_iff; by right.
Qed.
Lemma key_le_trans a b c : key_le a b = true -> key_le b c = true -> key_le a c = true.
Proof.
  revert b c. induction a as [|x a IH]; intros [|y b] [|z c]; simpl; try done.
  rewrite !orb_true_iff, !andb_true_iff, !N.ltb_lt, !N.eqb_eq. intros [H1|[-> H1]] [H2|[-> H2]]; [left; lia|by left|by left|right].
  split; [done|]. by eapply IH.
Qed.
Lemma key_le_antisym a b : key_le a b = true -> key_le b a = true -> a = b.
Proof.
  revert b. induction a as [|x a IH]; intros [|y b]; simpl; try done.
  rewrite !orb_true_iff, !andb_true_iff, !N.ltb_lt, !N.eqb_eq. intros [H1|[-> H1]] [H2|[E H2]]; try lia. f_equal. by apply IH.
Qed.
#[global] Instance row_before_total {R} (created : R -> Z) : Total (row_before created).
Proof.
  intros x y. unfold row_before. destruct (Z.lt_trichotomy (created x.2) (created y.2)) as [?|[E|?]]; [by left; left| |by right; left].
  rewrite E. destruct (key_le_total x.1 y.1); auto.
Qed.
#[global] Instance row_before_trans {R} (created : R -> Z) : Transitive (row_before created).
Proof.
  intros x y z. unfold row_before. intros [H1|[E1 H1]] [H2|[E2 H2]]; [left; lia..|right]. split; [congruence|]. by eapply key_le_trans.
Qed.
(** Two ordered lists with the same rows are the same. *)
Lemma ordered_unique {R} (created : R -> Z) (l1 l2 : list (str * R)) :
  NoDup l1.*1 -> NoDup l2.*1 -> (forall x, x ∈ l1 <-> x ∈ l2) ->
  StronglySorted (row_before created) l1 -> StronglySorted (row_before created) l2 -> l1 = l2.
Proof.
  intros H1 H2 Hx S1 S2. eapply StronglySorted_unique_strong; [|exact S1|exact S2|].
  - intros [k x] [k' y] Hin1 Hin2%Hx [?|[? L1]] [?|[? L2]]; simpl in *; try lia. pose proof (key_le_antisym _ _ L1 L2) as <-.
    f_equal. assert (list_to_map (M := gmap str R) l1 !! k = Some x) as E by by apply elem_of_list_to_map.
    assert (list_to_map (M := gmap str R) l1 !! k = Some y) as E' by by apply elem_of_list_to_map. congruence.
  - apply NoDup_Permutation; [by eapply NoDup_fmap_1..|done].
Qed.
Lemma ordered_sorted {R} (created : R -> Z) (l : list (str * R)) : StronglySorted (row_before created) (ordered created l).
Proof. unfold ordered. apply StronglySorted_merge_sort; apply _. Qed.
Lemma StronglySorted_sublist {T} (R : relation T) l1 l2 : sublist l1 l2 -> StronglySorted R l2 -> StronglySorted R l1.
Proof.
  induction 1 as [|x l1 l2 Hs IH|x l1 l2 Hs IH]; intros H; [constructor|..]; inversion H; subst; [|auto].
  constructor; [auto|]. apply Forall_forall. intros y Hy. eapply Forall_forall; [eassumption|]. by eapply elem_of_submseteq, sublist_submseteq.
Qed.

Lemma due_rows_elem now limit m k r : (k, r) ∈ due_rows now limit m -> m !! k = Some r /\ due now (u_progress r) = true.
Proof.
  unfold due_rows, ordered. intros Hin. apply elem_of_take in Hin as (i & Hin%list_elem_of_lookup_2 & _).
  rewrite merge_sort_Permutation in Hin. apply list_elem_of_filter in Hin as [Hd Hm%elem_of_map_to_list]. done.
Qed.
Lemma due_rows_NoDup now limit m : NoDup (due_rows now limit m).*1.
Proof.
  unfold due_rows, ordered. rewrite fmap_take. eapply sublist_NoDup; [|apply sublist_take].
  rewrite merge_sort_Permutation. eapply sublist_NoDup; [|apply fmap_sublist, sublist_filter]. apply NoDup_fst_map_to_list.
Qed.

(** A row and its expired form have the same source, so the same gate. *)
Lemma shippable_expire now r : shippable (expire_row now r) = shippable r.
Proof. unfold expire_row. by destruct (expired _ _). Qed.

Lemma filter_keys_disjoint {R} (P : R -> bool) (l : list (str * R)) k :
  NoDup l.*1 -> k ∈ (filter (fun kr => P kr.2 = true) l).*1 -> k ∉ (filter (fun kr => P kr.2 = false) l).*1.
Proof.
  intros Hnd (kr & -> & [Hp Hin]%list_elem_of_filter)%list_elem_of_fmap (kr' & Hk & [Hp' Hin']%list_elem_of_filter)%list_elem_of_fmap.
  assert (kr' = kr) as ->; [|congruence]. destruct kr as [k r], kr' as [k' r']. simpl in *. subst k'.
  clear Hp Hp'. induction l as [|[a b] l IH]; [by apply not_elem_of_nil in Hin|]. rewrite fmap_cons, NoDup_cons in Hnd. simpl in Hnd.
  destruct Hnd as [Ha Hnd]. rewrite elem_of_cons in Hin, Hin'.
  destruct Hin as [Hin|Hin], Hin' as [Hin'|Hin']; [congruence|..|by apply IH]; exfalso; apply Ha, list_elem_of_fmap.
  - exists (k, r'). split; [by injection Hin|done].
  - exists (k, r). split; [by injection Hin'|done].
Qed.

Lemma lease_batch_ret limit lf now token db db' rows :
  lease_batch limit lf now token db = (db', Ret rows) ->
  (0 < limit)%Z /\ (0 < lf)%Z /\
  exists m1, (forall k, m1 !! k = expire_row now <$> ob_usage db !! k) /\
    rows = (fun kr => (kr.1, on_progress (take_lease token (now + lf)) kr.2)) <$>
             filter (fun kr => shippable kr.2 = true) (due_rows now (Z.to_nat limit) m1) /\
    forall k row, (k, row) ∈ rows -> ob_usage db' !! k = Some row.
Proof.
  intros E. unfold lease_batch in E. apply se_bind_ret in E as (? & ? & [-> Hpos]%require_usage_ret & E).
  apply andb_true_iff in Hpos as [H1%Z.ltb_lt H2%Z.ltb_lt]. split; [done|]. split; [done|].
  apply (proj1 (transact_ret _ _ _ _)) in E.
  apply se_bind_ret in E as (n & d1 & (Hu & _)%update_usage_ret & E).
  apply se_bind_ret in E as (d1' & ? & Hg & E). injection Hg as <- <-.
  apply se_bind_ret in E as (ids & d2 & [-> Hk2]%gate_rows_ret & E).
  apply se_bind_ret in E as (? & d3 & Hl & E).
  apply se_bind_ret in E as (d3' & ? & Hg & E). injection Hg as <- <-. injection E as <- <-.
  assert (Hnd := due_rows_NoDup now (Z.to_nat limit) (ob_usage d1)).
  set (rows := due_rows now (Z.to_nat limit) (ob_usage d1)) in *. set (ids := (filter (fun kr => shippable kr.2 = true) rows).*1) in *.
  exists (ob_usage d1). split.
  { intros k. rewrite (update_table_lookup _ _ _ _ _ _ _ Hu). by destruct (ob_usage db !! k). }
  assert (Hids : NoDup ids) by (eapply sublist_NoDup; [exact Hnd|apply fmap_sublist, sublist_filter]).
  pose proof (lease_rows_ret _ _ _ _ _ _ Hids Hl) as Hl'.
  assert (Hleased : forall k r, (k, r) ∈ rows -> shippable r = true ->
    k ∈ ids /\ ob_usage d3 !! k = Some (on_progress (take_lease token (now + lf)) r)).
  { intros k r Hin Hs. assert (Hk : k ∈ ids) by (apply list_elem_of_fmap; exists (k, r); split; [done|by apply list_elem_of_filter]).
    split; [done|]. destruct (due_rows_elem _ _ _ _ _ Hin) as [Hm Hd]. rewrite Hl', Hk2, Hm by by apply filter_keys_disjoint.
    simpl. rewrite bool_decide_true by done. unfold due in Hd. apply andb_true_iff in Hd as [-> _]. done. }
  set (lease := fun kr : str * UsageRow => (kr.1, on_progress (take_lease token (now + lf)) kr.2)).
  assert (forall x, x ∈ select_rows ids (ob_usage d3) <-> x ∈ lease <$> filter (fun kr => shippable kr.2 = true) rows) as Hel.
  { intros [k row]. unfold select_rows, ordered. rewrite merge_sort_Permutation, list_elem_of_filter, elem_of_map_to_list, list_elem_of_fmap. simpl. split.
    - intros [(kr & -> & [Hs Hin]%list_elem_of_filter)%list_elem_of_fmap Hrow]. destruct kr as [k r]. simpl in *.
      destruct (Hleased _ _ Hin Hs) as [_ Hx]. exists (k, r). rewrite Hrow in Hx. injection Hx as ->. split; [done|by apply list_elem_of_filter].
    - intros ([k' r] & [= -> ->] & [Hs Hin]%list_elem_of_filter). by destruct (Hleased _ _ Hin Hs). }
  split.
  - apply (ordered_unique usage_created).
    + unfold select_rows, ordered. rewrite merge_sort_Permutation. eapply sublist_NoDup; [|apply fmap_sublist, sublist_filter]. apply NoDup_fst_map_to_list.
    + rewrite <- list_fmap_compose. exact Hids.
    + exact Hel.
    + apply ordered_sorted.
    + apply (StronglySorted_fmap lease (row_before usage_created)); [by intros|].
      eapply StronglySorted_sublist; [apply sublist_filter|]. eapply StronglySorted_sublist; [apply sublist_take|apply ordered_sorted].
  - intros k row Hin. apply Hel, list_elem_of_fmap in Hin as ([k' r] & [= -> ->] & [Hs Hin]%list_elem_of_filter). by destruct (Hleased _ _ Hin Hs).
Qed.

(** ** Lemmas: fences *)
Definition leased_by (db : OutboxDB) (id token : str) : Prop :=
  exists r, ob_usage db !! id = Some r /\ held_by token (u_progress r) = true.

Lemma prog_step_unhold T p p' t : prog_step T p p' -> held_by t p = true -> t ∉ T -> held_by t p' = false.
Proof.
  intros Hp Ht HT. destruct (held_by t p') eqn:E; [|done]. exfalso. by eapply HT, prog_step_token.
Qed.
Lemma usage_rows_held T r r' t :
  rtc (usage_row_step T) r r' -> t ∉ T -> held_by t (u_progress r') = true -> r' = r.
Proof. intros Hs HT Hh. by destruct (usage_rows_token _ _ _ _ Hs Hh). Qed.

Lemma step_leased w w' id t :
  usage_ok w -> outbox_step w w' -> t ∈ uw_used w ->
  t ∈ uw_used w' /\ (forall r', ob_usage (uw_db w') !! id = Some r' -> held_by t (u_progress r') = true -> ob_usage (uw_db w) !! id = Some r').
Proof.
  intros Hok (T & Hu & HT & [A B] & _)%outbox_step_effect Ht. split; [rewrite Hu; apply elem_of_app; by right|].
  assert (Hn : t ∉ T) by (intros ?; by eapply HT). intros r' Hr' Hh. destruct (ob_usage (uw_db w) !! id) as [r|] eqn:Hr.
  - destruct (A _ _ Hr) as (r1 & Hr1 & Hs). assert (r1 = r') as -> by congruence. by rewrite (usage_rows_held _ _ _ _ Hs Hn Hh).
  - destruct (B _ _ Hr Hr') as (r & [s ->] & Hs). pose proof (usage_rows_held _ _ _ _ Hs Hn Hh) as ->. done.
Qed.
Lemma run_leased w w' id t :
  usage_ok w -> rtc outbox_step w w' -> t ∈ uw_used w ->
  t ∈ uw_used w' /\ (forall r', ob_usage (uw_db w') !! id = Some r' -> held_by t (u_progress r') = true -> ob_usage (uw_db w) !! id = Some r').
Proof.
  intros Hok Hs. revert Hok. induction Hs as [|x y z H Hs IH]; intros Hok Ht; [done|].
  destruct (step_leased _ _ id _ Hok H Ht) as [Hy Hr]. destruct (IH (usage_ok_step _ _ H Hok) Hy) as [Hz Hr2]. split; [done|].
  intros r' H1 H2. apply Hr; [by apply Hr2|done].
Qed.

(** A finish under a token that does not hold the row changes nothing. *)
Lemma update_none {R} ok sel (f : R -> R) m :
  (forall k r, m !! k = Some r -> sel k r = false) -> update_table ok sel f m = Some (m, 0).
Proof.
  intros Hn. unfold update_table.
  assert (Hf : filter (fun kr => sel kr.1 kr.2 = true) (map_to_list m) = []).
  { destruct (filter _ _) as [|[k r] l] eqn:E; [done|]. exfalso.
    assert (Hin : (k, r) ∈ filter (fun kr => sel kr.1 kr.2 = true) (map_to_list m)) by (rewrite E; apply elem_of_cons; by left).
    apply list_elem_of_filter in Hin as [Hs Hm%elem_of_map_to_list]. simpl in Hs. by rewrite (Hn _ _ Hm) in Hs. }
  rewrite Hf. simpl. f_equal. f_equal. apply map_eq. intros k. rewrite map_lookup_imap.
  destruct (m !! k) as [r|] eqn:Hk; [|done]. simpl. by rewrite (Hn _ _ Hk).
Qed.
Lemma finish_unheld db id token st status c r d a n e :
  ~ leased_by db id token -> finish_sending id token st status c r d a n e db = (db, Ret false).
Proof.
  intros Hn. unfold finish_sending, update_usage, se_bind, se_get. rewrite update_none.
  - unfold se_put, se_ret. by destruct db.
  - intros k x Hk. destruct (decide (k = id)) as [->|Hne]; [|by rewrite bool_decide_false].
    rewrite bool_decide_true by done. simpl. destruct (held_by token (u_progress x)) eqn:Hh; [|done]. destruct Hn. by exists x.
Qed.

(** ** Properties of the usage table *)

(** Usage evidence is never lost. In every run of any processes, a stored
    event stays stored with the digest, payload and identity it was enqueued
    with, its attempts are never uncounted, and once it is accepted or dead
    nothing about it changes any more; every stored row satisfies the table's
    constraints. *)
Theorem usage_evidence_kept w w' id r :
  rtc outbox_step usage_world0 w -> rtc outbox_step w w' -> ob_usage (uw_db w) !! id = Some r ->
  exists r', ob_usage (uw_db w') !! id = Some r' /\ u_source r' = u_source r /\
    (p_attempt_count (u_progress r) <= p_attempt_count (u_progress r'))%Z /\
    (terminal (u_progress r) = true -> r' = r) /\ usage_checks r' = true.
Proof.
  intros Hw Hs Hr. destruct (run_usage_le _ _ _ _ Hs Hr) as (r' & Hr' & Hsrc & (Ha & _) & Ht). exists r'.
  do 4 (split; [done|]). assert (Hok : usage_ok w') by (apply usage_reachable; by etrans). by apply (proj1 Hok id).
Qed.

(** C10: A lease is exact and fenced. A batch with a fresh token that returns is
    the list of the shippable rows among the first [limit] due ones in order of
    creation, in that order (a lease that has run out counts as due; rows after
    the limit wait for another batch, unshippable ones are no part of it), each
    stored under the batch's token with one more
    attempt and until [now + lease_for]. Whatever runs afterwards, a row that
    still carries the token is the very row that was returned; once it does not,
    it never will again, and every attempt to finish it with that token returns
    false and changes nothing. *)
Theorem usage_lease_fenced w limit lf now token db rows :
  rtc outbox_step usage_world0 w -> token ∉ uw_used w ->
  lease_batch limit lf now token (uw_db w) = (db, Ret rows) ->
  (exists m1, (forall k, m1 !! k = expire_row now <$> ob_usage (uw_db w) !! k) /\
    rows = (fun kr => (kr.1, on_progress (take_lease token (now + lf)) kr.2)) <$>
             filter (fun kr => shippable kr.2 = true) (due_rows now (Z.to_nat limit) m1)) /\
  (forall k row, (k, row) ∈ rows -> ob_usage db !! k = Some row) /\
  forall w2 id row, rtc outbox_step (mkUsageWorld db (token :: uw_used w)) w2 -> (id, row) ∈ rows ->
    (leased_by (uw_db w2) id token -> ob_usage (uw_db w2) !! id = Some row) /\
    (~ leased_by (uw_db w2) id token -> forall w3, rtc outbox_step w2 w3 ->
      ~ leased_by (uw_db w3) id token /\
      forall st status c r d a n e, finish_sending id token st status c r d a n e (uw_db w3) = (uw_db w3, Ret false)).
Proof.
  intros Hw Hf El. destruct (lease_batch_ret _ _ _ _ _ _ _ El) as (_ & _ & m1 & Hm1 & Hex & Hrows). split; [by exists m1|]. split; [done|].
  assert (Hst : outbox_step w (mkUsageWorld db (token :: uw_used w))) by by eapply os_lease.
  assert (Hok : usage_ok (mkUsageWorld db (token :: uw_used w))) by by eapply usage_ok_step, usage_reachable.
  assert (Hin : token ∈ token :: uw_used w) by (apply elem_of_cons; by left).
  intros w2 id row H2 Hr. destruct (run_leased _ _ id token Hok H2 Hin) as [Hin2 Hback].
  assert (Hok2 : usage_ok w2) by exact (rtc_invariant _ _ _ _ usage_ok_step H2 Hok). split.
  - intros (r & Hr2 & Hh). apply Hrows in Hr as Hdb. pose proof (Hback _ Hr2 Hh) as E. simpl in E. congruence.
  - intros Hn w3 H3. destruct (run_leased _ _ id token Hok2 H3 Hin2) as [_ Hback3].
    assert (Hn3 : ~ leased_by (uw_db w3) id token).
    { intros (r & Hr3 & Hh). apply Hn. exists r. split; [by apply Hback3|done]. }
    split; [done|]. intros. by apply finish_unheld.
Qed.

(** ** Lemmas: enqueueing *)
Definition first_prepared (k : str) (xs : list Prepared) : option Prepared := head (filter (fun x => pr_event_id x = k) xs).
Definition digest_of (x : Prepared) : str := us_payload_sha256 (pr_source x).

Lemma insert_prepared_ret xs db db' y :
  insert_prepared xs db = (db', Ret y) ->
  ob_reports db' = ob_reports db /\ ob_shipments db' = ob_shipments db /\
  (forall k, ob_usage db' !! k = match ob_usage db !! k with
     | Some r => Some r
     | None => (fun x => new_usage (pr_source x)) <$> first_prepared k xs
     end) /\
  Forall (fun x => exists r, ob_usage db' !! pr_event_id x = Some r /\ us_payload_sha256 (u_source r) = digest_of x) xs.
Proof.
  revert db. induction xs as [|x xs IH]; intros db E; cbn [insert_prepared] in E.
  { injection E as <- _. split; [done|]. split; [done|]. split; [|constructor]. intros k. by destruct (ob_usage db !! k). }
  apply se_bind_ret in E as (d0 & ? & Hg & E). injection Hg as <- <-.
  destruct (ob_usage db !! pr_event_id x) as [old|] eqn:Hx.
  - case_bool_decide as Hd; [|done]. destruct (IH _ E) as (Hr & Hs & Hk & Hall). split; [done|]. split; [done|]. split.
    + intros k. rewrite Hk. destruct (ob_usage db !! k) as [r|] eqn:Hkk; [done|]. unfold first_prepared.
      rewrite filter_cons_False; [done|]. congruence.
    + constructor; [|done]. exists old. rewrite Hk, Hx. done.
  - apply se_bind_ret in E as (? & ? & Hp & E). injection Hp as <- <-. destruct (IH _ E) as (Hr & Hs & Hk & Hall).
    split; [done|]. split; [done|]. simpl in Hk. split.
    + intros k. rewrite Hk. destruct (decide (k = pr_event_id x)) as [->|Hne].
      * rewrite lookup_insert_eq, Hx. unfold first_prepared. by rewrite filter_cons_True.
      * rewrite lookup_insert_ne by done. destruct (ob_usage db !! k); [done|]. unfold first_prepared. by rewrite filter_cons_False.
    + constructor; [|done]. exists (new_usage (pr_source x)). split; [|done]. by rewrite Hk, lookup_insert_eq.
Qed.

Lemma insert_present xs db :
  Forall (fun x => exists r, ob_usage db !! pr_event_id x = Some r /\ us_payload_sha256 (u_source r) = digest_of x) xs ->
  insert_prepared xs db = (db, Ret tt).
Proof.
  induction 1 as [|x xs (r & Hr & Hd) _ IH]; cbn [insert_prepared]; [done|]. unfold se_bind, se_get.
  rewrite Hr, bool_decide_true by done. done.
Qed.

(** Only the creation time of a prepared row depends on the clock. *)
Lemma prepare_clock t t' payload :
  match prepare t payload, prepare t' payload with
  | Ret x, Ret x' => pr_event_id x' = pr_event_id x /\ digest_of x' = digest_of x
  | Raise e, Raise e' => e' = e
  | _, _ => False
  end.
Proof.
  unfold prepare. destruct payload; try done. destruct (bool_decide _); [done|]. destruct (payload_sha256 d); [|done].
  destruct (negb _); [done|]. destruct (source_time _); [|done]. destruct (_ || _); [done|]. by destruct (dumps d).
Qed.
Lemma prepare_all_clock t t' seen payloads :
  match prepare_all t seen payloads, prepare_all t' seen payloads with
  | Ret xs, Ret xs' => Forall2 (fun x x' => pr_event_id x' = pr_event_id x /\ digest_of x' = digest_of x) xs xs'
  | Raise e, Raise e' => e' = e
  | _, _ => False
  end.
Proof.
  revert seen. induction payloads as [|p ps IH]; intros seen; cbn [prepare_all]; [constructor|].
  pose proof (prepare_clock t t' p) as Hp. destruct (prepare t p) as [x|e], (prepare t' p) as [x'|e']; try done. simpl.
  destruct Hp as [Hid Hdg]. unfold digest_of in Hdg. rewrite Hid, Hdg.
  pose proof (IH (<[pr_event_id x := us_payload_sha256 (pr_source x)]> seen)) as Hrec.
  destruct (seen !! pr_event_id x) as [d|]; [destruct (bool_decide _); [|done]|].
  all: destruct (prepare_all t _ ps), (prepare_all t' _ ps); try done; simpl; by constructor.
Qed.

(** Enqueueing is atomic and idempotent. A batch that raises changes
    nothing. A batch that returns has stored every payload under its event id,
    new events as pending rows with no attempt and events already stored as
    they were, all with the digest of the payload; enqueueing the same batch
    again, at any time, returns and changes nothing. *)
Theorem enqueue_exact payloads created db db' r :
  enqueue_batch payloads created db = (db', r) ->
  match r with
  | Raise _ => db' = db
  | Ret _ =>
    exists xs, prepare_all created ∅ payloads = Ret xs /\
      (forall k, ob_usage db' !! k = match ob_usage db !! k with
         | Some x => Some x
         | None => (fun x => new_usage (pr_source x)) <$> first_prepared k xs
         end) /\
      Forall (fun x => exists y, ob_usage db' !! pr_event_id x = Some y /\ us_payload_sha256 (u_source y) = digest_of x) xs /\
      forall later, enqueue_batch payloads later db' = (db', Ret tt)
  end.
Proof.
  intros E. destruct r as [y|e].
  - unfold enqueue_batch in E. apply se_bind_ret in E as (? & ? & [-> Hne]%require_usage_ret & E).
    apply se_bind_ret in E as (xs & ? & [-> Hxs]%se_lift_ret & E). apply (proj1 (transact_ret _ _ _ _)) in E.
    destruct (insert_prepared_ret _ _ _ _ E) as (_ & _ & Hk & Hall). exists xs. split; [done|]. split; [done|]. split; [done|].
    intros later. unfold enqueue_batch, se_bind at 1, require. rewrite Hne. unfold se_ret at 1, se_bind, se_lift.
    pose proof (prepare_all_clock created later ∅ payloads) as Hc. rewrite Hxs in Hc.
    destruct (prepare_all later ∅ payloads) as [xs'|]; [|done]. unfold transact. rewrite insert_present; [done|].
    clear -Hall Hc. induction Hc as [|x x' xs xs' [Hid Hdg] _ IH]; [constructor|]. apply Forall_cons in Hall as [H1 H2].
    constructor; [by rewrite Hid, Hdg|by apply IH].
  - unfold enqueue_batch, se_bind at 1 in E. destruct (require _ _ db) as [d1 [x|e1]] eqn:Er.
    + apply require_usage_ret in Er as [-> _]. unfold se_bind, se_lift in E. destruct (prepare_all _ _ _); [by apply transact_raise in E|].
      by injection E as <- _.
    + unfold require in Er. destruct (negb _); [done|]. injection Er as <- _. by injection E as <- _.
Qed.

(** ** Lemmas: chains of reports *)
Record chain_ok (m : gmap str Report) : Prop := {
  co_positive : forall k r, m !! k = Some r -> (0 < rp_revision r)%Z;
  co_first : forall k r, m !! k = Some r -> rp_revision r = 1%Z -> rp_supersedes r = None;
  co_prior : forall k r, m !! k = Some r -> (1 < rp_revision r)%Z -> exists k' r', m !! k' = Some r' /\
    rp_chain r' = rp_chain r /\ rp_revision r' = (rp_revision r - 1)%Z /\ rp_supersedes r = Some (rp_report_sha256 r');
  co_unique : forall k1 r1 k2 r2, m !! k1 = Some r1 -> m !! k2 = Some r2 -> rp_chain r1 = rp_chain r2 ->
    rp_revision r1 = rp_revision r2 -> k1 = k2
}.

Lemma chain_rows_elem c m k r : (k, r) ∈ chain_rows c m <-> m !! k = Some r /\ rp_chain r = c.
Proof. unfold chain_rows. rewrite list_elem_of_filter, elem_of_map_to_list. simpl. tauto. Qed.

(** Every revision below a stored one is stored. *)
Lemma chain_below m k r n :
  chain_ok m -> m !! k = Some r -> (1 <= n <= rp_revision r)%Z ->
  exists k' r', m !! k' = Some r' /\ rp_chain r' = rp_chain r /\ rp_revision r' = n.
Proof.
  intros Hok. remember (Z.to_nat (rp_revision r - n)) as d eqn:Hd. revert k r Hd. induction d as [|d IH]; intros k r Hd Hk Hn.
  { exists k, r. split; [done|]. split; [done|]. lia. }
  destruct (co_prior _ Hok _ _ Hk) as (k1 & r1 & Hk1 & Hc1 & Hr1 & _); [lia|].
  destruct (IH k1 r1) as (k2 & r2 & Hk2 & Hc2 & Hr2); [lia|done|lia|]. exists k2, r2. split; [done|]. split; [congruence|done].
Qed.

Lemma insert_facts id r m :
  report_insert_ok id r m = true ->
  m !! id = None /\ (0 < rp_revision r)%Z /\
  (forall k x, m !! k = Some x -> rp_chain x = rp_chain r -> rp_revision x <> rp_revision r) /\
  (rp_revision r = 1%Z -> rp_supersedes r = None /\ forall k x, m !! k = Some x -> rp_chain x <> rp_chain r) /\
  ((1 < rp_revision r)%Z -> exists k x, m !! k = Some x /\ rp_chain x = rp_chain r /\ rp_revision x = (rp_revision r - 1)%Z /\
    rp_supersedes r = Some (rp_report_sha256 x)).
Proof.
  unfold report_insert_ok. intros H. apply andb_true_iff in H as [[[Hn Hp%Z.ltb_lt]%andb_true_iff Hu]%andb_true_iff Hl].
  split; [by destruct (m !! id)|]. split; [done|]. rewrite forallb_forall in Hu. split; [|split].
  - intros k x Hk Hc Hr. specialize (Hu (k, x)). rewrite <- list_elem_of_In, chain_rows_elem in Hu. specialize (Hu (conj Hk Hc)).
    bool_prop. simpl in *. lia.
  - intros H1. rewrite H1 in Hl. simpl in Hl. bool_prop. split; [by destruct (rp_supersedes r)|].
    intros k x Hk Hc. assert (Hin : (k, x) ∈ chain_rows (rp_chain r) m) by by apply chain_rows_elem.
    match goal with E : chain_rows _ _ = [] |- _ => rewrite E in Hin end. by apply not_elem_of_nil in Hin.
  - intros H1. replace (rp_revision r =? 1)%Z with false in Hl by (symmetry; apply Z.eqb_neq; lia).
    destruct (rp_supersedes r) as [s|]; [|done]. apply existsb_exists in Hl as ([k x] & Hin & Hx).
    rewrite <- list_elem_of_In, chain_rows_elem in Hin. destruct Hin as [Hk Hc]. simpl in Hx. bool_prop.
    exists k, x. split; [done|]. split; [done|]. split; [lia|]. congruence.
Qed.

Lemma chain_ok_insert id r m : chain_ok m -> report_insert_ok id r m = true -> chain_ok (<[id := r]> m).
Proof.
  intros Hok (Hn & Hp & Hu & H1 & Hm)%insert_facts. split.
  - intros k x [[-> ->]|[_ Hk]]%lookup_insert_Some; [done|by eapply co_positive].
  - intros k x [[-> ->]|[_ Hk]]%lookup_insert_Some Hx; [by apply H1|by eapply co_first].
  - intros k x [[-> ->]|[_ Hk]]%lookup_insert_Some Hx.
    + destruct (Hm Hx) as (k' & x' & Hk' & ?). exists k', x'. rewrite lookup_insert_ne by congruence. done.
    + destruct (co_prior _ Hok _ _ Hk Hx) as (k' & x' & Hk' & ?). exists k', x'. rewrite lookup_insert_ne by congruence. done.
  - intros k1 x1 k2 x2 [[<- <-]|[N1 Hk1]]%lookup_insert_Some [[<- <-]|[N2 Hk2]]%lookup_insert_Some Hc Hr; [done|..].
    + destruct (Hu _ _ Hk2); congruence.
    + destruct (Hu _ _ Hk1); congruence.
    + by eapply co_unique.
Qed.
(** A new report is after every stored one of its chain. *)
Lemma insert_is_last id r m k x :
  chain_ok m -> report_insert_ok id r m = true -> m !! k = Some x -> rp_chain x = rp_chain r -> (rp_revision x < rp_revision r)%Z.
Proof.
  intros Hok (_ & Hp & Hu & _ & _)%insert_facts Hk Hc. destruct (decide (rp_revision x < rp_revision r)%Z) as [|Hge]; [done|].
  destruct (chain_below m k x (rp_revision r) Hok Hk) as (k' & x' & Hk' & Hc' & Hr'); [lia|].
  destruct (Hu _ _ Hk'); congruence.
Qed.

(** ** Lemmas: shipments follow the chain *)
Definition shipped_in_order (db : OutboxDB) : Prop :=
  forall k s r k' s' r', ob_shipments db !! k = Some s -> ob_reports db !! k = Some r ->
    ob_shipments db !! k' = Some s' -> ob_reports db !! k' = Some r' ->
    rp_chain r' = rp_chain r -> (rp_revision r' < rp_revision r)%Z -> (0 < p_attempt_count (sh_progress s))%Z ->
    p_state (sh_progress s') = us_accepted.
Record reports_ok (db : OutboxDB) : Prop := {
  ro_chain : chain_ok (ob_reports db);
  ro_cover : forall k, is_Some (ob_shipments db !! k) <-> is_Some (ob_reports db !! k);
  ro_checks : forall k s, ob_shipments db !! k = Some s -> shipment_checks s = true;
  ro_order : shipped_in_order db
}.

Definition shipment_le (s s' : Shipment) : Prop := progress_le (sh_progress s) (sh_progress s').
#[local] Instance shipment_le_pre : PreOrder shipment_le.
Proof. split; [intros s; unfold shipment_le; reflexivity|]. intros a b c. unfold shipment_le. apply transitivity. Qed.
Lemma shipment_rows_le T s s' : rtc (shipment_step T) s s' -> shipment_le s s'.
Proof. induction 1 as [|x y z (_ & _ & H) _ IH]; [reflexivity|]. etrans; [exact (prog_step_le _ _ _ H)|done]. Qed.
Lemma shipment_rows_check T s s' : rtc (shipment_step T) s s' -> shipment_checks s = true -> shipment_checks s' = true.
Proof. induction 1 as [|x y z (H & _ & _) _ IH]; [done|]. intros _. apply IH. unfold shipment_update_ok in H. by bool_prop. Qed.
Lemma accepted_stays s s' : shipment_le s s' -> p_state (sh_progress s) = us_accepted -> p_state (sh_progress s') = us_accepted.
Proof. intros (_ & Ht & _) Ha. rewrite Ht; [done|]. unfold terminal, in_states. rewrite Ha. reflexivity. Qed.

(** A statement that leaves reports alone keeps everything but the order. *)
Lemma shipments_only_ok T db db' :
  shipments_only T db db' -> reports_ok db -> shipped_in_order db' -> reports_ok db'.
Proof.
  intros (_ & Er & [A B]) [Hc Hv Hk Ho] Hord. split; [by rewrite Er| | |done].
  - intros k. rewrite Er, <- Hv. split; intros [s Hs].
    + destruct (ob_shipments db !! k) as [s0|] eqn:H0; [by eexists|]. by destruct (B _ _ H0 Hs) as (? & [] & _).
    + destruct (A _ _ Hs) as (s' & Hs' & _). by eexists.
  - intros k s Hs. destruct (ob_shipments db !! k) as [s0|] eqn:H0.
    + destruct (A _ _ H0) as (s1 & Hs1 & Hst). assert (s1 = s) as -> by congruence. eapply shipment_rows_check; [done|]. by eapply Hk.
    + by destruct (B _ _ H0 Hs) as (? & [] & _).
Qed.

(** Rows that gain their first attempt have accepted predecessors. *)
Lemma order_kept T db db' :
  shipments_only T db db' -> shipped_in_order db ->
  (forall k s s' r, ob_shipments db !! k = Some s -> ob_shipments db' !! k = Some s' -> ob_reports db !! k = Some r ->
     (p_attempt_count (sh_progress s) < p_attempt_count (sh_progress s'))%Z -> predecessors_accepted db r = true) ->
  shipped_in_order db'.
Proof.
  intros (_ & Er & [A B]) Ho Hnew k s r k' s' r' Hs Hr Hs' Hr' Hc Hlt Ha. rewrite Er in Hr, Hr'.
  destruct (ob_shipments db !! k) as [s0|] eqn:H0; [|by destruct (B _ _ H0 Hs) as (? & [] & _)].
  destruct (ob_shipments db !! k') as [s0'|] eqn:H0'; [|by destruct (B _ _ H0' Hs') as (? & [] & _)].
  destruct (A _ _ H0) as (s1 & Hs1 & Hst%shipment_rows_le). assert (s1 = s) as -> by congruence.
  destruct (A _ _ H0') as (s1' & Hs1' & Hst'%shipment_rows_le). assert (s1' = s') as -> by congruence.
  apply (accepted_stays _ _ Hst'). destruct (decide (0 < p_attempt_count (sh_progress s0))%Z) as [Hp|Hz].
  - by eapply (Ho k s0 r k' s0' r').
  - destruct Hst as (Hle & _). assert (Hp : predecessors_accepted db r = true) by (apply (Hnew k s0 s r H0 Hs Hr); lia).
    unfold predecessors_accepted in Hp. rewrite forallb_forall in Hp. specialize (Hp (k', r')).
    rewrite <- list_elem_of_In, chain_rows_elem in Hp. specialize (Hp (conj Hr' Hc)). simpl in Hp. rewrite H0' in Hp.
    replace (rp_revision r' <? rp_revision r)%Z with true in Hp by (symmetry; apply Z.ltb_lt; lia). simpl in Hp. by bool_prop.
Qed.

Lemma lease_shipments_ret token expires n ids db db' leased :
  lease_shipments token expires n ids db = (db', Ret leased) ->
  forall k, k ∉ ids -> ob_shipments db' !! k = ob_shipments db !! k.
Proof.
  revert n db leased. induction ids as [|i ids IH]; intros n db leased E k Hk; cbn [lease_shipments] in E; [by injection E as <- _|].
  apply not_elem_of_cons in Hk as [Hne Hk].
  apply se_bind_ret in E as (hit & d1 & (Hu & _)%update_shipments_ret & E).
  apply se_bind_ret in E as (l & d2 & E2 & E). injection E as <- _. rewrite (IH _ _ _ E2 _ Hk).
  rewrite (update_table_lookup _ _ _ _ _ _ _ Hu), bool_decide_false by done. simpl. by destruct (ob_shipments db !! k).
Qed.
Lemma due_shipments_elem now limit db k :
  k ∈ (due_shipments now limit db).*1 -> exists s, ob_shipments db !! k = Some s /\ shippable_shipment now db (k, s) = true.
Proof.
  intros ([k' s] & -> & Hin)%list_elem_of_fmap. unfold due_shipments, ordered in Hin.
  apply elem_of_take in Hin as (i & Hin%list_elem_of_lookup_2 & _). rewrite merge_sort_Permutation in Hin.
  apply list_elem_of_filter in Hin as [Hd Hm%elem_of_map_to_list]. by exists s.
Qed.

(** An update that gives no attempts keeps the order. *)
Lemma order_no_attempts T db db' :
  shipments_only T db db' -> shipped_in_order db ->
  (forall k s s', ob_shipments db !! k = Some s -> ob_shipments db' !! k = Some s' ->
     p_attempt_count (sh_progress s') = p_attempt_count (sh_progress s)) -> shipped_in_order db'.
Proof. intros Hs Ho Hn. eapply order_kept; [done..|]. intros k s s' r H1 H2 _ Hlt. rewrite (Hn _ _ _ H1 H2) in Hlt. lia. Qed.

Lemma update_shipments_attempts sel f db db' n :
  update_shipments sel f db = (db', Ret n) ->
  (forall s, p_attempt_count (sh_progress (f s)) = p_attempt_count (sh_progress s)) ->
  forall k s s', ob_shipments db !! k = Some s -> ob_shipments db' !! k = Some s' ->
    p_attempt_count (sh_progress s') = p_attempt_count (sh_progress s).
Proof.
  intros (Hu & _)%update_shipments_ret Hf k s s' Hs Hs'. rewrite (update_table_lookup _ _ _ _ _ _ _ Hu), Hs in Hs'. simpl in Hs'.
  injection Hs' as <-. destruct (sel k s); [apply Hf|done].
Qed.

Lemma finish_shipment_order (T : list str) id token st status r d a n e db db' x :
  st ∈ [us_accepted; us_retryable; us_dead] -> finish_shipment id token st status r d a n e db = (db', x) ->
  reports_ok db -> reports_ok db'.
Proof.
  intros Hst E Hok. pose proof (finish_shipment_within T _ _ _ _ _ _ _ _ _ Hst _ _ _ E) as Hs.
  eapply shipments_only_ok; [done..|]. eapply order_no_attempts; [done|by destruct Hok|]. intros k s s' H1 H2.
  unfold finish_shipment, se_bind in E. destruct (update_shipments _ _ db) as [d1 [m|err]] eqn:Eu.
  - injection E as <- _. by eapply update_shipments_attempts.
  - injection E as <- _. unfold update_shipments, se_bind, se_get in Eu. destruct (update_table _ _ _ _) as [[? ?]|]; [done|].
    injection Eu as <- _. congruence.
Qed.
Lemma update_shipments_ok T sel f db db' x :
  (forall k s, sel k s = true -> shipment_update_ok s (f s) = true -> shipment_step T s (f s)) ->
  (forall s, p_attempt_count (sh_progress (f s)) = p_attempt_count (sh_progress s)) ->
  update_shipments sel f db = (db', x) -> reports_ok db -> reports_ok db'.
Proof.
  intros Hst Hf E Hok. pose proof (update_shipments_within T _ _ Hst _ _ _ E) as Hs.
  eapply shipments_only_ok; [done..|]. eapply order_no_attempts; [done|by destruct Hok|]. intros k s s' H1 H2.
  destruct x as [m|err]; [by eapply update_shipments_attempts|].
  unfold update_shipments, se_bind, se_get in E. destruct (update_table _ _ _ _) as [[? ?]|]; [done|]. injection E as <- _. congruence.
Qed.

Lemma lease_reconciliation_ok limit lf now token db db' x :
  lease_reconciliation_batch limit lf now token db = (db', x) -> reports_ok db -> reports_ok db'.
Proof.
  intros E Hok. pose proof (lease_reconciliation_within _ _ _ _ _ _ _ E) as Hs.
  eapply shipments_only_ok; [done..|]. unfold lease_reconciliation_batch, se_bind at 1 in E.
  destruct (require _ _ db) as [d0 [u0|e0]] eqn:Er; [|unfold require in Er; destruct (_ && _); [done|]; injection Er as <- _; injection E as <- _; by destruct Hok].
  apply require_usage_ret in Er as [-> _]. destruct x as [rows|e]; [|apply transact_raise in E as ->; by destruct Hok].
  apply (proj1 (transact_ret _ _ _ _)) in E. apply se_bind_ret in E as (n & d1 & Hu & E).
  assert (Hok1 : reports_ok d1).
  { refine (update_shipments_ok [] _ _ _ _ _ _ _ Hu Hok); [|done]. intros k s He Hc. split; [done|]. split; [done|]. by apply ps_expire. }
  apply se_bind_ret in E as (d1' & ? & Hg & E). injection Hg as <- <-.
  apply se_bind_ret in E as (ids & d2 & Hl & E). apply se_bind_ret in E as (d2' & ? & Hg & E). injection Hg as <- <-. injection E as <- _.
  eapply (order_kept (draws token limit) d1); [|by destruct Hok1|].
  - eapply lease_shipments_within; [|exact Hl]. intros i Hi. apply list_elem_of_fmap. exists i. split; [done|].
    apply elem_of_seq. pose proof (due_shipments_length now (Z.to_nat limit) d1). lia.
  - intros k s s' r H1 H2 Hr Hlt. destruct (decide (k ∈ (due_shipments now (Z.to_nat limit) d1).*1)) as [Hin|Hin].
    + apply due_shipments_elem in Hin as (s1 & Hs1 & Hsh). unfold shippable_shipment in Hsh. simpl in Hsh. rewrite Hr in Hsh. by bool_prop.
    + rewrite (lease_shipments_ret _ _ _ _ _ _ _ Hl _ Hin), H1 in H2. injection H2 as <-. lia.
Qed.

Lemma report_insert_order enabled id x db :
  reports_ok db -> report_insert_ok id x (ob_reports db) = true -> ob_shipments db !! id = None ->
  reports_ok (mkOutbox (ob_usage db) (<[id := x]> (ob_reports db)) (<[id := new_shipment enabled (rp_recorded_at x)]> (ob_shipments db))).
Proof.
  intros [Hc Hv Hk Ho] Hin Hn. split; simpl.
  - by apply chain_ok_insert.
  - intros k. destruct (decide (k = id)) as [->|Hne]; [by rewrite !lookup_insert_eq|]. by rewrite !lookup_insert_ne.
  - intros k s [[-> <-]|[_ Hs]]%lookup_insert_Some; [by destruct enabled|by eapply Hk].
  - intros k s r k' s' r'. simpl. intros [[<- <-]|[N1 Hs]]%lookup_insert_Some Hr [[<- <-]|[N2 Hs']]%lookup_insert_Some Hr' Hch Hlt Ha; simpl in *.
    + by destruct enabled.
    + by destruct enabled.
    + rewrite lookup_insert_ne in Hr by done. rewrite lookup_insert_eq in Hr'. injection Hr' as <-.
      pose proof (insert_is_last _ _ _ _ _ Hc Hin Hr (eq_sym Hch)). lia.
    + rewrite lookup_insert_ne in Hr, Hr' by done. by eapply (Ho k s r k' s' r').
Qed.

Lemma reports_step w w' : outbox_step w w' -> reports_ok (uw_db w) -> reports_ok (uw_db w').
Proof.
  intros H Hok.
  assert (Husage : forall T db, usage_only T (uw_db w) db -> reports_ok db).
  { intros T db (Er & Es & _). destruct Hok as [Hc Hv Hk Ho]. unfold shipped_in_order in Ho. split; unfold shipped_in_order; by rewrite ?Er, ?Es. }
  assert (Hst : forall st, st ∈ [us_accepted; us_retryable; us_dead] -> forall id token status r d a n e db x,
    finish_shipment id token st status r d a n e (uw_db w) = (db, x) -> reports_ok db).
  { intros. by eapply (finish_shipment_order []). }
  destruct H; simpl.
  - by eapply (Husage []), enqueue_within.
  - by eapply Husage, lease_batch_within.
  - by eapply (Husage []), mark_accepted_within.
  - by eapply (Husage []), mark_retryable_within.
  - by eapply (Husage []), mark_dead_within.
  - apply report_cases in H as [->|(id & x & _ & Hi & Hn & ->)]; [done|]. by apply report_insert_order.
  - by eapply lease_reconciliation_ok.
  - unfold enable_reconciliation_shipping in H. refine (update_shipments_ok [] _ _ _ _ _ _ _ H Hok); [|done].
    intros k s Hh%bool_decide_eq_true Hc. split; [done|]. split; [done|]. by apply ps_release.
  - eapply Hst; [|done]. set_solver.
  - eapply Hst; [|done]. set_solver.
  - unfold mark_reconciliation_dead, se_bind at 1 in H. destruct (require _ _ _) as [d0 [x0|e0]] eqn:Er.
    + apply require_usage_ret in Er as [-> _]. eapply Hst; [|done]. set_solver.
    + unfold require in Er. destruct (_ || _); [done|]. injection Er as <- _. by injection H as <- _.
Qed.
Lemma reports_reachable w : rtc outbox_step usage_world0 w -> reports_ok (uw_db w).
Proof.
  intros H. refine (rtc_invariant outbox_step (fun w => reports_ok (uw_db w)) _ _ reports_step H _). simpl. split; simpl.
  - split; intros k r; by rewrite lookup_empty.
  - intros k. rewrite !lookup_empty. done.
  - intros k s. by rewrite lookup_empty.
  - intros k s r k' s' r'. simpl. by rewrite lookup_empty.
Qed.

(** ** Properties of reports *)

(** Reports of a session form one linear chain that is only appended to. In
    every run the reports of a session have the revisions 1 to n without gap or
    duplicate, each after the first superseding exactly the digest of the one
    before; every report has its shipment; and no step removes or changes a
    stored report. *)
Theorem report_chain_linear w w' id r :
  rtc outbox_step usage_world0 w -> rtc outbox_step w w' -> ob_reports (uw_db w) !! id = Some r ->
  ob_reports (uw_db w') !! id = Some r /\ is_Some (ob_shipments (uw_db w) !! id) /\
  (forall n, (1 <= n <= rp_revision r)%Z -> exists id' r', ob_reports (uw_db w) !! id' = Some r' /\
     rp_chain r' = rp_chain r /\ rp_revision r' = n /\
     forall id2 r2, ob_reports (uw_db w) !! id2 = Some r2 -> rp_chain r2 = rp_chain r -> rp_revision r2 = n -> id2 = id') /\
  (rp_revision r = 1%Z -> rp_supersedes r = None) /\
  ((1 < rp_revision r)%Z -> exists id' r', ob_reports (uw_db w) !! id' = Some r' /\ rp_chain r' = rp_chain r /\
     rp_revision r' = (rp_revision r - 1)%Z /\ rp_supersedes r = Some (rp_report_sha256 r')).
Proof.
  intros Hw Hs Hr. destruct (reports_reachable _ Hw) as [Hc Hv _ _]. split.
  { clear Hw Hc Hv. revert Hr. induction Hs as [|x y z H _ IH]; intros Hr; [done|].
    apply outbox_step_effect in H as (T & _ & _ & _ & _ & Hsub). apply IH. by eapply lookup_weaken. }
  split; [apply Hv; by eexists|]. split; [|split; [by eapply co_first|by eapply co_prior]].
  intros n Hn. destruct (chain_below _ _ _ _ Hc Hr Hn) as (k & x & Hk & Hx & Hrev). exists k, x. do 3 (split; [done|]).
  intros id2 r2 H2 Hc2 Hr2. eapply co_unique; [done|exact H2|exact Hk|congruence|congruence].
Qed.

(** Reports are delivered in revision order. In every run, once delivery of
    a report has been attempted, the shipments of all earlier revisions of its
    session are accepted. *)
Theorem reports_ship_in_order w id s r id' s' r' :
  rtc outbox_step usage_world0 w ->
  ob_shipments (uw_db w) !! id = Some s -> ob_reports (uw_db w) !! id = Some r ->
  ob_shipments (uw_db w) !! id' = Some s' -> ob_reports (uw_db w) !! id' = Some r' ->
  rp_chain r' = rp_chain r -> (rp_revision r' < rp_revision r)%Z -> (0 < p_attempt_count (sh_progress s))%Z ->
  p_state (sh_progress s') = us_accepted.
Proof. intros Hw. destruct (reports_reachable _ Hw) as [_ _ _ Ho]. intros. by eapply (Ho id s r id' s' r'). Qed.
End outbox.

(** ** Witnesses *)
#[local] Instance demo_usage_env : UsageEnv := {
  other_str := fun _ => [];
  other_int := fun _ => None;
  payload_sha256 := fun _ => Some (u "h");
  source_time := fun v => match v with JInt z => Some z | _ => None end;
  dumps := fun d => match py_get (u "text") d with JStr s => Some s | _ => None end;
  loads := fun _ => Some (JDict [(u "schema_version", JInt 3); (u "evidence_schema_version", JInt 1)]);
  sha256_text := fun t => u "sha256:" ++ t;
  uuid5 := fun t => t;
  evidence_valid := fun _ _ => true;
  report_consistent := fun _ => true;
  shippable_version := 3;
  unshippable_text := fun _ => u "unshippable"
}.
Definition demo_payload (id : str) : json :=
  JDict [(u "source_event_id", JStr id); (u "source_payload_sha256", JStr (u "h")); (u "environment", JStr (u "prod"));
         (u "source_product", JStr (u "gw")); (u "request_id", JStr (u "r")); (u "session_id", JStr (u "s"));
         (u "occurred_at", JInt 5); (u "text", JStr (u "{}"))].
Definition demo_batch : list json := [demo_payload (u "e1"); demo_payload (u "e2")].
Definition demo_w1 : UsageWorld := mkUsageWorld (enqueue_batch demo_batch 10 empty_outbox).1 [].
Lemma demo_enqueued : enqueue_batch demo_batch 10 empty_outbox = (uw_db demo_w1, Ret tt).
Proof. vm_compute. reflexivity. Qed.
Lemma demo_w1_reached : rtc outbox_step usage_world0 demo_w1.
Proof. apply rtc_once. eapply (os_enqueue usage_world0), demo_enqueued. Qed.

Lemma enqueue_exact_witness : enqueue_batch demo_batch 99 (uw_db demo_w1) = (uw_db demo_w1, Ret tt).
Proof. destruct (enqueue_exact demo_batch 10 empty_outbox (uw_db demo_w1) (Ret tt) demo_enqueued) as (xs & _ & _ & _ & Hl). exact (Hl 99%Z). Defined.

Definition demo_lease := lease_batch 1 50 20 (u "tok") (uw_db demo_w1).
Definition demo_leased : list (str * UsageRow) := match demo_lease.2 with Ret rows => rows | Raise _ => [] end.
Definition demo_w2 : UsageWorld := mkUsageWorld demo_lease.1 [u "tok"].
Lemma demo_lease_ok : lease_batch 1 50 20 (u "tok") (uw_db demo_w1) = (demo_lease.1, Ret demo_leased) /\
  demo_leased.*1 = [u "e1"] /\ (u "tok" ∉ uw_used demo_w1).
Proof. split; [vm_compute; reflexivity|]. split; [vm_compute; reflexivity|]. apply not_elem_of_nil. Qed.
Lemma demo_w2_step : outbox_step demo_w1 demo_w2.
Proof. destruct demo_lease_ok as (El & _ & Ht). exact (os_lease _ _ _ _ _ _ _ Ht El). Qed.

Definition demo_row : UsageRow := default (new_usage (mkSource [] [] [] [] 0 [] [] 0)) (ob_usage (uw_db demo_w1) !! u "e1").
Lemma demo_row_stored : ob_usage (uw_db demo_w1) !! u "e1" = Some demo_row.
Proof. vm_compute. reflexivity. Qed.
Lemma usage_evidence_kept_witness :
  exists r', ob_usage (uw_db demo_w2) !! u "e1" = Some r' /\ u_source r' = u_source demo_row /\ usage_checks r' = true.
Proof.
  destruct (usage_evidence_kept demo_w1 demo_w2 (u "e1") demo_row demo_w1_reached (rtc_once _ _ demo_w2_step) demo_row_stored)
    as (r' & Hr & Hs & _ & _ & Hc). exists r'. split; [exact Hr|]. split; [exact Hs|exact Hc].
Defined.

Definition demo_leased_row : UsageRow := match demo_leased with (_, r) :: _ => r | [] => demo_row end.
Lemma demo_leased_list : demo_leased = [(u "e1", demo_leased_row)].
Proof. vm_compute. reflexivity. Qed.
Lemma demo_leased_elem : (u "e1", demo_leased_row) ∈ demo_leased.
Proof. rewrite demo_leased_list. apply elem_of_cons. left. reflexivity. Qed.
Definition demo_w3 : UsageWorld := mkUsageWorld (mark_retryable (u "e1") (u "tok") 90 (u "x") (uw_db demo_w2)).1 [u "tok"].
Lemma demo_w3_step : outbox_step demo_w2 demo_w3.
Proof. exact (os_retry demo_w2 (u "e1") (u "tok") 90 (u "x") _ _ (surjective_pairing _)). Qed.
Lemma demo_w3_free : ~ leased_by (uw_db demo_w3) (u "e1") (u "tok").
Proof.
  intros (r & Hr & Hh).
  assert (E : held_by (u "tok") <$> (u_progress <$> ob_usage (uw_db demo_w3) !! u "e1") = Some false) by (vm_compute; reflexivity).
  rewrite Hr in E. simpl in E. congruence.
Qed.
Lemma usage_lease_fenced_witness :
  finish_sending (u "e1") (u "tok") us_dead None None None None None None None (uw_db demo_w3) = (uw_db demo_w3, Ret false).
Proof.
  destruct demo_lease_ok as (El & _ & Ht).
  destruct (usage_lease_fenced demo_w1 1 50 20 (u "tok") demo_lease.1 demo_leased demo_w1_reached Ht El) as (_ & _ & Hf).
  destruct (Hf demo_w3 (u "e1") demo_leased_row (rtc_once _ _ demo_w3_step) demo_leased_elem) as [_ Hn].
  exact (proj2 (Hn demo_w3_free demo_w3 (rtc_refl _ _)) us_dead None None None None None None None).
Defined.

(** Two revisions of a session: the first is shipped and accepted, then the
    second is leased. *)
Definition demo_report (text : str) : json :=
  JDict [(u "environment", JStr (u "prod")); (u "source_product", JStr (u "gw")); (u "request_id", JStr (u "r"));
         (u "session_id", JStr (u "s")); (u "status", JStr (u "match")); (u "summary_emitted_as_cost_event", JBool false);
         (u "text", JStr text)].
Definition demo_r1 : UsageWorld := mkUsageWorld (record_reconciliation_report true (demo_report (u "a")) 10 empty_outbox).1 [].
Definition demo_r2 : UsageWorld := mkUsageWorld (record_reconciliation_report true (demo_report (u "b")) 11 (uw_db demo_r1)).1 [].
Definition demo_tokens (c : N) (n : nat) : str := [c; N.of_nat n].
Definition demo_r3 : UsageWorld :=
  mkUsageWorld (lease_reconciliation_batch 2 50 20 (demo_tokens 1) (uw_db demo_r2)).1 (draws (demo_tokens 1) 2 ++ []).
Definition demo_id (text : str) : str := u "commercial-usage-reconciliation:r:s:sha256:" ++ text.
Definition demo_r4 : UsageWorld :=
  mkUsageWorld (mark_reconciliation_accepted (demo_id (u "a")) (demo_tokens 1 0) false None 30 (uw_db demo_r3)).1 (uw_used demo_r3).
Definition demo_r5 : UsageWorld :=
  mkUsageWorld (lease_reconciliation_batch 2 50 40 (demo_tokens 2) (uw_db demo_r4)).1 (draws (demo_tokens 2) 2 ++ uw_used demo_r4).
Lemma demo_r2_reached : rtc outbox_step usage_world0 demo_r2.
Proof.
  eapply rtc_r; [eapply rtc_once|].
  - exact (os_report usage_world0 true (demo_report (u "a")) 10 _ _ (surjective_pairing _)).
  - exact (os_report demo_r1 true (demo_report (u "b")) 11 _ _ (surjective_pairing _)).
Qed.
Lemma demo_r5_reached : rtc outbox_step usage_world0 demo_r5.
Proof.
  eapply rtc_r; [eapply rtc_r; [eapply rtc_r; [exact demo_r2_reached|]|]|].
  - refine (os_lease_reports demo_r2 2 50 20 (demo_tokens 1) _ _ _ _ (surjective_pairing _)).
    + apply (bool_decide_unpack (NoDup (draws (demo_tokens 1) 2))). vm_compute. exact I.
    + intros t _. apply not_elem_of_nil.
  - exact (os_report_accept demo_r3 (demo_id (u "a")) (demo_tokens 1 0) false None 30 _ _ (surjective_pairing _)).
  - refine (os_lease_reports demo_r4 2 50 40 (demo_tokens 2) _ _ _ _ (surjective_pairing _)).
    + apply (bool_decide_unpack (NoDup (draws (demo_tokens 2) 2))). vm_compute. exact I.
    + apply Forall_forall. apply (bool_decide_unpack (Forall (fun t => t ∉ uw_used demo_r4) (draws (demo_tokens 2) 2))).
      vm_compute. exact I.
Qed.
Definition demo_rep (text : str) : Report :=
  default (mkReport (mkChain [] [] [] []) 0 None [] [] [] rs_match 0) (ob_reports (uw_db demo_r2) !! demo_id text).
Definition demo_ship (text : str) : Shipment := default (new_shipment false 0) (ob_shipments (uw_db demo_r5) !! demo_id text).
Lemma demo_reports_stored :
  ob_reports (uw_db demo_r2) !! demo_id (u "b") = Some (demo_rep (u "b")) /\
  ob_reports (uw_db demo_r5) !! demo_id (u "a") = Some (demo_rep (u "a")) /\
  ob_reports (uw_db demo_r5) !! demo_id (u "b") = Some (demo_rep (u "b")) /\
  ob_shipments (uw_db demo_r5) !! demo_id (u "a") = Some (demo_ship (u "a")) /\
  ob_shipments (uw_db demo_r5) !! demo_id (u "b") = Some (demo_ship (u "b")) /\
  rp_chain (demo_rep (u "a")) = rp_chain (demo_rep (u "b")) /\
  rp_revision (demo_rep (u "a")) = 1%Z /\ rp_revision (demo_rep (u "b")) = 2%Z /\
  p_attempt_count (sh_progress (demo_ship (u "b"))) = 1%Z.
Proof. repeat split; vm_compute; reflexivity. Qed.

Lemma report_chain_linear_witness :
  exists id' r', ob_reports (uw_db demo_r2) !! id' = Some r' /\ rp_supersedes (demo_rep (u "b")) = Some (rp_report_sha256 r').
Proof.
  destruct demo_reports_stored as (Hb & _ & _ & _ & _ & _ & _ & Hrev & _).
  assert (Hlt : (1 < rp_revision (demo_rep (u "b")))%Z) by (clear -Hrev; lia).
  destruct (report_chain_linear demo_r2 demo_r2 (demo_id (u "b")) (demo_rep (u "b")) demo_r2_reached (rtc_refl _ _) Hb)
    as (_ & _ & _ & _ & Hp). destruct (Hp Hlt) as (id' & r' & Hr & _ & _ & Hs).
  exists id', r'. split; [exact Hr|exact Hs].
Defined.

Lemma reports_ship_in_order_witness : p_state (sh_progress (demo_ship (u "a"))) = us_accepted.
Proof.
  destruct demo_reports_stored as (_ & Ha & Hb & Sa & Sb & Hc & Hr1 & Hr2 & Hat).
  assert (Hlt : (rp_revision (demo_rep (u "a")) < rp_revision (demo_rep (u "b")))%Z) by (clear -Hr1 Hr2; lia).
  assert (Hpos : (0 < p_attempt_count (sh_progress (demo_ship (u "b"))))%Z) by (clear -Hat; lia).
  exact (reports_ship_in_order demo_r5 _ _ _ _ _ _ demo_r5_reached Sb Hb Sa Ha Hc Hlt Hpos).
Defined.

End UsageOutbox.
