(* ===== verification/UsageShipper.v ===== *)
(** * UsageShipper: delivery of usage evidence to the ingest service

    Models [src/agent_gateway/usage_shipper.py] on top of [UsageOutbox]: of
    [CommercialUsageIngestClient] the checks of [send_batch] and
    [_validate_response]; of [CommercialUsageShipper] [run_once] with
    [_deliver_rows], which halves a batch the service refuses, and [_retry].
    What the service answers is an oracle; between a request and its answer any
    other process may use the outbox. Signing, HTTP and metrics are not
    modelled; the randomised back-off is an oracle. The second client and
    shipper, for reports, have the same shape and are not modelled. *)
From S2P Require Import Prelude Wire UsageOutbox.
Import UsageOutbox.

Module UsageShipper.

Inductive acceptance_status := as_accepted | as_duplicate | as_conflict | as_rejected_retryable | as_rejected_terminal.
#[global] Instance acceptance_status_eq : EqDecision acceptance_status.
Proof. solve_decision. Defined.
Definition status_text (s : acceptance_status) : str :=
  match s with
  | as_accepted => u "accepted" | as_duplicate => u "duplicate" | as_conflict => u "conflict"
  | as_rejected_retryable => u "rejected_retryable" | as_rejected_terminal => u "rejected_terminal"
  end.
Definition all_statuses : list acceptance_status :=
  [as_accepted; as_duplicate; as_conflict; as_rejected_retryable; as_rejected_terminal].
Definition parse_acceptance (t : str) : option acceptance_status := head (filter (fun s => status_text s = t) all_statuses).

Record UsageAcceptance := mkAcceptance {
  ac_environment : str;
  ac_source_event_id : str;
  ac_status : acceptance_status;
  ac_canonical_event_id : option str;
  ac_reason_code : option str
}.
Definition ac_identity (a : UsageAcceptance) : str * str := (ac_environment a, ac_source_event_id a).

(** How a send fails: refused for good, an answer that cannot be used, anything
    else. *)
Inductive sender_error := PermanentDelivery | ResponseError | DeliveryFailed.

Section client.
Context {env : UsageEnv}.

(** [item.get(k)], where a string or nothing is expected. *)
Definition optional_text (k : str) (d : list (str * json)) : option (option str) :=
  match py_get k d with JNull => Some None | JStr s => Some (Some s) | _ => None end.

(** One result of the answer. *)
Definition validate_item (expected observed : list (str * str)) (item : json) : option UsageAcceptance :=
  match item with
  | JDict d =>
    let identity := (text_field (u "environment") d, text_field (u "source_event_id") d) in
    status ← parse_acceptance (text_field (u "status") d);
    if negb (bool_decide (identity ∈ expected)) || bool_decide (identity ∈ observed) then None
    else
      canonical ← optional_text (u "canonical_event_id") d;
      reason ← optional_text (u "reason_code") d;
      if bool_decide (status ∈ [as_accepted; as_duplicate]) && bool_decide (py_strip (default [] canonical) = [])
      then None else Some (mkAcceptance identity.1 identity.2 status canonical reason)
  | _ => None
  end.
Fixpoint validate_items (expected observed : list (str * str)) (items : list json) : option (list UsageAcceptance) :=
  match items with
  | [] => if forallb (fun i => bool_decide (i ∈ observed)) expected then Some [] else None
  | item :: rest =>
    a ← validate_item expected observed item;
    l ← validate_items expected (ac_identity a :: observed) rest;
    Some (a :: l)
  end.
(** [_validate_response] *)
Definition validate_response (document : json) (expected : list (str * str)) : outcome sender_error (list UsageAcceptance) :=
  match document with
  | JDict d =>
    match py_get (u "results") d with
    | JList items => match validate_items expected [] items with Some l => Ret l | None => Raise ResponseError end
    | _ => Raise ResponseError
    end
  | _ => Raise ResponseError
  end.

(** What the HTTP request gave: no answer, or a status, a body length and the
    body as JSON if it is. *)
Record HttpReply := mkReply { hr_status : Z; hr_length : Z; hr_document : option json }.
Record IngestClient := mkClient { ic_environment : str; ic_max_batch : nat; ic_max_body : Z }.

Fixpoint batch_identities (environment : str) (payloads : list (list (str * json))) : option (list (str * str)) :=
  match payloads with
  | [] => Some []
  | p :: rest =>
    let i := (text_field (u "environment") p, text_field (u "source_event_id") p) in
    if bool_decide (i.2 = []) || negb (bool_decide (i.1 = environment)) then None
    else l ← batch_identities environment rest; Some (i :: l)
  end.

(** [send_batch]; [body] is the length of the encoded request, if it can be
    encoded. *)
Definition send_batch (c : IngestClient) (payloads : list (list (str * json))) (body : option Z)
    (reply : option HttpReply) : outcome sender_error (list UsageAcceptance) :=
  if bool_decide (payloads = []) || (ic_max_batch c <? length payloads) then Raise PermanentDelivery
  else match batch_identities (ic_environment c) payloads with
  | None => Raise PermanentDelivery
  | Some ids =>
    if negb (bool_decide (NoDup ids)) then Raise PermanentDelivery
    else match body with
    | None => Raise PermanentDelivery
    | Some n =>
      if (ic_max_body c <? n)%Z then Raise PermanentDelivery
      else match reply with
      | None => Raise DeliveryFailed
      | Some r =>
        if (hr_status r <? 200)%Z || (300 <=? hr_status r)%Z
        then if bool_decide (hr_status r ∈ [400; 413; 422]%Z) then Raise PermanentDelivery
             else Raise DeliveryFailed
        else if (ic_max_body c <? hr_length r)%Z then Raise ResponseError
        else match hr_document r with
             | None => Raise ResponseError
             | Some document => validate_response document ids
             end
      end
    end
  end.

(** ** The shipper *)

(** A call on the outbox that ends a lease. *)
Inductive mark :=
| mk_accept (id token : str) (duplicate : bool) (canonical : str) (reason : option str) (now : Z)
| mk_retry (id token : str) (next : Z) (error : str)
| mk_dead (id token error : str) (status : option ingest_status) (canonical reason : option str) (now : Z).
Definition apply_mark (k : mark) : OB bool :=
  match k with
  | mk_accept id token dup canonical reason now => mark_accepted id token dup canonical reason now
  | mk_retry id token next error => mark_retryable id token next error
  | mk_dead id token error status canonical reason now => mark_dead id token error status canonical reason now
  end.
Definition mark_id (k : mark) : str :=
  match k with mk_accept id _ _ _ _ _ => id | mk_retry id _ _ _ => id | mk_dead id _ _ _ _ _ _ => id end.
Definition mark_token (k : mark) : str :=
  match k with mk_accept _ t _ _ _ _ => t | mk_retry _ t _ _ => t | mk_dead _ t _ _ _ _ _ => t end.

(** The outbox, the number of requests so far, and the calls made. *)
Record ShipState := mkShip {
  ss_world : UsageWorld;
  ss_calls : nat;
  ss_marks : list mark
}.
Abbreviation SH := (SE ShipState outbox_error).
Definition do_mark (k : mark) : SH unit :=
  fun s => match apply_mark k (uw_db (ss_world s)) with
           | (db, Ret _) => (mkShip (mkUsageWorld db (uw_used (ss_world s))) (ss_calls s) (ss_marks s ++ [k]), Ret tt)
           | (db, Raise e) => (mkShip (mkUsageWorld db (uw_used (ss_world s))) (ss_calls s) (ss_marks s ++ [k]), Raise e)
           end.

Record ShipperIO := mkShipperIO {
  sp_send : nat -> list (str * UsageRow) -> outcome sender_error (list UsageAcceptance);
  sp_others : nat -> UsageWorld -> UsageWorld;     (* what runs while a request is out *)
  sp_error_text : sender_error -> str;             (* type and message *)
  sp_delay : UsageRow -> Z;                        (* back-off of a retry *)
  sp_environment : UsageRow -> str;                (* [row.payload["environment"]] *)
  sp_max_attempts : Z
}.
Context (io : ShipperIO) (current : Z).

(** [row.sending_lease_token or ""] *)
Definition row_token (r : UsageRow) : str := default [] (p_lease_token (u_progress r)).

(** [_retry] *)
Definition retry_mark (id : str) (r : UsageRow) (error : str) (terminal_on_exhaustion : bool) : mark :=
  if terminal_on_exhaustion && (sp_max_attempts io <=? p_attempt_count (u_progress r))%Z
  then mk_dead id (row_token r) (u "attempts_exhausted:" ++ error) None None None current
  else mk_retry id (row_token r) (current + sp_delay io r)%Z error.

(** The call for one row and its result. *)
Definition result_mark (id : str) (r : UsageRow) (a : UsageAcceptance) : mark :=
  let reason := take 512 (match ac_reason_code a with Some (c :: t) => c :: t | _ => status_text (ac_status a) end) in
  match ac_status a with
  | as_accepted => mk_accept id (row_token r) false (default [] (ac_canonical_event_id a)) (ac_reason_code a) current
  | as_duplicate => mk_accept id (row_token r) true (default [] (ac_canonical_event_id a)) (ac_reason_code a) current
  | as_conflict =>
    mk_dead id (row_token r) (status_text as_conflict ++ u ":" ++ reason) (Some in_conflict) (ac_canonical_event_id a) (Some reason) current
  | as_rejected_terminal =>
    mk_dead id (row_token r) (status_text as_rejected_terminal ++ u ":" ++ reason) (Some in_rejected_terminal)
      (ac_canonical_event_id a) (Some reason) current
  | as_rejected_retryable => retry_mark id r (u "rejected_retryable:" ++ reason) true
  end.

Fixpoint do_marks (ks : list mark) : SH unit :=
  match ks with [] => se_ret tt | k :: rest => let! _ := do_mark k in do_marks rest end.

(** The results answer exactly the rows. *)
Definition results_match (rows : list (str * UsageRow)) (results : list UsageAcceptance) : bool :=
  (length results =? length rows) && bool_decide (NoDup (ac_source_event_id <$> results))
  && forallb (fun a => existsb (fun kr => bool_decide (ac_identity a = (sp_environment io kr.2, kr.1))) rows) results
  && forallb (fun kr => existsb (fun a => bool_decide (ac_identity a = (sp_environment io kr.2, kr.1))) results) rows.
Definition result_for (id : str) (results : list UsageAcceptance) : option UsageAcceptance :=
  head (filter (fun a => ac_source_event_id a = id) results).
Definition answer_marks (rows : list (str * UsageRow)) (results : list UsageAcceptance) : list mark :=
  if results_match rows results
  then omap (fun kr => a ← result_for kr.1 results; Some (result_mark kr.1 kr.2 a)) rows
  else (fun kr => retry_mark kr.1 kr.2 (u "ambiguous_response:result identity mismatch") false) <$> rows.

(** One request: what it was answered, after others used the outbox. *)
Definition request (rows : list (str * UsageRow)) (s : ShipState) : ShipState * outcome sender_error (list UsageAcceptance) :=
  (mkShip (sp_others io (ss_calls s) (ss_world s)) (S (ss_calls s)) (ss_marks s), sp_send io (ss_calls s) rows).

(** [_deliver_rows]; [None] is out of fuel. *)
Fixpoint deliver_rows (fuel : nat) (rows : list (str * UsageRow)) (s : ShipState) : option (ShipState * outcome outbox_error unit) :=
  match fuel with
  | O => None
  | S fuel =>
    match request rows s with
    | (s1, Raise PermanentDelivery) =>
      match rows with
      | [] => Some (s1, Raise OutboxKeyError)
      | [(id, r)] =>
        Some (do_mark (mk_dead id (row_token r) (u "permanent_delivery_error:" ++ sp_error_text io PermanentDelivery) None None None current) s1)
      | _ =>
        let mid := length rows / 2 in
        match deliver_rows fuel (take mid rows) s1 with
        | Some (s2, Ret _) => deliver_rows fuel (drop mid rows) s2
        | other => other
        end
      end
    | (s1, Raise e) =>
      Some (do_marks ((fun kr => retry_mark kr.1 kr.2 (u "delivery_error:" ++ sp_error_text io e) false) <$> rows) s1)
    | (s1, Ret results) => Some (do_marks (answer_marks rows results) s1)
    end
  end.

(** [run_once]: the rows leased, and how delivery ended. *)
Definition run_once (limit lease_for : Z) (token : str) (w : UsageWorld) : option (ShipState * list (str * UsageRow) * outcome outbox_error Z) :=
  match lease_batch limit lease_for current token (uw_db w) with
  | (db, Raise e) => Some (mkShip (mkUsageWorld db (token :: uw_used w)) 0 [], [], Raise e)
  | (db, Ret []) => Some (mkShip (mkUsageWorld db (token :: uw_used w)) 0 [], [], Ret 0%Z)
  | (db, Ret rows) =>
    match deliver_rows (S (length rows)) rows (mkShip (mkUsageWorld db (token :: uw_used w)) 0 []) with
    | None => None
    | Some (s, Raise e) => Some (s, rows, Raise e)
    | Some (s, Ret _) => Some (s, rows, Ret (Z.of_nat (length rows)))
    end
  end.

(** ** Lemmas *)
Lemma do_mark_step k s s' r :
  do_mark k s = (s', r) -> outbox_step (ss_world s) (ss_world s') /\ ss_calls s' = ss_calls s /\ ss_marks s' = ss_marks s ++ [k].
Proof.
  unfold do_mark. intros E. destruct (apply_mark k _) as [db [b|e]] eqn:Ea; injection E as <- <-; simpl; split; try done.
  all: destruct k; simpl in Ea; [by eapply os_accept|by eapply os_retry|by eapply os_dead].
Qed.

Lemma finish_frees id token st status c r d a n e db db' b :
  finish_sending id token st status c r d a n e db = (db', Ret b) -> st <> us_sending -> ~ leased_by db' id token.
Proof.
  unfold finish_sending. intros E Hst (x & Hx & Hh). apply se_bind_ret in E as (m & d1 & (Hu & _)%update_usage_ret & E).
  injection E as <- _. rewrite (update_table_lookup _ _ _ _ _ _ _ Hu) in Hx. destruct (ob_usage db !! id) as [y|]; [|done]. simpl in Hx.
  rewrite bool_decide_true in Hx by done. simpl in Hx. destruct (held_by token (u_progress y)) eqn:Hy; injection Hx as <-; [|congruence].
  unfold held_by in Hh. bool_prop. simpl in *. congruence.
Qed.
Lemma mark_frees k db db' b : apply_mark k db = (db', Ret b) -> ~ leased_by db' (mark_id k) (mark_token k).
Proof.
  intros E. destruct k; simpl in *.
  - unfold mark_accepted in E. apply se_bind_ret in E as (? & ? & [-> _]%require_usage_ret & E). by eapply finish_frees.
  - by eapply finish_frees.
  - unfold mark_dead in E. apply se_bind_ret in E as (? & ? & [-> _]%require_usage_ret & E). by eapply finish_frees.
Qed.

(** What has been freed stays free, whatever runs. *)
Lemma freed_stays w w' id t :
  usage_ok w -> rtc outbox_step w w' -> t ∈ uw_used w -> ~ leased_by (uw_db w) id t -> ~ leased_by (uw_db w') id t.
Proof.
  intros Hok Hs Ht Hn (r & Hr & Hh). destruct (run_leased _ _ id t Hok Hs Ht) as [_ Hb]. apply Hn. exists r. split; [by apply Hb|done].
Qed.
Lemma used_stays w w' t : rtc outbox_step w w' -> t ∈ uw_used w -> t ∈ uw_used w'.
Proof.
  intros Hs. induction Hs as [|x y z H _ IH]; [done|]. intros Ht. apply IH.
  apply outbox_step_effect in H as (T & -> & _). apply elem_of_app. by right.
Qed.
Lemma ok_run w w' : rtc outbox_step w w' -> usage_ok w -> usage_ok w'.
Proof. intros Hs. exact (rtc_invariant outbox_step usage_ok _ _ usage_ok_step Hs). Qed.

(** Marks in a row: all free their rows if they return. *)
Lemma do_marks_spec ks s s' r :
  do_marks ks s = (s', r) ->
  rtc outbox_step (ss_world s) (ss_world s') /\ (exists done_, ss_marks s' = ss_marks s ++ done_ /\ done_ `prefix_of` ks) /\
  (r = Ret tt -> usage_ok (ss_world s) -> forall k, k ∈ ks -> mark_token k ∈ uw_used (ss_world s) ->
     ~ leased_by (uw_db (ss_world s')) (mark_id k) (mark_token k)).
Proof.
  revert s. induction ks as [|k ks IH]; intros s E; cbn [do_marks] in E.
  { injection E as <- <-. split; [done|]. split; [exists []; by rewrite app_nil_r|]. by intros _ _ k ?%not_elem_of_nil. }
  unfold se_bind in E. destruct (do_mark k s) as [s1 [x|e]] eqn:E1; destruct (do_mark_step _ _ _ _ E1) as (Hst & _ & Hm).
  - destruct (IH _ E) as (Hs & (dn & Hd & Hp) & Hfree). split; [by eapply rtc_l|]. split.
    { exists (k :: dn). rewrite Hd, Hm, <- app_assoc. split; [done|]. destruct Hp as [t ->]. by exists t. }
    intros -> Hok k' [->|Hin]%elem_of_cons Ht.
    + eapply freed_stays; [by eapply usage_ok_step|exact Hs| |].
      { by eapply (used_stays (ss_world s)), Ht; apply rtc_once. }
      unfold do_mark in E1. destruct (apply_mark k _) as [db [b|]] eqn:Ea; [|done]. injection E1 as <- _. simpl. by eapply mark_frees.
    + apply Hfree; [done|by eapply usage_ok_step|done|]. eapply used_stays, Ht. by apply rtc_once.
  - injection E as <- <-. split; [by apply rtc_once|]. split; [|done]. exists [k]. split; [done|]. by exists ks.
Qed.

(** Each row gets a mark of its own, under its own token. *)
Lemma retry_mark_of id r e b : mark_id (retry_mark id r e b) = id /\ mark_token (retry_mark id r e b) = row_token r.
Proof. unfold retry_mark. by destruct (_ && _). Qed.
Lemma result_mark_of id r a : mark_id (result_mark id r a) = id /\ mark_token (result_mark id r a) = row_token r.
Proof. unfold result_mark. destruct (ac_status a); try done. apply retry_mark_of. Qed.

Lemma result_for_some rows results id r :
  results_match rows results = true -> (id, r) ∈ rows -> exists a, result_for id results = Some a /\ a ∈ results /\ ac_source_event_id a = id.
Proof.
  unfold results_match. intros Hm Hin. apply andb_true_iff in Hm as [_ Hm]. rewrite forallb_forall in Hm.
  specialize (Hm (id, r)). rewrite <- list_elem_of_In in Hm. specialize (Hm Hin). apply existsb_exists in Hm as (a & Ha & Hid).
  rewrite <- list_elem_of_In in Ha. bool_prop. injection Hid as Henv Hsid. simpl in Hsid. unfold result_for.
  assert (Hin2 : a ∈ filter (fun a => ac_source_event_id a = id) results) by by apply list_elem_of_filter.
  destruct (filter _ results) as [|b l] eqn:E; [by apply not_elem_of_nil in Hin2|]. exists b.
  assert (Hb : b ∈ filter (fun a => ac_source_event_id a = id) results) by (rewrite E; apply elem_of_cons; by left).
  apply list_elem_of_filter in Hb as [? ?]. done.
Qed.
Lemma answer_marks_cover rows results id r :
  (id, r) ∈ rows -> exists k, k ∈ answer_marks rows results /\ mark_id k = id /\ mark_token k = row_token r.
Proof.
  intros Hin. unfold answer_marks. destruct (results_match rows results) eqn:Hm.
  - destruct (result_for_some _ _ _ _ Hm Hin) as (a & Ha & _). exists (result_mark id r a). split; [|apply result_mark_of].
    apply list_elem_of_omap. exists (id, r). split; [done|]. simpl. by rewrite Ha.
  - eexists. split; [apply list_elem_of_fmap; exists (id, r); split; [reflexivity|done]|]. apply retry_mark_of.
Qed.

(** ** Why a call was made *)
Definition answered (rows : list (str * UsageRow)) (id : str) (a : UsageAcceptance) : Prop :=
  exists n batch results, batch ⊆ rows /\ sp_send io n batch = Ret results /\ results_match batch results = true /\
    a ∈ results /\ ac_source_event_id a = id.
Definition justified (rows : list (str * UsageRow)) (k : mark) : Prop :=
  match k with
  | mk_accept id _ dup canonical reason _ => exists a, answered rows id a /\
      ac_status a = (if dup then as_duplicate else as_accepted) /\ canonical = default [] (ac_canonical_event_id a) /\ reason = ac_reason_code a
  | mk_dead id _ _ (Some st) _ _ _ => exists a, answered rows id a /\
      (ac_status a, st) ∈ [(as_conflict, in_conflict); (as_rejected_terminal, in_rejected_terminal)]
  | mk_dead id _ _ None _ _ _ =>
      (exists n r, (id, r) ∈ rows /\ sp_send io n [(id, r)] = Raise PermanentDelivery) \/
      (exists a r, answered rows id a /\ ac_status a = as_rejected_retryable /\ (id, r) ∈ rows /\
         (sp_max_attempts io <= p_attempt_count (u_progress r))%Z)
  | mk_retry _ _ _ _ => True
  end.
Lemma answered_mono rows rows' id a : rows ⊆ rows' -> answered rows id a -> answered rows' id a.
Proof. intros Hsub (n & b & res & Hb & ?). exists n, b, res. split; [by etrans|done]. Qed.
Lemma justified_mono rows rows' k : rows ⊆ rows' -> justified rows k -> justified rows' k.
Proof.
  intros Hsub. destruct k as [| |? ? ? [st|]]; simpl; [|done|..].
  - intros (a & Ha & ?). exists a. split; [by eapply answered_mono|done].
  - intros (a & Ha & ?). exists a. split; [by eapply answered_mono|done].
  - intros [(n & r & Hin & ?)|(a & r & Ha & ? & Hin & ?)]; [left; exists n, r; split; [by apply Hsub|done]|].
    right. exists a, r. split; [by eapply answered_mono|]. split; [done|]. split; [by apply Hsub|done].
Qed.
Lemma answer_marks_justified n rows results k :
  sp_send io n rows = Ret results -> k ∈ answer_marks rows results -> justified rows k.
Proof.
  intros Hs. unfold answer_marks. destruct (results_match rows results) eqn:Hm.
  - intros ([id r] & Hin & Hk)%list_elem_of_omap. simpl in Hk.
    destruct (result_for_some _ _ _ _ Hm Hin) as (a & Ha & Hain & Hid). rewrite Ha in Hk. injection Hk as <-.
    assert (Hans : answered rows id a) by (exists n, rows, results; done).
    unfold result_mark. destruct (ac_status a) eqn:Hst; simpl.
    1-2: by exists a.
    1,3: exists a; split; [done|rewrite Hst, elem_of_cons, list_elem_of_singleton; auto].
    unfold retry_mark. destruct (_ <=? _)%Z eqn:Hle; simpl; [|done]. right. exists a, r. apply Z.leb_le in Hle. done.
  - intros (kr & -> & _)%list_elem_of_fmap. unfold retry_mark. done.
Qed.

(** ** Lemmas: delivery *)
Context (others_run : forall i x, rtc outbox_step x (sp_others io i x)).

Definition tokens_known (rows : list (str * UsageRow)) (w : UsageWorld) : Prop := forall id r, (id, r) ∈ rows -> row_token r ∈ uw_used w.
Definition rows_free (rows : list (str * UsageRow)) (w : UsageWorld) : Prop :=
  forall id r, (id, r) ∈ rows -> ~ leased_by (uw_db w) id (row_token r).
Record delivered (rows : list (str * UsageRow)) (s s' : ShipState) (r : outcome outbox_error unit) : Prop := {
  dl_run : rtc outbox_step (ss_world s) (ss_world s');
  dl_marks : exists dn, ss_marks s' = ss_marks s ++ dn /\ forall k, k ∈ dn -> justified rows k;
  dl_free : r = Ret tt -> usage_ok (ss_world s) -> tokens_known rows (ss_world s) -> rows_free rows (ss_world s')
}.

(** A list of marks that covers the rows. *)
Lemma marks_delivered rows ks s s1 s' r :
  rtc outbox_step (ss_world s) (ss_world s1) -> ss_marks s1 = ss_marks s -> do_marks ks s1 = (s', r) ->
  (forall k, k ∈ ks -> justified rows k) ->
  (forall id x, (id, x) ∈ rows -> exists k, k ∈ ks /\ mark_id k = id /\ mark_token k = row_token x) -> delivered rows s s' r.
Proof.
  intros Hrun Hm E Hj Hc. destruct (do_marks_spec _ _ _ _ E) as (Hs & (dn & Hd & Hp) & Hfree). split.
  - by etrans.
  - exists dn. rewrite Hd, Hm. split; [done|]. intros k Hk. apply Hj. destruct Hp as [t ->]. apply elem_of_app. by left.
  - intros -> Hok Ht id x Hin. destruct (Hc _ _ Hin) as (k & Hk & Hid & Htk). rewrite <- Hid, <- Htk.
    apply Hfree; [done|by eapply ok_run|done|]. rewrite Htk. eapply used_stays; [exact Hrun|]. by eapply Ht.
Qed.

Lemma half_bounds n : 2 <= n -> 0 < n / 2 < n.
Proof. intros Hn. split; [apply Nat.div_str_pos; lia|apply Nat.div_lt; lia]. Qed.

Lemma do_marks_one k s : do_marks [k] s = do_mark k s.
Proof. cbn [do_marks]. unfold se_bind. by destruct (do_mark k s) as [s2 [[]|e]]. Qed.

(** A batch that is retried as a whole. *)
Lemma retried_delivered rows e s s1 s' r :
  rtc outbox_step (ss_world s) (ss_world s1) -> ss_marks s1 = ss_marks s ->
  do_marks ((fun kr => retry_mark kr.1 kr.2 e false) <$> rows) s1 = (s', r) -> delivered rows s s' r.
Proof.
  intros Hr Hm E. eapply marks_delivered; [done..| |].
  - intros k (kr & -> & _)%list_elem_of_fmap. done.
  - intros id x Hin. eexists. split; [apply list_elem_of_fmap; exists (id, x); split; [reflexivity|done]|]. apply retry_mark_of.
Qed.

(** Two parts delivered one after the other. *)
Lemma parts_delivered n rows s s1 s2 s3 r :
  rtc outbox_step (ss_world s) (ss_world s1) -> ss_marks s1 = ss_marks s ->
  delivered (take n rows) s1 s2 (Ret tt) -> delivered (drop n rows) s2 s3 r -> delivered rows s s3 r.
Proof.
  intros Hr1 Hm [R2 (dn2 & M2 & J2) F2] [R3 (dn3 & M3 & J3) F3].
  assert (Htake : take n rows ⊆ rows) by (intros z (i & Hi%list_elem_of_lookup_2 & _)%elem_of_take; done).
  assert (Hdrop : drop n rows ⊆ rows) by (intros z Hz; rewrite <- (take_drop n rows); apply elem_of_app; by right). split.
  - etrans; [exact Hr1|]. by etrans.
  - exists (dn2 ++ dn3). rewrite M3, M2, Hm, <- app_assoc. split; [done|].
    intros k [Hk|Hk]%elem_of_app; [eapply justified_mono; [exact Htake|by apply J2]|eapply justified_mono; [exact Hdrop|by apply J3]].
  - intros -> Hok Ht. assert (Hok1 : usage_ok (ss_world s1)) by by eapply ok_run.
    assert (Ht1 : tokens_known rows (ss_world s1)) by (intros i z Hz; eapply used_stays; [exact Hr1|by eapply Ht]).
    intros i z Hz. rewrite <- (take_drop n rows) in Hz. apply elem_of_app in Hz as [Hz|Hz].
    + eapply (freed_stays (ss_world s2)); [exact (ok_run _ _ R2 Hok1)|exact R3|eapply used_stays; [exact R2|]; eapply Ht1, Htake, Hz|].
      apply (F2 eq_refl Hok1); [|exact Hz]. intros i' z' Hz'. by eapply Ht1, Htake.
    + apply (F3 eq_refl (ok_run _ _ R2 Hok1)); [|exact Hz]. intros i' z' Hz'. eapply used_stays; [exact R2|]. by eapply Ht1, Hdrop.
Qed.
Lemma part_raised n rows s s1 s2 e :
  rtc outbox_step (ss_world s) (ss_world s1) -> ss_marks s1 = ss_marks s ->
  delivered (take n rows) s1 s2 (Raise e) -> delivered rows s s2 (Raise e).
Proof.
  intros Hr1 Hm [R2 (dn2 & M2 & J2) _]. split; [by etrans| |done]. exists dn2. rewrite M2, Hm. split; [done|].
  intros k Hk. eapply justified_mono, J2, Hk. intros z (i & Hi%list_elem_of_lookup_2 & _)%elem_of_take. done.
Qed.

Lemma deliver_rows_spec fuel rows s :
  0 < length rows <= fuel -> exists s' r, deliver_rows fuel rows s = Some (s', r) /\ delivered rows s s' r.
Proof.
  revert rows s. induction fuel as [|fuel IH]; intros rows s Hf; [lia|]. cbn [deliver_rows]. unfold request.
  set (s1 := mkShip _ _ _). assert (Hr1 : rtc outbox_step (ss_world s) (ss_world s1)) by apply others_run.
  destruct (sp_send io (ss_calls s) rows) as [results|[| |]] eqn:Hsend.
  3,4: eexists _, _; split; [rewrite <- surjective_pairing; reflexivity|];
       eapply (retried_delivered _ _ _ s1); [done|done|apply surjective_pairing].
  - eexists _, _. split; [rewrite <- surjective_pairing; reflexivity|].
    eapply (marks_delivered _ _ _ s1); [done|done|apply surjective_pairing|..].
    + intros k. by eapply answer_marks_justified.
    + intros id x. apply answer_marks_cover.
  - destruct rows as [|[id x] [|y rows]]; [simpl in Hf; lia|..].
    + rewrite <- do_marks_one. eexists _, _. split; [rewrite <- surjective_pairing; reflexivity|].
      eapply (marks_delivered _ _ _ s1); [done|done|apply surjective_pairing|..].
      * intros k ->%list_elem_of_singleton. simpl. left. exists (ss_calls s), x. split; [apply elem_of_cons; by left|done].
      * intros id' x' [= -> ->]%list_elem_of_singleton. eexists. split; [by apply list_elem_of_singleton|done].
    + set (l := (id, x) :: y :: rows) in *. assert (Hl : 2 <= length l) by (simpl; lia). pose proof (half_bounds _ Hl) as Hmid.
      destruct (IH (take (length l / 2) l) s1) as (s2 & r2 & E2 & D2); [rewrite length_take; lia|]. rewrite E2.
      destruct r2 as [[]|e2]; [|exists s2, (Raise e2); split; [done|]; by eapply part_raised].
      destruct (IH (drop (length l / 2) l) s2) as (s3 & r3 & E3 & D3); [rewrite length_drop; lia|]. exists s3, r3. split; [done|].
      by eapply parts_delivered.
Qed.

(** ** Properties *)

(** C24: A delivery round ends and leaves no lease behind. Whatever the service
    answers and whatever other processes do to the outbox meanwhile, [run_once]
    ends within its fuel; and when it returns, no row of its batch is leased
    under its token any more, so none can be finished by it later. *)
Theorem round_settles_batch limit lf token w :
  rtc outbox_step usage_world0 w -> token ∉ uw_used w ->
  exists s rows r, run_once limit lf token w = Some (s, rows, r) /\ rtc outbox_step w (ss_world s) /\
    forall n, r = Ret n -> n = Z.of_nat (length rows) /\
      forall id row, (id, row) ∈ rows -> row_token row = token /\ ~ leased_by (uw_db (ss_world s)) id token.
Proof.
  intros Hw Ht. unfold run_once. destruct (lease_batch limit lf current token (uw_db w)) as [db r] eqn:El.
  assert (Hst : outbox_step w (mkUsageWorld db (token :: uw_used w))) by by eapply os_lease.
  assert (Hnil : forall n : Z, @Ret outbox_error Z 0%Z = Ret n -> n = Z.of_nat (length (A := str * UsageRow) []) /\
    forall id row, (id, row) ∈ [] -> row_token row = token /\ ~ leased_by db id token).
  { intros n [= <-]. split; [done|]. by intros id row ?%not_elem_of_nil. }
  destruct r as [rows|e]; [|eexists _, _, _; split; [reflexivity|]; split; [by apply rtc_once|done]].
  destruct rows as [|x rows]; [eexists _, _, _; split; [reflexivity|]; split; [by apply rtc_once|exact Hnil]|].
  set (l := x :: rows) in *. set (s0 := mkShip _ 0 []).
  destruct (deliver_rows_spec (S (length l)) l s0) as (s & r & E & [R _ F]); [simpl; lia|]. rewrite E.
  assert (Htok : forall id row, (id, row) ∈ l -> row_token row = token).
  { destruct (lease_batch_ret _ _ _ _ _ _ _ El) as (_ & _ & m1 & _ & -> & _). by intros id row ([k r0] & [= _ ->] & _)%list_elem_of_fmap. }
  destruct r as [[]|e]; (eexists _, _, _; split; [reflexivity|]; split; [by eapply rtc_l|]); [|done].
  intros n [= <-]. split; [done|]. intros id row Hin. split; [by eapply Htok|]. rewrite <- (Htok _ _ Hin).
  apply (F eq_refl); [by eapply usage_ok_step, usage_reachable| |done].
  intros id' row' Hin'. rewrite (Htok _ _ Hin'). apply elem_of_cons. by left.
Qed.

(** Nothing is accepted or given up without the service's word. Every call
    of a delivery round on the outbox is justified: an acceptance by an answer
    to a batch with that event, matched row for row, saying accepted or
    duplicate with that canonical id; a decided death by an answer saying
    conflict or rejected; an undecided death by a refusal of a request with
    that event alone, or by exhausted attempts of an event the service asked to
    retry. *)
Theorem outcomes_justified limit lf token w s rows r :
  run_once limit lf token w = Some (s, rows, r) -> forall k, k ∈ ss_marks s -> justified rows k.
Proof.
  unfold run_once. destruct (lease_batch _ _ _ _ _) as [db [[|x l]|e]]; intros E.
  1,3: injection E as <- <- <-; simpl; by intros k ?%not_elem_of_nil.
  destruct (deliver_rows_spec (S (length (x :: l))) (x :: l) (mkShip (mkUsageWorld db (token :: uw_used w)) 0 [])) as (s' & r' & E' & [_ (dn & M & J) _]); [simpl; lia|].
  rewrite E' in E. destruct r'; injection E as <- <- <-; intros k Hk; rewrite M in Hk; by apply J.
Qed.

Lemma mark_dead_refused id token error st canonical reason now db :
  stripped reason = None -> mark_dead id token error (Some st) canonical reason now db = (db, Raise OutboxValueError).
Proof. intros Hr. unfold mark_dead. rewrite Hr. done. Qed.

(** C40: A decision with a blank reason stops the shipper. If the service answers
    a batch in full but gives the first event a conflict or final rejection with
    a reason code of white space only, [mark_dead] raises [ValueError]: the round
    raises, none of its rows is finished, and the exception ends the loop that
    ships usage. *)
Theorem blank_reason_stops_delivery fuel id row rows results a s c t :
  sp_send io (ss_calls s) ((id, row) :: rows) = Ret results ->
  results_match ((id, row) :: rows) results = true -> result_for id results = Some a ->
  (ac_status a = as_conflict \/ ac_status a = as_rejected_terminal) ->
  ac_reason_code a = Some (c :: t) -> py_strip (take 512 (c :: t)) = [] ->
  exists k s', deliver_rows (S fuel) ((id, row) :: rows) s = Some (s', Raise OutboxValueError) /\
    ss_world s' = sp_others io (ss_calls s) (ss_world s) /\ ss_marks s' = ss_marks s ++ [k].
Proof.
  intros Hs Hm Ha Hst Hr Hb. exists (result_mark id row a). cbn [deliver_rows]. unfold request. rewrite Hs.
  unfold answer_marks. rewrite Hm. cbn [omap list_omap]. simpl fst. rewrite Ha. cbn [mbind option_bind do_marks].
  unfold se_bind at 1, do_mark at 1.
  assert (Hraise : forall db, apply_mark (result_mark id row a) db = (db, Raise OutboxValueError)).
  { intros db. unfold result_mark. rewrite Hr. destruct Hst as [-> | ->]; apply mark_dead_refused; unfold stripped;
      change (default [] (Some (take 512 (c :: t)))) with (take 512 (c :: t)); by rewrite Hb. }
  rewrite Hraise. simpl. eexists. split; [reflexivity|]. simpl. by destruct (sp_others _ _ _).
Qed.
End client.

(** ** Witnesses *)
#[local] Existing Instance demo_usage_env.

Definition demo_item (id : str) (status : str) (reason : json) : json :=
  JDict [(u "environment", JStr (u "prod")); (u "source_event_id", JStr id); (u "status", JStr status);
         (u "canonical_event_id", JStr (u "c")); (u "reason_code", reason)].
Definition demo_ids : list (str * str) := [(u "prod", u "e1"); (u "prod", u "e2")].
Definition demo_answer (items : list json) : outcome sender_error (list UsageAcceptance) :=
  validate_response (JDict [(u "results", JList items)]) demo_ids.

(** The service refuses the pair, accepts [e1] and refuses [e2]; meanwhile
    nothing else runs. *)
Definition demo_send (n : nat) (rows : list (str * UsageRow)) : outcome sender_error (list UsageAcceptance) :=
  match n with
  | 0 | 2 => Raise PermanentDelivery
  | _ => validate_response (JDict [(u "results", JList [demo_item (u "e1") (u "accepted") JNull])]) [(u "prod", u "e1")]
  end.
Definition demo_shipper (send : nat -> list (str * UsageRow) -> outcome sender_error (list UsageAcceptance)) : ShipperIO :=
  mkShipperIO send (fun _ w => w) (fun _ => u "E") (fun _ => 1%Z) (fun r => us_environment (u_source r)) 5.
Definition demo_round := run_once (demo_shipper demo_send) 20 10 50 (u "tok") demo_w1.
Definition demo_round_out : ShipState * list (str * UsageRow) * outcome outbox_error Z :=
  default (mkShip demo_w1 0 [], [], Raise OutboxKeyError) demo_round.
Lemma demo_round_ok : run_once (demo_shipper demo_send) 20 10 50 (u "tok") demo_w1 = Some demo_round_out /\
  demo_round_out.2 = Ret 2%Z /\ demo_round_out.1.2.*1 = [u "e1"; u "e2"].
Proof. split; [|split]; vm_compute; reflexivity. Qed.
Lemma demo_token_fresh : u "tok" ∉ uw_used demo_w1.
Proof. apply not_elem_of_nil. Qed.

Definition demo_round_row : UsageRow := match demo_round_out.1.2 with (_, r) :: _ => r | [] => demo_row end.
Definition demo_round_mark : mark := mk_accept (u "e1") (u "tok") false (u "c") None 20.
Lemma demo_round_facts : demo_round_out.1.2 = (u "e1", demo_round_row) :: drop 1 demo_round_out.1.2 /\
  ss_marks demo_round_out.1.1 = demo_round_mark :: drop 1 (ss_marks demo_round_out.1.1).
Proof. split; vm_compute; reflexivity. Qed.
Lemma demo_round_elems : (u "e1", demo_round_row) ∈ demo_round_out.1.2 /\ demo_round_mark ∈ ss_marks demo_round_out.1.1.
Proof. destruct demo_round_facts as [E1 E2]. split; [rewrite E1|rewrite E2]; apply elem_of_cons; left; reflexivity. Qed.

Lemma round_settles_batch_witness :
  row_token demo_round_row = u "tok" /\ ~ leased_by (uw_db (ss_world demo_round_out.1.1)) (u "e1") (u "tok").
Proof.
  destruct (round_settles_batch (demo_shipper demo_send) 20 (fun _ x => rtc_refl _ x) 10 50 (u "tok") demo_w1 demo_w1_reached demo_token_fresh)
    as (s & rows & r & E & _ & Hr).
  destruct demo_round_ok as (E' & Hn & _). rewrite E' in E. assert (Eo : demo_round_out = (s, rows, r)) by congruence.
  pose proof (proj1 demo_round_elems) as Hin. rewrite Eo in Hn, Hin |- *. exact (proj2 (Hr 2%Z Hn) _ _ Hin).
Defined.

Lemma outcomes_justified_witness : justified (demo_shipper demo_send) demo_round_out.1.2 demo_round_mark.
Proof.
  destruct demo_round_ok as (E & _ & _).
  refine (outcomes_justified (demo_shipper demo_send) 20 (fun _ x => rtc_refl _ x) 10 50 (u "tok") demo_w1 _ _ demo_round_out.2 _ _ (proj2 demo_round_elems)).
  rewrite E. destruct demo_round_out as [[s rows] r]. reflexivity.
Defined.

(** The client accepts an answer whose reason is a single space. *)
Definition demo_blank_results : list UsageAcceptance :=
  match demo_answer [demo_item (u "e1") (u "conflict") (JStr (u " ")); demo_item (u "e2") (u "accepted") JNull] with
  | Ret l => l | Raise _ => [] end.
Definition demo_blank_rows : list (str * UsageRow) :=
  match (lease_batch 10 50 20 (u "tok") (uw_db demo_w1)).2 with Ret rows => rows | Raise _ => [] end.
Definition demo_blank_io : ShipperIO := demo_shipper (fun _ _ => Ret demo_blank_results).
Definition demo_blank_state : ShipState := mkShip (mkUsageWorld (lease_batch 10 50 20 (u "tok") (uw_db demo_w1)).1 [u "tok"]) 0 [].
Definition demo_first : str * UsageRow := default ([], demo_row) (head demo_blank_rows).
Definition demo_conflict : UsageAcceptance := mkAcceptance (u "prod") (u "e1") as_conflict (Some (u "c")) (Some (u " ")).
Lemma demo_blank_facts :
  demo_blank_rows = (u "e1", demo_first.2) :: drop 1 demo_blank_rows /\ results_match demo_blank_io demo_blank_rows demo_blank_results = true /\
  result_for (u "e1") demo_blank_results = Some demo_conflict.
Proof. split; [|split]; vm_compute; reflexivity. Qed.
Lemma blank_reason_stops_delivery_witness :
  exists s', deliver_rows demo_blank_io 20 3 ((u "e1", demo_first.2) :: drop 1 demo_blank_rows) demo_blank_state = Some (s', Raise OutboxValueError) /\
    ss_world s' = ss_world demo_blank_state.
Proof.
  destruct demo_blank_facts as (Hrows & Hm & Hf). rewrite Hrows in Hm.
  destruct (blank_reason_stops_delivery demo_blank_io 20 2 (u "e1") demo_first.2 (drop 1 demo_blank_rows) demo_blank_results
    demo_conflict demo_blank_state 32%N [] eq_refl Hm Hf (or_introl eq_refl) eq_refl) as (k & s' & E & Hw & _).
  - vm_compute. reflexivity.
  - exists s'. split; [exact E|exact Hw].
Defined.

End UsageShipper.
