(* ===== verification/TaskRegistry.v ===== *)
(** * TaskRegistry: the background tasks of a runner

    Models [TaskRegistry] of [src/agent_gateway/task_registry.py]: registration,
    admission and resume claims, the state machine of a task, termination and
    interruption, retention and eviction, the tree of registries and its roster;
    with [_NotificationListener] of [runner.py], which turns a settlement into a
    notification, and [_settle_consumed_notifications] and
    [_ack_delivered_notifications] of [runner_background_lifecycle.py].

    Entries, registries and queues are Python objects that several holders
    share, so a [World] keeps them by identity ([nat]) and a dict maps a task id
    to the identity of its entry. A dict is a list in insertion order. The
    wall clock is an argument. [TaskResult] and [AdmittedTask] belong to another
    package; they are the attributes that the registry reads. What a
    notification says is an operation of the class [ListenerEnv]. Rebuilding
    from durable events ([load_from_events]), mailboxes and the fields that only
    the runner writes are not modelled. *)
From S2P Require Import Prelude Wire TaskNotifications.
From Stdlib Require Import Sorted.
Import TaskNotifications.

Module TaskRegistry.

Inductive TaskState := PENDING | RUNNING | COMPLETED | FAILED | KILLED | INTERRUPTED | AWAITING_APPROVAL | IDLE | PARKED.
#[global] Instance TaskState_eq : EqDecision TaskState.
Proof. solve_decision. Defined.
Definition terminal_states : list TaskState := [COMPLETED; FAILED; KILLED; INTERRUPTED].
Definition admission_slot_states : list TaskState := [PENDING; RUNNING].
Definition roster_name_states : list TaskState := [RUNNING; IDLE; PARKED].
Definition notifying_states : list TaskState := terminal_states ++ [PARKED].
Definition in_states (s : TaskState) (l : list TaskState) : bool := bool_decide (s ∈ l).
Definition terminal (s : TaskState) : bool := in_states s terminal_states.

Inductive termination_intent := intent_cancelled | intent_killed.
#[global] Instance termination_intent_eq : EqDecision termination_intent.
Proof. solve_decision. Defined.
Inductive interruption_reason := user_interrupted | parent_interrupted.
Inductive persistence_state := not_started | in_flight | committed | uncertain.
#[global] Instance persistence_state_eq : EqDecision persistence_state.
Proof. solve_decision. Defined.
Inductive delivery_state := not_queued | queued | delivered | payload_omitted | queue_omitted.
#[global] Instance delivery_state_eq : EqDecision delivery_state.
Proof. solve_decision. Defined.
(** [_NOTIFICATION_RETRIEVAL_REQUIRED_STATES] *)
Definition retrieval_required (d : delivery_state) : bool := bool_decide (d ∈ [payload_omitted; queue_omitted]).

Abbreviation jdict := (list (str * json)).

(** The attributes of a [TaskResult] and of an [AdmittedTask] that are read. *)
Record TaskResult := mkTaskResult {
  rs_status : str;
  rs_terminal_reason : option str;
  rs_logical_task : str;
  rs_attempt : str;
  rs_physical_task_id : str;
  rs_digests : list str;
  rs_usage : str;
  rs_model_dump : jdict
}.
Record AdmittedTask := mkAdmitted { ad_logical_task : str; ad_attempt : str; ad_digests : list str }.
Record Envelope := mkEnvelope { en_kind : option str; en_content_id : option str }.
Definition dict_eq (a b : jdict) : bool := py_eq (JDict a) (JDict b).
Definition result_eq (a b : TaskResult) : bool :=
  bool_decide (rs_status a = rs_status b) && bool_decide (rs_terminal_reason a = rs_terminal_reason b) &&
  bool_decide (rs_logical_task a = rs_logical_task b) && bool_decide (rs_attempt a = rs_attempt b) &&
  bool_decide (rs_physical_task_id a = rs_physical_task_id b) && bool_decide (rs_digests a = rs_digests b) &&
  bool_decide (rs_usage a = rs_usage b) && dict_eq (rs_model_dump a) (rs_model_dump b).

(** An asyncio task: finished or not, and the cancellations requested. *)
Record AsyncTask := mkAsyncTask { at_done : bool; at_cancels : list (option interruption_reason) }.

Record Spawn := mkSpawn {
  sp_owner_runner_id : option str;
  sp_task : option str;
  sp_ticker : option str;
  sp_research_file_id : option Z;
  sp_handles : option (list str);
  sp_role : option str;
  sp_effort : option str
}.
#[global] Instance Spawn_eq : EqDecision Spawn.
Proof. solve_decision. Defined.
(** What no code writes after an entry is made, and what is written later, by the
    registry or by the runner. *)
Record Identity := mkIdentity {
  te_task_id : str;
  te_task_type : str;
  te_agent_name : option str;
  te_started_at : Z;
  te_original_task_id : option str;
  te_reconstructed : bool
}.
Record Progress := mkProgress {
  te_state : TaskState;
  te_asyncio_task : option AsyncTask;
  te_completed_at : option Z;
  te_result : option jdict;
  te_error : option jdict;
  te_task_result : option TaskResult;
  te_envelope : option Envelope;
  te_termination_intent : option termination_intent;
  te_interruption_reason : option interruption_reason;
  te_pending_final_state : option TaskState;
  te_pending_result : option jdict;
  te_pending_error : option jdict;
  te_finalizer_detached : bool;
  te_completion_persistence : persistence_state;
  te_delivery_state : delivery_state;
  te_generation : Z;
  te_content_read : bool;
  te_spawn : Spawn;
  te_metadata : jdict;
  te_admitted_task : option AdmittedTask
}.

Record TaskEntry := mkEntry { te_identity : Identity; te_progress : Progress }.
Definition state_of (e : TaskEntry) : TaskState := te_state (te_progress e).
Definition id_of (e : TaskEntry) : str := te_task_id (te_identity e).
Definition delivery_of (e : TaskEntry) : delivery_state := te_delivery_state (te_progress e).
Definition on_progress (f : Progress -> Progress) (e : TaskEntry) : TaskEntry := mkEntry (te_identity e) (f (te_progress e)).
Definition set_state (v : TaskState) (p : Progress) : Progress :=
  mkProgress v (te_asyncio_task p) (te_completed_at p) (te_result p) (te_error p) (te_task_result p) (te_envelope p) (te_termination_intent p) (te_interruption_reason p) (te_pending_final_state p) (te_pending_result p) (te_pending_error p) (te_finalizer_detached p) (te_completion_persistence p) (te_delivery_state p) (te_generation p) (te_content_read p) (te_spawn p) (te_metadata p) (te_admitted_task p).
Definition set_asyncio_task (v : option AsyncTask) (p : Progress) : Progress :=
  mkProgress (te_state p) v (te_completed_at p) (te_result p) (te_error p) (te_task_result p) (te_envelope p) (te_termination_intent p) (te_interruption_reason p) (te_pending_final_state p) (te_pending_result p) (te_pending_error p) (te_finalizer_detached p) (te_completion_persistence p) (te_delivery_state p) (te_generation p) (te_content_read p) (te_spawn p) (te_metadata p) (te_admitted_task p).
Definition set_completed_at (v : option Z) (p : Progress) : Progress :=
  mkProgress (te_state p) (te_asyncio_task p) v (te_result p) (te_error p) (te_task_result p) (te_envelope p) (te_termination_intent p) (te_interruption_reason p) (te_pending_final_state p) (te_pending_result p) (te_pending_error p) (te_finalizer_detached p) (te_completion_persistence p) (te_delivery_state p) (te_generation p) (te_content_read p) (te_spawn p) (te_metadata p) (te_admitted_task p).
Definition set_result (v : option jdict) (p : Progress) : Progress :=
  mkProgress (te_state p) (te_asyncio_task p) (te_completed_at p) v (te_error p) (te_task_result p) (te_envelope p) (te_termination_intent p) (te_interruption_reason p) (te_pending_final_state p) (te_pending_result p) (te_pending_error p) (te_finalizer_detached p) (te_completion_persistence p) (te_delivery_state p) (te_generation p) (te_content_read p) (te_spawn p) (te_metadata p) (te_admitted_task p).
Definition set_error (v : option jdict) (p : Progress) : Progress :=
  mkProgress (te_state p) (te_asyncio_task p) (te_completed_at p) (te_result p) v (te_task_result p) (te_envelope p) (te_termination_intent p) (te_interruption_reason p) (te_pending_final_state p) (te_pending_result p) (te_pending_error p) (te_finalizer_detached p) (te_completion_persistence p) (te_delivery_state p) (te_generation p) (te_content_read p) (te_spawn p) (te_metadata p) (te_admitted_task p).
Definition set_task_result (v : option TaskResult) (p : Progress) : Progress :=
  mkProgress (te_state p) (te_asyncio_task p) (te_completed_at p) (te_result p) (te_error p) v (te_envelope p) (te_termination_intent p) (te_interruption_reason p) (te_pending_final_state p) (te_pending_result p) (te_pending_error p) (te_finalizer_detached p) (te_completion_persistence p) (te_delivery_state p) (te_generation p) (te_content_read p) (te_spawn p) (te_metadata p) (te_admitted_task p).
Definition set_termination_intent (v : option termination_intent) (p : Progress) : Progress :=
  mkProgress (te_state p) (te_asyncio_task p) (te_completed_at p) (te_result p) (te_error p) (te_task_result p) (te_envelope p) v (te_interruption_reason p) (te_pending_final_state p) (te_pending_result p) (te_pending_error p) (te_finalizer_detached p) (te_completion_persistence p) (te_delivery_state p) (te_generation p) (te_content_read p) (te_spawn p) (te_metadata p) (te_admitted_task p).
Definition set_interruption_reason (v : option interruption_reason) (p : Progress) : Progress :=
  mkProgress (te_state p) (te_asyncio_task p) (te_completed_at p) (te_result p) (te_error p) (te_task_result p) (te_envelope p) (te_termination_intent p) v (te_pending_final_state p) (te_pending_result p) (te_pending_error p) (te_finalizer_detached p) (te_completion_persistence p) (te_delivery_state p) (te_generation p) (te_content_read p) (te_spawn p) (te_metadata p) (te_admitted_task p).
Definition set_pending_final_state (v : option TaskState) (p : Progress) : Progress :=
  mkProgress (te_state p) (te_asyncio_task p) (te_completed_at p) (te_result p) (te_error p) (te_task_result p) (te_envelope p) (te_termination_intent p) (te_interruption_reason p) v (te_pending_result p) (te_pending_error p) (te_finalizer_detached p) (te_completion_persistence p) (te_delivery_state p) (te_generation p) (te_content_read p) (te_spawn p) (te_metadata p) (te_admitted_task p).
Definition set_pending_result (v : option jdict) (p : Progress) : Progress :=
  mkProgress (te_state p) (te_asyncio_task p) (te_completed_at p) (te_result p) (te_error p) (te_task_result p) (te_envelope p) (te_termination_intent p) (te_interruption_reason p) (te_pending_final_state p) v (te_pending_error p) (te_finalizer_detached p) (te_completion_persistence p) (te_delivery_state p) (te_generation p) (te_content_read p) (te_spawn p) (te_metadata p) (te_admitted_task p).
Definition set_pending_error (v : option jdict) (p : Progress) : Progress :=
  mkProgress (te_state p) (te_asyncio_task p) (te_completed_at p) (te_result p) (te_error p) (te_task_result p) (te_envelope p) (te_termination_intent p) (te_interruption_reason p) (te_pending_final_state p) (te_pending_result p) v (te_finalizer_detached p) (te_completion_persistence p) (te_delivery_state p) (te_generation p) (te_content_read p) (te_spawn p) (te_metadata p) (te_admitted_task p).
Definition set_delivery_state (v : delivery_state) (p : Progress) : Progress :=
  mkProgress (te_state p) (te_asyncio_task p) (te_completed_at p) (te_result p) (te_error p) (te_task_result p) (te_envelope p) (te_termination_intent p) (te_interruption_reason p) (te_pending_final_state p) (te_pending_result p) (te_pending_error p) (te_finalizer_detached p) (te_completion_persistence p) v (te_generation p) (te_content_read p) (te_spawn p) (te_metadata p) (te_admitted_task p).
Definition set_generation (v : Z) (p : Progress) : Progress :=
  mkProgress (te_state p) (te_asyncio_task p) (te_completed_at p) (te_result p) (te_error p) (te_task_result p) (te_envelope p) (te_termination_intent p) (te_interruption_reason p) (te_pending_final_state p) (te_pending_result p) (te_pending_error p) (te_finalizer_detached p) (te_completion_persistence p) (te_delivery_state p) v (te_content_read p) (te_spawn p) (te_metadata p) (te_admitted_task p).
Definition set_content_read (v : bool) (p : Progress) : Progress :=
  mkProgress (te_state p) (te_asyncio_task p) (te_completed_at p) (te_result p) (te_error p) (te_task_result p) (te_envelope p) (te_termination_intent p) (te_interruption_reason p) (te_pending_final_state p) (te_pending_result p) (te_pending_error p) (te_finalizer_detached p) (te_completion_persistence p) (te_delivery_state p) (te_generation p) v (te_spawn p) (te_metadata p) (te_admitted_task p).

Record RegistryOwner := mkOwner { ow_job_id : str; ow_parent : option nat }.
Record TaskRegistry := mkRegistry {
  rg_tasks : list (str * nat);
  rg_superseded : gset str;
  rg_seq : Z;
  rg_max_inflight : Z;
  rg_max_retained : Z;
  rg_id_prefix : str;
  rg_listeners : list nat;
  rg_child_registries : list (str * nat);
  rg_owner : option RegistryOwner;
  rg_owner_completed : bool;
  rg_owner_entry_retired : bool
}.
Definition set_tasks (v : list (str * nat)) (g : TaskRegistry) : TaskRegistry :=
  mkRegistry v (rg_superseded g) (rg_seq g) (rg_max_inflight g) (rg_max_retained g) (rg_id_prefix g) (rg_listeners g) (rg_child_registries g) (rg_owner g) (rg_owner_completed g) (rg_owner_entry_retired g).
Definition set_superseded (v : gset str) (g : TaskRegistry) : TaskRegistry :=
  mkRegistry (rg_tasks g) v (rg_seq g) (rg_max_inflight g) (rg_max_retained g) (rg_id_prefix g) (rg_listeners g) (rg_child_registries g) (rg_owner g) (rg_owner_completed g) (rg_owner_entry_retired g).
Definition set_seq (v : Z) (g : TaskRegistry) : TaskRegistry :=
  mkRegistry (rg_tasks g) (rg_superseded g) v (rg_max_inflight g) (rg_max_retained g) (rg_id_prefix g) (rg_listeners g) (rg_child_registries g) (rg_owner g) (rg_owner_completed g) (rg_owner_entry_retired g).
Definition set_listeners (v : list nat) (g : TaskRegistry) : TaskRegistry :=
  mkRegistry (rg_tasks g) (rg_superseded g) (rg_seq g) (rg_max_inflight g) (rg_max_retained g) (rg_id_prefix g) v (rg_child_registries g) (rg_owner g) (rg_owner_completed g) (rg_owner_entry_retired g).
Definition set_child_registries (v : list (str * nat)) (g : TaskRegistry) : TaskRegistry :=
  mkRegistry (rg_tasks g) (rg_superseded g) (rg_seq g) (rg_max_inflight g) (rg_max_retained g) (rg_id_prefix g) (rg_listeners g) v (rg_owner g) (rg_owner_completed g) (rg_owner_entry_retired g).
Definition set_owner (v : option RegistryOwner) (g : TaskRegistry) : TaskRegistry :=
  mkRegistry (rg_tasks g) (rg_superseded g) (rg_seq g) (rg_max_inflight g) (rg_max_retained g) (rg_id_prefix g) (rg_listeners g) (rg_child_registries g) v (rg_owner_completed g) (rg_owner_entry_retired g).
Definition set_owner_completed (v : bool) (g : TaskRegistry) : TaskRegistry :=
  mkRegistry (rg_tasks g) (rg_superseded g) (rg_seq g) (rg_max_inflight g) (rg_max_retained g) (rg_id_prefix g) (rg_listeners g) (rg_child_registries g) (rg_owner g) v (rg_owner_entry_retired g).
Definition set_owner_entry_retired (v : bool) (g : TaskRegistry) : TaskRegistry :=
  mkRegistry (rg_tasks g) (rg_superseded g) (rg_seq g) (rg_max_inflight g) (rg_max_retained g) (rg_id_prefix g) (rg_listeners g) (rg_child_registries g) (rg_owner g) (rg_owner_completed g) v.

Record World := mkWorld { w_entries : list TaskEntry; w_registries : list TaskRegistry; w_queues : list NotificationQueue }.
Definition set_entries (v : list TaskEntry) (w : World) : World := mkWorld v (w_registries w) (w_queues w).
Definition set_registries (v : list TaskRegistry) (w : World) : World := mkWorld (w_entries w) v (w_queues w).
Definition set_queues (v : list NotificationQueue) (w : World) : World := mkWorld (w_entries w) (w_registries w) v.
Definition write_entry (l : nat) (f : Progress -> Progress) (w : World) : World :=
  set_entries (alter (on_progress f) l (w_entries w)) w.
Definition write_registry (r : nat) (f : TaskRegistry -> TaskRegistry) (w : World) : World :=
  set_registries (alter f r (w_registries w)) w.

(** Dicts: [d.get(k)], [d[k] = v], [d.pop(k, None)]. *)
Fixpoint assoc_get {V} (k : str) (d : list (str * V)) : option V :=
  match d with [] => None | (k', v) :: d => if decide (k = k') then Some v else assoc_get k d end.
Fixpoint assoc_set {V} (k : str) (v : V) (d : list (str * V)) : list (str * V) :=
  match d with
  | [] => [(k, v)]
  | (k', v') :: d => if decide (k = k') then (k, v) :: d else (k', v') :: assoc_set k v d
  end.
Definition assoc_del {V} (k : str) (d : list (str * V)) : list (str * V) := filter (fun kv => kv.1 <> k) d.

Definition new_registry (max_inflight max_retained : Z) (prefix : str) : TaskRegistry :=
  mkRegistry [] ∅ 0 max_inflight max_retained prefix [] [] None false false.
Definition registry_at (w : World) (r : nat) : TaskRegistry :=
  default (new_registry 0 0 []) (w_registries w !! r).
Definition tasks (w : World) (r : nat) : list (str * nat) := rg_tasks (registry_at w r).
(** [self._tasks.get(task_id)], as an identity. *)
Definition get (w : World) (r : nat) (task_id : str) : option nat := assoc_get task_id (tasks w r).
(** [self._tasks.values()] *)
Definition entries_of (w : World) (r : nat) : list (nat * TaskEntry) :=
  omap (fun kv => (fun e => (kv.2, e)) <$> w_entries w !! kv.2) (tasks w r).

(** ** The tree of registries *)

(** [_has_unsettled_jobs] looks at one registry; [pop()] takes the last of the
    list. *)
Definition unsettled (retain : bool) (e : TaskEntry) : bool :=
  negb (terminal (state_of e)) || te_finalizer_detached (te_progress e) || (retain && retrieval_required (delivery_of e)).
Definition pop_last {A} (l : list A) : option (list A * A) :=
  match reverse l with [] => None | x :: rest => Some (reverse rest, x) end.
Definition child_list (w : World) (r : nat) : list nat := (rg_child_registries (registry_at w r)).*2.
(** The children are pushed one by one; the first whose owner is not finished
    ends the search. *)
Fixpoint push_children (w : World) (pending children : list nat) : option (list nat) :=
  match children with
  | [] => Some pending
  | c :: cs => if rg_owner_completed (registry_at w c) then push_children w (pending ++ [c]) cs else None
  end.
Fixpoint unsettled_loop (w : World) (retain : bool) (fuel : nat) (pending : list nat) : option bool :=
  match fuel with
  | O => None
  | S fuel =>
    match pop_last pending with
    | None => Some false
    | Some (pending, r) =>
      if existsb (fun le => unsettled retain le.2) (entries_of w r) then Some true
      else match push_children w pending (child_list w r) with
           | None => Some true
           | Some pending => unsettled_loop w retain fuel pending
           end
    end
  end.
Definition tree_fuel (w : World) : nat := S (length (w_registries w)).
Definition has_unsettled_jobs (w : World) (r : nat) : option bool :=
  unsettled_loop w (negb (rg_owner_entry_retired (registry_at w r))) (tree_fuel w) [r].

(** [_prune_completed_owner]: up the tree, releasing links of finished owners. *)
Definition prune_link (w : World) (r : nat) (o : RegistryOwner) (p : nat) : World :=
  if rg_owner_completed (registry_at w r) && is_none (get w p (ow_job_id o)) &&
     bool_decide (has_unsettled_jobs w r = Some false) &&
     bool_decide (assoc_get (ow_job_id o) (rg_child_registries (registry_at w p)) = Some r)
  then write_registry p (fun g => set_child_registries (assoc_del (ow_job_id o) (rg_child_registries g)) g) w
  else w.
Fixpoint prune_loop (fuel : nat) (r : nat) (w : World) : World :=
  match fuel with
  | O => w
  | S fuel =>
    match rg_owner (registry_at w r) with
    | Some o =>
      match ow_parent o with
      | Some p => prune_loop fuel p (prune_link w r o p)
      | None => w
      end
    | None => w
    end
  end.
Definition prune_completed_owner (r : nat) (w : World) : World := prune_loop (tree_fuel w) r w.

Definition complete_owner (r : nat) (w : World) : World :=
  prune_completed_owner r (write_registry r (set_owner_completed true) w).
Definition remove_task (r : nat) (task_id : str) (w : World) : World * option nat :=
  let entry := get w r task_id in
  let w := write_registry r (fun g => set_tasks (assoc_del task_id (rg_tasks g)) g) w in
  let w := match assoc_get task_id (rg_child_registries (registry_at w r)) with
           | Some c =>
             let w := match entry with Some _ => write_registry c (set_owner_entry_retired true) w | None => w end in
             prune_completed_owner c w
           | None => w
           end in
  (prune_completed_owner r w, entry).

(** [tree_root], [_tree_registries] *)
Fixpoint root_loop (w : World) (fuel : nat) (r : nat) : nat :=
  match fuel with
  | O => r
  | S fuel =>
    match rg_owner (registry_at w r) with
    | Some o => match ow_parent o with Some p => root_loop w fuel p | None => r end
    | None => r
    end
  end.
Definition tree_root (w : World) (r : nat) : nat := root_loop w (tree_fuel w) r.
Fixpoint tree_loop (w : World) (fuel : nat) (ordered pending : list nat) : option (list nat) :=
  match fuel with
  | O => None
  | S fuel =>
    match pending with
    | [] => Some ordered
    | r :: pending => tree_loop w fuel (ordered ++ [r]) (pending ++ child_list w r)
    end
  end.
Definition tree_registries (w : World) (r : nat) : option (list nat) :=
  tree_loop w (S (tree_fuel w)) [] [tree_root w r].

(** A job on the roster: its id, its registry and its entry, none for the root. *)
Record RosterJob := mkJob { jb_id : str; jb_registry : nat; jb_entry : option nat; jb_parent : option str }.
Definition jobs_of (w : World) (r : nat) : list RosterJob :=
  let owner := rg_owner (registry_at w r) in
  (match owner with
   | Some o => match ow_parent o with None => [mkJob (ow_job_id o) r None None] | Some _ => [] end
   | None => []
   end) ++
  ((fun le => mkJob (id_of le.2) r (Some le.1) (ow_job_id <$> owner)) <$> entries_of w r).
Definition roster (w : World) (r : nat) : list RosterJob :=
  match tree_registries w r with Some rs => rs ≫= jobs_of w | None => [] end.

Definition named (w : World) (target : str) (j : RosterJob) : bool :=
  match jb_entry j ≫= (fun l => w_entries w !! l) with
  | Some e => bool_decide (te_agent_name (te_identity e) = Some target) && in_states (state_of e) roster_name_states
  | None => false
  end.
(** [superseded] is a set of job ids over the whole roster. *)
Definition superseded (w : World) (jobs : list RosterJob) (id : str) : bool :=
  existsb (fun j => bool_decide (jb_id j = id) && bool_decide (jb_id j ∈ rg_superseded (registry_at w (jb_registry j)))) jobs.
Definition find_on_roster (w : World) (r : nat) (target : str) : outcome (list RosterJob) (option RosterJob) :=
  let jobs := roster w r in
  match List.find (fun j => bool_decide (jb_id j = target)) jobs with
  | Some j => Ret (Some j)
  | None =>
    match List.filter (fun j => named w target j && negb (superseded w jobs (jb_id j))) jobs with
    | [] => Ret None
    | [j] => Ret (Some j)
    | js => Raise js
    end
  end.

(** ** Registration and admission *)

Inductive reg_error :=
| RetrievalCapacity | DuplicateTask | EmptyIdentity | ResumeConflict | UnknownTask | SettlementError | BadArgument | MaterializationError.
Abbreviation W A := (SE World reg_error A).
Definition modify (f : World -> World) : W unit := fun w => (f w, Ret tt).

Definition count_entries (p : TaskEntry -> bool) (w : World) (r : nat) : Z :=
  Z.of_nat (length (List.filter (fun le => p le.2) (entries_of w r))).
Definition inflight_count : World -> nat -> Z := count_entries (fun e => in_states (state_of e) [RUNNING]).
Definition admission_count : World -> nat -> Z := count_entries (fun e => in_states (state_of e) admission_slot_states).
Definition pending_retrieval_count : World -> nat -> Z := count_entries (fun e => retrieval_required (delivery_of e)).
Definition retention_limit (w : World) (r : nat) : Z :=
  (Z.max 1 (rg_max_retained (registry_at w r)) + Z.max 0 (rg_max_inflight (registry_at w r)))%Z.
Definition capacity_available (admission : option Z) (w : World) (r : nat) : bool :=
  let admitted := match admission with None => admission_count w r | Some n => Z.max 0 n end in
  (pending_retrieval_count w r + admitted <? retention_limit w r)%Z.

(** [list_tasks()]: by start time, in insertion order among equals. *)
Fixpoint insert_by_start (x : nat * TaskEntry) (l : list (nat * TaskEntry)) : list (nat * TaskEntry) :=
  match l with
  | [] => [x]
  | y :: l' =>
    if (te_started_at (te_identity x.2) <=? te_started_at (te_identity y.2))%Z then x :: l else y :: insert_by_start x l'
  end.
Definition sort_by_start (l : list (nat * TaskEntry)) : list (nat * TaskEntry) := foldr insert_by_start [] l.
Definition list_tasks (w : World) (r : nat) (state : option TaskState) : list (nat * TaskEntry) :=
  sort_by_start (List.filter (fun le => match state with None => true | Some s => bool_decide (state_of le.2 = s) end) (entries_of w r)).

Definition evictable (e : TaskEntry) : bool := terminal (state_of e) && negb (retrieval_required (delivery_of e)).
(** [while len(self._tasks) > limit and completed] *)
Fixpoint evict_oldest (r : nat) (limit : Z) (completed : list str) (w : World) : World :=
  match completed with
  | [] => w
  | id :: completed =>
    if (limit <? Z.of_nat (length (tasks w r)))%Z then evict_oldest r limit completed (remove_task r id w).1 else w
  end.
Definition auto_evict_completed (r : nat) (w : World) : World :=
  let limit := Z.max 0 (rg_max_retained (registry_at w r)) in
  if (Z.of_nat (length (tasks w r)) <=? limit)%Z then w
  else evict_oldest r limit ((fun le => id_of le.2) <$> List.filter (fun le => evictable le.2) (list_tasks w r None)) w.
Definition evict_completed (r : nat) (max_age now : Z) (w : World) : World * nat :=
  let candidates := List.filter (fun le => evictable le.2 &&
    match te_completed_at (te_progress le.2) with Some c => (max_age <=? now - c)%Z | None => false end) (list_tasks w r None) in
  foldl (fun acc le => let '(w, removed) := remove_task r (id_of le.2) acc.1 in
                       (w, match removed with Some _ => S acc.2 | None => acc.2 end)) (w, 0) candidates.

Definition no_spawn : Spawn := mkSpawn None None None None None None None.
Definition fresh_progress (metadata : jdict) : Progress :=
  mkProgress PENDING None None None None None None None None None None None false not_started not_queued 0 false no_spawn metadata None.
Definition new_entry (task_id task_type : str) (agent : option str) (original : option str) (metadata : jdict) (now : Z) : TaskEntry :=
  mkEntry (mkIdentity task_id task_type agent now original false) (fresh_progress metadata).
(** Putting an entry into the dict of a registry. *)
Definition store_entry (r : nat) (e : TaskEntry) (w : World) : World :=
  let l := length (w_entries w) in
  let w := set_entries (w_entries w ++ [e]) w in
  write_registry r (fun g =>
    let g := set_tasks (assoc_set (id_of e) l (rg_tasks g)) g in
    match te_original_task_id (te_identity e) with
    | Some o => set_superseded ({[o]} ∪ rg_superseded g) g
    | None => g
    end) w.

Definition register (r : nat) (task_type : str) (agent task_id original : option str) (metadata : jdict) (now : Z) : W nat :=
  let! w := se_get in
  if negb (capacity_available None w r) then se_raise RetrievalCapacity
  else
    let! id := match task_id with
               | None =>
                 let g := registry_at w r in
                 let! _ := modify (write_registry r (set_seq (rg_seq g + 1)%Z)) in
                 se_ret (rg_id_prefix g ++ u "_" ++ Z_to_str (rg_seq g))
               | Some id => match get w r id with Some _ => se_raise DuplicateTask | None => se_ret id end
               end in
    let! w := se_get in
    let l := length (w_entries w) in
    let! _ := modify (store_entry r (new_entry id task_type agent original metadata now)) in
    let! _ := modify (auto_evict_completed r) in
    se_ret l.

Definition entry_at (w : World) (l : nat) : option TaskEntry := w_entries w !! l.
(** [self._tasks.get(task_id)] with the entry. *)
Definition find_entry (w : World) (r : nat) (task_id : str) : option (nat * TaskEntry) :=
  match get w r task_id with Some l => match entry_at w l with Some e => Some (l, e) | None => None end | None => None end.
Definition original_of (w : World) (l : nat) : option str := e ← entry_at w l; te_original_task_id (te_identity e).
Definition claim_resume_successor (r : nat) (task_type : str) (task_id original : str) (agent : option str) (metadata : jdict) (now : Z)
    : W (nat * bool) :=
  if bool_decide (task_id = []) || bool_decide (original = []) then se_raise EmptyIdentity
  else
    let! w := se_get in
    match get w r task_id with
    | Some l => if bool_decide (original_of w l = Some original) then se_ret (l, false) else se_raise ResumeConflict
    | None =>
      let! l := register r task_type agent (Some task_id) (Some original) metadata now in
      se_ret (l, true)
    end.

(** The answers of [admit]: an entry, or a rejection and no reservation. *)
Inductive admission := SlotTaken (l : nat) | RetrievalBackpressure (pending limit : Z) | SuccessorConflict.
Definition truthy_id (task_id : option str) : option str := match task_id with Some (c :: s) => Some (c :: s) | _ => None end.
Definition catch {A} (m : W A) (handler : reg_error -> W A) : W A :=
  fun w => match m w with (w, Ret a) => (w, Ret a) | (w, Raise e) => handler e w end.
Definition admit_task (r : nat) (task_type : str) (agent task_id original : option str) (metadata : jdict) (now : Z) : W admission :=
  let! w := se_get in
  let reserved := truthy_id task_id ≫= get w r in
  let holds_slot := match reserved ≫= entry_at w with Some e => in_states (state_of e) admission_slot_states | None => false end in
  let count := (admission_count w r - if holds_slot then 1 else 0)%Z in
  if negb (capacity_available (Some count) w r) then se_ret (RetrievalBackpressure (pending_retrieval_count w r) (retention_limit w r))
  else match original with
  | Some o =>
    match truthy_id task_id with
    | None => se_raise EmptyIdentity
    | Some id =>
      catch (let! claimed := claim_resume_successor r task_type id o agent metadata now in se_ret (SlotTaken claimed.1))
        (fun e => match e with ResumeConflict => se_ret SuccessorConflict | _ => se_raise e end)
    end
  | None =>
    match reserved with
    | Some l => se_ret (SlotTaken l)
    | None => let! l := register r task_type agent task_id None metadata now in se_ret (SlotTaken l)
    end
  end.

Definition discard_unstarted (r : nat) (task_id : str) (expected : nat) (w : World) : World * bool :=
  match find_entry w r task_id with
  | Some (l, e) =>
    if bool_decide (l = expected) && bool_decide (state_of e = PENDING) && is_none (te_asyncio_task (te_progress e))
    then
      let w := (remove_task r task_id w).1 in
      (match te_original_task_id (te_identity e) with
       | Some o =>
         if existsb (fun le => bool_decide (te_original_task_id (te_identity le.2) = Some o)) (entries_of w r) then w
         else write_registry r (fun g => set_superseded (rg_superseded g ∖ {[o]}) g) w
       | None => w
       end, true)
    else (w, false)
  | None => (w, false)
  end.

(** [_numeric_suffix], on ASCII digits. *)
Definition resume_suffix (id : str) : bool :=
  let rev := reverse id in
  let rev := match rev with 10%N :: rest => rest | _ => rev end in
  let '(digits, rest) := span is_digit rev in
  match digits, rest with _ :: _, 114%N :: 95%N :: _ => true | _, _ => false end.
Definition last_segment (id : str) : str := reverse (span (fun c => negb (c =? 95)%N) (reverse id)).1.
Definition parse_int (s : str) : option Z :=
  let s := py_strip s in
  let '(sign, ds) := match s with 45%N :: ds => ((-1)%Z, ds) | 43%N :: ds => (1%Z, ds) | _ => (1%Z, s) end in
  if negb (bool_decide (ds = [])) && forallb is_digit ds then Some (sign * Z.of_N (digits_val ds))%Z else None.
Definition numeric_suffix (id : str) : option Z := if resume_suffix id then None else parse_int (last_segment id).

Definition adopt_reconstructed (r : nat) (e : TaskEntry) : W nat :=
  let! w := se_get in
  match get w r (id_of e) with
  | Some l => se_ret l
  | None =>
    if negb (te_reconstructed (te_identity e)) then se_raise BadArgument
    else
      let! _ := modify (store_entry r e) in
      let! _ := modify (match numeric_suffix (id_of e) with
                        | Some s => write_registry r (fun g => set_seq (Z.max (rg_seq g) (s + 1)) g)
                        | None => fun w => w
                        end) in
      se_ret (length (w_entries w))
  end.

(** [self._task_registry._tasks.setdefault(supplied_entry.task_id,
    supplied_entry)] of [_prepare_run_durable_context]: the entry of a run's own
    job, which a fork shares with the registry of its parent. *)
Definition share_entry (r l : nat) (w : World) : World :=
  match entry_at w l with
  | Some e => match get w r (id_of e) with
              | Some _ => w
              | None => write_registry r (fun g => set_tasks (assoc_set (id_of e) l (rg_tasks g)) g) w
              end
  | None => w
  end.

(** [bind_owner] *)
Definition bind_owner (r : nat) (o : RegistryOwner) : W unit :=
  let! w := se_get in
  match rg_owner (registry_at w r) with
  | Some _ => se_raise BadArgument
  | None =>
    let! _ := modify (write_registry r (set_owner (Some o))) in
    modify (match ow_parent o with
            | Some p => write_registry p (fun g => set_child_registries (assoc_set (ow_job_id o) r (rg_child_registries g)) g)
            | None => fun w => w
            end)
  end.
Definition add_listener (r q : nat) (w : World) : World :=
  write_registry r (fun g => set_listeners (rg_listeners g ++ [q]) g) w.
(** ** The state machine *)

Definition state_text (s : TaskState) : str :=
  match s with
  | PENDING => u "pending" | RUNNING => u "running" | COMPLETED => u "completed" | FAILED => u "failed" | KILLED => u "killed"
  | INTERRUPTED => u "interrupted" | AWAITING_APPROVAL => u "awaiting_approval" | IDLE => u "idle" | PARKED => u "parked"
  end.

(** [task_state_for_result] and the two validations of a settlement. *)
Definition PARK_TERMINAL_REASONS : list str := [u "turns_exhausted"; u "share_spent"].
Definition task_state_for_result (t : TaskResult) : TaskState :=
  if bool_decide (rs_status t = u "succeeded") || bool_decide (rs_status t = u "skipped") then COMPLETED
  else if bool_decide (rs_status t = u "cancelled") then KILLED
  else if bool_decide (rs_status t = u "interrupted")
  then match rs_terminal_reason t with
       | Some reason => if bool_decide (reason ∈ PARK_TERMINAL_REASONS) then PARKED else INTERRUPTED
       | None => INTERRUPTED
       end
  else if bool_decide (rs_status t = u "awaiting_approval") then AWAITING_APPROVAL
  else FAILED.
Definition settlement_valid (t : TaskResult) (final : TaskState) (error : option jdict) : bool :=
  bool_decide (task_state_for_result t = final) && (is_none error || bool_decide (rs_status t = u "failed")).
Definition admission_valid (t : TaskResult) (a : AdmittedTask) : bool :=
  bool_decide (rs_logical_task t = ad_logical_task a) && bool_decide (rs_attempt t = ad_attempt a) &&
  bool_decide (rs_digests t = ad_digests a).

(** What the listener of a runner puts into a notification. *)
Class ListenerEnv := {
  listener_notify :: NotifyEnv;
  settlement_payload : TaskEntry -> TaskState -> Payload;
  settlement_summary : TaskEntry -> TaskState -> str;
  envelope_payload : Envelope -> Payload;
  envelope_summary : TaskEntry -> Envelope -> str
}.

Section operations.
Context {env : ListenerEnv}.

Definition workflow_owned (e : TaskEntry) : bool :=
  match py_get (u "workflow_task") (te_metadata (te_progress e)) with JNull => false | _ => true end.
(** Making a notification and pushing it. *)
Definition push_new (n : TaskNotification) (q : nat) (w : World) : World * bool :=
  match w_queues w !! q with
  | None => (w, false)
  | Some queue =>
    let '(queue, l) := allocate n queue in
    let '(queue, ok) := push l queue in
    (set_queues (<[q := queue]> (w_queues w)) w, ok)
  end.
Definition set_delivery (d : delivery_state) (l : nat) : World -> World := write_entry l (set_delivery_state d).
Definition entry_notification (e : TaskEntry) (event summary : str) (p : Payload) (now : Z) : TaskNotification :=
  new_notification (id_of e) (te_agent_name (te_identity e)) event summary now p (Some (te_generation (te_progress e))) None None None.

(** [_NotificationListener.on_transition] on the queue [q]. *)
Definition on_transition (q l : nat) (new : TaskState) (now : Z) : W unit :=
  let! w := se_get in
  match entry_at w l with
  | None => se_ret tt
  | Some e =>
    if workflow_owned e || bool_decide (te_task_type (te_identity e) = u "pipeline_stage") || negb (in_states new notifying_states)
    then se_ret tt
    else match te_envelope (te_progress e) with
    | Some envelope =>
      let n := entry_notification e (u "completed") (envelope_summary e envelope) (envelope_payload envelope) now in
      match (inline_payload n).2 with
      | Some _ => se_raise MaterializationError
      | None =>
        let '(w', ok) := push_new n q w in
        se_put (set_delivery (if ok then queued else queue_omitted) l w')
      end
    | None =>
      let n := entry_notification e (state_text new) (settlement_summary e new) (settlement_payload e new) now in
      let '(w', ok) := push_new n q w in
      se_put (set_delivery (if ok then match (inline_payload n).2 with None => queued | Some _ => payload_omitted end
                            else queue_omitted) l w')
    end
  end.
Fixpoint notify_all (qs : list nat) (l : nat) (new : TaskState) (now : Z) : W unit :=
  match qs with
  | [] => se_ret tt
  | q :: qs => let! _ := on_transition q l new now in notify_all qs l new now
  end.
Definition notify (r l : nat) (new : TaskState) (now : Z) : W unit :=
  let! w := se_get in notify_all (rg_listeners (registry_at w r)) l new now.

Definition when_some {A} (v : option A) (f : A -> Progress -> Progress) : Progress -> Progress :=
  match v with Some a => f a | None => fun p => p end.
Definition bump (p : Progress) : Progress := set_generation (te_generation p + 1)%Z p.

Definition lookup_entry (r : nat) (task_id : str) : W (nat * TaskEntry) :=
  let! w := se_get in
  match find_entry w r task_id with
  | Some le => se_ret le
  | None => se_raise UnknownTask
  end.

Definition transition (r : nat) (task_id : str) (new : TaskState) (result error : option jdict) (now : Z) : W nat :=
  let! (l, e) := lookup_entry r task_id in
  if terminal (state_of e) then let! _ := modify (prune_completed_owner r) in se_ret l
  else
    let! _ := modify (write_entry l (fun p =>
      let p := set_state new p in
      let p := when_some result (fun v => set_result (Some v)) p in
      let p := when_some error (fun v => set_error (Some v)) p in
      let p := if terminal new then set_completed_at (Some now) p else p in
      if in_states new notifying_states then bump p else p)) in
    let! _ := notify r l new now in
    let! _ := modify (if terminal new then prune_completed_owner r else fun w => w) in
    se_ret l.
Definition park (r : nat) (task_id : str) (result : option jdict) (now : Z) : W nat := transition r task_id PARKED result None now.
Definition revive_to_running (r : nat) (task_id : str) (now : Z) : W nat := transition r task_id RUNNING None None now.

Definition finalize_interrupted (r : nat) (task_id : str) (new : TaskState) (result error : option jdict) (now : Z) : W nat :=
  let! (l, e) := lookup_entry r task_id in
  if negb (in_states (state_of e) [INTERRUPTED; PARKED]) then se_ret l
  else if negb (in_states new [COMPLETED; FAILED; KILLED]) then se_raise BadArgument
  else
    let! _ := modify (write_entry l (fun p =>
      bump (set_completed_at (Some now) (set_error error (set_result result (set_state new p)))))) in
    let! _ := notify r l new now in
    let! _ := modify (prune_completed_owner r) in
    se_ret l.

Definition commit_parked_termination (r : nat) (task_id : str) (t : TaskResult) (completed_at now : Z) : W nat :=
  let! (l, e) := lookup_entry r task_id in
  let p := te_progress e in
  if bool_decide (te_state p = KILLED) && match te_task_result p with Some t' => result_eq t' t | None => false end then se_ret l
  else match te_task_result p, te_admitted_task (te_progress e) with
  | Some parked, Some admitted =>
    if bool_decide (te_state p = AWAITING_APPROVAL) && bool_decide (te_completion_persistence p = committed) &&
       is_none (te_error p) && match te_result p with Some d => dict_eq d (rs_model_dump parked) | None => false end &&
       admission_valid parked admitted && settlement_valid parked AWAITING_APPROVAL None &&
       admission_valid t admitted && settlement_valid t KILLED None &&
       bool_decide (rs_physical_task_id parked = task_id) && bool_decide (rs_physical_task_id t = task_id) &&
       bool_decide (rs_terminal_reason t = Some (u "cancelled")) && bool_decide (rs_usage t = rs_usage parked)
    then
      let! _ := modify (write_entry l (fun p =>
        bump (set_pending_error None (set_pending_result (Some (rs_model_dump t)) (set_pending_final_state (Some KILLED)
          (set_completed_at (Some completed_at) (set_termination_intent (Some intent_cancelled) (set_error None
            (set_result (Some (rs_model_dump t)) (set_task_result (Some t) (set_state KILLED p))))))))))) in
      let! _ := notify r l KILLED now in
      let! _ := modify (prune_completed_owner r) in
      se_ret l
    else se_raise SettlementError
  | _, _ => se_raise SettlementError
  end.

(** [restore_committed_awaiting] and [restore_committed_park]: the same guards on
    the canonical result of the committed attempt. *)
Definition restorable (e : TaskEntry) (task_id : str) (final : TaskState) (result : option jdict) : bool :=
  let p := te_progress e in
  bool_decide (te_state p = INTERRUPTED) && bool_decide (te_completion_persistence p = committed) &&
  match te_task_result p, te_admitted_task (te_progress e) with
  | Some canonical, Some admitted =>
    admission_valid canonical admitted && settlement_valid canonical final None &&
    bool_decide (rs_physical_task_id canonical = task_id) &&
    match result with Some d => dict_eq d (rs_model_dump canonical) | None => false end
  | _, _ => false
  end.
Definition restore_committed (final : TaskState) (notifies : bool) (r : nat) (task_id : str) (result : option jdict) (now : Z) : W nat :=
  let! (l, e) := lookup_entry r task_id in
  if restorable e task_id final result
  then
    let! _ := modify (write_entry l (fun p =>
      let p := set_completed_at None (set_error None (set_result result (set_state final p))) in
      if notifies then bump p else p)) in
    let! _ := notify r l final now in
    se_ret l
  else se_raise SettlementError.
Definition restore_committed_awaiting := restore_committed AWAITING_APPROVAL false.
Definition restore_committed_park := restore_committed PARKED true.

Definition request_cancel (reason : option interruption_reason) (p : Progress) : Progress :=
  set_asyncio_task ((fun t => mkAsyncTask (at_done t) (at_cancels t ++ [reason])) <$> te_asyncio_task p) p.
Definition interrupt (r : nat) (task_id : str) (reason : interruption_reason) (w : World) : World * bool :=
  match find_entry w r task_id with
  | Some (l, e) =>
    let p := te_progress e in
    if bool_decide (te_state p = RUNNING) && match te_asyncio_task p with Some t => negb (at_done t) | None => false end &&
       is_none (te_pending_final_state p) && is_none (te_termination_intent p) && is_none (te_interruption_reason p)
    then (write_entry l (fun p => request_cancel (Some reason) (set_interruption_reason (Some reason) p)) w, true)
    else (w, false)
  | None => (w, false)
  end.
Definition kill (r : nat) (task_id : str) (intent : termination_intent) (w : World) : World * bool :=
  match find_entry w r task_id with
  | Some (l, e) =>
    let p := te_progress e in
    if terminal (te_state p) || bool_decide (te_termination_intent p = Some intent_cancelled)
       || bool_decide (te_termination_intent p = Some intent)
    then (w, false)
    else (write_entry l (fun p => request_cancel None (set_termination_intent (Some intent) p)) w, true)
  | None => (w, false)
  end.

Definition handle_kinds : list (option str) := [Some (u "result_handle"); Some (u "authored_summary_with_result_handle")].
Definition mark_result_content_read (r : nat) (task_id content_id : str) (w : World) : World * bool :=
  match find_entry w r task_id with
  | Some (l, e) =>
    match te_envelope (te_progress e) with
    | Some envelope =>
      if bool_decide (en_kind envelope ∈ handle_kinds) && bool_decide (en_content_id envelope = Some content_id)
      then (write_entry l (set_content_read true) w, true) else (w, false)
    | None => (w, false)
    end
  | None => (w, false)
  end.
Definition mark_notification_payload_retrieved (r : nat) (task_id : str) (generation : Z) (w : World) : World * bool :=
  match find_entry w r task_id with
  | Some (l, e) =>
    let p := te_progress e in
    if bool_decide (te_generation p = generation) && retrieval_required (te_delivery_state p)
    then (prune_completed_owner r (auto_evict_completed r (set_delivery delivered l w)), true)
    else (w, false)
  | None => (w, false)
  end.

(** *** Acknowledgement by the parent *)
Definition settle_one (r : nat) (w : World) (n : TaskNotification) : World :=
  match find_entry w r (tn_task_id n) with
  | Some (l, e) =>
    let p := te_progress e in
    if bool_decide (te_delivery_state p = queued) && bool_decide (tn_generation n = Some (te_generation p))
    then set_delivery delivered l w else w
  | None => w
  end.
(** [_settle_consumed_notifications], with the boundary callbacks it calls. *)
Definition settle_consumed (r : nat) (ns : list TaskNotification) (w : World) : World * list nat :=
  (foldl (settle_one r) w ns, omap tn_boundary_delivered ns).
Definition objects_at (queue : NotificationQueue) (ls : list nat) : list TaskNotification := omap (fun l => nq_objects queue !! l) ls.
Definition ack_delivered (r q : nat) (delivered : list nat) (w : World) : World * nat :=
  match w_queues w !! q with
  | None => (w, 0)
  | Some queue =>
    let '(queue', consumed) := drain_delivered delivered queue in
    ((settle_consumed r (objects_at queue' consumed) (set_queues (<[q := queue']> (w_queues w)) w)).1, length consumed)
  end.
Definition consume_notifications (r q : nat) (max_count : Z) (w : World) : World * nat :=
  match w_queues w !! q with
  | None => (w, 0)
  | Some queue =>
    let '(queue', consumed) := drain max_count queue in
    ((settle_consumed r (objects_at queue' consumed) (set_queues (<[q := queue']> (w_queues w)) w)).1, length consumed)
  end.

(** [prior_child_spawn]: the latest live match, else the latest success. *)
Definition later_start (cur : option (nat * TaskEntry)) (x : nat * TaskEntry) : option (nat * TaskEntry) :=
  match cur with
  | Some y => if (te_started_at (te_identity y.2) <=? te_started_at (te_identity x.2))%Z then Some x else cur
  | None => Some x
  end.
Definition succeeded (e : TaskEntry) : bool :=
  match te_task_result (te_progress e) with Some t => bool_decide (rs_status t = u "succeeded") | None => false end.
Definition spawn_matches (w : World) (r : nat) (agent : str) (wanted : Spawn) (e : TaskEntry) : bool :=
  negb (bool_decide (id_of e ∈ rg_superseded (registry_at w r))) && bool_decide (te_agent_name (te_identity e) = Some agent) &&
  bool_decide (te_spawn (te_progress e) = wanted).
Definition prior_child_spawn (w : World) (r : nat) (agent runner task : str) (ticker : option str) (research_file_id : option Z)
    (handles : list str) (role effort : option str) : option nat :=
  if bool_decide (runner = []) || bool_decide (agent = []) then None
  else
    let wanted := mkSpawn (Some runner) (Some task) ticker research_file_id (Some handles) role effort in
    let step acc (x : nat * TaskEntry) :=
      if negb (spawn_matches w r agent wanted x.2) then acc
      else if in_states (state_of x.2) admission_slot_states then (later_start acc.1 x, acc.2)
      else if bool_decide (state_of x.2 = COMPLETED) && succeeded x.2 then (acc.1, later_start acc.2 x)
      else acc in
    let '(live, done) := foldl step (None, None) (entries_of w r) in
    match live with Some x => Some x.1 | None => fst <$> done end.

End operations.

(** ** Runs

    Everything that happens to registries, entries and queues: the methods
    above, a new registry or queue, notifications from elsewhere, the entry of a
    run's own job put into its registry, and the runner's own writes to an entry
    ([rn_write]): [_stamp_child_result] of [child_completion.py],
    [_remember_foreground_spawn] of [sub_agent.py],
    [_interrupt_uncertain_background_completion] and the like. *)
Section runs.
Context {env : ListenerEnv}.

Inductive reg_op :=
| rn_new (g : TaskRegistry)
| rn_queue (max_pending : nat)
| rn_listen (r q : nat)
| rn_bind (r : nat) (o : RegistryOwner)
| rn_complete (r : nat)
| rn_register (r : nat) (task_type : str) (agent task_id original : option str) (metadata : jdict) (now : Z)
| rn_admit (r : nat) (task_type : str) (agent task_id original : option str) (metadata : jdict) (now : Z)
| rn_discard (r : nat) (task_id : str) (expected : nat)
| rn_adopt (r : nat) (e : TaskEntry)
| rn_transition (r : nat) (task_id : str) (new : TaskState) (result error : option jdict) (now : Z)
| rn_finalize (r : nat) (task_id : str) (new : TaskState) (result error : option jdict) (now : Z)
| rn_commit (r : nat) (task_id : str) (t : TaskResult) (completed_at now : Z)
| rn_restore_awaiting (r : nat) (task_id : str) (result : option jdict) (now : Z)
| rn_restore_park (r : nat) (task_id : str) (result : option jdict) (now : Z)
| rn_interrupt (r : nat) (task_id : str) (reason : interruption_reason)
| rn_kill (r : nat) (task_id : str) (intent : termination_intent)
| rn_evict (r : nat) (max_age now : Z)
| rn_content_read (r : nat) (task_id content_id : str)
| rn_retrieved (r : nat) (task_id : str) (generation : Z)
| rn_ack (r q : nat) (delivered : list nat)
| rn_consume (r q : nat) (max_count : Z)
| rn_push (q : nat) (n : TaskNotification)
| rn_share (r l : nat)
| rn_write (l : nat) (f : Progress -> Progress).

Definition run_reg (op : reg_op) (w : World) : World :=
  match op with
  | rn_new g => set_registries (w_registries w ++ [new_registry (rg_max_inflight g) (rg_max_retained g) (rg_id_prefix g)]) w
  | rn_queue k => set_queues (w_queues w ++ [mkQueue [] [] (S k) None None 0 [] 0 false]) w
  | rn_listen r q => add_listener r q w
  | rn_bind r o => (bind_owner r o w).1
  | rn_complete r => complete_owner r w
  | rn_register r ty ag id orig md now => (register r ty ag id orig md now w).1
  | rn_admit r ty ag id orig md now => (admit_task r ty ag id orig md now w).1
  | rn_discard r id l => (discard_unstarted r id l w).1
  | rn_adopt r e => (adopt_reconstructed r e w).1
  | rn_transition r id new res err now => (transition r id new res err now w).1
  | rn_finalize r id new res err now => (finalize_interrupted r id new res err now w).1
  | rn_commit r id t c now => (commit_parked_termination r id t c now w).1
  | rn_restore_awaiting r id res now => (restore_committed_awaiting r id res now w).1
  | rn_restore_park r id res now => (restore_committed_park r id res now w).1
  | rn_interrupt r id reason => (interrupt r id reason w).1
  | rn_kill r id intent => (kill r id intent w).1
  | rn_evict r age now => (evict_completed r age now w).1
  | rn_content_read r id c => (mark_result_content_read r id c w).1
  | rn_retrieved r id g => (mark_notification_payload_retrieved r id g w).1
  | rn_ack r q ds => (ack_delivered r q ds w).1
  | rn_consume r q k => (consume_notifications r q k w).1
  | rn_push q n => (push_new n q w).1
  | rn_share r l => share_entry r l w
  | rn_write l f => write_entry l f w
  end.

(** Only the registry, the listener and the acknowledgement write the generation,
    the delivery state, the stop request and the reason of an interruption of an
    entry. Everything else the runner writes as it likes. *)
Definition respects (f : Progress -> Progress) : Prop :=
  forall p, te_generation (f p) = te_generation p /\ te_delivery_state (f p) = te_delivery_state p /\
    te_termination_intent (f p) = te_termination_intent p /\ te_interruption_reason (f p) = te_interruption_reason p.
Definition allowed (op : reg_op) : Prop := match op with rn_write _ f => respects f | _ => True end.

(** *** What happens to one entry *)
Definition settled (s : TaskState) : Prop := s = COMPLETED \/ s = FAILED \/ s = KILLED.
Definition intent_rank (i : option termination_intent) : nat :=
  match i with None => 0 | Some intent_killed => 1 | Some intent_cancelled => 2 end.
(** The same settlement. *)
Definition frozen (p p' : Progress) : Prop :=
  te_state p' = te_state p /\ te_result p' = te_result p /\ te_error p' = te_error p /\ te_completed_at p' = te_completed_at p.
(** A call that is not a runner's write over the settlement of the entry at [l]
    once it is settled. *)
Definition spares_settled (l : nat) (op : reg_op) : Prop :=
  match op with rn_write k f => k = l -> forall p, settled (te_state p) -> frozen p (f p) | _ => True end.
Record moves (e e' : TaskEntry) : Prop := {
  mv_identity : te_identity e' = te_identity e;
  mv_settled : settled (state_of e) -> frozen (te_progress e) (te_progress e') /\
    te_generation (te_progress e') = te_generation (te_progress e) /\ te_termination_intent (te_progress e') = te_termination_intent (te_progress e);
  mv_generation : (te_generation (te_progress e) <= te_generation (te_progress e'))%Z;
  mv_intent : intent_rank (te_termination_intent (te_progress e)) <= intent_rank (te_termination_intent (te_progress e'));
  mv_interruption : te_interruption_reason (te_progress e) = None \/
    te_interruption_reason (te_progress e') = te_interruption_reason (te_progress e)
}.
Lemma moves_refl e : moves e e.
Proof. constructor; [done|by repeat split|lia|lia|by right]. Qed.
Lemma moves_trans e1 e2 e3 : moves e1 e2 -> moves e2 e3 -> moves e1 e3.
Proof.
  intros [A1 A2 A3 A4 A5] [B1 B2 B3 B4 B5]. constructor; [congruence| |lia|lia|].
  - unfold state_of, frozen in *. intros H. destruct (A2 H) as ((E & ? & ? & ?) & ? & ?).
    destruct B2 as ((? & ? & ? & ?) & ? & ?); [by rewrite E|]. repeat split; congruence.
  - destruct A5 as [A5|A5]; [by left|]. rewrite <- A5. destruct B5 as [B5|B5]; [left; congruence|right; congruence].
Qed.
(** What holds of every change of an entry, also of the runner's own. *)
Record keeps (e e' : TaskEntry) : Prop := {
  kp_identity : te_identity e' = te_identity e;
  kp_generation : (te_generation (te_progress e) <= te_generation (te_progress e'))%Z;
  kp_intent : intent_rank (te_termination_intent (te_progress e)) <= intent_rank (te_termination_intent (te_progress e'));
  kp_interruption : te_interruption_reason (te_progress e) = None \/
    te_interruption_reason (te_progress e') = te_interruption_reason (te_progress e)
}.
Lemma moves_keeps e e' : moves e e' -> keeps e e'.
Proof. by intros [A1 _ A2 A3 A4]. Qed.
Lemma keeps_trans e1 e2 e3 : keeps e1 e2 -> keeps e2 e3 -> keeps e1 e3.
Proof.
  intros [A1 A3 A4 A5] [B1 B3 B4 B5]. constructor; [congruence|lia|lia|].
  destruct A5 as [A5|A5]; [by left|]. rewrite <- A5. destruct B5 as [B5|B5]; [left; congruence|right; congruence].
Qed.
Definition entries_keep (w w' : World) : Prop :=
  forall l e, w_entries w !! l = Some e -> exists e', w_entries w' !! l = Some e' /\ keeps e e'.
(** Entries are kept and move. *)
Definition entries_move (w w' : World) : Prop :=
  forall l e, w_entries w !! l = Some e -> exists e', w_entries w' !! l = Some e' /\ moves e e'.
Lemma entries_move_refl w : entries_move w w.
Proof. intros l e He. exists e. split; [done|apply moves_refl]. Qed.
Lemma entries_move_trans w1 w2 w3 : entries_move w1 w2 -> entries_move w2 w3 -> entries_move w1 w3.
Proof.
  intros H1 H2 l e He. destruct (H1 l e He) as (e1 & He1 & M1). destruct (H2 l e1 He1) as (e2 & He2 & M2).
  exists e2. split; [done|by eapply moves_trans].
Qed.
Lemma entries_same w w' : w_entries w' = w_entries w -> entries_move w w'.
Proof. intros E l e He. exists e. rewrite E. split; [done|apply moves_refl]. Qed.
Lemma moved_keep w w' : entries_move w w' -> entries_keep w w'.
Proof. intros H l e He. destruct (H l e He) as (e' & He' & M). exists e'. split; [done|by apply moves_keeps]. Qed.
Lemma same_keep w w' : w_entries w' = w_entries w -> entries_keep w w'.
Proof. intros E. by apply moved_keep, entries_same. Qed.
Lemma write_moves l f w :
  (forall e, w_entries w !! l = Some e -> moves e (on_progress f e)) -> entries_move w (write_entry l f w).
Proof.
  intros H k e He. simpl. destruct (decide (l = k)) as [->|Hne].
  - exists (on_progress f e). rewrite list_lookup_alter_eq, He. auto.
  - exists e. rewrite list_lookup_alter_ne by done. split; [done|apply moves_refl].
Qed.

Lemma prune_entries r w : w_entries (prune_completed_owner r w) = w_entries w.
Proof.
  unfold prune_completed_owner. generalize (tree_fuel w). intros fuel. revert r w.
  induction fuel as [|fuel IH]; intros r w; simpl; [done|]. destruct (rg_owner _) as [o|]; [|done]. destruct (ow_parent o) as [p|]; [|done].
  rewrite IH. unfold prune_link. by destruct (_ && _).
Qed.
Lemma remove_task_entries r id w : w_entries (remove_task r id w).1 = w_entries w.
Proof.
  unfold remove_task. cbn [fst]. rewrite prune_entries. destruct (assoc_get _ _); [|done]. rewrite prune_entries. by destruct (get w r id).
Qed.
Lemma evict_oldest_entries r limit ids w : w_entries (evict_oldest r limit ids w) = w_entries w.
Proof. revert w. induction ids as [|id ids IH]; intros w; cbn [evict_oldest]; [done|]. destruct (_ <? _)%Z; [|done]. by rewrite IH, remove_task_entries. Qed.
Lemma auto_evict_entries r w : w_entries (auto_evict_completed r w) = w_entries w.
Proof. unfold auto_evict_completed. destruct (_ <=? _)%Z; [done|]. apply evict_oldest_entries. Qed.
Lemma evict_completed_entries r age now w : w_entries (evict_completed r age now w).1 = w_entries w.
Proof.
  unfold evict_completed. generalize (List.filter (fun le => evictable le.2 &&
    match te_completed_at (te_progress le.2) with Some c => (age <=? now - c)%Z | None => false end) (list_tasks w r None)).
  generalize 0 at 1. intros k ls. revert k w. induction ls as [|x ls IH]; intros k w; cbn [foldl fst snd]; [done|].
  pose proof (remove_task_entries r (id_of x.2) w) as E. destruct (remove_task r (id_of x.2) w) as [w1 o]. simpl in E.
  by rewrite IH.
Qed.
Lemma store_entry_move r e w : entries_move w (store_entry r e w).
Proof. intros l x Hx. exists x. split; [by apply lookup_app_l_Some|apply moves_refl]. Qed.

(** *** Every operation moves entries forward *)
Definition mover {A} (m : W A) : Prop := forall w, entries_move w (m w).1.
Lemma mover_ret {A} (a : A) : mover (se_ret a).
Proof. intros w. apply entries_move_refl. Qed.
Lemma mover_raise {A} e : mover (A := A) (se_raise e).
Proof. intros w. apply entries_move_refl. Qed.
Lemma mover_get : mover se_get.
Proof. intros w. apply entries_move_refl. Qed.
Lemma mover_bind {A B} (m : W A) (k : A -> W B) : mover m -> (forall a, mover (k a)) -> mover (se_bind m k).
Proof.
  intros Hm Hk w. unfold se_bind. specialize (Hm w). destruct (m w) as [w1 [a|e]]; simpl in *; [|done].
  by eapply entries_move_trans, Hk.
Qed.
Lemma mover_modify f : (forall w, entries_move w (f w)) -> mover (modify f).
Proof. intros H w. apply H. Qed.
Lemma mover_same f : (forall w, w_entries (f w) = w_entries w) -> mover (modify f).
Proof. intros H. apply mover_modify. intros w. by apply entries_same. Qed.
Lemma find_entry_spec w r id l e : find_entry w r id = Some (l, e) -> get w r id = Some l /\ entry_at w l = Some e.
Proof. unfold find_entry. intros. by crush_match. Qed.
Lemma mover_lookup {A} r id (k : nat * TaskEntry -> W A) :
  (forall l e w, entry_at w l = Some e -> entries_move w (k (l, e) w).1) -> mover (se_bind (lookup_entry r id) k).
Proof.
  intros H w. unfold lookup_entry, se_bind, se_get. cbv beta iota.
  destruct (find_entry w r id) as [[l e]|] eqn:E; [|apply entries_move_refl]. apply H. by apply find_entry_spec in E as [_ E].
Qed.

Lemma delivery_moves d l w : entries_move w (set_delivery d l w).
Proof. apply write_moves. intros e _. constructor; try done; [by right]. Qed.
Lemma push_new_entries n q w : w_entries (push_new n q w).1 = w_entries w.
Proof.
  unfold push_new. destruct (w_queues w !! q) as [queue|]; [|done]. destruct (allocate n queue) as [q1 l].
  by destruct (push l q1).
Qed.
Lemma on_transition_mover q l new now : mover (on_transition q l new now).
Proof.
  intros w. unfold on_transition, se_bind, se_get. cbv beta iota. destruct (entry_at w l) as [e|]; [|apply entries_move_refl].
  destruct (_ || _); [apply entries_move_refl|].
  destruct (te_envelope (te_progress e)) as [envelope|]; [destruct (inline_payload _).2; [apply entries_move_refl|]|].
  all: match goal with |- context [push_new ?n ?q ?w] => pose proof (push_new_entries n q w) as Hp; destruct (push_new n q w) as [w' ok] end;
    cbn [fst se_put] in *; eapply entries_move_trans; [by apply entries_same|apply delivery_moves].
Qed.
Lemma notify_mover r l new now : mover (notify r l new now).
Proof.
  unfold notify. apply mover_bind; [apply mover_get|]. intros w. induction (rg_listeners (registry_at w r)) as [|q qs IH]; cbn [notify_all].
  - apply mover_ret.
  - apply mover_bind; [apply on_transition_mover|done].
Qed.
(** Writing an entry, telling the listeners, and something that leaves entries
    alone. *)
Lemma write_then_notify {A} (f : Progress -> Progress) r l new now (k : unit -> W A) w :
  (forall e, entry_at w l = Some e -> moves e (on_progress f e)) -> (forall a, mover (k a)) ->
  entries_move w (se_bind (modify (write_entry l f)) (fun _ => se_bind (notify r l new now) k) w).1.
Proof.
  intros Hf Hk. unfold se_bind at 1. cbn [modify]. eapply entries_move_trans; [by apply write_moves|].
  apply mover_bind; [apply notify_mover|done].
Qed.
Lemma mover_prune r : mover (modify (prune_completed_owner r)).
Proof. apply mover_same. intros. apply prune_entries. Qed.
Lemma mover_then {A} f (a : A) : mover (modify f) -> mover (se_bind (modify f) (fun _ => se_ret a)).
Proof. intros H. apply mover_bind; [done|]. intros. apply mover_ret. Qed.

Lemma terminal_settled s : terminal s = false -> ~ settled s.
Proof. intros H [->|[->| ->]]; by vm_compute in H. Qed.
Lemma transition_mover r id new res err now : mover (transition r id new res err now).
Proof.
  apply mover_lookup. intros l e w He. destruct (terminal (state_of e)) eqn:Ht; [apply mover_then, mover_prune|].
  apply write_then_notify.
  - intros e' He'. simplify_eq. constructor; try done.
    + intros Hs. by apply terminal_settled in Ht.
    + destruct res, err; simpl; destruct (terminal new), (in_states new notifying_states); simpl; lia.
    + destruct res, err; simpl; destruct (terminal new), (in_states new notifying_states); simpl; lia.
    + right. destruct res, err; simpl; destruct (terminal new), (in_states new notifying_states); done.
  - intros _. apply mover_then. destruct (terminal new); [apply mover_prune|by apply mover_same].
Qed.
Lemma finalize_mover r id new res err now : mover (finalize_interrupted r id new res err now).
Proof.
  apply mover_lookup. intros l e w He. destruct (in_states (state_of e) [INTERRUPTED; PARKED]) eqn:Hs; cbn [negb]; [|apply entries_move_refl].
  destruct (negb _); [apply entries_move_refl|]. apply write_then_notify; [|intros _; apply mover_then, mover_prune].
  intros e' He'. simplify_eq. constructor; simpl; try done; [|lia|by right].
  unfold state_of. intros [E|[E|E]]; unfold state_of in Hs; rewrite E in Hs; by vm_compute in Hs.
Qed.
Lemma commit_mover r id t c now : mover (commit_parked_termination r id t c now).
Proof.
  apply mover_lookup. intros l e w He. cbv zeta. split_if Hk; [apply entries_move_refl|]. clear Hk.
  destruct (te_task_result (te_progress e)) as [parked|]; [|apply entries_move_refl].
  destruct (te_admitted_task (te_progress e)) as [ad|]; [|apply entries_move_refl].
  split_if Hg; [|apply entries_move_refl]. apply write_then_notify; [|intros _; apply mover_then, mover_prune].
  assert (Hs : te_state (te_progress e) = AWAITING_APPROVAL) by (rewrite !andb_true_iff in Hg; eapply bool_decide_eq_true_1; tauto).
  intros e' He'. simplify_eq. constructor; simpl; try done; [|lia| |by right].
  - unfold state_of. rewrite Hs. by intros [|[|]].
  - destruct (te_termination_intent (te_progress e)) as [[]|]; simpl; lia.
Qed.
Lemma restore_mover final b r id res now : mover (restore_committed final b r id res now).
Proof.
  apply mover_lookup. intros l e w He. destruct (restorable e id final res) eqn:Hg; [|apply entries_move_refl].
  apply write_then_notify; [|intros _; apply mover_ret].
  assert (Hs : te_state (te_progress e) = INTERRUPTED) by (unfold restorable in Hg; rewrite !andb_true_iff in Hg; eapply bool_decide_eq_true_1; tauto).
  intros e' He'. simplify_eq. constructor; try done.
  - unfold state_of. rewrite Hs. by intros [|[|]].
  - destruct b; simpl; lia.
  - destruct b; simpl; lia.
  - right. by destruct b.
Qed.
Lemma store_mover r e : mover (modify (store_entry r e)).
Proof. apply mover_modify. intros. apply store_entry_move. Qed.
Lemma register_mover r ty ag id orig md now : mover (register r ty ag id orig md now).
Proof.
  unfold register. apply mover_bind; [apply mover_get|]. intros w. destruct (negb _); [apply mover_raise|].
  apply mover_bind.
  - destruct id as [id|]; [destruct (get w r id); [apply mover_raise|apply mover_ret]|]. apply mover_then. by apply mover_same.
  - intros i. apply mover_bind; [apply mover_get|]. intros w1. apply mover_bind; [apply store_mover|]. intros _.
    apply mover_then, mover_same. intros. apply auto_evict_entries.
Qed.
Lemma claim_mover r ty id orig ag md now : mover (claim_resume_successor r ty id orig ag md now).
Proof.
  unfold claim_resume_successor. destruct (_ || _); [apply mover_raise|]. apply mover_bind; [apply mover_get|]. intros w.
  destruct (get w r id) as [l|]; [split_if Ho; [apply mover_ret|apply mover_raise]|].
  apply mover_bind; [apply register_mover|intros; apply mover_ret].
Qed.
Lemma admit_mover r ty ag id orig md now : mover (admit_task r ty ag id orig md now).
Proof.
  unfold admit_task. apply mover_bind; [apply mover_get|]. intros w. destruct (negb _); [apply mover_ret|].
  destruct orig as [o|]; [destruct (truthy_id id) as [i|]; [|apply mover_raise]|].
  - intros w1. unfold catch. match goal with |- context [se_bind ?m ?k w1] => assert (Hm : mover (se_bind m k)) end.
    { apply mover_bind; [apply claim_mover|intros; apply mover_ret]. }
    specialize (Hm w1). destruct (se_bind _ _ w1) as [w2 [a|e]]; [done|]. cbn [fst] in *. by destruct e.
  - destruct (truthy_id id ≫= get w r); [apply mover_ret|]. apply mover_bind; [apply register_mover|intros; apply mover_ret].
Qed.
Lemma settle_one_moves r w n : entries_move w (settle_one r w n).
Proof.
  unfold settle_one. destruct (find_entry _ _ _) as [[l e]|]; [|apply entries_move_refl]. cbv zeta.
  destruct (_ && _); [apply delivery_moves|apply entries_move_refl].
Qed.
Lemma settle_moves r ns w : entries_move w (settle_consumed r ns w).1.
Proof.
  simpl. revert w. induction ns as [|n ns IH]; intros w; [apply entries_move_refl|]. simpl.
  eapply entries_move_trans; [apply settle_one_moves|apply IH].
Qed.

Lemma share_entries r l w : w_entries (share_entry r l w) = w_entries w.
Proof. unfold share_entry. destruct (entry_at w l) as [e|]; [|done]. by destruct (get w r (id_of e)). Qed.
Definition is_write (op : reg_op) : Prop := match op with rn_write _ _ => True | _ => False end.
Lemma method_moves op w : ~ is_write op -> entries_move w (run_reg op w).
Proof.
  destruct op; intros Hop; cbn [run_reg].
  - by apply entries_same.
  - by apply entries_same.
  - by apply entries_same.
  - unfold bind_owner. apply mover_bind; [apply mover_get|]. intros w'. destruct (rg_owner _); [apply mover_raise|].
    apply mover_bind; [by apply mover_same|]. intros _. destruct (ow_parent o); by apply mover_same.
  - apply entries_same. unfold complete_owner. by rewrite prune_entries.
  - apply register_mover.
  - apply admit_mover.
  - apply entries_same. unfold discard_unstarted. destruct (find_entry _ _ _) as [[l e]|]; [|done]. destruct (_ && _); [|done]. cbn [fst].
    destruct (te_original_task_id _); [destruct (existsb _ _)|]; try apply remove_task_entries.
  - unfold adopt_reconstructed. apply mover_bind; [apply mover_get|]. intros w'. destruct (get w' r (id_of e)); [apply mover_ret|].
    destruct (negb _); [apply mover_raise|]. apply mover_bind; [apply store_mover|]. intros _. apply mover_then, mover_same.
    intros. by destruct (numeric_suffix _).
  - apply transition_mover.
  - apply finalize_mover.
  - apply commit_mover.
  - apply restore_mover.
  - apply restore_mover.
  - unfold interrupt. destruct (find_entry _ _ _) as [[l x]|] eqn:E; [|apply entries_move_refl]. apply find_entry_spec in E as [_ E]. cbv zeta. destruct (_ && _) eqn:Hg; [|apply entries_move_refl].
    apply write_moves. intros e He. unfold entry_at in E. rewrite E in He. injection He as ->. rewrite !andb_true_iff in Hg. destruct Hg as ((((Hs & _) & _) & _) & Hi).
    constructor; simpl; try done; [by left; destruct (te_interruption_reason (te_progress e))].
  - unfold kill. destruct (find_entry _ _ _) as [[l x]|] eqn:E; [|apply entries_move_refl]. apply find_entry_spec in E as [_ E]. cbv zeta. destruct (_ || _) eqn:Hg; [apply entries_move_refl|].
    apply write_moves. intros e He. unfold entry_at in E. rewrite E in He. injection He as ->. rewrite !orb_false_iff in Hg. destruct Hg as ((Ht & H1) & H2). apply bool_decide_eq_false in H1. apply bool_decide_eq_false in H2.
    constructor; simpl; try done; [by intros Hs; apply terminal_settled in Ht| |by right].
    destruct (te_termination_intent (te_progress e)) as [[]|], intent; simpl; try done; lia.
  - apply entries_same, evict_completed_entries.
  - unfold mark_result_content_read. destruct (find_entry _ _ _) as [[l x]|]; [|apply entries_move_refl].
    destruct (te_envelope _); [|apply entries_move_refl]. destruct (_ && _); [|apply entries_move_refl].
    apply write_moves. intros y _. constructor; try done. by right.
  - unfold mark_notification_payload_retrieved. destruct (find_entry _ _ _) as [[l x]|]; [|apply entries_move_refl]. cbv zeta. destruct (_ && _); [|apply entries_move_refl].
    eapply entries_move_trans; [apply delivery_moves|]. apply entries_same. cbn [fst]. by rewrite prune_entries, auto_evict_entries.
  - unfold ack_delivered. destruct (w_queues w !! q) as [queue|]; [|apply entries_move_refl]. destruct (drain_delivered _ _) as [q' ls].
    eapply entries_move_trans; [|apply settle_moves]. by apply entries_same.
  - unfold consume_notifications. destruct (w_queues w !! q) as [queue|]; [|apply entries_move_refl]. destruct (drain _ _) as [q' ls].
    eapply entries_move_trans; [|apply settle_moves]. by apply entries_same.
  - apply entries_same, push_new_entries.
  - apply entries_same, share_entries.
  - by destruct Hop.
Qed.
Lemma write_entry_at k f w l e : entry_at w l = Some e ->
  entry_at (write_entry k f w) l = Some (if decide (k = l) then on_progress f e else e).
Proof.
  unfold entry_at. simpl. intros He. case_decide as Hk; [subst k; by rewrite list_lookup_alter_eq, He|by rewrite list_lookup_alter_ne].
Qed.
Lemma runner_write_keeps f e : respects f -> keeps e (on_progress f e).
Proof. intros H. destruct (H (te_progress e)) as (E1 & _ & E2 & E3). constructor; simpl; rewrite ?E1, ?E2, ?E3; auto; lia. Qed.
Lemma run_reg_keeps op w : allowed op -> entries_keep w (run_reg op w).
Proof.
  intros Ha. destruct op; try (apply moved_keep, method_moves; by intros []). intros k e He. eexists. split; [by apply write_entry_at|].
  case_decide; [by apply runner_write_keeps|apply moves_keeps, moves_refl].
Qed.
Lemma run_reg_moves op w l e : allowed op -> spares_settled l op -> entry_at w l = Some e ->
  exists e', entry_at (run_reg op w) l = Some e' /\ moves e e'.
Proof.
  intros Ha Hs He. destruct op; try (apply method_moves; [by intros []|done]). eexists. split; [by apply write_entry_at|].
  case_decide as Hk; [|apply moves_refl]. cbn in Ha, Hs. destruct (Ha (te_progress e)) as (E1 & _ & E2 & _), (runner_write_keeps f e Ha) as [K1 K2 K3 K4].
  constructor; try done. intros H. by repeat split; try apply (Hs Hk).
Qed.

(** A run of given operations. *)
Definition run_calls (ops : list reg_op) (w : World) : World := foldl (fun w op => run_reg op w) w ops.
Definition reg_step (w w' : World) : Prop := exists op, allowed op /\ w' = run_reg op w.
(** C16: Whatever is done to a registry and its entries, no entry is replaced or
    changes its id, type, agent, start time or lineage; generations never fall, so a
    notification of an earlier settlement is recognised; a stop request is only
    ever escalated from killed to cancelled, never withdrawn or weakened, and the
    reason of an interruption is written once. A completed, failed or killed task
    keeps its state, result, error, completion time, generation and stop request
    for good, unless the runner itself writes over the settled entry, as
    [_interrupt_uncertain_background_completion] can. *)
Theorem task_lifecycle_monotone ops w l e :
  Forall allowed ops -> entry_at w l = Some e ->
  exists e', entry_at (run_calls ops w) l = Some e' /\ keeps e e' /\
    (Forall (spares_settled l) ops -> settled (state_of e) -> frozen (te_progress e) (te_progress e') /\
       te_generation (te_progress e') = te_generation (te_progress e) /\
       te_termination_intent (te_progress e') = te_termination_intent (te_progress e)).
Proof.
  intros Hops. revert w e. induction Hops as [|op ops Hop _ IH]; intros w e He; [exists e; split; [done|split; [apply moves_keeps|intros _; apply mv_settled]; apply moves_refl]|].
  destruct (run_reg_keeps op w Hop l e He) as (e1 & He1 & K1). destruct (IH _ e1 He1) as (e' & He' & K' & S'). exists e'. split; [exact He'|].
  split; [by eapply keeps_trans|]. intros [Hs1 Hs2]%Forall_cons Hset. destruct (run_reg_moves op w l e Hop Hs1 He) as (e2 & He2 & M).
  unfold entry_at in *. rewrite He1 in He2. injection He2 as <-. destruct (mv_settled _ _ M Hset) as ((F1 & F2 & F3 & F4) & G & I).
  destruct (S' Hs2) as ((F1' & F2' & F3' & F4') & G' & I'); [unfold state_of in *; by rewrite F1|]. unfold frozen. repeat split; congruence.
Qed.

(** *** The dicts of tasks *)
Record dict_ok (w : World) : Prop := {
  di_entries : forall r k l, (k, l) ∈ tasks w r -> exists e, entry_at w l = Some e /\ id_of e = k;
  di_keys : forall r, NoDup (tasks w r).*1
}.
Lemma write_registry_proj {A} (f : TaskRegistry -> A) r g w r' :
  (forall x, f (g x) = f x) -> f (registry_at (write_registry r g w) r') = f (registry_at w r').
Proof.
  intros H. unfold registry_at. simpl. destruct (decide (r = r')) as [->|Hne]; [|by rewrite list_lookup_alter_ne].
  rewrite list_lookup_alter_eq. destruct (w_registries w !! r'); simpl; auto.
Qed.
Lemma write_registry_other r g w r' : r <> r' -> registry_at (write_registry r g w) r' = registry_at w r'.
Proof. intros H. unfold registry_at. simpl. by rewrite list_lookup_alter_ne. Qed.
Lemma write_registry_same r g w : r < length (w_registries w) -> registry_at (write_registry r g w) r = g (registry_at w r).
Proof. intros [x Hx]%lookup_lt_is_Some. unfold registry_at. simpl. by rewrite list_lookup_alter_eq, Hx. Qed.
Lemma registry_missing w r : length (w_registries w) <= r -> tasks w r = [].
Proof. intros H. unfold tasks, registry_at. by rewrite lookup_ge_None_2. Qed.

(** A projection that pruning does not touch. *)
Lemma prune_proj {A} (f : TaskRegistry -> A) r w r' :
  (forall x v, f (set_child_registries v x) = f x) -> f (registry_at (prune_completed_owner r w) r') = f (registry_at w r').
Proof.
  intros H. unfold prune_completed_owner. generalize (tree_fuel w). intros fuel. revert r w.
  induction fuel as [|fuel IH]; intros r w; cbn [prune_loop]; [done|].
  destruct (rg_owner _) as [o|]; [|done]. destruct (ow_parent o) as [p|]; [|done]. rewrite IH.
  unfold prune_link. destruct (_ && _); [|done]. by apply write_registry_proj.
Qed.
Lemma prune_tasks r w r' : tasks (prune_completed_owner r w) r' = tasks w r'.
Proof. by apply prune_proj. Qed.
Lemma remove_task_tasks r id w r' :
  tasks (remove_task r id w).1 r' = if decide (r = r') then assoc_del id (tasks w r) else tasks w r'.
Proof.
  unfold remove_task. cbn [fst]. rewrite prune_tasks. set (w1 := write_registry r _ w).
  assert (H1 : tasks w1 r' = if decide (r = r') then assoc_del id (tasks w r) else tasks w r').
  { case_decide as Hr; [|unfold tasks, w1; by rewrite write_registry_other]. subst r'.
    destruct (decide (r < length (w_registries w))) as [Hlt|Hge].
    - unfold tasks, w1. by rewrite write_registry_same.
    - rewrite !registry_missing; [done|lia|]. unfold w1. simpl. rewrite length_alter. lia. }
  destruct (assoc_get _ _) as [c|]; [|exact H1]. rewrite prune_tasks. destruct (get w r id); [|exact H1].
  unfold tasks at 1. rewrite (write_registry_proj rg_tasks); [exact H1|done].
Qed.

Lemma assoc_get_elem {V} k (v : V) d : assoc_get k d = Some v -> (k, v) ∈ d.
Proof.
  induction d as [|[k' v'] d IH]; simpl; [done|]. case_decide; [intros [= ->]; subst; constructor|]. intros H1. constructor. auto.
Qed.
Lemma assoc_elem_get {V} k (v : V) d : NoDup d.*1 -> (k, v) ∈ d -> assoc_get k d = Some v.
Proof.
  induction d as [|[k' v'] d IH]; intros Hn Hin; [by apply elem_of_nil in Hin|]. simpl in *. apply NoDup_cons in Hn as [Hk Hn].
  apply elem_of_cons in Hin as [[= -> ->]|Hin]; [by rewrite decide_True|].
  rewrite decide_False; [auto|]. intros ->. apply Hk. apply list_elem_of_fmap. by exists (k', v).
Qed.
Lemma assoc_get_del {V} k k' (d : list (str * V)) :
  assoc_get k' (assoc_del k d) = if decide (k = k') then None else assoc_get k' d.
Proof.
  unfold assoc_del. induction d as [|[x v] d IH]; [simpl; by case_decide|]. rewrite filter_cons. cbn [fst].
  destruct (decide (x <> k)) as [Hx|Hx]; cbn [assoc_get].
  - rewrite IH. destruct (decide (k' = x)); [subst; by rewrite decide_False by done|done].
  - rewrite IH. assert (x = k) as -> by (destruct (decide (x = k)); tauto).
    destruct (decide (k = k')) as [->|Hne]; [done|]. by rewrite decide_False by congruence.
Qed.
Lemma assoc_get_set {V} k k' (v : V) d : assoc_get k' (assoc_set k v d) = if decide (k = k') then Some v else assoc_get k' d.
Proof.
  induction d as [|[x y] d IH]; cbn [assoc_set assoc_get].
  - destruct (decide (k' = k)) as [->|]; [by rewrite decide_True|by rewrite decide_False by congruence].
  - destruct (decide (k = x)) as [->|Hx]; cbn [assoc_get].
    + destruct (decide (k' = x)) as [->|]; [by rewrite decide_True|by rewrite decide_False by congruence].
    + rewrite IH. destruct (decide (k' = x)) as [->|]; [by rewrite decide_False by congruence|done].
Qed.
Lemma assoc_set_fresh {V} k (v : V) d : assoc_get k d = None -> assoc_set k v d = d ++ [(k, v)].
Proof. induction d as [|[x y] d IH]; simpl; [done|]. case_decide; [done|]. intros H1. by rewrite IH. Qed.

Lemma get_remove r id w r' id' :
  get (remove_task r id w).1 r' id' = if decide (r = r' /\ id = id') then None else get w r' id'.
Proof.
  unfold get. rewrite remove_task_tasks. destruct (decide (r = r')) as [->|Hr].
  - rewrite assoc_get_del. destruct (decide (id = id')) as [->|]; [by rewrite decide_True|by rewrite decide_False by tauto].
  - by rewrite decide_False by tauto.
Qed.
Lemma get_evict_oldest r limit ids w r' id' :
  (r = r' -> id' ∉ ids) -> get (evict_oldest r limit ids w) r' id' = get w r' id'.
Proof.
  revert w. induction ids as [|id ids IH]; intros w H; cbn [evict_oldest]; [done|]. destruct (_ <? _)%Z; [|done].
  rewrite IH; [|intros Hr; specialize (H Hr); set_solver]. rewrite get_remove, decide_False; [done|]. intros [Hr ->].
  apply (H Hr). constructor.
Qed.

Lemma entries_of_elem w r l e : (l, e) ∈ entries_of w r -> exists k, (k, l) ∈ tasks w r /\ entry_at w l = Some e.
Proof.
  unfold entries_of. rewrite list_elem_of_omap. intros ([k l'] & Hin & H). simpl in H. unfold entry_at.
  destruct (w_entries w !! l') as [e'|] eqn:E; simplify_eq/=. eauto.
Qed.
Lemma sort_elem x ls : x ∈ sort_by_start ls <-> x ∈ ls.
Proof.
  assert (Hins : forall y zs, x ∈ insert_by_start y zs <-> x = y \/ x ∈ zs).
  { intros y zs. induction zs as [|z zs IH]; simpl; [set_solver|]. destruct (_ <=? _)%Z; [set_solver|]. rewrite elem_of_cons, IH. set_solver. }
  induction ls as [|y ls IH]; [done|]. cbn [sort_by_start foldr]. rewrite Hins, elem_of_cons. fold (sort_by_start ls). by rewrite IH.
Qed.
Lemma listed_elem w r x : x ∈ list_tasks w r None -> x ∈ entries_of w r.
Proof. unfold list_tasks. rewrite sort_elem. intros [H1 _]%list_elem_of_In%filter_In. by apply list_elem_of_In. Qed.
(** An entry that may not be evicted is not among the candidates. *)
Lemma candidate_evictable w r (p : nat * TaskEntry -> bool) id l e :
  dict_ok w -> (forall x, p x = true -> evictable x.2 = true) -> get w r id = Some l -> entry_at w l = Some e -> evictable e = false ->
  id ∉ (fun le => id_of le.2) <$> List.filter p (list_tasks w r None).
Proof.
  intros Hok Hp Hg He Hne Hin. apply list_elem_of_fmap in Hin as ([l' e'] & Hid & Hin).
  apply list_elem_of_In, filter_In in Hin as [Hin Hpx]. apply Hp in Hpx. apply list_elem_of_In, listed_elem, entries_of_elem in Hin as (k & Hk & He').
  destruct (di_entries _ Hok _ _ _ Hk) as (e'' & He'' & Hk'). simplify_eq. cbn [fst snd] in *.
  apply (assoc_elem_get _ _ _ (di_keys _ Hok r)) in Hk. unfold get in Hg. congruence.
Qed.
Lemma get_auto_evict w r r' id l e :
  dict_ok w -> get w r' id = Some l -> entry_at w l = Some e -> evictable e = false ->
  get (auto_evict_completed r w) r' id = Some l.
Proof.
  intros Hok Hg He Hne. unfold auto_evict_completed. destruct (_ <=? _)%Z; [done|].
  rewrite get_evict_oldest; [done|]. intros <-. by eapply candidate_evictable.
Qed.

Lemma dict_ok_sublist w w' :
  (forall r, sublist (tasks w' r) (tasks w r)) -> entries_keep w w' -> dict_ok w -> dict_ok w'.
Proof.
  intros Hs Hm [H1 H2]. split.
  - intros r k l Hin. destruct (H1 r k l) as (e & He & Hk); [by eapply elem_of_sublist|].
    destruct (Hm l e He) as (e' & He' & M). exists e'. split; [done|]. unfold id_of. by rewrite (kp_identity _ _ M).
  - intros r. apply (sublist_NoDup _ ((tasks w r).*1)); [apply H2|by apply sublist_map].
Qed.
Lemma dict_ok_same w w' : (forall r, tasks w' r = tasks w r) -> entries_keep w w' -> dict_ok w -> dict_ok w'.
Proof. intros Ht. apply dict_ok_sublist. intros r. by rewrite Ht. Qed.
Lemma remove_task_dict r id w : dict_ok w -> dict_ok (remove_task r id w).1.
Proof.
  apply dict_ok_sublist; [|apply same_keep, remove_task_entries]. intros r'. rewrite remove_task_tasks.
  case_decide as Hr; [subst; apply sublist_filter|done].
Qed.
Lemma evict_oldest_dict r limit ids w : dict_ok w -> dict_ok (evict_oldest r limit ids w).
Proof.
  revert w. induction ids as [|id ids IH]; intros w H; cbn [evict_oldest]; [done|]. destruct (_ <? _)%Z; [|done]. by apply IH, remove_task_dict.
Qed.
Lemma auto_evict_dict r w : dict_ok w -> dict_ok (auto_evict_completed r w).
Proof. unfold auto_evict_completed. destruct (_ <=? _)%Z; [done|]. apply evict_oldest_dict. Qed.

Lemma store_tasks r e w r' :
  tasks (store_entry r e w) r' =
  if decide (r = r' /\ r < length (w_registries w)) then assoc_set (id_of e) (length (w_entries w)) (tasks w r') else tasks w r'.
Proof.
  unfold tasks, store_entry. destruct (decide (r = r')) as [->|Hr].
  - destruct (decide (r' < length (w_registries w))) as [Hlt|Hge].
    + rewrite decide_True by done. rewrite write_registry_same by done. by destruct (te_original_task_id _).
    + rewrite decide_False by tauto. unfold registry_at. simpl. by rewrite !lookup_ge_None_2 by (rewrite ?length_alter; lia).
  - rewrite decide_False by tauto. by rewrite write_registry_other.
Qed.
Lemma get_store r e w r' id :
  get (store_entry r e w) r' id =
  if decide (r = r' /\ r < length (w_registries w) /\ id_of e = id) then Some (length (w_entries w)) else get w r' id.
Proof.
  unfold get. rewrite store_tasks. destruct (decide (r = r' /\ r < length (w_registries w))) as [[-> Hlt]|Hn].
  - rewrite assoc_get_set. destruct (decide (id_of e = id)); [by rewrite decide_True|by rewrite decide_False by tauto].
  - by rewrite decide_False by tauto.
Qed.
Lemma assoc_set_elem {V} k (v : V) d k' v' : (k', v') ∈ assoc_set k v d -> (k' = k /\ v' = v) \/ (k', v') ∈ d.
Proof.
  induction d as [|[x y] d IH]; cbn [assoc_set]; [rewrite list_elem_of_singleton; intros [= -> ->]; auto|].
  case_decide; rewrite !elem_of_cons; [intros [[= -> ->]|?]; auto|]. intros [?|[?|?]%IH]; auto.
Qed.
Lemma assoc_set_keys {V} k (v : V) d : NoDup d.*1 -> NoDup (assoc_set k v d).*1.
Proof.
  assert (Hin : forall x (d : list (str * V)), x ∈ (assoc_set k v d).*1 -> x = k \/ x ∈ d.*1).
  { intros x l ([k' v'] & -> & H)%list_elem_of_fmap. apply assoc_set_elem in H as [[-> _]|H]; [by left|right]. apply list_elem_of_fmap. by exists (k', v'). }
  induction d as [|[x y] d IH]; cbn [assoc_set fmap list_fmap fst]; [intros _; apply NoDup_singleton|]. rewrite NoDup_cons. intros [Hx Hd].
  case_decide as Hk; [subst x; by apply NoDup_cons|]. cbn [fmap list_fmap fst]. apply NoDup_cons. split; [|by apply IH]. by intros [?|?]%Hin.
Qed.
Lemma store_dict r e w : dict_ok w -> dict_ok (store_entry r e w).
Proof.
  intros [H1 H2].
  assert (Hold : forall l x, entry_at w l = Some x -> entry_at (store_entry r e w) l = Some x) by (intros; by apply lookup_app_l_Some).
  split.
  - intros r' k l. rewrite store_tasks. intros Hin. assert (Hc : (k = id_of e /\ l = length (w_entries w)) \/ (k, l) ∈ tasks w r')
      by (case_decide; [by apply assoc_set_elem|by right]).
    destruct Hc as [[-> ->]|Hc]; [exists e; split; [by apply list_lookup_middle|done]|]. destruct (H1 r' k l Hc) as (x & Hx & Hk); eauto.
  - intros r'. rewrite store_tasks. case_decide as Hr; [by apply assoc_set_keys|apply H2].
Qed.
Lemma share_tasks r l w r' : tasks (share_entry r l w) r' = tasks w r' \/
  exists e, r = r' /\ entry_at w l = Some e /\ get w r (id_of e) = None /\ tasks (share_entry r l w) r' = assoc_set (id_of e) l (tasks w r').
Proof.
  unfold share_entry. destruct (entry_at w l) as [e|]; [|by left]. destruct (get w r (id_of e)) eqn:Hg; [by left|].
  destruct (decide (r = r')) as [<-|Hr]; [|left; unfold tasks; by rewrite write_registry_other].
  destruct (decide (r < length (w_registries w))) as [Hlt|Hge].
  - right. exists e. repeat split; [done|]. unfold tasks. by rewrite write_registry_same.
  - left. rewrite !registry_missing; [done|lia|]. simpl. rewrite length_alter. lia.
Qed.
Lemma share_dict r l w : dict_ok w -> dict_ok (share_entry r l w).
Proof.
  intros [H1 H2]. split.
  - intros r' k x. unfold entry_at. rewrite share_entries. destruct (share_tasks r l w r') as [->|(e & _ & He & _ & ->)]; [apply H1|].
    intros [[-> ->]|Hin]%assoc_set_elem; [by exists e|by apply (H1 r')].
  - intros r'. destruct (share_tasks r l w r') as [->|(e & _ & _ & _ & ->)]; [apply H2|apply assoc_set_keys, H2].
Qed.

(** *** Registration *)
Definition generated_id (w : World) (r : nat) : str :=
  rg_id_prefix (registry_at w r) ++ u "_" ++ Z_to_str (rg_seq (registry_at w r)).
Definition after_draw (w : World) (r : nat) (task_id : option str) : World :=
  match task_id with None => write_registry r (set_seq (rg_seq (registry_at w r) + 1)%Z) w | Some _ => w end.
Lemma register_cases r ty ag id orig md now w :
  let drawn := default (generated_id w r) id in
  register r ty ag id orig md now w =
    if negb (capacity_available None w r) then (w, Raise RetrievalCapacity)
    else if bool_decide (is_Some (id ≫= get w r)) then (w, Raise DuplicateTask)
    else (auto_evict_completed r (store_entry r (new_entry drawn ty ag orig md now) (after_draw w r id)), Ret (length (w_entries w))).
Proof.
  unfold register, se_bind, se_get. cbv beta iota. destruct (negb _); [done|].
  destruct id as [i|]; cbn [mbind option_bind after_draw default].
  - destruct (get w r i) as [l|]; [by rewrite bool_decide_eq_true_2 by eauto|]. rewrite bool_decide_eq_false_2 by (by intros [? ?]). done.
  - rewrite bool_decide_eq_false_2 by (by intros [? ?]). done.
Qed.
Lemma after_draw_tasks w r id r' : tasks (after_draw w r id) r' = tasks w r'.
Proof. unfold after_draw. destruct id; [done|]. by apply (write_registry_proj rg_tasks). Qed.
Lemma after_draw_registries w r id : length (w_registries (after_draw w r id)) = length (w_registries w).
Proof. unfold after_draw. destruct id; [done|]. simpl. by rewrite length_alter. Qed.

(** A registry is bound under an older one as the only registry of its job. *)
Definition well_bound (op : reg_op) (w : World) : Prop :=
  match op with
  | rn_bind r o => r < length (w_registries w) /\
    (forall p, ow_parent o = Some p -> p < r /\ assoc_get (ow_job_id o) (rg_child_registries (registry_at w p)) = None)
  | _ => True
  end.
(** A registration whose generated id is taken: it is stored over the old entry. *)
Definition redraws (op : reg_op) (w : World) (r : nat) (id : str) : Prop :=
  match op with
  | rn_register x _ _ None _ _ _ | rn_admit x _ _ None _ _ _ => x = r /\ id = generated_id w r
  | _ => False
  end.

Definition preserves (w w' : World) (except : nat -> str -> nat -> Prop) : Prop :=
  dict_ok w -> dict_ok w' /\
  forall r id l e', get w r id = Some l -> ~ except r id l -> entry_at w' l = Some e' -> evictable e' = false -> get w' r id = Some l.
Lemma preserves_same w w' except :
  (forall r, tasks w' r = tasks w r) -> entries_keep w w' -> preserves w w' except.
Proof.
  intros Ht Hm Hok. split; [by eapply dict_ok_same|]. intros r id l e' Hg _ _ _. unfold get. by rewrite Ht.
Qed.
Definition redrawn (w : World) (r : nat) (task_id : option str) (r' : nat) (id : str) (_ : nat) : Prop :=
  task_id = None /\ r = r' /\ id = generated_id w r'.
Lemma register_preserves r ty ag id orig md now w : preserves w (register r ty ag id orig md now w).1 (redrawn w r id).
Proof.
  rewrite register_cases. cbv zeta. destruct (negb _); [by apply preserves_same; [|by apply same_keep]|].
  destruct (bool_decide _) eqn:Hd; [by apply preserves_same; [|by apply same_keep]|]. apply bool_decide_eq_false in Hd.
  set (e := new_entry _ _ _ _ _ _). cbn [fst]. set (w1 := after_draw w r id).
  intros Hok. assert (Hok1 : dict_ok w1).
  { apply (dict_ok_same w); [apply after_draw_tasks| |done]. apply same_keep. unfold w1, after_draw. by destruct id. }
  pose proof (store_dict r e w1 Hok1) as Hok2. split; [by apply auto_evict_dict|].
  intros r' k l e' Hg Hx He Hne. unfold entry_at in He. rewrite auto_evict_entries in He.
  eapply get_auto_evict; [done| |exact He|done]. rewrite get_store. case_decide as Hc; [|unfold get, w1; by rewrite after_draw_tasks].
  destruct Hc as (-> & _ & <-). destruct id as [i|]; [|by destruct Hx]. cbn [mbind option_bind] in Hd. change (get w r' i = Some l) in Hg. destruct Hd. eauto.
Qed.
Lemma preserves_weaken w w' (a b : nat -> str -> nat -> Prop) : (forall r id l, a r id l -> b r id l) -> preserves w w' a -> preserves w w' b.
Proof. intros H Hp Hok. destruct (Hp Hok) as [H1 H2]. split; [done|]. intros r id l e' Hg Hn. apply (H2 r id l e' Hg). auto. Qed.
Lemma evict_completed_preserves r age now w except : preserves w (evict_completed r age now w).1 except.
Proof.
  intros Hok. unfold evict_completed. set (p := fun le : nat * TaskEntry => _).
  assert (Hp : forall x, p x = true -> evictable x.2 = true) by (intros x; unfold p; by intros [? _]%andb_true_iff).
  pose proof (candidate_evictable w r p) as Hc. set (ls := List.filter p (list_tasks w r None)) in *. clearbody p.
  assert (Hrun : forall n w1, dict_ok w1 -> let w2 := (foldl (fun acc (le : nat * TaskEntry) => let '(w, removed) := remove_task r (id_of le.2) acc.1 in
    (w, match removed with Some _ => S acc.2 | None => acc.2 end)) (w1, n) ls).1 in
    dict_ok w2 /\ w_entries w2 = w_entries w1 /\ forall r' id, (r = r' -> id ∉ (fun le : nat * TaskEntry => id_of le.2) <$> ls) -> get w2 r' id = get w1 r' id).
  { clear Hc. induction ls as [|x ls IH]; intros n w1 H1; [done|]. cbn [foldl fst snd].
    pose proof (remove_task_dict r (id_of x.2) w1 H1) as H2. pose proof (remove_task_entries r (id_of x.2) w1) as H3.
    pose proof (get_remove r (id_of x.2) w1) as H4. destruct (remove_task r (id_of x.2) w1) as [w2 o]. cbn [fst] in *.
    destruct (IH (match o with Some _ => S n | None => n end) w2 H2) as (I1 & I2 & I3). split; [done|]. split; [congruence|].
    intros r' id Hn. rewrite I3, H4, decide_False; [done| |].
    - intros [-> <-]. apply (Hn eq_refl). constructor.
    - intros Hr Hin. apply (Hn Hr). by constructor. }
  destruct (Hrun 0 w Hok) as (D & E & G). split; [done|]. intros r' id l e' Hg _ He Hne. unfold entry_at in He. rewrite E in He.
  rewrite G; [done|]. intros <-. by eapply Hc.
Qed.
Lemma discard_preserves r id l w : preserves w (discard_unstarted r id l w).1 (fun _ _ x => x = l).
Proof.
  unfold discard_unstarted. destruct (find_entry w r id) as [[k e]|] eqn:Hf; [|by apply preserves_same; [|by apply same_keep]].
  split_if Hc; [|by apply preserves_same; [|by apply same_keep]]. apply find_entry_spec in Hf as [Hgk _].
  rewrite !andb_true_iff in Hc. destruct Hc as [[Hc _] _]. apply bool_decide_eq_true in Hc. subst k. cbn [fst].
  match goal with |- preserves _ ?x _ => set (w2 := x) end.
  assert (Ht : forall r', tasks w2 r' = tasks (remove_task r id w).1 r' /\ w_entries w2 = w_entries (remove_task r id w).1).
  { intros r'. unfold w2. destruct (te_original_task_id _); [|done]. split_if Hx; [done|]. split; [|done]. by apply (write_registry_proj rg_tasks). }
  intros Hok. split; [apply (dict_ok_same (remove_task r id w).1); [apply Ht|apply same_keep, (Ht 0)|by apply remove_task_dict]|].
  intros r' id' x e' Hg Hx _ _. unfold get. rewrite (proj1 (Ht r')). fold (get (remove_task r id w).1 r' id').
  rewrite get_remove, decide_False; [done|]. intros [<- <-]. congruence.
Qed.

(** Operations that leave the dicts of tasks alone. *)
Definition stable {A} (m : W A) : Prop := forall w r, tasks (m w).1 r = tasks w r.
Lemma stable_ret {A} (a : A) : stable (se_ret a).
Proof. done. Qed.
Lemma stable_raise {A} e : stable (A := A) (se_raise e).
Proof. done. Qed.
Lemma stable_bind {A B} (m : W A) (k : A -> W B) : stable m -> (forall a, stable (k a)) -> stable (se_bind m k).
Proof.
  intros Hm Hk w r. unfold se_bind. specialize (Hm w r). destruct (m w) as [w1 [a|e]]; simpl in *; [|done]. by rewrite Hk.
Qed.
Lemma stable_write l f : stable (modify (write_entry l f)).
Proof. done. Qed.
Lemma stable_prune r : stable (modify (prune_completed_owner r)).
Proof. intros w r'. apply prune_tasks. Qed.
Lemma stable_lookup r id : stable (lookup_entry r id).
Proof. intros w r'. unfold lookup_entry, se_bind, se_get. by destruct (find_entry w r id). Qed.
Lemma push_new_registries n q w : w_registries (push_new n q w).1 = w_registries w.
Proof.
  unfold push_new. destruct (w_queues w !! q) as [queue|]; [|done]. destruct (allocate n queue) as [q1 l]. by destruct (push l q1).
Qed.
Lemma on_transition_registries q l new now w : w_registries (on_transition q l new now w).1 = w_registries w.
Proof.
  unfold on_transition, se_bind, se_get. cbv beta iota. destruct (entry_at w l) as [e|]; [|done]. destruct (_ || _); [done|].
  destruct (te_envelope (te_progress e)) as [envelope|]; [destruct (inline_payload _).2; [done|]|].
  all: match goal with |- context [push_new ?n ?q ?w] => pose proof (push_new_registries n q w) as Hp; destruct (push_new n q w) as [w' ok] end; done.
Qed.
Lemma stable_notify r l new now : stable (notify r l new now).
Proof.
  unfold notify. apply stable_bind; [done|]. intros w. induction (rg_listeners (registry_at w r)) as [|q qs IH]; cbn [notify_all]; [done|].
  apply stable_bind; [|done]. intros w1 r1. unfold tasks, registry_at. by rewrite on_transition_registries.
Qed.
#[local] Hint Resolve stable_ret stable_raise stable_write stable_prune stable_lookup stable_notify : gateway.
Ltac stable_steps :=
  repeat first
    [ solve [eauto with gateway]
    | apply stable_bind; [|intros]
    | match goal with |- stable (match ?x with _ => _ end) => destruct x end ].
Lemma transition_stable r id new res err now : stable (transition r id new res err now).
Proof. unfold transition. stable_steps. intros w r'. cbn [modify fst]. destruct (terminal new); [apply prune_tasks|done]. Qed.
Lemma finalize_stable r id new res err now : stable (finalize_interrupted r id new res err now).
Proof. unfold finalize_interrupted. stable_steps. Qed.
Lemma commit_stable r id t c now : stable (commit_parked_termination r id t c now).
Proof. unfold commit_parked_termination. cbv zeta. stable_steps. Qed.
Lemma restore_stable final b r id res now : stable (restore_committed final b r id res now).
Proof. unfold restore_committed. stable_steps. Qed.

Lemma same_preserves w w' except op :
  allowed op -> w' = run_reg op w -> (forall r, tasks w' r = tasks w r) -> preserves w w' except.
Proof. intros Ha -> Ht. apply preserves_same; [done|by apply run_reg_keeps]. Qed.
Lemma claim_preserves r ty id orig ag md now w except : preserves w (claim_resume_successor r ty id orig ag md now w).1 except.
Proof.
  unfold claim_resume_successor. split_if H0; [by apply preserves_same; [|by apply same_keep]|].
  unfold se_bind, se_get. cbv beta iota. destruct (get w r id) as [l|]; [split_if H1; by apply preserves_same; [|by apply same_keep]|].
  pose proof (register_preserves r ty ag (Some id) (Some orig) md now w) as Hp. apply (preserves_weaken _ _ _ except) in Hp; [|by intros ??? [? _]].
  by destruct (register r ty ag (Some id) (Some orig) md now w) as [w1 [l|e]].
Qed.
Lemma admit_preserves r ty ag id orig md now w : preserves w (admit_task r ty ag id orig md now w).1 (redrawn w r id).
Proof.
  unfold admit_task, se_bind at 1, se_get. cbv beta iota zeta. split_if H0; [by apply preserves_same; [|by apply same_keep]|].
  destruct orig as [o|].
  - destruct (truthy_id id) as [i|]; [|by apply preserves_same; [|by apply same_keep]].
    pose proof (claim_preserves r ty i o ag md now w (redrawn w r id)) as Hp. unfold catch, se_bind.
    destruct (claim_resume_successor r ty i o ag md now w) as [w1 [l|[]]]; exact Hp.
  - destruct (truthy_id id ≫= get w r) as [l|]; [by apply preserves_same; [|by apply same_keep]|].
    pose proof (register_preserves r ty ag id None md now w) as Hp. unfold se_bind.
    by destruct (register r ty ag id None md now w) as [w1 [l|e]].
Qed.
Lemma share_preserves r l w except : preserves w (share_entry r l w) except.
Proof.
  intros Hok. split; [by apply share_dict|]. intros r' id k e' Hg _ _ _. unfold get in *.
  destruct (share_tasks r l w r') as [->|(e & -> & _ & Hn & ->)]; [done|]. rewrite assoc_get_set. case_decide as Hx; [|done].
  unfold get in Hn. subst id. congruence.
Qed.
Lemma adopt_preserves r e w except : preserves w (adopt_reconstructed r e w).1 except.
Proof.
  unfold adopt_reconstructed, se_bind, se_get. cbv beta iota. destruct (get w r (id_of e)) as [l|] eqn:Hg; [by apply preserves_same; [|by apply same_keep]|].
  split_if H0; [by apply preserves_same; [|by apply same_keep]|]. cbn [modify se_ret fst].
  match goal with |- preserves _ ?x _ => set (w2 := x) end.
  assert (Ht : forall r', tasks w2 r' = tasks (store_entry r e w) r' /\ w_entries w2 = w_entries (store_entry r e w)).
  { intros r'. unfold w2. destruct (numeric_suffix _); [|done]. split; [|done]. by apply (write_registry_proj rg_tasks). }
  intros Hok. split; [apply (dict_ok_same (store_entry r e w)); [apply Ht|apply same_keep, (Ht 0)|by apply store_dict]|].
  intros r' id l e' Hgl _ _ _. unfold get. rewrite (proj1 (Ht r')). fold (get (store_entry r e w) r' id). rewrite get_store.
  case_decide as Hx; [|done]. destruct Hx as (-> & _ & <-). congruence.
Qed.
Lemma retrieved_preserves r id g w except : preserves w (mark_notification_payload_retrieved r id g w).1 except.
Proof.
  unfold mark_notification_payload_retrieved. destruct (find_entry w r id) as [[l e]|]; [|by apply preserves_same; [|by apply same_keep]].
  cbv zeta. split_if H0; [|by apply preserves_same; [|by apply same_keep]]. cbn [fst]. set (w1 := set_delivery delivered l w).
  intros Hok. assert (Hok1 : dict_ok w1) by (apply (dict_ok_same w); [done|apply moved_keep, delivery_moves|done]).
  split; [apply (dict_ok_same (auto_evict_completed r w1)); [apply prune_tasks|apply same_keep, prune_entries|by apply auto_evict_dict]|].
  intros r' id' k e' Hg _ He Hne. unfold entry_at in He. rewrite prune_entries, auto_evict_entries in He.
  unfold get. rewrite prune_tasks. fold (get (auto_evict_completed r w1) r' id'). by eapply get_auto_evict.
Qed.
Lemma settle_tasks r ns w r' : tasks (settle_consumed r ns w).1 r' = tasks w r'.
Proof.
  simpl. revert w. induction ns as [|n ns IH]; intros w; [done|]. simpl. rewrite IH. unfold settle_one.
  destruct (find_entry _ _ _) as [[l e]|]; [|done]. cbv zeta. by destruct (_ && _).
Qed.

Definition discards (op : reg_op) (l : nat) : Prop := match op with rn_discard _ _ x => l = x | _ => False end.
Lemma run_reg_preserves op w : allowed op -> preserves w (run_reg op w) (fun r id l => discards op l \/ redraws op w r id).
Proof.
  intros Ha. destruct op; cbn [run_reg discards redraws] in *.
  - apply (same_preserves _ _ _ (rn_new g)); [done..|]. intros r. unfold tasks, registry_at. simpl.
    destruct (decide (r < length (w_registries w))); [by rewrite lookup_app_l|]. rewrite lookup_app_r by lia.
    rewrite (lookup_ge_None_2 (w_registries w)) by lia. by destruct (r - length (w_registries w)) as [|[]].
  - apply (same_preserves _ _ _ (rn_queue max_pending)); done.
  - apply (same_preserves _ _ _ (rn_listen r q)); [done..|]. intros r'. by apply (write_registry_proj rg_tasks).
  - apply (same_preserves _ _ _ (rn_bind r o)); [done..|]. intros r'. unfold bind_owner, se_bind, se_get. cbv beta iota.
    destruct (rg_owner _); [done|]. cbn [modify fst]. destruct (ow_parent o); unfold tasks.
    all: by rewrite !(write_registry_proj rg_tasks) by done.
  - apply (same_preserves _ _ _ (rn_complete r)); [done..|]. intros r'. unfold complete_owner. rewrite prune_tasks.
    by apply (write_registry_proj rg_tasks).
  - eapply preserves_weaken; [|apply register_preserves]. intros x y z (-> & -> & ->). by right.
  - eapply preserves_weaken; [|apply admit_preserves]. intros x y z (-> & -> & ->). by right.
  - eapply preserves_weaken; [|apply discard_preserves]. by left.
  - apply adopt_preserves.
  - apply (same_preserves _ _ _ (rn_transition r task_id new result error now)); [done..|]. apply transition_stable.
  - apply (same_preserves _ _ _ (rn_finalize r task_id new result error now)); [done..|]. apply finalize_stable.
  - apply (same_preserves _ _ _ (rn_commit r task_id t completed_at now)); [done..|]. apply commit_stable.
  - apply (same_preserves _ _ _ (rn_restore_awaiting r task_id result now)); [done..|]. apply restore_stable.
  - apply (same_preserves _ _ _ (rn_restore_park r task_id result now)); [done..|]. apply restore_stable.
  - apply (same_preserves _ _ _ (rn_interrupt r task_id reason)); [done..|]. intros r'. unfold interrupt.
    destruct (find_entry _ _ _) as [[l e]|]; [|done]. cbv zeta. by split_if H0.
  - apply (same_preserves _ _ _ (rn_kill r task_id intent)); [done..|]. intros r'. unfold kill.
    destruct (find_entry _ _ _) as [[l e]|]; [|done]. cbv zeta. by split_if H0.
  - apply evict_completed_preserves.
  - apply (same_preserves _ _ _ (rn_content_read r task_id content_id)); [done..|]. intros r'. unfold mark_result_content_read.
    destruct (find_entry _ _ _) as [[l e]|]; [|done]. destruct (te_envelope _); [|done]. by split_if H0.
  - apply retrieved_preserves.
  - apply (same_preserves _ _ _ (rn_ack r q delivered0)); [done..|]. intros r'. unfold ack_delivered.
    destruct (w_queues w !! q) as [queue|]; [|done]. destruct (drain_delivered _ _) as [q' ls]. cbn [fst]. by rewrite settle_tasks.
  - apply (same_preserves _ _ _ (rn_consume r q max_count)); [done..|]. intros r'. unfold consume_notifications.
    destruct (w_queues w !! q) as [queue|]; [|done]. destruct (drain _ _) as [q' ls]. cbn [fst]. by rewrite settle_tasks.
  - apply (same_preserves _ _ _ (rn_push q n)); [done..|]. intros r. unfold tasks, registry_at. by rewrite push_new_registries.
  - apply share_preserves.
  - by apply (same_preserves _ _ _ (rn_write l f)).
Qed.

Definition empty_world : World := mkWorld [] [] [].
Lemma reachable_dict w : rtc reg_step empty_world w -> dict_ok w.
Proof.
  intros Hr. apply (rtc_invariant reg_step dict_ok empty_world); [|done|].
  - intros a b (op & Ha & ->) Hok. by apply (run_reg_preserves op a Ha).
  - split; intros r; unfold tasks, registry_at; simpl; [by intros k l H%elem_of_nil|constructor].
Qed.
(** Runs in which registries are bound as a tree. *)
Definition good_step (w w' : World) : Prop := exists op, allowed op /\ well_bound op w /\ w' = run_reg op w.
Lemma good_steps w w' : rtc good_step w w' -> rtc reg_step w w'.
Proof. apply rtc_subrel. intros a b (op & Ha & _ & ->). by exists op. Qed.


(** *** Admission *)
(** Projections that removing and evicting tasks do not touch. *)
Section projections.
Context {A : Type} (f : TaskRegistry -> A).
Hypothesis f_children : forall v g, f (set_child_registries v g) = f g.
Hypothesis f_tasks : forall v g, f (set_tasks v g) = f g.
Hypothesis f_retired : forall v g, f (set_owner_entry_retired v g) = f g.
Lemma remove_proj r id w r' : f (registry_at (remove_task r id w).1 r') = f (registry_at w r').
Proof.
  unfold remove_task. cbn [fst]. rewrite (prune_proj f) by auto. destruct (assoc_get _ _) as [c|].
  - rewrite (prune_proj f) by auto. destruct (get w r id); rewrite !(write_registry_proj f) by auto; done.
  - apply (write_registry_proj f). auto.
Qed.
Lemma evict_oldest_proj r limit ids w r' : f (registry_at (evict_oldest r limit ids w) r') = f (registry_at w r').
Proof. revert w. induction ids as [|id ids IH]; intros w; cbn [evict_oldest]; [done|]. destruct (_ <? _)%Z; [|done]. by rewrite IH, remove_proj. Qed.
Lemma auto_evict_proj r w r' : f (registry_at (auto_evict_completed r w) r') = f (registry_at w r').
Proof. unfold auto_evict_completed. destruct (_ <=? _)%Z; [done|]. apply evict_oldest_proj. Qed.
End projections.
(** What a registration that succeeds has done. *)
Definition reserved_new (w w' : World) (r l : nat) (ty : str) (ag id orig : option str) (md : jdict) (now : Z) : Prop :=
  l = length (w_entries w) /\
  (pending_retrieval_count w r + admission_count w r < retention_limit w r)%Z /\
  (r < length (w_registries w) -> get w' r (default (generated_id w r) id) = Some l) /\
  entry_at w' l = Some (new_entry (default (generated_id w r) id) ty ag orig md now) /\
  (forall o, orig = Some o -> r < length (w_registries w) -> o ∈ rg_superseded (registry_at w' r)).
Lemma register_reserves r ty ag id orig md now w w' l :
  dict_ok w -> register r ty ag id orig md now w = (w', Ret l) -> reserved_new w w' r l ty ag id orig md now.
Proof.
  intros Hok Hrun.
  rewrite register_cases in Hrun. cbv zeta in Hrun. destruct (capacity_available None w r) eqn:Hcap; cbn [negb] in Hrun; [|done].
  destruct (bool_decide _) eqn:Hd in Hrun; [done|]. apply bool_decide_eq_false in Hd. injection Hrun as <- <-.
  set (e := new_entry _ _ _ _ _ _). set (w1 := after_draw w r id).
  assert (Hlen : length (w_entries w1) = length (w_entries w)) by (unfold w1, after_draw; by destruct id).
  assert (He : entry_at (store_entry r e w1) (length (w_entries w)) = Some e) by (rewrite <- Hlen; by apply list_lookup_middle).
  assert (Hok1 : dict_ok w1).
  { apply (dict_ok_same w); [apply after_draw_tasks| |done]. apply same_keep. unfold w1, after_draw. by destruct id. }
  split; [done|]. split; [unfold capacity_available in Hcap; by apply Z.ltb_lt|]. split; [|split].
  - intros Hr. eapply get_auto_evict; [by apply store_dict| |exact He|done]. rewrite get_store, decide_True; [by rewrite Hlen|].
    split; [done|]. split; [unfold w1; by rewrite after_draw_registries|done].
  - unfold entry_at. rewrite auto_evict_entries. exact He.
  - intros o -> Hr. rewrite (auto_evict_proj rg_superseded) by done. unfold store_entry. cbn [te_original_task_id te_identity e new_entry].
    rewrite write_registry_same; [|simpl; unfold w1; by rewrite after_draw_registries]. simpl. set_solver.
Qed.

(** An admission either changes nothing, because retention is full, or the
    named successor belongs to another lineage, or the named task is already
    there and is returned again; or it reserves exactly one new pending entry
    under its id, below the retention limit. *)
Theorem admit_reserves_once r ty ag id orig md now w w' a :
  rtc reg_step empty_world w -> admit_task r ty ag id orig md now w = (w', Ret a) ->
  match a with
  | RetrievalBackpressure pending limit =>
    w' = w /\ pending = pending_retrieval_count w r /\ limit = retention_limit w r /\ (limit <= pending + admission_count w r)%Z
  | SuccessorConflict =>
    w' = w /\ exists i o l, truthy_id id = Some i /\ orig = Some o /\ get w r i = Some l /\ original_of w l <> Some o
  | SlotTaken l =>
    (w' = w /\ exists i, truthy_id id = Some i /\ get w r i = Some l /\ (forall o, orig = Some o -> original_of w l = Some o)) \/
    reserved_new w w' r l ty ag id orig md now
  end.
Proof.
  intros Hr Hrun. apply reachable_dict in Hr. unfold admit_task, se_bind at 1, se_get in Hrun. cbv beta iota zeta in Hrun.
  destruct (capacity_available (Some _) w r) eqn:Hcap in Hrun; cbn [negb] in Hrun.
  2:{ injection Hrun as <- <-. repeat split. unfold capacity_available in Hcap. apply Z.ltb_ge in Hcap.
      assert (0 <= admission_count w r)%Z by (unfold admission_count, count_entries; lia).
      destruct (match _ with Some e => _ | None => false end); lia. }
  destruct orig as [o|].
  - destruct (truthy_id id) as [i|] eqn:Hid; [|done].
    assert (Hidi : id = Some i) by (unfold truthy_id in Hid; by repeat case_match; simplify_eq).
    unfold catch, se_bind at 1 in Hrun. unfold claim_resume_successor in Hrun. destruct (_ || _); [done|].
    unfold se_bind, se_get in Hrun. cbv beta iota in Hrun. destruct (get w r i) as [l|] eqn:Hg.
    + destruct (bool_decide _) eqn:Hb in Hrun.
      * injection Hrun as <- <-. left. split; [done|]. exists i. repeat split; [done|]. intros o' [= <-]. by apply bool_decide_eq_true in Hb.
      * injection Hrun as <- <-. apply bool_decide_eq_false in Hb. split; [done|]. exists i, o, l. done.
    + pose proof (register_reserves r ty ag (Some i) (Some o) md now w) as Hreg.
      destruct (register r ty ag (Some i) (Some o) md now w) as [w1 [l|err]] eqn:Er; cbn in Hrun.
      * injection Hrun as <- <-. right. rewrite Hidi. apply Hreg; done.
      * rewrite register_cases in Er. cbv zeta in Er. destruct (negb _); [by simplify_eq|].
        destruct (bool_decide _) in Er; by simplify_eq.
  - destruct (truthy_id id ≫= get w r) as [l|] eqn:Hg.
    + injection Hrun as <- <-. left. split; [done|]. destruct (truthy_id id) as [i|] eqn:Hid; [|done]. exists i. done.
    + pose proof (register_reserves r ty ag id None md now w) as Hreg. unfold se_bind in Hrun.
      destruct (register r ty ag id None md now w) as [w1 [l|err]]; cbn in Hrun; [|done]. injection Hrun as <- <-. right. by apply Hreg.
Qed.

(** Runs of which each operation satisfies [pre]. *)
Fixpoint calls_ok (pre : reg_op -> World -> Prop) (ops : list reg_op) (w : World) : Prop :=
  match ops with [] => True | op :: ops => pre op w /\ calls_ok pre ops (run_reg op w) end.
Lemma calls_reach (pre : reg_op -> World -> Prop) (step : World -> World -> Prop) ops w :
  (forall op w, pre op w -> step w (run_reg op w)) -> calls_ok pre ops w -> rtc step w (run_calls ops w).
Proof.
  intros Hs. revert w. induction ops as [|op ops IH]; intros w; [by constructor|]. intros [Hp Hr]. eapply rtc_l; [by apply Hs|by apply IH].
Qed.
Lemma calls_ok_prefix pre ops ops' w : calls_ok pre (ops ++ ops') w -> calls_ok pre ops w.
Proof. revert w. induction ops as [|op ops IH]; intros w; [done|]. intros [H1 H2]. split; [done|by apply IH]. Qed.
Definition good_call (op : reg_op) (w : World) : Prop := allowed op /\ well_bound op w.
Lemma good_reach ops : calls_ok good_call ops empty_world -> rtc good_step empty_world (run_calls ops empty_world).
Proof. apply calls_reach. intros op w [H1 H2]. by exists op. Qed.
End runs.

(** ** Concrete runs

    A root runner with a queue of two, one place kept for overflow, starts two tasks; the first
    has a registry of its own with a task in it. Both tasks of the root settle:
    the first is announced, the second overflows the queue and is kept for
    retrieval. *)
Section examples.

#[export] Instance demo_listener : ListenerEnv := {|
  listener_notify := {| json_dumps := fun _ _ => Some (u "{}") |};
  settlement_payload := fun _ _ => empty_payload;
  settlement_summary := fun e new => id_of e ++ u " " ++ state_text new;
  envelope_payload := fun _ => empty_payload;
  envelope_summary := fun e _ => id_of e
|}.
Definition demo_spawn (r : nat) (now : Z) : reg_op := rn_register r (u "background_agent") (Some (u "analyst")) None None [] now.
Definition demo_tree : list reg_op :=
  [rn_new (new_registry 2 1 (u "bg")); rn_new (new_registry 2 1 (u "sub")); rn_queue 1; rn_listen 0 0;
   rn_bind 0 (mkOwner (u "root") None); demo_spawn 0 1; demo_spawn 0 2; rn_bind 1 (mkOwner (u "bg_0") (Some 0)); demo_spawn 1 3;
   rn_transition 0 (u "bg_0") RUNNING None None 4; rn_transition 0 (u "bg_1") RUNNING None None 5].
Definition demo_settle : list reg_op :=
  [rn_transition 0 (u "bg_0") COMPLETED (Some [(u "answer", JStr (u "42"))]) None 6; rn_transition 0 (u "bg_1") FAILED None None 7].
Definition demo_calls : list reg_op := demo_tree ++ demo_settle.
Definition demo_live : World := run_calls demo_tree empty_world.
Definition demo_world : World := run_calls demo_calls empty_world.

Lemma demo_good : calls_ok good_call demo_calls empty_world.
Proof.
  unfold demo_calls, demo_tree, demo_settle, demo_spawn, good_call. cbn [app calls_ok allowed]. repeat split; try done.
  all: try (by vm_compute); try (vm_compute; lia).
  all: match goal with H : _ = Some ?p |- _ => injection H as <- end.
  all: try lia; by vm_compute.
Qed.
Lemma demo_live_good : calls_ok good_call demo_tree empty_world.
Proof. exact (calls_ok_prefix _ _ _ _ demo_good). Qed.
Lemma demo_outcome : (fun e => (state_of e, delivery_of e, te_generation (te_progress e))) <$> w_entries demo_world =
  [(COMPLETED, queued, 1%Z); (FAILED, queue_omitted, 1%Z); (PENDING, not_queued, 0%Z)] /\ (tasks demo_world 0).*1 = [u "bg_0"; u "bg_1"].
Proof. by vm_compute. Qed.

Lemma demo_reg_steps : rtc reg_step empty_world demo_world.
Proof. exact (good_steps _ _ (good_reach _ demo_good)). Qed.
(** The runner records the admission of a task, and changes its settlement. *)
Definition demo_note (l : nat) : reg_op := rn_write l (fun p =>
  mkProgress (te_state p) (te_asyncio_task p) (te_completed_at p) (te_result p) (te_error p) (te_task_result p) (te_envelope p) (te_termination_intent p) (te_interruption_reason p) (te_pending_final_state p) (te_pending_result p) (te_pending_error p) (te_finalizer_detached p) (te_completion_persistence p) (te_delivery_state p) (te_generation p) (te_content_read p) (te_spawn p) [(u "admitted_task", JNull)] (Some (mkAdmitted [] [] []))).
Definition demo_overwrite (l : nat) : reg_op := rn_write l (fun p => set_error (Some []) (set_result None (set_state PARKED p))).
Lemma task_lifecycle_monotone_witness :
  exists e', entry_at (run_calls [rn_transition 0 (u "bg_0") FAILED None None 9; demo_note 0; demo_overwrite 1] demo_world) 0 = Some e' /\
    state_of e' = COMPLETED /\ te_result (te_progress e') = Some [(u "answer", JStr (u "42"))].
Proof.
  destruct (entry_at demo_world 0) as [e|] eqn:He; [|by vm_compute in He].
  destruct (task_lifecycle_monotone [rn_transition 0 (u "bg_0") FAILED None None 9; demo_note 0; demo_overwrite 1] demo_world 0 e) as (e' & He' & _ & Hm).
  - repeat constructor.
  - exact He.
  - exists e'. split; [exact He'|]. vm_compute in He. injection He as <-. destruct Hm as ((E1 & E2 & _) & _); [repeat constructor; done|by left|]. split; [exact E1|exact E2].
Defined.
(** Both exceptions happen. *)
Example redrawn_id_overwrites :
  let w := run_calls [rn_new (new_registry 2 1 (u "bg")); rn_register 0 (u "agent") None (Some (u "bg_0")) None [] 1] empty_world in
  get w 0 (u "bg_0") = Some 0 /\ get (run_reg (demo_spawn 0 2) w) 0 (u "bg_0") = Some 1.
Proof. by vm_compute. Qed.
Lemma admit_reserves_once_witness :
  exists w', admit_task 0 (u "background_agent") None (Some (u "next")) (Some (u "bg_1")) [] 8 demo_world = (w', Ret (SlotTaken 3)) /\
    reserved_new demo_world w' 0 3 (u "background_agent") None (Some (u "next")) (Some (u "bg_1")) [] 8.
Proof.
  destruct (admit_task 0 (u "background_agent") None (Some (u "next")) (Some (u "bg_1")) [] 8 demo_world) as [w' o] eqn:E. exists w'.
  assert (Ho : o = Ret (SlotTaken 3)) by (apply (f_equal snd) in E; vm_compute in E; by rewrite <- E). subst o. split; [done|].
  destruct (admit_reserves_once 0 (u "background_agent") None (Some (u "next")) (Some (u "bg_1")) [] 8 demo_world w' (SlotTaken 3)) as [(_ & i & Hi & Hg & _)|H].
  - exact demo_reg_steps.
  - exact E.
  - injection Hi as <-. by vm_compute in Hg.
  - exact H.
Defined.
End examples.

End TaskRegistry.
