(* ===== verification/TaskTree.v ===== *)
(** * TaskTree: the tree of task registries and its roster

    Every runner keeps a registry of the children it started; [bind_owner] links
    it under the registry that holds its own job, and
    [_prune_completed_owner] releases the link when the job and everything
    below it have settled ([TaskRegistry]). This file shows that the walks over
    the tree end, that the roster lists exactly the jobs of the tree, and that
    pruning never takes an unsettled job off it. *)
From S2P Require Import Prelude Wire TaskNotifications TaskRegistry.
From Stdlib Require Import Sorted.
Import TaskNotifications TaskRegistry.

Module TaskTree.

Definition edge (w : World) (p c : nat) : Prop := c ∈ child_list w p.
Definition linked (w : World) : nat -> nat -> Prop := rtc (edge w).
Definition owner_of (w : World) (c : nat) : option RegistryOwner := rg_owner (registry_at w c).
Definition parent_of (w : World) (c : nat) : option nat := o ← owner_of w c; ow_parent o.

(** Links and owners agree, and a registry is younger than its parent. *)
Record tree_ok (w : World) : Prop := {
  tr_child : forall p k c, (k, c) ∈ rg_child_registries (registry_at w p) ->
    c < length (w_registries w) /\ exists o, owner_of w c = Some o /\ ow_job_id o = k /\ ow_parent o = Some p;
  tr_keys : forall p, NoDup (rg_child_registries (registry_at w p)).*1;
  tr_older : forall p c, parent_of w c = Some p -> p < c
}.

Lemma edge_parent w p c : tree_ok w -> edge w p c -> parent_of w c = Some p /\ p < c /\ c < length (w_registries w).
Proof.
  intros Hok Hc. unfold edge, child_list in Hc. apply list_elem_of_fmap in Hc as ([k c'] & -> & Hin). cbn [snd].
  destruct (tr_child _ Hok _ _ _ Hin) as (Hlt & o & Ho & _ & Hp).
  assert (parent_of w c' = Some p) as Hpar by (unfold parent_of; by rewrite Ho). split; [done|]. split; [by apply (tr_older _ Hok)|done].
Qed.
Lemma children_nodup w p : tree_ok w -> NoDup (child_list w p).
Proof.
  intros Hok. unfold child_list. apply NoDup_fmap_2_strong.
  - intros [k c] [k' c'] Hx Hy E. cbn [snd] in E. subst c'.
    destruct (tr_child _ Hok _ _ _ Hx) as (_ & o & Ho & Hk & _). destruct (tr_child _ Hok _ _ _ Hy) as (_ & o' & Ho' & Hk' & _). congruence.
  - eapply NoDup_fmap_1, (tr_keys _ Hok).
Qed.

(** *** A walk

    What has been visited and what is pending; every walk over the tree takes a
    pending registry and adds its children. *)
Record walk (w : World) (start : nat) (visited pending : list nat) : Prop := {
  wk_nodup : NoDup (visited ++ pending);
  wk_range : forall x, x ∈ visited ++ pending -> x < length (w_registries w) /\ start <= x;
  wk_parent : forall x, x ∈ visited ++ pending -> x = start \/ exists p, p ∈ visited /\ parent_of w x = Some p;
  wk_linked : forall x, x ∈ visited ++ pending -> linked w start x;
  wk_closed : forall x c, x ∈ visited -> edge w x c -> c ∈ visited ++ pending
}.
Lemma walk_start w r : r < length (w_registries w) -> walk w r [] [r].
Proof.
  intros Hr. constructor; cbn [app]; try (intros x Hx%list_elem_of_singleton; subst x).
  - apply NoDup_singleton.
  - lia.
  - by left.
  - constructor.
  - intros x c H. by apply elem_of_nil in H.
Qed.
Lemma walk_step w start visited pending r rest pending' :
  tree_ok w -> walk w start visited pending -> pending ≡ₚ r :: rest -> pending' ≡ₚ rest ++ child_list w r ->
  walk w start (visited ++ [r]) pending'.
Proof.
  intros Hok [H1 H2 H3 H4 H5] Hp Hp'.
  assert (Hall : visited ++ pending ≡ₚ (visited ++ [r]) ++ rest) by (rewrite Hp, <- app_assoc; done).
  assert (Hr : r ∈ visited ++ pending) by (rewrite Hp; set_solver).
  assert (Hnot : r ∉ visited).
  { intros Hv. rewrite Hp in H1. apply NoDup_app in H1 as (_ & Hd & _). apply (Hd r Hv). constructor. }
  assert (Hnew : forall c, edge w r c -> c ∉ (visited ++ [r]) ++ rest).
  { intros c Hc Hin. rewrite <- Hall in Hin. destruct (edge_parent _ _ _ Hok Hc) as (Hpar & Hlt & _).
    destruct (H3 c Hin) as [->|(p & Hpv & Hpp)]; [|congruence]. apply H2 in Hr as [_ Hr]. lia. }
  assert (Hset : forall x, x ∈ (visited ++ [r]) ++ pending' <-> x ∈ visited ++ pending \/ edge w r x).
  { intros x. rewrite Hp', Hall. unfold edge. rewrite !elem_of_app. tauto. }
  constructor.
  - rewrite Hp'. rewrite app_assoc. apply NoDup_app. split; [by rewrite <- Hall|]. split; [|by apply children_nodup].
    intros x Hx Hc. by apply (Hnew x).
  - intros x [Hx|Hx]%Hset; [auto|]. destruct (edge_parent _ _ _ Hok Hx) as (_ & Hlt & Hlen). apply H2 in Hr. lia.
  - intros x [Hx|Hx]%Hset.
    + destruct (H3 x Hx) as [->|(p & Hv & Hpar)]; [by left|]. right. exists p. split; [apply elem_of_app; by left|done].
    + right. exists r. split; [apply elem_of_app; right; by apply list_elem_of_singleton|]. by apply edge_parent.
  - intros x [Hx|Hx]%Hset; [auto|]. eapply rtc_r; [by apply H4|done].
  - intros x c Hx Hc. apply Hset. apply elem_of_app in Hx as [Hx| ->%list_elem_of_singleton]; [left; by eapply H5|by right].
Qed.
Lemma walk_bound w start visited pending : walk w start visited pending -> length visited + length pending <= length (w_registries w).
Proof.
  intros [H1 H2 _ _ _]. rewrite <- length_app, <- (length_seq (length (w_registries w)) 0).
  apply submseteq_length, NoDup_submseteq; [done|]. intros x Hx. apply elem_of_seq. destruct (H2 x Hx). lia.
Qed.
(** A walk with nothing pending has visited exactly what is linked. *)
Lemma walk_done w start visited : walk w start visited [] -> start ∈ visited -> forall x, x ∈ visited <-> linked w start x.
Proof.
  intros [_ _ _ H4 H5] Hs x. rewrite app_nil_r in *. split; [apply H4|]. intros Hl.
  assert (forall y, linked w y x -> y ∈ visited -> x ∈ visited) as H; [|by eapply H].
  clear Hl. intros y Hy. induction Hy as [|a b c Hab _ IH]; [done|]. intros Ha. apply IH. by apply (H5 a b).
Qed.

(** *** The two searches *)
Lemma pop_last_spec {A} (xs : list A) rest x : pop_last xs = Some (rest, x) -> xs = rest ++ [x].
Proof.
  unfold pop_last. destruct (reverse xs) as [|y ys] eqn:E; [done|]. intros [= <- <-].
  rewrite <- (reverse_involutive xs), E. by rewrite reverse_cons.
Qed.
Lemma pop_last_none {A} (xs : list A) : pop_last xs = None -> xs = [].
Proof.
  unfold pop_last. destruct (reverse xs) as [|y ys] eqn:E; [|done]. intros _. by rewrite <- (reverse_involutive xs), E.
Qed.
Lemma push_children_spec w pending cs pending' : push_children w pending cs = Some pending' ->
  pending' = pending ++ cs /\ forall c, c ∈ cs -> rg_owner_completed (registry_at w c) = true.
Proof.
  revert pending. induction cs as [|c cs IH]; intros pending; cbn [push_children]; [intros [= <-]; rewrite app_nil_r; split; [done|set_solver]|].
  destruct (rg_owner_completed _) eqn:Hc; [|done]. intros [-> H]%IH. split; [by rewrite <- app_assoc|].
  intros x [->|Hx]%elem_of_cons; auto.
Qed.
Lemma unsettled_loop_ends w retain start fuel visited pending :
  tree_ok w -> walk w start visited pending -> length (w_registries w) < fuel + length visited ->
  unsettled_loop w retain fuel pending <> None.
Proof.
  intros Hok. revert visited pending. induction fuel as [|fuel IH]; intros visited pending Hw Hf; cbn [unsettled_loop].
  - pose proof (walk_bound _ _ _ _ Hw). lia.
  - destruct (pop_last pending) as [[rest r]|] eqn:Hp; [|done]. apply pop_last_spec in Hp.
    destruct (existsb _ _); [done|]. destruct (push_children w rest (child_list w r)) as [pending'|] eqn:Hc; [|done].
    apply push_children_spec in Hc as [-> _]. apply (IH (visited ++ [r])); [|rewrite length_app; simpl; lia].
    apply (walk_step w start visited pending r rest); [done|done| |done]. subst pending. by rewrite (Permutation_app_comm rest [r]).
Qed.
Lemma unsettled_loop_false w retain fuel pending :
  unsettled_loop w retain fuel pending = Some false ->
  forall r x le, r ∈ pending -> linked w r x -> le ∈ entries_of w x -> unsettled retain le.2 = false.
Proof.
  revert pending. induction fuel as [|fuel IH]; intros pending; cbn [unsettled_loop]; [done|].
  destruct (pop_last pending) as [[rest r]|] eqn:Hp; [|apply pop_last_none in Hp; subst; set_solver]. apply pop_last_spec in Hp. subst pending.
  destruct (existsb _ _) eqn:He; [done|]. destruct (push_children w rest (child_list w r)) as [pending'|] eqn:Hc; [|done].
  apply push_children_spec in Hc as [-> _]. intros Hrun y x le Hy Hl Hin.
  apply elem_of_app in Hy as [Hy| ->%list_elem_of_singleton].
  - apply (IH _ Hrun y x); [apply elem_of_app; by left|done|done].
  - apply rtc_inv in Hl as [<-|(c & Hc & Hl)].
    + destruct (unsettled retain le.2) eqn:Hu; [|done]. assert (existsb (fun le => unsettled retain le.2) (entries_of w r) = true); [|congruence].
      apply existsb_exists. exists le. split; [by apply list_elem_of_In|done].
    + apply (IH _ Hrun c x); [apply elem_of_app; by right|done|done].
Qed.
Lemma tree_loop_walk w start fuel ordered pending :
  tree_ok w -> walk w start ordered pending -> start ∈ ordered ++ pending -> length (w_registries w) < fuel + length ordered ->
  exists rs, tree_loop w fuel ordered pending = Some rs /\ walk w start rs [] /\ start ∈ rs /\ exists tail, rs = ordered ++ pending ++ tail.
Proof.
  intros Hok. revert ordered pending. induction fuel as [|fuel IH]; intros ordered pending Hw Hs Hf; cbn [tree_loop].
  - pose proof (walk_bound _ _ _ _ Hw). lia.
  - destruct pending as [|r rest].
    + exists ordered. split; [done|]. split; [done|]. rewrite app_nil_r in Hs. split; [done|]. exists []. by rewrite app_nil_r.
    + destruct (IH (ordered ++ [r]) (rest ++ child_list w r)) as (rs & E & Hrs & Hin & tail & ->).
      * by apply (walk_step w start ordered (r :: rest) r rest).
      * rewrite <- app_assoc. cbn [app]. rewrite elem_of_app, elem_of_cons, elem_of_app in *. tauto.
      * rewrite length_app. simpl. lia.
      * exists ((ordered ++ [r]) ++ (rest ++ child_list w r) ++ tail). split; [done|]. split; [done|]. split; [done|].
        exists (child_list w r ++ tail). by rewrite <- !app_assoc.
Qed.
(** The root of a registry has no parent and is found within the fuel. *)
Lemma root_loop_spec w fuel r : tree_ok w -> r < fuel ->
  parent_of w (root_loop w fuel r) = None /\ root_loop w fuel r <= r.
Proof.
  intros Hok. revert r. induction fuel as [|fuel IH]; intros r Hr; [lia|]. cbn [root_loop].
  destruct (rg_owner (registry_at w r)) as [o|] eqn:Ho; [|unfold parent_of, owner_of; rewrite Ho; split; [done|lia]].
  destruct (ow_parent o) as [p|] eqn:Hp; [|unfold parent_of, owner_of; rewrite Ho; simpl; split; [done|lia]].
  assert (p < r) by (apply (tr_older _ Hok); unfold parent_of, owner_of; by rewrite Ho).
  destruct (IH p ltac:(lia)) as [H1 H2]. split; [done|lia].
Qed.

(** *** Releasing links *)
Definition live_entry (e : TaskEntry) : Prop := terminal (state_of e) = false \/ te_finalizer_detached (te_progress e) = true.
Lemma live_unsettled retain e : live_entry e -> unsettled retain e = true.
Proof. unfold unsettled. intros [-> | ->]; [done|]. by rewrite orb_true_r. Qed.

(** Owners and links stay. *)
Definition steady (w w' : World) : Prop :=
  length (w_registries w) <= length (w_registries w') /\
  forall x, rg_owner (registry_at w' x) = rg_owner (registry_at w x) /\
    rg_child_registries (registry_at w' x) = rg_child_registries (registry_at w x).
(** Links and tasks may go, but no link above a live job. *)
Record releases (w w' : World) : Prop := {
  re_length : length (w_registries w') = length (w_registries w);
  re_entries : w_entries w' = w_entries w;
  re_owner : forall x, rg_owner (registry_at w' x) = rg_owner (registry_at w x);
  re_children : forall x, sublist (rg_child_registries (registry_at w' x)) (rg_child_registries (registry_at w x));
  re_tasks : forall x, sublist (tasks w' x) (tasks w x);
  re_live : forall a x le, linked w a x -> le ∈ entries_of w' x -> live_entry le.2 -> linked w' a x
}.
Lemma steady_linked w w' a x : steady w w' -> linked w a x -> linked w' a x.
Proof.
  intros [_ Hs] Hl. induction Hl as [|a b c Hab _ IH]; [constructor|]. econstructor; [|exact IH].
  unfold edge, child_list in *. by rewrite (proj2 (Hs a)).
Qed.
Lemma releases_refl w : releases w w.
Proof. constructor; done. Qed.
Lemma entries_of_sublist w w' x le :
  w_entries w' = w_entries w -> sublist (tasks w' x) (tasks w x) -> le ∈ entries_of w' x -> le ∈ entries_of w x.
Proof.
  intros He Hs. unfold entries_of. rewrite He, !list_elem_of_omap. intros (kv & Hin & E). exists kv. split; [by eapply elem_of_sublist|done].
Qed.
Lemma releases_trans w1 w2 w3 : releases w1 w2 -> releases w2 w3 -> releases w1 w3.
Proof.
  intros [A1 A2 A3 A4 A5 A6] [B1 B2 B3 B4 B5 B6]. constructor; try congruence.
  - intros x. etrans; [apply B4|apply A4].
  - intros x. etrans; [apply B5|apply A5].
  - intros a x le Hl Hin Hlive. eapply B6; [|done..]. eapply A6; [done| |done]. by eapply entries_of_sublist.
Qed.
(** A write to a registry that keeps its owner and its links. *)
Lemma write_releases r f w :
  (forall g, rg_owner (f g) = rg_owner g) -> (forall g, rg_child_registries (f g) = rg_child_registries g) ->
  (forall g, sublist (rg_tasks (f g)) (rg_tasks g)) -> releases w (write_registry r f w).
Proof.
  intros H1 H2 H3. assert (Hc : forall x, rg_child_registries (registry_at (write_registry r f w) x) = rg_child_registries (registry_at w x))
    by (intros x; by apply (write_registry_proj rg_child_registries)).
  constructor.
  - simpl. by rewrite length_alter.
  - done.
  - intros x. by apply (write_registry_proj rg_owner).
  - intros x. by rewrite Hc.
  - intros x. unfold tasks. destruct (decide (r = x)) as [<-|Hne]; [|by rewrite write_registry_other].
    destruct (decide (r < length (w_registries w))); [by rewrite write_registry_same|].
    unfold registry_at. simpl. by rewrite !lookup_ge_None_2 by (rewrite ?length_alter; lia).
  - intros a x le Hl _ _. induction Hl as [|a b c Hab _ IH]; [constructor|]. econstructor; [|exact IH]. unfold edge, child_list. by rewrite Hc.
Qed.
Lemma prune_link_releases w r o p : tree_ok w -> releases w (prune_link w r o p).
Proof.
  intros Hok. unfold prune_link. split_if Hc; [|apply releases_refl]. rewrite !andb_true_iff in Hc. destruct Hc as [[[_ _] Hu] Hl].
  apply bool_decide_eq_true in Hu, Hl. set (w' := write_registry p _ w).
  assert (Hch : forall x, rg_child_registries (registry_at w' x) =
    if decide (p = x) then assoc_del (ow_job_id o) (rg_child_registries (registry_at w x)) else rg_child_registries (registry_at w x)).
  { intros x. case_decide as Hx; [subst x|unfold w'; by rewrite write_registry_other].
    destruct (decide (p < length (w_registries w))); [unfold w'; by rewrite write_registry_same|].
    unfold registry_at, w'. simpl. by rewrite !lookup_ge_None_2 by (rewrite ?length_alter; lia). }
  constructor.
  - unfold w'. simpl. by rewrite length_alter.
  - done.
  - intros x. by apply (write_registry_proj rg_owner).
  - intros x. rewrite Hch. case_decide; [apply sublist_filter|done].
  - intros x. unfold tasks, w'. by rewrite (write_registry_proj rg_tasks).
  - intros a x le Hlk Hin Hlive. assert (Hen : le ∈ entries_of w x).
    { apply (entries_of_sublist w w'); [done| |done]. unfold tasks, w'. by rewrite (write_registry_proj rg_tasks). }
    assert (Hno : ~ linked w r x).
    { intros Hr. assert (unsettled (negb (rg_owner_entry_retired (registry_at w r))) le.2 = false) as Hf; [|by rewrite (live_unsettled _ _ Hlive) in Hf].
      by eapply (unsettled_loop_false _ _ _ _ Hu r x); [apply list_elem_of_singleton| |]. }
    induction Hlk as [|a b c Hab Hbc IH]; [constructor|]. econstructor; [|by apply IH].
    unfold edge, child_list in *. rewrite Hch. case_decide as Hpa; [subst a|done].
    apply list_elem_of_fmap in Hab as ([k b'] & -> & Hkb). apply list_elem_of_fmap. exists (k, b'). split; [done|].
    apply list_elem_of_filter. split; [|done]. cbn [fst snd] in *. intros ->.
    apply (assoc_elem_get _ _ _ (tr_keys _ Hok p)) in Hkb. rewrite Hl in Hkb. injection Hkb as <-. by apply Hno.
Qed.
Lemma releases_tree w w' : releases w w' -> tree_ok w -> tree_ok w'.
Proof.
  intros [R1 R2 R3 R4 _ _] [T1 T2 T3]. split.
  - intros p k c Hin. unfold owner_of. rewrite R1, R3. apply T1. by eapply elem_of_sublist.
  - intros p. apply (sublist_NoDup _ ((rg_child_registries (registry_at w p)).*1)); [apply T2|by apply sublist_map].
  - intros p c. unfold parent_of, owner_of. rewrite R3. apply T3.
Qed.
Lemma steady_tree w w' : steady w w' -> tree_ok w -> tree_ok w'.
Proof.
  intros [S1 S2] [T1 T2 T3]. split.
  - intros p k c. rewrite (proj2 (S2 p)). intros Hin. unfold owner_of. rewrite (proj1 (S2 c)). destruct (T1 p k c Hin) as (Hlt & Ho).
    split; [lia|done].
  - intros p. by rewrite (proj2 (S2 p)).
  - intros p c. unfold parent_of, owner_of. rewrite (proj1 (S2 c)). apply T3.
Qed.
Lemma prune_releases r w : tree_ok w -> releases w (prune_completed_owner r w).
Proof.
  unfold prune_completed_owner. generalize (tree_fuel w). intros fuel. revert r w.
  induction fuel as [|fuel IH]; intros r w Hok; cbn [prune_loop]; [apply releases_refl|].
  destruct (rg_owner _) as [o|]; [|apply releases_refl]. destruct (ow_parent o) as [p|]; [|apply releases_refl].
  pose proof (prune_link_releases w r o p Hok) as H1. eapply releases_trans; [exact H1|]. apply IH. by eapply releases_tree.
Qed.
Lemma remove_releases r id w : tree_ok w -> releases w (remove_task r id w).1.
Proof.
  intros Hok. unfold remove_task. cbn [fst]. set (w1 := write_registry r _ w).
  assert (H1 : releases w w1) by (apply write_releases; [done|done|intros g; apply sublist_filter]).
  pose proof (releases_tree _ _ H1 Hok) as Hok1. match goal with |- releases w (prune_completed_owner r ?x) => set (w2 := x) end.
  assert (H2 : releases w1 w2).
  { unfold w2. destruct (assoc_get _ _) as [c|]; [|apply releases_refl].
    destruct (get w r id); [|by apply prune_releases].
    assert (H3 : releases w1 (write_registry c (set_owner_entry_retired true) w1)) by (by apply write_releases).
    eapply releases_trans; [exact H3|]. apply prune_releases. by eapply releases_tree. }
  eapply releases_trans; [exact H1|]. eapply releases_trans; [exact H2|]. apply prune_releases. by eapply releases_tree.
Qed.
Lemma evict_oldest_releases r limit ids w : tree_ok w -> releases w (evict_oldest r limit ids w).
Proof.
  revert w. induction ids as [|id ids IH]; intros w Hok; cbn [evict_oldest]; [apply releases_refl|]. destruct (_ <? _)%Z; [|apply releases_refl].
  pose proof (remove_releases r id w Hok) as H1. eapply releases_trans; [exact H1|]. apply IH. by eapply releases_tree.
Qed.
Lemma auto_evict_releases r w : tree_ok w -> releases w (auto_evict_completed r w).
Proof. unfold auto_evict_completed. destruct (_ <=? _)%Z; [intros; apply releases_refl|apply evict_oldest_releases]. Qed.
Lemma evict_completed_releases r age now w : tree_ok w -> releases w (evict_completed r age now w).1.
Proof.
  unfold evict_completed. match goal with |- context [foldl _ _ ?ls] => generalize ls end. generalize 0 at 1. intros k ls. revert k w.
  induction ls as [|x ls IH]; intros k w Hok; cbn [foldl fst snd]; [apply releases_refl|].
  pose proof (remove_releases r (id_of x.2) w Hok) as H1. destruct (remove_task r (id_of x.2) w) as [w1 o]. cbn [fst] in H1.
  eapply releases_trans; [exact H1|]. apply IH. by eapply releases_tree.
Qed.

(** *** Every operation *)
Section operations.
Context {env : ListenerEnv}.

(** First writes that keep the tree, then releases. *)
Definition tree_step (w w' : World) : Prop := exists w1, steady w w1 /\ (tree_ok w1 -> releases w1 w').
Definition treeish {A} (m : W A) : Prop := forall w, tree_step w (m w).1.
Lemma steady_refl w : steady w w.
Proof. by split. Qed.
Lemma steady_trans w1 w2 w3 : steady w1 w2 -> steady w2 w3 -> steady w1 w3.
Proof.
  intros [A1 A2] [B1 B2]. split; [lia|]. intros x. destruct (A2 x) as [E1 E2], (B2 x) as [F1 F2]. split; congruence.
Qed.
Lemma steady_same w w' : w_registries w' = w_registries w -> steady w w'.
Proof. intros E. unfold steady, registry_at. by rewrite E. Qed.
Lemma steady_write r f w :
  (forall g, rg_owner (f g) = rg_owner g) -> (forall g, rg_child_registries (f g) = rg_child_registries g) -> steady w (write_registry r f w).
Proof.
  intros H1 H2. split; [simpl; rewrite length_alter; lia|]. intros x.
  split; [by apply (write_registry_proj rg_owner)|by apply (write_registry_proj rg_child_registries)].
Qed.
Lemma steady_step w w' : steady w w' -> tree_step w w'.
Proof. intros H. exists w'. split; [done|]. intros _. apply releases_refl. Qed.
Lemma releases_step w w' : (tree_ok w -> releases w w') -> tree_step w w'.
Proof. intros H. exists w. split; [apply steady_refl|done]. Qed.
Lemma tree_step_after w w1 w' : steady w w1 -> tree_step w1 w' -> tree_step w w'.
Proof. intros H1 (w2 & H2 & H3). exists w2. split; [by eapply steady_trans|done]. Qed.
Lemma treeish_bind {A B} (m : W A) (k : A -> W B) :
  (forall w, steady w (m w).1) -> (forall a, treeish (k a)) -> treeish (se_bind m k).
Proof.
  intros Hm Hk w. unfold se_bind. specialize (Hm w). destruct (m w) as [w1 [a|e]]; cbn [fst] in *; [|by apply steady_step].
  eapply tree_step_after; [exact Hm|apply Hk].
Qed.
Lemma treeish_id {A} (o : outcome reg_error A) : treeish (se_lift o).
Proof. intros w. apply steady_step, steady_refl. Qed.
Lemma treeish_then {A} f (a : A) : (forall w, tree_step w (f w)) -> treeish (se_bind (modify f) (fun _ => se_ret a)).
Proof. intros H w. apply H. Qed.
Lemma prune_step r w : tree_step w (prune_completed_owner r w).
Proof. apply releases_step, prune_releases. Qed.
Lemma lookup_steady r id w : steady w (lookup_entry r id w).1.
Proof. unfold lookup_entry, se_bind, se_get. destruct (find_entry w r id); apply steady_refl. Qed.
Lemma notify_steady r l new now w : steady w (notify r l new now w).1.
Proof.
  apply steady_same. unfold notify, se_bind at 1, se_get. cbv beta iota. generalize (rg_listeners (registry_at w r)). intros qs. revert w.
  induction qs as [|q qs IH]; intros w; cbn [notify_all]; [done|]. unfold se_bind.
  pose proof (on_transition_registries q l new now w) as H. destruct (on_transition q l new now w) as [w1 [u|e]]; cbn [fst] in *; [|done].
  rewrite <- H. apply IH.
Qed.
Lemma write_steady l f w : steady w (write_entry l f w).
Proof. by apply steady_same. Qed.
Lemma write_notify_prune {A} l f r new now (k : unit -> W A) :
  (forall a, treeish (k a)) -> treeish (se_bind (modify (write_entry l f)) (fun _ => se_bind (notify r l new now) k)).
Proof.
  intros Hk. apply treeish_bind; [intros; apply write_steady|]. intros _. apply treeish_bind; [intros; apply notify_steady|done].
Qed.
#[local] Hint Resolve lookup_steady treeish_id prune_step steady_step steady_refl : gateway.
Lemma transition_treeish r id new res err now : treeish (transition r id new res err now).
Proof.
  unfold transition. apply treeish_bind; [auto with gateway|]. intros [l e]. destruct (terminal (state_of e)); [apply treeish_then; auto with gateway|].
  apply write_notify_prune. intros _. apply treeish_then. intros w. destruct (terminal new); auto with gateway.
Qed.
Lemma finalize_treeish r id new res err now : treeish (finalize_interrupted r id new res err now).
Proof.
  unfold finalize_interrupted. apply treeish_bind; [auto with gateway|]. intros [l e]. destruct (negb _); [apply treeish_id|].
  destruct (negb _); [apply treeish_id|]. apply write_notify_prune. intros _. apply treeish_then. auto with gateway.
Qed.
Lemma commit_treeish r id t c now : treeish (commit_parked_termination r id t c now).
Proof.
  unfold commit_parked_termination. apply treeish_bind; [auto with gateway|]. intros [l e]. cbv zeta. split_if Hk; [apply treeish_id|].
  clear Hk. destruct (te_task_result _); [|apply treeish_id]. destruct (te_admitted_task _); [|apply treeish_id].
  split_if Hg; [|apply treeish_id]. apply write_notify_prune. intros _. apply treeish_then. auto with gateway.
Qed.
Lemma restore_treeish final b r id res now : treeish (restore_committed final b r id res now).
Proof.
  unfold restore_committed. apply treeish_bind; [auto with gateway|]. intros [l e]. destruct (restorable _ _ _ _); [|apply treeish_id].
  apply write_notify_prune. intros _. apply treeish_id.
Qed.
Lemma store_steady r e w : steady w (store_entry r e w).
Proof.
  eapply steady_trans; [by apply (steady_same w (set_entries (w_entries w ++ [e]) w))|].
  apply steady_write; intros g; by destruct (te_original_task_id _).
Qed.
Lemma register_treeish r ty ag id orig md now : treeish (register r ty ag id orig md now).
Proof.
  intros w. rewrite register_cases. cbv zeta. destruct (negb _); [auto with gateway|]. destruct (bool_decide _); [auto with gateway|]. cbn [fst].
  apply (tree_step_after _ (after_draw w r id)); [unfold after_draw; destruct id; [apply steady_refl|by apply steady_write]|].
  eapply tree_step_after; [apply store_steady|]. apply releases_step, auto_evict_releases.
Qed.
Lemma claim_treeish r ty id orig ag md now : treeish (claim_resume_successor r ty id orig ag md now).
Proof.
  intros w. unfold claim_resume_successor. split_if H0; [auto with gateway|]. unfold se_bind, se_get. cbv beta iota.
  destruct (get w r id); [split_if H1; auto with gateway|]. pose proof (register_treeish r ty ag (Some id) (Some orig) md now w) as H.
  by destruct (register r ty ag (Some id) (Some orig) md now w) as [w1 [l|e]].
Qed.
Lemma admit_treeish r ty ag id orig md now : treeish (admit_task r ty ag id orig md now).
Proof.
  intros w. unfold admit_task, se_bind at 1, se_get. cbv beta iota zeta. split_if H0; [auto with gateway|]. destruct orig as [o|].
  - destruct (truthy_id id) as [i|]; [|auto with gateway]. pose proof (claim_treeish r ty i o ag md now w) as H. unfold catch, se_bind.
    by destruct (claim_resume_successor r ty i o ag md now w) as [w1 [l|[]]].
  - destruct (truthy_id id ≫= get w r) as [l|]; [auto with gateway|]. pose proof (register_treeish r ty ag id None md now w) as H.
    unfold se_bind. by destruct (register r ty ag id None md now w) as [w1 [l|e]].
Qed.
Lemma settle_registries r ns w : w_registries (settle_consumed r ns w).1 = w_registries w.
Proof.
  simpl. revert w. induction ns as [|n ns IH]; intros w; [done|]. simpl. rewrite IH. unfold settle_one.
  destruct (find_entry _ _ _) as [[l e]|]; [|done]. cbv zeta. by destruct (_ && _).
Qed.

Definition is_bind (op : reg_op) : Prop := match op with rn_bind _ _ => True | _ => False end.
Lemma run_reg_tree op w : ~ is_bind op -> tree_step w (run_reg op w).
Proof.
  destruct op; intros Hb; cbn [run_reg].
  - apply steady_step. split; [simpl; rewrite length_app; simpl; lia|]. intros x. unfold registry_at. simpl.
    destruct (decide (x < length (w_registries w))); [by rewrite lookup_app_l|]. rewrite lookup_app_r by lia.
    rewrite (lookup_ge_None_2 (w_registries w)) by lia. by destruct (x - length (w_registries w)) as [|[]].
  - by apply steady_step, steady_same.
  - apply steady_step. by apply steady_write.
  - by destruct Hb.
  - unfold complete_owner. eapply tree_step_after; [|apply prune_step]. by apply steady_write.
  - apply register_treeish.
  - apply admit_treeish.
  - apply releases_step. intros Hok. unfold discard_unstarted. destruct (find_entry _ _ _) as [[l e]|]; [|apply releases_refl].
    split_if H0; [|apply releases_refl]. cbn [fst]. pose proof (remove_releases r task_id w Hok) as Hr.
    destruct (te_original_task_id _); [|done]. split_if H1; [done|]. eapply releases_trans; [exact Hr|]. by apply write_releases.
  - unfold adopt_reconstructed, se_bind, se_get. cbv beta iota. destruct (get _ _ _); [auto with gateway|].
    split_if H0; [auto with gateway|]. cbn [modify se_ret fst]. apply steady_step. eapply steady_trans; [apply store_steady|].
    destruct (numeric_suffix _); [by apply steady_write|apply steady_refl].
  - apply transition_treeish.
  - apply finalize_treeish.
  - apply commit_treeish.
  - apply restore_treeish.
  - apply restore_treeish.
  - unfold interrupt. destruct (find_entry _ _ _) as [[l e]|]; [|auto with gateway]. cbv zeta. split_if H0; [|auto with gateway].
    apply steady_step, write_steady.
  - unfold kill. destruct (find_entry _ _ _) as [[l e]|]; [|auto with gateway]. cbv zeta. split_if H0; [auto with gateway|].
    apply steady_step, write_steady.
  - apply releases_step, evict_completed_releases.
  - unfold mark_result_content_read. destruct (find_entry _ _ _) as [[l e]|]; [|auto with gateway].
    destruct (te_envelope _); [|auto with gateway]. split_if H0; [|auto with gateway]. apply steady_step, write_steady.
  - unfold mark_notification_payload_retrieved. destruct (find_entry _ _ _) as [[l e]|]; [|auto with gateway]. cbv zeta.
    split_if H0; [|auto with gateway]. cbn [fst]. eapply tree_step_after; [apply write_steady|].
    apply releases_step. intros Hok. pose proof (auto_evict_releases r _ Hok) as H1. eapply releases_trans; [exact H1|].
    apply prune_releases. by eapply releases_tree.
  - unfold ack_delivered. destruct (w_queues w !! q) as [queue|]; [|auto with gateway]. destruct (drain_delivered _ _) as [q' ls]. cbn [fst].
    apply steady_step, steady_same. by rewrite settle_registries.
  - unfold consume_notifications. destruct (w_queues w !! q) as [queue|]; [|auto with gateway]. destruct (drain _ _) as [q' ls]. cbn [fst].
    apply steady_step, steady_same. by rewrite settle_registries.
  - apply steady_step, steady_same, push_new_registries.
  - unfold share_entry. destruct (entry_at w l) as [e|]; [|auto with gateway]. destruct (get w r (id_of e)); [auto with gateway|].
    apply steady_step. by apply steady_write.
  - apply steady_step, write_steady.
Qed.

Lemma bind_tree r o w : tree_ok w -> well_bound (rn_bind r o) w -> tree_ok (bind_owner r o w).1.
Proof.
  intros Hok [Hr Hf]. unfold bind_owner, se_bind, se_get. cbv beta iota. destruct (rg_owner (registry_at w r)) eqn:Ho; [done|].
  cbn [modify fst]. set (w1 := write_registry r (set_owner (Some o)) w).
  assert (Hch1 : forall x, rg_child_registries (registry_at w1 x) = rg_child_registries (registry_at w x))
    by (intros x; by apply (write_registry_proj rg_child_registries)).
  assert (Hlen : length (w_registries w1) = length (w_registries w)) by (unfold w1; simpl; by rewrite length_alter).
  assert (Hown : forall x, owner_of w1 x = if decide (r = x) then Some o else owner_of w x).
  { intros x. unfold owner_of, w1. case_decide as Hx; [subst; by rewrite write_registry_same|by rewrite write_registry_other]. }
  assert (Hold : forall p k c, (k, c) ∈ rg_child_registries (registry_at w p) -> r <> c).
  { intros p k c Hin ->. destruct (tr_child _ Hok _ _ _ Hin) as (_ & o' & Ho' & _). unfold owner_of in Ho'. congruence. }
  assert (Hok1 : forall w2, (forall x, rg_owner (registry_at w2 x) = rg_owner (registry_at w1 x)) -> length (w_registries w2) = length (w_registries w) ->
    (forall p, NoDup (rg_child_registries (registry_at w2 p)).*1) ->
    (forall p k c, (k, c) ∈ rg_child_registries (registry_at w2 p) ->
       (k, c) ∈ rg_child_registries (registry_at w p) \/ (c = r /\ k = ow_job_id o /\ ow_parent o = Some p)) -> tree_ok w2).
  { intros w2 E1 E2 Hk Hc. assert (Hown2 : forall x, owner_of w2 x = if decide (r = x) then Some o else owner_of w x)
      by (intros x; unfold owner_of at 1; rewrite E1; apply Hown). split; [|done|].
    - intros p k c Hin. rewrite E2, Hown2. destruct (Hc p k c Hin) as [Hin'|(-> & -> & Hp)].
      + rewrite decide_False by (by eapply Hold). by apply (tr_child _ Hok).
      + rewrite decide_True by done. split; [done|]. by exists o.
    - intros p c. unfold parent_of. rewrite Hown2. case_decide as Hx; [subst c; cbn; intros Hp; by apply (Hf p)|apply (tr_older _ Hok)]. }
  destruct (ow_parent o) as [p|] eqn:Hp; [|apply Hok1; [done|done|intros p; rewrite Hch1; apply (tr_keys _ Hok)|intros p k c; rewrite Hch1; by left]].
  destruct (Hf p eq_refl) as [Hlt Hnone]. set (w2 := write_registry p _ w1).
  assert (Hch2 : forall x, rg_child_registries (registry_at w2 x) =
    if decide (p = x) then rg_child_registries (registry_at w x) ++ [(ow_job_id o, r)] else rg_child_registries (registry_at w x)).
  { intros x. unfold w2. case_decide as Hx; [subst x|by rewrite write_registry_other, Hch1].
    rewrite write_registry_same by lia. cbn [rg_child_registries set_child_registries]. rewrite Hch1. by apply assoc_set_fresh. }
  apply Hok1.
  - intros x. by apply (write_registry_proj rg_owner).
  - unfold w2. simpl. rewrite length_alter. exact Hlen.
  - intros x. rewrite Hch2. case_decide as Hx; [subst x|apply (tr_keys _ Hok)]. rewrite fmap_app. apply NoDup_app.
    split; [apply (tr_keys _ Hok)|]. split; [|apply NoDup_singleton]. intros k Hk Hk'. apply list_elem_of_singleton in Hk'. cbn [fst] in Hk'. subst k.
    apply list_elem_of_fmap in Hk as ([k c] & Ek & Hin). cbn [fst] in Ek. apply (assoc_elem_get _ _ _ (tr_keys _ Hok p)) in Hin. congruence.
  - intros x k c. rewrite Hch2. case_decide as Hx; [subst x|by left]. rewrite elem_of_app, list_elem_of_singleton. intros [Hin|[= -> ->]]; [by left|by right].
Qed.
Lemma tree_step_tree w w' : tree_step w w' -> tree_ok w -> tree_ok w'.
Proof. intros (w1 & Hs & Hr) Hok. pose proof (steady_tree _ _ Hs Hok) as H1. by eapply releases_tree; [apply Hr|]. Qed.
Lemma run_reg_keeps_tree op w : well_bound op w -> tree_ok w -> tree_ok (run_reg op w).
Proof.
  intros Hf Hok. destruct op; try (eapply tree_step_tree; [apply run_reg_tree; by intros []|exact Hok]). by apply bind_tree.
Qed.
Lemma reachable_tree w : rtc good_step empty_world w -> tree_ok w.
Proof.
  intros Hr. apply (rtc_invariant good_step tree_ok empty_world); [|done|].
  - intros a b (op & _ & Hf & ->). by apply run_reg_keeps_tree.
  - split; intros p; unfold parent_of, owner_of, registry_at; simpl; [by intros k c H%elem_of_nil|constructor|done].
Qed.

(** *** The roster *)
Lemma tree_registries_spec w r : tree_ok w -> r < length (w_registries w) ->
  exists rs, tree_registries w r = Some rs /\ NoDup rs /\ head rs = Some (tree_root w r) /\
    forall x, x ∈ rs <-> linked w (tree_root w r) x.
Proof.
  intros Hok Hr. unfold tree_registries. destruct (root_loop_spec w (tree_fuel w) r Hok) as [_ Hle]; [unfold tree_fuel; lia|].
  fold (tree_root w r) in Hle. assert (Hroot : tree_root w r < length (w_registries w)) by lia.
  destruct (tree_loop_walk w (tree_root w r) (S (tree_fuel w)) [] [tree_root w r] Hok (walk_start _ _ Hroot)) as (rs & E & Hw & Hin & tail & ->).
  - by apply list_elem_of_singleton.
  - unfold tree_fuel. simpl. lia.
  - exists ([] ++ [tree_root w r] ++ tail). split; [done|]. split; [pose proof (wk_nodup _ _ _ _ Hw) as H; by rewrite app_nil_r in H|].
    split; [done|]. by apply walk_done.
Qed.
(** In every reachable state the walks over the registry tree end: the search
    for unsettled jobs, the collection of the registries and the way to the
    root, which has no parent; the roster then lists exactly the jobs of the
    registries linked below the root, and every such registry once. *)
Theorem roster_is_the_tree w r :
  rtc good_step empty_world w -> r < length (w_registries w) ->
  has_unsettled_jobs w r <> None /\ parent_of w (tree_root w r) = None /\
  exists rs, NoDup rs /\ head rs = Some (tree_root w r) /\ (forall x, x ∈ rs <-> linked w (tree_root w r) x) /\
    roster w r = rs ≫= jobs_of w.
Proof.
  intros Hreach Hr. apply reachable_tree in Hreach as Hok. split; [|split].
  - apply (unsettled_loop_ends w _ r _ [] [r] Hok); [by apply walk_start|]. unfold tree_fuel. simpl. lia.
  - apply root_loop_spec; [done|]. unfold tree_fuel. lia.
  - destruct (tree_registries_spec w r Hok Hr) as (rs & E & Hn & Hh & Hx). exists rs. unfold roster. rewrite E. done.
Qed.

Lemma same_root w w' r :
  tree_ok w -> (forall x, rg_owner (registry_at w' x) = rg_owner (registry_at w x)) ->
  length (w_registries w) <= length (w_registries w') -> r < length (w_registries w) -> tree_root w' r = tree_root w r.
Proof.
  intros Hok Hown Hlen Hr. unfold tree_root.
  assert (H : forall f f' x, x < f -> x < f' -> root_loop w' f x = root_loop w f' x); [|apply H; unfold tree_fuel; lia].
  induction f as [|f IH]; intros f' x Hf Hf'; [lia|]. destruct f' as [|f']; [lia|]. cbn [root_loop]. rewrite Hown.
  destruct (rg_owner (registry_at w x)) as [o|] eqn:Ho; [|done]. destruct (ow_parent o) as [p|] eqn:Hp; [|done].
  assert (p < x) by (apply (tr_older _ Hok); unfold parent_of, owner_of; by rewrite Ho). apply IH; lia.
Qed.
Lemma tree_step_facts w w' : tree_step w w' -> tree_ok w ->
  length (w_registries w) <= length (w_registries w') /\
  (forall r, r < length (w_registries w) -> tree_root w' r = tree_root w r) /\
  (forall x, rg_owner (registry_at w' x) = rg_owner (registry_at w x)) /\
  forall a x le, linked w a x -> le ∈ entries_of w' x -> live_entry le.2 -> linked w' a x.
Proof.
  intros (w1 & Hs & Hrel) Hok. pose proof (steady_tree _ _ Hs Hok) as Hok1. specialize (Hrel Hok1).
  assert (Hown : forall x, rg_owner (registry_at w' x) = rg_owner (registry_at w x)).
  { intros x. rewrite (re_owner _ _ Hrel). apply Hs. }
  assert (Hlen : length (w_registries w) <= length (w_registries w')) by (rewrite (re_length _ _ Hrel); apply Hs).
  split; [done|]. split; [|split; [done|]].
  - intros r Hr. by apply same_root.
  - intros a x le Hl Hin Hlive. eapply (re_live _ _ Hrel); [by eapply steady_linked|done..].
Qed.

(** A job that is still running, pending, parked, waiting or being finalized
    after an operation, and is still registered, stays on the roster: pruning
    finished owners never cuts off a live descendant. *)
Theorem live_jobs_stay_on_roster w op r j l e :
  rtc good_step empty_world w -> allowed op -> well_bound op w -> ~ is_bind op -> r < length (w_registries w) ->
  j ∈ roster w r -> jb_entry j = Some l ->
  (l, e) ∈ entries_of (run_reg op w) (jb_registry j) -> live_entry e ->
  j ∈ roster (run_reg op w) r.
Proof.
  intros Hreach Ha Hf Hb Hr Hj Hl He Hlive. apply reachable_tree in Hreach as Hok.
  pose proof (run_reg_tree op w Hb) as Hstep. pose proof (tree_step_tree _ _ Hstep Hok) as Hok'.
  destruct (tree_step_facts _ _ Hstep Hok) as (Hlen & Hroot & Hown & Hkeep).
  destruct (tree_registries_spec w r Hok Hr) as (rs & E & _ & _ & Hx). unfold roster in Hj. rewrite E in Hj.
  apply list_elem_of_bind in Hj as (x & Hjx & Hin). apply Hx in Hin.
  destruct (tree_registries_spec (run_reg op w) r Hok' ltac:(lia)) as (rs' & E' & _ & _ & Hx'). unfold roster. rewrite E'.
  apply list_elem_of_bind. exists x. unfold jobs_of in Hjx. apply elem_of_app in Hjx as [Hjx|Hjx].
  { destruct (rg_owner (registry_at w x)) as [o|]; [|by apply elem_of_nil in Hjx]. destruct (ow_parent o); [by apply elem_of_nil in Hjx|].
    apply list_elem_of_singleton in Hjx. by subst j. }
  apply list_elem_of_fmap in Hjx as ([l0 e0] & -> & Hin0). cbn [jb_entry jb_registry fst snd] in *. injection Hl as ->.
  split; [|apply Hx'; rewrite Hroot by done; by eapply (Hkeep _ _ (l, e))].
  apply elem_of_app. right. apply list_elem_of_fmap. exists (l, e). split; [|done]. cbn [fst snd]. rewrite Hown. f_equal.
  apply entries_of_elem in Hin0 as (_ & _ & He0). apply entries_of_elem in He as (_ & _ & He').
  destruct (run_reg_keeps op w Ha l e0 He0) as (e1 & He1 & M). unfold entry_at in He'. rewrite He' in He1. injection He1 as <-.
  unfold id_of. by rewrite (kp_identity _ _ M).
Qed.
End operations.

(** ** Concrete runs *)
Section examples.
Definition demo_job : RosterJob := mkJob (u "sub_0") 1 (Some 2) (Some (u "bg_0")).
Lemma roster_is_the_tree_witness :
  has_unsettled_jobs demo_live 1 <> None /\ tree_root demo_live 1 = 0 /\
  exists rs, NoDup rs /\ roster demo_live 1 = rs ≫= jobs_of demo_live.
Proof.
  destruct (roster_is_the_tree demo_live 1 (good_reach _ demo_live_good) ltac:(vm_compute; lia)) as (H1 & _ & rs & H2 & _ & _ & H3).
  split; [exact H1|]. split; [by vm_compute|]. exists rs. split; [exact H2|exact H3].
Defined.
(** The parent settles and is evicted while the job below it is pending. *)
Definition demo_evict : reg_op := rn_evict 0 0 100.
Lemma live_jobs_stay_on_roster_witness : get (run_reg demo_evict demo_world) 0 (u "bg_0") = None /\ demo_job ∈ roster (run_reg demo_evict demo_world) 0.
Proof.
  split; [by vm_compute|].
  destruct (entry_at demo_world 2) as [e|] eqn:He; [|by vm_compute in He].
  apply (live_jobs_stay_on_roster demo_world demo_evict 0 demo_job 2 e).
  - exact (good_reach _ demo_good).
  - exact I.
  - exact I.
  - exact (fun H => H).
  - vm_compute. lia.
  - apply list_elem_of_In. vm_compute. tauto.
  - reflexivity.
  - vm_compute in He. injection He as <-. apply list_elem_of_In. vm_compute. tauto.
  - vm_compute in He. injection He as <-. left. reflexivity.
Defined.
End examples.

End TaskTree.
