(* ===== verification/TaskDelivery.v ===== *)
(** * TaskDelivery: a task's result reaches its parent

    Joins [TaskRegistry] and [TaskNotifications]: a settlement tells the
    listeners of its registry, the listener of a runner pushes a notification on
    the runner's queue and records in the entry how it was taken, and the
    runner's acknowledgement marks the entry delivered. This file shows that the
    entry never claims more than the queue holds, and for which entries this can
    fail: those of which a settlement could not be turned into a notification,
    which [unannounced] collects along a run, with the entries that a fork puts
    into a second registry and those that become workflow tasks later. *)
From S2P Require Import Prelude Wire TaskNotifications TaskRegistry.
From Stdlib Require Import Sorted.
Import TaskNotifications TaskRegistry.

Module TaskDelivery.

(** The queue holds a notification of this settlement of the task. *)
Definition shows (queue : NotificationQueue) (id : str) (generation : Z) : Prop :=
  exists k n, k ∈ nq_queue queue /\ nq_objects queue !! k = Some n /\ tn_task_id n = id /\ tn_generation n = Some generation.
(** Nothing leaves the queue, and objects keep their task and generation. *)
Record grows (a b : NotificationQueue) : Prop := {
  gr_queue : forall k, k ∈ nq_queue a -> k ∈ nq_queue b;
  gr_objects : forall k n, nq_objects a !! k = Some n -> exists n', nq_objects b !! k = Some n' /\
    tn_task_id n' = tn_task_id n /\ tn_generation n' = tn_generation n
}.
Lemma same_grows a : grows a a.
Proof. split; [done|eauto]. Qed.
Lemma grow_grows a b c : grows a b -> grows b c -> grows a c.
Proof.
  intros [A1 A2] [B1 B2]. split; [auto|]. intros k n Hn. destruct (A2 k n Hn) as (n1 & H1 & E1 & F1).
  destruct (B2 k n1 H1) as (n2 & H2 & E2 & F2). exists n2. split; [done|]. split; congruence.
Qed.
Lemma shows_grows a b id g : grows a b -> shows a id g -> shows b id g.
Proof.
  intros [G1 G2] (k & n & Hk & Hn & E1 & E2). destruct (G2 k n Hn) as (n' & Hn' & F1 & F2).
  exists k, n'. repeat split; [auto|done|congruence|congruence].
Qed.

Section queues.
Context {env : NotifyEnv}.
Implicit Types (q : NotificationQueue).

Lemma allocate_grows n q : grows q (allocate n q).1.
Proof. split; [done|]. intros k m Hm. exists m. split; [by apply lookup_app_l_Some|done]. Qed.
Lemma write_grows f l q :
  (forall n, tn_task_id (f n) = tn_task_id n /\ tn_generation (f n) = tn_generation n) -> grows q (write_object f l q).
Proof.
  intros Hf. split; [done|]. intros k n Hn. simpl. destruct (decide (l = k)) as [->|Hne].
  - exists (f n). rewrite list_lookup_alter_eq, Hn. split; [done|apply Hf].
  - exists n. by rewrite list_lookup_alter_ne.
Qed.
Lemma enqueue_grows l q : grows q (enqueue l q) /\ l ∈ nq_queue (enqueue l q).
Proof.
  unfold enqueue. set (q1 := match token_of q l with Some _ => q | None => _ end).
  assert (H : grows q q1 /\ nq_queue q1 = nq_queue q).
  { unfold q1. destruct (token_of q l); [split; [apply same_grows|done]|]. split; [|done].
    pose proof (write_grows (with_token (Some (nq_next_token q))) l q ltac:(done)) as [H1 H2]. by split. }
  destruct H as [[H1 H2] Hq]. split; [|simpl; apply elem_of_app; right; by apply list_elem_of_singleton].
  split; [intros k Hk; simpl; apply elem_of_app; left; auto|done].
Qed.
(** Changing the other fields of the queue. *)
Lemma fields_grows q q' : nq_queue q' = nq_queue q -> nq_objects q' = nq_objects q -> grows q q'.
Proof. intros E1 E2. split; [by rewrite E1|]. rewrite E2. eauto. Qed.
Lemma record_overflow_grows n q : grows q (record_overflow n q).
Proof.
  unfold record_overflow. destruct (nq_overflow_marker q) as [m|].
  - assert (H : exists q1 d, (match nq_deferred_marker q with None => allocate (new_overflow_marker n []) q | Some d => (q, d) end) = (q1, d) /\ grows q q1).
    { destruct (nq_deferred_marker q) as [d|]; [exists q, d; split; [done|apply same_grows]|]. eexists _, _. split; [reflexivity|apply allocate_grows]. }
    destruct H as (q1 & d & E & H). rewrite E. eapply grow_grows; [exact H|].
    eapply grow_grows; [|apply write_grows; done]. by apply fields_grows.
  - cbn [allocate]. match goal with |- grows q (enqueue ?m ?x) => set (q2 := x) end.
    eapply grow_grows; [|apply enqueue_grows]. apply (grow_grows _ _ _ (allocate_grows (new_overflow_marker n (overflow_summary 1 [tn_task_id n])) q)).
    by apply fields_grows.
Qed.
Lemma push_bounded_grows n b q : grows q (push_bounded n b q).1 /\
  ((push_bounded n b q).2 = true -> b ∈ nq_queue (push_bounded n b q).1).
Proof.
  assert (Ha : forall q', grows q q' -> grows q (set_available true q')) by (intros q' [H1 H2]; by split).
  unfold push_bounded. destruct (nq_deferred_marker q); [split; [apply Ha, record_overflow_grows|done]|].
  destruct (_ <? _); [|split; [apply Ha, record_overflow_grows|done]]. destruct (enqueue_grows b q) as [H1 H2]. split; [by apply Ha|done].
Qed.
Lemma push_shows n q :
  let '(q1, l) := allocate n q in let '(q2, ok) := push l q1 in
  grows q q2 /\ (ok = true -> forall g, tn_generation n = Some g -> shows q2 (tn_task_id n) g).
Proof.
  cbn [allocate]. set (q1 := set_objects _ q). unfold push.
  assert (Hl : nq_objects q1 !! length (nq_objects q) = Some n) by (by apply list_lookup_middle). rewrite Hl.
  assert (Hb : exists q2 b nb, bounded_object (length (nq_objects q)) n q1 = (q2, b) /\ grows q1 q2 /\ nq_objects q2 !! b = Some nb /\
    tn_task_id nb = tn_task_id n /\ tn_generation nb = tn_generation n).
  { unfold bounded_object. destruct (bounded_marker n) as [m|] eqn:Em.
    - assert (Hm : exists r, m = omission_marker n r None None None) by (unfold bounded_marker in Em; repeat case_match; simplify_eq; eauto).
      destruct Hm as [r ->]. eexists _, _, _. split; [reflexivity|]. split; [apply allocate_grows|]. split; [by apply list_lookup_middle|done].
    - exists q1, (length (nq_objects q)), n. split; [done|]. split; [apply same_grows|done]. }
  destruct Hb as (q2 & b & nb & -> & Hg & Hnb & Eid & Eg). destruct (push_bounded_grows n b q2) as [H1 H2].
  destruct (push_bounded n b q2) as [q3 ok]. cbn [fst snd] in *.
  split; [apply (grow_grows q q1); [apply (allocate_grows n q)|by eapply grow_grows]|]. intros Hok g Hgen. specialize (H2 Hok).
  destruct (gr_objects _ _ H1 b nb Hnb) as (n' & Hn' & F1 & F2). exists b, n'. repeat split; [done|done|congruence|congruence].
Qed.
(** Removing: what was shown is still shown or is among what was removed. *)
Lemma removal_shows q removed rest id g :
  (forall k, k ∈ nq_queue q -> k ∈ removed \/ k ∈ rest) ->
  let q' := clear_if_empty (rotate_overflow_marker removed (set_queue rest q)) in
  shows q id g -> shows q' id g \/ exists n, n ∈ objects_at q' removed /\ tn_task_id n = id /\ tn_generation n = Some g.
Proof.
  intros Hsplit q' (k & n & Hk & Hn & Eid & Eg).
  assert (Hgr : grows (set_queue rest q) q').
  { unfold q'. assert (Hc : forall x, grows x (clear_if_empty x)) by (intros x; unfold clear_if_empty; destruct (nq_queue x) eqn:E; [apply fields_grows; done|apply same_grows]).
    eapply grow_grows; [|apply Hc]. unfold rotate_overflow_marker. destruct (nq_overflow_marker _) as [m|]; [|apply same_grows].
    destruct (bool_decide _); [|apply same_grows]. destruct (nq_deferred_marker _) as [d|]; [|by apply fields_grows].
    eapply grow_grows; [|apply enqueue_grows]. by apply fields_grows. }
  destruct (gr_objects _ _ Hgr k n Hn) as (n' & Hn' & F1 & F2). destruct (Hsplit k Hk) as [Hr|Hr].
  - right. exists n'. split; [|split; congruence]. apply list_elem_of_omap. by exists k.
  - left. exists k, n'. repeat split; [by apply (gr_queue _ _ Hgr)|done|congruence|congruence].
Qed.
Lemma drain_shows k q id g : shows q id g ->
  let '(q', removed) := drain k q in
  shows q' id g \/ exists n, n ∈ objects_at q' removed /\ tn_task_id n = id /\ tn_generation n = Some g.
Proof.
  intros Hs. unfold drain. apply removal_shows; [|done]. intros x. rewrite <- (take_drop (slice_at k (nq_queue q)) (nq_queue q)) at 1.
  by rewrite elem_of_app.
Qed.
Lemma drain_delivered_shows ds q id g : shows q id g ->
  let '(q', removed) := drain_delivered ds q in
  shows q' id g \/ exists n, n ∈ objects_at q' removed /\ tn_task_id n = id /\ tn_generation n = Some g.
Proof.
  intros Hs. unfold drain_delivered. destruct ds as [|d ds]; [by left|]. apply removal_shows; [|done].
  intros x Hx. rewrite !list_elem_of_filter. destruct (decide (x ∈ d :: ds)); tauto.
Qed.
End queues.

Section delivery.
Context {env : ListenerEnv}.

Definition silent (e : TaskEntry) : bool := workflow_owned e || bool_decide (te_task_type (te_identity e) = u "pipeline_stage").
Definition gen_of (e : TaskEntry) : Z := te_generation (te_progress e).
(** A listener of the registry holds the notification of the entry's latest
    settlement in its queue. *)
Definition announced (w : World) (r : nat) (e : TaskEntry) : Prop :=
  exists q queue, q ∈ rg_listeners (registry_at w r) /\ w_queues w !! q = Some queue /\ shows queue (id_of e) (gen_of e).
(** Entries outside [X] are in one registry; when queued, they are announced. *)
Context (X : gset nat).
Record delivery_ok (w : World) : Prop := {
  dl_excl : forall r r' k k' l, l ∉ X -> (k, l) ∈ tasks w r -> (k', l) ∈ tasks w r' -> r = r';
  dl_silent : forall l e, l ∉ X -> entry_at w l = Some e -> silent e = true -> delivery_of e <> queued;
  dl_queued : forall r k l e, l ∉ X -> (k, l) ∈ tasks w r -> entry_at w l = Some e -> delivery_of e = queued -> announced w r e
}.

(** *** Steps that do not settle a task *)
Definition queues_grow (w w' : World) : Prop :=
  forall q queue, w_queues w !! q = Some queue -> exists queue', w_queues w' !! q = Some queue' /\ grows queue queue'.
Definition listeners_grow (w w' : World) : Prop :=
  forall r q, q ∈ rg_listeners (registry_at w r) -> q ∈ rg_listeners (registry_at w' r).
Record carries (w w' : World) : Prop := {
  ca_tasks : exists r0, forall r k l, l ∉ X -> (k, l) ∈ tasks w' r -> (k, l) ∈ tasks w r \/ (l = length (w_entries w) /\ r = r0);
  ca_listeners : listeners_grow w w';
  ca_queues : queues_grow w w';
  ca_entries : forall l e', l ∉ X -> entry_at w' l = Some e' ->
    (exists e, entry_at w l = Some e /\ id_of e' = id_of e /\ silent e' = silent e /\
       (delivery_of e' = queued -> delivery_of e = queued /\ gen_of e' = gen_of e)) \/
    (length (w_entries w) <= l /\ delivery_of e' <> queued)
}.
Lemma queues_grow_refl w w' : w_queues w' = w_queues w -> queues_grow w w'.
Proof. intros E q queue Hq. exists queue. rewrite E. split; [done|apply same_grows]. Qed.
Lemma announced_grows w w' r e e' :
  queues_grow w w' -> listeners_grow w w' -> id_of e' = id_of e -> gen_of e' = gen_of e -> announced w r e -> announced w' r e'.
Proof.
  intros Hq Hl E1 E2 (q & queue & Hin & Hlk & Hs). destruct (Hq q queue Hlk) as (queue' & Hlk' & Hg).
  exists q, queue'. split; [by apply Hl|]. split; [done|]. rewrite E1, E2. by eapply shows_grows.
Qed.
Lemma carries_ok w w' : dict_ok w -> carries w w' -> delivery_ok w -> delivery_ok w'.
Proof.
  intros Hd [[r0 Ht] Hl Hq He] [D1 D2 D3].
  assert (Hold : forall r k l, (k, l) ∈ tasks w r -> l < length (w_entries w)).
  { intros r k l Hin. destruct (di_entries _ Hd r k l Hin) as (e & Hlk & _). by eapply lookup_lt_Some. }
  split.
  - intros r r' k k' l Hx H1 H2. destruct (Ht r k l Hx H1) as [H1'|[E1 F1]], (Ht r' k' l Hx H2) as [H2'|[E2 F2]]; try congruence.
    + by eapply D1.
    + apply Hold in H1'. lia.
    + apply Hold in H2'. lia.
  - intros l e' Hx Hlk Hs Hqd. destruct (He l e' Hx Hlk) as [(e & Hlk0 & Eid & Es & Hdel)|[_ Hno]]; [|done].
    destruct (Hdel Hqd) as [Hq0 _]. apply (D2 l e Hx Hlk0); [congruence|done].
  - intros r k l e' Hx Hin Hlk Hqd. destruct (He l e' Hx Hlk) as [(e & Hlk0 & Eid & Es & Hdel)|[_ Hno]]; [|done].
    destruct (Hdel Hqd) as [Hq0 Hg]. apply (announced_grows w w' r e e'); [done|done|done|done|].
    destruct (Ht r k l Hx Hin) as [Hin'|[-> _]]; [by eapply D3|]. apply lookup_lt_Some in Hlk0. lia.
Qed.

(** Steps that only drop tasks and links. *)
Record quiet (w w' : World) : Prop := {
  qu_tasks : forall r, sublist (tasks w' r) (tasks w r);
  qu_listeners : forall r, rg_listeners (registry_at w' r) = rg_listeners (registry_at w r);
  qu_queues : w_queues w' = w_queues w;
  qu_entries : w_entries w' = w_entries w
}.
Lemma quiet_trans w1 w2 w3 : quiet w1 w2 -> quiet w2 w3 -> quiet w1 w3.
Proof.
  intros [A1 A2 A3 A4] [B1 B2 B3 B4]. split; [|intros r; by rewrite B2|congruence|congruence]. intros r. etrans; [apply B1|apply A1].
Qed.
Lemma quiet_refl w : quiet w w.
Proof. done. Qed.
Lemma quiet_ok w w' : quiet w w' -> delivery_ok w -> delivery_ok w'.
Proof.
  intros [Q1 Q2 Q3 Q4] [D1 D2 D3]. split.
  - intros r r' k k' l Hx H1 H2. apply (D1 r r' k k' l Hx); (eapply elem_of_sublist; [eassumption|apply Q1]).
  - unfold entry_at. rewrite Q4. exact D2.
  - intros r k l e Hx Hin Hlk Hq. unfold entry_at in Hlk. rewrite Q4 in Hlk.
    apply (announced_grows w w' r e e); [by apply queues_grow_refl|intros r' q; by rewrite Q2|done|done|].
    apply (D3 r k l e Hx); [eapply elem_of_sublist; [exact Hin|apply Q1]|done..].
Qed.
Lemma carries_quiet w w1 w' : carries w w1 -> quiet w1 w' -> carries w w'.
Proof.
  intros [[r0 C1] C2 C3 C4] [Q1 Q2 Q3 Q4]. split.
  - exists r0. intros r k l Hx Hin. apply C1; [done|]. eapply elem_of_sublist; [exact Hin|apply Q1].
  - intros r q Hq. rewrite Q2. by apply C2.
  - intros q queue Hq. rewrite Q3. by apply C3.
  - unfold entry_at. rewrite Q4. exact C4.
Qed.
Lemma prune_queues r w : w_queues (prune_completed_owner r w) = w_queues w.
Proof.
  unfold prune_completed_owner. generalize (tree_fuel w). intros fuel. revert r w.
  induction fuel as [|fuel IH]; intros r w; cbn [prune_loop]; [done|]. destruct (rg_owner _) as [o|]; [|done]. destruct (ow_parent o) as [p|]; [|done].
  rewrite IH. unfold prune_link. by destruct (_ && _).
Qed.
Lemma remove_queues r id w : w_queues (remove_task r id w).1 = w_queues w.
Proof.
  unfold remove_task. cbn [fst]. rewrite prune_queues. destruct (assoc_get _ _); [|done]. rewrite prune_queues. by destruct (get w r id).
Qed.
Lemma prune_quiet r w : quiet w (prune_completed_owner r w).
Proof.
  split; [intros r'; by rewrite prune_tasks|intros r'; by apply (prune_proj rg_listeners)|apply prune_queues|apply prune_entries].
Qed.
Lemma remove_quiet r id w : quiet w (remove_task r id w).1.
Proof.
  split; [|intros r'; by apply (remove_proj rg_listeners)|apply remove_queues|apply remove_task_entries].
  intros r'. rewrite remove_task_tasks. case_decide as Hr; [subst; apply sublist_filter|done].
Qed.
Lemma evict_oldest_quiet r limit ids w : quiet w (evict_oldest r limit ids w).
Proof.
  revert w. induction ids as [|id ids IH]; intros w; cbn [evict_oldest]; [done|]. destruct (_ <? _)%Z; [|done].
  eapply quiet_trans; [apply remove_quiet|apply IH].
Qed.
Lemma auto_evict_quiet r w : quiet w (auto_evict_completed r w).
Proof. unfold auto_evict_completed. destruct (_ <=? _)%Z; [done|apply evict_oldest_quiet]. Qed.
Lemma evict_completed_quiet r age now w : quiet w (evict_completed r age now w).1.
Proof.
  unfold evict_completed. match goal with |- context [foldl _ _ ?ls] => generalize ls end. generalize 0 at 1. intros k ls. revert k w.
  induction ls as [|x ls IH]; intros k w; cbn [foldl fst snd]; [done|].
  pose proof (remove_quiet r (id_of x.2) w) as H1. destruct (remove_task r (id_of x.2) w) as [w1 o]. cbn [fst] in H1.
  eapply quiet_trans; [exact H1|apply IH].
Qed.

(** Entries written without touching delivery. *)
Lemma write_carries l f w :
  (forall p, te_generation (f p) = te_generation p) -> (forall p, te_delivery_state (f p) = queued -> te_delivery_state p = queued) ->
  (l ∉ X -> forall e, entry_at w l = Some e -> workflow_owned (on_progress f e) = workflow_owned e) -> carries w (write_entry l f w).
Proof.
  intros Hg Hd Hw. split; [exists 0; auto|by intros ?|by apply queues_grow_refl|]. intros k e' Hx Hk. left. unfold entry_at in *. simpl in Hk.
  destruct (decide (l = k)) as [<-|Hne]; [|rewrite list_lookup_alter_ne in Hk by done; exists e'; done].
  rewrite list_lookup_alter_eq in Hk. destruct (w_entries w !! l) as [e|] eqn:He; simplify_eq/=. exists e. split; [done|]. split; [done|].
  split; [unfold silent; by rewrite (Hw Hx e)|]. intros H. split; [by apply Hd|apply Hg].
Qed.
(** Registries written without touching tasks. *)
Lemma registries_carry w w' :
  w_entries w' = w_entries w -> w_queues w' = w_queues w -> (forall r, tasks w' r = tasks w r) -> listeners_grow w w' -> carries w w'.
Proof.
  intros E1 E2 E3 Hl. split; [exists 0; intros r k l _; rewrite E3; auto|done|by apply queues_grow_refl|].
  intros l e' _ Hlk. left. exists e'. unfold entry_at in *. rewrite E1 in Hlk. done.
Qed.
Lemma store_carries r e w w1 :
  w_entries w1 = w_entries w -> w_queues w1 = w_queues w -> (forall r, tasks w1 r = tasks w r) ->
  (forall r, rg_listeners (registry_at w1 r) = rg_listeners (registry_at w r)) ->
  delivery_of e <> queued -> carries w (store_entry r e w1).
Proof.
  intros E1 E2 E3 E4 Hd. split.
  - exists r. intros r' k l _. rewrite store_tasks. case_decide as Hr; [|rewrite E3; auto]. destruct Hr as [<- _]. rewrite E3, E1.
    intros [[_ ->]|Hin]%assoc_set_elem; [by right|by left].
  - intros r' q. unfold store_entry. rewrite (write_registry_proj rg_listeners); [|intros g; by destruct (te_original_task_id _)].
    intros Hq. change (q ∈ rg_listeners (registry_at w1 r')). by rewrite E4.
  - by apply queues_grow_refl.
  - intros l e' _ Hlk. unfold entry_at in *. simpl in Hlk. rewrite E1 in Hlk. apply lookup_app_Some in Hlk as [Hlk|[Hge Hlk]].
    + left. by exists e'.
    + right. split; [done|]. destruct (l - length (w_entries w)) as [|[]]; simplify_eq/=. done.
Qed.

(** *** Settlements *)
(** What telling the listeners of the entry at [l] touches: queues, and the
    delivery state of this entry. *)
Record spreads (l : nat) (w w' : World) : Prop := {
  sp_registries : w_registries w' = w_registries w;
  sp_queues : queues_grow w w';
  sp_others : forall k, k <> l -> entry_at w' k = entry_at w k
}.
(** The listeners of the queues [qs] have been told of the entry [e] at [l]. *)
Record told (qs : list nat) (l : nat) (e : TaskEntry) (d : delivery_state) (w w' : World) : Prop := {
  to_entry : entry_at w' l = Some (on_progress (set_delivery_state d) e);
  to_recorded : d = queued \/ retrieval_required d = true;
  to_queued : d = queued -> exists q queue, q ∈ qs /\ w_queues w' !! q = Some queue /\ shows queue (id_of e) (gen_of e)
}.
Lemma queues_grow_trans w1 w2 w3 : queues_grow w1 w2 -> queues_grow w2 w3 -> queues_grow w1 w3.
Proof.
  intros H1 H2 q queue Hq. destruct (H1 q queue Hq) as (q2 & Hq2 & G2). destruct (H2 q q2 Hq2) as (q3 & Hq3 & G3).
  exists q3. split; [done|by eapply grow_grows].
Qed.
Lemma push_new_grows n q w : queues_grow w (push_new n q w).1 /\
  ((push_new n q w).2 = true -> exists queue, w_queues (push_new n q w).1 !! q = Some queue /\
     forall g, tn_generation n = Some g -> shows queue (tn_task_id n) g).
Proof.
  unfold push_new. destruct (w_queues w !! q) as [queue|] eqn:Hq; [|split; [by apply queues_grow_refl|done]].
  pose proof (push_shows n queue) as Hp. destruct (allocate n queue) as [q1 l]. destruct (push l q1) as [q2 ok]. destruct Hp as [Hg Hs].
  cbn [fst snd w_queues set_queues]. pose proof (lookup_lt_Some _ _ _ Hq). split.
  - intros x queue' Hx. destruct (decide (q = x)) as [<-|Hne]; simpl.
    + rewrite list_lookup_insert_eq by done. simplify_eq. eauto.
    + rewrite list_lookup_insert_ne by done. exists queue'. split; [done|apply same_grows].
  - intros Hok. exists q2. rewrite list_lookup_insert_eq by done. split; [done|auto].
Qed.
Lemma spreads_refl l w : spreads l w w.
Proof. split; [done|by apply queues_grow_refl|done]. Qed.
Lemma spreads_trans l w1 w2 w3 : spreads l w1 w2 -> spreads l w2 w3 -> spreads l w1 w3.
Proof. intros [A1 A2 A3] [B1 B2 B3]. split; [congruence|by eapply queues_grow_trans|]. intros k Hk. by rewrite B3, A3. Qed.
Lemma pushed_told n q l e d ok w w' :
  entry_at w l = Some e -> push_new n q w = (w', ok) -> tn_task_id n = id_of e -> tn_generation n = Some (gen_of e) ->
  (d = queued -> ok = true) -> d = queued \/ retrieval_required d = true ->
  spreads l w (set_delivery d l w') /\ told [q] l e d w (set_delivery d l w').
Proof.
  intros He Hp Hid Hgen Hd Hrec. pose proof (push_new_grows n q w) as [Hg Hs]. pose proof (push_new_entries n q w) as Hent.
  pose proof (push_new_registries n q w) as Hreg. rewrite Hp in *. cbn [fst snd] in *. split; split.
  - done.
  - done.
  - intros k Hk. unfold entry_at. simpl. rewrite list_lookup_alter_ne by done. by rewrite Hent.
  - unfold entry_at. simpl. rewrite list_lookup_alter_eq, Hent. unfold entry_at in He. by rewrite He.
  - done.
  - intros Hq. destruct (Hs (Hd Hq)) as (queue & Hlk & Hsh). exists q, queue. split; [by apply list_elem_of_singleton|]. split; [done|].
    rewrite <- Hid. by apply Hsh.
Qed.
Definition heard (e : TaskEntry) (new : TaskState) : bool := negb (silent e) && in_states new notifying_states.
(** What telling the queues [qs] of an entry comes to: it is recorded, or it is
    nobody's business, or the notification could not be made. *)
Definition outcome_of (qs : list nat) (l : nat) (e : TaskEntry) (new : TaskState) (w : World) (r : World * outcome reg_error unit) : Prop :=
  spreads l w r.1 /\
  match r.2 with
  | Ret _ => if heard e new && negb (bool_decide (qs = [])) then exists d, told qs l e d w r.1 else r.1 = w
  | Raise err => err = MaterializationError
  end.
Lemma entry_notification_names e event summary p now :
  tn_task_id (entry_notification e event summary p now) = id_of e /\ tn_generation (entry_notification e event summary p now) = Some (gen_of e).
Proof. unfold entry_notification, new_notification. by destruct (snapshot _ _) as [[j x] r]. Qed.
Lemma on_transition_told q l new now e w : entry_at w l = Some e -> outcome_of [q] l e new w (on_transition q l new now w).
Proof.
  intros He. unfold on_transition, se_bind, se_get, heard, outcome_of. cbv beta iota. rewrite He. fold (silent e). unfold heard.
  destruct (silent e); [split; [apply spreads_refl|done]|]. destruct (in_states new notifying_states); [|split; [apply spreads_refl|done]].
  cbn [orb negb andb bool_decide]. destruct (te_envelope (te_progress e)) as [en|].
  - match goal with |- context [push_new ?n q w] => set (m := n) end. pose proof (entry_notification_names e (u "completed") (envelope_summary e en) (envelope_payload en) now) as [N1 N2].
    destruct (inline_payload m).2 as [reason|]; [split; [apply spreads_refl|done]|]. destruct (push_new m q w) as [w' ok] eqn:Hp.
    destruct (pushed_told m q l e (if ok then queued else queue_omitted) ok w w') as [H1 H2]; [done..|by destruct ok|destruct ok; [by left|by right]|].
    split; [exact H1|]. eexists. exact H2.
  - match goal with |- context [push_new ?n q w] => set (m := n) end.
    pose proof (entry_notification_names e (state_text new) (settlement_summary e new) (settlement_payload e new) now) as [N1 N2].
    destruct (push_new m q w) as [w' ok] eqn:Hp. match goal with |- context [set_delivery ?x l w'] => set (d := x) end.
    destruct (pushed_told m q l e d ok w w') as [H1 H2]; [done..| | |split; [exact H1|]; eexists; exact H2].
    + unfold d. by destruct ok.
    + unfold d. destruct ok; [|by right]. destruct (inline_payload m).2; [by right|by left].
Qed.
Lemma notify_told qs l new now e w : entry_at w l = Some e -> outcome_of qs l e new w (notify_all qs l new now w).
Proof.
  revert e w. induction qs as [|q qs IH]; intros e w He; [split; [apply spreads_refl|cbn; by rewrite andb_false_r]|]. cbn [notify_all].
  destruct (on_transition_told q l new now e w He) as [S1 H1]. unfold se_bind. destruct (on_transition q l new now w) as [w1 [[]|err]]; [|by split].
  cbn [fst snd] in *. cbn [negb] in H1. rewrite andb_true_r in H1. destruct (heard e new) eqn:Hh.
  - destruct H1 as [d T1]. destruct (IH _ w1 (to_entry _ _ _ _ _ _ T1)) as [S2 H2]. split; [by eapply spreads_trans|]. rewrite Hh.
    destruct (notify_all qs l new now w1) as [w2 [[]|err]]; [|done]. cbn [fst snd andb negb bool_decide] in *.
    change (heard (on_progress (set_delivery_state d) e) new) with (heard e new) in H2. rewrite Hh in H2. cbn [andb] in H2.
    destruct (bool_decide (qs = [])) eqn:Hq; cbn [negb] in H2; [subst w2|destruct H2 as [d' [B1 B2 B3]]].
    + exists d. destruct T1 as [A1 A2 A3]. split; [done..|]. intros Hd. destruct (A3 Hd) as (x & queue & ->%list_elem_of_singleton & H).
      exists q, queue. split; [by left|done].
    + exists d'. split; [done..|]. intros Hd. destruct (B3 Hd) as (x & queue & Hx & H). exists x, queue. split; [by right|done].
  - subst w1. destruct (IH e w He) as [S2 H2]. split; [done|]. rewrite Hh in *. exact H2.
Qed.

(** Writing an entry as a settlement does, then telling the listeners. *)
Lemma told_ok r id l f e new now w :
  delivery_ok w -> (id, l) ∈ tasks w r -> entry_at w l = Some e ->
  (forall p, te_delivery_state (f p) = te_delivery_state p /\ te_metadata (f p) = te_metadata p) ->
  (in_states new notifying_states = false -> forall p, te_generation (f p) = te_generation p) ->
  let res := notify r l new now (write_entry l f w) in
  match res.2 with Ret _ => delivery_ok res.1 | Raise err => err = MaterializationError /\ (l ∈ X -> delivery_ok res.1) end.
Proof.
  intros [D1 D2 D3] Hin He Hf Hgen. set (w1 := write_entry l f w). set (e1 := on_progress f e).
  assert (He1 : entry_at w1 l = Some e1) by (unfold entry_at, w1; simpl; rewrite list_lookup_alter_eq; unfold entry_at in He; by rewrite He).
  assert (Hoth : forall k, k <> l -> entry_at w1 k = entry_at w k) by (intros k Hk; unfold entry_at, w1; simpl; by rewrite list_lookup_alter_ne).
  unfold notify, se_bind, se_get. cbv beta iota. change (registry_at w1 r) with (registry_at w r).
  destruct (notify_told (rg_listeners (registry_at w r)) l new now e1 w1 He1) as [[S1 S2 S3] H].
  destruct (notify_all (rg_listeners (registry_at w r)) l new now w1) as [w' o]. cbn [fst snd] in *.
  assert (Ht : forall x, registry_at w' x = registry_at w x) by (intros x; unfold registry_at; by rewrite S1).
  assert (Hse : silent e1 = silent e) by (unfold silent, workflow_owned, e1; simpl; by rewrite (proj2 (Hf (te_progress e)))).
  assert (Hrest : (l ∉ X -> (forall e', entry_at w' l = Some e' -> silent e' = true -> delivery_of e' <> queued) /\
      forall e', entry_at w' l = Some e' -> delivery_of e' = queued -> announced w' r e') -> delivery_ok w').
  { intros Hl. split.
    - intros x y k k' m Hx. unfold tasks. rewrite !Ht. by apply D1.
    - intros m em Hx Hm. destruct (decide (m = l)) as [->|Hne]; [by apply (proj1 (Hl Hx))|]. rewrite S3, Hoth in Hm by done. by apply (D2 m).
    - intros x k m em Hx Hk Hm Hq. unfold tasks in Hk. rewrite Ht in Hk. destruct (decide (m = l)) as [->|Hne].
      + assert (x = r) as -> by by eapply (D1 x r k id l). by apply (proj2 (Hl Hx)).
      + rewrite S3, Hoth in Hm by done. apply (announced_grows w w' x em em); [exact S2|intros y q; by rewrite Ht|done|done|]. by eapply D3. }
  destruct o as [[]|err]; [|split; [done|]; intros Hx; apply Hrest; done]. apply Hrest. intros Hx. unfold heard in H. rewrite Hse in H.
  destruct (negb (silent e) && in_states new notifying_states && _) eqn:Hh.
  - destruct H as [d [T4 _ T5]]. rewrite !andb_true_iff, !negb_true_iff in Hh. destruct Hh as [[Hs _] _].
    split; intros e' Hm; rewrite T4 in Hm; injection Hm as <-.
    + change (silent e1 = true -> d <> queued). congruence.
    + intros Hq. destruct (T5 Hq) as (q & queue & Hqs & Hlk & Hsh). exists q, queue. by rewrite Ht.
  - subst w'. split; intros e' Hm; rewrite He1 in Hm; injection Hm as <-.
    + change (silent e1 = true -> te_delivery_state (f (te_progress e)) <> queued). rewrite (proj1 (Hf _)), Hse. exact (D2 l e Hx He).
    + change (te_delivery_state (f (te_progress e)) = queued -> announced w1 r e1). rewrite (proj1 (Hf _)). intros Hq.
      pose proof (D3 r id l e Hx Hin He Hq) as (q & queue & A1 & A2 & A3). rewrite !andb_false_iff in Hh. destruct Hh as [[Hs|Hn]|Hn].
      * apply negb_false_iff in Hs. by destruct (D2 l e Hx He Hs).
      * exists q, queue. split; [done|]. split; [done|]. unfold gen_of in *. simpl. by rewrite (Hgen Hn).
      * apply negb_false_iff, bool_decide_eq_true in Hn. rewrite Hn in A1. by apply elem_of_nil in A1.
Qed.
Lemma write_notify_ok {A} r id l f e new now (k : unit -> W A) w :
  delivery_ok w -> find_entry w r id = Some (l, e) ->
  (forall p, te_delivery_state (f p) = te_delivery_state p /\ te_metadata (f p) = te_metadata p) ->
  (in_states new notifying_states = false -> forall p, te_generation (f p) = te_generation p) ->
  (forall w', quiet w' (k tt w').1) ->
  let res := se_bind (modify (write_entry l f)) (fun _ => se_bind (notify r l new now) k) w in
  (res.2 = Raise MaterializationError -> l ∈ X) -> delivery_ok res.1.
Proof.
  intros Hok [Hg He]%find_entry_spec Hf Hgen Hk. apply assoc_get_elem in Hg.
  pose proof (told_ok r id l f e new now w Hok Hg He Hf Hgen) as H. unfold se_bind, modify in *.
  destruct (notify r l new now (write_entry l f w)) as [w' [[]|err]]; cbn [fst snd] in *.
  - intros _. by eapply quiet_ok.
  - destruct H as [-> H]. intros Hx. by apply H, Hx.
Qed.
(** The entry of which a settlement could not be announced. *)
Definition unannounced_at {A} (w : World) (r : nat) (id : str) (o : outcome reg_error A) : list nat :=
  match o, find_entry w r id with Raise MaterializationError, Some (l, _) => [l] | _, _ => [] end.
Lemma lookup_ok {A} r id (k : nat * TaskEntry -> W A) w :
  delivery_ok w ->
  (forall l e, find_entry w r id = Some (l, e) -> ((k (l, e) w).2 = Raise MaterializationError -> l ∈ X) -> delivery_ok (k (l, e) w).1) ->
  (forall l, l ∈ unannounced_at w r id (se_bind (lookup_entry r id) k w).2 -> l ∈ X) -> delivery_ok (se_bind (lookup_entry r id) k w).1.
Proof.
  intros Hok H. unfold lookup_entry, se_bind, se_get, unannounced_at. cbv beta iota. destruct (find_entry w r id) as [[l e]|] eqn:E; [|done].
  cbn [se_ret]. intros Hx. apply H; [done|]. intros Hr. apply Hx. rewrite Hr. by apply list_elem_of_singleton.
Qed.
Lemma transition_delivery r id new res err now w : delivery_ok w ->
  (forall l, l ∈ unannounced_at w r id (transition r id new res err now w).2 -> l ∈ X) -> delivery_ok (transition r id new res err now w).1.
Proof.
  intros Hok. apply lookup_ok; [done|]. intros l e He. destruct (terminal (state_of e)); [intros _; eapply quiet_ok; [apply prune_quiet|done]|].
  eapply write_notify_ok; [done|exact He| | |].
  - intros p. destruct res, err; simpl; by destruct (terminal new), (in_states new notifying_states).
  - intros -> p. destruct res, err; simpl; by destruct (terminal new).
  - intros w'. cbn [se_bind modify se_ret fst]. destruct (terminal new); [apply prune_quiet|apply quiet_refl].
Qed.
Lemma finalize_delivery r id new res err now w : delivery_ok w ->
  (forall l, l ∈ unannounced_at w r id (finalize_interrupted r id new res err now w).2 -> l ∈ X) -> delivery_ok (finalize_interrupted r id new res err now w).1.
Proof.
  intros Hok. apply lookup_ok; [done|]. intros l e He. destruct (negb _); [done|].
  destruct (in_states new [COMPLETED; FAILED; KILLED]) eqn:Hs; [|done]. cbn [negb].
  eapply write_notify_ok; [done|exact He|done| |intros w'; apply prune_quiet].
  intros Hn. destruct new; vm_compute in Hs, Hn; done.
Qed.
Lemma commit_delivery r id t c now w : delivery_ok w ->
  (forall l, l ∈ unannounced_at w r id (commit_parked_termination r id t c now w).2 -> l ∈ X) -> delivery_ok (commit_parked_termination r id t c now w).1.
Proof.
  intros Hok. apply lookup_ok; [done|]. intros l e He. cbv zeta. split_if Hk; [done|]. clear Hk.
  destruct (te_task_result (te_progress e)) as [parked|]; [|done]. destruct (te_admitted_task (te_progress e)) as [ad|]; [|done].
  split_if Hg; [|done]. eapply write_notify_ok; [done|exact He|done|done|intros w'; apply prune_quiet].
Qed.
Lemma restore_delivery final b r id res now w :
  (b = false -> in_states final notifying_states = false) -> (b = true -> in_states final notifying_states = true) -> delivery_ok w ->
  (forall l, l ∈ unannounced_at w r id (restore_committed final b r id res now w).2 -> l ∈ X) -> delivery_ok (restore_committed final b r id res now w).1.
Proof.
  intros Hb1 Hb2 Hok. apply lookup_ok; [done|]. intros l e He. split_if Hg; [|done].
  eapply write_notify_ok; [done|exact He|by destruct b| |intros w'; apply quiet_refl].
  intros Hn p. destruct b; [|done]. rewrite Hb2 in Hn by done. done.
Qed.

(** *** Acknowledgement *)
Record settles (r : nat) (ns : list TaskNotification) (w w' : World) : Prop := {
  se_registries : w_registries w' = w_registries w;
  se_queues : w_queues w' = w_queues w;
  se_entries : forall l e', entry_at w' l = Some e' -> exists e, entry_at w l = Some e /\ id_of e' = id_of e /\ silent e' = silent e /\
    gen_of e' = gen_of e /\ (delivery_of e' = queued -> delivery_of e = queued /\
      (get w r (id_of e) = Some l -> forall n, n ∈ ns -> tn_task_id n = id_of e -> tn_generation n <> Some (gen_of e)))
}.
Lemma settle_one_settles r n w : settles r [n] w (settle_one r w n).
Proof.
  unfold settle_one. destruct (find_entry w r (tn_task_id n)) as [[l e]|] eqn:Hf.
  - apply find_entry_spec in Hf as [Hg He]. cbv zeta. split_if Hc.
    + split; [done|done|]. intros k e' Hk. unfold entry_at in Hk. simpl in Hk. destruct (decide (l = k)) as [<-|Hne].
      * rewrite list_lookup_alter_eq in Hk. unfold entry_at in He. rewrite He in Hk. injection Hk as <-. exists e. done.
      * rewrite list_lookup_alter_ne in Hk by done. exists e'. repeat split; [done|done|]. intros Hg' m ->%list_elem_of_singleton Hm. congruence.
    + split; [done|done|]. intros k e' Hk. exists e'. repeat split; [done|done|]. intros Hg' m ->%list_elem_of_singleton Hm Hgen.
      rewrite <- Hm, Hg in Hg'. injection Hg' as ->. rewrite He in Hk. injection Hk as ->. unfold delivery_of, gen_of in *.
      rewrite andb_false_iff, !bool_decide_eq_false in Hc. naive_solver.
  - split; [done|done|]. intros k e' Hk. exists e'. repeat split; [done|done|]. intros Hg' m ->%list_elem_of_singleton Hm.
    unfold find_entry in Hf. rewrite Hm, Hg', Hk in Hf. done.
Qed.
Lemma settles_all r ns w : settles r ns w (settle_consumed r ns w).1.
Proof.
  simpl. revert w. induction ns as [|n ns IH]; intros w; cbn [foldl].
  - split; [done|done|]. intros k e' Hk. exists e'. repeat split; [done|done|]. intros _ m Hm%elem_of_nil. done.
  - destruct (settle_one_settles r n w) as [A1 A2 A3]. destruct (IH (settle_one r w n)) as [B1 B2 B3]. split; [congruence|congruence|].
    intros l e' Hl. destruct (B3 l e' Hl) as (e1 & H1 & I1 & L1 & G1 & Q1). destruct (A3 l e1 H1) as (e & H0 & I0 & L0 & G0 & Q0).
    exists e. split; [done|]. split; [congruence|]. split; [congruence|]. split; [congruence|]. intros Hq. destruct (Q1 Hq) as [Hq1 N1]. destruct (Q0 Hq1) as [Hq0 N0].
    split; [done|]. intros Hg m [->|Hm]%elem_of_cons Hid; [apply N0; [done|by apply list_elem_of_singleton|done]|].
    rewrite <- G0. apply N1; [|done|congruence]. rewrite I0. unfold get, tasks, registry_at in *. by rewrite A1.
Qed.
(** The only registry that tells the queue is the one that acknowledges. *)
Definition sole_listener (w : World) (r q : nat) : Prop := forall r', q ∈ rg_listeners (registry_at w r') -> r' = r.
Lemma acknowledge_ok r q queue queue' removed w :
  dict_ok w -> delivery_ok w -> sole_listener w r q -> w_queues w !! q = Some queue ->
  (forall id g, shows queue id g -> shows queue' id g \/ exists n, n ∈ objects_at queue' removed /\ tn_task_id n = id /\ tn_generation n = Some g) ->
  delivery_ok (settle_consumed r (objects_at queue' removed) (set_queues (<[q := queue']> (w_queues w)) w)).1.
Proof.
  intros Hd [D1 D2 D3] Hsole Hq Hsh. set (w1 := set_queues _ w). destruct (settles_all r (objects_at queue' removed) w1) as [S1 S2 S3].
  set (w' := (settle_consumed _ _ w1).1) in *.
  assert (Ht : forall x, registry_at w' x = registry_at w x) by (intros x; unfold registry_at; by rewrite S1).
  split.
  - intros x y k k' m Hx. unfold tasks. rewrite !Ht. by apply D1.
  - intros m e' Hx Hm Hs Hqd. destruct (S3 m e' Hm) as (e & H0 & I0 & L0 & _ & Q0). apply (D2 m e Hx H0); [congruence|by apply Q0].
  - intros x k m e' Hmx Hx Hm Hqd. unfold tasks in Hx. rewrite Ht in Hx. destruct (S3 m e' Hm) as (e & H0 & I0 & _ & G0 & Q0). destruct (Q0 Hqd) as [Hqe Hno].
    destruct (D3 x k m e Hmx Hx H0 Hqe) as (q0 & queue0 & L & Hlk & Hs). unfold announced. rewrite Ht, S2, G0, I0.
    destruct (decide (q = q0)) as [<-|Hne]; [|exists q0, queue0; by split; [|split; [simpl; rewrite list_lookup_insert_ne|]]].
    assert (x = r) as -> by by apply Hsole. rewrite Hq in Hlk. injection Hlk as <-. destruct (Hsh _ _ Hs) as [Hs'|(n & Hn & Hid & Hgen)].
    + exists q, queue'. split; [done|]. split; [|done]. simpl. apply list_lookup_insert_eq. by eapply lookup_lt_Some.
    + exfalso. apply (Hno) with n; [|done|done|done]. change (get w r (id_of e) = Some m). destruct (di_entries _ Hd _ _ _ Hx) as (e0 & He0 & <-).
      assert (e0 = e) as -> by (unfold w1, entry_at in *; simpl in *; congruence). apply assoc_elem_get; [apply (di_keys _ Hd)|done].
Qed.
Lemma ack_delivery r q ds w : dict_ok w -> delivery_ok w -> sole_listener w r q -> delivery_ok (ack_delivered r q ds w).1.
Proof.
  intros Hd Hok Hs. unfold ack_delivered. destruct (w_queues w !! q) as [queue|] eqn:Hq; [|done].
  pose proof (fun id g => drain_delivered_shows ds queue id g) as H. destruct (drain_delivered ds queue) as [queue' ls].
  by eapply acknowledge_ok.
Qed.
Lemma consume_delivery r q k w : dict_ok w -> delivery_ok w -> sole_listener w r q -> delivery_ok (consume_notifications r q k w).1.
Proof.
  intros Hd Hok Hs. unfold consume_notifications. destruct (w_queues w !! q) as [queue|] eqn:Hq; [|done].
  pose proof (fun id g => drain_shows k queue id g) as H. destruct (drain k queue) as [queue' ls]. by eapply acknowledge_ok.
Qed.

(** *** Every other operation *)
Lemma carries_refl w : carries w w.
Proof. apply registries_carry; [done..|by intros ?]. Qed.
Lemma registry_write_carries r f w :
  (forall g, rg_tasks (f g) = rg_tasks g) -> (forall g, rg_listeners g ⊆ rg_listeners (f g)) -> carries w (write_registry r f w).
Proof.
  intros Ht Hl. apply registries_carry; [done|done|intros x; by apply (write_registry_proj rg_tasks)|]. intros x q Hq.
  destruct (decide (r = x)) as [<-|Hne]; [|by rewrite write_registry_other]. destruct (decide (r < length (w_registries w))).
  - rewrite write_registry_same by done. by apply Hl.
  - unfold registry_at in *. rewrite lookup_ge_None_2 in Hq by lia. by apply elem_of_nil in Hq.
Qed.
Lemma register_carries r ty ag id orig md now w : carries w (register r ty ag id orig md now w).1.
Proof.
  rewrite register_cases. cbv zeta. destruct (negb _); [apply carries_refl|]. destruct (bool_decide _); [apply carries_refl|]. cbn [fst].
  eapply carries_quiet; [|apply auto_evict_quiet]. apply store_carries; [by destruct id|by destruct id|apply after_draw_tasks| |done].
  intros x. destruct id; [done|]. by apply (write_registry_proj rg_listeners).
Qed.
Lemma claim_carries r ty id orig ag md now w : carries w (claim_resume_successor r ty id orig ag md now w).1.
Proof.
  unfold claim_resume_successor. split_if H0; [apply carries_refl|]. unfold se_bind, se_get. cbv beta iota.
  destruct (get w r id) as [l|]; [split_if H1; apply carries_refl|].
  pose proof (register_carries r ty ag (Some id) (Some orig) md now w) as Hp. by destruct (register _ _ _ _ _ _ _ w) as [w1 [l|e]].
Qed.
Lemma admit_carries r ty ag id orig md now w : carries w (admit_task r ty ag id orig md now w).1.
Proof.
  unfold admit_task, se_bind at 1, se_get. cbv beta iota zeta. split_if H0; [apply carries_refl|]. destruct orig as [o|].
  - destruct (truthy_id id) as [i|]; [|apply carries_refl]. pose proof (claim_carries r ty i o ag md now w) as Hp. unfold catch, se_bind.
    destruct (claim_resume_successor r ty i o ag md now w) as [w1 [l|[]]]; exact Hp.
  - destruct (truthy_id id ≫= get w r) as [l|]; [apply carries_refl|].
    pose proof (register_carries r ty ag id None md now w) as Hp. unfold se_bind. by destruct (register _ _ _ _ _ _ _ w) as [w1 [l|e]].
Qed.
Lemma discard_carries r id l w : carries w (discard_unstarted r id l w).1.
Proof.
  unfold discard_unstarted. destruct (find_entry w r id) as [[k e]|]; [|apply carries_refl]. split_if Hc; [|apply carries_refl]. cbn [fst].
  pose proof (remove_quiet r id w) as Hq. assert (Hc1 : carries w (remove_task r id w).1) by (eapply carries_quiet; [apply carries_refl|done]).
  destruct (te_original_task_id _) as [o|]; [|done]. destruct (existsb _ _); [done|]. eapply carries_quiet; [exact Hc1|].
  split; [intros x; unfold tasks; by rewrite (write_registry_proj rg_tasks)|intros x; by apply (write_registry_proj rg_listeners)|done|done].
Qed.
Lemma adopt_carries r e w : delivery_of e <> queued -> carries w (adopt_reconstructed r e w).1.
Proof.
  intros Hd. unfold adopt_reconstructed, se_bind, se_get. cbv beta iota. destruct (get w r (id_of e)); [apply carries_refl|].
  destruct (negb _); [apply carries_refl|]. cbn [modify se_ret fst].
  eapply carries_quiet; [by apply (store_carries r e w w)|]. destruct (numeric_suffix _); [|apply quiet_refl].
  split; [intros x; unfold tasks; by rewrite (write_registry_proj rg_tasks)|intros x; by apply (write_registry_proj rg_listeners)|done|done].
Qed.
Lemma retrieved_carries r id g w : carries w (mark_notification_payload_retrieved r id g w).1.
Proof.
  unfold mark_notification_payload_retrieved. destruct (find_entry w r id) as [[l e]|]; [|apply carries_refl]. cbv zeta.
  split_if Hc; [|apply carries_refl]. cbn [fst]. eapply carries_quiet; [|apply prune_quiet]. eapply carries_quiet; [|apply auto_evict_quiet].
  by apply write_carries.
Qed.
Lemma push_carries n q w : carries w (push_new n q w).1.
Proof.
  split.
  - exists 0. intros r k l _. unfold tasks, registry_at. rewrite push_new_registries. auto.
  - intros r x. unfold registry_at. by rewrite push_new_registries.
  - apply push_new_grows.
  - intros l e' _ Hl. left. exists e'. unfold entry_at in *. by rewrite push_new_entries in Hl.
Qed.

Lemma share_carries r l w : (forall e, entry_at w l = Some e -> get w r (id_of e) = None -> l ∈ X) -> carries w (share_entry r l w).
Proof.
  intros Hx. split.
  - exists 0. intros r' k m Hm. destruct (share_tasks r l w r') as [->|(e & _ & He & Hn & ->)]; [auto|].
    intros [[_ ->]|H]%assoc_set_elem; [|auto]. by destruct Hm; apply (Hx e).
  - intros x q. unfold share_entry. destruct (entry_at w l) as [e|]; [|done]. destruct (get w r (id_of e)); [done|].
    by rewrite (write_registry_proj rg_listeners).
  - apply queues_grow_refl. unfold share_entry. destruct (entry_at w l) as [e|]; [|done]. by destruct (get w r (id_of e)).
  - intros k e' _ Hk. left. exists e'. unfold entry_at in *. by rewrite share_entries in Hk.
Qed.

(** The entries that an operation takes out of the guarantee: a settlement of
    them could not be turned into a notification, a fork puts them into a second
    registry, or the runner makes them, or no longer makes them, a task of a
    workflow. *)
Definition unannounced (op : reg_op) (w : World) : list nat :=
  match op with
  | rn_transition r id new res err now => unannounced_at w r id (transition r id new res err now w).2
  | rn_finalize r id new res err now => unannounced_at w r id (finalize_interrupted r id new res err now w).2
  | rn_commit r id t c now => unannounced_at w r id (commit_parked_termination r id t c now w).2
  | rn_restore_awaiting r id res now => unannounced_at w r id (restore_committed_awaiting r id res now w).2
  | rn_restore_park r id res now => unannounced_at w r id (restore_committed_park r id res now w).2
  | rn_share r l =>
    match entry_at w l with Some e => if is_none (get w r (id_of e)) then [l] else [] | None => [] end
  | rn_write l f =>
    match entry_at w l with
    | Some e => if Bool.eqb (workflow_owned (on_progress f e)) (workflow_owned e) then [] else [l]
    | None => []
    end
  | _ => []
  end.
(** A runner acknowledges in its own registry what it took from its own queue, and
    an entry rebuilt from the log has nothing queued. *)
Definition well_used (op : reg_op) (w : World) : Prop :=
  match op with
  | rn_ack r q _ | rn_consume r q _ => sole_listener w r q
  | rn_adopt _ e => delivery_of e <> queued
  | _ => True
  end.
Lemma new_registry_carries g w :
  carries w (set_registries (w_registries w ++ [new_registry (rg_max_inflight g) (rg_max_retained g) (rg_id_prefix g)]) w).
Proof.
  assert (H : forall x, registry_at (set_registries (w_registries w ++ [new_registry (rg_max_inflight g) (rg_max_retained g) (rg_id_prefix g)]) w) x
    = registry_at w x \/ (rg_listeners (registry_at w x) = [] /\ tasks w x = [] /\
      tasks (set_registries (w_registries w ++ [new_registry (rg_max_inflight g) (rg_max_retained g) (rg_id_prefix g)]) w) x = [])).
  { intros x. unfold tasks, registry_at. simpl. destruct (decide (x < length (w_registries w))); [left; by rewrite lookup_app_l|right].
    rewrite lookup_app_r, (lookup_ge_None_2 (w_registries w)) by lia. by destruct (x - length (w_registries w)) as [|[]]. }
  apply registries_carry; [done|done| |].
  - intros x. destruct (H x) as [E|(_ & E1 & E2)]; [by unfold tasks; rewrite E|congruence].
  - intros x q Hq. destruct (H x) as [E|(E & _)]; [by rewrite E|rewrite E in Hq; by apply elem_of_nil in Hq].
Qed.
Lemma run_reg_delivery op w : dict_ok w -> delivery_ok w -> allowed op -> well_used op w ->
  (forall l, l ∈ unannounced op w -> l ∈ X) -> delivery_ok (run_reg op w).
Proof.
  intros Hd Hok Ha Hu Hx. assert (Hc : forall w', carries w w' -> delivery_ok w') by (intros w' H; by eapply carries_ok).
  destruct op; cbn [run_reg allowed well_used unannounced] in *.
  - apply Hc, new_registry_carries.
  - apply Hc. split; [exists 0; auto|by intros ?| |intros l e' _ Hl; left; by exists e'].
    intros q queue Hq. exists queue. split; [by apply lookup_app_l_Some|apply same_grows].
  - apply Hc, registry_write_carries; [done|]. intros g x. simpl. rewrite elem_of_app. auto.
  - apply Hc. unfold bind_owner, se_bind, se_get. cbv beta iota. destruct (rg_owner _); [apply carries_refl|]. cbn [modify fst].
    eapply carries_quiet; [by apply (registry_write_carries r (set_owner (Some o)))|]. destruct (ow_parent o); [|apply quiet_refl].
    split; [intros x; unfold tasks; by rewrite (write_registry_proj rg_tasks)|intros x; by apply (write_registry_proj rg_listeners)|done|done].
  - apply Hc. eapply carries_quiet; [|apply prune_quiet]. by apply registry_write_carries.
  - apply Hc, register_carries.
  - apply Hc, admit_carries.
  - apply Hc, discard_carries.
  - by apply Hc, adopt_carries.
  - by apply transition_delivery.
  - by apply finalize_delivery.
  - by apply commit_delivery.
  - by apply restore_delivery.
  - by apply restore_delivery.
  - apply Hc. unfold interrupt. destruct (find_entry _ _ _) as [[l e]|]; [|apply carries_refl]. cbv zeta.
    split_if Hc0; [by apply write_carries|apply carries_refl].
  - apply Hc. unfold kill. destruct (find_entry _ _ _) as [[l e]|]; [|apply carries_refl]. cbv zeta.
    split_if Hc0; [apply carries_refl|by apply write_carries].
  - eapply quiet_ok; [apply evict_completed_quiet|done].
  - apply Hc. unfold mark_result_content_read. destruct (find_entry _ _ _) as [[l e]|]; [|apply carries_refl].
    destruct (te_envelope _); [|apply carries_refl]. split_if Hc0; [by apply write_carries|apply carries_refl].
  - apply Hc, retrieved_carries.
  - by apply ack_delivery.
  - by apply consume_delivery.
  - apply Hc, push_carries.
  - apply Hc, share_carries. intros e He Hn. apply Hx. rewrite He, Hn. by apply list_elem_of_singleton.
  - apply Hc, write_carries; [intros p; apply Ha|intros p; by rewrite (proj1 (proj2 (Ha p)))|]. intros Hl e He. rewrite He in Hx.
    destruct (Bool.eqb _ _) eqn:Hb; [by apply Bool.eqb_prop|]. destruct Hl. apply Hx. by apply list_elem_of_singleton.
Qed.
End delivery.

Section reachable.
Context {env : ListenerEnv}.
Lemma delivery_ok_mono (X Y : gset nat) w : X ⊆ Y -> delivery_ok X w -> delivery_ok Y w.
Proof.
  intros HXY [D1 D2 D3]. split.
  - intros r r' k k' l Hl. apply D1. set_solver.
  - intros l e Hl. apply D2. set_solver.
  - intros r k l e Hl. apply D3. set_solver.
Qed.
(** A step of a run, with the entries taken out of the guarantee so far. *)
Definition delivery_step (a b : World * gset nat) : Prop :=
  exists op, allowed op /\ well_used op a.1 /\ b = (run_reg op a.1, list_to_set (unannounced op a.1) ∪ a.2).
Lemma reachable_delivery s : rtc delivery_step (empty_world, ∅) s -> dict_ok s.1 /\ delivery_ok s.2 s.1.
Proof.
  intros Hr. apply (rtc_invariant delivery_step (fun s => dict_ok s.1 /\ delivery_ok s.2 s.1) (empty_world, ∅)); [|done|].
  - intros [w X] b (op & Ha & Hu & ->) [Hd Hok]. cbn [fst snd] in *. split; [by apply (run_reg_preserves op w Ha)|].
    apply run_reg_delivery; [done| |done|done|]; [eapply delivery_ok_mono; [|exact Hok]; set_solver|]. intros l Hl. set_solver.
  - split; [apply (reachable_dict empty_world), rtc_refl|]. split; unfold tasks, registry_at; simpl.
    + intros r r' k k' l _ H%elem_of_nil. done.
    + intros l e _ H. done.
    + intros r k l e _ H%elem_of_nil. done.
Qed.

(** C14: In every reachable state, whatever order of registrations, settlements,
    evictions, drains, acknowledgements and writes of the runner led there, a task
    of a registry whose entry says that its notification is queued has a
    notification of its latest settlement in the queue of a listener of that
    registry. Exempt ([X]) are the tasks of which a settlement raised because its
    notification could not be made ([unannounced_stays_queued] shows what becomes of
    them), those that a fork also put into the registry of its own run, and those
    that became workflow tasks after their registration. A queue belongs to one
    runner, which acknowledges in its own registry, and entries rebuilt from the log
    start with nothing queued ([well_used]). *)
Theorem queued_results_are_in_queue w X r id l e :
  rtc delivery_step (empty_world, ∅) (w, X) -> l ∉ X ->
  get w r id = Some l -> entry_at w l = Some e -> delivery_of e = queued -> announced w r e.
Proof.
  intros [_ Hok]%reachable_delivery Hx Hg He Hq. apply (dl_queued _ _ Hok r id l e); [done|by apply assoc_get_elem|done..].
Qed.

(** When a task settles and its registry has a listener, its entry is updated
    and the settlement is not lost: either its notification is in the queue of a
    listener, or the entry is marked for retrieval, which keeps it from being
    evicted; or the call raises because the notification could not be made.
    Pipeline stages and workflow tasks, whose owner waits for them itself, are
    told to nobody. *)
Theorem settlement_not_lost r id new res err now w l e :
  find_entry w r id = Some (l, e) ->
  terminal (state_of e) = false -> in_states new notifying_states = true -> silent e = false -> rg_listeners (registry_at w r) <> [] ->
  (transition r id new res err now w).2 = Raise MaterializationError \/
  exists w' e', transition r id new res err now w = (w', Ret l) /\ get w' r id = Some l /\ entry_at w' l = Some e' /\
    state_of e' = new /\ gen_of e' = (gen_of e + 1)%Z /\
    ((delivery_of e' = queued /\ announced w' r e') \/ (retrieval_required (delivery_of e') = true /\ evictable e' = false)).
Proof.
  intros Hf Ht Hn Hs Hl. destruct (transition r id new res err now w) as [wt ot] eqn:Et.
  unfold transition, se_bind at 1 in Et. unfold lookup_entry, se_bind at 1, se_get in Et. cbv beta iota in Et. rewrite Hf in Et. cbn [se_ret] in Et.
  rewrite Ht, Hn in Et. match type of Et with context [write_entry l ?g] => set (f := g) in Et end. pose proof (find_entry_spec _ _ _ _ _ Hf) as [Hg He].
  assert (He1 : entry_at (write_entry l f w) l = Some (on_progress f e)) by (unfold entry_at; simpl; rewrite list_lookup_alter_eq; unfold entry_at in He; by rewrite He).
  assert (Hfp : te_state (f (te_progress e)) = new /\ te_generation (f (te_progress e)) = (te_generation (te_progress e) + 1)%Z /\
      te_metadata (f (te_progress e)) = te_metadata (te_progress e))
    by (unfold f; destruct res, err; simpl; by destruct (terminal new)).
  destruct Hfp as (E1 & E2 & E3). assert (Hh : heard (on_progress f e) new = true).
  { unfold heard. assert (silent (on_progress f e) = silent e) as -> by (unfold silent, workflow_owned; cbn [on_progress te_progress te_identity]; by rewrite E3).
    by rewrite Hs, Hn. }
  destruct (notify_told (rg_listeners (registry_at w r)) l new now _ _ He1) as [[S1 S2 S3] H].
  unfold notify, se_bind, modify, se_get in Et. cbv beta iota in Et. change (registry_at (write_entry l f w) r) with (registry_at w r) in Et.
  destruct (notify_all (rg_listeners (registry_at w r)) l new now (write_entry l f w)) as [w1 [[]|er]]; [right|left; cbn in *; congruence].
  injection Et as <- <-.
  cbn [fst snd] in *. rewrite Hh, bool_decide_eq_false_2 in H by done. destruct H as [d [T4 TR T5]].
  set (w2 := (if terminal new then prune_completed_owner r else fun w => w) w1).
  assert (Hq : quiet w1 w2) by (unfold w2; destruct (terminal new); [apply prune_quiet|apply quiet_refl]).
  assert (Htk : forall x, tasks w2 x = tasks w1 x) by (intros x; unfold w2; destruct (terminal new); [apply prune_tasks|done]).
  exists w2, (on_progress (set_delivery_state d) (on_progress f e)). split; [done|].
  destruct Hq as [_ Q2 Q3 Q4]. split; [unfold get; rewrite Htk; unfold tasks, registry_at; by rewrite S1|].
  split; [unfold entry_at; by rewrite Q4|]. split; [exact E1|]. split; [exact E2|]. destruct TR as [->|Hr].
  - left. split; [done|]. destruct (T5 eq_refl) as (q & queue & A1 & A2 & A3). exists q, queue. rewrite Q2, Q3. split; [|done].
    unfold registry_at. by rewrite S1.
  - right. split; [exact Hr|]. unfold evictable. change (delivery_of (on_progress (set_delivery_state d) (on_progress f e))) with d. by rewrite Hr, andb_false_r.
Qed.
End reachable.

(** ** Concrete runs *)
Section examples.
(** The entries taken out of the guarantee along a run. *)
Fixpoint exempted {env : ListenerEnv} (ops : list reg_op) (w : World) : gset nat :=
  match ops with [] => ∅ | op :: ops => list_to_set (unannounced op w) ∪ exempted ops (run_reg op w) end.
Definition demo_call (op : reg_op) (w : World) : Prop := allowed op /\ well_used op w.
Lemma demo_delivery_reach ops w X : calls_ok demo_call ops w -> rtc delivery_step (w, X) (run_calls ops w, exempted ops w ∪ X).
Proof.
  revert w X. induction ops as [|op ops IH]; intros w X; cbn [calls_ok exempted].
  - intros _. rewrite union_empty_l_L. constructor.
  - intros [[H1 H2] H3]. eapply rtc_l; [by exists op|]. cbn [fst snd].
    replace (list_to_set (unannounced op w) ∪ exempted ops (run_reg op w) ∪ X) with (exempted ops (run_reg op w) ∪ (list_to_set (unannounced op w) ∪ X)) by set_solver.
    by apply IH.
Qed.
(** No operation of the demo acknowledges or adopts. *)
Lemma demo_used ops w : forallb (fun op => match op with rn_ack _ _ _ | rn_consume _ _ _ | rn_adopt _ _ => false | _ => true end) ops = true ->
  calls_ok good_call ops w -> calls_ok demo_call ops w.
Proof.
  revert w. induction ops as [|op ops IH]; intros w; cbn [forallb calls_ok]; [done|]. rewrite andb_true_iff. intros [Hop Hops] [[H1 H2] H3].
  split; [|by apply IH]. split; [done|]. by destruct op.
Qed.
Lemma demo_world_reached : rtc delivery_step (empty_world, ∅) (demo_world, ∅).
Proof.
  assert (Hx : exempted demo_calls empty_world ∪ ∅ = ∅) by by vm_compute. rewrite <- Hx at 2.
  apply demo_delivery_reach, demo_used; [by vm_compute|exact demo_good].
Qed.
Lemma queued_results_are_in_queue_witness :
  exists e, entry_at demo_world 0 = Some e /\ state_of e = COMPLETED /\ announced demo_world 0 e.
Proof.
  destruct (entry_at demo_world 0) as [e|] eqn:He; [|by vm_compute in He]. exists e. split; [done|].
  assert (Hs : state_of e = COMPLETED /\ delivery_of e = queued) by (vm_compute in He; by injection He as <-). split; [apply Hs|].
  apply (queued_results_are_in_queue demo_world ∅ 0 (u "bg_0") 0 e).
  - exact demo_world_reached.
  - apply not_elem_of_empty.
  - by vm_compute.
  - exact He.
  - apply Hs.
Defined.
Lemma settlement_not_lost_witness :
  exists w' e', transition 0 (u "bg_1") PARKED None None 6 demo_live = (w', Ret 1) /\ entry_at w' 1 = Some e' /\ state_of e' = PARKED.
Proof.
  destruct (find_entry demo_live 0 (u "bg_1")) as [[l e]|] eqn:He; [|by vm_compute in He].
  assert (Hs : l = 1 /\ terminal (state_of e) = false /\ silent e = false) by (vm_compute in He; by injection He as <- <-).
  destruct Hs as (-> & H1 & H2).
  destruct (settlement_not_lost 0 (u "bg_1") PARKED None None 6 demo_live 1 e He H1 eq_refl H2) as [Hr|(w' & e' & E & _ & He' & Hs & _)].
  - by vm_compute.
  - by vm_compute in Hr.
  - exists w', e'. split; [exact E|]. split; [exact He'|exact Hs].
Defined.

(** A parked task is announced; it runs again and completes with an envelope that
    does not fit inline: the call raises and the entry, a generation further, still
    says queued. When its parent has taken the old notification, no queue shows the
    task and the entry says queued for good. *)
#[local] Instance demo_large : ListenerEnv := {|
  listener_notify := {| json_dumps := fun _ _ => Some (u "{}") |};
  settlement_payload := fun _ _ => empty_payload;
  settlement_summary := fun e new => id_of e;
  envelope_payload := fun _ => mkPayload ∅ (VStr (replicate 32769 97%N));
  envelope_summary := fun e _ => id_of e
|}.
Definition demo_envelope (p : Progress) : Progress :=
  mkProgress (te_state p) (te_asyncio_task p) (te_completed_at p) (te_result p) (te_error p) (te_task_result p) (Some (mkEnvelope None None)) (te_termination_intent p) (te_interruption_reason p) (te_pending_final_state p) (te_pending_result p) (te_pending_error p) (te_finalizer_detached p) (te_completion_persistence p) (te_delivery_state p) (te_generation p) (te_content_read p) (te_spawn p) (te_metadata p) (te_admitted_task p).
Definition demo_unannounced : list reg_op :=
  [rn_new (new_registry 2 1 (u "bg")); rn_queue 3; rn_listen 0 0; demo_spawn 0 1; rn_transition 0 (u "bg_0") RUNNING None None 2;
   rn_transition 0 (u "bg_0") PARKED None None 3; rn_transition 0 (u "bg_0") RUNNING None None 4; rn_write 0 demo_envelope;
   rn_transition 0 (u "bg_0") COMPLETED None None 5; rn_consume 0 0 10].
Example unannounced_stays_queued :
  let w := run_calls (env := demo_large) demo_unannounced empty_world in
  (fun e => (state_of e, delivery_of e, gen_of e)) <$> w_entries w = [(COMPLETED, queued, 2%Z)] /\
  (fun q => nq_queue q) <$> w_queues w = [[]] /\ elements (exempted (env := demo_large) demo_unannounced empty_world) = [0].
Proof. vm_compute. done. Qed.
End examples.

End TaskDelivery.
