(* ===== verification/Admission.v ===== *)
(** * Admission: the authority of a job

    Models [src/agent_gateway/admission.py] with the approval routes it hands
    down ([approval_route.py]), the exact roles ([role_validation.py]) and the
    launch environment of a child process ([child_environment.py]): every job
    runs under a context that [admit] narrowed from its parent's, down from the
    root that an authenticated turn minted.

    Model selection, tool resolution and the role policy belong to other
    packages: the resolver and the tool resolution are the functions in the
    owners record, as in the code, and what remains is the class [AdmissionEnv].
    Sets are [gset]s; [sorted] is by code points. A store, channel, session or
    capture writer is an identity. Log lines and the detail text of a refusal are
    not modelled. *)
From S2P Require Import Prelude Wire ApprovalPolicy ApprovalStore ApprovalParking ApprovalLifecycle.
From Stdlib Require Import Sorted.
Import Wire ApprovalPolicy ApprovalStore ApprovalParking.

Module Admission.

(** [sorted] of strings. *)
Fixpoint insert_text (x : str) (l : list str) : list str :=
  match l with
  | [] => [x]
  | y :: l' => if key_le x y then x :: l else y :: insert_text x l'
  end.
Definition sort_texts (l : list str) : list str := foldr insert_text [] l.
Definition sorted_set (s : gset str) : list str := sort_texts (elements s).

(** ** Roles *)
Inductive adm_error := RoleError | ResolutionError | UnknownRunMode | RouteError | OwnerRequired | AssertionFailed | SnapshotError.
Inductive ExactRole := owner | invite.
#[global] Instance ExactRole_eq : EqDecision ExactRole.
Proof. solve_decision. Defined.
Definition role_name (r : ExactRole) : str := match r with owner => u "owner" | invite => u "invite" end.
Definition require_exact_role (value : json) : outcome adm_error ExactRole :=
  match value with
  | JStr s => if bool_decide (s = u "owner") then Ret owner else if bool_decide (s = u "invite") then Ret invite else Raise RoleError
  | _ => Raise RoleError
  end.

(** ** Approval routes *)

(** A policy is what the ledger records of it. *)
Record Ledger := mkLedger { lg_store : nat; lg_policy : PolicyGeneration; lg_session : nat }.
#[global] Instance Ledger_eq : EqDecision Ledger.
Proof. solve_decision. Defined.
Inductive ApprovalRoute :=
| DurableLocal (ledger : Ledger)
| ParentDelegated (channel session : nat) (private_capture_writer : option nat)
| InProcessDelegated (parent_ledger : Ledger)
| ControlPlane (store : nat) (policy : PolicyGeneration)
| NoApproval.
#[global] Instance ApprovalRoute_eq : EqDecision ApprovalRoute.
Proof. solve_decision. Defined.
(** The constructors check their arguments. *)
Definition make_durable_local (store : option nat) (policy : option PolicyGeneration) (session : option nat) : outcome adm_error ApprovalRoute :=
  match store, policy, session with
  | Some s, Some p, Some x => Ret (DurableLocal (mkLedger s p x))
  | _, _, _ => Raise RouteError
  end.
Definition make_control_plane (store : option nat) (policy : option PolicyGeneration) : outcome adm_error ApprovalRoute :=
  match store, policy with
  | Some s, Some p => Ret (ControlPlane s p)
  | _, _ => Raise RouteError
  end.
Definition make_in_process (parent : ApprovalRoute) : outcome adm_error ApprovalRoute :=
  match parent with DurableLocal g => Ret (InProcessDelegated g) | _ => Raise RouteError end.
Definition route_ledger (r : ApprovalRoute) : option Ledger :=
  match r with DurableLocal g | InProcessDelegated g => Some g | _ => None end.
Definition child_approval_route (r : ApprovalRoute) : ApprovalRoute :=
  match r with
  | DurableLocal g => InProcessDelegated g
  | ParentDelegated c s _ => ParentDelegated c s None
  | _ => r
  end.
Definition route_store (r : ApprovalRoute) : option nat := lg_store <$> route_ledger r.
Definition route_policy (r : ApprovalRoute) : option PolicyGeneration := lg_policy <$> route_ledger r.
Definition route_session (r : ApprovalRoute) : outcome adm_error nat :=
  match r with
  | DurableLocal g | InProcessDelegated g => Ret (lg_session g)
  | ParentDelegated _ s _ => Ret s
  | _ => Raise RouteError
  end.
Inductive route_kind := no_approval_route | parent_delegated | durable_local.
#[global] Instance route_kind_eq : EqDecision route_kind.
Proof. solve_decision. Defined.
Definition approval_route_name (r : ApprovalRoute) : route_kind :=
  match r with NoApproval => no_approval_route | DurableLocal _ => durable_local | _ => parent_delegated end.
Definition route_kind_text (k : route_kind) : str :=
  match k with no_approval_route => u "no_approval_route" | parent_delegated => u "parent_delegated" | durable_local => u "durable_local" end.

(** ** What belongs to other packages *)
Record SlotDefault := mkSlot { sd_kind : option str; sd_tier : option str }.
Record SlotDefaults := mkSlots { sl_by_channel : list (str * SlotDefault); sl_default : SlotDefault }.
Record Snapshot := mkSnapshot { sn_policy_revision : str; sn_frozen_slot : str -> option SlotDefaults; sn_to_json : json }.
Record CapabilityBind := mkBind { cb_run_mode : str; cb_credential_ref : str; cb_json : json }.
(** [CapabilityExecutionResolver], with [preset_selection_snapshot] over its
    policy. *)
Record Resolver := mkResolver {
  rv_preset_snapshot : str -> outcome adm_error Snapshot;
  rv_select_bind : str -> option str -> option str -> option Snapshot -> outcome adm_error CapabilityBind;
  rv_selection_lane : CapabilityBind -> json;
  rv_capabilities : str -> option SlotDefaults;
  rv_trusted_channel : str
}.
Class AdmissionEnv := {
  (** [role_denied_tools_for_session] and [require_inherited_role] *)
  role_denied_tools : option nat -> ExactRole -> option str -> gset str;
  inherited_role : nat -> outcome adm_error ExactRole;
  snapshot_from_json : json -> outcome adm_error Snapshot;
  is_generation_ref : str -> bool;
  (** [model_dump] of a binding and of a provenance, from their fields *)
  research_json : option Z -> option str -> json;
  provenance_json : option str -> option str -> option str -> option (str * str * str) -> option str -> json;
  user_storage_id_env : str
}.

(** ** The environment of a child process *)
Section environment.
Context {env : AdmissionEnv}.
Definition PROCESS_RUNTIME_ENV_NAMES : list str :=
  [u "LANG"; u "LC_ALL"; u "LC_CTYPE"; u "PATH"; u "PYTHONIOENCODING"; u "PYTHONPATH"; u "SSL_CERT_DIR";
   u "SSL_CERT_FILE"; u "TEMP"; u "TMP"; u "TMPDIR"; u "TZ"].
Definition AGENT_CORRELATION_ENV_NAMES : list str :=
  [u "AGENT_CONTROL_RUN_ID"; u "AGENT_TELEMETRY_REQUEST_ID"; u "AGENT_TELEMETRY_RUN_ID";
   u "AGENT_TELEMETRY_TOOL_CALL_ID"].
Definition AGENT_API_ENV_NAMES : list str :=
  [u "RISK_API_URL"].
Definition AUTONOMOUS_CHILD_PROCESS_ENV_NAMES : list str :=
  [u "PATH"; u "PYTHONPATH"; u "PYTHONHOME"; u "VIRTUAL_ENV"; u "HOME"; u "USER"; u "LOGNAME"; u "SHELL"; u "LANG";
   u "LC_ALL"; u "LC_CTYPE"; u "TZ"; u "TMPDIR"; u "SSL_CERT_FILE"; u "SSL_CERT_DIR"; u "REQUESTS_CA_BUNDLE";
   u "NO_PROXY"; u "PRODUCT_ID"; u "ENVIRONMENT"; u "APP_ENV"; u "AGENT_GATEWAY_ENV"; u "HANK_MODEL_AUTHORITY_DIR";
   u "HANK_LOCAL_FALLBACK_ENABLED"; u "HANK_SPEND_LEDGER_PATH"; u "HANK_SPEND_SETTINGS_PATH"; u "HANK_SPEND_REPO";
   u "HANK_SPEND_SERVICE"; u "HANK_SPEND_INSTANCE_ID"; u "HANK_SPEND_GIT_SHA"; u "USER_DATA_DIR";
   u "HANK_CREDENTIAL_POOL"; user_storage_id_env; u "CORPUS_LOG_DIR"; u "CORPUS_STATE_DIR"; u "LOG_DIR";
   u "GATEWAY_LOG_DIR"; u "MCP_CONFIG_TMP_DIR"; u "MCP_CONFIG_TEMPLATE"; u "JUPYTER_ROOT"; u "AI_EXCEL_ADDIN_DOTENV";
   u "INVESTMENT_TOOLS_DOTENV"; u "RISK_MODULE_DOTENV"; u "MCP_STARTUP_CONCURRENCY"; u "MCP_STDIO_CONNECT_BACKOFF_S";
   u "MCP_STDIO_CONNECT_RETRIES"; u "MCP_STDIO_CONNECT_STABILIZE_S"; u "LOCAL_GATEWAY_PYTHON";
   u "LOCAL_GATEWAY_CONTROL_GENERATION_ID"; u "LOCAL_GATEWAY_CONTROL_STATE_ROOT"; u "LOCAL_GATEWAY_RUNTIME_ROOT";
   u "LOCAL_GATEWAY_RUNTIME_MANIFEST"; u "LOCAL_GATEWAY_RUNTIME_VERSION_ROOT"; u "GATEWAY_BASE_URL";
   u "AGENT_API_CLAIM_TTL_SECONDS"; u "AGENT_GATEWAY_SKILLS_DIR"; u "AGENT_SESSION_LOG_BASE_DIR";
   u "AGENT_SESSION_LOG_LAYOUT"; u "AGENT_SESSION_LOG_MAX_ACTIVE_BYTES"; u "AGENT_SDK_CWD"; u "MEMORY_ENABLED";
   u "MEMORY_KEYWORD_WEIGHT"; u "MEMORY_VECTOR_WEIGHT"; u "MEMORY_MAX_PROMPT_TOKENS";
   u "CITATION_SESSION_REGISTRY_RETENTION_DAYS"; u "EDGAR_USE_UPSTREAM_EQUIVALENCE"; u "RISK_API_URL";
   u "RISK_CLIENT_PATH"; u "RISK_MODULE_RESOLVER_URL"; u "CODE_EXECUTE_DOCKER_IMAGE"; u "CANVAS_BUILD_DIR";
   u "CANVAS_NODE_BINARY"; u "EDGAR_API_URL"; u "EDGAR_UPDATER_ROOT"; u "EDGAR_UPDATER_PYTHON";
   u "INVESTMENT_TOOLS_PYTHON"; u "INVESTMENT_TOOLS_STATE_DIR"; u "GSHEETS_MCP_EXECUTABLE";
   u "INVESTMENT_CAPABILITY_CLAIM_ED25519_PUBLIC_KEY"; u "EXCEL_MCP_BACKEND_URL"; u "MODEL_ENGINE_OVERRIDES_DIR";
   u "GATEWAY_SURFACE_CONTENT_CAPTURE_ENABLED"; u "GATEWAY_SURFACE_CONTENT_PATH";
   u "AUTONOMOUS_GATEWAY_READY_TIMEOUT_SECONDS"; u "GATEWAY_AUDIT_HMAC_SECRET"; u "HANK_RUN_SETTINGS_PATH";
   u "TOOL_TIMING_DB_PATH"].
Definition AUTONOMOUS_CHILD_PROFILES : list str :=
  [u "analyst"; u "advisor"; u "research_producer"].
Definition AUTONOMOUS_CHILD_MODEL_ENDPOINT_ENV_NAMES : list str :=
  [u "OLLAMA_CLOUD_BASE_URL"; u "OLLAMA_BASE_URL"].
Definition AUTONOMOUS_CHILD_TOOL_ENV_NAMES : list str :=
  [u "GATEWAY_SSL_VERIFY"; u "BRAVE_API_KEY"; u "FMP_API_KEY"; u "FMP_CACHE_DIR"; u "FRED_API_KEY";
   u "ORATS_API_KEY"; u "EDGAR_API_KEY"; u "EDGAR_API_STATE_DIR"; u "EDGAR_API_EXPORT_DIR";
   u "EDGAR_TABLE_READER_CACHE_DIR"; u "DOCUMENT_SERVICE_FILINGS_DIR"; u "EDGAR_RAW_STORE_DIR";
   u "EDGAR_API_LOG_DIR"; u "EDGAR_API_RUNTIME_DIR"; u "SEC_BUDGET_SITE"; u "SEC_USER_AGENT";
   u "SEC_EXPECTED_MACHINE_IDENTITY"; u "DATABENTO_API_KEY"; u "ALERTS_GATEWAY_API_KEY"; u "IBKR_ENABLED";
   u "IBKR_FLEX_ENABLED"; u "IBKR_FLEX_TOKEN"; u "IBKR_FLEX_QUERY_ID"; u "SCHWAB_CLIENT_ID";
   u "SCHWAB_CLIENT_SECRET"; u "SNAPTRADE_CLIENT_ID"; u "SNAPTRADE_CONSUMER_KEY"; u "PLAID_CLIENT_ID";
   u "PLAID_SECRET"; u "PLAID_ENV"].
(** [f"{profile.upper()}_AGENT_MAX_TOKENS"] for each profile. *)
Definition ascii_upper (s : str) : str := (fun c => if ((97 <=? c) && (c <=? 122))%N then (c - 32)%N else c) <$> s.
Definition AUTONOMOUS_CHILD_PROFILE_LIMIT_ENV_NAMES : list str :=
  (fun profile => ascii_upper profile ++ u "_AGENT_MAX_TOKENS") <$> AUTONOMOUS_CHILD_PROFILES.
Definition AUTONOMOUS_CHILD_RUNTIME_ENV_NAMES : list str :=
  AUTONOMOUS_CHILD_PROCESS_ENV_NAMES ++ AUTONOMOUS_CHILD_PROFILE_LIMIT_ENV_NAMES ++ AUTONOMOUS_CHILD_MODEL_ENDPOINT_ENV_NAMES.
Inductive environment_purpose := run_bash | code_execute | autonomous_child.
Definition child_environment_allowlist (p : environment_purpose) : list str :=
  match p with
  | run_bash => PROCESS_RUNTIME_ENV_NAMES ++ AGENT_CORRELATION_ENV_NAMES ++ AGENT_API_ENV_NAMES
  | code_execute =>
    PROCESS_RUNTIME_ENV_NAMES ++ AGENT_CORRELATION_ENV_NAMES ++ AGENT_API_ENV_NAMES ++
    [u "AGENT_CODE_EXECUTE_WORK_DIR"; u "HOME"; u "MPLBACKEND"; u "MPLCONFIGDIR"; u "PYTHONUNBUFFERED"; u "XDG_CACHE_HOME"]
  | autonomous_child => AUTONOMOUS_CHILD_RUNTIME_ENV_NAMES ++ AUTONOMOUS_CHILD_TOOL_ENV_NAMES
  end.
Definition purpose_of (purpose : str) : option environment_purpose :=
  if bool_decide (purpose = u "run_bash") then Some run_bash
  else if bool_decide (purpose = u "code_execute") then Some code_execute
  else if bool_decide (purpose = u "autonomous_child") then Some autonomous_child
  else None.
(** [filter_child_environment]; [None] is the [ValueError]. *)
Definition filter_child_environment (vars : list (str * str)) (purpose : str) : option (list (str * str)) :=
  p ← purpose_of purpose; Some (filter (fun kv => kv.1 ∈ child_environment_allowlist p) vars).

Inductive Placement := in_process | local_stub | hosted_stub.
#[global] Instance Placement_eq : EqDecision Placement.
Proof. solve_decision. Defined.
(** [_PLACEMENT_BY_RUN_MODE]; a missing key raises. *)
Definition placement_for_run_mode (run_mode : str) : outcome adm_error Placement :=
  if bool_decide (run_mode ∈ [u "interactive"; u "fleet"; u "batch"]) then Ret in_process
  else if bool_decide (run_mode ∈ [u "autonomous"; u "cron"]) then Ret local_stub
  else Raise UnknownRunMode.
Definition env_contract_for_placement (p : Placement) : option environment_purpose :=
  match p with local_stub => Some autonomous_child | _ => None end.
Definition environment_projection (p : Placement) (env_names : gset str) : list str :=
  match env_contract_for_placement p with
  | None => []
  | Some contract => filter (fun name => name ∈ child_environment_allowlist contract) (sorted_set env_names)
  end.
End environment.

(** ** Requests, contexts and owners *)
Inductive RefusalReason :=
| session_unauthenticated | tenant_mismatch | grant_exceeds_parent | invite_effect_not_allowed
| handle_not_granted | binding_not_granted | binding_ambiguous | depth_exceeded.
#[global] Instance RefusalReason_eq : EqDecision RefusalReason.
Proof. solve_decision. Defined.
(** The detail text is not modelled; [rf_resource] is the classification. *)
Record Refusal := mkRefusal { rf_reason : RefusalReason; rf_owner : str; rf_resource : bool; rf_next_call : option str }.
Definition refuse (reason : RefusalReason) (who : str) : Refusal := mkRefusal reason who false None.

Record Tenant := mkTenant { tn_tenant_id : option str; tn_storage_id : str; tn_role : ExactRole }.
#[global] Instance Tenant_eq : EqDecision Tenant.
Proof. solve_decision. Defined.
Record ResearchBinding := mkResearch { rb_file : option Z; rb_ticker : option str }.
#[global] Instance ResearchBinding_eq : EqDecision ResearchBinding.
Proof. solve_decision. Defined.
Record PresetProvenance := mkPreset { pp_name : str; pp_scope : str; pp_policy_revision : str }.
Record Provenance := mkProvenance {
  pv_role : option str;
  pv_role_source : option str;
  pv_effort_source : option str;
  pv_preset : option PresetProvenance;
  pv_preset_layer : option str
}.
Record SpawnRequest := mkSpawnRequest {
  sr_operation : str;
  sr_task : str;
  sr_handles : list str;
  sr_binding : option ResearchBinding;
  sr_effort : option str;
  sr_role : option str;
  sr_model_preset : option str
}.
Inductive ContinueCause := continuation | revive | placement_lost.
#[global] Instance ContinueCause_eq : EqDecision ContinueCause.
Proof. solve_decision. Defined.
Record ContinueRequest := mkContinue { cr_job_id : str; cr_cause : ContinueCause }.
Record MessageRequest := mkMessage { mr_from : str; mr_to : str; mr_handle_refs : list str }.
Record HandleRequest := mkHandle { hr_handle : str; hr_reader : str }.

(** A spend is the sixty-four bits of its float. *)
Record ParentContext := mkParent {
  pc_tenant : option Tenant;
  pc_research : ResearchBinding;
  pc_children : option (list str);
  pc_tool_ids : option (gset str);
  pc_withheld : gset str;
  pc_handle_grants : gset str;
  pc_remaining_usd : option N;
  pc_job_id : option str;
  pc_depth : Z;
  pc_approval_route : ApprovalRoute;
  pc_snapshot : option Snapshot;
  pc_provenance : option Provenance
}.
Record OperationRegistration := mkRegistration {
  op_name : str;
  op_execution_class : str;
  op_route_ceiling : gset str;
  op_operation_routes : gset str;
  op_route_tool_names : list (str * str);
  op_children : list str;
  op_role : option str;
  op_effort : option str
}.
Record ChildIdentity := mkChildIdentity { ci_user_id : str; ci_role : json }.
(** [ResolvedAuthority]: the tools of its grant; [OperationUnavailable]. *)
Record Authority := mkAuthority { au_tools : list str }.
Inductive OperationUnavailable := Unavailable (detail : str).
Record AdmissionOwners := mkOwners {
  ao_operation : OperationRegistration;
  ao_resolver : Resolver;
  ao_session : option nat;
  ao_route_registered : str -> bool;
  ao_resolve_tool_authority : gset str -> Authority + OperationUnavailable;
  ao_max_spawn_depth : Z;
  ao_env_names : gset str;
  ao_outputs : gset str;
  ao_frozen_bind : option CapabilityBind;
  ao_identity : option ChildIdentity;
  ao_profile_name : option str
}.
Record Lineage := mkLineage { ln_parent_job_id : option str; ln_depth : Z }.
Record ContextWire := mkWire {
  wr_tenant : option Tenant;
  wr_research : ResearchBinding;
  wr_bind : CapabilityBind;
  wr_snapshot : option json;
  wr_provenance : option Provenance;
  wr_lane : json;
  wr_children : list str;
  wr_tool_grant : list str;
  wr_withheld : list str;
  wr_budget_share : option N;
  wr_env_projection : list str;
  wr_approval_route : route_kind;
  wr_handle_grants : list str;
  wr_placement : Placement;
  wr_lineage : Lineage
}.
(** [AdmittedTask]: what a continuation reads of the durable task. *)
Record DurableTask := mkTask {
  dt_context : option ContextWire;
  dt_model_bind : CapabilityBind;
  dt_tool_grant : list str;
  dt_content_grants : list str
}.
Record ContinuationOwners := mkContinuation { co_task : DurableTask; co_research : ResearchBinding; co_env_names : gset str }.
Record AdmittedContext (A : Type) := mkAdmittedContext {
  ac_wire : ContextWire;
  ac_authority : A;
  ac_route : ApprovalRoute;
  ac_identity : option ChildIdentity
}.
Arguments mkAdmittedContext {A}.
Arguments ac_wire {A}.
Arguments ac_authority {A}.
Arguments ac_route {A}.
Arguments ac_identity {A}.

(** ** Root contexts *)
Section admission.
Context {env : AdmissionEnv} {store_env : StoreEnv}.

Definition root_context_from_identity (tenant : option Tenant) (job_id : option str) (tool_ids : option (gset str)) (withheld : gset str)
    (research : ResearchBinding) (route : ApprovalRoute) (remaining : option N) (snapshot : option Snapshot) (prov : option Provenance) : ParentContext :=
  mkParent tenant research None tool_ids withheld ∅ remaining job_id 0 route snapshot prov.

(** What admission reads and writes of a session. *)
Record Session := mkSession {
  ss_identity : nat;
  ss_session_id : option str;
  ss_tenant_id : option str;
  ss_owner_user_id : option str;
  ss_approval_route : option ApprovalRoute;
  ss_job_context : option ParentContext
}.
Definition with_job_context (c : ParentContext) (s : Session) : Session :=
  mkSession (ss_identity s) (ss_session_id s) (ss_tenant_id s) (ss_owner_user_id s) (ss_approval_route s) (Some c).
Definition with_approval_route (r : ApprovalRoute) (s : Session) : Session :=
  mkSession (ss_identity s) (ss_session_id s) (ss_tenant_id s) (ss_owner_user_id s) (Some r) (ss_job_context s).
Definition session_approval_route (s : option Session) : ApprovalRoute :=
  match s with Some s => default NoApproval (ss_approval_route s) | None => NoApproval end.
Definition bind_session_approval_route (store : option nat) (policy : option PolicyGeneration) (s : Session) : Session * ApprovalRoute :=
  let route := match store, policy with
               | Some st, Some p => DurableLocal (mkLedger st p (ss_identity s))
               | _, _ => NoApproval
               end in
  (with_approval_route route s, route).
(** [session_owner_user_id] with [required=True] *)
Definition session_owner_user_id (s : Session) : outcome adm_error str :=
  match ss_owner_user_id s with Some (c :: o) => Ret (c :: o) | _ => Raise OwnerRequired end.
(** A captured child context is returned as it is; otherwise the root is minted
    and captured. *)
Definition root_context (s : option Session) (withheld : gset str) (file : option Z) (ticker : option str) (remaining : option N)
    (snapshot : option Snapshot) (prov : option Provenance) : outcome adm_error (option Session * ParentContext) :=
  let captured := s ≫= ss_job_context in
  match captured with
  | Some (mkParent _ _ (Some _) _ _ _ _ _ _ _ _ _ as c) => Ret (s, c)
  | _ =>
    let? tenant := match s with
                   | Some s => let? storage := session_owner_user_id s in
                               let? role := inherited_role (ss_identity s) in
                               Ret (Some (mkTenant (ss_tenant_id s) storage role))
                   | None => Ret None
                   end in
    let c := root_context_from_identity tenant (s ≫= ss_session_id) None withheld (mkResearch file ticker)
               (session_approval_route s) remaining snapshot prov in
    Ret (with_job_context c <$> s, c)
  end.
Definition current_parent_context (s : Session) : outcome adm_error ParentContext :=
  match ss_job_context s with Some c => Ret c | None => Raise AssertionFailed end.

(** ** Admission of a spawn *)
Definition RUN_AGENT_TOOL_NAME : str := u "run_agent".
Definition at_depth_bound (max depth : Z) : bool := (0 <=? max)%Z && (max <=? depth)%Z.
Definition depth_refusal : Refusal :=
  mkRefusal depth_exceeded (u "admission spawn containment") true
    (Some (u "Return an ordinary final response with your partial work to your parent; the parent can spawn the remaining work.")).
(** The launch edge's user is the parent tenant's owner in its exact role. *)
Definition identity_check (identity : option ChildIdentity) (tenant : option Tenant) : outcome adm_error (option Refusal) :=
  match identity with
  | None => Ret None
  | Some i =>
    let? role := require_exact_role (ci_role i) in
    Ret (if match tenant with
            | Some t => bool_decide (ci_user_id i = tn_storage_id t) && bool_decide (role = tn_role t)
            | None => false
            end
         then None else Some (refuse tenant_mismatch (u "admission tenant")))
  end.
Definition ungranted_handles (handles : list str) (granted : gset str) : gset str := list_to_set handles ∖ granted.
(** [or] of two optional values. *)
Definition first_some {A} (a b : option A) : option A := match a with Some _ => a | None => b end.
Definition bind_research (parent : ResearchBinding) (requested : option ResearchBinding) : ResearchBinding + Refusal :=
  match requested with
  | None => inl parent
  | Some q =>
    if match rb_file parent, rb_file q with Some a, Some b => negb (bool_decide (b = a)) | _, _ => false end
    then inr (refuse binding_not_granted (u "admission research_binding"))
    else if match rb_file parent, rb_file q, rb_ticker q with
            | Some _, None, Some t => negb (bool_decide (rb_ticker parent = Some t))
            | _, _, _ => false
            end
    then inr (refuse binding_ambiguous (u "admission research_binding"))
    else inl (mkResearch (first_some (rb_file q) (rb_file parent)) (first_some (rb_ticker q) (rb_ticker parent)))
  end.

(** [_tier_selected_for_bind] *)
Definition tier_selected_for_bind (requested : option str) (rv : Resolver) (capability : str) (snapshot : option Snapshot) : option str :=
  match requested with
  | Some r => Some r
  | None =>
    match (match snapshot with Some s => sn_frozen_slot s capability | None => rv_capabilities rv capability end) with
    | None => None
    | Some defaults =>
      let channel := py_strip (rv_trusted_channel rv) in
      let by_channel := if bool_decide (channel = []) then None
                        else snd <$> List.find (fun kv => bool_decide (kv.1 = channel)) (sl_by_channel defaults) in
      let slot := default (sl_default defaults) by_channel in
      if bool_decide (sd_kind slot = Some (u "tier")) then sd_tier slot else None
    end
  end.
Definition selection_provenance (request : SpawnRequest) (parent : ParentContext) (o : AdmissionOwners)
    (subtree snapshot : option Snapshot) : option Provenance :=
  match ao_frozen_bind o with
  | Some _ => None
  | None =>
    let op := ao_operation o in
    let preset := match subtree, sr_model_preset request with
                  | Some s, Some name => Some (mkPreset name (u "subtree") (sn_policy_revision s))
                  | _, _ => None
                  end in
    Some (mkProvenance
      (tier_selected_for_bind (first_some (sr_role request) (op_role op)) (ao_resolver o) (op_execution_class op) snapshot)
      (if sr_role request then Some (u "spawn") else if op_role op then Some (u "operation") else pc_provenance parent ≫= pv_role_source)
      (if sr_effort request then Some (u "spawn") else if op_effort op then Some (u "operation") else None)
      (first_some preset (pc_provenance parent ≫= pv_preset))
      (if preset then Some (u "request") else pc_provenance parent ≫= pv_preset_layer))
  end.

(** The loop over the declared ceiling. *)
Definition route_tool_name (op : OperationRegistration) (tool_id : str) : str :=
  match List.find (fun kv => bool_decide (kv.1 = tool_id)) (op_route_tool_names op) with Some kv => kv.2 | None => tool_id end.
Definition parent_holds (op : OperationRegistration) (parent : ParentContext) (tool_id : str) : bool :=
  bool_decide (tool_id ∈ op_operation_routes op) ||
  match pc_tool_ids parent with None => true | Some ids => bool_decide (tool_id ∈ ids) end.
Definition grants (o : AdmissionOwners) (parent : ParentContext) (denied : gset str) (tool_id : str) : bool :=
  let op := ao_operation o in
  let name := route_tool_name op tool_id in
  ao_route_registered o tool_id && parent_holds op parent tool_id &&
  negb (bool_decide (tool_id ∈ pc_withheld parent) || bool_decide (name ∈ pc_withheld parent) || bool_decide (name ∈ denied)) &&
  negb (bool_decide (tool_id = RUN_AGENT_TOOL_NAME) &&
        (bool_decide (op_children op = []) || at_depth_bound (ao_max_spawn_depth o) (pc_depth parent + 1))).
Definition role_denied (o : AdmissionOwners) (parent : ParentContext) : gset str :=
  role_denied_tools (ao_session o) (match pc_tenant parent with Some t => tn_role t | None => invite end) (ao_profile_name o).
Definition granted_tools (o : AdmissionOwners) (parent : ParentContext) : list str :=
  List.filter (grants o parent (role_denied o parent)) (sorted_set (op_route_ceiling (ao_operation o))).

Inductive spawn_result :=
| SpawnAdmitted (c : AdmittedContext Authority)
| SpawnRefused (r : Refusal)
| SpawnUnavailable (detail : OperationUnavailable).
Definition admit_spawn (request : SpawnRequest) (parent : ParentContext) (o : AdmissionOwners) : outcome adm_error spawn_result :=
  let max := ao_max_spawn_depth o in
  let op := ao_operation o in
  if at_depth_bound max (pc_depth parent) then Ret (SpawnRefused depth_refusal)
  else
    let? mismatch := identity_check (ao_identity o) (pc_tenant parent) in
    match mismatch with
    | Some r => Ret (SpawnRefused r)
    | None =>
      if match pc_children parent with Some cs => negb (bool_decide (sr_operation request ∈ cs)) | None => false end
      then Ret (SpawnRefused (refuse grant_exceeds_parent (u "admission tool_grant")))
      else if negb (bool_decide (ungranted_handles (sr_handles request) (pc_handle_grants parent ∪ ao_outputs o) = ∅))
      then Ret (SpawnRefused (refuse handle_not_granted (u "admission handle_grants")))
      else match bind_research (pc_research parent) (sr_binding request) with
      | inr r => Ret (SpawnRefused r)
      | inl research =>
        let? subtree := match ao_frozen_bind o, sr_model_preset request with
                        | None, Some name => let? s := rv_preset_snapshot (ao_resolver o) name in Ret (Some s)
                        | _, _ => Ret None
                        end in
        let snapshot := first_some subtree (pc_snapshot parent) in
        let? bind := match ao_frozen_bind o with
                     | Some b => Ret b
                     | None => rv_select_bind (ao_resolver o) (op_execution_class op) (first_some (sr_role request) (op_role op))
                                 (first_some (sr_effort request) (op_effort op)) snapshot
                     end in
        let? placement := placement_for_run_mode (cb_run_mode bind) in
        match ao_resolve_tool_authority o (list_to_set (granted_tools o parent)) with
        | inr unavailable => Ret (SpawnUnavailable unavailable)
        | inl authority =>
          let route := child_approval_route (pc_approval_route parent) in
          Ret (SpawnAdmitted (mkAdmittedContext
            (mkWire (pc_tenant parent) research bind (sn_to_json <$> snapshot) (selection_provenance request parent o subtree snapshot)
               (rv_selection_lane (ao_resolver o) bind) (op_children op) (au_tools authority) (sorted_set (pc_withheld parent))
               (pc_remaining_usd parent) (environment_projection placement (ao_env_names o)) (approval_route_name route)
               (sort_texts (sr_handles request)) placement (mkLineage (pc_job_id parent) (pc_depth parent + 1)))
            authority route (ao_identity o)))
        end
      end
    end.

(** ** Continuation, messages and handles *)
Definition admit_continuation (request : ContinueRequest) (parent : ParentContext) (o : ContinuationOwners)
    : outcome adm_error (AdmittedContext DurableTask + Refusal) :=
  let task := co_task o in
  let? placement := placement_for_run_mode (cb_run_mode (dt_model_bind task)) in
  let projection := environment_projection placement (co_env_names o) in
  let route := child_approval_route (pc_approval_route parent) in
  match dt_context task with
  | None =>
    Ret (inl (mkAdmittedContext
      (mkWire (pc_tenant parent) (co_research o) (dt_model_bind task) None None JNull [] (dt_tool_grant task)
         (sorted_set (pc_withheld parent)) None projection (approval_route_name route)
         (sorted_set (list_to_set (dt_content_grants task))) placement (mkLineage (pc_job_id parent) (pc_depth parent + 1)))
      task route None))
  | Some original =>
    if negb (bool_decide (wr_tenant original = pc_tenant parent))
    then Ret (inr (refuse tenant_mismatch (u "admission tenant")))
    else
      let relocated := bool_decide (cr_cause request = placement_lost) in
      Ret (inl (mkAdmittedContext
        (mkWire (wr_tenant original) (co_research o) (dt_model_bind task) (wr_snapshot original) (wr_provenance original) (wr_lane original)
           (wr_children original) (dt_tool_grant task) (sorted_set (pc_withheld parent ∪ list_to_set (wr_withheld original)))
           (wr_budget_share original) (if relocated then projection else wr_env_projection original) (approval_route_name route)
           (wr_handle_grants original) (if relocated then placement else wr_placement original) (wr_lineage original))
        task route None))
  end.
Definition context_with_outputs (c : ParentContext) (outputs : gset str) : ParentContext :=
  if bool_decide (outputs ⊆ pc_handle_grants c) then c
  else mkParent (pc_tenant c) (pc_research c) (pc_children c) (pc_tool_ids c) (pc_withheld c) (pc_handle_grants c ∪ outputs)
         (pc_remaining_usd c) (pc_job_id c) (pc_depth c) (pc_approval_route c) (pc_snapshot c) (pc_provenance c).
Definition admit_message (request : MessageRequest) (sender : ParentContext) (recipient : option Tenant) (outputs : gset str)
    : ParentContext + Refusal :=
  match pc_tenant sender, recipient with
  | Some t, Some t' =>
    if negb (bool_decide (t = t')) then inr (refuse tenant_mismatch (u "admission tenant"))
    else
      let c := context_with_outputs sender outputs in
      if bool_decide (ungranted_handles (mr_handle_refs request) (pc_handle_grants c) = ∅) then inl c
      else inr (refuse handle_not_granted (u "admission handle_grants"))
  | _, _ => inr (refuse session_unauthenticated (u "admission tenant"))
  end.
Definition admit_handle (request : HandleRequest) (reader : ParentContext) (outputs : gset str) : ParentContext + Refusal :=
  match pc_tenant reader with
  | None => inr (refuse session_unauthenticated (u "admission tenant"))
  | Some _ =>
    let c := context_with_outputs reader outputs in
    if bool_decide (hr_handle request ∈ pc_handle_grants c) then inl c else inr (refuse handle_not_granted (u "admission handle_grants"))
  end.

Definition context_for_child {A} (admitted : AdmittedContext A) (job_id : str) : outcome adm_error ParentContext :=
  let w := ac_wire admitted in
  let? snapshot := match wr_snapshot w with Some j => let? s := snapshot_from_json j in Ret (Some s) | None => Ret None end in
  Ret (mkParent (wr_tenant w) (wr_research w) (Some (wr_children w)) (Some (list_to_set (wr_tool_grant w))) (list_to_set (wr_withheld w))
         (list_to_set (wr_handle_grants w)) (wr_budget_share w) (Some job_id) (ln_depth (wr_lineage w)) (ac_route admitted) snapshot (wr_provenance w)).

(** ** Root turns *)
Record RootTurnAdmission := mkRootTurn {
  ra_job_id : option str;
  ra_turn_id : str;
  ra_tenant : option Tenant;
  ra_bind : CapabilityBind;
  ra_credential_ref : option str;
  ra_tool_grant : json;
  ra_research : ResearchBinding;
  ra_snapshot : option Snapshot;
  ra_provenance : option Provenance;
  ra_route_kind : route_kind;
  ra_route : ApprovalRoute;
  ra_generation_ref : option str
}.
(** [hex] is [uuid4().hex]. *)
Definition admit_root_turn (c : ParentContext) (bind : CapabilityBind) (tool_grant : json) (route : ApprovalRoute) (hex : str) : RootTurnAdmission :=
  mkRootTurn (pc_job_id c) (u "turn:" ++ hex) (pc_tenant c) bind
    (if is_generation_ref (cb_credential_ref bind) then Some (cb_credential_ref bind) else None)
    tool_grant (pc_research c) (pc_snapshot c) (pc_provenance c) (approval_route_name route) route None.
Definition with_generation_ref (ref : str) (a : RootTurnAdmission) : RootTurnAdmission :=
  mkRootTurn (ra_job_id a) (ra_turn_id a) (ra_tenant a) (ra_bind a) (ra_credential_ref a) (ra_tool_grant a) (ra_research a)
    (ra_snapshot a) (ra_provenance a) (ra_route_kind a) (ra_route a) (Some ref).
Definition provenance_dump (p : Provenance) : json :=
  provenance_json (pv_role p) (pv_role_source p) (pv_effort_source p)
    ((fun x => (pp_name x, pp_scope x, pp_policy_revision x)) <$> pv_preset p) (pv_preset_layer p).
Definition turn_input (a : RootTurnAdmission) (ref : str) : RootTurnInput :=
  mkTurnInput (cb_json (ra_bind a)) (ra_credential_ref a) (ra_tool_grant a) (research_json (rb_file (ra_research a)) (rb_ticker (ra_research a)))
    (match ra_snapshot a with Some s => sn_to_json s | None => JDict [] end)
    (match ra_provenance a with Some p => provenance_dump p | None => JNull end) (route_kind_text (ra_route_kind a)) ref.
Definition record_root_turn_admission (now : Z) (a : RootTurnAdmission) : A RootTurnAdmission :=
  match route_policy (ra_route a), ra_job_id a, ra_tenant a with
  | Some policy, Some job, Some tenant =>
    let! ref := record_policy_generation policy true in
    let! _ := record_root_turn now job (ra_turn_id a) (tn_storage_id tenant) (turn_input a ref) None in
    se_ret (with_generation_ref ref a)
  | _, _, _ => se_ret a
  end.
Definition link_root_park (a : RootTurnAdmission) (call nonce : str) : A unit :=
  match ra_job_id a, ra_tenant a with
  | Some job, Some tenant => link_root_turn_executable_binding job (ra_turn_id a) call nonce (tn_storage_id tenant)
  | _, _ => se_ret tt
  end.
End admission.

(** ** Sorting *)
Lemma insert_text_elem x y l : x ∈ insert_text y l <-> x = y \/ x ∈ l.
Proof.
  induction l as [|z l IH]; simpl; [by rewrite elem_of_cons, elem_of_nil|]. destruct (key_le y z); [by rewrite !elem_of_cons|].
  rewrite !elem_of_cons, IH. tauto.
Qed.
Lemma sort_texts_elem x l : x ∈ sort_texts l <-> x ∈ l.
Proof. induction l as [|y l IH]; [done|]. simpl. by rewrite insert_text_elem, elem_of_cons, IH. Qed.
Lemma sorted_set_elem x s : x ∈ sorted_set s <-> x ∈ s.
Proof. unfold sorted_set. by rewrite sort_texts_elem, elem_of_elements. Qed.
Lemma sorted_set_back s : list_to_set (sorted_set s) = s.
Proof. apply set_eq. intros x. by rewrite elem_of_list_to_set, sorted_set_elem. Qed.
Lemma sort_texts_back l : list_to_set (C := gset str) (sort_texts l) = list_to_set l.
Proof. apply set_eq. intros x. by rewrite !elem_of_list_to_set, sort_texts_elem. Qed.

(** ** Exactness of a spawn *)
Section exact.
Context {env : AdmissionEnv}.

(** A tool is granted exactly when every one of these holds. *)
Record grant_rule (o : AdmissionOwners) (parent : ParentContext) (t : str) : Prop := {
  gt_declared : t ∈ op_route_ceiling (ao_operation o);
  gt_registered : ao_route_registered o t = true;
  gt_held : t ∈ op_operation_routes (ao_operation o) \/ pc_tool_ids parent = None \/ exists ids, pc_tool_ids parent = Some ids /\ t ∈ ids;
  gt_not_withheld : t ∉ pc_withheld parent /\ route_tool_name (ao_operation o) t ∉ pc_withheld parent;
  gt_not_denied : route_tool_name (ao_operation o) t ∉ role_denied o parent;
  gt_can_spawn : t = RUN_AGENT_TOOL_NAME ->
    op_children (ao_operation o) <> [] /\ (ao_max_spawn_depth o < 0 \/ pc_depth parent + 1 < ao_max_spawn_depth o)%Z
}.
Lemma at_depth_bound_false max d : at_depth_bound max d = false <-> (max < 0 \/ d < max)%Z.
Proof. unfold at_depth_bound. rewrite andb_false_iff, !Z.leb_gt. lia. Qed.
Lemma parent_holds_spec op parent t :
  parent_holds op parent t = true <->
  t ∈ op_operation_routes op \/ pc_tool_ids parent = None \/ exists ids, pc_tool_ids parent = Some ids /\ t ∈ ids.
Proof.
  unfold parent_holds. rewrite orb_true_iff, bool_decide_eq_true. destruct (pc_tool_ids parent) as [ids|]; [rewrite bool_decide_eq_true|]; naive_solver.
Qed.
Lemma granted_exact o parent t : t ∈ granted_tools o parent <-> grant_rule o parent t.
Proof.
  unfold granted_tools. rewrite list_elem_of_In, filter_In, <- list_elem_of_In, sorted_set_elem. unfold grants.
  rewrite !andb_true_iff, !negb_true_iff, !orb_false_iff, !bool_decide_eq_false, parent_holds_spec, andb_false_iff.
  rewrite bool_decide_eq_false, orb_false_iff, bool_decide_eq_false, at_depth_bound_false. split.
  - intros (H1 & ((H2 & H3) & ((H4 & H5) & H6)) & H7). constructor; try done. intros ->. destruct H7 as [H7|H7]; [done|exact H7].
  - intros [H1 H2 H3 [H4 H5] H6 H7]. split; [done|]. split; [done|]. destruct (decide (t = RUN_AGENT_TOOL_NAME)); [right; auto|by left].
Qed.
End exact.

(** ** Refusals *)
Section refusals.
Context {env : AdmissionEnv}.

Definition violation (request : SpawnRequest) (parent : ParentContext) (o : AdmissionOwners) (r : RefusalReason) : Prop :=
  match r with
  | depth_exceeded => (0 <= ao_max_spawn_depth o <= pc_depth parent)%Z
  | tenant_mismatch => exists i, ao_identity o = Some i /\ forall t, pc_tenant parent = Some t ->
      ~ (ci_user_id i = tn_storage_id t /\ ci_role i = JStr (role_name (tn_role t)))
  | grant_exceeds_parent => exists cs, pc_children parent = Some cs /\ sr_operation request ∉ cs
  | handle_not_granted => exists h, h ∈ sr_handles request /\ h ∉ pc_handle_grants parent /\ h ∉ ao_outputs o
  | binding_not_granted => exists f q g, rb_file (pc_research parent) = Some f /\ sr_binding request = Some q /\ rb_file q = Some g /\ g <> f
  | binding_ambiguous => exists f q t, rb_file (pc_research parent) = Some f /\ sr_binding request = Some q /\ rb_file q = None /\
      rb_ticker q = Some t /\ rb_ticker (pc_research parent) <> Some t
  | _ => False
  end.
(** The order in which the reasons are looked for. *)
Definition reason_order : list RefusalReason :=
  [depth_exceeded; tenant_mismatch; grant_exceeds_parent; handle_not_granted; binding_not_granted; binding_ambiguous].

Lemma depth_check request parent o :
  if at_depth_bound (ao_max_spawn_depth o) (pc_depth parent) then violation request parent o depth_exceeded else ~ violation request parent o depth_exceeded.
Proof. simpl. unfold at_depth_bound. destruct (Z.leb_spec 0 (ao_max_spawn_depth o)), (Z.leb_spec (ao_max_spawn_depth o) (pc_depth parent)); simpl; lia. Qed.
Lemma role_name_inj a b : role_name a = role_name b -> a = b.
Proof. by destruct a, b. Qed.
Lemma exact_role_spec v r : require_exact_role v = Ret r -> v = JStr (role_name r).
Proof. unfold require_exact_role. intros H. destruct v; try done. by repeat case_bool_decide; simplify_eq. Qed.
Lemma identity_spec request parent o m :
  identity_check (ao_identity o) (pc_tenant parent) = Ret m ->
  match m with
  | Some r => r = refuse tenant_mismatch (u "admission tenant") /\ violation request parent o tenant_mismatch
  | None => ~ violation request parent o tenant_mismatch
  end.
Proof.
  unfold identity_check. destruct (ao_identity o) as [i|] eqn:Hi; [|intros [= <-] (i & E & _); congruence].
  destruct (require_exact_role (ci_role i)) as [r|] eqn:Hr; [|done]. apply exact_role_spec in Hr. cbn [obind]. intros [= <-].
  destruct (pc_tenant parent) as [t|] eqn:Ht.
  - case_bool_decide as E1; [case_bool_decide as E2|]; cbn [andb].
    + intros (i' & E & H). rewrite Hi in E. injection E as <-. apply (H t Ht). split; [done|]. rewrite Hr. by subst r.
    + split; [done|]. exists i. split; [done|]. intros t' Ht' [_ F2]. rewrite Ht in Ht'. injection Ht' as <-.
      rewrite Hr in F2. injection F2 as F2. by apply E2, role_name_inj.
    + split; [done|]. exists i. split; [done|]. intros t' Ht' [F1 _]. rewrite Ht in Ht'. by injection Ht' as <-.
  - split; [done|]. exists i. split; [done|]. intros t. rewrite Ht. done.
Qed.
Lemma children_check request parent o :
  if match pc_children parent with Some cs => negb (bool_decide (sr_operation request ∈ cs)) | None => false end
  then violation request parent o grant_exceeds_parent else ~ violation request parent o grant_exceeds_parent.
Proof. simpl. destruct (pc_children parent) as [cs|]; [|naive_solver]. case_bool_decide; simpl; naive_solver. Qed.
Lemma ungranted_none handles granted : ungranted_handles handles granted = ∅ <-> forall h, h ∈ handles -> h ∈ granted.
Proof.
  unfold ungranted_handles. split.
  - intros H h Hh. destruct (decide (h ∈ granted)) as [|Hn]; [done|]. exfalso.
    assert (h ∈ list_to_set (C := gset str) handles ∖ granted) as Hx by (rewrite elem_of_difference, elem_of_list_to_set; done).
    rewrite H in Hx. by apply elem_of_empty in Hx.
  - intros H. apply set_eq. intros h. rewrite elem_of_difference, elem_of_list_to_set, elem_of_empty. naive_solver.
Qed.
Lemma handles_check request parent o :
  if negb (bool_decide (ungranted_handles (sr_handles request) (pc_handle_grants parent ∪ ao_outputs o) = ∅))
  then violation request parent o handle_not_granted else ~ violation request parent o handle_not_granted.
Proof.
  case_bool_decide as H; cbn [negb violation].
  - rewrite ungranted_none in H. intros (h & Hh & H1 & H2). specialize (H h Hh). set_solver.
  - apply set_choose_L in H as [h Hh]. unfold ungranted_handles in Hh. rewrite elem_of_difference, elem_of_list_to_set, elem_of_union in Hh.
    exists h. tauto.
Qed.
Lemma research_spec request parent o :
  match bind_research (pc_research parent) (sr_binding request) with
  | inl r => ~ violation request parent o binding_not_granted /\ ~ violation request parent o binding_ambiguous /\
             (forall f, rb_file (pc_research parent) = Some f -> rb_file r = Some f)
  | inr r => (r = refuse binding_not_granted (u "admission research_binding") /\ violation request parent o binding_not_granted) \/
             (r = refuse binding_ambiguous (u "admission research_binding") /\ ~ violation request parent o binding_not_granted /\
              violation request parent o binding_ambiguous)
  end.
Proof.
  unfold bind_research. simpl. destruct (sr_binding request) as [[qf qt]|]; [|split; [naive_solver|split; [naive_solver|done]]].
  destruct (pc_research parent) as [[f|] pt]; cbn [rb_file rb_ticker]; [|split; [naive_solver|split; [naive_solver|done]]].
  destruct qf as [g|].
  - case_bool_decide; cbn [negb]; [|left; split; [done|by exists f, (mkResearch (Some g) qt), g]]. subst.
    split; [naive_solver|]. split; [naive_solver|]. done.
  - destruct qt as [t|]; [|split; [naive_solver|split; [naive_solver|done]]].
    case_bool_decide; cbn [negb]; [split; [naive_solver|split; [naive_solver|done]]|].
    right. split; [done|]. split; [naive_solver|]. by exists f, (mkResearch None (Some t)), t.
Qed.

Ltac reason_at k :=
  exists (take k reason_order), (drop (S k) reason_order); split; [done|]; split; [done|]; split; [|done];
  intros ? Hbefore; repeat (apply elem_of_cons in Hbefore as [->|Hbefore]; [done|]); by apply elem_of_nil in Hbefore.

Lemma spawn_decision request parent o res :
  admit_spawn request parent o = Ret res ->
  match res with
  | SpawnRefused r =>
    exists before after, reason_order = before ++ rf_reason r :: after /\
      violation request parent o (rf_reason r) /\ (forall r', r' ∈ before -> ~ violation request parent o r') /\
      (rf_resource r = true <-> rf_reason r = depth_exceeded)
  | _ => forall r, ~ violation request parent o r
  end.
Proof.
  unfold admit_spawn. cbv zeta. pose proof (depth_check request parent o) as H1.
  destruct (at_depth_bound _ _) eqn:E1; [intros [= <-]; reason_at 0|].
  destruct (identity_check _ _) as [m|] eqn:E2; [|done]. cbn [obind]. apply (identity_spec request parent o) in E2.
  destruct m as [r|]; [destruct E2 as [-> H2]; intros [= <-]; reason_at 1|].
  pose proof (children_check request parent o) as H3.
  destruct (match pc_children parent with Some _ => _ | None => _ end) eqn:E3; [intros [= <-]; reason_at 2|].
  pose proof (handles_check request parent o) as H4. destruct (negb _) eqn:E4; [intros [= <-]; reason_at 3|].
  pose proof (research_spec request parent o) as H5. destruct (bind_research _ _) as [rb|r].
  2:{ intros [= <-]. destruct H5 as [[-> H5]|(-> & H5 & H6)]; [reason_at 4|reason_at 5]. }
  destruct H5 as (H5 & H6 & _). assert (Hall : forall r, ~ violation request parent o r) by (intros []; done || tauto).
  intros Hrun. destruct (match ao_frozen_bind o with Some _ => _ | None => _ end) as [sub|] in Hrun; [|done]. cbn [obind] in Hrun.
  destruct (match ao_frozen_bind o with Some _ => _ | None => _ end) as [bind|] in Hrun; [|done]. cbn [obind] in Hrun.
  destruct (placement_for_run_mode _) as [pl|]; [|done]. cbn [obind] in Hrun.
  destruct (ao_resolve_tool_authority _ _) as [au|un]; injection Hrun as <-; done.
Qed.

(** C26: A spawn is refused exactly for the first of the six reasons, in order,
    whose condition the request violates, the depth bound being the only
    resource refusal; a spawn that is admitted or finds its tools unavailable
    violates none. *)
Theorem spawn_refusals_exact request parent o res :
  admit_spawn request parent o = Ret res ->
  match res with
  | SpawnRefused r =>
    exists before after, reason_order = before ++ rf_reason r :: after /\
      violation request parent o (rf_reason r) /\ (forall r', r' ∈ before -> ~ violation request parent o r') /\
      (rf_resource r = true <-> rf_reason r = depth_exceeded)
  | _ => forall r, ~ violation request parent o r
  end.
Proof. exact (spawn_decision request parent o res). Qed.
End refusals.

(** ** The tree of jobs

    Everything that can be reached from a root context: contexts of admitted
    children, spawned anywhere in the tree or continued under any job of it, and
    contexts that a message or a read extended by outputs. [produced] are the
    handles jobs of the tree put out, [doors] the research doors that operations
    declare: [run_agent] takes the doors of the operation it starts off the
    withheld set of the parent it presents. [exposes t t'] says that [t'] is the
    name under which the dispatcher offers the canonical tool [t]: its own name,
    or the exposed name of an MCP route. *)
(** [replace(root, withheld=root.withheld - frozenset(granted_doors))] *)
Definition open_doors (granted : gset str) (p : ParentContext) : ParentContext :=
  mkParent (pc_tenant p) (pc_research p) (pc_children p) (pc_tool_ids p) (pc_withheld p ∖ granted) (pc_handle_grants p)
    (pc_remaining_usd p) (pc_job_id p) (pc_depth p) (pc_approval_route p) (pc_snapshot p) (pc_provenance p).

Section tree.
Context {env : AdmissionEnv} (root : ParentContext) (max : Z) (produced doors : gset str) (exposes : str -> str -> Prop).

(** The tool resolution names tools of the ceiling it is given. *)
Definition authority_within (o : AdmissionOwners) : Prop :=
  forall ceiling a, ao_resolve_tool_authority o ceiling = inl a -> forall t, t ∈ au_tools a -> exists t0, t0 ∈ ceiling /\ exposes t0 t.
(** The tools that stay withheld in the whole tree *)
Abbreviation kept := (pc_withheld root ∖ doors).

Inductive job : ParentContext -> Prop :=
| job_root : job root
| job_child {T} (c : AdmittedContext T) id ctx : admitted (ac_wire c) (ac_route c) -> context_for_child c id = Ret ctx -> job ctx
| job_message p req recipient outputs p' : job p -> outputs ⊆ produced -> admit_message req p recipient outputs = inl p' -> job p'
| job_handle p req outputs p' : job p -> outputs ⊆ produced -> admit_handle req p outputs = inl p' -> job p'
with admitted : ContextWire -> ApprovalRoute -> Prop :=
| admitted_spawn p granted req o c : job p -> granted ⊆ doors -> ao_max_spawn_depth o = max -> ao_outputs o ⊆ produced -> authority_within o ->
    admit_spawn req (open_doors granted p) o = Ret (SpawnAdmitted c) -> admitted (ac_wire c) (ac_route c)
| admitted_again p req o w route c : job p -> admitted w route -> dt_context (co_task o) = Some w ->
    dt_tool_grant (co_task o) = wr_tool_grant w -> co_research o = wr_research w ->
    admit_continuation req p o = Ret (inl c) -> admitted (ac_wire c) (ac_route c).
Scheme job_mut := Minimality for job Sort Prop with admitted_mut := Minimality for admitted Sort Prop.

(** What holds of a child, by its wire and route. *)
Record confined (w : ContextWire) (route : ApprovalRoute) : Prop := {
  cf_tenant : wr_tenant w = pc_tenant root;
  cf_withheld : forall t, t ∈ kept -> t ∈ wr_withheld w;
  cf_tools : forall t, t ∈ wr_tool_grant w -> exists t0, exposes t0 t /\ t0 ∉ kept;
  cf_delegates : RUN_AGENT_TOOL_NAME ∈ wr_tool_grant w -> wr_children w <> [] /\ (max < 0 \/ ln_depth (wr_lineage w) < max)%Z;
  cf_depth : (pc_depth root < ln_depth (wr_lineage w))%Z /\ (max < 0 \/ ln_depth (wr_lineage w) <= max)%Z;
  cf_handles : forall h, h ∈ wr_handle_grants w -> h ∈ pc_handle_grants root ∪ produced;
  cf_research : forall f, rb_file (pc_research root) = Some f -> rb_file (wr_research w) = Some f;
  cf_route : route = child_approval_route (pc_approval_route root)
}.
(** What holds of every context of the tree: it is the root's, up to outputs, or
    the context of such a child. *)
Record attenuated (c : ParentContext) : Prop := {
  at_tenant : pc_tenant c = pc_tenant root;
  at_withheld : kept ⊆ pc_withheld c;
  at_tools : (pc_tool_ids c = pc_tool_ids root /\ pc_children c = pc_children root /\ pc_depth c = pc_depth root) \/
    (exists ids cs, pc_tool_ids c = Some ids /\ pc_children c = Some cs /\ (forall t, t ∈ ids -> exists t0, exposes t0 t /\ t0 ∉ kept) /\ (pc_depth root < pc_depth c)%Z /\
       (max < 0 \/ pc_depth c <= max)%Z /\ (RUN_AGENT_TOOL_NAME ∈ ids -> cs <> [] /\ (max < 0 \/ pc_depth c < max)%Z));
  at_handles : pc_handle_grants c ⊆ pc_handle_grants root ∪ produced;
  at_research : forall f, rb_file (pc_research root) = Some f -> rb_file (pc_research c) = Some f;
  at_route : pc_approval_route c = pc_approval_route root \/ pc_approval_route c = child_approval_route (pc_approval_route root)
}.
Lemma child_route_idemp r : child_approval_route (child_approval_route r) = child_approval_route r.
Proof. by destruct r. Qed.
Lemma attenuated_route c : attenuated c -> child_approval_route (pc_approval_route c) = child_approval_route (pc_approval_route root).
Proof. intros [_ _ _ _ _ [E|E]]; rewrite E; [done|apply child_route_idemp]. Qed.
Lemma attenuated_depth c : attenuated c -> (pc_depth root <= pc_depth c)%Z.
Proof. intros [_ _ [(_ & _ & ->)|(ids & cs & _ & _ & _ & H & _)] _ _ _]; lia. Qed.

(** What an admitted spawn carries. *)
Record narrowed (p : ParentContext) (req : SpawnRequest) (o : AdmissionOwners) (w : ContextWire) (route : ApprovalRoute) : Prop := {
  nr_tenant : wr_tenant w = pc_tenant p;
  nr_children : wr_children w = op_children (ao_operation o);
  nr_withheld : wr_withheld w = sorted_set (pc_withheld p);
  nr_depth : ln_depth (wr_lineage w) = (pc_depth p + 1)%Z;
  nr_handles : wr_handle_grants w = sort_texts (sr_handles req);
  nr_research : forall f, rb_file (pc_research p) = Some f -> rb_file (wr_research w) = Some f;
  nr_tools : exists a, ao_resolve_tool_authority o (list_to_set (granted_tools o p)) = inl a /\ wr_tool_grant w = au_tools a;
  nr_route : route = child_approval_route (pc_approval_route p);
  nr_violations : forall r, ~ violation req p o r
}.
Lemma spawn_narrowed p req o c : admit_spawn req p o = Ret (SpawnAdmitted c) -> narrowed p req o (ac_wire c) (ac_route c).
Proof.
  intros Hrun. assert (Hv : forall r, ~ violation req p o r) by exact (spawn_decision req p o _ Hrun).
  revert Hrun. unfold admit_spawn. cbv zeta. destruct (at_depth_bound _ _); [done|]. destruct (identity_check _ _) as [[r|]|]; [done| |done].
  cbn [obind]. destruct (match pc_children p with Some _ => _ | None => _ end); [done|]. destruct (negb _); [done|].
  pose proof (research_spec req p o) as H5. destruct (bind_research _ _) as [rb|r]; [|done]. intros Hrun.
  destruct (match ao_frozen_bind o with Some _ => _ | None => _ end) as [sub|] in Hrun; [|done]. cbn [obind] in Hrun.
  destruct (match ao_frozen_bind o with Some _ => _ | None => _ end) as [bind|] in Hrun; [|done]. cbn [obind] in Hrun.
  destruct (placement_for_run_mode _) as [pl|]; [|done]. cbn [obind] in Hrun.
  destruct (ao_resolve_tool_authority _ _) as [au|un] eqn:Ha; [|done]. injection Hrun as <-.
  constructor; try done; [apply H5|]. by exists au.
Qed.
Lemma open_doors_attenuated granted p : granted ⊆ doors -> attenuated p -> attenuated (open_doors granted p).
Proof. intros Hg [A1 A2 A3 A4 A5 A6]. constructor; cbn; try done. set_solver. Qed.
(** No other tool is exposed as [run_agent]. *)
Context (Hrun_agent : forall t, exposes t RUN_AGENT_TOOL_NAME -> t = RUN_AGENT_TOOL_NAME).
Lemma spawn_confined p req o c :
  attenuated p -> ao_max_spawn_depth o = max -> ao_outputs o ⊆ produced -> authority_within o ->
  admit_spawn req p o = Ret (SpawnAdmitted c) -> confined (ac_wire c) (ac_route c).
Proof.
  intros Hp Hmax Hout Hwithin Hrun. apply spawn_narrowed in Hrun as [N1 N2 N3 N4 N5 N6 (a & Ha & N7) N8 N9].
  assert (Hg : forall t, t ∈ wr_tool_grant (ac_wire c) -> exists t0, exposes t0 t /\ grant_rule o p t0).
  { intros t Ht. rewrite N7 in Ht. apply (Hwithin _ _ Ha) in Ht as (t0 & Ht & He). exists t0. split; [done|]. apply granted_exact. by apply elem_of_list_to_set in Ht. }
  pose proof (attenuated_depth p Hp) as Hd. constructor.
  - rewrite N1. apply Hp.
  - intros t Ht. rewrite N3. apply sorted_set_elem. by apply (at_withheld _ Hp).
  - intros t Ht. destruct (Hg t Ht) as (t0 & He & Hr). exists t0. split; [done|]. intros Hw. apply (proj1 (gt_not_withheld _ _ _ Hr)). by apply (at_withheld _ Hp).
  - intros Ht. destruct (Hg _ Ht) as (t0 & ->%Hrun_agent & Hr). destruct (gt_can_spawn _ _ _ Hr eq_refl) as [H1 H2]. rewrite N2, N4, <- Hmax. done.
  - rewrite N4. split; [lia|]. pose proof (N9 depth_exceeded) as Hb. simpl in Hb. rewrite Hmax in Hb. lia.
  - intros h Hh. rewrite N5, sort_texts_elem in Hh. pose proof (N9 handle_not_granted) as Hb. simpl in Hb.
    destruct (decide (h ∈ pc_handle_grants p)) as [H1|H1]; [by apply (at_handles _ Hp)|].
    destruct (decide (h ∈ ao_outputs o)) as [H2|H2]; [apply elem_of_union_r; by apply Hout|]. destruct Hb. exists h. split; [exact Hh|]. split; [exact H1|exact H2].
  - intros f Hf. apply N6. by apply (at_research _ Hp).
  - rewrite N8. by apply attenuated_route.
Qed.
Lemma continuation_confined p req o w route c :
  attenuated p -> confined w route -> dt_context (co_task o) = Some w -> dt_tool_grant (co_task o) = wr_tool_grant w ->
  co_research o = wr_research w -> admit_continuation req p o = Ret (inl c) -> confined (ac_wire c) (ac_route c).
Proof.
  intros Hp [C1 C2 C3 C4 C5 C6 C7 C8] Hw Ht Hr. unfold admit_continuation. destruct (placement_for_run_mode _) as [pl|]; [|done]. cbn [obind].
  rewrite Hw. destruct (negb _); [done|]. intros [= <-]. constructor; cbn -[sorted_set]; rewrite ?Ht, ?Hr; try done.
  - intros t H. apply sorted_set_elem. apply elem_of_union_r, elem_of_list_to_set. auto.
  - by apply attenuated_route.
Qed.
Lemma child_attenuated {T} (c : AdmittedContext T) id ctx :
  confined (ac_wire c) (ac_route c) -> context_for_child c id = Ret ctx -> attenuated ctx.
Proof.
  intros [C1 C2 C3 C4 C5 C6 C7 C8]. unfold context_for_child. cbv zeta.
  destruct (match wr_snapshot _ with Some _ => _ | None => _ end) as [s|]; [|done]. cbn [obind]. intros [= <-]. constructor; cbn.
  - done.
  - intros t Ht. apply elem_of_list_to_set. auto.
  - right. exists (list_to_set (wr_tool_grant (ac_wire c))), (wr_children (ac_wire c)). split; [done|]. split; [done|]. split.
    + intros t Ht%elem_of_list_to_set. by apply C3.
    + split; [apply C5|]. split; [apply C5|]. intros Ht%elem_of_list_to_set. auto.
  - intros h Hh%elem_of_list_to_set. auto.
  - done.
  - by right.
Qed.
Lemma outputs_attenuated c outputs : outputs ⊆ produced -> attenuated c -> attenuated (context_with_outputs c outputs).
Proof.
  intros Ho [A1 A2 A3 A4 A5 A6]. unfold context_with_outputs. case_bool_decide; [done|]. constructor; cbn; try done. set_solver.
Qed.
Lemma root_attenuated : attenuated root.
Proof. constructor; [done|set_solver|by left|set_solver|done|by left]. Qed.

(** C11: Authority only narrows on the way down, but for declared doors. Let the
    tool resolution of every spawn return only tools of the ceiling it was given,
    under the names the dispatcher exposes them by, and let no other tool be
    exposed as [run_agent]. Then, whatever jobs of a tree spawn, send or read, and
    whichever of its tasks they continue under the context, grant and research
    binding that were recorded when it was admitted, every context of the tree
    keeps the root's tenant and research file, is withheld everything the root is
    withheld except the doors its operations declare, holds (below the root) only
    tools exposed for a tool that is not so withheld, holds only handles of the
    root or produced in the tree, and asks through the root's ledger or channel; no
    job is deeper than the spawn bound, and none at the bound, or without child
    operations, holds [run_agent]. *)
Theorem authority_attenuates c : job c -> attenuated c.
Proof.
  apply (job_mut attenuated confined).
  - apply root_attenuated.
  - intros T c' id ctx _ Hc. by apply child_attenuated.
  - intros p req recipient outputs p' _ Hp Ho. unfold admit_message. destruct (pc_tenant p) as [t|]; [|done]. destruct recipient as [t'|]; [|done].
    destruct (negb _); [done|]. case_bool_decide; [|done]. intros [= <-]. by apply outputs_attenuated.
  - intros p req outputs p' _ Hp Ho. unfold admit_handle. destruct (pc_tenant p) as [t|]; [|done]. case_bool_decide; [|done]. intros [= <-].
    by apply outputs_attenuated.
  - intros p granted req o c' _ Hp Hg. apply spawn_confined. by apply open_doors_attenuated.
  - intros p req o w route c' _ Hp _ Hw H1 H2 H3 H4. by apply (continuation_confined p req o w route c').
Qed.
End tree.

(** ** Messages, reads and captured contexts *)
Section contexts.
Context {env : AdmissionEnv} {store_env : StoreEnv}.

(** The two contexts differ at most in their handles. *)
Definition with_handles (c : ParentContext) (hs : gset str) : ParentContext :=
  mkParent (pc_tenant c) (pc_research c) (pc_children c) (pc_tool_ids c) (pc_withheld c) hs
    (pc_remaining_usd c) (pc_job_id c) (pc_depth c) (pc_approval_route c) (pc_snapshot c) (pc_provenance c).
Lemma context_with_outputs_exact c outputs : context_with_outputs c outputs = with_handles c (pc_handle_grants c ∪ outputs).
Proof.
  unfold context_with_outputs. case_bool_decide as H; [|done]. replace (pc_handle_grants c ∪ outputs) with (pc_handle_grants c) by set_solver.
  by destruct c.
Qed.
(** A message is admitted exactly when sender and recipient are authenticated
    as the same tenant and every handle it refers to is granted to the sender or
    is an output of it; a read, exactly when the reader is authenticated and
    holds the handle. What is admitted is the caller's own context with its
    outputs: nothing of it reaches another job. *)
Theorem message_and_read_exact message read c recipient outputs c' :
  (admit_message message c recipient outputs = inl c' <->
     (exists t, pc_tenant c = Some t /\ recipient = Some t) /\
     (forall h, h ∈ mr_handle_refs message -> h ∈ pc_handle_grants c ∪ outputs) /\ c' = with_handles c (pc_handle_grants c ∪ outputs)) /\
  (admit_handle read c outputs = inl c' <->
     is_Some (pc_tenant c) /\ hr_handle read ∈ pc_handle_grants c ∪ outputs /\ c' = with_handles c (pc_handle_grants c ∪ outputs)).
Proof.
  unfold admit_message, admit_handle. rewrite context_with_outputs_exact. cbn [pc_handle_grants with_handles]. split.
  - destruct (pc_tenant c) as [t|]; [|naive_solver]. destruct recipient as [t'|]; [|naive_solver].
    case_bool_decide as Ht; cbn [negb]; [|naive_solver]. subst t'. case_bool_decide as Hu; rewrite ungranted_none in Hu; naive_solver.
  - destruct (pc_tenant c) as [t|]; [|split; [done|intros ([? ?] & _); done]]. case_bool_decide; naive_solver.
Qed.

(** A turn edge captures its root and a child is never re-rooted: the context
    a session captured for the child it executes is returned unchanged, with
    its narrowed tools; any other session captures a root of its own tenant,
    depth and route, which its tools then read. *)
Theorem root_capture s withheld file ticker usd snapshot prov s' c :
  root_context (Some s) withheld file ticker usd snapshot prov = Ret (s', c) ->
  exists x, s' = Some x /\ current_parent_context x = Ret c /\
    ((exists c0 cs, ss_job_context s = Some c0 /\ pc_children c0 = Some cs /\ c = c0 /\ x = s) \/
     ((forall c0, ss_job_context s = Some c0 -> pc_children c0 = None) /\ pc_children c = None /\ pc_tool_ids c = None /\
      pc_withheld c = withheld /\ pc_depth c = 0%Z /\ pc_handle_grants c = ∅ /\ pc_approval_route c = session_approval_route (Some s) /\
      exists t, pc_tenant c = Some t /\ ss_owner_user_id s = Some (tn_storage_id t) /\ inherited_role (ss_identity s) = Ret (tn_role t))).
Proof.
  unfold root_context. cbn [mbind option_bind]. set (minted := obind _ _).
  assert (Hm : minted = Ret (s', c) -> (forall c0, ss_job_context s = Some c0 -> pc_children c0 = None) ->
    exists x, s' = Some x /\ current_parent_context x = Ret c /\
    ((exists c0 cs, ss_job_context s = Some c0 /\ pc_children c0 = Some cs /\ c = c0 /\ x = s) \/
     ((forall c0, ss_job_context s = Some c0 -> pc_children c0 = None) /\ pc_children c = None /\ pc_tool_ids c = None /\
      pc_withheld c = withheld /\ pc_depth c = 0%Z /\ pc_handle_grants c = ∅ /\ pc_approval_route c = session_approval_route (Some s) /\
      exists t, pc_tenant c = Some t /\ ss_owner_user_id s = Some (tn_storage_id t) /\ inherited_role (ss_identity s) = Ret (tn_role t)))).
  { unfold minted, session_owner_user_id. intros Hrun Hno. destruct (ss_owner_user_id s) as [[|x o]|]; [done| |done]. cbn [obind] in Hrun.
    destruct (inherited_role (ss_identity s)) as [role|] eqn:Hr; [|done]. cbn [obind fmap option_fmap option_map] in Hrun. injection Hrun as <- <-.
    eexists. split; [reflexivity|]. split; [done|]. right. repeat split; [exact Hno|]. by eexists. }
  destruct (ss_job_context s) as [c0|] eqn:Hc; [|intros Hrun; by apply Hm].
  destruct (pc_children c0) as [cs|] eqn:Hch.
  - destruct c0. cbn in Hch. subst. intros [= <- <-]. eexists. split; [done|]. split; [unfold current_parent_context; by rewrite Hc|].
    left. eexists _, _. split; [done|]. done.
  - destruct c0. cbn in Hch. subst. intros Hrun. apply Hm; [exact Hrun|]. by intros c0 [= <-].
Qed.

Lemma generation_recorded g db db' ref :
  record_policy_generation g true db = (db', Ret ref) -> generations db' !! ref = Some (g, true) /\ root_turns db' = root_turns db.
Proof.
  unfold record_policy_generation. destruct (digest_of _) as [d|]; [|done]. unfold transact, se_bind, se_get. cbv beta iota zeta.
  destruct (generations db !! (u "approval-policy:" ++ d)) as [[g0 b]|] eqn:Hg; cbn [se_ret].
  - rewrite Hg. case_bool_decide; cbn [negb se_raise se_put se_ret]; [|done]. intros [= <- <-]. subst. cbn. by rewrite lookup_insert_eq.
  - destruct (existsb _ _); [done|]. cbn [se_put set_generations generations]. rewrite lookup_insert_eq. cbn [se_ret].
    case_bool_decide; cbn [negb se_raise se_put se_ret]; [|done]. intros [= <- <-]. cbn. by rewrite lookup_insert_eq.
Qed.
Lemma turn_recorded now job turn tenant i db db' :
  record_root_turn now job turn tenant i None db = (db', Ret tt) ->
  generations db' = generations db /\ (forall k, k <> (job, turn) -> root_turns db' !! k = root_turns db !! k) /\
  exists t, root_turns db' !! (job, turn) = Some t /\ rt_tenant_storage_id t = tenant /\ rt_approval_route_kind t = ri_approval_route_kind i /\
    rt_generation_ref t = ri_generation_ref i /\ dump_dict (ri_effective_grant i) = Some (rt_effective_grant_json t).
Proof.
  unfold record_root_turn, record_root_turn_locked, transact.
  destruct (dump_dict (ri_capability_bind i)) as [cap|]; [|done]. destruct (dump_dict (ri_effective_grant i)) as [grant|]; [|done].
  destruct (dump_opt_dict (ri_research_binding i)) as [re|]; [|done]. destruct (dump_dict (ri_selection_snapshot i)) as [se|]; [|done].
  destruct (dump_opt_dict (ri_selection_provenance i)) as [pr|]; [|done]. destruct (digest_of _) as [gd|]; [|done].
  unfold se_bind, se_get. cbv beta iota zeta. destruct (root_turns db !! (job, turn)) as [ex|] eqn:Hex.
  - case_bool_decide as Ht; cbn [negb se_raise]; [|done]. destruct (turn_digest _ _ _) as [d|]; [|done]. case_bool_decide as Hs; [|done].
    intros [= <-]. split; [done|]. split; [done|]. exists ex. unfold with_turn_digest in Hs. destruct ex. cbn in *. subst. injection Hs. intros. repeat split; congruence.
  - destruct (turn_digest _ _ _) as [d|]; [|done]. case_bool_decide; [|done]. intros [= <-]. split; [done|]. cbn. split.
    + intros k Hk. by rewrite lookup_insert_ne.
    + eexists. rewrite lookup_insert_eq. done.
Qed.
(** Recording a root turn leaves in the ledger the turn's row with exactly its
    tenant, route kind and tool grant, under a recorded generation of the policy
    of its own approval route, and touches no other turn; a turn without a
    policy, job or tenant records nothing. *)
Theorem root_turn_recorded now a db db' a' :
  record_root_turn_admission now a db = (db', Ret a') ->
  match route_policy (ra_route a), ra_job_id a, ra_tenant a with
  | Some policy, Some job, Some tenant =>
    exists ref t, a' = with_generation_ref ref a /\ generations db' !! ref = Some (policy, true) /\
      root_turns db' !! (job, ra_turn_id a) = Some t /\ rt_tenant_storage_id t = tn_storage_id tenant /\
      rt_approval_route_kind t = route_kind_text (ra_route_kind a) /\ rt_generation_ref t = ref /\
      dump_dict (ra_tool_grant a) = Some (rt_effective_grant_json t) /\
      (forall k, k <> (job, ra_turn_id a) -> root_turns db' !! k = root_turns db !! k)
  | _, _, _ => db' = db /\ a' = a
  end.
Proof.
  unfold record_root_turn_admission. destruct (route_policy (ra_route a)) as [policy|]; [|by intros [= <- <-]].
  destruct (ra_job_id a) as [job|]; [|by intros [= <- <-]]. destruct (ra_tenant a) as [tenant|]; [|by intros [= <- <-]].
  unfold se_bind at 1. destruct (record_policy_generation policy true db) as [db1 [ref|e]] eqn:Hg; [|done].
  apply generation_recorded in Hg as [Hg Hr]. unfold se_bind.
  destruct (record_root_turn _ _ _ _ _ _ db1) as [db2 [[]|e]] eqn:Ht; [|done]. intros [= <- <-].
  apply turn_recorded in Ht as (T1 & T2 & t & T3 & T4 & T5 & T6 & T7). exists ref, t. split; [done|]. rewrite T1.
  repeat split; try done. intros k Hk. by rewrite T2, Hr.
Qed.
End contexts.

(** ** Concrete admissions

    The owner's root is withheld orders; its analyst may start scouts and asks
    for a ceiling that includes orders. *)
Section examples.
#[local] Existing Instance ApprovalLifecycle.demo_store_env.
#[local] Instance demo_admission : AdmissionEnv := {|
  role_denied_tools := fun _ r _ => match r with owner => ∅ | invite => {[u "edit"]} end;
  inherited_role := fun _ => Ret owner;
  snapshot_from_json := fun _ => Raise SnapshotError;
  is_generation_ref := py_startswith (u "anthropic:");
  research_json := fun f _ => match f with Some z => JDict [(u "research_file_id", JInt z)] | None => JNull end;
  provenance_json := fun _ _ _ _ _ => JDict [];
  user_storage_id_env := u "USER_STORAGE_ID"
|}.
Definition demo_tenant : Tenant := mkTenant None (u "alice") owner.
Definition demo_policy : PolicyGeneration := mkGeneration (u "p") (u "1") (u "h").
Definition demo_session : Session :=
  mkSession 7 (Some (u "root")) None (Some (u "alice")) (Some (DurableLocal (mkLedger 1 demo_policy 7))) None.
Definition demo_root : ParentContext :=
  root_context_from_identity (Some demo_tenant) (Some (u "root")) None {[u "place_order"; u "open_door"]} (mkResearch (Some 4%Z) None)
    (DurableLocal (mkLedger 1 demo_policy 7)) None None None.
Definition demo_bind : CapabilityBind := mkBind (u "interactive") (u "anthropic:1") (JDict []).
Definition demo_exposed (t : str) : str := if bool_decide (t = u "mcp__web__search") then u "search" else t.
Definition demo_owners (name : string) (children : list str) : AdmissionOwners :=
  mkOwners (mkRegistration (u name) (u "agent") {[u "mcp__web__search"; u "place_order"; u "open_door"; RUN_AGENT_TOOL_NAME]} ∅ [] children None None)
    (mkResolver (fun _ => Raise ResolutionError) (fun _ _ _ _ => Ret demo_bind) (fun _ => JNull) (fun _ => None) [])
    (Some 7) (fun _ => true) (fun s => inl (mkAuthority (demo_exposed <$> sorted_set s))) 2 ∅ ∅ None None None.
Definition demo_request (name : string) : SpawnRequest := mkSpawnRequest (u name) (u "look") [] None None None None.
Definition demo_exposes (t t' : str) : Prop := t' = demo_exposed t.
Lemma demo_within name children : authority_within demo_exposes (demo_owners name children).
Proof. intros s a [= <-] t Ht. cbn in Ht. apply list_elem_of_fmap in Ht as (t0 & -> & Ht%sorted_set_elem). by exists t0. Qed.
Lemma demo_exposes_run_agent t : demo_exposes t RUN_AGENT_TOOL_NAME -> t = RUN_AGENT_TOOL_NAME.
Proof. unfold demo_exposes, demo_exposed. case_bool_decide; [|done]. intros E%eq_sym. by vm_compute in E. Qed.

Lemma authority_attenuates_witness :
  exists c, job demo_root 2 ∅ {[u "open_door"]} demo_exposes c /\
    pc_tool_ids c = Some {[u "search"; u "open_door"; RUN_AGENT_TOOL_NAME]} /\ pc_tenant c = Some demo_tenant /\
    pc_approval_route c = InProcessDelegated (mkLedger 1 demo_policy 7).
Proof.
  destruct (admit_spawn (demo_request "analyst") (open_doors {[u "open_door"]} demo_root) (demo_owners "analyst" [u "scout"])) as [[ac|r|un]|e] eqn:E; [|by vm_compute in E..].
  destruct (context_for_child ac (u "job1")) as [c|e] eqn:Hc; [|vm_compute in E; injection E as <-; by vm_compute in Hc].
  assert (Hjob : job demo_root 2 ∅ {[u "open_door"]} demo_exposes c).
  { apply (job_child _ _ _ _ _ ac (u "job1")); [|exact Hc].
    apply (admitted_spawn demo_root 2 ∅ _ _ demo_root {[u "open_door"]} (demo_request "analyst") (demo_owners "analyst" [u "scout"]) ac);
      [constructor|done|done|done|apply demo_within|exact E]. }
  exists c. split; [exact Hjob|]. pose proof (authority_attenuates demo_root 2 ∅ {[u "open_door"]} demo_exposes demo_exposes_run_agent c Hjob) as [A1 _ _ _ _ _]. split.
  - vm_compute in E. injection E as <-. vm_compute in Hc. injection Hc as <-. by vm_compute.
  - split; [exact A1|]. vm_compute in E. injection E as <-. vm_compute in Hc. injection Hc as <-. by vm_compute.
Defined.
(** A scout that asks for a handle nobody produced. *)
Lemma spawn_refusals_exact_witness :
  exists r, admit_spawn (mkSpawnRequest (u "analyst") (u "look") [u "h"] None None None None) demo_root (demo_owners "analyst" []) = Ret (SpawnRefused r) /\
    violation (mkSpawnRequest (u "analyst") (u "look") [u "h"] None None None None) demo_root (demo_owners "analyst" []) (rf_reason r).
Proof.
  destruct (admit_spawn (mkSpawnRequest (u "analyst") (u "look") [u "h"] None None None None) demo_root (demo_owners "analyst" [])) as [res|e] eqn:E;
    [|by vm_compute in E].
  pose proof (spawn_refusals_exact _ _ _ _ E) as H. destruct res as [ac|r|un]; [by vm_compute in E| |by vm_compute in E].
  exists r. split; [done|]. destruct H as (before & after & _ & H & _). exact H.
Defined.
Lemma message_and_read_exact_witness :
  admit_message (mkMessage (u "a") (u "b") [u "h"]) demo_root (Some demo_tenant) {[u "h"]} = inl (with_handles demo_root {[u "h"]}).
Proof.
  apply (proj1 (message_and_read_exact (mkMessage (u "a") (u "b") [u "h"]) (mkHandle (u "h") (u "a")) demo_root (Some demo_tenant) {[u "h"]}
    (with_handles demo_root {[u "h"]}))).
  split; [exists demo_tenant; done|]. split; [|done]. intros h ->%list_elem_of_singleton. by vm_compute.
Defined.
Lemma root_capture_witness :
  exists x c, root_context (Some demo_session) {[u "place_order"]} (Some 4%Z) None None None None = Ret (Some x, c) /\ current_parent_context x = Ret c.
Proof.
  destruct (root_context (Some demo_session) {[u "place_order"]} (Some 4%Z) None None None None) as [[s' c]|e] eqn:E; [|by vm_compute in E].
  destruct (root_capture demo_session {[u "place_order"]} (Some 4%Z) None None None None s' c E) as (x & -> & H & _). by exists x, c.
Defined.
Definition demo_turn : RootTurnAdmission :=
  admit_root_turn demo_root demo_bind (JDict []) (pc_approval_route demo_root) (u "ff").
Lemma root_turn_recorded_witness :
  exists db' a' t, record_root_turn_admission 5 demo_turn (ApprovalLifecycle.empty_store ∅ []) = (db', Ret a') /\
    root_turns db' !! (u "root", u "turn:ff") = Some t /\ rt_tenant_storage_id t = u "alice".
Proof.
  destruct (record_root_turn_admission 5 demo_turn (ApprovalLifecycle.empty_store ∅ [])) as [db' [a'|e]] eqn:E; [|by vm_compute in E].
  destruct (root_turn_recorded 5 demo_turn _ db' a' E) as (ref & t & _ & _ & H1 & H2 & _). exists db', a', t. done.
Defined.
End examples.

End Admission.
