(* ===== verification/CellBridge.v ===== *)
(** * CellBridge: tool calls from a running code cell

    Models [src/agent_gateway/code_execution/_frame_reader.py] with
    [_frame_codec.py] and the registered delegation operations of
    [_tool_defs.py]: a cell of [code_execute] sends frames to the host, which
    answers catalog requests, dispatches granted calls, launches jobs, records
    every nested call in the ledger of the cell and publishes derived rows over
    the sources it issued.

    A handler is a [proc]: it reads and writes the shared state, and between two
    requests to another component (the dispatcher, the job registry, the model
    call, the event logs) it runs without interruption; at a request anything
    may happen to the state before the answer arrives. Durations are not
    modelled; reprs, exception texts, the JSON encoder and what products bind
    are operations of the class [BridgeEnv] or fields of a binding. *)
From S2P Require Import Prelude Wire.
Import Wire.

Module CellBridge.

(** ** Frames and budgets *)
Definition MAX_CELL_BYTES : Z := 64 * 1024 * 1024.
Definition MIB : Z := 1024 * 1024.
Definition over_limit (limit : Z) : str :=
  let bound := if (limit mod MIB =? 0)%Z then Z_to_str (limit / MIB) ++ u " MiB" else Z_to_str limit ++ u " byte" in
  u "frame exceeds the " ++ bound ++ u " bound".

Record CellBudget := mkBudget { bg_limit : Z; bg_used : Z; bg_error : option str }.
Definition new_budget : CellBudget := mkBudget MAX_CELL_BYTES 0 None.
Definition aggregate_text : str := u "cell frames exceed the 64 MiB aggregate bound".
(** A [ProtocolError] is its text. *)
Definition charge (size : Z) : SE CellBudget str unit := fun b =>
  match bg_error b with
  | Some e => (b, Raise e)
  | None =>
    if (bg_limit b <? bg_used b + size)%Z then (mkBudget (bg_limit b) (bg_used b) (Some aggregate_text), Raise aggregate_text)
    else (mkBudget (bg_limit b) (bg_used b + size) None, Ret tt)
  end.

Definition fail (message : str) (b : CellBudget) : CellBudget * str :=
  match bg_error b with
  | None => (mkBudget (bg_limit b) (bg_used b) (Some message), message)
  | Some e => (b, e)
  end.

Class BridgeEnv := {
  (** [JSONEncoder(...).iterencode]: the parts it yields and whether it then
      raises; [json.loads]. *)
  iterencode : json -> list str * bool;
  json_loads : list N -> option json;
  (** [repr] and [str] of a value *)
  py_repr : json -> str;
  py_str : json -> str;
  (** the text of the exception when [.get] is read of a value that is no dict *)
  no_attribute_get : json -> str;
  (** [NextCall.model_validate]: tool name and arguments, or the first error;
      [build_next_call] *)
  parse_next_call : json -> (str * list (str * json)) + str;
  build_next_call : str -> list (str * json) -> json;
  (** [_DeriveFrame.model_validate]; [None] on success *)
  derive_frame_error : json -> option str;
  (** [json.dumps] of an identity, a handle and a source key; [hashlib.sha256] *)
  dumps : json -> str;
  sha256_hex : str -> str;
  (** bytes of the [json.dumps] of a native result *)
  result_size : json -> nat;
  str_lower : str -> str;
  server_of : str -> str;
  policy_class : str -> str;
  (** [classify_semantic_tool_error]: the code of an error in a result *)
  semantic_error : json -> option str;
  (** the registered model-call operations: name, kind, and the described row *)
  model_operation : str -> option (str * str * json);
  judgment_operations : list str
}.

Abbreviation fields := (list (str * json)).
Section codec.
Context {env : BridgeEnv}.

(** The parts are encoded one by one; the size is checked before and after each
    is encoded, with a byte for the newline. *)
Fixpoint encode_parts (limit : Z) (parts : list str) (fails : bool) (data : list N) : outcome str (list N) :=
  match parts with
  | [] => if fails then Raise (u "frame cannot be encoded as JSON") else Ret data
  | part :: parts =>
    if (limit <? Z.of_nat (length part + length data + 1))%Z then Raise (over_limit limit)
    else match utf8_encode part with
         | None => Raise (u "frame cannot be encoded as JSON")
         | Some encoded =>
           if (limit <? Z.of_nat (length encoded + length data + 1))%Z then Raise (over_limit limit)
           else encode_parts limit parts fails (data ++ encoded)
         end
  end.
Definition encode_unbudgeted (frame : json) (limit : Z) : outcome str (list N) :=
  let '(parts, fails) := iterencode frame in
  let? data := encode_parts limit parts fails [] in Ret (data ++ [10%N]).
Definition encode_frame (frame : json) (limit : Z) : SE CellBudget str (list N) :=
  let! wire := se_lift (encode_unbudgeted frame limit) in
  let! _ := charge (Z.of_nat (length wire)) in
  se_ret wire.
Definition decode_frame (line : list N) (limit : Z) : SE CellBudget str (list (str * json)) :=
  if (limit <? Z.of_nat (length line))%Z then se_raise (over_limit limit)
  else
    let! _ := charge (Z.of_nat (length line)) in
    match json_loads line with
    | None => se_raise (u "frame is not valid JSON")
    | Some (JDict d) => se_ret d
    | Some _ => se_raise (u "frame is not an object")
    end.
End codec.

(** ** State *)

(** A row of the ledger; its parent is the outer call of the cell. *)
Record Entry := mkEntry {
  en_ordinal : nat;
  en_nested : str;
  en_operation : option str;
  en_server : str;
  en_policy_class : str;
  en_ok : bool;
  en_error_code : option str;
  en_result_bytes : Z;
  en_source_refs : option (list str);
  en_native : bool;
  en_provenance : option json
}.
Definition set_route (server policy : str) (e : Entry) : Entry :=
  mkEntry (en_ordinal e) (en_nested e) (en_operation e) server policy (en_ok e) (en_error_code e) (en_result_bytes e) (en_source_refs e) (en_native e) (en_provenance e).
Definition set_outcome (ok : bool) (code : option str) (e : Entry) : Entry :=
  mkEntry (en_ordinal e) (en_nested e) (en_operation e) (en_server e) (en_policy_class e) ok code (en_result_bytes e) (en_source_refs e) (en_native e) (en_provenance e).
Definition set_code (code : str) (e : Entry) : Entry := set_outcome (en_ok e) (Some code) e.
Definition set_bytes (n : Z) (e : Entry) : Entry :=
  mkEntry (en_ordinal e) (en_nested e) (en_operation e) (en_server e) (en_policy_class e) (en_ok e) (en_error_code e) n (en_source_refs e) (en_native e) (en_provenance e).
Definition set_refs (refs : list str) (e : Entry) : Entry :=
  mkEntry (en_ordinal e) (en_nested e) (en_operation e) (en_server e) (en_policy_class e) (en_ok e) (en_error_code e) (en_result_bytes e) (Some refs) (en_native e) (en_provenance e).
Definition set_native (e : Entry) : Entry :=
  mkEntry (en_ordinal e) (en_nested e) (en_operation e) (en_server e) (en_policy_class e) (en_ok e) (en_error_code e) (en_result_bytes e) (en_source_refs e) true (en_provenance e).
Definition set_provenance (p : json) (e : Entry) : Entry :=
  mkEntry (en_ordinal e) (en_nested e) (en_operation e) (en_server e) (en_policy_class e) (en_ok e) (en_error_code e) (en_result_bytes e) (en_source_refs e) (en_native e) (Some p).

(** What the reader binds and a cell captures when it opens. [bd_origin] is
    [route_origin_for_tool] of the dispatcher, present where it is not None. *)
Record Binding := mkBinding {
  bd_dispatcher : option nat;
  bd_origin : str -> bool;
  bd_definitions : bool;
  bd_extract : option (str -> json -> option (list fields));
  bd_source_key : option (fields -> option json);
  bd_code_callable : option (str -> bool);
  bd_metadata : option (str -> fields);
  bd_grant_hint : option (str -> option str);
  bd_job_runner : bool;
  bd_host_tools : gset str
}.
Record Cell := mkCell {
  cl_outer : str;
  cl_token : str;
  cl_active : bool;
  cl_binding : Binding;
  cl_grant : option (list (str * fields));
  cl_budget : CellBudget;
  cl_ordinal : nat;
  cl_ledger : list Entry;
  cl_sources : list (json * fields);
  cl_derived : list json;
  cl_native : list str;
  cl_job : option str
}.
Definition set_active (v : bool) (c : Cell) : Cell :=
  mkCell (cl_outer c) (cl_token c) v (cl_binding c) (cl_grant c) (cl_budget c) (cl_ordinal c) (cl_ledger c) (cl_sources c) (cl_derived c) (cl_native c) (cl_job c).
Definition set_grant (v : option (list (str * fields))) (c : Cell) : Cell :=
  mkCell (cl_outer c) (cl_token c) (cl_active c) (cl_binding c) v (cl_budget c) (cl_ordinal c) (cl_ledger c) (cl_sources c) (cl_derived c) (cl_native c) (cl_job c).
Definition set_budget (v : CellBudget) (c : Cell) : Cell :=
  mkCell (cl_outer c) (cl_token c) (cl_active c) (cl_binding c) (cl_grant c) v (cl_ordinal c) (cl_ledger c) (cl_sources c) (cl_derived c) (cl_native c) (cl_job c).
Definition set_ledger (n : nat) (v : list Entry) (c : Cell) : Cell :=
  mkCell (cl_outer c) (cl_token c) (cl_active c) (cl_binding c) (cl_grant c) (cl_budget c) n v (cl_sources c) (cl_derived c) (cl_native c) (cl_job c).
Definition set_sources (v : list (json * fields)) (c : Cell) : Cell :=
  mkCell (cl_outer c) (cl_token c) (cl_active c) (cl_binding c) (cl_grant c) (cl_budget c) (cl_ordinal c) (cl_ledger c) v (cl_derived c) (cl_native c) (cl_job c).
Definition set_derived (v : list json) (c : Cell) : Cell :=
  mkCell (cl_outer c) (cl_token c) (cl_active c) (cl_binding c) (cl_grant c) (cl_budget c) (cl_ordinal c) (cl_ledger c) (cl_sources c) v (cl_native c) (cl_job c).
Definition set_native_calls (v : list str) (c : Cell) : Cell :=
  mkCell (cl_outer c) (cl_token c) (cl_active c) (cl_binding c) (cl_grant c) (cl_budget c) (cl_ordinal c) (cl_ledger c) (cl_sources c) (cl_derived c) v (cl_job c).
Definition set_job (v : option str) (c : Cell) : Cell :=
  mkCell (cl_outer c) (cl_token c) (cl_active c) (cl_binding c) (cl_grant c) (cl_budget c) (cl_ordinal c) (cl_ledger c) (cl_sources c) (cl_derived c) (cl_native c) v.

(** The settled record of a cell. *)
Record Summary := mkSummary { sm_calls : list Entry; sm_sources : list fields; sm_derived : list json }.
Record Reader := mkReader {
  rd_binding : Binding;
  rd_cells : list (str * nat);
  rd_records : list (str * Summary);
  rd_issued : list (str * fields);
  rd_closed : bool
}.
(** [br_catalog] is what the bound [tool_definitions()] returns at the moment, and
    [br_runner] what [job_runner()] does, [Some true] for a runner with a task
    registry. [br_pools] are the item dicts that workpool controllers share with
    their launch. *)
Record Bridge := mkBridge { br_reader : Reader; br_cells : list Cell; br_catalog : list fields; br_runner : option bool; br_pools : list (str * fields) }.
Definition on_reader (f : Reader -> Reader) (s : Bridge) : Bridge := mkBridge (f (br_reader s)) (br_cells s) (br_catalog s) (br_runner s) (br_pools s).
Definition on_cell (c : nat) (f : Cell -> Cell) (s : Bridge) : Bridge := mkBridge (br_reader s) (alter f c (br_cells s)) (br_catalog s) (br_runner s) (br_pools s).
Definition set_catalog (v : list fields) (s : Bridge) : Bridge := mkBridge (br_reader s) (br_cells s) v (br_runner s) (br_pools s).
Definition set_runner (v : option bool) (s : Bridge) : Bridge := mkBridge (br_reader s) (br_cells s) (br_catalog s) v (br_pools s).
Definition set_pools (v : list (str * fields)) (s : Bridge) : Bridge := mkBridge (br_reader s) (br_cells s) (br_catalog s) (br_runner s) v.
Definition rd_set_binding (v : Binding) (r : Reader) : Reader := mkReader v (rd_cells r) (rd_records r) (rd_issued r) (rd_closed r).
Definition rd_set_cells (v : list (str * nat)) (r : Reader) : Reader := mkReader (rd_binding r) v (rd_records r) (rd_issued r) (rd_closed r).
Definition rd_set_records (v : list (str * Summary)) (r : Reader) : Reader := mkReader (rd_binding r) (rd_cells r) v (rd_issued r) (rd_closed r).
Definition rd_set_issued (v : list (str * fields)) (r : Reader) : Reader := mkReader (rd_binding r) (rd_cells r) (rd_records r) v (rd_closed r).
Definition rd_close (r : Reader) : Reader := mkReader (rd_binding r) (rd_cells r) (rd_records r) (rd_issued r) true.

Fixpoint lookup_by {K V} (eqb : K -> K -> bool) (k : K) (d : list (K * V)) : option V :=
  match d with [] => None | (k', v) :: d => if eqb k k' then Some v else lookup_by eqb k d end.
Definition str_eqb (a b : str) : bool := bool_decide (a = b).
Definition find_str {V} : str -> list (str * V) -> option V := lookup_by str_eqb.
(** [d[k] = v] *)
Fixpoint put_str {V} (k : str) (v : V) (d : list (str * V)) : list (str * V) :=
  match d with [] => [(k, v)] | (k', v') :: d => if str_eqb k k' then (k', v) :: d else (k', v') :: put_str k v d end.
Definition drop_key {V} (k : str) (d : list (str * V)) : list (str * V) := filter (fun kv => kv.1 <> k) d.

(** ** The reader *)
Section reader.

Definition no_cell : Cell :=
  mkCell [] [] false (mkBinding None (fun _ => false) false None None None None None false ∅) None new_budget 0 [] [] [] [] None.
Definition cell_at (s : Bridge) (c : nat) : Cell := default no_cell (br_cells s !! c).
Definition find_cell (s : Bridge) (token : str) : option nat := find_str token (rd_cells (br_reader s)).
Definition is_registered (s : Bridge) (c : nat) : bool :=
  bool_decide (find_cell s (cl_token (cell_at s c)) = Some c) && cl_active (cell_at s c) && negb (rd_closed (br_reader s)).
(** [_registered]: the frame's token and parent are the cell's. A parent that is
    not ASCII, which [hmac.compare_digest] raises on, is refused like any other. *)
Definition registered (s : Bridge) (c : nat) (frame : fields) : bool :=
  match py_get (u "cell_token") frame with
  | JStr token =>
    bool_decide (token = cl_token (cell_at s c)) && is_registered s c &&
    match py_get (u "parent_call_id") frame with
    | JNull => true
    | JStr parent => bool_decide (parent = cl_outer (cell_at s c))
    | _ => false
    end
  | _ => false
  end.

Definition bind_job_runner (runner : bool) (s : Bridge) : Bridge :=
  on_reader (fun r => let b := rd_binding r in
    rd_set_binding (mkBinding (bd_dispatcher b) (bd_origin b) (bd_definitions b) (bd_extract b) (bd_source_key b) (bd_code_callable b)
      (bd_metadata b) (bd_grant_hint b) runner (bd_host_tools b)) r) s.
Definition bind_grant_hint (hint : option (str -> option str)) (s : Bridge) : Bridge :=
  on_reader (fun r => let b := rd_binding r in
    rd_set_binding (mkBinding (bd_dispatcher b) (bd_origin b) (bd_definitions b) (bd_extract b) (bd_source_key b) (bd_code_callable b)
      (bd_metadata b) hint (bd_job_runner b) (bd_host_tools b)) r) s.
Definition CODE_EXECUTION_TOOL_NAMES : gset str := {[u "code_execute"]}.
Definition bind_dispatcher (dispatcher : nat) (origin : str -> bool) (extract : option (str -> json -> option (list fields)))
    (key : option (fields -> option json)) (callable : option (str -> bool)) (metadata : option (str -> fields))
    (host : option (gset str)) (s : Bridge) : Bridge :=
  on_reader (fun r => let b := rd_binding r in
    rd_set_binding (mkBinding (Some dispatcher) origin true extract key callable metadata (bd_grant_hint b) (bd_job_runner b)
      (default CODE_EXECUTION_TOOL_NAMES host)) r) s.
(** [open_cell], under the minted token; [None] when the reader is disposed. *)
Definition open_cell (outer token : str) (active : bool) (s : Bridge) : Bridge * option nat :=
  if rd_closed (br_reader s) then (s, None)
  else
    let c := length (br_cells s) in
    let cell := mkCell outer token active (rd_binding (br_reader s)) None new_budget 0 [] [] [] [] None in
    (mkBridge (rd_set_cells (put_str token c (rd_cells (br_reader s))) (br_reader s)) (br_cells s ++ [cell]) (br_catalog s) (br_runner s) (br_pools s), Some c).
Definition activate (c : nat) (s : Bridge) : Bridge :=
  let s := on_cell c (set_active true) s in on_cell c (set_active (is_registered s c)) s.
Definition deactivate (c : nat) (s : Bridge) : Bridge := on_cell c (set_active false) s.
Definition summary (cell : Cell) : Summary :=
  mkSummary (cl_ledger cell) (match cl_ledger cell with [] => [] | _ => (cl_sources cell).*2 end) (cl_derived cell).
Definition release (c : nat) (s : Bridge) : Bridge :=
  let cell := cell_at s c in
  on_reader (fun r =>
    let r := if bool_decide (find_str (cl_token cell) (rd_cells r) = Some c) then rd_set_cells (drop_key (cl_token cell) (rd_cells r)) r else r in
    let r := rd_set_records (put_str (cl_outer cell) (summary cell) (rd_records r)) r in
    match cl_job cell with Some id => rd_set_records (put_str id (summary cell) (rd_records r)) r | None => r end) s.
Definition close (c : nat) (s : Bridge) : Bridge := release c (deactivate c s).
(** [aclose] in the parts between its suspensions: the reader is marked closed
    and the jobs of the open cells are killed and awaited; the cells are closed
    and their in-flight tasks cancelled and awaited; the records are dropped. *)
Definition close_all (cells : list nat) (s : Bridge) : Bridge := foldl (fun s c => close c s) s cells.
Definition dispose (s : Bridge) : Bridge := on_reader rd_close s.
Definition close_cells (s : Bridge) : Bridge := close_all (rd_cells (br_reader s)).*2 s.
Definition forget (s : Bridge) : Bridge := on_reader (fun r => rd_set_issued [] (rd_set_records [] r)) s.
Definition aclose (s : Bridge) : Bridge := forget (close_cells (dispose s)).
Definition cell_record (id : str) (s : Bridge) : option Summary := find_str id (rd_records (br_reader s)).
Definition lookup_active_cell (token : str) (s : Bridge) : option nat :=
  match find_cell s token with Some c => if is_registered s c then Some c else None | None => None end.
End reader.

(** ** Handlers *)

(** What a handler asks of other components, and the answers. *)
Record JobView := mkJobView { jv_state : str; jv_result : json; jv_error : json }.
Inductive request :=
| Prepare (operation : str) (input : json)
| Dispatch (nested operation : str) (prepared : nat)
| Settle (operation : str) (result : json) (error : option json) (prepared : nat)
| ModelCall (operation : str) (arguments : fields)
| JobsWait (ids : list str) (timeout : json)
| RegisterJob (id : str)
| TransitionJob (id state : str) (result error : json)
| SetJobResult (id : str) (result : json)
| GetJob (id : str)
| AppendDurable (event : json)
| AppendLog (event : json)
| Dispatched (id : str)
| TokenHex.
Definition reply (r : request) : Type :=
  match r with
  | Prepare _ _ => nat
  | Dispatch _ _ _ => json * option json * nat
  | Settle _ _ _ _ => bool * list fields
  | ModelCall _ _ => fields
  | JobsWait _ _ => json
  | GetJob _ => option JobView
  | TokenHex => str
  | _ => unit
  end.
(** A request raises: the task is cancelled, the input cannot be prepared (with
    a code and a message), or anything else. *)
Inductive failure := Cancelled | Preparation (code message : str) | Failure (text : str).

Inductive proc (A : Type) : Type :=
| Done (a : A)
| Read (k : Bridge -> proc A)
| Write (f : Bridge -> Bridge) (rest : proc A)
| Await (r : request) (k : outcome failure (reply r) -> proc A)
| Fork (background : proc unit) (rest : proc A).
Arguments Done {A} a.
Arguments Read {A} k.
Arguments Write {A} f rest.
Arguments Await {A} r k.
Arguments Fork {A} background rest.

Fixpoint proc_bind {A B : Type} (p : proc A) (k : A -> proc B) : proc B :=
  match p with
  | Done a => k a
  | Read r => Read (fun s => proc_bind (r s) k)
  | Write f rest => Write f (proc_bind rest k)
  | Await r c => Await r (fun a => proc_bind (c a) k)
  | Fork b rest => Fork b (proc_bind rest k)
  end.
Notation "'let*' x ':=' p 'in' k" := (proc_bind p (fun x => k)) (at level 10, x pattern, p at level 100, k at level 200) : gateway_scope.
Definition H : Type := proc (outcome failure fields).
Definition answer (r : fields) : H := Done (Ret r).

Section handlers.
Context {env : BridgeEnv}.

Definition ok_reply (ty call_id result : json) : fields :=
  [(u "type", ty); (u "call_id", call_id); (u "ok", JBool true); (u "result", result)].
Definition error_reply (ty call_id : json) (code message : str) (next_call : option json) : fields :=
  [(u "type", ty); (u "call_id", call_id); (u "ok", JBool false);
   (u "error", JDict ([(u "code", JStr code); (u "message", JStr message)] ++ match next_call with Some n => [(u "next_call", n)] | None => [] end))].
Definition is_null (v : json) : bool := match v with JNull => true | _ => false end.
(** [a or b] *)
Definition or_else (a b : json) : json := if truthy a then a else b.
Definition or_text (a : json) (b : str) : str := if truthy a then py_str a else b.
Definition all_strings (l : list json) : option (list str) :=
  foldr (fun v acc => match v, acc with JStr s, Some ss => Some (s :: ss) | _, _ => None end) (Some []) l.

(** *** The ledger *)
Definition nested_id (outer : str) (n : nat) : str := outer ++ u "." ++ Z_to_str (Z.of_nat n).
Definition append_entry (operation : option str) (cell : Cell) : Cell :=
  let n := S (cl_ordinal cell) in
  set_ledger n (cl_ledger cell ++ [mkEntry n (nested_id (cl_outer cell) n) operation [] [] false None 0 None false None]) cell.
Definition new_entry (c : nat) (operation : option str) : proc nat :=
  Read (fun s => Write (on_cell c (append_entry operation)) (Done (S (cl_ordinal (cell_at s c))))).
Definition edit_entry (ord : nat) (f : Entry -> Entry) (cell : Cell) : Cell :=
  set_ledger (cl_ordinal cell) ((fun e => if en_ordinal e =? ord then f e else e) <$> cl_ledger cell) cell.
Definition edit (c ord : nat) (f : Entry -> Entry) : proc unit := Write (on_cell c (edit_entry ord f)) (Done tt).
Definition entry_of (s : Bridge) (c ord : nat) : option Entry := List.find (fun e => en_ordinal e =? ord) (cl_ledger (cell_at s c)).
(** [_refuse] of a handler with an entry *)
Definition refuse (c ord : nat) (ty call_id : json) (code message : str) (next_call : option json) : H :=
  let* _ := edit c ord (set_code code) in
  Read (fun s => answer (error_reply ty call_id code message next_call ++ [(u "nested_call_id", JStr (nested_id (cl_outer (cell_at s c)) ord))])).
(** [_producer_reply]: the references default to an empty list. *)
Definition producer_reply (c ord : nat) (ty call_id result : json) : H :=
  let* _ := edit c ord (fun e => set_refs (default [] (en_source_refs e)) e) in
  Read (fun s => answer (ok_reply ty call_id result ++
    [(u "nested_call_id", JStr (nested_id (cl_outer (cell_at s c)) ord));
     (u "source_refs", JList (JStr <$> default [] (entry_of s c ord ≫= en_source_refs)))])).

(** *** The grant *)
Definition loaded_granted (s : Bridge) (c : nat) : list (str * fields) :=
  let b := cl_binding (cell_at s c) in
  if bd_definitions b then
    foldl (fun acc d =>
      let name := or_text (py_get (u "name") d) [] in
      if bool_decide (name = []) || bool_decide (name ∈ bd_host_tools b) then acc else put_str name d acc) [] (br_catalog s)
  else [].
Definition grant_of (s : Bridge) (c : nat) : list (str * fields) := default (loaded_granted s c) (cl_grant (cell_at s c)).
Definition granted (c : nat) : proc (list (str * fields)) :=
  Read (fun s => Write (on_cell c (set_grant (Some (grant_of s c)))) (Done (grant_of s c))).
Definition code_callable (b : Binding) (operation : str) : bool :=
  match bd_code_callable b with Some f => f operation | None => false end.
Definition grant_hint (b : Binding) (operation : str) : option str :=
  match bd_grant_hint b with Some f => f operation | None => None end.
Inductive refusal_code := unknown_operation | not_granted | not_code_callable.
Definition refusal_text (r : refusal_code) : str :=
  match r with unknown_operation => u "unknown_operation" | not_granted => u "not_granted" | not_code_callable => u "not_code_callable" end.
(** [_refusal]; the grant is read only for an operation that is not a host tool. *)
Definition refusal (c : nat) (operation : str) : proc (option refusal_code) :=
  Read (fun s =>
    let b := cl_binding (cell_at s c) in
    if bool_decide (operation ∈ bd_host_tools b) then Done (Some unknown_operation)
    else
      let* g := granted c in
      match find_str operation g with
      | None => Done (Some (if negb (bd_origin b operation) && is_none (grant_hint b operation) then unknown_operation else not_granted))
      | Some _ => Done (if code_callable b operation then None else Some not_code_callable)
      end).
Definition refusal_message (b : Binding) (r : refusal_code) (operation : str) : str * option json :=
  let name := py_repr (JStr operation) in
  match r with
  | unknown_operation => (name ++ u " is not a tool on this session's live surface", None)
  | not_granted =>
    match grant_hint b operation with
    | None => (name ++ u " is not granted to this turn; load its pack with load_tools (or call it directly as a tool)", None)
    | Some pack =>
      (name ++ u " is not granted to this turn; load its pack first: hank.call(" ++ [34%N] ++ u "load_tools" ++ [34%N] ++ u ", pack=" ++ [34%N] ++ pack
         ++ [34%N] ++ u ") (or call it directly as a tool)",
       Some (build_next_call (u "load_tools") [(u "pack", JStr pack)]))
    end
  | not_code_callable => (name ++ u " is not registered as code-callable", None)
  end.

(** *** Sources *)
Definition IDENTITY_FIELDS : list str := [u "document_id"; u "source_kind"; u "source_url"; u "provider"; u "endpoint"; u "key_fields"].
Definition identity_key (source : fields) : str := dumps (JDict ((fun f => (f, py_get f source)) <$> IDENTITY_FIELDS)).
(** [{**a, **b}] *)
Definition merge (a b : fields) : fields := foldl (fun d kv => put_str kv.1 kv.2 d) a b.
(** Settlement owns identity; the extractor only adds presentation. *)
Definition source_handles (b : Binding) (operation : str) (result : json) (settled : list fields) : list fields :=
  let identities := foldl (fun d src => put_str (identity_key src) src d) [] settled in
  let presentations := match bd_extract b with
                       | Some extract =>
                         (fun p => (identity_key p, filter (fun kv => kv.1 ∉ IDENTITY_FIELDS) p)) <$> default [] (extract operation result)
                       | None => []
                       end in
  omap (fun ip => (fun src => merge src ip.2) <$> find_str ip.1 identities) presentations ++
  (filter (fun ks => ks.1 ∉ presentations.*1) identities).*2.
Definition source_key (b : Binding) (handle : fields) : option json :=
  match bd_source_key b with Some f => f handle | None => Some (JStr (dumps (JDict handle))) end.
Definition issued_ref (key : json) : str := u "src_" ++ take 16 (sha256_hex (dumps key)).
(** [canonical_dispatch_tool_name] *)
Fixpoint split_double (s : str) : option (str * str) :=
  match s with
  | 95%N :: 95%N :: rest => Some ([], rest)
  | c :: rest => match split_double rest with Some (a, b) => Some (c :: a, b) | None => None end
  | [] => None
  end.
Definition canonical_dispatch_tool_name (name : str) : str :=
  if py_startswith (u "mcp__") name
  then match split_double (drop 5 name) with Some (_, rest) => rest | None => name end
  else name.
Definition setdefault_by {K V} (eqb : K -> K -> bool) (k : K) (v : V) (d : list (K * V)) : list (K * V) :=
  match lookup_by eqb k d with Some _ => d | None => d ++ [(k, v)] end.
Definition record_handle (c : nat) (operation : str) (handle : fields) (key : json) (s : Bridge) : Bridge :=
  let row := put_str (u "produced_by_tool") (JStr (canonical_dispatch_tool_name operation)) handle in
  let s := on_cell c (fun cell => set_sources (setdefault_by py_eq key row (cl_sources cell)) cell) s in
  let stored := default row (lookup_by py_eq key (cl_sources (cell_at s c))) in
  on_reader (fun r => rd_set_issued (setdefault_by str_eqb (issued_ref key) stored (rd_issued r)) r) s.
Definition keyed_handles (b : Binding) (operation : str) (result : json) (settled : list fields) : list (fields * json) :=
  omap (fun h => (fun k => (h, k)) <$> source_key b h) (source_handles b operation result settled).
Fixpoint dedup (l seen : list str) : list str :=
  match l with [] => [] | x :: l => if bool_decide (x ∈ seen) then dedup l seen else x :: dedup l (seen ++ [x]) end.
Definition record_sources (c : nat) (operation : str) (result : json) (settled : list fields) : proc (list str) :=
  Read (fun s =>
    let hs := keyed_handles (cl_binding (cell_at s c)) operation result settled in
    Write (fun s => foldl (fun s hk => record_handle c operation hk.1 hk.2 s) s hs) (Done (dedup ((fun hk => issued_ref hk.2) <$> hs) []))).

(** *** Dispatch *)
Definition dispatch_failed (c ord : nat) (ty call_id : json) (e : failure) : H :=
  match e with
  | Cancelled => let* _ := edit c ord (set_code (u "cancelled")) in Done (Raise Cancelled)
  | Preparation code message => refuse c ord ty call_id (match code with [] => u "tool_error" | _ => code end) message None
  | Failure text => refuse c ord ty call_id (u "tool_error") (text ++ u ": nested dispatch failed") None
  end.
Definition dispatch_granted (c ord : nat) (ty call_id : json) (operation : str) (input : json) : H :=
  let failed := dispatch_failed c ord ty call_id in
  Read (fun s0 =>
  let nested := nested_id (cl_outer (cell_at s0 c)) ord in
  Await (Prepare operation input) (fun a => match a with Raise e => failed e | Ret prepared =>
  Await (Dispatch nested operation prepared) (fun a => match a with Raise e => failed e | Ret (result, error, executed) =>
  Await (Settle operation result error executed) (fun a => match a with Raise e => failed e | Ret (settled_ok, sources) =>
    match error with
    | Some err =>
      match err with
      | JDict d => refuse c ord ty call_id (or_text (py_get (u "code") d) (u "tool_error")) (or_text (py_get (u "message") d) []) None
      | _ => refuse c ord ty call_id (u "tool_error") (py_str err) None
      end
    | None =>
      let* _ := edit c ord (set_outcome (is_none (semantic_error result)) (semantic_error result)) in
      let* _ := (if settled_ok : bool then let* refs := record_sources c operation result sources in edit c ord (set_refs refs) else Done tt) in
      producer_reply c ord ty call_id result
    end end) end) end)).

(** *** Delegation operations *)
Definition RUN_AGENT_OPERATION : str := u "run_agent".
Definition DEFAULT_WAIT_TIMEOUT_S : json := JInt 600.
Definition schema_of (kind : string) : json := JDict [(u "type", JStr (u kind))].
Definition schema_str : json := schema_of "string".
Definition schema_num : json := schema_of "number".
Definition schema_bool : json := schema_of "boolean".
Definition schema_any : json := JDict [].
Definition schema_str_list : json := JDict [(u "type", JStr (u "array")); (u "items", schema_str)].
Record DelegationDef := mkDelegation { dg_name : str; dg_description : str; dg_properties : fields; dg_required : list str }.
(** [CODE_EXECUTION_DELEGATION_TOOL_DEFS] *)
Definition delegation_defs : list DelegationDef :=
  [mkDelegation (u "agent")
     (u "Submit a delegated job through the same admission as run_agent; returns its task_id at once. Wait on it with hank.wait.")
     [(u "objective", schema_str); (u "operation", schema_str); (u "handles", schema_str_list); (u "role", schema_str); (u "effort", schema_str); (u "ticker", schema_str); (u "research_file_id", schema_str)]
     [u "objective"];
   mkDelegation (u "wait")
     (u "Block until the named jobs settle or timeout (seconds) elapses; returns each job's state and, once completed, its error and task_result_id (for agent jobs). A result reaches you as its background task notification after the cell returns, or by get_background_result(task_id=...) when notifications are off. Jobs keep running when the wait is interrupted.")
     [(u "task_ids", schema_str_list); (u "timeout", schema_num)]
     [u "task_ids"];
   mkDelegation (u "completion")
     (u "Unsupported: no gateway-executed completion capability is defined. Raises unsupported_operation with no next_call; no model call is launched.")
     [(u "operation", schema_str); (u "material", schema_str); (u "role", schema_str); (u "effort", schema_str); (u "evidence_handles", schema_str_list)]
     [u "operation"];
   mkDelegation (u "judge")
     (u "Submit a leaf judgment under a registered judgment operation and questions; returns its task_id at once. Wait on it with hank.wait.")
     [(u "operation", schema_str); (u "state", schema_any); (u "questions", schema_any); (u "role", schema_str); (u "effort", schema_str); (u "evidence_handles", schema_str_list)]
     [u "operation"; u "state"; u "questions"];
   mkDelegation (u "workpool")
     (u "Submit a batch of items as one P4 controller job drawing from the per-runner six-slot queue; returns the controller task_id, submitted item keys, and item task_ids. Wait on it with hank.wait.")
     [(u "items", schema_any); (u "operation", schema_str); (u "mode", schema_str); (u "role", schema_str); (u "effort", schema_str); (u "context_handles", schema_str_list); (u "timeout", schema_num)]
     [u "items"];
   mkDelegation (u "judge_batch")
     (u "Apply questions across keyed states under a registered judgment operation; returns keyed judgments under the registered model-call operation. Wait on it with hank.wait when wait=false.")
     [(u "operation", schema_str); (u "states", schema_any); (u "questions", schema_any); (u "role", schema_str); (u "effort", schema_str); (u "evidence_handles", schema_str_list); (u "wait", schema_bool); (u "timeout", schema_num)]
     [u "operation"; u "states"; u "questions"]].
Definition delegation_operations : list (str * list str) := (fun d => (dg_name d, (dg_properties d).*1)) <$> delegation_defs.
Definition REQUEST_FRAME_TYPES : list str := [u "catalog"; u "tool_call"; u "derive"] ++ delegation_operations.*1.

Definition no_dispatcher_agent : str :=
  u "no dispatcher is bound to this session; call the agent tool directly outside the cell, or run in a session with delegation bound".
Definition not_granted_text : str := py_repr (JStr RUN_AGENT_OPERATION) ++ u " is not granted to this turn".
Definition SPAWN_OPTIONS : list str := [u "operation"; u "handles"; u "role"; u "effort"; u "ticker"; u "research_file_id"].
Definition route_entry (c ord : nat) (operation : str) : proc unit := edit c ord (set_route (server_of operation) (policy_class operation)).

Definition agent (c : nat) (frame : fields) : H :=
  let call_id := py_get (u "call_id") frame in
  let ty := JStr (u "agent_result") in
  let* ord := new_entry c (Some RUN_AGENT_OPERATION) in
  match py_get (u "objective") frame with
  | JStr objective =>
    if bool_decide (py_strip objective = []) then refuse c ord ty call_id (u "protocol_error") (u "agent needs a non-empty string objective") None
    else Read (fun s =>
      match bd_dispatcher (cl_binding (cell_at s c)) with
      | None => refuse c ord ty call_id (u "bridge_unavailable") no_dispatcher_agent None
      | Some _ =>
        let* g := granted c in
        match find_str RUN_AGENT_OPERATION g with
        | None => refuse c ord ty call_id (u "not_granted") not_granted_text None
        | Some _ =>
          let input := [(u "objective", JStr objective); (u "background", JBool true)] ++
            omap (fun k => match py_get k frame with JNull => None | v => Some (k, v) end) SPAWN_OPTIONS in
          let* _ := route_entry c ord RUN_AGENT_OPERATION in
          dispatch_granted c ord ty call_id RUN_AGENT_OPERATION (JDict input)
        end
      end)
  | _ => refuse c ord ty call_id (u "protocol_error") (u "agent needs a non-empty string objective") None
  end.

(** A timeout that is a non-negative number. *)
Definition valid_timeout (v : json) : bool :=
  match v with JInt z => (0 <=? z)%Z | JFloat n _ => (0 <=? n)%Z | _ => false end.
(** The runner that [job_runner()] returns, if an accessor is bound. *)
Definition current_runner (s : Bridge) (c : nat) : option bool := if bd_job_runner (cl_binding (cell_at s c)) then br_runner s else None.
Definition has_registry (s : Bridge) (c : nat) : bool := bool_decide (current_runner s c = Some true).

Definition wait (c : nat) (frame : fields) : H :=
  let call_id := py_get (u "call_id") frame in
  let ty := JStr (u "wait_result") in
  match (match py_get (u "task_ids") frame with JList l => all_strings l | _ => None end) with
  | None => answer (error_reply ty call_id (u "protocol_error") (u "wait needs a list of string task_ids") None)
  | Some ids =>
    let raw := py_get (u "timeout") frame in
    if negb (is_null raw || valid_timeout raw)
    then answer (error_reply ty call_id (u "protocol_error") (u "wait timeout must be a non-negative number of seconds") None)
    else Read (fun s =>
      if negb (has_registry s c) then
        answer (error_reply ty call_id (u "bridge_unavailable")
          (u "no job registry is bound to this session; call the outer jobs/wait tool directly outside the cell, or run in a session with delegation bound") None)
      else Await (JobsWait ids (match raw with JNull => DEFAULT_WAIT_TIMEOUT_S | _ => raw end)) (fun a =>
        match a with Ret v => answer (ok_reply ty call_id v) | Raise e => Done (Raise e) end))
  end.

Definition completion (frame : fields) : H :=
  answer (error_reply (JStr (u "completion_result")) (py_get (u "call_id") frame) (u "unsupported_operation")
    (u "hank.completion is unsupported: no gateway-executed completion capability is defined") None).

(** A registered judgment operation. *)
Definition judgment (v : json) : option (option str) :=
  match v with
  | JStr s => if bool_decide (py_strip s = []) then None
              else match model_operation (py_strip s) with
                   | Some (name, kind, _) => if bool_decide (kind = u "judgment") then Some (Some name) else Some None
                   | None => Some None
                   end
  | _ => None
  end.
Definition unknown_judgment (v : json) : str :=
  u "unknown judgment operation " ++ py_repr v ++ u "; registered: " ++ py_repr (JList (JStr <$> judgment_operations)).
Definition model_call_arguments (state questions : json) (frame : fields) (evidence : json) : fields :=
  [(u "state", state); (u "questions", questions); (u "role", py_get (u "role") frame); (u "effort", py_get (u "effort") frame);
   (u "evidence_handles", evidence); (u "wait", JBool false)].

Definition judge (c : nat) (frame : fields) : H :=
  let call_id := py_get (u "call_id") frame in
  let ty := JStr (u "judge_result") in
  let operation := py_get (u "operation") frame in
  match judgment operation with
  | None => answer (error_reply ty call_id (u "protocol_error") (u "judge needs a non-empty string operation") None)
  | Some None => answer (error_reply ty call_id (u "unknown_operation") (unknown_judgment operation) None)
  | Some (Some name) =>
    let questions := py_get (u "questions") frame in
    if is_null questions then answer (error_reply ty call_id (u "protocol_error") (u "judge needs questions or rubric input") None)
    else Read (fun s =>
      match current_runner s c with
      | None => answer (error_reply ty call_id (u "bridge_unavailable")
          (u "no job runner is bound to this session; call the outer judge tool directly outside the cell, or run in a session with delegation bound") None)
      | Some _ =>
        match or_else (py_get (u "evidence_handles") frame) (JList []) with
        | JList evidence =>
          let* ord := new_entry c (Some (u "model_call:" ++ name)) in
          let* _ := edit c ord (set_route (u "model_call") (u "read")) in
          Await (ModelCall name (model_call_arguments (py_get (u "state") frame) questions frame (JList evidence))) (fun a =>
            match a with
            | Ret launched =>
              let* _ := edit c ord (set_outcome true None) in
              producer_reply c ord ty call_id (JDict launched)
            | Raise Cancelled => Done (Raise Cancelled)
            | Raise (Preparation _ text) | Raise (Failure text) =>
              refuse c ord ty call_id (u "execution_error") text None
            end)
        | _ => answer (error_reply ty call_id (u "protocol_error") (u "evidence_handles must be a list or tuple") None)
        end
      end)
  end.

(** *** Workpools *)
Definition item_fields (v : json) : fields := match v with JDict d => d | _ => [(u "objective", JStr (py_str v))] end.
Definition item_name (idx : nat) : str := u "item_" ++ Z_to_str (Z.of_nat idx).
Fixpoint number_items (idx : nat) (l : list json) : list (str * fields) :=
  match l with
  | [] => []
  | v :: l =>
    (match v with
     | JDict d => (or_text (py_get (u "key") d) (or_text (py_get (u "item_key") d) (or_text (py_get (u "id") d) (or_text (py_get (u "name") d) (item_name idx)))), d)
     | _ => (item_name idx, [(u "objective", JStr (py_str v))])
     end) :: number_items (S idx) l
  end.
Definition pool_items (raw : json) : option (list (str * fields)) :=
  match raw with
  | JDict d => Some ((fun kv => (kv.1, item_fields kv.2)) <$> d)
  | JList l => Some (number_items 0 l)
  | _ => None
  end.
Fixpoint first_duplicate (seen : list str) (l : list str) : option str :=
  match l with [] => None | k :: l => if bool_decide (k ∈ seen) then Some k else first_duplicate (k :: seen) l end.
Definition item_input (frame item : fields) (context : list str) : fields :=
  let base := [(u "objective", or_else (py_get (u "objective") item) (or_else (py_get (u "task") item) (JStr (py_str (JDict item)))));
               (u "background", JBool true)] in
  let base := match context with
              | [] => base
              | _ => if truthy (py_get (u "handles") item) then base else put_str (u "handles") (JList (JStr <$> context)) base
              end in
  foldl (fun d opt => match or_else (py_get opt item) (py_get opt frame) with JNull => d | v => put_str opt v d end) base SPAWN_OPTIONS.
Definition pool_result (id status : str) (keys : list str) (items : fields) : json :=
  JDict [(u "task_id", JStr id); (u "status", JStr status); (u "keys", JList (JStr <$> keys)); (u "items", JDict items)].
Definition running_row (task_id : json) : json := JDict [(u "task_id", task_id); (u "status", JStr (u "running"))].
Definition SETTLED_STATES : list str := [u "completed"; u "failed"; u "killed"; u "interrupted"; u "parked"].
Definition pool_of (s : Bridge) (id : str) : fields := default [] (find_str id (br_pools s)).
(** One event in the durable log and in the event log; only the first is
    guarded against exceptions at registration. *)
Definition controller_event (kind : string) (id : str) (rest : fields) : json :=
  JDict ([(u "type", JStr (u kind)); (u "event_schema_version", JInt 2); (u "task_id", JStr id); (u "task_type", JStr (u "controller"))] ++ rest).
Definition append_both (event : json) (k : proc unit) : proc unit :=
  Await (AppendDurable event) (fun a => match a with Raise Cancelled => Done tt | _ =>
  Await (AppendLog event) (fun a => match a with Raise Cancelled => Done tt | _ => k end) end).
(** The row of a submitted item, and the child ids; [.get] of a result that is no
    object raises. *)
Definition submitted_row (reply : fields) (ids : list str) : outcome failure (json * list str) :=
  if truthy (py_get (u "ok") reply) then
    match or_else (py_get (u "result") reply) (JDict []) with
    | JDict d =>
      let cid := py_get (u "task_id") d in
      Ret (running_row cid, if truthy cid then ids ++ [py_str cid] else ids)
    | v => Raise (Failure (no_attribute_get v))
    end
  else
    let err := match or_else (py_get (u "error") reply) (JDict []) with JDict d => d | _ => [] end in
    Ret (JDict [(u "status", JStr (u "refused")); (u "error", or_else (py_get (u "message") err) (py_get (u "code") err))], ids).
(** Submitting the items; an exception leaves the loop. *)
Fixpoint submit_items (c : nat) (id : str) (keys : list str) (frame : fields) (context : list str) (items : list (str * fields)) (ids : list str)
    : proc (outcome failure (list str)) :=
  match items with
  | [] => Done (Ret ids)
  | (key, item) :: items =>
    let* ord := new_entry c (Some RUN_AGENT_OPERATION) in
    let* _ := route_entry c ord RUN_AGENT_OPERATION in
    let* r := dispatch_granted c ord (JStr (u "agent_result")) JNull RUN_AGENT_OPERATION (JDict (item_input frame item context)) in
    match (let? reply := r in submitted_row reply ids) with
    | Raise e => Done (Raise e)
    | Ret (row, ids) =>
      Write (fun s => set_pools (put_str id (put_str key row (pool_of s id)) (br_pools s)) s)
      (Read (fun s =>
        Await (SetJobResult id (pool_result id (u "running") keys (pool_of s id))) (fun a =>
          match a with Raise e => Done (Raise e) | Ret _ => submit_items c id keys frame context items ids end)))
    end
  end.
Definition bounded_outcome (result : json) : json :=
  match result with
  | JDict d => or_else (py_get (u "outcome") d) (or_else (py_get (u "disposition") d) (or_else (py_get (u "content") d) (py_get (u "summary") d)))
  | _ => JNull
  end.
(** The settled rows, by the registry's view of each child. *)
Fixpoint collect_items (pool : fields) (rows : fields) (all_settled : bool) : proc (outcome failure (fields * bool)) :=
  match pool with
  | [] => Done (Ret (rows, all_settled))
  | (key, info) :: pool =>
    let cid := match info with JDict d => py_get (u "task_id") d | _ => JNull end in
    if truthy cid then
      Await (GetJob (py_str cid)) (fun a => match a with
      | Raise e => Done (Raise e)
      | Ret None => collect_items pool (put_str key info rows) false
      | Ret (Some v) =>
        collect_items pool (put_str key (JDict [(u "task_id", cid); (u "status", JStr (jv_state v)); (u "outcome", bounded_outcome (jv_result v)); (u "error", jv_error v)]) rows)
          (all_settled && bool_decide (jv_state v ∈ SETTLED_STATES))
      end)
    else collect_items pool (put_str key info rows) all_settled
  end.
Definition controller_failed (id text : str) : proc unit :=
  let error := JDict [(u "code", JStr (u "controller_error")); (u "message", JStr text)] in
  Await (TransitionJob id (u "failed") JNull error) (fun a => match a with Raise Cancelled => Done tt | _ =>
  append_both (controller_event "task_completed" id [(u "state", JStr (u "failed")); (u "final_state", JStr (u "failed")); (u "error", error)]) (Done tt) end).
Definition on_failure (id : str) (e : failure) : proc unit :=
  match e with Cancelled => Done tt | Preparation _ text | Failure text => controller_failed id text end.
Definition pool_controller (c : nat) (id : str) (frame : fields) (context : list str) (items : list (str * fields)) (timeout : json) : proc unit :=
  let keys := items.*1 in
  let* r := submit_items c id keys frame context items [] in
  match r with
  | Raise e => on_failure id e
  | Ret ids =>
    let finish : proc unit := Read (fun s =>
      let* r := collect_items (pool_of s id) [] true in
      match r with
      | Raise e => on_failure id e
      | Ret (rows, all_settled) =>
        let state := if all_settled : bool then u "completed" else u "interrupted" in
        let result := pool_result id (if all_settled then u "completed" else u "timed_out") keys rows in
        Await (TransitionJob id state result JNull) (fun a => match a with
        | Raise e => on_failure id e
        | Ret _ => append_both (controller_event "task_completed" id [(u "state", JStr state); (u "final_state", JStr state); (u "result", result)]) (Done tt)
        end)
      end) in
    match ids with
    | [] => finish
    | _ => Await (JobsWait ids timeout) (fun a => match a with Raise e => on_failure id e | Ret _ => finish end)
    end
  end.
Definition no_registry_agent : str :=
  u "no job registry is bound to this session; call the agent tool directly outside the cell, or run in a session with delegation bound".
Definition string_list (v : json) : option (list str) :=
  match or_else v (JList []) with JList l => all_strings l | _ => None end.
(** A request that raises ends the handler with the exception. *)
Definition ask {A} (r : request) (k : reply r -> proc (outcome failure A)) : proc (outcome failure A) :=
  Await r (fun a => match a with Ret v => k v | Raise e => Done (Raise e) end).
(** A request whose ordinary exceptions are swallowed. *)
Definition attempt {A} (r : request) (k : proc (outcome failure A)) : proc (outcome failure A) :=
  Await r (fun a => match a with Raise Cancelled => Done (Raise Cancelled) | _ => k end).

Definition launch_pool (c ord : nat) (call_id : json) (frame : fields) (context : list str) (items : list (str * fields)) : H :=
  let keys := items.*1 in
  let raw := py_get (u "timeout") frame in
  let timeout := if valid_timeout raw then raw else DEFAULT_WAIT_TIMEOUT_S in
  ask TokenHex (fun hex =>
  let id := u "wp_" ++ hex in
  let event := controller_event "task_registered" id [(u "metadata", JDict [(u "keys", JList (JStr <$> keys))])] in
  ask (RegisterJob id) (fun _ =>
  ask (TransitionJob id (u "running") JNull JNull) (fun _ =>
  attempt (AppendDurable event) (
  ask (AppendLog event) (fun _ =>
  ask (GetJob id) (fun entry =>
  let launch (k : H) : H :=
    match entry with
    | Some _ => ask (SetJobResult id (pool_result id (u "running") keys [])) (fun _ => Fork (pool_controller c id frame context items timeout) k)
    | None => k
    end in
  launch (ask (Dispatched id) (fun _ =>
  let* _ := edit c ord (set_outcome true None) in
  Read (fun s =>
    producer_reply c ord (JStr (u "workpool_result")) call_id
      (JDict [(u "task_id", JStr id); (u "status", JStr (u "running")); (u "keys", JList (JStr <$> keys)); (u "jobs", JDict (pool_of s id))])))))))))).
Definition workpool (c : nat) (frame : fields) : H :=
  let call_id := py_get (u "call_id") frame in
  let ty := JStr (u "workpool_result") in
  let* ord := new_entry c (Some (u "workpool")) in
  let* _ := edit c ord (set_route (u "gateway") (u "controller")) in
  let raw := py_get (u "items") frame in
  if is_null raw then refuse c ord ty call_id (u "protocol_error") (u "workpool needs items") None
  else
    match pool_items raw with
    | None => refuse c ord ty call_id (u "protocol_error") (u "workpool items must be a list or dict") None
    | Some [] => refuse c ord ty call_id (u "protocol_error") (u "workpool items cannot be empty") None
    | Some items =>
      match first_duplicate [] items.*1 with
      | Some k => refuse c ord ty call_id (u "protocol_error") (u "duplicate item key " ++ py_repr (JStr k) ++ u " in workpool items") None
      | None => Read (fun s =>
        match bd_dispatcher (cl_binding (cell_at s c)) with
        | None => refuse c ord ty call_id (u "bridge_unavailable") no_dispatcher_agent None
        | Some _ =>
          let* g := granted c in
          match find_str RUN_AGENT_OPERATION g with
          | None => refuse c ord ty call_id (u "not_granted") not_granted_text None
          | Some _ =>
            if negb (has_registry s c) then refuse c ord ty call_id (u "bridge_unavailable") no_registry_agent None
            else match string_list (py_get (u "context_handles") frame) with
            | None => refuse c ord ty call_id (u "protocol_error") (u "workpool context_handles must be a list of strings") None
            | Some context => launch_pool c ord call_id frame context items
            end
          end
        end)
      end
    end.

(** *** Batches of judgments *)
Definition batch_state (idx : nat) (v : json) : str * json :=
  match v with
  | JList [k; st] => (py_str k, st)
  | JDict d => match dict_get (u "key") d with
               | Some k => (py_str k, or_else (py_get (u "state") d) v)
               | None => (item_name idx, v)
               end
  | _ => (item_name idx, v)
  end.
Fixpoint number_states (idx : nat) (l : list json) : list (str * json) :=
  match l with [] => [] | v :: l => batch_state idx v :: number_states (S idx) l end.
Definition batch_states (raw : json) : option (list (str * json)) :=
  match raw with JDict d => Some d | JList l => Some (number_states 0 l) | _ => None end.
(** A launched call answers with its task id; a missing one raises. *)
Fixpoint launch_batch (name : str) (questions : json) (frame : fields) (evidence : json) (states : list (str * json)) (ids : list (str * str))
    : proc (outcome failure (list (str * str))) :=
  match states with
  | [] => Done (Ret ids)
  | (key, st) :: states =>
    ask (ModelCall name (model_call_arguments st questions frame evidence)) (fun r =>
      match dict_get (u "task_id") r with
      | Some id => launch_batch name questions frame evidence states (put_str key (py_str id) ids)
      | None => Done (Raise (Failure (py_repr (JStr (u "task_id")))))
      end)
  end.
Fixpoint collect_judgments (ids : list (str * str)) (rows : fields) (all_settled : bool) : proc (outcome failure (fields * bool)) :=
  match ids with
  | [] => Done (Ret (rows, all_settled))
  | (key, id) :: ids =>
    ask (GetJob id) (fun v => match v with
      | None => collect_judgments ids (put_str key (JDict [(u "status", JStr (u "unknown"))]) rows) false
      | Some v =>
        let row := merge [(u "status", JStr (jv_state v))] (if truthy (jv_result v) then match jv_result v with JDict d => d | _ => [] end else []) in
        let row := if truthy (jv_error v) then put_str (u "error") (jv_error v) row else row in
        collect_judgments ids (put_str key (JDict row) rows) (all_settled && bool_decide (jv_state v ∈ SETTLED_STATES))
      end)
  end.
Definition judge_batch (c : nat) (frame : fields) : H :=
  let call_id := py_get (u "call_id") frame in
  let ty := JStr (u "judge_batch_result") in
  let operation := py_get (u "operation") frame in
  let* ord := new_entry c (Some (u "judge_batch")) in
  let* _ := edit c ord (set_route (u "gateway") (u "model_call")) in
  let protocol text := refuse c ord ty call_id (u "protocol_error") text None in
  match judgment operation with
  | None => protocol (u "judge_batch needs a non-empty string operation")
  | Some None => refuse c ord ty call_id (u "unknown_operation") (unknown_judgment operation) None
  | Some (Some _) =>
    let name := match operation with JStr s => py_strip s | _ => [] end in
    let raw := py_get (u "states") frame in
    if is_null raw then protocol (u "judge_batch needs states")
    else
      match batch_states raw with
      | None => protocol (u "judge_batch states must be a dict or list")
      | Some [] => protocol (u "judge_batch states cannot be empty")
      | Some states =>
        let questions := py_get (u "questions") frame in
        if is_null questions then protocol (u "judge_batch needs questions or rubric input")
        else match string_list (py_get (u "evidence_handles") frame) with
        | None => protocol (u "judge_batch evidence_handles must be a list of strings")
        | Some evidence => Read (fun s =>
          if negb (has_registry s c) then
            refuse c ord ty call_id (u "bridge_unavailable")
              (u "no job registry is bound to this session; call the outer tool directly outside the cell, or run in a session with delegation bound") None
          else
            let* launched := launch_batch name questions frame (JList (JStr <$> evidence)) states [] in
            match launched with
            | Raise Cancelled => Done (Raise Cancelled)
            | Raise (Preparation _ text) | Raise (Failure text) => refuse c ord ty call_id (u "execution_error") text None
            | Ret ids =>
              let wait_flag := match dict_get (u "wait") frame with None | Some JNull => true | Some v => truthy v end in
              if wait_flag then
                let raw := py_get (u "timeout") frame in
                ask (JobsWait ids.*2 (if valid_timeout raw then raw else DEFAULT_WAIT_TIMEOUT_S)) (fun _ =>
                let* r := collect_judgments ids [] true in
                match r with
                | Raise e => Done (Raise e)
                | Ret (judgments, all_settled) =>
                  let* _ := edit c ord (set_outcome all_settled (if all_settled : bool then None else Some (u "timed_out"))) in
                  producer_reply c ord ty call_id (JDict [(u "operation", JStr name);
                    (u "status", JStr (if all_settled then u "completed" else u "timed_out")); (u "judgments", JDict judgments)])
                end)
              else
                let* _ := edit c ord (set_outcome true None) in
                producer_reply c ord ty call_id (JDict [(u "operation", JStr name); (u "status", JStr (u "running"));
                  (u "jobs", JDict ((fun kv => (kv.1, running_row (JStr kv.2))) <$> ids))])
            end)
        end
      end
  end.

(** *** Derived rows *)
Definition source_refs_of (input : fields) : list str :=
  match py_get (u "source_refs") input with JList l => default [] (all_strings l) | _ => [] end.
Definition resolve_input (issued : list (str * fields)) (input : fields) : list str * list fields :=
  let refs := dedup (source_refs_of input) [] in (refs, omap (fun ref => find_str ref issued) refs).
Definition input_row (input : fields) (sources : list fields) : json :=
  JDict [(u "nested_call_id", py_get (u "nested_call_id") input); (u "path", py_get (u "path") input);
         (u "value", py_get (u "value") input); (u "sources", JList (JDict <$> sources))].
Definition unsourced_reason (refs : list str) (sources : list fields) : option str :=
  match refs with
  | [] => Some (u "the input carries no source reference; select it from a producer result with hank.input")
  | _ => if length sources =? length refs then None else Some (u "the input's source references were not issued by this session")
  end.
Definition finding (idx : nat) (input : fields) (reason : str) : json :=
  JDict [(u "code", JStr (u "input_unsourced")); (u "input", JInt (Z.of_nat idx)); (u "nested_call_id", py_get (u "nested_call_id") input);
         (u "path", py_get (u "path") input); (u "message", JStr reason)].
Fixpoint resolve_inputs (issued : list (str * fields)) (idx : nat) (inputs : list fields) : list json * list json :=
  match inputs with
  | [] => ([], [])
  | input :: inputs =>
    let '(refs, sources) := resolve_input issued input in
    let '(rows, findings) := resolve_inputs issued (S idx) inputs in
    (input_row input sources :: rows, match unsourced_reason refs sources with Some r => finding idx input r :: findings | None => findings end)
  end.
Definition inputs_of (frame : fields) : list fields :=
  match py_get (u "inputs") frame with JList l => (fun v => match v with JDict d => d | _ => [] end) <$> l | _ => [] end.
Definition derived_row (issued : list (str * fields)) (frame : fields) : json :=
  let '(rows, findings) := resolve_inputs issued 0 (inputs_of frame) in
  JDict [(u "name", py_get (u "name") frame); (u "value", py_get (u "value") frame); (u "expression", py_get (u "expression") frame);
         (u "status", JStr (u "derived")); (u "inputs", JList rows); (u "findings", JList findings)].
Definition derive (c : nat) (frame : fields) : H :=
  let call_id := py_get (u "call_id") frame in
  match derive_frame_error (JDict frame) with
  | Some text => answer (error_reply (JStr (u "derive_result")) call_id (u "protocol_error") text None)
  | None => Read (fun s =>
    let published := derived_row (rd_issued (br_reader s)) frame in
    Write (on_cell c (fun cell => set_derived (cl_derived cell ++ [published]) cell))
      (answer (ok_reply (JStr (u "derive_result")) call_id published)))
  end.

(** *** The catalog *)
Definition route_row (b : Binding) (name : str) (definition : fields) : fields :=
  let metadata := match bd_metadata b with Some f => f name | None => [] end in
  merge metadata [(u "name", JStr name); (u "description", JStr (or_text (py_get (u "description") definition) []));
    (u "input_schema", or_else (py_get (u "input_schema") metadata) (or_else (py_get (u "input_schema") definition) (JDict [])))].
Definition delegation_row (d : DelegationDef) : fields :=
  [(u "route_kind", JStr (u "bridge")); (u "name", JStr (dg_name d)); (u "arguments", JList ((fun p => JStr p.1) <$> dg_properties d));
   (u "description", JStr (dg_description d));
   (u "input_schema", JDict [(u "type", JStr (u "object")); (u "properties", JDict (dg_properties d)); (u "required", JList (JStr <$> dg_required d))])].
Definition search_row (b : Binding) (query : str) (nd : str * fields) : option json :=
  let description := or_text (py_get (u "description") nd.2) [] in
  if negb (py_contains query (str_lower nd.1)) && negb (py_contains query (str_lower description)) then None
  else if code_callable b nd.1 then
    let metadata := filter (fun kv => kv.1 <> u "input_schema") (match bd_metadata b with Some f => f nd.1 | None => [] end) in
    Some (JDict (merge metadata [(u "name", JStr nd.1); (u "description", JStr (take 300 description))]))
  else None.
Definition catalog (c : nat) (frame : fields) : H :=
  let call_id := py_get (u "call_id") frame in
  let ty := JStr (u "catalog") in
  let request := py_get (u "request") frame in
  Read (fun s =>
  let b := cl_binding (cell_at s c) in
  if is_none (bd_dispatcher b) || negb (bd_definitions b) then
    answer (error_reply ty call_id (u "bridge_unavailable")
      (u "no dispatcher is bound to this session; list tools via the outer tool catalog outside the cell, or run in a session with a tool dispatcher bound") None)
  else if py_eq request (JStr (u "search")) then
    let query := str_lower (or_text (py_get (u "query") frame) []) in
    let* g := granted c in answer (ok_reply ty call_id (JList (omap (search_row b query) g)))
  else if py_eq request (JStr (u "describe")) then
    match py_get (u "operation") frame with
    | JStr operation =>
      match List.find (fun d => str_eqb (dg_name d) operation) delegation_defs with
      | Some d => answer (ok_reply ty call_id (JDict (delegation_row d)))
      | None =>
        match model_operation operation with
        | Some (_, _, row) => answer (ok_reply ty call_id row)
        | None =>
          let* r := refusal c operation in
          match r with
          | Some r => let '(message, next) := refusal_message b r operation in answer (error_reply ty call_id (refusal_text r) message next)
          | None =>
            let* g := granted c in
            answer (ok_reply ty call_id (JDict (route_row b operation (default [] (find_str operation g)))))
          end
        end
      end
    | _ => answer (error_reply ty call_id (u "protocol_error") (u "describe needs a string operation") None)
    end
  else answer (error_reply ty call_id (u "protocol_error") (u "unknown catalog request " ++ py_repr request) None)).

(** *** Answering a frame *)
Definition bad_token (frame : fields) : fields :=
  error_reply (py_get (u "type") frame) (py_get (u "call_id") frame) (u "bad_cell_token") (u "no live cell registration for this token") None.
Definition unknown_type (frame : fields) : fields :=
  error_reply (py_get (u "type") frame) (py_get (u "call_id") frame) (u "protocol_error")
    (u "unknown frame type " ++ py_repr (py_get (u "type") frame)) None.
Definition type_is (frame : fields) (name : string) : bool := py_eq (py_get (u "type") frame) (JStr (u name)).
(** The branches of [_answer_frame] for the delegation operations. *)
Definition delegated (c : nat) (frame : fields) (otherwise : H) : H :=
  if type_is frame "agent" then agent c frame
  else if type_is frame "wait" then wait c frame
  else if type_is frame "completion" then completion frame
  else if type_is frame "judge" then judge c frame
  else if type_is frame "workpool" then workpool c frame
  else if type_is frame "judge_batch" then judge_batch c frame
  else otherwise.
(** [_answer_frame] on a frame whose type is the name of a delegation operation,
    as [_tool_call] calls it. *)
Definition answer_delegation (c : nat) (frame : fields) : H :=
  Read (fun s => if registered s c frame then delegated c frame (answer (unknown_type frame)) else answer (bad_token frame)).

Fixpoint zip_arguments (names : list str) (args : list json) (d : fields) : fields :=
  match names, args with n :: names, a :: args => zip_arguments names args (put_str n a d) | _, _ => d end.
Fixpoint keyword_arguments (names : list str) (kwargs : fields) (d : fields) : fields + str :=
  match kwargs with
  | [] => inl d
  | (k, v) :: kwargs => if bool_decide (k ∈ names) then keyword_arguments names kwargs (put_str k v d) else inr k
  end.
Definition lower_delegation (c : nat) (frame : fields) (call_id : json) (operation : str) (names : list str) (input : json) : H :=
  let ty := JStr (u "tool_result") in
  let bad code message := answer (error_reply ty call_id code message None) in
  match or_else (py_get (u "args") frame) (JList []), or_else input (JDict []) with
  | JList args, JDict kwargs =>
    if length names <? length args
    then bad (u "type_error") (u "hank." ++ operation ++ u " takes at most " ++ Z_to_str (Z.of_nat (length names)) ++ u " positional arguments")
    else
      let base := [(u "type", JStr operation); (u "call_id", call_id); (u "cell_token", py_get (u "cell_token") frame);
                   (u "parent_call_id", py_get (u "parent_call_id") frame)] in
      match keyword_arguments names kwargs (zip_arguments names args base) with
      | inl lowered => answer_delegation c lowered
      | inr k => bad (u "type_error") (u "hank." ++ operation ++ u " got an unexpected argument " ++ py_repr (JStr k) ++ u "; accepts "
                   ++ py_repr (JList (JStr <$> names)))
      end
  | _, _ => bad (u "protocol_error") (u "tool_call needs a string operation and an object input")
  end.
Definition direct_call (c : nat) (frame : fields) (call_id operation input : json) : H :=
  let ty := JStr (u "tool_result") in
  if truthy (py_get (u "args") frame)
  then answer (error_reply ty call_id (u "type_error") (u "hank." ++ py_str operation ++ u " takes keyword arguments only") None)
  else
    let* ord := new_entry c (match operation with JStr s => Some s | _ => None end) in
    match operation, input with
    | JStr op, JDict _ =>
      Read (fun s =>
        let b := cl_binding (cell_at s c) in
        match bd_dispatcher b with
        | None => refuse c ord ty call_id (u "bridge_unavailable") (u "no dispatcher is bound to this session; call the operation directly as a tool outside the cell, or run in a session with a tool dispatcher bound") None
        | Some _ =>
          let* r := refusal c op in
          let* _ := route_entry c ord op in
          match r with
          | Some r => let '(message, next) := refusal_message b r op in refuse c ord ty call_id (refusal_text r) message next
          | None =>
            let* reply := dispatch_granted c ord ty call_id op input in
            if bool_decide (op = u "load_tools")
            then Read (fun s => if match entry_of s c ord with Some e => en_ok e | None => false end
                                then Write (on_cell c (set_grant None)) (Done reply) else Done reply)
            else Done reply
          end
        end)
    | _, _ => refuse c ord ty call_id (u "protocol_error") (u "tool_call needs a string operation and an object input") None
    end.
Definition tool_call_on (c : nat) (frame : fields) (call_id operation input : json) : H :=
  match operation with
  | JStr op => match find_str op delegation_operations with
               | Some names => lower_delegation c frame call_id op names input
               | None => direct_call c frame call_id operation input
               end
  | _ => direct_call c frame call_id operation input
  end.
Definition tool_call (c : nat) (frame : fields) : H :=
  let call_id := py_get (u "call_id") frame in
  match dict_get (u "next_call") frame with
  | Some next =>
    match parse_next_call next with
    | inl (name, arguments) => tool_call_on c frame call_id (JStr name) (JDict arguments)
    | inr message => answer (error_reply (JStr (u "tool_result")) call_id (u "type_error") message None)
    end
  | None => tool_call_on c frame call_id (py_get (u "operation") frame) (py_get (u "input") frame)
  end.
Definition answer_frame (c : nat) (frame : fields) : H :=
  Read (fun s =>
    if negb (registered s c frame) then answer (bad_token frame)
    else if type_is frame "tool_call" then tool_call c frame
    else if type_is frame "catalog" then catalog c frame
    else delegated c frame (if type_is frame "derive" then derive c frame else answer (unknown_type frame))).

(** *** The wire *)
(** Encoding against the budget of the cell. *)
Definition send (c : nat) (r : fields) (k : outcome str (list N) -> proc (option (list N))) : proc (option (list N)) :=
  Read (fun s =>
    let '(b, wire) := encode_frame (JDict r) MAX_CELL_BYTES (cl_budget (cell_at s c)) in
    Write (on_cell c (set_budget b)) (k wire)).
Definition protocol_error_wire (c : nat) (frame : fields) (text : str) : proc (option (list N)) :=
  send c (error_reply (py_get (u "type") frame) (py_get (u "call_id") frame) (u "protocol_error") text None) (fun o =>
    match o with
    | Ret wire => Done (Some wire)
    | Raise bounds =>
      match encode_unbudgeted (JDict (error_reply JNull JNull (u "protocol_error") bounds None)) MAX_CELL_BYTES with
      | Ret wire => Done (Some wire)
      | Raise _ => Done None
      end
    end).
Definition edit_nested (nested : json) (f : Entry -> Entry) (cell : Cell) : Cell :=
  set_ledger (cl_ordinal cell) ((fun e => if py_eq (JStr (en_nested e)) nested then f e else e) <$> cl_ledger cell) cell.
(** [None]: the task is cancelled and sends nothing. *)
Definition handle_decoded_frame (c : nat) (frame : fields) : proc (option (list N)) :=
  let* r := answer_frame c frame in
  match r with
  | Ret reply =>
    let nested := py_get (u "nested_call_id") reply in
    let overflow text :=
      Write (on_cell c (edit_nested nested (fun e => set_outcome false (Some (u "protocol_error")) e))) (protocol_error_wire c frame text) in
    send c reply (fun o =>
      match o with
      | Raise text => overflow text
      | Ret wire =>
        if truthy (py_get (u "ok") reply) && negb (is_null nested) then
          match encode_unbudgeted (JDict (put_str (u "result") JNull reply)) MAX_CELL_BYTES with
          | Raise text => overflow text
          | Ret envelope =>
            Write (on_cell c (edit_nested nested (set_bytes (Z.of_nat (length wire) - Z.of_nat (length envelope) + 4)))) (Done (Some wire))
          end
        else Done (Some wire)
      end)
  | Raise Cancelled => Done None
  | Raise (Preparation _ text) | Raise (Failure text) =>
    send c (error_reply (py_get (u "type") frame) (py_get (u "call_id") frame) (u "internal_error") text None) (fun o =>
      match o with Ret wire => Done (Some wire) | Raise _ => protocol_error_wire c frame text end)
  end.
Definition handle_frame (c : nat) (line : list N) : proc (option (list N)) :=
  Read (fun s =>
    let '(b, o) := decode_frame line MAX_CELL_BYTES (cl_budget (cell_at s c)) in
    Write (on_cell c (set_budget b))
      (match o with Raise text => protocol_error_wire c [] text | Ret frame => handle_decoded_frame c frame end)).

(** *** Native calls *)
Definition start_native (c : nat) (operation : str) : proc (outcome str nat) :=
  Read (fun s =>
    if negb (is_registered s c) then Done (Raise (u "bad_cell_token"))
    else match bd_dispatcher (cl_binding (cell_at s c)) with
    | None => Done (Raise (u "bridge_unavailable"))
    | Some _ =>
      let* r := refusal c operation in
      match r with
      | Some r => Done (Raise (refusal_text r))
      | None =>
        let* ord := new_entry c (Some operation) in
        let* _ := edit c ord (fun e => set_native (set_route (server_of operation) (policy_class operation) e)) in
        Read (fun s =>
          let nested := nested_id (cl_outer (cell_at s c)) ord in
          Write (on_cell c (fun cell => set_native_calls (cl_native cell ++ [nested]) cell)) (Done (Ret ord)))
      end
    end).
(** The nested id leaves the pending calls first; an id that is not there raises. *)
Definition settle_native (c ord : nat) (operation : str) (prepared : nat) (result : json) (error : option json) (provenance : option json)
    : proc (outcome failure unit) :=
  Read (fun s =>
    let nested := nested_id (cl_outer (cell_at s c)) ord in
    if negb (bool_decide (nested ∈ cl_native (cell_at s c))) then Done (Raise (Failure nested))
    else
      Write (on_cell c (fun cell => set_native_calls (filter (fun x => x <> nested) (cl_native cell)) cell))
      (ask (Settle operation result error prepared) (fun settled =>
        let failed := match error with
                      | Some (JDict d) => Some (or_text (py_get (u "code") d) (u "tool_error"))
                      | Some _ => Some (u "tool_error")
                      | None => semantic_error result
                      end in
        let* _ := edit c ord (fun e => set_bytes (if is_none error then Z.of_nat (result_size result) else 0) (set_outcome (is_none failed) failed e)) in
        let* _ := edit c ord (fun e => match provenance with Some p => set_provenance p e | None => e end) in
        if is_none error && settled.1 then
          let* refs := record_sources c operation result settled.2 in
          let* _ := edit c ord (set_refs refs) in Done (Ret tt)
        else Done (Ret tt)))).
End handlers.

End CellBridge.
