(* ===== verification/CellAuthority.v ===== *)
(** * CellAuthority: what a code cell can do through the bridge

    Theorems about the handlers of [CellBridge] running concurrently. A rely and
    guarantee calculus ([wp]) shows of each handler, whatever other components
    answer and however the bridge evolves while it waits, which calls it
    dispatches and that it writes only what [handler_write] lists. The host then
    interleaves handlers, their background controllers, native calls and the
    life of cells; its theorems are the authority of nested calls, the exact
    ledger and the byte budget of a cell, revocation that lasts, and sources and
    derived rows that cite only what was settled and issued. *)
From S2P Require Import Prelude Wire CellBridge.
Import Wire CellBridge.

Module CellAuthority.
Create HintDb bridge.

(** ** What handlers do to the state *)

(** The identity of a row of the ledger, and how the bridge may evolve: cells
    stay, with what they captured when they opened; ledgers, issued sources and
    derived rows are appended to; a disposed reader stays disposed. *)
Definition call_of (e : Entry) : nat * str * option str := (en_ordinal e, en_nested e, en_operation e).
Definition calls (cell : Cell) : list (nat * str * option str) := call_of <$> cl_ledger cell.
Definition same_call (f : Entry -> Entry) : Prop := forall e, call_of (f e) = call_of e.
Record kept (cell cell' : Cell) : Prop := {
  kp_outer : cl_outer cell' = cl_outer cell;
  kp_token : cl_token cell' = cl_token cell;
  kp_binding : cl_binding cell' = cl_binding cell;
  kp_calls : calls cell `prefix_of` calls cell';
  kp_derived : cl_derived cell `prefix_of` cl_derived cell';
  kp_sources : cl_sources cell `prefix_of` cl_sources cell';
  kp_budget : (bg_used (cl_budget cell) <= bg_used (cl_budget cell'))%Z;
  kp_poisoned : bg_error (cl_budget cell) <> None -> cl_budget cell' = cl_budget cell
}.
Record evolves (s s' : Bridge) : Prop := {
  ev_cells : forall c cell, br_cells s !! c = Some cell -> exists cell', br_cells s' !! c = Some cell' /\ kept cell cell';
  ev_closed : rd_closed (br_reader s) = true -> rd_closed (br_reader s') = true
}.
#[global] Instance kept_po : PreOrder kept.
Proof.
  split; [intros x; by split|]. intros x y z [] []. split; try congruence; try (by etrans); try lia.
  intros Hx. rewrite kp_poisoned1; [by apply kp_poisoned0|]. by rewrite kp_poisoned0.
Qed.
#[global] Instance evolves_po : PreOrder evolves.
Proof.
  split; [intros s; split; [intros c cell Hc; exists cell; split; [done|reflexivity]|done]|]. intros x y z [H1 H2] [H3 H4]. split; [|eauto].
  intros c cell Hc. destruct (H1 c cell Hc) as (cell' & Hc' & Hk). destruct (H3 c cell' Hc') as (cell'' & Hc'' & Hk').
  exists cell''. split; [done|by etrans].
Qed.
Lemma calls_edit f (l : list Entry) (P : Entry -> bool) : same_call f -> call_of <$> ((fun e => if P e then f e else e) <$> l) = call_of <$> l.
Proof. intros Hf. rewrite <- list_fmap_compose. apply list_fmap_ext. intros i e _. cbn. by destruct (P e). Qed.
Lemma cell_at_some s c cell : br_cells s !! c = Some cell -> cell_at s c = cell.
Proof. unfold cell_at. by intros ->. Qed.
Lemma cell_at_on c f s cell : br_cells s !! c = Some cell -> cell_at (on_cell c f s) c = f cell.
Proof. intros Hc. unfold cell_at, on_cell. cbn. rewrite list_lookup_alter, decide_True by done. by rewrite Hc. Qed.
Lemma cells_on c f s c' : br_cells (on_cell c f s) !! c' = (if decide (c = c') then f <$> br_cells s !! c' else br_cells s !! c').
Proof.
  unfold on_cell. cbn. rewrite list_lookup_alter. by case_decide; subst.
Qed.
Lemma evolves_on c f s : (forall cell, br_cells s !! c = Some cell -> kept cell (f cell)) -> evolves s (on_cell c f s).
Proof.
  intros Hf. split; [|done]. intros c' cell Hc. rewrite cells_on, Hc. case_decide as Hcc; [subst|exists cell; split; [done|reflexivity]].
  exists (f cell). split; [done|by apply Hf].
Qed.

Section writes.
Context {env : BridgeEnv}.
(** Every write of a handler is one of these. *)
Inductive handler_write : Bridge -> Bridge -> Prop :=
| hw_append c op s : handler_write s (on_cell c (append_entry op) s)
| hw_edit c ord f s : same_call f -> handler_write s (on_cell c (edit_entry ord f) s)
| hw_edit_nested c n f s : same_call f -> handler_write s (on_cell c (edit_nested n f) s)
| hw_grant c g s : handler_write s (on_cell c (set_grant g) s)
| hw_record c op hs s : handler_write s (foldl (fun s hk => record_handle c op hk.1 hk.2 s) s hs)
| hw_derived c frame s :
    handler_write s (on_cell c (fun cell => set_derived (cl_derived cell ++ [derived_row (rd_issued (br_reader s)) frame]) cell) s)
| hw_pool v s : handler_write s (set_pools v s)
| hw_charge c size s : (0 <= size)%Z -> handler_write s (on_cell c (set_budget (charge size (cl_budget (cell_at s c))).1) s)
| hw_same_budget c s : handler_write s (on_cell c (set_budget (cl_budget (cell_at s c))) s)
| hw_native c f s : handler_write s (on_cell c (fun cell => set_native_calls (f (cl_native cell)) cell) s).

Lemma setdefault_prefix {K V} (eqb : K -> K -> bool) k (v : V) d : d `prefix_of` setdefault_by eqb k v d.
Proof. unfold setdefault_by. destruct (lookup_by _ _ _); [done|by apply prefix_app_r]. Qed.
Lemma record_evolves c op h key s : evolves s (record_handle c op h key s).
Proof.
  unfold record_handle. set (row := put_str _ _ h).
  etrans; [apply (evolves_on c (fun cell => set_sources (setdefault_by py_eq key row (cl_sources cell)) cell))|].
  - intros cell _. split; cbn; try done. apply setdefault_prefix.
  - split; [|done]. intros c' cell' Hc. exists cell'. split; [exact Hc|reflexivity].
Qed.
Lemma record_all_evolves c op hs s : evolves s (foldl (fun s hk => record_handle c op hk.1 hk.2 s) s hs).
Proof. revert s. induction hs as [|hk hs IH]; intros s; cbn; [reflexivity|]. etrans; [apply record_evolves|apply IH]. Qed.
Lemma charge_monotone size b : (0 <= size)%Z ->
  (bg_used b <= bg_used (charge size b).1)%Z /\ (bg_error b <> None -> (charge size b).1 = b).
Proof. intros Hs. unfold charge. destruct (bg_error b); [split; [apply Z.le_refl|reflexivity]|].
  destruct (_ <? _)%Z; cbn [fst bg_used]; (split; [lia|]); intros []; reflexivity. Qed.
Lemma write_evolves s s' : handler_write s s' -> evolves s s'.
Proof.
  intros [c op s1|c ord f s1 Hf|c n f s1 Hf|c g s1|c op hs s1|c frame s1|v s1|c size s1 Hsize|c s1|c f s1];
    try (apply evolves_on; intros cell Hc; rewrite ?(cell_at_some _ _ _ Hc); split; cbn; try done).
  - unfold calls. cbn. rewrite fmap_app. by apply prefix_app_r.
  - unfold calls. cbn. by rewrite calls_edit.
  - unfold calls. cbn. by rewrite calls_edit.
  - apply record_all_evolves.
  - by apply prefix_app_r.
  - split; [|done]. intros c cell Hc. exists cell. split; [exact Hc|reflexivity].
  - by apply charge_monotone.
  - by apply charge_monotone.
Qed.

(** [recorded s c n op]: the ledger of the cell has a call of [op] under the
    nested id [n]. *)
Definition recorded (s : Bridge) (c : nat) (n : str) (op : str) : Prop :=
  exists cell ord, br_cells s !! c = Some cell /\ n = nested_id (cl_outer cell) ord /\ (ord, n, Some op) ∈ calls cell.
Definition entered (s : Bridge) (c ord : nat) (op : option str) : Prop :=
  exists cell, br_cells s !! c = Some cell /\ (ord, nested_id (cl_outer cell) ord, op) ∈ calls cell.
Lemma entered_evolves s s' c ord op : evolves s s' -> entered s c ord op -> entered s' c ord op.
Proof.
  intros Hev (cell & Hc & Hin). destruct (ev_cells _ _ Hev c cell Hc) as (cell' & Hc' & [Ho _ _ Hl]).
  exists cell'. split; [done|]. rewrite Ho. destruct Hl as [rest ->]. set_solver.
Qed.
Lemma entered_recorded s c ord op : entered s c ord (Some op) -> recorded s c (nested_id (cl_outer (cell_at s c)) ord) op.
Proof. intros (cell & Hc & Hin). rewrite (cell_at_some _ _ _ Hc). by exists cell, ord. Qed.

(** [wp may p Q s]: run from [s], every write of [p] is a handler's, every
    dispatch is one it [may] make in the state it is made in, whatever the
    answers and however the bridge evolves meanwhile, and [p] ends only in
    results and states that satisfy [Q]. *)
Definition permitted (may : Bridge -> str -> str -> Prop) (s : Bridge) (r : request) : Prop :=
  match r with Dispatch n op _ => may s n op | _ => True end.
Definition anywhere {A : Type} (a : A) (s : Bridge) : Prop := True.
Fixpoint wp {A : Type} (may : Bridge -> str -> str -> Prop) (p : proc A) (Q : A -> Bridge -> Prop) (s : Bridge) : Prop :=
  match p with
  | Done a => Q a s
  | Read k => wp may (k s) Q s
  | Write f rest => handler_write s (f s) /\ wp may rest Q (f s)
  | Await r k => permitted may s r /\ forall a s', evolves s s' -> wp may (k a) Q s'
  | Fork b rest => (forall s', evolves s s' -> wp may b anywhere s') /\ wp may rest Q s
  end.
Lemma wp_weaken {A : Type} may (p : proc A) (Q Q' : A -> Bridge -> Prop) s :
  wp may p Q s -> (forall a s', evolves s s' -> Q a s' -> Q' a s') -> wp may p Q' s.
Proof.
  revert Q Q' s. induction p as [A a|A k IH|A f rest IH|A r k IH|A b IHb rest IH]; intros Q Q' s; cbn [wp]; intros Hp HQ.
  - apply HQ; [reflexivity|done].
  - by apply (IH s Q).
  - destruct Hp as [Hw Hp]. split; [done|]. apply (IH Q); [done|]. intros a s' Hs. apply HQ. etrans; [by apply write_evolves|done].
  - destruct Hp as [Hr Hp]. split; [done|]. intros a s' Hs. apply (IH a Q); [by apply Hp|]. intros b s'' Hs'. apply HQ. by etrans.
  - destruct Hp as [Hb Hp]. split; [done|]. by apply (IH Q).
Qed.
Lemma wp_seq {A B : Type} may (p : proc A) (k : A -> proc B) (Q : A -> Bridge -> Prop) (Q' : B -> Bridge -> Prop) s :
  wp may p Q s -> (forall a s', evolves s s' -> Q a s' -> wp may (k a) Q' s') -> wp may (proc_bind p k) Q' s.
Proof.
  revert k Q s. induction p as [A a|A r IH|A f rest IH|A r c IH|A b IHb rest IH]; intros k Q s; cbn [wp proc_bind]; intros Hp Hk.
  - apply Hk; [reflexivity|done].
  - by apply (IH s k Q).
  - destruct Hp as [Hw Hp]. split; [done|]. apply (IH k Q); [done|]. intros a s' Hs. apply Hk. etrans; [by apply write_evolves|done].
  - destruct Hp as [Hr Hp]. split; [done|]. intros a s' Hs. apply (IH a k Q); [by apply Hp|]. intros b s'' Hs'. apply Hk. by etrans.
  - destruct Hp as [Hb Hp]. split; [done|]. by apply (IH k Q).
Qed.
(** Everything is known to evolve. *)
Lemma wp_bind_any {A B : Type} may (p : proc A) (k : A -> proc B) Q' s :
  wp may p anywhere s -> (forall a s', evolves s s' -> wp may (k a) Q' s') -> wp may (proc_bind p k) Q' s.
Proof. intros Hp Hk. apply (wp_seq _ _ _ anywhere); [done|]. intros a s' Hs _. by apply Hk. Qed.
Lemma wp_any {A : Type} may (p : proc A) Q s : wp may p Q s -> wp may p anywhere s.
Proof. intros Hp. by apply (wp_weaken _ _ Q). Qed.

(** What decides whether the cell may make a call. *)
Definition callable (s : Bridge) (c : nat) (op : str) : Prop :=
  let b := cl_binding (cell_at s c) in op ∉ bd_host_tools b /\ is_Some (find_str op (grant_of s c)) /\ code_callable b op = true.
Record quiet (c : nat) (s s' : Bridge) : Prop := {
  qt_binding : cl_binding (cell_at s' c) = cl_binding (cell_at s c);
  qt_grant : grant_of s' c = grant_of s c;
  qt_registered : forall frame, registered s' c frame = registered s c frame;
  qt_cell : is_Some (br_cells s !! c) -> is_Some (br_cells s' !! c)
}.
#[global] Instance quiet_po c : PreOrder (quiet c).
Proof. split; [intros s; by split|]. intros x y z [] []. split; [congruence|congruence|congruence|auto]. Qed.
(** A change of the cell that keeps what identifies and binds it. *)
Lemma quiet_on c f s :
  (forall cell, cl_token (f cell) = cl_token cell /\ cl_outer (f cell) = cl_outer cell /\ cl_active (f cell) = cl_active cell /\
     cl_binding (f cell) = cl_binding cell) ->
  (forall cell, br_cells s !! c = Some cell -> default (loaded_granted s c) (cl_grant (f cell)) = grant_of s c) ->
  quiet c s (on_cell c f s).
Proof.
  intros Hf Hg. destruct (br_cells s !! c) as [cell|] eqn:Hc.
  - pose proof (cell_at_on c f s cell Hc) as Hat. pose proof (cell_at_some s c cell Hc) as Hat0. destruct (Hf cell) as (Ht & Ho & Ha & Hb).
    split.
    + by rewrite Hat, Hat0.
    + rewrite <- (Hg cell eq_refl). unfold grant_of, loaded_granted. by rewrite Hat, Hat0, Hb.
    + intros frame. unfold registered, is_registered, find_cell. by rewrite Hat, Hat0, Ht, Ho, Ha.
    + intros _. rewrite cells_on, decide_True, Hc by done. by eexists.
  - assert (on_cell c f s = s) as ->; [|reflexivity]. unfold on_cell. destruct s as [r cells cat run pools]. cbn in *. f_equal.
    apply list_eq. intros i. rewrite list_lookup_alter. case_decide; [subst; by rewrite Hc|done].
Qed.

(** *** The steps of a handler *)
Lemma same_route a b : same_call (set_route a b). Proof. done. Qed.
Lemma same_outcome ok code : same_call (set_outcome ok code). Proof. done. Qed.
Lemma same_code code : same_call (set_code code). Proof. done. Qed.
Lemma same_bytes n : same_call (set_bytes n). Proof. done. Qed.
Lemma same_refs r : same_call (set_refs r). Proof. done. Qed.
Lemma same_default_refs : same_call (fun e => set_refs (default [] (en_source_refs e)) e). Proof. done. Qed.
#[local] Hint Resolve same_route same_outcome same_code same_bytes same_refs same_default_refs : bridge.

Lemma quiet_grant c s (f : Cell -> Cell) cell : br_cells s !! c = Some cell -> cl_grant (f cell) = cl_grant cell ->
  default (loaded_granted s c) (cl_grant (f cell)) = grant_of s c.
Proof. intros Hc ->. unfold grant_of. by rewrite (cell_at_some _ _ _ Hc). Qed.
Lemma wp_edit may c ord f s : same_call f -> wp may (edit c ord f) (fun _ => quiet c s) s.
Proof.
  intros Hf. cbn. split; [by constructor|]. apply quiet_on; [done|]. intros cell Hc. by apply (quiet_grant c s (edit_entry ord f) cell).
Qed.
Lemma wp_edit_any may c ord f s : same_call f -> wp may (edit c ord f) anywhere s.
Proof. intros Hf. eapply wp_any, wp_edit, Hf. Qed.
Lemma wp_new_entry may c op s : is_Some (br_cells s !! c) -> wp may (new_entry c op) (fun ord s' => quiet c s s' /\ entered s' c ord op) s.
Proof.
  intros [cell Hc]. cbn. split; [constructor|]. split.
  - apply quiet_on; [done|]. intros cell' Hc'. by apply (quiet_grant c s (append_entry op) cell').
  - rewrite (cell_at_some _ _ _ Hc). exists (append_entry op cell). rewrite cells_on, decide_True, Hc by done. split; [done|].
    unfold calls. cbn. rewrite fmap_app. apply elem_of_app. right. by apply list_elem_of_singleton.
Qed.
Lemma wp_granted may c s : is_Some (br_cells s !! c) -> wp may (granted c) (fun g s' => quiet c s s' /\ g = grant_of s c) s.
Proof. intros _. cbn. split; [constructor|]. split; [|done]. by apply quiet_on. Qed.
Lemma wp_refusal may c op s : is_Some (br_cells s !! c) ->
  wp may (refusal c op) (fun r s' => quiet c s s' /\ (r = None <-> callable s c op)) s.
Proof.
  intros Hc. unfold refusal. cbn [wp]. unfold callable. case_bool_decide as Hhost; cbn [wp].
  - split; [reflexivity|]. split; [done|]. by intros [? _].
  - eapply wp_seq; [by apply wp_granted|]. intros g s' _ [Hq ->]. destruct (find_str op (grant_of s c)) as [d|]; cbn [wp].
    + split; [done|]. destruct (code_callable _ _); split; [eauto|done|done|by intros (_ & _ & ?)].
    + split; [done|]. split; [by destruct (_ && _)|]. by intros (_ & [? ?] & _).
Qed.
Lemma wp_refuse may c ord ty id code message next s : wp may (refuse c ord ty id code message next) anywhere s.
Proof. unfold refuse. eapply wp_bind_any; [by apply wp_edit_any; auto with bridge|]. done. Qed.
Lemma wp_producer may c ord ty id result s : wp may (producer_reply c ord ty id result) anywhere s.
Proof. unfold producer_reply. eapply wp_bind_any; [apply wp_edit_any; auto with bridge|]. done. Qed.
Lemma wp_record may c op result sources s : wp may (record_sources c op result sources) anywhere s.
Proof. cbn. split; [apply hw_record|done]. Qed.

(** The dispatches of a handler are made for an operation it has authority for,
    and are on the ledger. *)
Definition called (auth : str -> Prop) (c : nat) (s : Bridge) (n op : str) : Prop := auth op /\ recorded s c n op.
Section calls.
Context (auth : str -> Prop) (c : nat).
#[local] Abbreviation safe := (wp (called auth c)).

Lemma wp_dispatch ord ty id op input s : auth op -> entered s c ord (Some op) -> safe (dispatch_granted c ord ty id op input) anywhere s.
Proof.
  intros Ha He. unfold dispatch_granted. cbn [wp].
  assert (forall e s, safe (dispatch_failed c ord ty id e) anywhere s) as Hfailed.
  { intros [|code m|text] s'; [|apply wp_refuse|apply wp_refuse]. eapply wp_bind_any; [apply wp_edit_any; auto with bridge|done]. }
  split; [done|]. intros [prepared|e] s1 H1; [|apply Hfailed]. cbn [wp].
  assert (cl_outer (cell_at s1 c) = cl_outer (cell_at s c)) as Ho.
  { destruct He as (cell & Hc & _). destruct (ev_cells _ _ H1 c cell Hc) as (cell' & Hc' & [Ho _ _ _ _ _ _ _]).
    by rewrite (cell_at_some _ _ _ Hc), (cell_at_some _ _ _ Hc'). }
  split; [split; [done|]; rewrite <- Ho; by apply entered_recorded, (entered_evolves s)|].
  intros [[[result error] executed]|e] s2 H2; [|apply Hfailed]. split; [done|].
  intros [[settled sources]|e] s3 H3; [|apply Hfailed]. destruct error as [err|].
  - destruct err; apply wp_refuse.
  - eapply wp_bind_any; [apply wp_edit_any; auto with bridge|]. intros _ s4 _. eapply wp_bind_any; [|intros; apply wp_producer].
    destruct settled; [|done]. eapply wp_bind_any; [apply wp_record|]. intros refs s5 _. apply wp_edit_any. auto with bridge.
Qed.
Lemma wp_ask {A} r (k : reply r -> proc (outcome failure A)) s : permitted (called auth c) s r ->
  (forall v s', evolves s s' -> safe (k v) anywhere s') -> safe (ask r k) anywhere s.
Proof. intros Hr Hk. unfold ask. split; [done|]. intros [v|e] s' Hs; [by apply Hk|done]. Qed.
Lemma wp_attempt {A} r (k : proc (outcome failure A)) s : permitted (called auth c) s r ->
  (forall s', evolves s s' -> safe k anywhere s') -> safe (attempt r k) anywhere s.
Proof. intros Hr Hk. unfold attempt. split; [done|]. intros [v|[| |]] s' Hs; [by apply Hk|done|by apply Hk|by apply Hk]. Qed.

(** *** The handlers *)
Definition has_cell (s : Bridge) : Prop := is_Some (br_cells s !! c).
Lemma has_cell_evolves s s' : evolves s s' -> has_cell s -> has_cell s'.
Proof. intros Hs [cell Hc]. destruct (ev_cells _ _ Hs c cell Hc) as (cell' & Hc' & _). by eexists. Qed.
(** Delegation is allowed where the cell has a dispatcher and holds [run_agent]. *)
Definition may_delegate (s : Bridge) : Prop :=
  is_Some (bd_dispatcher (cl_binding (cell_at s c))) -> is_Some (find_str RUN_AGENT_OPERATION (grant_of s c)) -> auth RUN_AGENT_OPERATION.
Lemma may_delegate_quiet s s' : quiet c s s' -> may_delegate s -> may_delegate s'.
Proof. intros [Hb Hg _ _]. unfold may_delegate. by rewrite Hb, Hg. Qed.
Lemma wp_route ord op s : safe (route_entry c ord op) (fun _ => quiet c s) s.
Proof. apply wp_edit. auto with bridge. Qed.
Lemma wp_route_any ord op s : safe (route_entry c ord op) anywhere s.
Proof. eapply wp_any, wp_route. Qed.

Lemma wp_agent frame s : has_cell s -> may_delegate s -> safe (agent c frame) anywhere s.
Proof.
  intros Hc Hd. unfold agent. eapply wp_seq; [by apply wp_new_entry|]. intros ord s1 _ [Hq He].
  destruct (py_get (u "objective") frame); try apply wp_refuse. case_bool_decide; [apply wp_refuse|]. cbn [wp].
  destruct (bd_dispatcher _) eqn:Hdisp; [|apply wp_refuse]. eapply wp_seq; [by apply wp_granted, (qt_cell _ _ _ Hq)|].
  intros g s2 H2 [Hq2 ->]. destruct (find_str RUN_AGENT_OPERATION _) eqn:Hg; [|apply wp_refuse].
  eapply wp_bind_any; [apply wp_route_any|]. intros _ s3 H3. apply wp_dispatch.
  - apply (may_delegate_quiet s s1 Hq Hd); [by rewrite Hdisp|by rewrite Hg].
  - eapply entered_evolves; [|exact He]. by etrans.
Qed.
Lemma wp_wait frame s : safe (wait c frame) anywhere s.
Proof.
  unfold wait. destruct (match py_get _ frame with JList l => _ | _ => _ end); [|done]. destruct (negb (_ || _)); [done|]. cbn [wp].
  destruct (negb _); [done|]. split; [done|]. by intros [v|e].
Qed.
Lemma wp_judge frame s : has_cell s -> safe (judge c frame) anywhere s.
Proof.
  intros Hc. unfold judge. destruct (judgment _) as [[name|]|]; [|done|done]. destruct (is_null _); [done|]. cbn [wp].
  destruct (current_runner s c); [|done]. destruct (or_else _ _); try done.
  eapply wp_seq; [by apply wp_new_entry|]. intros ord s1 _ _. eapply wp_bind_any; [apply wp_edit_any; auto with bridge|].
  intros _ s2 _. split; [done|]. intros [launched|[|code text|text]] s3 _; [|done|apply wp_refuse|apply wp_refuse].
  eapply wp_bind_any; [apply wp_edit_any; auto with bridge|]. intros _ s4 _. apply wp_producer.
Qed.
Lemma wp_launch_batch name questions frame evidence states ids s : safe (launch_batch name questions frame evidence states ids) anywhere s.
Proof.
  revert ids s. induction states as [|[key st] states IH]; intros ids s; cbn [launch_batch]; [done|].
  apply wp_ask; [done|]. intros r s' _. by destruct (dict_get _ r).
Qed.
Lemma wp_collect_judgments ids rows all s : safe (collect_judgments ids rows all) anywhere s.
Proof.
  revert rows all s. induction ids as [|[key id] ids IH]; intros rows all s; cbn [collect_judgments]; [done|].
  apply wp_ask; [done|]. intros [v|] s' _; apply IH.
Qed.
Lemma wp_judge_batch frame s : has_cell s -> safe (judge_batch c frame) anywhere s.
Proof.
  intros Hc. unfold judge_batch. eapply wp_seq; [by apply wp_new_entry|]. intros ord s1 _ _.
  eapply wp_bind_any; [apply wp_edit_any; auto with bridge|]. intros _ s2 _. destruct (judgment _) as [[name|]|]; try apply wp_refuse.
  destruct (is_null _); [apply wp_refuse|]. destruct (batch_states _) as [[|st sts]|]; try apply wp_refuse.
  destruct (is_null _); [apply wp_refuse|]. destruct (string_list _) as [evidence|]; [|apply wp_refuse].
  cbn [wp]. destruct (negb _); [apply wp_refuse|]. eapply wp_bind_any; [apply wp_launch_batch|].
  intros [ids|[|code text|text]] s3 _; [|done|apply wp_refuse|apply wp_refuse]. destruct (match dict_get _ frame with Some JNull => _ | _ => _ end).
  - apply wp_ask; [done|]. intros _ s4 _. eapply wp_bind_any; [apply wp_collect_judgments|]. intros [[rows all]|e] s5 _; [|done].
    eapply wp_bind_any; [apply wp_edit_any; auto with bridge|]. intros _ s6 _. apply wp_producer.
  - eapply wp_bind_any; [apply wp_edit_any; auto with bridge|]. intros _ s4 _. apply wp_producer.
Qed.
Lemma wp_submit id keys frame context items ids s : auth RUN_AGENT_OPERATION -> has_cell s ->
  safe (submit_items c id keys frame context items ids) anywhere s.
Proof.
  intros Ha. revert ids s. induction items as [|[key item] items IH]; intros ids s Hc; cbn [submit_items]; [done|].
  eapply wp_seq; [by apply wp_new_entry|]. intros ord s1 H1 [_ He]. eapply wp_bind_any; [apply wp_route_any|]. intros _ s2 H2.
  eapply wp_bind_any; [by apply wp_dispatch, (entered_evolves s1)|]. intros r s3 H3.
  destruct (obind _ _) as [[row ids']|e]; [|done]. cbn [wp]. split; [apply hw_pool|]. split; [done|].
  intros [v|e] s4 H4; [|done]. apply IH. apply (has_cell_evolves s); [|done].
  etrans; [exact H1|]. etrans; [exact H2|]. etrans; [exact H3|]. etrans; [|exact H4]. apply write_evolves, hw_pool.
Qed.
Lemma wp_collect_items pool rows all s : safe (collect_items pool rows all) anywhere s.
Proof.
  revert rows all s. induction pool as [|[key info] pool IH]; intros rows all s; cbn [collect_items]; [done|].
  destruct (truthy _); [|apply IH]. split; [done|]. intros [[v|]|e] s' _; [apply IH|apply IH|done].
Qed.
Lemma wp_append_both event k s : (forall s', safe k anywhere s') -> safe (append_both event k) anywhere s.
Proof. intros Hk. unfold append_both. split; [done|]. intros [v|[| |]] s1 _; try done; (split; [done|]; intros [v'|[| |]] s2 _; try done; apply Hk). Qed.
Lemma wp_on_failure id e s : safe (on_failure id e) anywhere s.
Proof.
  assert (forall text s, safe (controller_failed id text) anywhere s) as Hf.
  { intros text s'. unfold controller_failed. split; [done|]. intros [v|[| |]] s1 _; try done; by apply wp_append_both. }
  destruct e; [done|apply Hf|apply Hf].
Qed.
Lemma wp_pool_finish id keys s :
  safe (Read (fun s =>
      let* r := collect_items (pool_of s id) [] true in
      match r with
      | Raise e => on_failure id e
      | Ret (rows, all_settled) =>
        let state := if all_settled : bool then u "completed" else u "interrupted" in
        let result := pool_result id (if all_settled then u "completed" else u "timed_out") keys rows in
        Await (TransitionJob id state result JNull) (fun a => match a with
        | Raise e => on_failure id e
        | Ret _ => append_both (controller_event "task_completed" id [(u "state", JStr state); (u "final_state", JStr state); (u "result", result)]) (Done tt)
        end)
      end)) anywhere s.
Proof.
  cbn [wp]. eapply wp_bind_any; [apply wp_collect_items|]. intros [[rows all]|e] s1 _; [|apply wp_on_failure]. split; [done|].
  intros [v|e] s2 _; [|apply wp_on_failure]. by apply wp_append_both.
Qed.
Lemma wp_pool_controller id frame context items timeout s : auth RUN_AGENT_OPERATION -> has_cell s ->
  safe (pool_controller c id frame context items timeout) anywhere s.
Proof.
  intros Ha Hc. unfold pool_controller. eapply wp_bind_any; [by apply wp_submit|]. intros [ids|e] s1 _; [|apply wp_on_failure].
  destruct ids as [|i ids]; [apply wp_pool_finish|]. split; [done|]. intros [v|e] s2 _; [apply wp_pool_finish|apply wp_on_failure].
Qed.
Lemma wp_launch_pool ord call_id frame context items s : auth RUN_AGENT_OPERATION -> has_cell s ->
  safe (launch_pool c ord call_id frame context items) anywhere s.
Proof.
  intros Ha Hc. unfold launch_pool. apply wp_ask; [done|]. intros hex s1 H1. apply wp_ask; [done|]. intros _ s2 H2.
  apply wp_ask; [done|]. intros _ s3 H3. apply wp_attempt; [done|]. intros s4 H4. apply wp_ask; [done|]. intros _ s5 H5.
  apply wp_ask; [done|]. intros entry s6 H6.
  set (k := ask (Dispatched _) _). assert (forall s', safe k anywhere s') as Hk.
  { intros s'. apply wp_ask; [done|]. intros _ s7 _. eapply wp_bind_any; [apply wp_edit_any; auto with bridge|]. intros _ s8 _. apply wp_producer. }
  destruct entry as [v|]; [|apply Hk]. apply wp_ask; [done|]. intros _ s7 H7. split; [|apply Hk].
  intros s8 H8. apply wp_pool_controller; [done|]. apply (has_cell_evolves s); [|done].
  transitivity s1; [done|]. transitivity s2; [done|]. transitivity s3; [done|]. transitivity s4; [done|]. transitivity s5; [done|].
  transitivity s6; [done|]. by transitivity s7.
Qed.
Lemma wp_workpool frame s : has_cell s -> may_delegate s -> safe (workpool c frame) anywhere s.
Proof.
  intros Hc Hd. unfold workpool. eapply wp_seq; [by apply wp_new_entry|]. intros ord s1 _ [Hq1 _].
  eapply wp_seq; [apply wp_edit; auto with bridge|]. intros [] s2 _ Hq2. assert (quiet c s s2) as Hq by (etrans; [exact Hq1|exact Hq2]).
  destruct (is_null _); [apply wp_refuse|]. destruct (pool_items _) as [[|i items]|]; try apply wp_refuse.
  destruct (first_duplicate _ _); [apply wp_refuse|]. cbn [wp]. destruct (bd_dispatcher _) eqn:Hdisp; [|apply wp_refuse].
  pose proof (qt_cell _ _ _ Hq Hc) as Hc2. eapply wp_seq; [by apply wp_granted|]. intros g s3 H3 [_ ->].
  destruct (find_str RUN_AGENT_OPERATION _) eqn:Hg; [|apply wp_refuse]. destruct (negb _); [apply wp_refuse|].
  destruct (string_list _); [|apply wp_refuse]. apply wp_launch_pool; [|by apply (has_cell_evolves s2)].
  apply (may_delegate_quiet s s2 Hq Hd); [by rewrite Hdisp|by rewrite Hg].
Qed.
Lemma wp_catalog frame s : has_cell s -> safe (catalog c frame) anywhere s.
Proof.
  intros Hc. unfold catalog. cbn [wp]. destruct (_ || _); [done|]. destruct (py_eq _ (JStr (u "search"))).
  { eapply wp_seq; [by apply wp_granted|]. done. }
  destruct (py_eq _ (JStr (u "describe"))); [|done]. destruct (py_get (u "operation") frame); try done.
  destruct (List.find _ delegation_defs); [done|]. destruct (model_operation _) as [[[]]|]; [done|].
  eapply wp_seq; [by apply wp_refusal|]. intros [r|] s1 _ [Hq _]; [by destruct (refusal_message _ _ _)|].
  eapply wp_seq; [by apply wp_granted, (qt_cell _ _ _ Hq)|]. done.
Qed.
Lemma wp_derive frame s : safe (derive c frame) anywhere s.
Proof. unfold derive. destruct (derive_frame_error _); [done|]. cbn. split; [apply hw_derived|done]. Qed.
Lemma wp_delegated frame other s : has_cell s -> may_delegate s -> safe other anywhere s -> safe (delegated c frame other) anywhere s.
Proof.
  intros Hc Hd Ho. unfold delegated. destruct (type_is _ _); [by apply wp_agent|]. destruct (type_is _ _); [by apply wp_wait|].
  destruct (type_is _ _); [done|]. destruct (type_is _ _); [by apply wp_judge|]. destruct (type_is _ _); [by apply wp_workpool|].
  destruct (type_is _ _); [by apply wp_judge_batch|done].
Qed.

(** Calls of granted operations. *)
Definition may_call (s : Bridge) : Prop :=
  forall op, is_Some (bd_dispatcher (cl_binding (cell_at s c))) -> callable s c op -> auth op.
Lemma wp_direct_call frame call_id operation input s : has_cell s -> may_call s -> safe (direct_call c frame call_id operation input) anywhere s.
Proof.
  intros Hc Hm. unfold direct_call. destruct (truthy _); [done|]. eapply wp_seq; [by apply wp_new_entry|]. intros ord s1 _ [Hq1 He].
  destruct operation; try apply wp_refuse. destruct input; try apply wp_refuse. cbn [wp].
  destruct (bd_dispatcher _) eqn:Hdisp; [|apply wp_refuse]. eapply wp_seq; [by apply wp_refusal, (qt_cell _ _ _ Hq1)|]. intros r s2 H2 [Hq2 Hr].
  eapply wp_bind_any; [apply wp_route_any|]. intros _ s3 H3. destruct r as [r|]; [destruct (refusal_message _ _ _); apply wp_refuse|].
  eapply wp_bind_any; [apply wp_dispatch|].
  - destruct Hq1 as [Hb1 Hg1 _ _]. apply Hm; [rewrite <- Hb1; by rewrite Hdisp|]. destruct Hr as [Hr _]. specialize (Hr eq_refl).
    unfold callable in *. by rewrite <- Hb1, <- Hg1.
  - apply (entered_evolves s1); [by transitivity s2|done].
  - intros reply s4 _. case_bool_decide; [|done]. cbn [wp]. destruct (match entry_of _ _ _ with Some e => _ | None => _ end); [|done].
    cbn. split; [apply hw_grant|done].
Qed.
Lemma wp_tool_call frame s : has_cell s -> may_delegate s -> may_call s -> safe (tool_call c frame) anywhere s.
Proof.
  intros Hc Hd Hm. assert (forall id op input, safe (tool_call_on c frame id op input) anywhere s) as Hon.
  { intros id op input. unfold tool_call_on. destruct op; try by apply wp_direct_call. destruct (find_str _ _); [|by apply wp_direct_call].
    unfold lower_delegation. destruct (or_else _ _); try done. destruct (or_else input _); try done. destruct (_ <? _); [done|].
    destruct (keyword_arguments _ _ _); [|done]. unfold answer_delegation. cbn [wp]. destruct (registered _ _ _); [by apply wp_delegated|done]. }
  unfold tool_call. destruct (dict_get _ frame) as [next|]; [|apply Hon]. by destruct (parse_next_call next) as [[]|].
Qed.
Lemma registered_cell frame s : registered s c frame = true -> has_cell s.
Proof.
  unfold registered, is_registered, has_cell, cell_at. destruct (br_cells s !! c); [by eexists|]. destruct (py_get _ _); try done. cbn.
  rewrite !andb_false_r. done.
Qed.
End calls.

(** *** Frames *)
(** The calls a frame gives authority for when it is answered in [s]. *)
Definition authorised (s : Bridge) (c : nat) (frame : fields) (op : str) : Prop :=
  registered s c frame = true /\ is_Some (bd_dispatcher (cl_binding (cell_at s c))) /\
  (callable s c op \/ op = RUN_AGENT_OPERATION /\ is_Some (find_str RUN_AGENT_OPERATION (grant_of s c))).
Lemma authorised_quiet c s s' frame op : quiet c s s' -> authorised s' c frame op -> authorised s c frame op.
Proof. intros [Hb Hg Hr _]. unfold authorised, callable. by rewrite Hb, Hg, Hr. Qed.
Lemma called_mono {A : Type} (auth auth' : str -> Prop) c (p : proc A) Q s :
  (forall op, auth op -> auth' op) -> wp (called auth c) p Q s -> wp (called auth' c) p Q s.
Proof.
  intros Ha. revert Q s. induction p as [A a|A k IH|A f rest IH|A r k IH|A b IHb rest IH]; intros Q s; cbn [wp].
  - done.
  - apply IH.
  - intros [H1 H2]. split; [done|by apply IH].
  - intros [H1 H2]. split; [destruct r; try done; destruct H1; split; auto|]. intros a s' Hs. by apply IH, H2.
  - intros [H1 H2]. split; [|by apply IH]. intros s' Hs. by apply IHb, H1.
Qed.
Lemma wp_answer_frame c frame s : wp (called (authorised s c frame) c) (answer_frame c frame) anywhere s.
Proof.
  unfold answer_frame. cbn [wp]. destruct (registered s c frame) eqn:Hr; cbn [negb]; [|done].
  pose proof (registered_cell c frame s Hr) as Hc.
  assert (may_delegate (authorised s c frame) c s) as Hd by (intros H1 H2; split; [done|]; split; [done|by right]).
  assert (may_call (authorised s c frame) c s) as Hm by (intros op H1 H2; split; [done|]; split; [done|by left]).
  destruct (type_is _ _); [by apply wp_tool_call|]. destruct (type_is _ _); [by apply wp_catalog|].
  apply wp_delegated; [done|done|]. destruct (type_is _ _); [apply wp_derive|done].
Qed.
Lemma encode_charges frame limit b :
  (encode_frame frame limit b).1 = b \/ exists size, (0 <= size)%Z /\ (encode_frame frame limit b).1 = (charge size b).1.
Proof.
  unfold encode_frame, se_bind, se_lift. destruct (encode_unbudgeted frame limit) as [wire|e]; [right|by left].
  exists (Z.of_nat (length wire)). split; [lia|]. destruct (charge _ b) as [b' []]; reflexivity.
Qed.
Lemma decode_charges line limit b :
  (decode_frame line limit b).1 = b \/ exists size, (0 <= size)%Z /\ (decode_frame line limit b).1 = (charge size b).1.
Proof.
  unfold decode_frame, se_bind. destruct (_ <? _)%Z; [by left|right]. exists (Z.of_nat (length line)). split; [lia|].
  destruct (charge _ b) as [b' [[]|e]]; [|reflexivity]. destruct (json_loads line) as [[]|]; reflexivity.
Qed.
Lemma budget_write c s b : b = cl_budget (cell_at s c) \/ (exists size, (0 <= size)%Z /\ b = (charge size (cl_budget (cell_at s c))).1) ->
  handler_write s (on_cell c (set_budget b) s).
Proof. intros [->|(size & Hs & ->)]; by constructor. Qed.
Lemma wp_send may c r k s :
  (forall o s', quiet c s s' -> evolves s s' -> wp may (k o) anywhere s') -> wp may (send c r k) anywhere s.
Proof.
  intros Hk. unfold send. cbn [wp]. pose proof (encode_charges (JDict r) MAX_CELL_BYTES (cl_budget (cell_at s c))) as Hb.
  destruct (encode_frame _ _ _) as [b wire]. cbn in Hb. cbn [wp]. assert (handler_write s (on_cell c (set_budget b) s)) as Hw by by apply budget_write.
  split; [done|]. apply Hk; [|by apply write_evolves]. apply quiet_on; [done|]. intros cell Hc. by apply (quiet_grant c s (set_budget b) cell).
Qed.
Lemma wp_protocol_error may c frame text s : wp may (protocol_error_wire c frame text) anywhere s.
Proof. apply wp_send. intros [wire|bounds] s' _ _; [done|]. by destruct (encode_unbudgeted _ _). Qed.
Lemma wp_decoded c frame s : wp (called (authorised s c frame) c) (handle_decoded_frame c frame) anywhere s.
Proof.
  unfold handle_decoded_frame. eapply wp_bind_any; [apply wp_answer_frame|]. intros [reply|[|code text|text]] s1 _.
  - apply wp_send. intros [wire|text] s2 _ _.
    + destruct (_ && _); [|done]. destruct (encode_unbudgeted _ _) as [envelope|text].
      * cbn. split; [by apply hw_edit_nested|done].
      * cbn [wp]. split; [by apply hw_edit_nested|]. apply wp_protocol_error.
    + cbn [wp]. split; [by apply hw_edit_nested|]. apply wp_protocol_error.
  - done.
  - apply wp_send. intros [wire|e] s2 _ _; [done|apply wp_protocol_error].
  - apply wp_send. intros [wire|e] s2 _ _; [done|apply wp_protocol_error].
Qed.
(** The frame in a line, if the budget admits it and it is an object. *)
Definition frame_of (s : Bridge) (c : nat) (line : list N) : fields :=
  match (decode_frame line MAX_CELL_BYTES (cl_budget (cell_at s c))).2 with Ret frame => frame | Raise _ => [] end.
Lemma wp_handle_frame c line s : wp (called (authorised s c (frame_of s c line)) c) (handle_frame c line) anywhere s.
Proof.
  unfold handle_frame, frame_of. cbn [wp]. pose proof (decode_charges line MAX_CELL_BYTES (cl_budget (cell_at s c))) as Hb.
  destruct (decode_frame _ _ _) as [b o]. cbn [fst snd] in *. assert (handler_write s (on_cell c (set_budget b) s)) as Hw by by apply budget_write.
  split; [done|]. destruct o as [frame|text]; [|apply wp_protocol_error].
  apply (called_mono (authorised (on_cell c (set_budget b) s) c frame)); [|apply wp_decoded]. intros op. apply authorised_quiet.
  apply quiet_on; [done|]. intros cell Hc. by apply (quiet_grant c s (set_budget b) cell).
Qed.
(** Native calls dispatch nothing: their producer has run. *)
Definition no_call (s : Bridge) (n op : str) : Prop := False.
Lemma wp_start_native c op s : wp no_call (start_native c op) anywhere s.
Proof.
  unfold start_native. cbn [wp]. destruct (is_registered s c) eqn:Hr; cbn [negb]; [|done]. destruct (bd_dispatcher _); [|done].
  assert (is_Some (br_cells s !! c)) as Hc.
  { unfold is_registered, cell_at in Hr. destruct (br_cells s !! c); [by eexists|]. cbn in Hr. rewrite andb_false_r in Hr. done. }
  eapply wp_seq; [by apply wp_refusal|]. intros [r|] s1 _ [Hq _]; [done|]. eapply wp_seq; [by apply wp_new_entry, (qt_cell _ _ _ Hq)|].
  intros ord s2 _ _. eapply wp_bind_any; [by apply wp_edit_any|]. intros [] s3 _. cbn. split; [|done].
  apply (hw_native c (fun l => l ++ [nested_id (cl_outer (cell_at s3 c)) ord])).
Qed.
Lemma wp_settle_native c ord op prepared result error provenance s :
  wp no_call (settle_native c ord op prepared result error provenance) anywhere s.
Proof.
  unfold settle_native. cbn [wp]. destruct (negb _); [done|]. set (n := nested_id _ ord). cbn [wp].
  split; [apply (hw_native c (fun l => filter (fun x => x <> n) l))|]. unfold ask. split; [done|]. intros [[ok sources]|e] s1 _; [|done].
  eapply wp_bind_any; [by apply wp_edit_any|]. intros [] s2 _. eapply wp_bind_any; [apply wp_edit_any; by destruct provenance|]. intros [] s3 _.
  destruct (_ && _); [|done]. eapply wp_bind_any; [apply wp_record|]. intros refs s4 _. eapply wp_bind_any; [by apply wp_edit_any|]. done.
Qed.
End writes.

(** ** The host: handlers running concurrently *)
Section host.
Context {env : BridgeEnv}.

(** A handler runs until it waits for an answer or ends; what it forked starts
    later. *)
Fixpoint advance {A : Type} (p : proc A) (s : Bridge) : Bridge * list (proc unit) * proc A :=
  match p with
  | Done _ | Await _ _ => (s, [], p)
  | Read k => advance (k s) s
  | Write f rest => advance rest (f s)
  | Fork b rest => let '(s', forks, p') := advance rest s in (s', b :: forks, p')
  end.
Definition ignore {A : Type} (p : proc A) : proc unit := let* _ := p in Done tt.
(** A thread serves a frame, which arrived in the state [th_origin] records, or a
    native call. *)
Record Thread := mkThread { th_cell : nat; th_origin : option (Bridge * fields); th_proc : proc unit }.
Record Host := mkHost { ho_bridge : Bridge; ho_threads : list Thread }.
Definition run_proc (c : nat) (origin : option (Bridge * fields)) (p : proc unit) (s : Bridge) : Bridge * list Thread :=
  let '(s', forks, p') := advance p s in (s', mkThread c origin p' :: (mkThread c origin <$> forks)).
Definition spawn (c : nat) (origin : option (Bridge * fields)) (p : proc unit) (h : Host) : Host :=
  let '(s', ts) := run_proc c origin p (ho_bridge h) in mkHost s' (ho_threads h ++ ts).
Definition continue_at (i : nat) (t : Thread) (p : proc unit) (h : Host) : Host :=
  let '(s', ts) := run_proc (th_cell t) (th_origin t) p (ho_bridge h) in mkHost s' (delete i (ho_threads h) ++ ts).
Inductive bridge_step : Bridge -> Bridge -> Prop :=
| bs_open outer token active s : bridge_step s (open_cell outer token active s).1
| bs_activate c s : bridge_step s (activate c s)
| bs_deactivate c s : bridge_step s (deactivate c s)
| bs_close c s : bridge_step s (close c s)
| bs_dispose s : bridge_step s (dispose s)
| bs_close_cells s : bridge_step s (close_cells s)
| bs_forget s : bridge_step s (forget s)
| bs_runner v s : bridge_step s (bind_job_runner v s)
| bs_hint v s : bridge_step s (bind_grant_hint v s)
| bs_bind d o e k cc m hs s : bridge_step s (bind_dispatcher d o e k cc m hs s)
| bs_catalog v s : bridge_step s (set_catalog v s)
| bs_current v s : bridge_step s (set_runner v s)
| bs_job c v s : bridge_step s (on_cell c (set_job v) s)
| bs_decode c line s : bridge_step s (on_cell c (set_budget (decode_frame line MAX_CELL_BYTES (cl_budget (cell_at s c))).1) s)
| bs_fail c message s : bridge_step s (on_cell c (fun cell => set_budget (fail message (cl_budget cell)).1 cell) s).
Inductive host_step : Host -> Host -> Prop :=
| hs_bridge h s : bridge_step (ho_bridge h) s -> host_step h (mkHost s (ho_threads h))
| hs_line h c line : host_step h (spawn c (Some (ho_bridge h, frame_of (ho_bridge h) c line)) (ignore (handle_frame c line)) h)
| hs_frame h c frame : host_step h (spawn c (Some (ho_bridge h, frame)) (ignore (handle_decoded_frame c frame)) h)
| hs_native h c op : host_step h (spawn c None (ignore (start_native c op)) h)
| hs_settle h c ord op prepared result error provenance :
    host_step h (spawn c None (ignore (settle_native c ord op prepared result error provenance)) h)
| hs_answer h i t r k (a : outcome failure (reply r)) :
    ho_threads h !! i = Some t -> th_proc t = Await r k -> host_step h (continue_at i t (k a) h)
| hs_start h i t : ho_threads h !! i = Some t -> host_step h (continue_at i t (th_proc t) h).
Definition new_reader : Reader := mkReader (cl_binding no_cell) [] [] [] false.
Definition new_host (catalog : list fields) : Host := mkHost (mkBridge new_reader [] catalog None []) [].
Definition reachable (h : Host) : Prop := exists catalog, rtc host_step (new_host catalog) h.
End host.

(** ** Theorems *)
Section theorems.
Context {env : BridgeEnv}.

(** What handler writes keep, handlers keep. *)
Lemma advance_keeps {A : Type} (P : Bridge -> Prop) may (p : proc A) Q s :
  (forall s s', handler_write s s' -> P s -> P s') -> wp may p Q s -> P s -> P (advance p s).1.1.
Proof.
  intros HP. revert Q s. induction p as [A a|A k IH|A f rest IH|A r k IH|A b IHb rest IH]; intros Q s; cbn [wp advance]; try done.
  - intros Hp Hs. by apply (IH s Q).
  - intros [Hw Hp] Hs. by apply (IH Q), (HP s).
  - intros [_ Hp] Hs. specialize (IH Q s Hp Hs). by destruct (advance rest s) as [[]].
Qed.
Lemma advance_evolves {A : Type} may (p : proc A) Q s : wp may p Q s -> evolves s (advance p s).1.1.
Proof.
  intros Hp. apply (advance_keeps (evolves s) may p Q s); [|done|reflexivity].
  intros s1 s2 Hw Hs. etrans; [exact Hs|by apply write_evolves].
Qed.
Lemma wp_ignore {A : Type} may (p : proc A) s : wp may p anywhere s -> wp may (ignore p) anywhere s.
Proof. intros Hp. by eapply wp_bind_any. Qed.
Definition stable (may : Bridge -> str -> str -> Prop) : Prop := forall s s' n op, evolves s s' -> may s n op -> may s' n op.
Definition waits {A : Type} (may : Bridge -> str -> str -> Prop) (p : proc A) (s : Bridge) : Prop := forall s', evolves s s' -> wp may p anywhere s'.
Lemma advance_waits {A : Type} may (p : proc A) s : stable may -> wp may p anywhere s ->
  waits may (advance p s).2 (advance p s).1.1 /\ forall f, f ∈ (advance p s).1.2 -> waits may f (advance p s).1.1.
Proof.
  intros Hst. revert s. induction p as [A a|A k IH|A f rest IH|A r k IH|A b IHb rest IH]; intros s; cbn [wp advance].
  - intros _. split; [done|]. intros f Hf. by apply not_elem_of_nil in Hf.
  - apply IH.
  - intros [_ Hp]. by apply IH.
  - intros [Hr Hk]. split; [|intros f Hf; by apply not_elem_of_nil in Hf]. intros s' Hs. split.
    + destruct r; try done. by apply (Hst s).
    + intros a s'' Hs'. apply Hk. by etrans.
  - intros [Hb Hp]. pose proof (advance_evolves _ _ _ _ Hp) as He. destruct (IH s Hp) as [H1 H2].
    destruct (advance rest s) as [[s' forks] p']. cbn in *. split; [done|]. intros f [->|Hf]%elem_of_cons; [|by apply H2].
    intros s'' Hs. apply Hb. by etrans.
Qed.

(** *** Threads *)
Definition may_of (t : Thread) : Bridge -> str -> str -> Prop :=
  match th_origin t with Some (s, frame) => called (authorised s (th_cell t) frame) (th_cell t) | None => no_call end.
Lemma may_of_stable t : stable (may_of t).
Proof.
  intros s s' n op Hs. unfold may_of. destruct (th_origin t) as [[s0 frame]|]; [|done]. intros [Ha (cell & ord & Hc & -> & Hin)]. split; [done|].
  destruct (entered_evolves s s' (th_cell t) ord (Some op) Hs) as (cell' & Hc' & Hin'); [by exists cell|].
  destruct (ev_cells _ _ Hs _ _ Hc) as (cell'' & Hc'' & [Ho _ _ _ _ _ _ _]). rewrite Hc' in Hc''. injection Hc'' as <-.
  exists cell', ord. rewrite <- Ho. done.
Qed.
(** Threads make only the calls they may, and frames arrived in reachable states. *)
Definition arrived (t : Thread) : Prop := forall s frame, th_origin t = Some (s, frame) -> exists h, reachable h /\ ho_bridge h = s.
Definition thread_safe (s : Bridge) (t : Thread) : Prop := waits (may_of t) (th_proc t) s /\ arrived t.
Lemma thread_safe_evolves s s' t : evolves s s' -> thread_safe s t -> thread_safe s' t.
Proof. intros Hs [H1 H2]. split; [|done]. intros s'' Hs'. apply H1. by etrans. Qed.
Lemma run_proc_safe c origin p s : wp (may_of (mkThread c origin p)) p anywhere s -> arrived (mkThread c origin p) ->
  evolves s (run_proc c origin p s).1 /\ forall t, t ∈ (run_proc c origin p s).2 -> thread_safe (run_proc c origin p s).1 t.
Proof.
  intros Hp Ha. unfold run_proc. pose proof (advance_evolves _ _ _ _ Hp) as He. destruct (advance_waits _ _ _ (may_of_stable _) Hp) as [H1 H2].
  destruct (advance p s) as [[s' forks] p']. cbn in *. split; [done|]. intros t [->|(f & -> & Hf)%list_elem_of_fmap]%elem_of_cons; by split; [auto|].
Qed.
Lemma evolves_reader f s : (rd_closed (br_reader s) = true -> rd_closed (f (br_reader s)) = true) -> evolves s (on_reader f s).
Proof. intros Hf. split; [|done]. intros c cell Hc. exists cell. split; [exact Hc|reflexivity]. Qed.
Lemma evolves_close c s : evolves s (close c s).
Proof.
  unfold close. etrans; [apply (evolves_on c (set_active false)); by split|]. unfold release. apply evolves_reader. intros Hc.
  destruct (cl_job _); case_bool_decide; exact Hc.
Qed.
Lemma evolves_close_all cs s : evolves s (close_all cs s).
Proof. revert s. induction cs as [|c cs IH]; intros s; cbn; [reflexivity|]. etrans; [apply evolves_close|apply IH]. Qed.
Lemma bridge_step_evolves s s' : bridge_step s s' -> evolves s s'.
Proof.
  intros [outer token active s1|c s1|c s1|c s1|s1|s1|s1|v s1|v s1|d o e k cc m hs s1|v s1|v s1|c v s1|c line s1|c m s1];
    try (apply evolves_reader; by intros); try (apply evolves_on; by split).
  - unfold open_cell. destruct (rd_closed _) eqn:Hr; [reflexivity|]. split; [|cbn; by rewrite Hr]. intros c cell Hc. exists cell.
    split; [|reflexivity]. cbn. by apply lookup_app_l_Some.
  - unfold activate. etrans; apply evolves_on; by split.
  - apply evolves_close.
  - apply evolves_close_all.
  - split; [|done]. intros c cell Hc. exists cell. split; [exact Hc|reflexivity].
  - split; [|done]. intros c cell Hc. exists cell. split; [exact Hc|reflexivity].
  - apply write_evolves, budget_write, decode_charges.
  - apply evolves_on. intros cell _. unfold fail. split; try done; cbn; destruct (bg_error (cl_budget cell)); cbn; [done|done|done|intros []; done].
Qed.
Definition all_safe (h : Host) : Prop := forall t, t ∈ ho_threads h -> thread_safe (ho_bridge h) t.
Lemma spawn_safe h c origin p : all_safe h -> wp (may_of (mkThread c origin p)) p anywhere (ho_bridge h) -> arrived (mkThread c origin p) ->
  all_safe (spawn c origin p h).
Proof.
  intros Hts Hp Ha. unfold spawn. destruct (run_proc_safe c origin p _ Hp Ha) as [He Hn].
  destruct (run_proc _ _ _ _) as [s' ts]. cbn in *. intros t [Ht|Ht]%elem_of_app; [|by apply Hn].
  apply (thread_safe_evolves (ho_bridge h)); [done|]. by apply Hts.
Qed.
Lemma continue_safe h i t p : all_safe h -> ho_threads h !! i = Some t -> wp (may_of t) p anywhere (ho_bridge h) -> all_safe (continue_at i t p h).
Proof.
  intros Hts Ht Hp. unfold continue_at. destruct (Hts t) as [_ Ha]; [by eapply list_elem_of_lookup_2|].
  destruct t as [c origin q]. destruct (run_proc_safe c origin p _ Hp Ha) as [He Hn].
  cbn. destruct (run_proc _ _ _ _) as [s' ts]. cbn in *. intros t [Hd|Hd]%elem_of_app; [|by apply Hn].
  apply (thread_safe_evolves (ho_bridge h)); [done|]. apply Hts. rewrite delete_take_drop in Hd.
  apply elem_of_app in Hd as [Hd|Hd]; [by eapply subseteq_take|by eapply subseteq_drop].
Qed.
(** What a thread may run next. *)
Lemma answer_wp h i t r k a : all_safe h -> ho_threads h !! i = Some t -> th_proc t = Await r k -> wp (may_of t) (k a) anywhere (ho_bridge h).
Proof.
  intros Hts Ht Hk. destruct (Hts t) as [Hw _]; [by eapply list_elem_of_lookup_2|]. specialize (Hw _ (reflexivity _)). rewrite Hk in Hw.
  destruct Hw as [_ Hw]. apply Hw. reflexivity.
Qed.
Lemma start_wp h i t : all_safe h -> ho_threads h !! i = Some t -> wp (may_of t) (th_proc t) anywhere (ho_bridge h).
Proof. intros Hts Ht. destruct (Hts t) as [Hw _]; [by eapply list_elem_of_lookup_2|]. apply Hw. reflexivity. Qed.
Lemma step_safe h h' : all_safe h -> reachable h -> host_step h h' -> all_safe h'.
Proof.
  intros Hts Hr Hst. destruct Hst as [h1 s Hs|h1 c line|h1 c frame|h1 c op|h1 c ord op prepared result error prov|h1 i t r k a Ht Hk|h1 i t Ht].
  - intros t Ht. apply (thread_safe_evolves (ho_bridge h1)); [by apply bridge_step_evolves|by apply Hts].
  - apply spawn_safe; [done|apply wp_ignore, wp_handle_frame|]. intros s frame [= <- <-]. by exists h1.
  - apply spawn_safe; [done|apply wp_ignore, wp_decoded|]. intros s f [= <- <-]. by exists h1.
  - apply spawn_safe; [done|apply wp_ignore, wp_start_native|done].
  - apply spawn_safe; [done|apply wp_ignore, wp_settle_native|done].
  - apply continue_safe; [done|done|by eapply answer_wp].
  - apply continue_safe; [done|done|by eapply start_wp].
Qed.
Lemma reachable_step h h' : reachable h -> host_step h h' -> reachable h'.
Proof. intros [cat Hr] Hs. exists cat. by eapply rtc_r. Qed.
Lemma reachable_safe h : reachable h -> all_safe h.
Proof.
  intros [cat Hr]. assert (reachable h /\ all_safe h) as [_ Hs]; [|done].
  revert Hr. apply (rtc_ind_r (fun h => reachable h /\ all_safe h) (new_host cat)).
  - split; [by exists cat|]. intros t Ht. by apply not_elem_of_nil in Ht.
  - intros h1 h2 _ Hst [Hr Hs]. split; [by eapply reachable_step|by eapply step_safe].
Qed.
(** What handler writes and the steps of the reader keep, the host keeps. *)
Section keeps.
Context (P : Bridge -> Prop) (Pwrite : forall s s', handler_write s s' -> P s -> P s') (Pstep : forall s s', bridge_step s s' -> P s -> P s').
Lemma spawn_keeps c origin p h may : wp may p anywhere (ho_bridge h) -> P (ho_bridge h) -> P (ho_bridge (spawn c origin p h)).
Proof.
  intros Hp Hs. unfold spawn, run_proc. pose proof (advance_keeps P may p anywhere _ Pwrite Hp Hs) as Ha. by destruct (advance p _) as [[]].
Qed.
Lemma continue_keeps i t p h may : wp may p anywhere (ho_bridge h) -> P (ho_bridge h) -> P (ho_bridge (continue_at i t p h)).
Proof.
  intros Hp Hs. unfold continue_at, run_proc. pose proof (advance_keeps P may p anywhere _ Pwrite Hp Hs) as Ha. by destruct (advance p _) as [[]].
Qed.
Lemma step_keeps h h' : reachable h -> host_step h h' -> P (ho_bridge h) -> P (ho_bridge h').
Proof.
  intros Hr%reachable_safe Hst. destruct Hst as [h1 s Hs|h1 c line|h1 c frame|h1 c op|h1 c ord op prepared result error prov|h1 i t r k a Ht Hk|h1 i t Ht].
  - by apply Pstep.
  - eapply spawn_keeps, wp_ignore, wp_handle_frame.
  - eapply spawn_keeps, wp_ignore, wp_decoded.
  - eapply spawn_keeps, wp_ignore, wp_start_native.
  - eapply spawn_keeps, wp_ignore, wp_settle_native.
  - by eapply continue_keeps, answer_wp.
  - by eapply continue_keeps, start_wp.
Qed.
Lemma steps_keep h h' : reachable h -> rtc host_step h h' -> P (ho_bridge h) -> P (ho_bridge h').
Proof.
  intros Hr Hst. revert Hr. induction Hst as [|h1 h2 h3 H1 _ IH]; [done|]. intros Hr HP.
  apply IH; [by eapply reachable_step|by eapply step_keeps].
Qed.
End keeps.
Lemma steps_evolve h h' : reachable h -> rtc host_step h h' -> evolves (ho_bridge h) (ho_bridge h').
Proof.
  intros Hr Hst. apply (steps_keep (evolves (ho_bridge h)) ) with (h := h); [| |done|done|reflexivity].
  - intros s s' Hw Hs. etrans; [exact Hs|by apply write_evolves].
  - intros s s' Hw Hs. etrans; [exact Hs|by apply bridge_step_evolves].
Qed.

(** C12: Whatever cells send, whatever is bound, opened or closed meanwhile and
    however handlers interleave, every nested dispatch in flight answers a frame
    that arrived, in an earlier state of the host, with the live token of its
    cell and the cell's outer call; the operation was then in the grant of the
    cell, code-callable and not a tool of the host, or is [run_agent] and was in
    the grant; and the call is on the ledger of the cell under its nested id. *)
Theorem nested_calls_authorised h t n op prepared k :
  reachable h -> t ∈ ho_threads h -> th_proc t = Await (Dispatch n op prepared) k ->
  exists h0 frame, reachable h0 /\ th_origin t = Some (ho_bridge h0, frame) /\ authorised (ho_bridge h0) (th_cell t) frame op /\
    recorded (ho_bridge h) (th_cell t) n op.
Proof.
  intros Hr Ht Hp. destruct (reachable_safe h Hr t Ht) as [Hw Ha]. specialize (Hw _ (reflexivity _)). rewrite Hp in Hw. destruct Hw as [Hm _].
  cbn in Hm. unfold may_of in Hm. destruct (th_origin t) as [[s0 frame]|] eqn:Ho; [|done]. destruct Hm as [Hauth Hrec].
  destruct (Ha s0 frame Ho) as (h0 & Hr0 & <-). by exists h0, frame.
Qed.

(** *** Ledgers and budgets *)
Record wf_cell (cell : Cell) : Prop := {
  wf_ordinal : cl_ordinal cell = length (calls cell);
  wf_numbered : forall i call, calls cell !! i = Some call -> call.1 = (S i, nested_id (cl_outer cell) (S i));
  wf_limit : bg_limit (cl_budget cell) = MAX_CELL_BYTES;
  wf_used : (0 <= bg_used (cl_budget cell) <= MAX_CELL_BYTES)%Z
}.
Definition wf_bridge (s : Bridge) : Prop := forall c cell, br_cells s !! c = Some cell -> wf_cell cell.
Lemma wf_on c f s : (forall cell, br_cells s !! c = Some cell -> wf_cell cell -> wf_cell (f cell)) -> wf_bridge s -> wf_bridge (on_cell c f s).
Proof.
  intros Hf Hs c' cell. rewrite cells_on. case_decide as Hcc; [|apply Hs]. rewrite Hcc in Hf. intros (x & Hx & ->)%fmap_Some. apply Hf; [done|by apply (Hs c')].
Qed.
(** Everything but the ledger and the budget may change freely. *)
Lemma wf_same cell cell' : cl_outer cell' = cl_outer cell -> cl_ordinal cell' = cl_ordinal cell -> calls cell' = calls cell ->
  cl_budget cell' = cl_budget cell -> wf_cell cell -> wf_cell cell'.
Proof. intros Ho Hn Hl Hb [H1 H2 H3 H4]. split; rewrite ?Hn, ?Hl, ?Hb; [done| |done|done]. intros i call. rewrite Ho. apply H2. Qed.
Lemma wf_append op cell : wf_cell cell -> wf_cell (append_entry op cell).
Proof.
  intros [H1 H2 H3 H4]. unfold calls in H1. split; [| |done|done].
  - cbn. unfold calls. cbn. rewrite fmap_app, length_app, H1. cbn. lia.
  - intros i call. unfold calls. cbn. rewrite fmap_app. intros [Hi|[Hi Hc]]%lookup_app_Some; [by apply H2|].
    apply list_lookup_singleton_Some in Hc as [Hz <-]. cbn. assert (i = cl_ordinal cell) as -> by lia. done.
Qed.
Lemma wf_charge size cell : (0 <= size)%Z -> wf_cell cell -> wf_cell (set_budget (charge size (cl_budget cell)).1 cell).
Proof.
  intros Hs [H1 H2 H3 H4]. unfold charge. destruct (bg_error _); [by split|]. rewrite H3.
  destruct (_ <? _)%Z eqn:Hlt; (split; [exact H1|exact H2|reflexivity|]); cbn [fst cl_budget set_budget bg_used]; [exact H4|].
  apply Z.ltb_ge in Hlt. lia.
Qed.
Lemma wf_record c op h key s : wf_bridge s -> wf_bridge (record_handle c op h key s).
Proof.
  intros Hs. unfold record_handle. set (row := put_str _ _ h). set (s1 := on_cell c _ s). assert (wf_bridge s1) as H1; [|exact H1].
  apply wf_on; [|done]. intros cell _. by apply wf_same.
Qed.
Lemma wf_write s s' : handler_write s s' -> wf_bridge s -> wf_bridge s'.
Proof.
  intros [c op s1|c ord f s1 Hf|c n f s1 Hf|c g s1|c op hs s1|c frame s1|v s1|c size s1 Hsize|c s1|c f s1]; try (apply wf_on; intros cell Hc).
  - apply wf_append.
  - apply wf_same; try done. by apply calls_edit.
  - apply wf_same; try done. by apply calls_edit.
  - by apply wf_same.
  - revert s1. induction hs as [|hk hs IH]; intros s1 Hs; cbn; [done|]. by apply IH, wf_record.
  - by apply wf_same.
  - done.
  - rewrite (cell_at_some _ _ _ Hc). by apply wf_charge.
  - apply wf_same; try done. cbn. by rewrite (cell_at_some _ _ _ Hc).
  - by apply wf_same.
Qed.
Lemma wf_close c s : wf_bridge s -> wf_bridge (close c s).
Proof. intros Hs. unfold close, release. apply (wf_on c (set_active false)); [|done]. intros cell _. by apply wf_same. Qed.
Lemma wf_close_all cs s : wf_bridge s -> wf_bridge (close_all cs s).
Proof. revert s. induction cs as [|c cs IH]; intros s Hs; cbn; [done|]. by apply IH, wf_close. Qed.
Lemma wf_step s s' : bridge_step s s' -> wf_bridge s -> wf_bridge s'.
Proof.
  intros [outer token active s1|c s1|c s1|c s1|s1|s1|s1|v s1|v s1|d o e k cc m hs s1|v s1|v s1|c v s1|c line s1|c m s1] Hs; try exact Hs.
  - unfold open_cell. destruct (rd_closed _); [exact Hs|]. intros c cell [Hc|[_ Hc]]%lookup_app_Some; [by apply (Hs c)|].
    apply list_lookup_singleton_Some in Hc as [_ <-]. split; [done|intros i call; unfold calls; cbn; by rewrite lookup_nil|done|]. cbn. unfold MAX_CELL_BYTES. lia.
  - unfold activate. apply wf_on; [intros cell _; by apply wf_same|]. apply wf_on; [intros cell _; by apply wf_same|done].
  - apply wf_on; [intros cell _; by apply wf_same|done].
  - by apply wf_close.
  - by apply wf_close_all.
  - apply wf_on; [intros cell _; by apply wf_same|done].
  - eapply wf_write; [apply budget_write, decode_charges|exact Hs].
  - apply wf_on; [|done]. intros cell _ [H1 H2 H3 H4]. unfold fail. destruct (bg_error _); by split.
Qed.
Lemma reachable_wf h : reachable h -> wf_bridge (ho_bridge h).
Proof.
  intros [cat Hr]. apply (steps_keep wf_bridge wf_write wf_step (new_host cat)); [exists cat; apply rtc_refl|exact Hr|].
  intros c cell. cbn. by rewrite lookup_nil.
Qed.

(** C23: The ledger of a cell numbers its calls from one without gaps, each under
    the nested id of its number; no row is ever lost, reordered or moved to
    another operation, and derived rows are only appended; the bytes charged to
    the cell stay within its bound and never fall, and once its budget has
    failed nothing is charged and it stays failed. *)
Theorem cell_ledger_exact h h' c cell :
  reachable h -> rtc host_step h h' -> br_cells (ho_bridge h) !! c = Some cell ->
  wf_cell cell /\ exists cell', br_cells (ho_bridge h') !! c = Some cell' /\ wf_cell cell' /\ kept cell cell'.
Proof.
  intros Hr Hst Hc. split; [by apply (reachable_wf h Hr c)|]. destruct (ev_cells _ _ (steps_evolve h h' Hr Hst) c cell Hc) as (cell' & Hc' & Hk).
  exists cell'. split; [done|]. split; [|done]. apply (reachable_wf h') with (c := c); [|done]. destruct Hr as [cat Hr]. exists cat. by etrans.
Qed.

(** *** Revocation *)
Definition revoked (c : nat) (s : Bridge) : Prop :=
  is_Some (br_cells s !! c) /\ (rd_closed (br_reader s) = true \/ find_cell s (cl_token (cell_at s c)) <> Some c).
Lemma revoked_unregistered c s : revoked c s -> is_registered s c = false.
Proof.
  intros [_ [H|H]]; unfold is_registered; [rewrite H; cbn; by rewrite andb_false_r|]. by rewrite bool_decide_false.
Qed.
Lemma write_registration s s' : handler_write s s' -> rd_cells (br_reader s') = rd_cells (br_reader s) /\ rd_closed (br_reader s') = rd_closed (br_reader s).
Proof.
  intros [c op s1|c ord f s1 Hf|c n f s1 Hf|c g s1|c op hs s1|c frame s1|v s1|c size s1 Hsize|c s1|c f s1]; try done.
  revert s1. induction hs as [|hk hs IH]; intros s1; cbn; [done|]. by destruct (IH (record_handle c op hk.1 hk.2 s1)) as [-> ->].
Qed.
(** A change that registers no older cell keeps the revoked ones revoked. *)
Lemma revoked_kept c s s' : evolves s s' ->
  (forall token, find_cell s token <> Some c -> find_cell s' token <> Some c) -> revoked c s -> revoked c s'.
Proof.
  intros He Hf [[cell Hc] Hr]. destruct (ev_cells _ _ He c cell Hc) as (cell' & Hc' & [_ Ht _ _ _ _ _ _]). split; [by eexists|].
  destruct Hr as [Hr|Hr]; [left; by apply (ev_closed _ _ He)|right]. rewrite (cell_at_some _ _ _ Hc'), Ht. apply Hf.
  by rewrite (cell_at_some _ _ _ Hc) in Hr.
Qed.
Lemma find_put {V} k k' (v : V) d : find_str k (put_str k' v d) = if str_eqb k k' then Some v else find_str k d.
Proof.
  induction d as [|[k1 v1] d IH]; cbn; [done|]. destruct (str_eqb k' k1) eqn:E1; cbn.
  - unfold str_eqb in *. apply bool_decide_eq_true in E1 as <-. by case_bool_decide.
  - rewrite IH. unfold str_eqb in *. apply bool_decide_eq_false in E1. repeat case_bool_decide; congruence.
Qed.
Lemma find_drop {V} k k' (d : list (str * V)) : find_str k (drop_key k' d) = if str_eqb k k' then None else find_str k d.
Proof.
  unfold drop_key. induction d as [|[k1 v1] d IH]; [cbn; by destruct (str_eqb k k')|]. rewrite filter_cons. unfold find_str in *.
  case_decide as E1; cbn [lookup_by fst] in *.
  - rewrite IH. unfold str_eqb in *. repeat case_bool_decide; congruence.
  - subst k1. rewrite IH. unfold str_eqb. by repeat case_bool_decide.
Qed.
Lemma find_release c s token : find_cell (close c s) token = find_cell s token \/ find_cell (close c s) token = None.
Proof.
  unfold close, release, find_cell. cbn. destruct (cl_job _); cbn; (case_bool_decide; cbn; [rewrite find_drop; destruct (str_eqb _ _); [by right|by left]|by left]).
Qed.
Lemma revoked_close c c' s : revoked c s -> revoked c (close c' s).
Proof. apply revoked_kept; [apply evolves_close|]. intros token Ht. by destruct (find_release c' s token) as [->| ->]. Qed.
Lemma revoked_close_all c cs s : revoked c s -> revoked c (close_all cs s).
Proof. revert s. induction cs as [|c' cs IH]; intros s Hs; cbn; [done|]. by apply IH, revoked_close. Qed.
Lemma revoked_dispose c s : is_Some (br_cells s !! c) -> revoked c (dispose s).
Proof. intros Hc. split; [done|by left]. Qed.
Lemma revoked_after_close c s : is_Some (br_cells s !! c) -> revoked c (close c s).
Proof.
  intros [cell Hc]. destruct (ev_cells _ _ (evolves_close c s) c cell Hc) as (cell' & Hc' & [_ Ht _ _ _ _ _ _]). split; [by eexists|right].
  rewrite (cell_at_some _ _ _ Hc'), Ht. unfold close, release, find_cell.
  assert (cell_at (deactivate c s) c = set_active false cell) as -> by by apply cell_at_on.
  cbn. destruct (cl_job cell); cbn; (case_bool_decide as Hf; cbn; [rewrite find_drop; unfold str_eqb; by rewrite bool_decide_true|exact Hf]).
Qed.
Lemma revoked_write c s s' : handler_write s s' -> revoked c s -> revoked c s'.
Proof. intros Hw. apply revoked_kept; [by apply write_evolves|]. intros token. unfold find_cell. by destruct (write_registration _ _ Hw) as [-> _]. Qed.
Lemma revoked_step c s s' : bridge_step s s' -> revoked c s -> revoked c s'.
Proof.
  intros Hst Hr. assert (evolves s s') as He by by apply bridge_step_evolves.
  destruct Hst as [outer token active s1|c1 s1|c1 s1|c1 s1|s1|s1|s1|v s1|v s1|d o e k cc m hs s1|v s1|v s1|c1 v s1|c1 line s1|c1 m s1];
    try (by apply (revoked_kept c s1)).
  - apply (revoked_kept c s1); [done| |done]. unfold open_cell. destruct (rd_closed _); [done|]. intros t Ht. unfold find_cell. cbn.
    rewrite find_put. destruct (str_eqb _ _); [|done]. destruct Hr as [Hr _]. apply lookup_lt_is_Some in Hr. intros [= Hx]. lia.
  - by apply revoked_close.
  - by apply revoked_close_all.
Qed.

(** C13: Closing a cell, or marking the reader closed as [aclose] does first, revokes its token for good: whatever
    happens afterwards, activation and new cells included, every frame of the
    cell is answered [bad_cell_token] without any effect, and native calls of it
    are refused. *)
Theorem closed_cell_stays_revoked h h' c s frame op :
  reachable h -> is_Some (br_cells (ho_bridge h) !! c) -> s = close c (ho_bridge h) \/ s = dispose (ho_bridge h) ->
  rtc host_step (mkHost s (ho_threads h)) h' ->
  advance (answer_frame c frame) (ho_bridge h') = (ho_bridge h', [], Done (Ret (bad_token frame))) /\
  advance (start_native c op) (ho_bridge h') = (ho_bridge h', [], Done (Raise (u "bad_cell_token"))).
Proof.
  intros Hr Hc Hs Hst. assert (revoked c (ho_bridge h')) as Hrev.
  { apply (steps_keep (revoked c) (revoked_write c) (revoked_step c) (mkHost s (ho_threads h))); [|done|].
    - eapply reachable_step; [exact Hr|]. constructor. destruct Hs as [-> | ->]; constructor.
    - destruct Hs as [-> | ->]; [by apply revoked_after_close|by apply revoked_dispose]. }
  apply revoked_unregistered in Hrev. split.
  - unfold answer_frame. cbn [advance]. assert (registered (ho_bridge h') c frame = false) as ->; [|done].
    unfold registered. rewrite Hrev. destruct (py_get _ _); try done. by rewrite andb_false_r.
  - unfold start_native. cbn [advance]. by rewrite Hrev.
Qed.

(** *** Sources *)
Lemma get_put k k' v (d : fields) : py_get k (put_str k' v d) = if str_eqb k k' then v else py_get k d.
Proof.
  unfold py_get. induction d as [|[k1 v1] d IH]; cbn [put_str dict_get].
  - unfold str_eqb. repeat first [case_decide|case_bool_decide]; try done; congruence.
  - destruct (str_eqb k' k1) eqn:E1; cbn [dict_get]; unfold str_eqb in *.
    + apply bool_decide_eq_true in E1. subst. repeat first [case_decide|case_bool_decide]; try done; congruence.
    + apply bool_decide_eq_false in E1. destruct (decide (k = k1)) as [->|]; [|apply IH]. case_bool_decide; try done; congruence.
Qed.
Lemma get_merge k (a b : fields) : k ∉ b.*1 -> py_get k (merge a b) = py_get k a.
Proof.
  unfold merge. revert a. induction b as [|[k1 v1] b IH]; intros a Hk; cbn [foldl fst snd]; [done|]. cbn in Hk. apply not_elem_of_cons in Hk as [Hne Hk].
  rewrite IH by done. rewrite get_put. unfold str_eqb. by rewrite bool_decide_false.
Qed.
Lemma presented_identity k (p : fields) : k ∈ IDENTITY_FIELDS -> k ∉ (filter (fun kv : str * json => kv.1 ∉ IDENTITY_FIELDS) p).*1.
Proof. intros Hk ([k' v] & -> & Hin)%list_elem_of_fmap. apply list_elem_of_filter in Hin as [Hn _]. by apply Hn. Qed.
Lemma same_identity (a b : fields) : (forall k, k ∈ IDENTITY_FIELDS -> py_get k a = py_get k b) -> identity_key a = identity_key b.
Proof.
  intros Hk. unfold identity_key. do 2 f_equal. apply list_fmap_ext. intros i k Hi. rewrite Hk; [done|]. by eapply list_elem_of_lookup_2.
Qed.
(** The dictionary of identities. *)
Definition identities (settled : list fields) : list (str * fields) := foldl (fun d src => put_str (identity_key src) src d) [] settled.
Lemma put_elem {V} k (v : V) d x : x ∈ put_str k v d -> x = (k, v) \/ x ∈ d.
Proof.
  induction d as [|[k1 v1] d IH]; cbn; [intros ->%list_elem_of_singleton; by left|]. destruct (str_eqb k k1) eqn:E.
  - unfold str_eqb in E. apply bool_decide_eq_true in E as ->. intros [->|Hx]%elem_of_cons; [by left|right; by apply elem_of_cons; right].
  - intros [->|Hx]%elem_of_cons; [right; by apply elem_of_cons; left|]. destruct (IH Hx); [by left|right; by apply elem_of_cons; right].
Qed.
Lemma identities_fold settled d k src : (k, src) ∈ foldl (fun d src => put_str (identity_key src) src d) d settled ->
  (k, src) ∈ d \/ src ∈ settled /\ k = identity_key src.
Proof.
  revert d. induction settled as [|x settled IH]; intros d; cbn; [by left|]. intros [Hin|[Hin ->]]%IH.
  - apply put_elem in Hin as [[= -> ->]|Hin]; [right|by left]. split; [by apply elem_of_cons; left|done].
  - right. split; [by apply elem_of_cons; right|done].
Qed.
Lemma identities_sound settled k src : (k, src) ∈ identities settled -> src ∈ settled /\ k = identity_key src.
Proof. intros [Hin|H]%identities_fold; [by apply not_elem_of_nil in Hin|done]. Qed.
Lemma find_elem {V} k (v : V) d : find_str k d = Some v -> (k, v) ∈ d.
Proof.
  induction d as [|[k1 v1] d IH]; cbn; [done|]. unfold str_eqb. case_bool_decide; [intros [= ->]; subst; by apply elem_of_cons; left|].
  intros Hf. apply elem_of_cons. right. by apply IH.
Qed.
Lemma identities_complete settled d src : src ∈ settled ->
  is_Some (find_str (identity_key src) (foldl (fun d src => put_str (identity_key src) src d) d settled)).
Proof.
  assert (forall l d k, is_Some (find_str k d) -> is_Some (find_str k (foldl (fun d src => put_str (identity_key src) src d) d l))) as Hkeep.
  { induction l as [|x l IH]; intros d' k Hd; cbn; [done|]. apply IH. rewrite find_put. by destruct (str_eqb _ _). }
  revert d. induction settled as [|x settled IH]; intros d; [intros Hin; by apply not_elem_of_nil in Hin|].
  intros [->|Hin]%elem_of_cons; cbn; [|by apply IH]. apply Hkeep. rewrite find_put. unfold str_eqb. by rewrite bool_decide_true.
Qed.

(** Settlement owns the identity of sources. Whatever the product's extractor
    returns, every source of a call agrees with a settled source of that call on
    all identity fields, and every settled source is represented. *)
Theorem sources_keep_settled_identity b op result settled :
  (forall h, h ∈ source_handles b op result settled ->
     exists src, src ∈ settled /\ forall k, k ∈ IDENTITY_FIELDS -> py_get k h = py_get k src) /\
  (forall src, src ∈ settled -> exists h, h ∈ source_handles b op result settled /\ identity_key h = identity_key src).
Proof.
  unfold source_handles. fold (identities settled). set (ps := match bd_extract b with Some _ => _ | None => [] end).
  assert (forall ip k, ip ∈ ps -> k ∈ IDENTITY_FIELDS -> k ∉ ip.2.*1) as Hps.
  { intros ip k Hip Hk. unfold ps in Hip. destruct (bd_extract b) as [extract|]; [|by apply not_elem_of_nil in Hip].
    apply list_elem_of_fmap in Hip as (p & -> & _). by apply presented_identity. }
  split.
  - intros h [Hh|Hh]%elem_of_app.
    + apply list_elem_of_omap in Hh as (ip & Hip & Hh). apply fmap_Some in Hh as (src & Hf & ->).
      destruct (identities_sound _ _ _ (find_elem _ _ _ Hf)) as [Hs _]. exists src. split; [done|]. intros k Hk. apply get_merge. by eapply Hps.
    + apply list_elem_of_fmap in Hh as ([k src] & -> & Hin). apply list_elem_of_filter in Hin as [_ Hin].
      destruct (identities_sound _ _ _ Hin) as [Hs _]. by exists src.
  - intros src Hs. destruct (identities_complete settled [] src Hs) as [src' Hf]. fold (identities settled) in Hf.
    destruct (identities_sound _ _ _ (find_elem _ _ _ Hf)) as [_ Hkey]. destruct (decide (identity_key src ∈ ps.*1)) as [Hp|Hp].
    + apply list_elem_of_fmap in Hp as (ip & Hip & Hin). exists (merge src' ip.2). split.
      * apply elem_of_app. left. apply list_elem_of_omap. exists ip. split; [done|]. by rewrite <- Hip, Hf.
      * rewrite Hkey. apply same_identity. intros k Hk. apply get_merge. by eapply Hps.
    + exists src'. split; [|by rewrite Hkey]. apply elem_of_app. right. apply list_elem_of_fmap. exists (identity_key src, src'). split; [done|].
      apply list_elem_of_filter. split; [exact Hp|by apply find_elem].
Qed.

(** *** Derived rows *)
Lemma dedup_elem x l seen : x ∈ dedup l seen <-> x ∈ l /\ x ∉ seen.
Proof.
  revert seen. induction l as [|y l IH]; intros seen; cbn; [split; [intros H; by apply not_elem_of_nil in H|intros [H _]; by apply not_elem_of_nil in H]|].
  case_bool_decide as Hy; rewrite ?elem_of_cons, IH; [set_solver|]. destruct (decide (x = y)); set_solver.
Qed.
Lemma omap_length {A B} (f : A -> option B) l : length (omap f l) <= length l /\ (length (omap f l) = length l <-> forall x, x ∈ l -> is_Some (f x)).
Proof.
  induction l as [|x l [IH1 IH2]]; [split; [done|]; split; [|done]; intros _ x Hx; by apply not_elem_of_nil in Hx|].
  cbn. destruct (f x) as [y|] eqn:Hf; cbn; (split; [lia|]); split.
  - intros Hl z [->|Hz]%elem_of_cons; [by rewrite Hf|]. apply IH2; [lia|done].
  - intros Hall. f_equal. apply IH2. intros z Hz. apply Hall. by apply elem_of_cons; right.
  - lia.
  - intros Hall. destruct (Hall x) as [y Hy]; [by apply elem_of_cons; left|]. congruence.
Qed.
(** An input without references, or with a reference that was not issued. *)
Definition unsourced (issued : list (str * fields)) (input : fields) : Prop :=
  source_refs_of input = [] \/ exists ref, ref ∈ source_refs_of input /\ find_str ref issued = None.
Lemma unsourced_spec issued input :
  is_Some (unsourced_reason (resolve_input issued input).1 (resolve_input issued input).2) <-> unsourced issued input.
Proof.
  unfold resolve_input, unsourced, unsourced_reason. cbn [fst snd]. set (refs := source_refs_of input).
  destruct (omap_length (fun ref => find_str ref issued) (dedup refs [])) as [_ Hl].
  assert (forall x, x ∈ dedup refs [] <-> x ∈ refs) as Hin by (intros x; rewrite dedup_elem; set_solver).
  destruct (dedup refs []) as [|r rs] eqn:Hd.
  - split; [intros _; left|by eexists]. destruct refs as [|x xs]; [done|]. destruct (Hin x) as [_ Hx]. cbn in Hd. done.
  - destruct (length _ =? length _) eqn:Hlen.
    + apply Nat.eqb_eq in Hlen. split; [by intros [? ?]|]. intros [Hn|(ref & Href & Hf)].
      * assert (r ∈ refs) as Hr by (apply Hin, elem_of_cons; by left). rewrite Hn in Hr. by apply not_elem_of_nil in Hr.
      * destruct (proj1 Hl Hlen ref) as [? ?]; [by apply Hin|congruence].
    + apply Nat.eqb_neq in Hlen. split; [intros _; right|by eexists]. destruct (decide (Exists (fun ref => find_str ref issued = None) refs)) as [He|He]; [by apply Exists_exists in He|].
      destruct Hlen. apply Hl. intros x Hx%Hin. destruct (find_str x issued) eqn:Hf; [by eexists|]. destruct He. apply Exists_exists. by exists x.
Qed.
Lemma finding_inj i j input input' r r' : finding i input r = finding j input' r' -> i = j.
Proof. unfold finding. intros [= H1 _ _ _]. lia. Qed.
Lemma resolve_findings issued idx inputs x : x ∈ (resolve_inputs issued idx inputs).2 ->
  exists i input reason, x = finding (idx + i) input reason /\ inputs !! i = Some input /\
    unsourced_reason (resolve_input issued input).1 (resolve_input issued input).2 = Some reason.
Proof.
  revert idx. induction inputs as [|input inputs IH]; intros idx; cbn [resolve_inputs]; [intros Hx; by apply not_elem_of_nil in Hx|].
  specialize (IH (S idx)). destruct (resolve_inputs issued (S idx) inputs) as [rows findings]. cbn in IH.
  assert (x ∈ findings -> exists i input' reason, x = finding (idx + i) input' reason /\ (input :: inputs) !! i = Some input' /\
    unsourced_reason (resolve_input issued input').1 (resolve_input issued input').2 = Some reason) as Hrest.
  { intros (i & input' & reason & -> & Hi & Hr)%IH. exists (S i), input', reason. split; [f_equal; lia|done]. }
  unfold resolve_input at 1. destruct (unsourced_reason _ _) as [reason|] eqn:Hr; cbn [snd]; [|apply Hrest].
  intros [->|Hx]%elem_of_cons; [|by apply Hrest]. exists 0, input, reason. split; [f_equal; lia|done].
Qed.
Lemma resolve_complete issued idx inputs i input : inputs !! i = Some input ->
  (resolve_inputs issued idx inputs).1 !! i = Some (input_row input (resolve_input issued input).2) /\
  forall reason, unsourced_reason (resolve_input issued input).1 (resolve_input issued input).2 = Some reason ->
    finding (idx + i) input reason ∈ (resolve_inputs issued idx inputs).2.
Proof.
  revert idx i. induction inputs as [|input' inputs IH]; intros idx i; [done|]. cbn [resolve_inputs].
  specialize (IH (S idx)). destruct (resolve_inputs issued (S idx) inputs) as [rows findings]. cbn [fst snd] in IH.
  destruct i as [|i]; cbn [lookup].
  - intros [= ->]. destruct (resolve_input issued input) as [refs srcs]. cbn [fst snd]. split; [done|]. intros reason ->.
    cbn [snd]. apply elem_of_cons. left. f_equal. lia.
  - intros Hi. destruct (IH i Hi) as [H1 H2]. destruct (resolve_input issued input') as [refs srcs]. split; [done|]. intros reason Hr.
    specialize (H2 reason Hr). replace (idx + S i) with (S idx + i) by lia. cbn [snd]. destruct (unsourced_reason refs srcs); [by apply elem_of_cons; right|done].
Qed.

(** A derived row lists its inputs in order, each with the source rows that
    this session issued for its references, and has a finding for an input
    exactly when the input carries no reference or one that was not issued. *)
Theorem derived_inputs_exact issued frame i input :
  inputs_of frame !! i = Some input ->
  (resolve_inputs issued 0 (inputs_of frame)).1 !! i =
    Some (input_row input (omap (fun ref => find_str ref issued) (dedup (source_refs_of input) []))) /\
  ((exists input' reason, finding i input' reason ∈ (resolve_inputs issued 0 (inputs_of frame)).2) <-> unsourced issued input).
Proof.
  intros Hi. destruct (resolve_complete issued 0 _ i input Hi) as [H1 H2]. split; [exact H1|]. rewrite <- unsourced_spec. split.
  - intros (input' & reason & (j & input'' & reason' & Hf & Hj & Hr)%resolve_findings). apply finding_inj in Hf. cbn in Hf. subst j.
    rewrite Hi in Hj. injection Hj as <-. by eexists.
  - intros [reason Hr]. exists input, reason. by apply H2.
Qed.
End theorems.

(** ** Witnesses *)
Section witnesses.
#[local] Instance demo_bridge : BridgeEnv := {|
  iterencode := fun _ => ([u "{}"], false);
  json_loads := fun _ => None;
  py_repr := fun _ => [];
  py_str := fun v => match v with JStr s => s | _ => [] end;
  no_attribute_get := fun _ => [];
  parse_next_call := fun _ => inr [];
  build_next_call := fun _ _ => JNull;
  derive_frame_error := fun _ => None;
  dumps := fun v => match v with JDict ((_, JStr s) :: _) => s | _ => [] end;
  sha256_hex := fun s => s;
  result_size := fun _ => 0;
  str_lower := fun s => s;
  server_of := fun _ => [];
  policy_class := fun _ => [];
  semantic_error := fun _ => None;
  model_operation := fun _ => None;
  judgment_operations := []
|}.
(** A cell of an outer call, opened after a dispatcher was bound, calls [quote]. *)
Definition demo_catalog : list fields := [[(u "name", JStr (u "quote"))]].
Definition demo_opened : Host :=
  mkHost (open_cell (u "outer") (u "tok") true
    (bind_dispatcher 7 (fun _ => true) None None (Some (fun _ => true)) None None (ho_bridge (new_host demo_catalog)))).1 [].
Definition demo_frame : fields :=
  [(u "type", JStr (u "tool_call")); (u "cell_token", JStr (u "tok")); (u "operation", JStr (u "quote")); (u "input", JDict [])].
Definition demo_called : Host := spawn 0 (Some (ho_bridge demo_opened, demo_frame)) (ignore (handle_decoded_frame 0 demo_frame)) demo_opened.
Lemma demo_opened_reachable : reachable demo_opened.
Proof.
  exists demo_catalog. eapply rtc_l; [exact (hs_bridge (new_host demo_catalog) _ (bs_bind 7 (fun _ => true) None None (Some (fun _ => true)) None None _))|].
  apply rtc_once. apply (hs_bridge (mkHost _ [])), bs_open.
Qed.
Lemma demo_called_reachable : reachable demo_called.
Proof. eapply reachable_step; [exact demo_opened_reachable|]. apply hs_frame. Qed.
Lemma nested_calls_authorised_witness :
  exists h t n op prepared k, reachable h /\ t ∈ ho_threads h /\ th_proc t = Await (Dispatch n op prepared) k /\ op = u "quote" /\
    exists h0 frame, reachable h0 /\ th_origin t = Some (ho_bridge h0, frame) /\ authorised (ho_bridge h0) (th_cell t) frame op /\
      recorded (ho_bridge h) (th_cell t) n op.
Proof.
  assert (exists h t n prepared k, reachable h /\ t ∈ ho_threads h /\ th_proc t = Await (Dispatch n (u "quote") prepared) k)
    as (h & t & n & prepared & k & Hr & Ht & Hp).
  { eexists _, _, _, _, _. split; [|split].
    - eapply reachable_step; [exact demo_called_reachable|]. eapply (hs_answer _ 0 _ (Prepare _ _) _ (Ret 3)); reflexivity.
    - apply elem_of_cons. left. reflexivity.
    - reflexivity. }
  exists h, t, n, (u "quote"), prepared, k. do 4 (split; [done|]). exact (nested_calls_authorised h t n (u "quote") prepared k Hr Ht Hp).
Defined.
Lemma cell_ledger_exact_witness :
  exists cell, br_cells (ho_bridge demo_called) !! 0 = Some cell /\ calls cell = [(1, u "outer.1", Some (u "quote"))] /\ wf_cell cell.
Proof.
  eexists. split; [reflexivity|]. split; [vm_compute; reflexivity|].
  exact (proj1 (cell_ledger_exact demo_called demo_called 0 _ demo_called_reachable (rtc_refl _ _) eq_refl)).
Defined.
Lemma closed_cell_stays_revoked_witness :
  let s := activate 0 (close 0 (ho_bridge demo_called)) in
  advance (answer_frame 0 demo_frame) s = (s, [], Done (Ret (bad_token demo_frame))) /\
  advance (start_native 0 (u "quote")) s = (s, [], Done (Raise (u "bad_cell_token"))).
Proof.
  refine (closed_cell_stays_revoked demo_called (mkHost _ (ho_threads demo_called)) 0 _ demo_frame (u "quote") demo_called_reachable _ (or_introl eq_refl) _).
  - eexists. reflexivity.
  - apply rtc_once. exact (hs_bridge (mkHost (close 0 (ho_bridge demo_called)) (ho_threads demo_called)) _ (bs_activate 0 _)).
Defined.
Definition demo_source : fields := [(u "document_id", JStr (u "d1"))].
(** An extractor that tries to present an unsettled document and to move a
    settled one to another provider. *)
Definition demo_binding : Binding :=
  mkBinding None (fun _ => false) false (Some (fun _ _ => Some [[(u "document_id", JStr (u "d2"))]; [(u "document_id", JStr (u "d1")); (u "title", JStr (u "T"))]]))
    None None None None false ∅.
Lemma sources_keep_settled_identity_witness :
  source_handles demo_binding (u "quote") JNull [demo_source] = [[(u "document_id", JStr (u "d1")); (u "title", JStr (u "T"))]] /\
  exists h, h ∈ source_handles demo_binding (u "quote") JNull [demo_source] /\ identity_key h = identity_key demo_source.
Proof.
  split; [vm_compute; reflexivity|]. apply (proj2 (sources_keep_settled_identity demo_binding (u "quote") JNull [demo_source])).
  apply elem_of_cons. by left.
Defined.
Definition demo_derive : fields :=
  [(u "inputs", JList [JDict [(u "source_refs", JList [JStr (u "a")])]; JDict [(u "source_refs", JList [JStr (u "b")])]])].
Lemma derived_inputs_exact_witness :
  exists input, inputs_of demo_derive !! 1 = Some input /\
    exists input' reason, finding 1 input' reason ∈ (resolve_inputs [(u "a", demo_source)] 0 (inputs_of demo_derive)).2.
Proof.
  eexists. split; [reflexivity|]. apply (derived_inputs_exact [(u "a", demo_source)] demo_derive 1 _ eq_refl).
  right. exists (u "b"). split; [apply elem_of_cons; by left|reflexivity].
Defined.
End witnesses.
End CellAuthority.
