(* ===== verification/SessionLog.v ===== *)
(** * SessionLog: the durable log of an agent session

    Models [src/agent_gateway/agent_session_log.py] with its records, offset
    cache, rotation and the parts of the sidecars that decide what is read
    ([agent_session_log_records.py], [_cache.py], [_rotation.py],
    [_sidecars.py]): an append-only file of JSON lines that is rotated into
    numbered segments under a manifest, repaired whenever it is opened or
    appended to, and queried by sequence, time and content.

    The disk is the active file, the segments with their sidecars and the
    manifest. A write is visible from the moment it is issued, so a process that
    dies leaves the disk as it was between two effects, with a prefix of the
    bytes of a write that was under way; a JSON file is replaced as a whole. An
    operation is a function in the monad [D], which collects those states.
    Permissions, inode checks, telemetry fields and log lines are not modelled;
    the JSON codec, the sanitizer and the typed completion event are operations
    of the class [LogEnv]. JSON numbers are the finite ones. *)
From stdpp Require Import sorting.
From S2P Require Import Prelude.

Module SessionLog.
Abbreviation bytes := (list N).
Abbreviation fields := (list (str * json)).

(** ** Lines *)
(** The lines that [readline] returns until the end of the file, each with its
    terminator, and [split(b"\n")]. *)
Fixpoint lines_from (acc b : bytes) : list bytes :=
  match b with
  | [] => match acc with [] => [] | _ => [acc] end
  | c :: b => if (c =? 10)%N then (acc ++ [c]) :: lines_from [] b else lines_from (acc ++ [c]) b
  end.
Definition file_lines (b : bytes) : list bytes := lines_from [] b.
Fixpoint split_from (acc b : bytes) : list bytes :=
  match b with
  | [] => [acc]
  | c :: b => if (c =? 10)%N then acc :: split_from [] b else split_from (acc ++ [c]) b
  end.
Definition split_newlines (b : bytes) : list bytes := split_from [] b.
(** [bytes.strip()] *)
Definition byte_isspace (c : N) : bool := (c =? 32)%N || ((9 <=? c) && (c <=? 13))%N.
Definition strip (b : bytes) : bytes := strip_by byte_isspace b.

(** [_iter_lines_reverse]: the file is read in chunks from its end. *)
Definition REVERSE_SCAN_CHUNK_SIZE : nat := Z.to_nat (64 * 1024).
Fixpoint yield_lines (ls : list bytes) (is_last : bool) : list (bytes * bool) * bool :=
  match ls with
  | [] => ([], is_last)
  | [] :: ls => yield_lines ls is_last
  | l :: ls => let '(out, last) := yield_lines ls false in ((l, is_last) :: out, last)
  end.
Fixpoint reverse_scan (fuel chunk : nat) (file : bytes) (position : nat) (buffer : bytes) (is_last : bool) : list (bytes * bool) :=
  match fuel with
  | O => []
  | S fuel =>
    match position with
    | O => match buffer with [] => [] | _ => [(buffer, is_last)] end
    | _ =>
      let read_size := chunk `min` position in
      let position := position - read_size in
      match split_newlines (take read_size (drop position file) ++ buffer) with
      | [] => []
      | buffer :: parts =>
        let '(out, is_last) := yield_lines (reverse parts) is_last in
        out ++ reverse_scan fuel chunk file position buffer is_last
      end
    end
  end.
Definition iter_lines_reverse (chunk : nat) (file : bytes) : list (bytes * bool) :=
  reverse_scan (S (length file)) chunk file (length file) [] true.

(** ** Entries *)
Inductive strict_parse := Parsed (v : json) | Undecodable | DuplicateKeys.
Class LogEnv := {
  (** [json.dumps] with [ensure_ascii] and without spaces, encoded; [json.loads]
      of decoded bytes; the same with a hook that refuses repeated keys *)
  json_dumps : json -> bytes;
  json_loads : bytes -> option json;
  json_loads_strict : bytes -> strict_parse;
  (** [sanitize_tool_event]; the version stamp of provider history *)
  sanitize : fields -> fields;
  stamp_history : fields -> fields;
  (** [event_from_dict] and [event_to_dict] of an [agent_completion] event: its
      id, fingerprint and canonical form, or a [ValueError] *)
  completion_event : fields -> option (str * str * fields);
  (** [str], [str.lower], [int] and [float] of text *)
  py_str : json -> str;
  str_lower : str -> str;
  int_of_text : str -> option Z;
  float_of_text : str -> option (Z * positive)
}.
Record LogEntry := mkEntry { le_seq : Z; le_timestamp : Z * positive; le_event : fields }.
Inductive log_error := IntegrityError | StorageSecurityError | ConflictError | ValueError | IOError | ProcessDied.

Section records.
Context {env : LogEnv}.
Definition envelope (e : LogEntry) : fields :=
  [(u "seq", JInt (le_seq e)); (u "timestamp", JFloat (le_timestamp e).1 (le_timestamp e).2); (u "event", JDict (le_event e))].
Definition encode_entry (e : LogEntry) : bytes := json_dumps (JDict (envelope e)) ++ [10%N].
(** [int(v)] and [float(v)] *)
Definition int_of (v : json) : option Z :=
  match v with
  | JInt z => Some z
  | JBool b => Some (if b then 1 else 0)%Z
  | JFloat n d => Some (Z.quot n (Z.pos d))
  | JStr s => int_of_text s
  | _ => None
  end.
Definition float_of (v : json) : option (Z * positive) :=
  match v with
  | JInt z => Some (z, 1%positive)
  | JBool b => Some ((if b then 1 else 0)%Z, 1%positive)
  | JFloat n d => Some (n, d)
  | JStr s => float_of_text s
  | _ => None
  end.
(** [_parse_entry]: malformed lines are skipped. *)
Definition parse_entry (raw : bytes) : option LogEntry :=
  match strip raw with
  | [] => None
  | stripped =>
    match json_loads stripped with
    | Some (JDict payload) =>
      match py_get (u "event") payload with
      | JDict event =>
        seq ← dict_get (u "seq") payload ≫= int_of;
        timestamp ← dict_get (u "timestamp") payload ≫= float_of;
        Some (mkEntry seq timestamp event)
      | _ => None
      end
    | _ => None
    end
  end.
(** [_parse_entry_current_strict] *)
Inductive strict_line := Blank | Torn | Ambiguous | Entry (e : LogEntry).
Definition parse_entry_current_strict (raw : bytes) : strict_line :=
  match strip raw with
  | [] => Blank
  | stripped =>
    match json_loads_strict stripped with
    | Undecodable => Torn
    | DuplicateKeys => Ambiguous
    | Parsed (JDict payload) =>
      match py_get (u "event") payload, py_get (u "seq") payload with
      | JDict event, JInt seq =>
        if (seq <=? 0)%Z then Ambiguous
        else match py_get (u "timestamp") payload with
             | JInt z => Entry (mkEntry seq (z, 1%positive) event)
             | JFloat n d => Entry (mkEntry seq (n, d) event)
             | _ => Ambiguous
             end
      | _, _ => Ambiguous
      end
    | Parsed _ => Ambiguous
    end
  end.

(** ** Queries *)
Record QuerySpec := mkSpec {
  qs_event_types : option (list str);
  qs_tool_name : option str;
  qs_tool_call_id : option str;
  qs_sub_agent_id : option str;
  qs_runner_id : option str;
  qs_role : option str;
  qs_after_seq : option Z;
  qs_before_seq : option Z;
  qs_after_ts : option (Z * positive);
  qs_before_ts : option (Z * positive);
  qs_contains_text : option str;
  qs_has_error : option bool
}.
Fixpoint contains_text (needle : str) (v : json) : bool :=
  match v with
  | JStr s => py_contains needle (str_lower s)
  | JDict d => (fix go (d : list (str * json)) : bool := match d with [] => false | (_, v) :: d => contains_text needle v || go d end) d
  | JList l => (fix go (l : list json) : bool := match l with [] => false | v :: l => contains_text needle v || go l end) l
  | _ => false
  end.
Definition event_has_error (event : fields) : bool :=
  let error := py_get (u "error") event in
  negb (py_eq error JNull || py_eq error (JStr []) || py_eq error (JDict []) || py_eq error (JList [])).
Definition field_is (event : fields) (key : string) (wanted : option str) : bool :=
  match wanted with None => true | Some s => py_eq (py_get (u key) event) (JStr s) end.
Definition ts_lt (a b : Z * positive) : bool := (a.1 * Z.pos b.2 <? b.1 * Z.pos a.2)%Z.
Definition matches_entry (e : LogEntry) (spec : QuerySpec) : bool :=
  let event := le_event e in
  let kind := py_get (u "type") event in
  match qs_event_types spec with None => true | Some ts => bool_decide ((if truthy kind then py_str kind else []) ∈ ts) end &&
  field_is event "tool_name" (qs_tool_name spec) && field_is event "tool_call_id" (qs_tool_call_id spec) &&
  field_is event "sub_agent_id" (qs_sub_agent_id spec) && field_is event "runner_id" (qs_runner_id spec) &&
  field_is event "role" (qs_role spec) &&
  match qs_after_ts spec with None => true | Some t => negb (ts_lt (le_timestamp e) t) end &&
  match qs_before_ts spec with None => true | Some t => negb (ts_lt t (le_timestamp e)) end &&
  match qs_contains_text spec with None => true | Some needle => contains_text needle (JDict event) end &&
  match qs_has_error spec with None => true | Some b => Bool.eqb (event_has_error event) b end.
End records.

(** ** Storage *)
(** A segment is named by its first and last sequence and the generation of the
    active file it was, written with twelve, twelve and six digits: the names
    sort as the numbers do. *)
Record SegName := mkName { sn_first : Z; sn_last : Z; sn_generation : Z }.
#[export] Instance SegName_eq_dec : EqDecision SegName.
Proof. solve_decision. Defined.
Definition name_ok (n : SegName) : bool :=
  ((0 <=? sn_first n) && (sn_first n <? 10 ^ 12) && (0 <=? sn_last n) && (sn_last n <? 10 ^ 12) &&
   (0 <=? sn_generation n) && (sn_generation n <? 10 ^ 6))%Z.
Definition name_le (a b : SegName) : bool :=
  ((sn_first a <? sn_first b) ||
   ((sn_first a =? sn_first b) &&
    ((sn_last a <? sn_last b) || ((sn_last a =? sn_last b) && (sn_generation a <=? sn_generation b)))))%Z.
(** The [segment_id] of a JSON file: the id of some name, or other text with the
    generation that follows its last ["-g"], if there is one. *)
Inductive seg_id := IdName (n : SegName) | IdOther (generation : option Z).
#[export] Instance seg_id_eq_dec : EqDecision seg_id.
Proof. solve_decision. Defined.
Definition id_generation (i : seg_id) : option Z :=
  match i with IdName n => Some (sn_generation n) | IdOther g => g end.
(** The sidecar of a segment: whether it is a schema 2 segment sidecar, and the
    fields a descriptor is made of, [None] when absent or not of their type.
    [sm_generation] is [Some None] when it is present but not a number. *)
Record SegMeta := mkMeta {
  sm_current : bool;
  sm_id : option seg_id;
  sm_first : option Z;
  sm_last : option Z;
  sm_generation : option (option Z)
}.
Record SegFile := mkSeg { sf_bytes : bytes; sf_meta : option SegMeta }.
(** A row of the manifest: not an object, or an object whose path is [None] when
    it is missing or not the name of a segment. *)
Inductive mrow := BadRow | Row (path : option SegName) (id : option seg_id) (first last : option Z).
(** The manifest; its rows are [None] when they are not a list. *)
Record Manifest := mkManifest {
  mf_generation : Z;
  mf_rows : option (list mrow);
  mf_min : Z;
  mf_latest : Z
}.
Definition new_manifest : Manifest := mkManifest 0 (Some []) 1 0.
(** The disk. The sidecar of the active file is whether it is a schema 2 active
    sidecar, and its generation. *)
Record Disk := mkDisk {
  dk_active : option bytes;
  dk_segments : list (SegName * SegFile);
  dk_manifest : option Manifest;
  dk_active_meta : option (bool * Z)
}.
Definition set_active (a : option bytes) (d : Disk) : Disk := mkDisk a (dk_segments d) (dk_manifest d) (dk_active_meta d).
Definition set_segments (s : list (SegName * SegFile)) (d : Disk) : Disk := mkDisk (dk_active d) s (dk_manifest d) (dk_active_meta d).
Definition set_manifest (m : Manifest) (d : Disk) : Disk := mkDisk (dk_active d) (dk_segments d) (Some m) (dk_active_meta d).
Definition set_active_meta (g : Z) (d : Disk) : Disk := mkDisk (dk_active d) (dk_segments d) (dk_manifest d) (Some (true, g)).
Fixpoint seg_lookup (n : SegName) (l : list (SegName * SegFile)) : option SegFile :=
  match l with
  | [] => None
  | (m, f) :: l => if decide (m = n) then Some f else seg_lookup n l
  end.
Definition set_seg_meta (n : SegName) (meta : SegMeta) (d : Disk) : Disk :=
  set_segments ((fun '(m, f) => (m, if decide (m = n) then mkSeg (sf_bytes f) (Some meta) else f)) <$> dk_segments d) d.

(** ** The offset cache *)
(** The identity of the active file (device, inode, size and modification time)
    is taken to tell its contents: it is modelled by them. *)
Record Cache := mkCache {
  ca_offsets : gmap Z nat;
  ca_max : Z;
  ca_complete : bool;
  ca_identity : option bytes
}.
Definition cache_clear : Cache := mkCache ∅ 0 false None.
Definition refresh (identity : option bytes) (c : Cache) : Cache :=
  if decide (ca_identity c = identity) then c else mkCache ∅ 0 false identity.
Definition starting_offset_for_seq (after_seq : option Z) (identity : option bytes) (c : Cache) : nat * Cache :=
  match after_seq with
  | None => (0, c)
  | Some after =>
    if (after <=? 1)%Z then (0, c)
    else
      let c := refresh identity c in
      match ca_offsets c !! after with
      | Some o => (o, c)
      | None =>
        if ca_complete c && (ca_max c <? after)%Z then (match identity with Some b => length b | None => 0 end, c)
        else if (0 <? ca_max c)%Z && (ca_max c <? after)%Z then (default 0 (ca_offsets c !! ca_max c), c)
        else (0, c)
      end
  end.
Definition cache_update (seq : Z) (offset : nat) (identity : option bytes) (c : Cache) : Cache :=
  let c := refresh identity c in
  let offsets :=
    match ca_offsets c !! seq with
    | Some existing => if offset <? existing then <[seq := offset]> (ca_offsets c) else ca_offsets c
    | None => <[seq := offset]> (ca_offsets c)
    end in
  mkCache offsets (if (ca_max c <? seq)%Z then seq else ca_max c) (ca_complete c) (ca_identity c).
Definition mark_complete (identity current : option bytes) (file_size : nat) (c : Cache) : Cache :=
  match identity, current with
  | Some i, Some b =>
    if decide (b = i) then
      if length b =? file_size then
        let c := refresh identity c in mkCache (ca_offsets c) (ca_max c) true (ca_identity c)
      else c
    else c
  | _, _ => c
  end.

(** ** Effects *)
(** What happens to a write: it succeeds; the call raises after some of the bytes,
    or after all of them; the process dies after some of the bytes. A file that is
    replaced, renamed, truncated or created as a whole has one unit to lose: it is
    untouched when the call raises early or the process dies before it. *)
Inductive io_fault := IoOk | IoFail (k : nat) | IoFailLate | IoDie (k : nat).
Record World := mkWorld { w_disk : Disk; w_cache : Cache; w_faults : list io_fault }.
Abbreviation LogM := (SE World log_error).
Definition get_disk : LogM Disk := fun w => (w, Ret (w_disk w)).
Definition upd_cache (f : Cache -> Cache) : LogM unit :=
  fun w => (mkWorld (w_disk w) (f (w_cache w)) (w_faults w), Ret tt).
Definition effect (failed died : nat -> Disk -> Disk) (all : Disk -> Disk) (err : log_error) : LogM unit :=
  fun w =>
    let after d := mkWorld d (w_cache w) (tail (w_faults w)) in
    match w_faults w with
    | [] | IoOk :: _ => (after (all (w_disk w)), Ret tt)
    | IoFail k :: _ => (after (failed k (w_disk w)), Raise err)
    | IoFailLate :: _ => (after (all (w_disk w)), Raise err)
    | IoDie k :: _ => (after (died k (w_disk w)), Raise ProcessDied)
    end.
Definition append_active (b : bytes) (d : Disk) : Disk := set_active ((fun a => a ++ b) <$> dk_active d) d.
Definition write_active (b : bytes) : LogM unit :=
  effect (fun k => append_active (take k b)) (fun k => append_active (take k b)) (append_active b) IOError.
(** An early failure of an atomic effect leaves the disk; a process that dies in
    it leaves it undone ([k] = 0) or done. *)
Definition atomic (f : Disk -> Disk) (err : log_error) : LogM unit :=
  effect (fun _ d => d) (fun k d => if k =? 0 then d else f d) f err.
Definition truncate_active (n : nat) : LogM unit := atomic (fun d => set_active (take n <$> dk_active d) d) IOError.
Definition write_manifest (m : Manifest) : LogM unit := atomic (set_manifest m) IOError.
Definition write_seg_meta (n : SegName) (meta : SegMeta) : LogM unit := atomic (set_seg_meta n meta) IOError.
Definition write_active_meta (g : Z) : LogM unit := atomic (set_active_meta g) IOError.
(** [_open_active_file]: a missing file is an error unless it is created. *)
Definition open_active_file : LogM bytes :=
  fun w => (w, match dk_active (w_disk w) with Some b => Ret b | None => Raise StorageSecurityError end).
Definition create_or_bind_active_storage : LogM unit :=
  let! d := get_disk in
  match dk_active d with
  | Some _ => se_ret tt
  | None => atomic (set_active (Some [])) StorageSecurityError
  end.
(** [os.replace] of the active file into the segments directory *)
Definition rename_active (n : SegName) (d : Disk) : Disk :=
  match dk_active d with
  | Some b => set_active None (set_segments (dk_segments d ++ [(n, mkSeg b None)]) d)
  | None => d
  end.
Definition rotate_active_to_segment (n : SegName) : LogM unit :=
  let! d := get_disk in
  if negb (name_ok n) then se_raise StorageSecurityError
  else if negb (is_none (seg_lookup n (dk_segments d))) then se_raise StorageSecurityError
  else atomic (rename_active n) StorageSecurityError.

Section log.
Context {env : LogEnv} (max_active_bytes : option Z).
(** ** Reading a file *)
Definition latest_seq_from_handle (b : bytes) : Z :=
  match omap (fun l => parse_entry l.1) (iter_lines_reverse REVERSE_SCAN_CHUNK_SIZE b) with
  | e :: _ => le_seq e
  | [] => 0%Z
  end.
Definition seq_bounds_for_file (file : option bytes) : Z * Z :=
  match file with
  | None | Some [] => (0, 0)%Z
  | Some b =>
    let first := match omap parse_entry (file_lines b) with e :: _ => le_seq e | [] => 0%Z end in
    if (first =? 0)%Z then (0, 0)%Z else (first, latest_seq_from_handle b)
  end.
Definition seq_range_for_file (file : option bytes) : Z * Z :=
  match file with
  | None | Some [] => (0, 0)%Z
  | Some b =>
    foldl (fun r e => ((if (r.1 =? 0)%Z then le_seq e else r.1), le_seq e)) (0, 0)%Z (omap parse_entry (file_lines b))
  end.
(** [bytes.rfind(b"\n")] and the scan for the start of the last line *)
Fixpoint rfind_newline (b : bytes) : option nat :=
  match b with
  | [] => None
  | c :: b => match rfind_newline b with Some i => Some (S i) | None => if (c =? 10)%N then Some 0 else None end
  end.
Fixpoint tail_line_start (fuel chunk : nat) (file : bytes) (scan_end : nat) : nat :=
  match fuel, scan_end with
  | S fuel, S _ =>
    let read_size := chunk `min` scan_end in
    let scan_start := scan_end - read_size in
    match rfind_newline (take read_size (drop scan_start file)) with
    | Some newline => scan_start + newline + 1
    | None => tail_line_start fuel chunk file scan_start
    end
  | _, _ => 0
  end.
Definition recover_torn_active_tail_locked : LogM unit :=
  let! file := open_active_file in
  match last file with
  | None => se_ret tt
  | Some c =>
    if (c =? 10)%N then se_ret tt
    else
      let line_start := tail_line_start (S (length file)) REVERSE_SCAN_CHUNK_SIZE file (length file) in
      match parse_entry_current_strict (drop line_start file) with
      | Torn | Ambiguous => truncate_active line_start
      | Blank | Entry _ => write_active [10%N]
      end
  end.

(** ** The manifest *)
Definition safe_segment_paths (d : Disk) : list SegName :=
  merge_sort name_le (filter name_ok (fst <$> dk_segments d)).
Record Descriptor := mkDescriptor { ds_name : SegName; ds_first : Z; ds_last : Z }.
Definition row_of (x : Descriptor) : mrow :=
  Row (Some (ds_name x)) (Some (IdName (ds_name x))) (Some (ds_first x)) (Some (ds_last x)).
Definition segment_descriptor_from_meta (path : SegName) (meta : SegMeta) (fallback_generation : option Z) : option Descriptor :=
  segment_id ← sm_id meta; first_seq ← sm_first meta; last_seq ← sm_last meta;
  if negb (bool_decide (segment_id = IdName path)) || negb (first_seq =? sn_first path)%Z || negb (last_seq =? sn_last path)%Z
     || (first_seq <=? 0)%Z || (last_seq <? first_seq)%Z
  then None
  else
    generation ← match sm_generation meta with
                 | None => Some (default (sn_generation path) fallback_generation)
                 | Some g => g
                 end;
    Some (mkDescriptor path first_seq last_seq).
Definition segment_sidecar_payload (segment_id : seg_id) (first_seq last_seq generation : Z) : SegMeta :=
  mkMeta true (Some segment_id) (Some first_seq) (Some last_seq) (Some (Some generation)).
Definition or_else (a b : Z) : Z := if (a =? 0)%Z then b else a.
Definition seg_bytes (path : SegName) (d : Disk) : option bytes := sf_bytes <$> seg_lookup path (dk_segments d).
Definition seg_meta (path : SegName) (d : Disk) : option SegMeta := seg_lookup path (dk_segments d) ≫= sf_meta.
Definition segment_descriptor_from_file (path : SegName) : LogM (option Descriptor) :=
  let! d := get_disk in
  let '(scanned_first, scanned_last) := seq_range_for_file (seg_bytes path d) in
  if ((negb (scanned_first =? 0) && negb (scanned_first =? sn_first path)) || (negb (scanned_last =? 0) && negb (scanned_last =? sn_last path)))%Z
  then se_raise StorageSecurityError
  else
    let first_seq := or_else scanned_first (sn_first path) in
    let last_seq := or_else scanned_last (sn_last path) in
    if (first_seq <=? 0)%Z || (last_seq <? first_seq)%Z then se_ret None
    else
      let meta := segment_sidecar_payload (IdName path) first_seq last_seq (sn_generation path) in
      let! _ := write_seg_meta path meta in
      se_ret (segment_descriptor_from_meta path meta (Some (sn_generation path))).
Definition ensure_segment_sidecar_from_descriptor (path : SegName) (id : option seg_id) (first last : option Z) : LogM SegMeta :=
  let! d := get_disk in
  let stored := match seg_meta path d with Some m => if sm_current m then Some m else None | None => None end in
  match stored with
  | Some meta => se_ret meta
  | None =>
    let '(segment_id, first_seq, last_seq, generation) :=
      match i ← id; f ← first; l ← last; g ← id_generation i; Some (i, f, l, g) with
      | Some parts => parts
      | None => (IdName path, sn_first path, sn_last path, sn_generation path)
      end in
    let meta := segment_sidecar_payload segment_id first_seq last_seq generation in
    let! _ := write_seg_meta path meta in
    se_ret meta
  end.
(** The rows that name a local segment, and whether some row does not. *)
Definition manifest_rows (paths : list SegName) (raw : option (list mrow)) : list (SegName * mrow) * bool :=
  match raw with
  | None => ([], true)
  | Some rows =>
    (omap (fun r => match r with Row (Some p) _ _ _ => if bool_decide (p ∈ paths) then Some (p, r) else None | _ => None end) rows,
     existsb (fun r => match r with Row (Some p) _ _ _ => negb (bool_decide (p ∈ paths)) | _ => true end) rows)
  end.
(** [repaired_by_id[id] = descriptor] *)
Fixpoint put_descriptor (x : Descriptor) (l : list Descriptor) : list Descriptor :=
  match l with
  | [] => [x]
  | y :: l => if decide (ds_name y = ds_name x) then x :: l else y :: put_descriptor x l
  end.
Definition put_option (x : option Descriptor) (l : list Descriptor) : list Descriptor :=
  match x with Some x => put_descriptor x l | None => l end.
Fixpoint repair_rows (rows : list (SegName * mrow)) (repaired : list Descriptor) : LogM (list Descriptor) :=
  match rows with
  | [] => se_ret repaired
  | (path, Row _ id first last) :: rows =>
    let! meta := ensure_segment_sidecar_from_descriptor path id first last in
    repair_rows rows (put_option (segment_descriptor_from_meta path meta None) repaired)
  | (_, BadRow) :: rows => repair_rows rows repaired
  end.
Fixpoint repair_paths (paths : list SegName) (repaired : list Descriptor) : LogM (list Descriptor) :=
  match paths with
  | [] => se_ret repaired
  | path :: paths =>
    let! d := get_disk in
    let from_meta :=
      match seg_meta path d with
      | Some m => if sm_current m then segment_descriptor_from_meta path m None else None
      | None => None
      end in
    let! descriptor := match from_meta with
                       | Some x => se_ret (Some x)
                       | None => segment_descriptor_from_file path
                       end in
    repair_paths paths (put_option descriptor repaired)
  end.
Definition descriptor_le (x y : Descriptor) : bool :=
  ((ds_first x <? ds_first y) || ((ds_first x =? ds_first y) && name_le (ds_name x) (ds_name y)))%Z.
Definition max_list (d : Z) (l : list Z) : Z := foldr Z.max d l.
Definition min_positive (l : list Z) : Z :=
  match filter (fun z => 0 < z)%Z l with [] => 0%Z | z :: l => foldr Z.min z l end.
Definition repaired_manifest (manifest : Manifest) (segments : list Descriptor) (active : option bytes) : Manifest :=
  let '(active_first, active_last) := seq_bounds_for_file active in
  let segment_latest := match segments with [] => 0%Z | x :: l => max_list (ds_last x) (ds_last <$> l) end in
  let segment_min := min_positive (ds_first <$> segments) in
  mkManifest
    (max_list (mf_generation manifest) ((fun x => sn_generation (ds_name x) + 1)%Z <$> segments))
    (Some (row_of <$> segments))
    (or_else segment_min (or_else active_first (or_else (mf_min manifest) 1)))
    ((mf_latest manifest `max` segment_latest) `max` active_last)%Z.
(** The rebuild of the rows, from the manifest's and then from the segments *)
Definition repair_segments (segment_paths : list SegName) (rows : list (SegName * mrow)) : LogM (list Descriptor) :=
  let! repaired := repair_rows rows [] in
  let! repaired := repair_paths segment_paths repaired in
  se_ret (merge_sort descriptor_le repaired).
(** The write of the manifest, and of the active sidecar when it is stale *)
Definition publish_repaired (stored : option Manifest) (active : option bytes) (segments : list Descriptor) : LogM unit :=
  let manifest := repaired_manifest (default new_manifest stored) segments active in
  if bool_decide (segments = []) && is_none stored then let! _ := open_active_file in se_ret tt
  else
    let! _ := write_manifest manifest in
    let! _ := open_active_file in
    let! d := get_disk in
    let stale := match dk_active_meta d with
                 | Some (true, g) => negb (or_else g (-1) =? mf_generation manifest)%Z
                 | _ => true
                 end in
    if stale then write_active_meta (mf_generation manifest) else se_ret tt.
Definition repair_manifest_locked : LogM unit :=
  let! _ := recover_torn_active_tail_locked in
  let! d := get_disk in
  let segment_paths := safe_segment_paths d in
  if is_none (dk_manifest d) && bool_decide (segment_paths = []) then se_ret tt
  else
    let '(rows, requires_rebuild) := manifest_rows segment_paths (mf_rows (default new_manifest (dk_manifest d))) in
    if requires_rebuild && bool_decide (segment_paths = []) then se_raise StorageSecurityError
    else
      let! segments := repair_segments segment_paths (if requires_rebuild then [] else rows) in
      publish_repaired (dk_manifest d) (dk_active d) segments.
Definition update_manifest_latest_seq_locked (seq : Z) : LogM unit :=
  let! d := get_disk in
  match dk_manifest d with
  | None => se_ret tt
  | Some m =>
    if (seq <=? mf_latest m)%Z then se_ret tt
    else write_manifest (mkManifest (mf_generation m) (mf_rows m) (mf_min m) seq)
  end.
(** The move of the active file into the segment [first_seq]-[last_seq], its
    sidecar, the manifest and a new active file *)
Definition rotated_manifest (manifest : Manifest) (name : SegName) : Manifest :=
  let rows := filter (fun r => negb (match r with BadRow => true | _ => false end)) (default [] (mf_rows manifest)) in
  mkManifest (sn_generation name + 1) (Some (rows ++ [row_of (mkDescriptor name (sn_first name) (sn_last name))]))
    (or_else (mf_min manifest) 1) (mf_latest manifest `max` sn_last name)%Z.
Definition rotate_active (d : Disk) (first_seq last_seq : Z) : LogM unit :=
  let manifest := default new_manifest (dk_manifest d) in
  let generation := mf_generation manifest in
  let name := mkName first_seq last_seq generation in
  let! _ := rotate_active_to_segment name in
  let! _ := write_seg_meta name (segment_sidecar_payload (IdName name) first_seq last_seq generation) in
  let! _ := write_manifest (rotated_manifest manifest name) in
  let! _ := create_or_bind_active_storage in
  let! _ := (match dk_active_meta d with
             | Some _ => write_active_meta (generation + 1)
             | None => se_ret tt
             end) in
  upd_cache (fun _ => cache_clear).
Definition rotate_active_if_needed_locked : LogM unit :=
  let! d := get_disk in
  let active_size := Z.of_nat (match dk_active d with Some b => length b | None => 0 end) in
  match max_active_bytes with
  | None => se_ret tt
  | Some bound =>
    if (active_size =? 0)%Z || (active_size <=? bound)%Z then se_ret tt
    else
      let '(first_seq, last_seq) := seq_bounds_for_file (dk_active d) in
      if (first_seq <=? 0)%Z || (last_seq <=? 0)%Z then se_ret tt
      else rotate_active d first_seq last_seq
  end.
(** [_configured_max_active_bytes] of the environment variable *)
Definition DEFAULT_MAX_ACTIVE_BYTES : Z := 64 * 1024 * 1024.
Definition configured_max_active_bytes (raw : option str) : Z :=
  match raw with
  | None => DEFAULT_MAX_ACTIVE_BYTES
  | Some s =>
    if bool_decide (py_strip s = []) then DEFAULT_MAX_ACTIVE_BYTES
    else match int_of_text s with
         | None => DEFAULT_MAX_ACTIVE_BYTES
         | Some value => if (value <=? 0)%Z then DEFAULT_MAX_ACTIVE_BYTES else value
         end
  end.
(** [AgentSessionLog(path)]: the active file is created if it is missing and the
    manifest repaired. The cache is new. *)
Definition repair_manifest : LogM unit := repair_manifest_locked.
Definition open_log : LogM unit :=
  let! _ := create_or_bind_active_storage in
  let! _ := upd_cache (fun _ => cache_clear) in
  repair_manifest.

(** ** Queries over the segments *)
Inductive direction := Asc | Desc.
#[export] Instance direction_eq_dec : EqDecision direction.
Proof. solve_decision. Defined.
Record QueryCursor := mkCursor { qc_after_seq : Z; qc_direction : direction }.
(** A source of the view: a segment, or the active file ([None]) *)
Record Source := mkSource { so_path : option SegName; so_first : Z; so_last : Z }.
Definition before_start (spec : QuerySpec) (seq : Z) : bool :=
  match qs_after_seq spec with Some a => (seq <? a)%Z | None => false end.
Definition past_end (spec : QuerySpec) (seq : Z) : bool :=
  match qs_before_seq spec with Some b => (b <? seq)%Z | None => false end.
Fixpoint view_rows (d : Disk) (rows : list mrow) : outcome log_error (list Source) :=
  match rows with
  | [] => Ret []
  | BadRow :: rows => view_rows d rows
  | Row (Some path) _ (Some first) (Some last) :: rows =>
    if is_none (seg_lookup path (dk_segments d)) then Raise StorageSecurityError
    else let? l := view_rows d rows in Ret (mkSource (Some path) first last :: l)
  | Row _ _ _ _ :: _ => Raise StorageSecurityError
  end.
Definition source_le (x y : Source) : bool := (so_first x <=? so_first y)%Z.
Definition segment_view_sync : LogM (list Source) :=
  let! d := get_disk in
  let '(first, last) := seq_bounds_for_file (dk_active d) in
  let active := if (last =? 0)%Z then [] else [mkSource None first last] in
  match dk_manifest d with
  | None => se_ret active
  | Some m =>
    let! segments := se_lift (view_rows d (default [] (mf_rows m))) in
    se_ret (merge_sort source_le (segments ++ active))
  end.
(** Opening a source: its bytes, and its identity when it is the active file *)
Definition open_source (path : option SegName) : LogM (bytes * option bytes) :=
  match path with
  | None => let! b := open_active_file in se_ret (b, Some b)
  | Some n =>
    let! d := get_disk in
    match seg_bytes n d with
    | Some b => se_ret (b, None)
    | None => se_raise StorageSecurityError
    end
  end.
(** The loop of [_query_asc_file_sync]: the entries found, whether the end of the
    file was reached, and the offsets learned *)
Fixpoint asc_lines (spec : QuerySpec) (identity : option bytes) (limit : option nat) (offset : nat) (lines : list bytes) (c : Cache)
    : list LogEntry * bool * Cache :=
  match lines with
  | [] => ([], true, c)
  | raw :: lines =>
    match parse_entry raw with
    | None => asc_lines spec identity limit (offset + length raw) lines c
    | Some e =>
      let c := match identity with Some _ => cache_update (le_seq e) offset identity c | None => c end in
      if before_start spec (le_seq e) then asc_lines spec identity limit (offset + length raw) lines c
      else if past_end spec (le_seq e) then ([], false, c)
      else if negb (matches_entry e spec) then asc_lines spec identity limit (offset + length raw) lines c
      else if bool_decide (limit = Some 1) then ([e], false, c)
      else
        let '(results, complete, c) := asc_lines spec identity (pred <$> limit) (offset + length raw) lines c in
        (e :: results, complete, c)
    end
  end.
Definition query_asc_file_sync (path : option SegName) (spec : QuerySpec) (limit : option nat) : LogM (list LogEntry) :=
  let! (b, identity) := open_source path in
  fun w =>
    let '(start, c) := match identity with
                       | Some _ => starting_offset_for_seq (qs_after_seq spec) identity (w_cache w)
                       | None => (0, w_cache w)
                       end in
    let '(results, complete, c) := asc_lines spec identity limit start (file_lines (drop start b)) c in
    let c := if complete then mark_complete identity (dk_active (w_disk w)) (length b) c else c in
    (mkWorld (w_disk w) c (w_faults w), Ret results).
Fixpoint asc_sources (spec : QuerySpec) (limit : option nat) (sources : list Source) : LogM (list LogEntry) :=
  match sources with
  | [] => se_ret []
  | s :: sources =>
    if past_end spec (so_first s) then se_ret []
    else if before_start spec (so_last s) then asc_sources spec limit sources
    else if bool_decide (limit = Some 0) then se_ret []
    else
      let! found := query_asc_file_sync (so_path s) spec limit in
      let limit := (fun n => n - length found) <$> limit in
      if bool_decide (limit = Some 0) then se_ret found
      else let! rest := asc_sources spec limit sources in se_ret (found ++ rest)
  end.
Definition query_asc_sync (spec : QuerySpec) (limit : option nat) : LogM (list LogEntry) :=
  let! sources := segment_view_sync in
  asc_sources spec limit sources.
Fixpoint desc_lines (spec : QuerySpec) (limit : option nat) (lines : list (bytes * bool)) : list LogEntry :=
  match lines with
  | [] => []
  | (raw, _) :: lines =>
    match parse_entry raw with
    | None => desc_lines spec limit lines
    | Some e =>
      if past_end spec (le_seq e) then desc_lines spec limit lines
      else if before_start spec (le_seq e) then []
      else if negb (matches_entry e spec) then desc_lines spec limit lines
      else if bool_decide (limit = Some 1) then [e]
      else e :: desc_lines spec (pred <$> limit) lines
    end
  end.
Definition query_desc_file_sync (path : option SegName) (spec : QuerySpec) (limit : option nat) : LogM (list LogEntry) :=
  let! (b, _) := open_source path in
  se_ret (desc_lines spec limit (iter_lines_reverse REVERSE_SCAN_CHUNK_SIZE b)).
Fixpoint desc_sources (spec : QuerySpec) (limit : option nat) (sources : list Source) : LogM (list LogEntry) :=
  match sources with
  | [] => se_ret []
  | s :: sources =>
    if past_end spec (so_first s) then desc_sources spec limit sources
    else if before_start spec (so_last s) then se_ret []
    else if bool_decide (limit = Some 0) then se_ret []
    else
      let! found := query_desc_file_sync (so_path s) spec limit in
      let limit := (fun n => n - length found) <$> limit in
      if bool_decide (limit = Some 0) then se_ret found
      else let! rest := desc_sources spec limit sources in se_ret (found ++ rest)
  end.
Definition query_desc_sync (spec : QuerySpec) (limit : option nat) : LogM (list LogEntry) :=
  let! sources := segment_view_sync in
  desc_sources spec limit (reverse sources).

(** ** The strict scan *)
(** What the scan carries from line to line: the last sequence and the line it
    has quarantined, with the sequences on either side of it *)
Record Quarantine := mkQuarantine {
  qr_path : option SegName;
  qr_offset : nat;
  qr_line : bytes;
  qr_after_seq : option Z;
  qr_before_seq : option Z
}.
Record Scan := mkScan { sc_previous : option Z; sc_quarantined : option Quarantine; sc_cache : Cache }.
Definition unbridged (s : Scan) : option Quarantine :=
  match sc_quarantined s with Some q => if is_none (qr_before_seq q) then Some q else None | None => None end.
Definition in_order (s : Scan) (seq : Z) : bool :=
  (0 <? seq)%Z &&
  match sc_previous s with
  | None => true
  | Some previous => if is_none (unbridged s) then (seq =? previous + 1)%Z else (previous <? seq)%Z
  end.
Abbreviation ScanM := (SE Scan log_error).
Fixpoint strict_lines (path : option SegName) (identity : option bytes) (offset : nat) (lines : list bytes) : ScanM (list LogEntry) :=
  match lines with
  | [] => se_ret []
  | raw :: lines =>
    let! s := se_get in
    match parse_entry_current_strict raw with
    | Ambiguous => se_raise IntegrityError
    | Torn =>
      if negb (is_none (sc_quarantined s)) || negb (bool_decide (last raw = Some 10%N)) then se_raise IntegrityError
      else
        let! _ := se_put (mkScan (sc_previous s) (Some (mkQuarantine path offset raw (sc_previous s) None)) (sc_cache s)) in
        strict_lines path identity (offset + length raw) lines
    | Blank => strict_lines path identity (offset + length raw) lines
    | Entry e =>
      if negb (in_order s (le_seq e)) then se_raise IntegrityError
      else
        let quarantined :=
          match unbridged s with
          | Some q => Some (mkQuarantine (qr_path q) (qr_offset q) (qr_line q) (qr_after_seq q) (Some (le_seq e)))
          | None => sc_quarantined s
          end in
        let c := match identity with Some _ => cache_update (le_seq e) offset identity (sc_cache s) | None => sc_cache s end in
        let! _ := se_put (mkScan (Some (le_seq e)) quarantined c) in
        let! entries := strict_lines path identity (offset + length raw) lines in
        se_ret (e :: entries)
    end
  end.
Fixpoint strict_sources (d : Disk) (sources : list (option SegName)) : ScanM (list LogEntry) :=
  match sources with
  | [] => se_ret []
  | path :: sources =>
    match (match path with None => dk_active d | Some n => seg_bytes n d end) with
    | None => se_raise StorageSecurityError
    | Some b =>
      let identity := match path with None => Some b | Some _ => None end in
      let! found := strict_lines path identity 0 (file_lines b) in
      let! s := se_get in
      let! _ := se_put (mkScan (sc_previous s) (sc_quarantined s) (mark_complete identity (dk_active d) (length b) (sc_cache s))) in
      let! rest := strict_sources d sources in
      se_ret (found ++ rest)
    end
  end.
(** [_iter_current_entries_strict_sync], consumed to its end: the entries and the
    quarantined line *)
Definition iter_current_entries_strict_sync : LogM (list LogEntry * option Quarantine) :=
  fun w =>
    let d := w_disk w in
    let '(s, r) := strict_sources d ((Some <$> safe_segment_paths d) ++ [None]) (mkScan None None (w_cache w)) in
    (mkWorld d (sc_cache s) (w_faults w), let? entries := r in Ret (entries, sc_quarantined s)).

(** ** The public queries *)
Definition with_after_seq (a : Z) (s : QuerySpec) : QuerySpec :=
  mkSpec (qs_event_types s) (qs_tool_name s) (qs_tool_call_id s) (qs_sub_agent_id s) (qs_runner_id s) (qs_role s)
    (Some a) (qs_before_seq s) (qs_after_ts s) (qs_before_ts s) (qs_contains_text s) (qs_has_error s).
Definition with_before_seq (b : Z) (s : QuerySpec) : QuerySpec :=
  mkSpec (qs_event_types s) (qs_tool_name s) (qs_tool_call_id s) (qs_sub_agent_id s) (qs_runner_id s) (qs_role s)
    (qs_after_seq s) (Some b) (qs_after_ts s) (qs_before_ts s) (qs_contains_text s) (qs_has_error s).
Definition empty_range (s : QuerySpec) : bool :=
  match qs_after_seq s, qs_before_seq s with Some a, Some b => (b <? a)%Z | _, _ => false end.
Definition effective_spec (spec : QuerySpec) (order : direction) (cursor : option QueryCursor) : QuerySpec :=
  match cursor with
  | None => spec
  | Some c =>
    match order with
    | Asc => let a := (qc_after_seq c + 1)%Z in
             with_after_seq (match qs_after_seq spec with None => a | Some x => Z.max x a end) spec
    | Desc => let b := (qc_after_seq c - 1)%Z in
              with_before_seq (match qs_before_seq spec with None => b | Some x => Z.min x b end) spec
    end
  end.
(** The loop over the strict entries: the first [fetch_limit] of them in ascending
    order, a deque of the last ones in descending order *)
Definition retain (order : direction) (fetch_limit : option nat) (retained : list LogEntry) (e : LogEntry) : list LogEntry :=
  match fetch_limit with
  | None => retained ++ [e]
  | Some n =>
    match order with
    | Asc => if n <=? length retained then retained else retained ++ [e]
    | Desc => deque_append n retained e
    end
  end.
Definition selected (spec : QuerySpec) (excluded : LogEntry -> bool) (e : LogEntry) : bool :=
  negb (before_start spec (le_seq e)) && negb (past_end spec (le_seq e)) && negb (excluded e) && matches_entry e spec.
Definition page (order : direction) (limit : option nat) (entries : list LogEntry) : list LogEntry * option QueryCursor :=
  match limit with
  | None => (entries, None)
  | Some n =>
    if n <? length entries
    then (take n entries, (fun e => mkCursor (le_seq e) order) <$> entries !! (n - 1))
    else (entries, None)
  end.
Definition query_sync (spec : QuerySpec) (order : direction) (limit : option Z) (cursor : option QueryCursor)
    (strict : option (LogEntry -> bool)) : LogM (list LogEntry * option QueryCursor) :=
  if match limit with Some n => (n <=? 0)%Z | None => false end then se_raise ValueError
  else if match cursor with Some c => negb (bool_decide (qc_direction c = order)) | None => false end then se_raise ValueError
  else
    let effective := effective_spec spec order cursor in
    if is_none strict && (empty_range spec || (negb (is_none cursor) && empty_range effective)) then se_ret ([], None)
    else
      let limit := Z.to_nat <$> limit in
      let fetch_limit := S <$> limit in
      let! entries :=
        (match strict with
         | Some excluded =>
           let! (entries, _) := iter_current_entries_strict_sync in
           let retained := foldl (retain order fetch_limit) [] (filter (selected effective excluded) entries) in
           se_ret (match order with Asc => retained | Desc => reverse retained end)
         | None =>
           match order with
           | Asc => query_asc_sync effective fetch_limit
           | Desc => query_desc_sync effective fetch_limit
           end
         end) in
      se_ret (page order limit entries).
Definition latest_seq_for_append (active : bytes) (d : Disk) : Z :=
  Z.max (match dk_manifest d with Some m => mf_latest m | None => 0%Z end) (latest_seq_from_handle active).
Definition latest_seq_sync : LogM Z :=
  let! b := open_active_file in
  let! d := get_disk in
  se_ret (latest_seq_for_append b d).
Definition latest_seq_current_strict_sync : LogM Z :=
  let! (entries, _) := iter_current_entries_strict_sync in
  se_ret (foldl (fun latest e => Z.max latest (le_seq e)) 0%Z entries).

(** The public queries: the text is lowered; the strict one excludes sequences and
    what a predicate says *)
Definition lowered (s : QuerySpec) : QuerySpec :=
  mkSpec (qs_event_types s) (qs_tool_name s) (qs_tool_call_id s) (qs_sub_agent_id s) (qs_runner_id s) (qs_role s)
    (qs_after_seq s) (qs_before_seq s) (qs_after_ts s) (qs_before_ts s) (str_lower <$> qs_contains_text s) (qs_has_error s).
Definition query (spec : QuerySpec) (order : direction) (limit : option Z) (cursor : option QueryCursor) : LogM (list LogEntry * option QueryCursor) :=
  query_sync (lowered spec) order limit cursor None.
Definition query_current_strict (spec : QuerySpec) (order : direction) (limit : option Z) (cursor : option QueryCursor)
    (excluded_seqs : list Z) (exclude_entry : option (LogEntry -> bool)) : LogM (list LogEntry * option QueryCursor) :=
  query_sync (lowered spec) order limit cursor
    (Some (fun e => bool_decide (le_seq e ∈ excluded_seqs) || match exclude_entry with Some f => f e | None => false end)).
Definition iter_from (after_seq : Z) : LogM (list LogEntry) :=
  let! (entries, _) := query (mkSpec None None None None None None (Some (Z.max after_seq 0 + 1)%Z) None None None None None) Asc None None in
  se_ret entries.

(** ** Appends *)
Definition EVENT_SCHEMA_VERSION : Z := 2.
(** [event["event_schema_version"] = EVENT_SCHEMA_VERSION] *)
Definition set_schema_version (event : fields) : fields :=
  let kv := (u "event_schema_version", JInt EVENT_SCHEMA_VERSION) in
  if existsb (fun f => bool_decide (f.1 = kv.1)) event
  then (fun f => if bool_decide (f.1 = kv.1) then kv else f) <$> event
  else event ++ [kv].
Definition canonical_idempotent_event (event : fields) : outcome log_error (option (str * str * fields)) :=
  if negb (py_eq (py_get (u "type") event) (JStr (u "agent_completion"))) then Ret None
  else match completion_event event with Some x => Ret (Some x) | None => Raise ValueError end.
Definition completion_spec (event_id : str) : QuerySpec :=
  mkSpec (Some [u "agent_completion"]) None None None None None None None None None (Some (str_lower event_id)) None.
(** Every stored event with this id must be the same typed event. *)
Fixpoint check_matches (fingerprint : str) (canonical : fields) (l : list LogEntry) : outcome log_error unit :=
  match l with
  | [] => Ret tt
  | e :: l =>
    match canonical_idempotent_event (le_event e) with
    | Ret (Some (_, fingerprint', canonical')) =>
      if negb (bool_decide (fingerprint' = fingerprint)) || negb (py_eq (JDict canonical') (JDict canonical))
      then Raise ConflictError
      else check_matches fingerprint canonical l
    | _ => Raise ConflictError
    end
  end.
Definition find_completion (idempotent : option (str * str * fields)) : LogM (option LogEntry) :=
  match idempotent with
  | None => se_ret None
  | Some (event_id, fingerprint, canonical) =>
    let! candidates := query_asc_sync (completion_spec event_id) None in
    let found := filter (fun e => py_eq (py_get (u "event_id") (le_event e)) (JStr event_id)) candidates in
    let! _ := se_lift (check_matches fingerprint canonical found) in
    se_ret (head found)
  end.
(** [os.fstat] after the write: the file has grown by what was written. *)
Definition require_exact_append_growth (size_before written : nat) : LogM unit :=
  let! b := open_active_file in
  if length b =? size_before + written then se_ret tt else se_raise IntegrityError.
(** [_update_cache] without an identity: that of the file as it is now *)
Definition update_cache (seq : Z) (offset : nat) : LogM unit :=
  let! d := get_disk in
  upd_cache (cache_update seq offset (dk_active d)).
Definition append_sync (now : Z * positive) (event : fields) : LogM LogEntry :=
  let payload := set_schema_version (sanitize event) in
  let! idempotent := se_lift (canonical_idempotent_event payload) in
  let payload := stamp_history payload in
  let! _ := repair_manifest_locked in
  let! found := find_completion idempotent in
  match found with
  | Some e => se_ret e
  | None =>
    let! _ := rotate_active_if_needed_locked in
    let! active := open_active_file in
    let! d := get_disk in
    let e := mkEntry (latest_seq_for_append active d + 1) now payload in
    let! _ := write_active (encode_entry e) in
    let! _ := require_exact_append_growth (length active) (length (encode_entry e)) in
    let! _ := update_manifest_latest_seq_locked (le_seq e) in
    let! _ := update_cache (le_seq e) (length active) in
    se_ret e
  end.
(** [except BaseException]: a handler for what a live process raises *)
Definition on_error {A} (m : LogM A) (handler : LogM unit) : LogM A :=
  fun w =>
    match m w with
    | (w, Raise ProcessDied) => (w, Raise ProcessDied)
    | (w, Raise e) => se_bind handler (fun _ => se_raise e) w
    | r => r
    end.
Definition append_terminal_pair_sync (now : Z * positive) (recap detach : fields) : LogM (LogEntry * LogEntry) :=
  let recap := set_schema_version (sanitize recap) in
  let detach := set_schema_version (sanitize detach) in
  let! _ := repair_manifest_locked in
  let! _ := rotate_active_if_needed_locked in
  let! active := open_active_file in
  let! d := get_disk in
  let offset := length active in
  let previous_seq := latest_seq_for_append active d in
  let e1 := mkEntry (previous_seq + 1) now recap in
  let e2 := mkEntry (previous_seq + 2) now detach in
  let written := encode_entry e1 ++ encode_entry e2 in
  let! _ := on_error
    (let! _ := write_active written in
     let! _ := require_exact_append_growth offset (length written) in
     update_manifest_latest_seq_locked (le_seq e2))
    (let! _ := truncate_active offset in
     update_manifest_latest_seq_locked previous_seq) in
  let! _ := update_cache (le_seq e1) offset in
  let! _ := update_cache (le_seq e2) (offset + length (encode_entry e1)) in
  se_ret (e1, e2).
End log.
Arguments asc_lines {_} _ _ _ _ _ _.

End SessionLog.
