(* ===== verification/SessionStorage.v ===== *)
(** * SessionStorage: what the files of a session log hold

    The laws of the JSON codec that [SessionLog] relies on; the lines of a file
    and the reverse scan over them; the disk as a stream of entries cut into
    segments, and the repair that settles an interrupted append and rebuilds any
    manifest. *)
From stdpp Require Import sorting.
From S2P Require Import Prelude SessionLog.

Module SessionStorage.
Import SessionLog.

(** ** The codec *)
(** [plain] are the values that Python's codec gives back unchanged: dicts with
    text keys and finite numbers. A dict is dumped on one line, from a brace to a
    brace, and no proper prefix of it is a document. What is written to the log
    is plain. *)
Class LogLaws {env : LogEnv} := {
  plain : json -> Prop;
  loads_dumps v : plain v -> json_loads (json_dumps v) = Some v;
  loads_strict_dumps v : plain v -> json_loads_strict (json_dumps v) = Parsed v;
  dumps_line d : 10%N ∉ json_dumps (JDict d);
  dumps_first d : exists c b, json_dumps (JDict d) = c :: b /\ byte_isspace c = false;
  dumps_last d : exists b c, json_dumps (JDict d) = b ++ [c] /\ byte_isspace c = false;
  dumps_prefix d b v : b `prefix_of` json_dumps (JDict d) -> b <> json_dumps (JDict d) -> json_loads_strict b <> Parsed v;
  plain_envelope e : plain (JDict (le_event e)) -> plain (JFloat (le_timestamp e).1 (le_timestamp e).2) -> plain (JDict (envelope e));
  plain_payload event : plain (JDict (set_schema_version (sanitize event)));
  plain_stamped event : plain (JDict (stamp_history (set_schema_version (sanitize event))))
}.

Section laws.
Context {env : LogEnv} {laws : LogLaws}.
Implicit Types (e : LogEntry) (es : list LogEntry) (b t : bytes).

(** ** Lines *)
Definition body e : bytes := json_dumps (JDict (envelope e)).
Definition enc es : bytes := concat (encode_entry <$> es).
Lemma encode_body e : encode_entry e = body e ++ [10%N].
Proof. done. Qed.
Lemma enc_app es1 es2 : enc (es1 ++ es2) = enc es1 ++ enc es2.
Proof. unfold enc. by rewrite fmap_app, concat_app. Qed.
Lemma enc_cons e es : enc (e :: es) = encode_entry e ++ enc es.
Proof. done. Qed.
Lemma enc_one e : enc [e] = encode_entry e.
Proof. unfold enc. simpl. by rewrite app_nil_r. Qed.
Lemma enc_snoc es e : enc (es ++ [e]) = enc es ++ encode_entry e.
Proof. by rewrite enc_app, enc_one. Qed.
Lemma body_nonempty e : body e <> [].
Proof. unfold body. destruct (dumps_first (envelope e)) as (c & b & -> & _). done. Qed.
Lemma body_line e : 10%N ∉ body e.
Proof. apply dumps_line. Qed.

Lemma lines_from_line acc b r : 10%N ∉ b -> lines_from acc (b ++ 10%N :: r) = (acc ++ b ++ [10%N]) :: lines_from [] r.
Proof.
  revert acc. induction b as [|c b IH]; intros acc Hb; simpl.
  - done.
  - apply not_elem_of_cons in Hb as [Hc Hb]. destruct (N.eqb_spec c 10) as [->|_]; [done|].
    rewrite IH by done. by rewrite <- !app_assoc.
Qed.
Lemma lines_from_tail acc t : 10%N ∉ t -> lines_from acc t = match acc ++ t with [] => [] | l => [l] end.
Proof.
  revert acc. induction t as [|c t IH]; intros acc Ht; simpl.
  - rewrite app_nil_r. by destruct acc.
  - apply not_elem_of_cons in Ht as [Hc Ht]. destruct (N.eqb_spec c 10) as [->|_]; [done|].
    rewrite IH by done. by rewrite <- app_assoc.
Qed.
Definition tail_lines t : list bytes := match t with [] => [] | _ => [t] end.
Lemma file_lines_enc es t : 10%N ∉ t -> file_lines (enc es ++ t) = (encode_entry <$> es) ++ tail_lines t.
Proof.
  intros Ht. unfold file_lines. induction es as [|e es IH]; [simpl|].
  - rewrite lines_from_tail by done. by destruct t.
  - rewrite enc_cons, encode_body, <- !app_assoc. simpl. rewrite lines_from_line by apply body_line.
    by rewrite IH.
Qed.
Lemma file_lines_enc' es : file_lines (enc es) = encode_entry <$> es.
Proof. rewrite <- (app_nil_r (enc es)), file_lines_enc by set_solver. apply app_nil_r. Qed.
Lemma split_from_line acc b r : 10%N ∉ b -> split_from acc (b ++ 10%N :: r) = (acc ++ b) :: split_from [] r.
Proof.
  revert acc. induction b as [|c b IH]; intros acc Hb; simpl.
  - by rewrite app_nil_r.
  - apply not_elem_of_cons in Hb as [Hc Hb]. destruct (N.eqb_spec c 10) as [->|_]; [done|].
    rewrite IH by done. by rewrite <- app_assoc.
Qed.
Lemma split_from_tail acc t : 10%N ∉ t -> split_from acc t = [acc ++ t].
Proof.
  revert acc. induction t as [|c t IH]; intros acc Ht; simpl.
  - by rewrite app_nil_r.
  - apply not_elem_of_cons in Ht as [Hc Ht]. destruct (N.eqb_spec c 10) as [->|_]; [done|].
    rewrite IH by done. by rewrite <- app_assoc.
Qed.
Lemma split_enc es t : 10%N ∉ t -> split_newlines (enc es ++ t) = (body <$> es) ++ [t].
Proof.
  intros Ht. unfold split_newlines. induction es as [|e es IH]; [simpl|].
  - by rewrite split_from_tail.
  - rewrite enc_cons, encode_body, <- !app_assoc. simpl. rewrite split_from_line by apply body_line.
    by rewrite IH.
Qed.

(** ** The reverse scan *)
Definition nonempty_b (l : bytes) : bool := match l with [] => false | _ => true end.
Definition marked (last : bool) (ls : list bytes) : list (bytes * bool) :=
  match ls with [] => [] | l :: ls => (l, last) :: ((fun l => (l, false)) <$> ls) end.
Lemma marked_app last l1 l2 :
  marked last (l1 ++ l2) = marked last l1 ++ marked (match l1 with [] => last | _ => false end) l2.
Proof.
  destruct l1 as [|x l1]; simpl; [done|]. f_equal. rewrite fmap_app. f_equal. by destruct l2.
Qed.
Lemma yield_marked ls last :
  yield_lines ls last = (marked last (filter nonempty_b ls), match filter nonempty_b ls with [] => last | _ => false end).
Proof.
  revert last. induction ls as [|[|c l] ls IH]; intros last; cbn [yield_lines]; [done| |].
  - rewrite filter_cons_False by (simpl; tauto). apply IH.
  - rewrite filter_cons_True by done. rewrite IH. cbn. do 2 f_equal; by destruct (filter _ _).
Qed.
Lemma split_head acc b : exists h ps, split_from acc b = (acc ++ h) :: ps /\ split_newlines b = h :: ps /\ 10%N ∉ h.
Proof.
  unfold split_newlines. destruct (decide (10%N ∈ b)) as [Hb|Hb].
  - apply list_elem_of_split_l in Hb as (l1 & l2 & -> & Hl). exists l1, (split_from [] l2).
    by rewrite !split_from_line.
  - exists b, []. by rewrite !split_from_tail.
Qed.
Lemma split_prepend acc pre b h ps :
  split_newlines b = h :: ps -> split_from acc (pre ++ b) = split_from acc (pre ++ h) ++ ps.
Proof.
  revert acc. induction pre as [|c pre IH]; intros acc Hb; simpl.
  - destruct (split_head acc b) as (h' & ps' & -> & E & Hh). rewrite Hb in E. simplify_eq.
    by rewrite split_from_tail.
  - rewrite !IH by done. by destruct (c =? 10)%N.
Qed.
Lemma reverse_scan_spec fuel chunk file pos buffer last :
  0 < chunk -> pos < fuel -> pos <= length file -> 10%N ∉ buffer ->
  reverse_scan fuel chunk file pos buffer last =
    marked last (filter nonempty_b (reverse (split_newlines (take pos file ++ buffer)))).
Proof.
  revert pos buffer last. induction fuel as [|fuel IH]; intros pos buffer last Hc Hf Hp Hb; [lia|].
  destruct pos as [|pos].
  { simpl. unfold split_newlines. rewrite split_from_tail by done. by destruct buffer. }
  cbn [reverse_scan]. set (rs := chunk `min` S pos). set (start := S pos - rs).
  assert (0 < rs /\ rs <= S pos) as [H0 H1] by (unfold rs; lia).
  set (b := take rs (drop start file) ++ buffer).
  destruct (split_head [] b) as (h & ps & _ & E & Hh). rewrite E, yield_marked.
  rewrite IH; [|done|unfold start; lia|unfold start; lia|done].
  assert (take (S pos) file ++ buffer = take start file ++ b) as ->.
  { unfold b. rewrite app_assoc. f_equal. replace (S pos) with (start + rs) by (unfold start; lia).
    rewrite take_take_drop. done. }
  rewrite (split_prepend [] (take start file) b h ps E : split_newlines _ = _).
  rewrite reverse_app, filter_app, marked_app. done.
Qed.
Lemma iter_lines_reverse_spec chunk file : 0 < chunk ->
  iter_lines_reverse chunk file = marked true (filter nonempty_b (reverse (split_newlines file))).
Proof.
  intros. unfold iter_lines_reverse. rewrite reverse_scan_spec by (done || lia || set_solver).
  by rewrite firstn_all, app_nil_r.
Qed.

(** ** Entries *)
Lemma lstrip_head p c b : p c = false -> lstrip_by p (c :: b) = c :: b.
Proof. unfold lstrip_by. simpl. by intros ->. Qed.
Lemma rstrip_last p b c : p c = false -> rstrip_by p (b ++ [c]) = b ++ [c].
Proof.
  intros Hc. unfold rstrip_by. rewrite reverse_snoc. simpl. rewrite Hc. by rewrite <- reverse_snoc, reverse_involutive.
Qed.
Lemma rstrip_space p b c : p c = true -> rstrip_by p (b ++ [c]) = rstrip_by p b.
Proof. intros Hc. unfold rstrip_by. rewrite reverse_snoc. simpl. by rewrite Hc. Qed.
Lemma drop_while_suffix p b : drop_while p b `suffix_of` b.
Proof.
  induction b as [|c b IH]; simpl; [done|]. destruct (p c); [|done]. by apply suffix_cons_r.
Qed.
Lemma rstrip_prefix p b : rstrip_by p b `prefix_of` b.
Proof.
  unfold rstrip_by. destruct (drop_while_suffix p (reverse b)) as [k E].
  exists (reverse k). by rewrite <- reverse_app, <- E, reverse_involutive.
Qed.
Lemma strip_body e : strip (body e) = body e.
Proof.
  unfold strip, strip_by, body. destruct (dumps_first (envelope e)) as (c & b & E & Hc).
  rewrite E, lstrip_head, <- E by done. destruct (dumps_last (envelope e)) as (b' & c' & E' & Hc').
  by rewrite E', rstrip_last.
Qed.
Lemma strip_line e : strip (encode_entry e) = body e.
Proof.
  rewrite <- strip_body at 1. rewrite encode_body. unfold strip, strip_by, body.
  destruct (dumps_first (envelope e)) as (c & b & E & Hc).
  rewrite E, <- app_comm_cons, !lstrip_head by done. by rewrite app_comm_cons, rstrip_space.
Qed.
Record good e : Prop := {
  good_seq : (0 < le_seq e)%Z;
  good_event : plain (JDict (le_event e));
  good_timestamp : plain (JFloat (le_timestamp e).1 (le_timestamp e).2)
}.
Lemma envelope_fields e :
  py_get (u "event") (envelope e) = JDict (le_event e) /\
  dict_get (u "seq") (envelope e) = Some (JInt (le_seq e)) /\
  dict_get (u "timestamp") (envelope e) = Some (JFloat (le_timestamp e).1 (le_timestamp e).2).
Proof. done. Qed.
Lemma parse_stripped e raw : good e -> strip raw = body e -> parse_entry raw = Some e.
Proof.
  intros [_ He Ht] Hr. unfold parse_entry. rewrite Hr. destruct (body e) eqn:E; [by apply body_nonempty in E|].
  rewrite <- E. unfold body. rewrite loads_dumps by (by apply plain_envelope).
  destruct (envelope_fields e) as (-> & -> & ->). simpl. by destruct e as [? [] ?].
Qed.
Lemma parse_line e : good e -> parse_entry (encode_entry e) = Some e.
Proof. intros. by apply parse_stripped, strip_line. Qed.
Lemma parse_body e : good e -> parse_entry (body e) = Some e.
Proof. intros. by apply parse_stripped, strip_body. Qed.
Lemma strict_stripped e raw : good e -> strip raw = body e -> parse_entry_current_strict raw = Entry e.
Proof.
  intros [Hs He Ht] Hr. unfold parse_entry_current_strict. rewrite Hr.
  destruct (body e) eqn:E; [by apply body_nonempty in E|].
  rewrite <- E. unfold body. rewrite loads_strict_dumps by (by apply plain_envelope).
  destruct (envelope_fields e) as (-> & Es & Et). unfold py_get. rewrite Es, Et. simpl.
  destruct (Z.leb_spec (le_seq e) 0); [lia|]. by destruct e as [? [] ?].
Qed.
Lemma strict_line_entry e : good e -> parse_entry_current_strict (encode_entry e) = Entry e.
Proof. intros. by apply strict_stripped, strip_line. Qed.
Lemma strict_body e : good e -> parse_entry_current_strict (body e) = Entry e.
Proof. intros. by apply strict_stripped, strip_body. Qed.
Definition torn t : Prop := t <> [] /\ exists e, t `prefix_of` body e /\ t <> body e.
Lemma torn_line t : torn t -> 10%N ∉ t.
Proof. intros [_ (e & [k E] & _)] H. apply (body_line e). rewrite E. set_solver. Qed.
Lemma torn_strict t : torn t ->
  parse_entry_current_strict t = Torn \/ parse_entry_current_strict t = Ambiguous.
Proof.
  intros [Hne (e & Hp & Hb)]. assert (strip t `prefix_of` t /\ strip t <> []) as [Hs Hn].
  { destruct (dumps_first (envelope e)) as (c & b & E & Hc). unfold body in Hp. rewrite E in Hp.
    destruct t as [|c' t]; [done|]. pose proof (prefix_cons_inv_1 _ _ _ _ Hp) as ->.
    unfold strip, strip_by. rewrite lstrip_head by done. split; [apply rstrip_prefix|].
    unfold rstrip_by. intros E'%(f_equal reverse). rewrite reverse_involutive, reverse_cons in E'.
    assert (forall l, drop_while byte_isspace (l ++ [c]) <> []) as Hd; [|by apply (Hd (reverse t))].
    induction l as [|x l IHl]; simpl; [by rewrite Hc|]. by destruct (byte_isspace x). }
  unfold parse_entry_current_strict. destruct (strip t) as [|x s] eqn:E; [done|]. rewrite <- E in *.
  destruct (json_loads_strict (strip t)) as [v| |] eqn:El; [|by left|by right].
  exfalso. revert El. apply (dumps_prefix (envelope e)); [by etrans|].
  intros Heq. apply Hb. apply prefix_length_eq; [done|]. fold (body e) in Heq. rewrite <- Heq.
  by apply prefix_length.
Qed.

(** ** What a file of entries reads as *)
Lemma omap_inverse {A B} (f : B -> option A) (g : A -> B) (l : list A) :
  Forall (fun x => f (g x) = Some x) l -> omap f (g <$> l) = l.
Proof. induction 1 as [|x l Hx _ IH]; [done|]. cbn. rewrite Hx. f_equal. exact IH. Qed.
Lemma omap_parse es : Forall good es -> omap parse_entry (encode_entry <$> es) = es.
Proof. intros. apply omap_inverse. eapply Forall_impl; [done|]. apply parse_line. Qed.
Lemma notin_take {A} (x : A) n l : x ∉ l -> x ∉ take n l.
Proof. rewrite <- (take_drop n l) at 1. set_solver. Qed.
Lemma chunk_positive : 0 < REVERSE_SCAN_CHUNK_SIZE.
Proof. unfold REVERSE_SCAN_CHUNK_SIZE. lia. Qed.
Lemma filter_bodies es : filter nonempty_b (body <$> es) = body <$> es.
Proof.
  induction es as [|e es IH]; [done|]. rewrite fmap_cons, filter_cons_True; [by rewrite IH|].
  pose proof (body_nonempty e). by destruct (body e).
Qed.
Lemma reverse_lines_enc es t : 10%N ∉ t ->
  iter_lines_reverse REVERSE_SCAN_CHUNK_SIZE (enc es ++ t) = marked true (tail_lines t ++ reverse (body <$> es)).
Proof.
  intros Ht. rewrite iter_lines_reverse_spec by apply chunk_positive. rewrite split_enc by done.
  rewrite reverse_snoc. destruct t as [|c t].
  - rewrite filter_cons_False by (simpl; tauto). by rewrite <- fmap_reverse, filter_bodies.
  - rewrite filter_cons_True by done. by rewrite <- fmap_reverse, filter_bodies.
Qed.
Lemma omap_marked {A} (f : bytes -> option A) last ls : omap (fun l => f l.1) (marked last ls) = omap f ls.
Proof.
  assert (forall ls : list bytes, omap (fun l => f l.1) ((fun l => (l, false)) <$> ls) = omap f ls) as E.
  { clear. induction ls as [|x ls IH]; [done|]. cbn. destruct (f x); [f_equal|]; exact IH. }
  destruct ls as [|l ls]; [done|]. cbn. destruct (f l); [f_equal|]; apply E.
Qed.
Lemma omap_bodies es : Forall good es -> omap parse_entry (body <$> es) = es.
Proof. intros. apply omap_inverse. eapply Forall_impl; [done|]. apply parse_body. Qed.
Definition last_seq es : Z := match last es with Some e => le_seq e | None => 0%Z end.
Definition first_seq es : Z := match es with e :: _ => le_seq e | [] => 0%Z end.
Lemma head_reverse es : match reverse es with e :: _ => le_seq e | [] => 0%Z end = last_seq es.
Proof.
  unfold last_seq. destruct es as [|e es _] using rev_ind; [done|]. by rewrite reverse_snoc, last_snoc.
Qed.
Lemma latest_enc es : Forall good es -> latest_seq_from_handle (enc es) = last_seq es.
Proof.
  intros Hg. unfold latest_seq_from_handle. rewrite <- (app_nil_r (enc es)), reverse_lines_enc by set_solver.
  rewrite omap_marked. simpl. rewrite <- fmap_reverse, omap_bodies by (by apply Forall_reverse). apply head_reverse.
Qed.
Lemma enc_nil_inv es : enc es = [] -> es = [].
Proof. destruct es as [|e es]; [done|]. rewrite enc_cons, encode_body. by intros [[_ ?]%app_eq_nil _]%app_eq_nil. Qed.
Lemma bounds_enc es : Forall good es -> seq_bounds_for_file (Some (enc es)) = (first_seq es, last_seq es).
Proof.
  intros Hg. unfold seq_bounds_for_file. destruct (enc es) as [|c b] eqn:E.
  { apply enc_nil_inv in E as ->. done. }
  rewrite <- E, file_lines_enc', omap_parse, latest_enc by done. fold (first_seq es).
  destruct (Z.eqb_spec (first_seq es) 0) as [H0|]; [|done].
  destruct Hg as [|e es He Hg]; [done|]. simpl in H0. pose proof (good_seq _ He). lia.
Qed.
Lemma range_enc es : Forall good es -> seq_range_for_file (Some (enc es)) = (first_seq es, last_seq es).
Proof.
  intros Hg. unfold seq_range_for_file. destruct (enc es) as [|c b] eqn:E.
  { apply enc_nil_inv in E as ->. done. }
  rewrite <- E, file_lines_enc', omap_parse by done. clear E.
  induction es as [|e es IH] using rev_ind; [done|].
  apply Forall_app in Hg as [Hg [He _]%Forall_cons]. rewrite foldl_app, IH by done. simpl.
  unfold last_seq. rewrite last_snoc. destruct Hg as [|e' es He' Hg]; [done|]. simpl.
  pose proof (good_seq _ He'). by destruct (Z.eqb_spec (le_seq e') 0); [lia|].
Qed.
Lemma rfind_none t : 10%N ∉ t -> rfind_newline t = None.
Proof.
  induction t as [|c t IH]; intros Ht; simpl; [done|]. apply not_elem_of_cons in Ht as [Hc Ht].
  rewrite IH by done. by destruct (N.eqb_spec c 10) as [->|].
Qed.
Lemma rfind_line b t : 10%N ∉ t -> rfind_newline (b ++ 10%N :: t) = Some (length b).
Proof. intros Ht. induction b as [|c b IH]; simpl; [by rewrite rfind_none|]. by rewrite IH. Qed.
Lemma tail_line_start_spec fuel chunk pre t n : 0 < chunk -> 10%N ∉ t -> (pre = [] \/ last pre = Some 10%N) ->
  n < fuel -> length pre <= n -> n <= length (pre ++ t) ->
  tail_line_start fuel chunk (pre ++ t) n = length pre.
Proof.
  intros Hc Ht Hpre. revert n. induction fuel as [|fuel IH]; intros n Hf Hn Hl; [lia|].
  destruct n as [|n]; [simpl; lia|]. cbn [tail_line_start].
  set (rs := chunk `min` S n). set (start := S n - rs).
  assert (0 < rs /\ rs <= S n) as [H0 H1] by (unfold rs; lia).
  destruct (decide (length pre <= start)) as [Hs|Hs].
  - rewrite drop_app_ge by done. rewrite rfind_none.
    + apply IH; unfold start in *; lia.
    + apply notin_take. rewrite <- (take_drop (start - length pre) t) in Ht. set_solver.
  - destruct Hpre as [->|[b Hb]%last_Some]; [simpl in *; lia|]. rewrite Hb, length_app in *. simpl in *.
    rewrite <- app_assoc, drop_app_le by lia. rewrite take_app_ge by (rewrite length_drop; unfold start in *; lia).
    rewrite length_drop. simpl.
    destruct (rs - (length b - start)) as [|k] eqn:Ek; [unfold start in *; lia|]. cbn [take].
    rewrite rfind_line; [rewrite length_drop; lia|]. by apply notin_take.
Qed.

(** ** What the disk holds *)
(** A stream of entries, cut into the segments with the generation of each and
    the active file. *)
Implicit Types (chunks : list (Z * list LogEntry)) (act : list LogEntry).
Definition stream chunks act : list LogEntry := concat (chunks.*2) ++ act.
Definition name_of (x : Z * list LogEntry) : SegName := mkName (first_seq x.2) (last_seq x.2) x.1.
Definition desc_of (n : SegName) : Descriptor := mkDescriptor n (sn_first n) (sn_last n).
Definition seg_shape (d : Disk) : list (SegName * bytes) := prod_map id sf_bytes <$> dk_segments d.
Definition seg_of (x : Z * list LogEntry) : SegName * bytes := (name_of x, enc x.2).
(** The active file is the entries with a torn line at its end, or the entries
    without their last newline; it is missing after a rotation that died. *)
Definition active_of (a : option bytes) act : Prop :=
  match a with
  | None => act = []
  | Some b => (exists t, b = enc act ++ t /\ (t = [] \/ torn t)) \/ (b ++ [10%N] = enc act /\ act <> [])
  end.
Record rep (d : Disk) chunks act : Prop := {
  rep_segs : seg_shape d = seg_of <$> chunks;
  rep_names : Forall (fun x => name_ok (name_of x) = true /\ x.2 <> []) chunks;
  rep_active : active_of (dk_active d) act;
  rep_good : Forall good (stream chunks act);
  rep_seqs : consecutive le_seq 1 (stream chunks act);
  rep_latest : match dk_manifest d with Some m => (mf_latest m <= Z.of_nat (length (stream chunks act)))%Z | None => True end;
  rep_rows : chunks = [] -> match dk_manifest d with Some m => mf_rows m = Some [] | None => True end
}.
(** Nothing is asked of the sidecars, nor of the rows of the manifest once there
    is a segment. *)
Definition stored (d : Disk) es : Prop := exists chunks act, rep d chunks act /\ es = stream chunks act.
(** After repair the manifest describes the segments exactly. *)
Record settled (d : Disk) chunks act : Prop := {
  settled_rep : rep d chunks act;
  settled_active : dk_active d = Some (enc act);
  settled_manifest : match dk_manifest d with
                     | None => chunks = []
                     | Some m => mf_rows m = Some ((fun x => row_of (desc_of (name_of x))) <$> chunks) /\
                                 mf_latest m = Z.of_nat (length (stream chunks act))
                     end
}.
Lemma stream_length_app chunks act : length (stream chunks act) = length (concat (chunks.*2)) + length act.
Proof. apply length_app. Qed.
Lemma last_seq_consecutive n es : consecutive le_seq n es -> es <> [] -> last_seq es = (n + Z.of_nat (length es) - 1)%Z.
Proof.
  intros Hc Hne. destruct es as [|e es _] using rev_ind; [done|]. apply consecutive_app in Hc as [_ [He _]].
  unfold last_seq. rewrite last_snoc, length_app. simpl. lia.
Qed.
Lemma first_seq_consecutive n es : consecutive le_seq n es -> es <> [] -> first_seq es = n.
Proof. destruct es as [|e es]; [done|]. intros [He _] _. exact He. Qed.

(** ** Names *)
Definition name_lt (x y : SegName) : Prop := (sn_first x < sn_first y)%Z.
Lemma names_sorted n chunks : consecutive le_seq n (concat (chunks.*2)) -> Forall (fun x => x.2 <> []) chunks ->
  StronglySorted name_lt (name_of <$> chunks) /\
  Forall (fun x => (n <= sn_first x)%Z /\ (sn_first x <= sn_last x)%Z) (name_of <$> chunks).
Proof.
  revert n. induction chunks as [|x chunks IH]; intros n Hc Hne; [split; constructor|].
  apply Forall_cons in Hne as [Hx Hne]. simpl in Hc. apply consecutive_app in Hc as [Hc1 Hc2].
  destruct (IH _ Hc2 Hne) as [Hs Hf]. pose proof (first_seq_consecutive _ _ Hc1 Hx) as H1.
  pose proof (last_seq_consecutive _ _ Hc1 Hx) as H2. assert (0 < length x.2) by (destruct x.2; simpl; [done|lia]).
  rewrite fmap_cons. split; constructor; [done| | |].
  - eapply Forall_impl; [exact Hf|]. intros y [Hy _]. unfold name_lt. simpl. rewrite H1. lia.
  - simpl. rewrite H1, H2. lia.
  - eapply Forall_impl; [exact Hf|]. intros y [Hy ?]. simpl. split; [lia|done].
Qed.
#[local] Instance name_le_total : Total name_le.
Proof.
  intros x y. unfold name_le. rewrite !Is_true_true. rewrite !orb_true_iff, !andb_true_iff, !orb_true_iff, !andb_true_iff, !Z.ltb_lt, !Z.eqb_eq, !Z.leb_le. lia.
Qed.
#[local] Instance name_le_trans : Transitive name_le.
Proof.
  intros x y z. unfold name_le. rewrite !Is_true_true, !orb_true_iff, !andb_true_iff, !orb_true_iff, !andb_true_iff, !Z.ltb_lt, !Z.eqb_eq, !Z.leb_le. lia.
Qed.
#[local] Instance name_le_antisym : AntiSymm eq name_le.
Proof.
  intros [] []. unfold name_le. simpl. rewrite !Is_true_true, !orb_true_iff, !andb_true_iff, !orb_true_iff, !andb_true_iff, !Z.ltb_lt, !Z.eqb_eq, !Z.leb_le.
  intros. f_equal; lia.
Qed.
Lemma first_lt_name_le x y : name_lt x y -> name_le x y.
Proof. intros. unfold name_le. apply Is_true_true. apply orb_true_iff. left. by apply Z.ltb_lt. Qed.
#[local] Instance descriptor_le_total : Total descriptor_le.
Proof.
  intros x y. unfold descriptor_le. destruct (name_le_total (ds_name x) (ds_name y)) as [H|H]; rewrite Is_true_true in H;
  rewrite !Is_true_true, !orb_true_iff, !andb_true_iff, !Z.ltb_lt, !Z.eqb_eq, ?H; destruct (Z.lt_total (ds_first x) (ds_first y)) as [?|[?|?]]; auto.
Qed.
#[local] Instance descriptor_le_trans : Transitive descriptor_le.
Proof.
  intros x y z. unfold descriptor_le. rewrite !Is_true_true, !orb_true_iff, !andb_true_iff, !Z.ltb_lt, !Z.eqb_eq.
  intros [?|[? H1]] [?|[? H2]]; [left; lia|left; lia|left; lia|right]. split; [lia|].
  apply Is_true_true. etrans; by apply Is_true_true.
Qed.
Lemma StronglySorted_weaken {A} (R S : relation A) l : (forall x y, R x y -> S x y) -> StronglySorted R l -> StronglySorted S l.
Proof. intros HRS. induction 1; constructor; [done|]. eapply Forall_impl; [done|]. auto. Qed.
Lemma sorted_names_nodup (ns : list SegName) : StronglySorted name_lt ns -> NoDup ns.
Proof.
  induction 1 as [|n ns _ IH Hf]; constructor; [|done]. intros Hin. rewrite Forall_forall in Hf. specialize (Hf _ Hin). unfold name_lt in Hf. lia.
Qed.

Lemma rep_nonempty d chunks act : rep d chunks act -> Forall (fun x => x.2 <> []) chunks.
Proof. intros H. eapply Forall_impl; [apply (rep_names _ _ _ H)|]. by intros x [_ ?]. Qed.
Lemma rep_sorted d chunks act : rep d chunks act ->
  StronglySorted name_lt (name_of <$> chunks) /\
  Forall (fun x => (1 <= sn_first x)%Z /\ (sn_first x <= sn_last x)%Z) (name_of <$> chunks).
Proof.
  intros H. pose proof (rep_seqs _ _ _ H) as Hc. apply consecutive_app in Hc as [Hc _].
  destruct (names_sorted _ _ Hc (rep_nonempty _ _ _ H)) as [Hs Hf]. split; [done|].
  eapply Forall_impl; [exact Hf|]. intros x [? ?]. simpl in *. lia.
Qed.
Lemma rep_fst d chunks act : rep d chunks act -> fst <$> dk_segments d = name_of <$> chunks.
Proof.
  intros H. pose proof (rep_segs _ _ _ H) as E. unfold seg_shape in E.
  apply (f_equal (fmap fst)) in E. rewrite <- !list_fmap_compose in E. exact E.
Qed.
Lemma filter_all {A} (P : A -> Prop) `{forall x, Decision (P x)} (l : list A) : Forall P l -> filter P l = l.
Proof. induction 1 as [|x l Hx _ IH]; [done|]. rewrite filter_cons_True by done. by rewrite IH. Qed.
Lemma rep_paths d chunks act : rep d chunks act -> safe_segment_paths d = name_of <$> chunks.
Proof.
  intros H. unfold safe_segment_paths. rewrite (rep_fst _ _ _ H), filter_all.
  - destruct (rep_sorted _ _ _ H) as [Hs _]. apply (StronglySorted_unique name_le).
    + apply StronglySorted_merge_sort; apply _.
    + eapply StronglySorted_weaken; [|exact Hs]. apply first_lt_name_le.
    + apply merge_sort_Permutation.
  - apply Forall_fmap. eapply Forall_impl; [apply (rep_names _ _ _ H)|]. intros x [Hx _]. by apply Is_true_true.
Qed.
Lemma seg_lookup_shape d chunks x : seg_shape d = seg_of <$> chunks -> NoDup (name_of <$> chunks) -> x ∈ chunks ->
  seg_bytes (name_of x) d = Some (enc x.2).
Proof.
  unfold seg_shape, seg_bytes. generalize (dk_segments d). intros l. revert chunks.
  induction l as [|[m f] l IH]; intros [|y chunks] E Hnd Hx; try done; [by apply not_elem_of_nil in Hx|].
  cbn in E. injection E as Em Ef E. cbn. apply NoDup_cons in Hnd as [Hy Hnd]. apply elem_of_cons in Hx as [->|Hx].
  - rewrite decide_True by done. by rewrite <- Ef.
  - case_decide as Hm; [exfalso; apply Hy; rewrite <- Em, Hm; by apply list_elem_of_fmap_2|].
    by eapply IH.
Qed.
Lemma rep_seg_bytes d chunks act x : rep d chunks act -> x ∈ chunks -> seg_bytes (name_of x) d = Some (enc x.2).
Proof.
  intros H Hx. eapply seg_lookup_shape; [apply (rep_segs _ _ _ H)| |done].
  by apply sorted_names_nodup, (rep_sorted _ _ _ H).
Qed.
Lemma rep_chunk_good d chunks act x : rep d chunks act -> x ∈ chunks -> Forall good x.2.
Proof.
  intros H Hx. pose proof (rep_good _ _ _ H) as Hg. apply Forall_app in Hg as [Hg _].
  rewrite Forall_concat in Hg. rewrite Forall_forall in Hg. apply Hg. by apply list_elem_of_fmap_2.
Qed.
Lemma rep_act_good d chunks act : rep d chunks act -> Forall good act.
Proof. intros H. pose proof (rep_good _ _ _ H) as Hg. by apply Forall_app in Hg as [_ Hg]. Qed.

(** ** Reasoning about effects *)
(** [triple G I P m Q]: from a disk with [P], [m] returns with [Q], or raises and
    leaves a disk with [I]; without faults it raises only what [G] allows, and it
    returns only if no fault struck. [K] is kept of the cache. *)
Definition calm (w : World) : Prop := w_faults w = [].
Definition no_error (_ : log_error) : Prop := False.
Definition spared (fs fs' : list io_fault) : Prop := exists n, fs = replicate n IoOk ++ fs'.
Lemma spared_refl fs : spared fs fs.
Proof. by exists 0. Qed.
Lemma spared_trans fs1 fs2 fs3 : spared fs1 fs2 -> spared fs2 fs3 -> spared fs1 fs3.
Proof. intros [n ->] [m ->]. exists (n + m). by rewrite replicate_add, app_assoc. Qed.
Lemma spared_calm w w' : spared (w_faults w) (w_faults w') -> calm w -> calm w'.
Proof. unfold calm. intros [n ->] [_ ?]%app_eq_nil. done. Qed.
#[local] Hint Resolve spared_refl spared_trans spared_calm : core.
Context {K : Cache -> Prop}.
Definition triple {A} (G : log_error -> Prop) (I P : Disk -> Prop) (m : LogM A) (Q : A -> Disk -> Prop) : Prop :=
  forall w, P (w_disk w) -> K (w_cache w) ->
  match m w with
  | (w', Ret x) => Q x (w_disk w') /\ K (w_cache w') /\ spared (w_faults w) (w_faults w')
  | (w', Raise err) => I (w_disk w') /\ K (w_cache w') /\ (calm w -> G err)
  end.
Section rules.
Context {G : log_error -> Prop} {I : Disk -> Prop}.
Lemma triple_bind {A B} P (m : LogM A) Q (k : A -> LogM B) R :
  triple G I P m Q -> (forall x, triple G I (Q x) (k x) R) -> triple G I P (se_bind m k) R.
Proof.
  intros Hm Hk w HP HK. unfold se_bind. specialize (Hm w HP HK). destruct (m w) as [w1 [x|err]]; [|done].
  destruct Hm as (HQ & HK1 & Hc). specialize (Hk x w1 HQ HK1). destruct (k x w1) as [w2 [y|err]]; naive_solver eauto.
Qed.
Lemma triple_ret {A} (P : Disk -> Prop) (x : A) (Q : A -> Disk -> Prop) : (forall d, P d -> Q x d) -> triple G I P (se_ret x) Q.
Proof. intros H w HP HK. split; auto. Qed.
Lemma triple_raise {A} (P : Disk -> Prop) (err : log_error) (Q : A -> Disk -> Prop) : G err -> (forall d, P d -> I d) -> triple G I P (se_raise err) Q.
Proof. intros He H w HP HK. split; auto. Qed.
Lemma triple_get {A} (P : Disk -> Prop) (k : Disk -> LogM A) R :
  (forall d, P d -> triple G I (fun d' => d' = d) (k d) R) -> triple G I P (se_bind get_disk k) R.
Proof. intros H w HP HK. unfold se_bind, get_disk. by apply (H (w_disk w) HP w). Qed.
Lemma triple_open {A} (P : Disk -> Prop) (k : bytes -> LogM A) R :
  (forall d, P d -> exists b, dk_active d = Some b /\ triple G I (fun d' => d' = d) (k b) R) ->
  triple G I P (se_bind open_active_file k) R.
Proof.
  intros H w HP HK. unfold se_bind, open_active_file. destruct (H _ HP) as (b & -> & Hk). by apply (Hk w).
Qed.
Lemma triple_atomic (P : Disk -> Prop) f err (Q : unit -> Disk -> Prop) :
  (forall d, P d -> I d /\ I (f d) /\ Q tt (f d)) -> triple G I P (atomic f err) Q.
Proof.
  intros H w HP HK. destruct (H _ HP) as (H1 & H2 & H3). unfold atomic, effect, calm.
  destruct (w_faults w) as [|[|k| |k] l]; simpl; [naive_solver|by split; [|split; [|exists 1]]|naive_solver..|].
  split; [by destruct (k =? 0)|naive_solver].
Qed.
Lemma triple_write (P : Disk -> Prop) b (Q : unit -> Disk -> Prop) :
  (forall d, P d -> (forall k, I (append_active (take k b) d)) /\ Q tt (append_active b d)) -> triple G I P (write_active b) Q.
Proof.
  intros H w HP HK. destruct (H _ HP) as (H1 & H2). unfold write_active, effect, calm.
  pose proof (H1 (length b)) as H3. rewrite firstn_all in H3.
  destruct (w_faults w) as [|[|k| |k] l]; simpl; [naive_solver|by split; [|split; [|exists 1]]|naive_solver..].
Qed.
Lemma triple_pre {A} (P P' : Disk -> Prop) (m : LogM A) Q : (forall d, P d -> P' d) -> triple G I P' m Q -> triple G I P m Q.
Proof. intros H Hm w HP HK. apply Hm; auto. Qed.
Lemma triple_post {A} (P : Disk -> Prop) (m : LogM A) (Q Q' : A -> Disk -> Prop) :
  (forall x d, Q x d -> Q' x d) -> triple G I P m Q -> triple G I P m Q'.
Proof. intros H Hm w HP HK. specialize (Hm w HP HK). destruct (m w) as [w' [x|err]]; naive_solver. Qed.
Lemma triple_cache (P : Disk -> Prop) f (Q : unit -> Disk -> Prop) :
  (forall c, K c -> K (f c)) -> (forall d, P d -> Q tt d) -> triple G I P (upd_cache f) Q.
Proof. intros Hf H w HP HK. split; [auto|]. split; [by apply Hf|done]. Qed.
Lemma triple_lift {A B} P (o : outcome log_error A) (k : A -> LogM B) R :
  match o with Ret x => triple G I P (k x) R | Raise err => G err /\ (forall d, P d -> I d) end ->
  triple G I P (se_bind (se_lift o) k) R.
Proof. destruct o; intros H w HP HK; unfold se_bind, se_lift; [by apply H|]. destruct H. split; auto. Qed.
End rules.
Lemma triple_weaken {A} (G G' : log_error -> Prop) (I I' P : Disk -> Prop) (m : LogM A) Q :
  (forall err, G err -> G' err) -> (forall d, I d -> I' d) -> triple G I P m Q -> triple G' I' P m Q.
Proof.
  intros HG HI Hm w HP HK. specialize (Hm w HP HK). destruct (m w) as [w' [x|e]]; naive_solver.
Qed.

(** ** The tail *)
Lemma rep_set_active d chunks act (b : option bytes) :
  rep d chunks act -> active_of b act -> rep (set_active b d) chunks act.
Proof. intros [] H. by constructor. Qed.
Lemma enc_newline es : es = [] \/ last (enc es) = Some 10%N.
Proof.
  destruct es as [|e es _] using rev_ind; [by left|right]. rewrite enc_snoc, encode_body, app_assoc. apply last_snoc.
Qed.
Lemma line_start es t : 10%N ∉ t ->
  tail_line_start (S (length (enc es ++ t))) REVERSE_SCAN_CHUNK_SIZE (enc es ++ t) (length (enc es ++ t)) = length (enc es).
Proof.
  intros Ht. apply tail_line_start_spec; [apply chunk_positive|done| |lia|rewrite length_app; lia|done].
  destruct (enc_newline es) as [->|]; auto.
Qed.
Lemma last_not_newline t c : 10%N ∉ t -> last t = Some c -> (c =? 10)%N = false.
Proof. intros Ht (l & ->)%last_Some. apply N.eqb_neq. set_solver. Qed.
Lemma recover_spec chunks act : triple no_error (fun d => rep d chunks act)
  (fun d => rep d chunks act /\ dk_active d <> None) recover_torn_active_tail_locked
  (fun _ d => rep d chunks act /\ dk_active d = Some (enc act)).
Proof.
  unfold recover_torn_active_tail_locked. apply triple_open. intros d [H Ha].
  destruct (dk_active d) as [b|] eqn:Eb; [|done]. exists b. split; [done|].
  pose proof (rep_active _ _ _ H) as Hact. rewrite Eb in Hact. destruct Hact as [(t & -> & [->|Ht])|[Eb' Hne]].
  - rewrite app_nil_r in *. destruct (enc_newline act) as [->|Hl].
    + apply triple_ret. intros ? ->. done.
    + rewrite Hl. apply triple_ret. intros ? ->. done.
  - pose proof (torn_line _ Ht) as Htl. destruct (last (enc act ++ t)) as [c|] eqn:El.
    2: { apply last_None in El. destruct Ht as [Ht _]. destruct t; [done|]. by apply app_eq_nil in El as [_ ?]. }
    assert ((c =? 10)%N = false) as ->.
    { apply (last_not_newline t); [done|]. rewrite last_app in El. destruct (last t) eqn:E; [done|].
      apply last_None in E as ->. by destruct Ht. }
    rewrite line_start, drop_app_length by done.
    assert (triple no_error (fun d => rep d chunks act) (fun d' => d' = d) (truncate_active (length (enc act)))
      (fun _ d => rep d chunks act /\ dk_active d = Some (enc act))) as Htr.
    { apply triple_atomic. intros ? ->. rewrite Eb. simpl. rewrite take_app_length.
      assert (rep (set_active (Some (enc act)) d) chunks act); [|done].
      apply rep_set_active; [done|]. left. exists []. rewrite app_nil_r. auto. }
    destruct (torn_strict _ Ht) as [-> | ->]; done.
  - destruct act as [|e act _] using rev_ind; [done|]. rewrite enc_snoc, encode_body, app_assoc in Eb'.
    apply app_inj_2 in Eb' as [-> _]; [|done]. destruct (last (enc act ++ body e)) as [c|] eqn:El.
    2: { apply last_None, app_eq_nil in El as [_ E]. by apply body_nonempty in E. }
    assert ((c =? 10)%N = false) as ->.
    { apply (last_not_newline (body e)); [apply body_line|]. rewrite last_app in El. destruct (last (body e)) eqn:E; [done|].
      by apply last_None, body_nonempty in E. }
    rewrite line_start, drop_app_length by apply body_line.
    assert (good e) as He. { pose proof (rep_act_good _ _ _ H) as Hg. apply Forall_app in Hg as [_ Hg]. by apply Forall_cons in Hg as [? _]. }
    rewrite strict_body by done. apply triple_write. intros ? ->. unfold append_active. rewrite Eb. simpl.
    assert (rep (set_active (Some (enc (act ++ [e]))) d) chunks (act ++ [e])) as Hn.
    { apply rep_set_active; [done|]. left. exists []. rewrite app_nil_r. auto. }
    rewrite <- app_assoc, <- encode_body, <- enc_snoc. split; [|done]. intros [|k]; simpl.
    + rewrite app_nil_r. apply rep_set_active; [done|]. right. by rewrite enc_snoc, encode_body, app_assoc.
    + rewrite take_nil. rewrite <- app_assoc, <- encode_body, <- enc_snoc. done.
Qed.

(** ** Repair *)
Lemma shape_set_meta n meta d : seg_shape (set_seg_meta n meta d) = seg_shape d.
Proof.
  unfold seg_shape, set_seg_meta. simpl. rewrite <- list_fmap_compose. apply list_fmap_ext. intros i [m f] _. simpl.
  by destruct (decide (m = n)).
Qed.
Lemma rep_set_meta n meta d chunks act : rep d chunks act -> rep (set_seg_meta n meta d) chunks act.
Proof. intros []. constructor; simpl; [by rewrite shape_set_meta|done..]. Qed.
Definition settling (mo : option Manifest) chunks act (d : Disk) : Prop :=
  rep d chunks act /\ dk_active d = Some (enc act) /\ dk_manifest d = mo.
Lemma settling_set_meta mo n meta chunks act d : settling mo chunks act d -> settling mo chunks act (set_seg_meta n meta d).
Proof. intros (H & Ha & Hm). split; [by apply rep_set_meta|done]. Qed.
Lemma meta_descriptor n meta g x : segment_descriptor_from_meta n meta g = Some x -> x = desc_of n.
Proof.
  unfold segment_descriptor_from_meta, desc_of. intros H.
  repeat (apply bind_Some in H as (? & ? & H)). split_match; [done|].
  apply bind_Some in H as (? & ? & [= <-]). bool_prop. by repeat match goal with H : (_ =? _)%Z = true |- _ => apply Z.eqb_eq in H as -> end.
Qed.
Section repair.
Context (mo : option Manifest) (chunks : list (Z * list LogEntry)) (act : list LogEntry).
Abbreviation P0 := (settling mo chunks act).
Abbreviation I0 := (fun d => rep d chunks act).
Lemma triple_set_meta n meta : triple no_error I0 P0 (write_seg_meta n meta) (fun _ => P0).
Proof.
  apply triple_atomic. intros d H. split; [apply H|]. split; [apply rep_set_meta, H|by apply settling_set_meta].
Qed.
Lemma ensure_spec n id f l : triple no_error I0 P0 (ensure_segment_sidecar_from_descriptor n id f l) (fun _ => P0).
Proof.
  unfold ensure_segment_sidecar_from_descriptor. apply triple_get. intros d Hd.
  destruct (match seg_meta n d with Some m => _ | None => _ end) as [meta|].
  { apply triple_ret. by intros ? ->. }
  destruct (match _ ≫= _ with Some p => p | None => _ end) as [[[i f'] l'] g].
  eapply triple_bind; [eapply triple_pre; [|apply triple_set_meta]; by intros ? ->|].
  intros []. by apply triple_ret.
Qed.
(** [repaired_by_id] holds descriptors of segments, at most one of each. *)
Definition repaired_ok (l : list Descriptor) : Prop :=
  Forall (fun x => x = desc_of (ds_name x) /\ ds_name x ∈ name_of <$> chunks) l /\ NoDup (ds_name <$> l).
Lemma put_names x l n : n ∈ ds_name <$> put_descriptor x l <-> n = ds_name x \/ n ∈ ds_name <$> l.
Proof.
  induction l as [|y l IH]; simpl; [set_solver|]. case_decide as E; simpl; set_solver.
Qed.
Lemma put_ok n l : n ∈ name_of <$> chunks -> repaired_ok l -> repaired_ok (put_descriptor (desc_of n) l).
Proof.
  intros Hn [Hf Hnd]. split.
  - induction Hf as [|y l [Hy Hy'] Hf IH]; simpl; [by repeat constructor|].
    apply NoDup_cons in Hnd as [_ Hnd]. case_decide; constructor; auto.
  - clear Hf. induction l as [|y l IH]; simpl; [constructor; [set_solver|constructor]|].
    apply NoDup_cons in Hnd as [Hy Hnd]. case_decide as E; rewrite fmap_cons.
    + constructor; [by rewrite <- E|done].
    + constructor; [|by apply IH]. rewrite put_names. by intros [?|?].
Qed.
Lemma put_option_ok n meta g l : n ∈ name_of <$> chunks -> repaired_ok l ->
  repaired_ok (put_option (segment_descriptor_from_meta n meta g) l).
Proof.
  intros Hn Hl. destruct (segment_descriptor_from_meta n meta g) as [x|] eqn:E; [|done].
  apply meta_descriptor in E as ->. by apply put_ok.
Qed.
Lemma repair_rows_spec rows l : Forall (fun r => r.1 ∈ name_of <$> chunks) rows -> repaired_ok l ->
  triple no_error I0 P0 (repair_rows rows l) (fun l' d => P0 d /\ repaired_ok l').
Proof.
  intros Hr. revert l. induction Hr as [|[n [|p id f la]] rows Hn _ IH]; intros l Hl; simpl.
  - by apply triple_ret.
  - by apply IH.
  - eapply triple_bind; [apply ensure_spec|]. intros meta. by apply IH, put_option_ok.
Qed.
(** A segment whose sidecar does not describe it is scanned. *)
Lemma from_file_spec n : n ∈ name_of <$> chunks ->
  triple no_error I0 P0 (segment_descriptor_from_file n) (fun x d => P0 d /\ x = Some (desc_of n)).
Proof.
  intros (x & -> & Hx)%list_elem_of_fmap. unfold segment_descriptor_from_file. apply triple_get. intros d Hd.
  rewrite (rep_seg_bytes _ _ _ _ (proj1 Hd) Hx), range_enc by (by eapply rep_chunk_good; [apply Hd|]).
  destruct (rep_sorted _ _ _ (proj1 Hd)) as [_ Hf]. rewrite Forall_fmap, Forall_forall in Hf.
  destruct (Hf _ Hx) as [H1 H2]. simpl in *. rewrite !Z.eqb_refl, !andb_false_r. simpl. unfold or_else.
  destruct (Z.eqb_spec (first_seq x.2) 0), (Z.eqb_spec (last_seq x.2) 0); [lia..|].
  destruct (Z.leb_spec (first_seq x.2) 0), (Z.ltb_spec (last_seq x.2) (first_seq x.2)); [lia..|]. simpl.
  eapply triple_bind; [eapply triple_pre; [|apply triple_set_meta]; by intros ? ->|].
  intros []. apply triple_ret. intros d' Hd'. split; [done|]. unfold segment_descriptor_from_meta. simpl.
  rewrite bool_decide_true, !Z.eqb_refl by done. simpl.
  destruct (Z.leb_spec (first_seq x.2) 0), (Z.ltb_spec (last_seq x.2) (first_seq x.2)); [lia..|]. done.
Qed.
Lemma repair_paths_spec paths l : Forall (fun n => n ∈ name_of <$> chunks) paths -> repaired_ok l ->
  triple no_error I0 P0 (repair_paths paths l)
    (fun l' d => P0 d /\ repaired_ok l' /\ forall n, n ∈ paths \/ n ∈ ds_name <$> l -> n ∈ ds_name <$> l').
Proof.
  intros Hp. revert l. induction Hp as [|n paths Hn _ IH]; intros l Hl; simpl.
  - apply triple_ret. intros d Hd. split; [done|]. split; [done|]. set_solver.
  - apply triple_get. intros d Hd.
    eapply (triple_bind _ _ (fun x d => P0 d /\ x = Some (desc_of n))).
    + assert (triple no_error I0 (fun d' => d' = d) (segment_descriptor_from_file n) (fun x d => P0 d /\ x = Some (desc_of n))) as Hff.
      { eapply triple_pre; [|by apply from_file_spec]. by intros ? ->. }
      destruct (seg_meta n d) as [m|]; [|done]. destruct (sm_current m); [|done].
      destruct (segment_descriptor_from_meta n m None) as [x|] eqn:E; [|done].
      apply meta_descriptor in E as ->. apply triple_ret. by intros ? ->.
    + intros x w [Hd' ->] HK. specialize (IH (put_descriptor (desc_of n) l) (put_ok _ _ Hn Hl) w Hd' HK).
      simpl. destruct (repair_paths paths _ w) as [w' [l'|e]]; [|done].
      destruct IH as [(? & ? & Hin) ?]. split; [|done]. do 2 (split; [done|]).
      intros n' [[->|?]%elem_of_cons|?]; apply Hin; rewrite put_names; auto.
Qed.
(** Sorted, what has been repaired is the segments. *)
Lemma sorted_repaired d l : rep d chunks act -> repaired_ok l -> (forall n, n ∈ name_of <$> chunks -> n ∈ ds_name <$> l) ->
  merge_sort descriptor_le l = (fun x => desc_of (name_of x)) <$> chunks.
Proof.
  intros H [Hf Hnd] Hall. destruct (rep_sorted _ _ _ H) as [Hs _].
  assert (l = desc_of <$> (ds_name <$> l)) as El.
  { rewrite <- list_fmap_compose. rewrite <- (list_fmap_id l) at 1. apply list_fmap_ext. intros i x Hx.
    rewrite Forall_lookup in Hf. by apply Hf in Hx as [? _]. }
  assert (ds_name <$> l ≡ₚ name_of <$> chunks) as Hp.
  { apply NoDup_Permutation; [done|by apply sorted_names_nodup|]. intros n. split; [|apply Hall].
    intros (x & -> & Hx)%list_elem_of_fmap. rewrite Forall_forall in Hf. by apply Hf. }
  rewrite (list_fmap_compose name_of desc_of). apply (StronglySorted_unique_strong descriptor_le).
  - intros x y Hx (n & -> & _)%list_elem_of_fmap H1 H2. rewrite merge_sort_Permutation in Hx.
    rewrite Forall_forall in Hf. destruct (Hf _ Hx) as [Ex _]. rewrite Ex in *. f_equal. simpl in *.
    apply (anti_symm name_le); unfold descriptor_le in H1, H2; simpl in *;
    rewrite Is_true_true, orb_true_iff, andb_true_iff, Z.ltb_lt, Z.eqb_eq in H1, H2; apply Is_true_true;
    destruct H1 as [?|[? ?]], H2 as [?|[? ?]]; (done || lia).
  - apply StronglySorted_merge_sort; apply _.
  - eapply StronglySorted_fmap; [|exact Hs]. intros x y Hxy. unfold descriptor_le.
    apply Is_true_true, orb_true_iff. left. by apply Z.ltb_lt.
  - by rewrite merge_sort_Permutation, El, Hp at 1.
Qed.
End repair.

(** The last sequence of the stream is that of the active file, or of the last
    segment; no segment ends after it. *)
Lemma chunk_last_le chunks act x : consecutive le_seq 1 (stream chunks act) -> x ∈ chunks -> x.2 <> [] ->
  (last_seq x.2 <= Z.of_nat (length (stream chunks act)))%Z.
Proof.
  intros Hc (l1 & l2 & ->)%list_elem_of_split Hx. unfold stream in *. rewrite fmap_app, concat_app in *. simpl in *.
  rewrite <- !app_assoc in *. apply consecutive_app in Hc as [_ Hc]. apply consecutive_app in Hc as [Hc _].
  rewrite (last_seq_consecutive _ _ Hc Hx), !length_app. lia.
Qed.
Lemma max_list_le (d b : Z) l : (d <= b)%Z -> Forall (fun z => z <= b)%Z l -> (max_list d l <= b)%Z.
Proof. intros Hd. induction 1; simpl; lia. Qed.
Lemma max_list_ge (d z : Z) l : z = d \/ z ∈ l -> (z <= max_list d l)%Z.
Proof. induction l as [|y l IH]; simpl; [set_solver by lia|]. intros [->|[->|?]%elem_of_cons]; [|lia|]; (etrans; [apply IH|]; auto; lia). Qed.
Definition descs chunks : list Descriptor := (fun x => desc_of (name_of x)) <$> chunks.
Lemma repaired_latest m chunks act : consecutive le_seq 1 (stream chunks act) -> Forall good (stream chunks act) ->
  Forall (fun x => x.2 <> []) chunks -> (mf_latest m <= Z.of_nat (length (stream chunks act)))%Z ->
  mf_latest (repaired_manifest m (descs chunks) (Some (enc act))) = Z.of_nat (length (stream chunks act)).
Proof.
  intros Hc Hg Hne Hm. unfold repaired_manifest. apply Forall_app in Hg as [_ Hg]. rewrite bounds_enc by done. simpl.
  set (n := Z.of_nat (length (stream chunks act))) in *.
  set (sl := match descs chunks with [] => 0%Z | x :: l => max_list (ds_last x) (ds_last <$> l) end).
  assert (last_seq act <= n)%Z as Ha.
  { destruct (decide (act = [])) as [->|Hn]; [unfold last_seq; simpl; lia|]. apply consecutive_app in Hc as [_ Hc].
    rewrite (last_seq_consecutive _ _ Hc Hn). unfold n. rewrite stream_length_app. lia. }
  assert (sl <= n)%Z as Hsl.
  { unfold sl, descs. destruct chunks as [|x l]; [simpl; lia|]. simpl.
    assert (forall y, y ∈ x :: l -> last_seq y.2 <= n)%Z as Hy.
    { intros y Hy. apply chunk_last_le; [done..|]. rewrite Forall_forall in Hne. by apply Hne. }
    apply max_list_le; [apply Hy; set_solver|]. rewrite !Forall_fmap. apply Forall_forall. intros y Hin. apply Hy. set_solver. }
  assert (act = [] -> chunks <> [] -> n <= sl)%Z as Hn.
  { intros -> Hcn. destruct chunks as [|x l _] using rev_ind; [done|]. apply Forall_app in Hne as [_ [Hx _]%Forall_cons].
    assert (last_seq x.2 = n) as <-.
    { unfold n, stream in *. rewrite app_nil_r, fmap_app, concat_app in *. simpl in *. rewrite app_nil_r in *.
      apply consecutive_app in Hc as [_ Hc]. rewrite (last_seq_consecutive _ _ Hc Hx), length_app. lia. }
    unfold sl, descs. rewrite fmap_app. destruct l as [|y l]; simpl; [lia|]. apply max_list_ge. right.
    rewrite !fmap_app. set_solver. }
  destruct (decide (act = [])) as [Ea|Ea]; [destruct (decide (chunks = [])) as [Ec|Ec]|].
  - assert (n = 0%Z) as -> by (unfold n; rewrite Ea, Ec; done). rewrite Ea in *. unfold last_seq in *. simpl in *.
    unfold sl in *. rewrite Ec in *. simpl in *. lia.
  - specialize (Hn Ea Ec). lia.
  - apply consecutive_app in Hc as [_ Hc]. rewrite (last_seq_consecutive _ _ Hc Ea) in *. unfold n in *. rewrite stream_length_app in *. lia.
Qed.
Lemma rep_set_manifest d chunks act m : rep d chunks act -> (mf_latest m <= Z.of_nat (length (stream chunks act)))%Z ->
  (chunks = [] -> mf_rows m = Some []) -> rep (set_manifest m d) chunks act.
Proof. intros [] Hl Hr. by constructor. Qed.
Lemma rep_set_active_meta d chunks act g : rep d chunks act -> rep (set_active_meta g d) chunks act.
Proof. intros []. by constructor. Qed.
Lemma settled_set_active_meta d chunks act g : settled d chunks act -> settled (set_active_meta g d) chunks act.
Proof. intros []. constructor; [by apply rep_set_active_meta|done..]. Qed.
Lemma manifest_rows_ok paths raw : Forall (fun r => r.1 ∈ paths) (manifest_rows paths raw).1.
Proof.
  destruct raw as [rows|]; simpl; [|constructor]. apply Forall_forall. intros [n r] (r' & Hr' & E)%list_elem_of_omap.
  destruct r' as [|[p|] id f l]; try done. case_bool_decide; by simplify_eq/=.
Qed.
Lemma settled_manifest_written d chunks act m : settling (Some m) chunks act d \/ settling None chunks act d /\ m = new_manifest ->
  settled (set_manifest (repaired_manifest m (descs chunks) (Some (enc act))) d) chunks act.
Proof.
  intros Hd. assert (rep d chunks act /\ dk_active d = Some (enc act) /\ (mf_latest m <= Z.of_nat (length (stream chunks act)))%Z) as (H & Ha & Hm).
  { destruct Hd as [(H & ? & Hm)|[(H & ? & Hm) ->]]; (split; [done|]); (split; [done|]); [|simpl; lia].
    pose proof (rep_latest _ _ _ H) as Hl. by rewrite Hm in Hl. }
  pose proof (repaired_latest m chunks act (rep_seqs _ _ _ H) (rep_good _ _ _ H) (rep_nonempty _ _ _ H) Hm) as El.
  assert (mf_rows (repaired_manifest m (descs chunks) (Some (enc act))) = Some ((fun x => row_of (desc_of (name_of x))) <$> chunks)) as Er.
  { unfold repaired_manifest. destruct (seq_bounds_for_file _). simpl. unfold descs. by rewrite <- list_fmap_compose. }
  constructor; simpl; [|done|done].
  apply rep_set_manifest; [done|by rewrite El|]. intros ->. by rewrite Er.
Qed.
Lemma repair_segments_spec mo chunks act rows : Forall (fun r => r.1 ∈ name_of <$> chunks) rows ->
  triple no_error (fun d => rep d chunks act) (settling mo chunks act) (repair_segments (name_of <$> chunks) rows)
    (fun l d => settling mo chunks act d /\ l = descs chunks).
Proof.
  intros Hr. unfold repair_segments. eapply triple_bind; [apply repair_rows_spec; [done|by split; constructor]|].
  intros l1 w [Hw Hl1] HK. pose proof (repair_paths_spec mo chunks act (name_of <$> chunks) l1) as Hp.
  specialize (Hp ltac:(by apply Forall_forall) Hl1 w Hw HK). unfold se_bind.
  destruct (repair_paths _ _ w) as [w' [l2|]]; [|done]. destruct Hp as [(Hd & Hok & Hin) Hc]. split; [|done].
  split; [done|]. eapply sorted_repaired; [apply Hd|done|]. intros n Hn. apply Hin. by left.
Qed.
Lemma publish_spec mo chunks act : ~ (mo = None /\ chunks = []) ->
  triple no_error (fun d => rep d chunks act) (settling mo chunks act) (publish_repaired mo (Some (enc act)) (descs chunks))
    (fun _ d => settled d chunks act).
Proof.
  intros Hne. unfold publish_repaired. assert (bool_decide (descs chunks = []) && is_none mo = false) as ->.
  { destruct mo, chunks; try done. naive_solver. }
  eapply (triple_bind _ _ (fun _ d => settled d chunks act)).
  { apply triple_atomic. intros d Hd. split; [apply Hd|]. apply and_wlog_l; [apply settled_rep|].
    apply settled_manifest_written. destruct mo; [by left|by right]. }
  intros []. apply triple_open. intros d Hd. exists (enc act). split; [apply (settled_active _ _ _ Hd)|].
  apply triple_get. intros ? ->. destruct (match dk_active_meta d with Some _ => _ | None => _ end); [|by apply triple_ret; intros ? ->].
  apply triple_atomic. intros ? ->. split; [apply Hd|]. apply and_wlog_l; [apply settled_rep|]. by apply settled_set_active_meta.
Qed.
Lemma repair_spec chunks act : triple no_error (fun d => rep d chunks act)
  (fun d => rep d chunks act /\ dk_active d <> None) repair_manifest_locked (fun _ d => settled d chunks act).
Proof.
  unfold repair_manifest_locked. eapply triple_bind; [apply recover_spec|]. intros [].
  apply triple_get. intros d [H Ha]. rewrite (rep_paths _ _ _ H).
  destruct (is_none (dk_manifest d) && bool_decide (name_of <$> chunks = [])) eqn:Ee.
  { apply andb_true_iff in Ee as [Em Ec%bool_decide_eq_true%fmap_nil_inv]. destruct (dk_manifest d) eqn:Em'; [done|].
    apply triple_ret. intros ? ->. constructor; [done..|]. by rewrite Em'. }
  destruct (manifest_rows _ _) as [rows rebuild] eqn:Er.
  pose proof (manifest_rows_ok (name_of <$> chunks) (mf_rows (default new_manifest (dk_manifest d)))) as Hrows.
  rewrite Er in Hrows. simpl in Hrows.
  assert (~ (dk_manifest d = None /\ chunks = [])) as Hne.
  { intros [Em ->]. by rewrite Em in Ee. }
  assert (rebuild && bool_decide (name_of <$> chunks = []) = false) as ->.
  { destruct chunks as [|x l]; [|by destruct rebuild]. destruct (dk_manifest d) as [m|] eqn:Em; [|naive_solver].
    pose proof (rep_rows _ _ _ H eq_refl) as Hr. rewrite Em in Hr. simpl in Er. rewrite Hr in Er. by injection Er as <- <-. }
  eapply triple_bind.
  { eapply triple_pre; [|apply (repair_segments_spec (dk_manifest d))]; [by intros ? ->|]. by destruct rebuild. }
  intros l w [Hw ->] HK. rewrite Ha. by apply publish_spec.
Qed.

End laws.
End SessionStorage.
