(* ===== verification/SessionQueries.v ===== *)
(** * SessionQueries: what a query of the session log returns

    On a settled disk the view is the stream in order, a query is the first
    entries that match in the direction asked for, the strict scan is the stream
    itself, and the offset cache only ever skips entries that the query would
    have skipped. *)
From stdpp Require Import sorting.
From S2P Require Import Prelude SessionLog SessionStorage.

Module SessionQueries.
Import SessionLog SessionStorage.
Section queries.
Context {env : LogEnv} {laws : LogLaws}.
Implicit Types (e : LogEntry) (es : list LogEntry) (spec : QuerySpec) (c : Cache).
Implicit Types (chunks : list (Z * list LogEntry)) (act : list LogEntry).

Definition take_opt {A} (limit : option nat) (l : list A) : list A :=
  match limit with None => l | Some n => take n l end.
(** The entries in range that match *)
Definition sel spec e : bool :=
  negb (before_start spec (le_seq e)) && negb (past_end spec (le_seq e)) && matches_entry e spec.
Definition found spec es : list LogEntry := filter (sel spec) es.
Lemma found_app spec es1 es2 : found spec (es1 ++ es2) = found spec es1 ++ found spec es2.
Proof. apply filter_app. Qed.
Lemma found_cons spec e es : found spec (e :: es) = if sel spec e then e :: found spec es else found spec es.
Proof.
  unfold found. rewrite filter_cons. destruct (sel spec e); [by rewrite decide_True|]. by rewrite decide_False by (simpl; tauto).
Qed.
Lemma found_none spec es : Forall (fun e => sel spec e = false) es -> found spec es = [].
Proof. induction 1 as [|e es He _ IH]; [done|]. by rewrite found_cons, He. Qed.
Lemma sel_before spec e : before_start spec (le_seq e) = true -> sel spec e = false.
Proof. unfold sel. by intros ->. Qed.
Lemma sel_past spec e : past_end spec (le_seq e) = true -> sel spec e = false.
Proof. unfold sel. intros ->. by rewrite andb_false_r. Qed.
Lemma before_start_mono spec s1 s2 : (s1 <= s2)%Z -> before_start spec s2 = true -> before_start spec s1 = true.
Proof. unfold before_start. destruct (qs_after_seq spec); [|done]. rewrite !Z.ltb_lt. lia. Qed.
Lemma past_end_mono spec s1 s2 : (s1 <= s2)%Z -> past_end spec s1 = true -> past_end spec s2 = true.
Proof. unfold past_end. destruct (qs_before_seq spec); [|done]. rewrite !Z.ltb_lt. lia. Qed.
(** Sequences grow along the stream: every entry of [es] is between [lo] and [hi]. *)
Lemma consecutive_bounds n es : consecutive le_seq n es -> Forall (fun e => n <= le_seq e <= n + Z.of_nat (length es) - 1)%Z es.
Proof.
  revert n. induction es as [|e es IH]; intros n; [constructor|]. intros [He Hc]. rewrite length_cons.
  constructor; [lia|]. eapply Forall_impl; [by apply IH|]. intros e' He'. cbv beta in *. lia.
Qed.
Lemma found_past spec n es : consecutive le_seq n es -> past_end spec n = true -> found spec es = [].
Proof.
  intros Hc Hp. apply found_none. eapply Forall_impl; [by apply consecutive_bounds|].
  intros e He. cbv beta in He. apply sel_past. eapply past_end_mono; [|done]. lia.
Qed.
Lemma found_before spec n es : consecutive le_seq n es -> before_start spec (n + Z.of_nat (length es) - 1) = true -> found spec es = [].
Proof.
  intros Hc Hp. apply found_none. eapply Forall_impl; [by apply consecutive_bounds|].
  intros e He. cbv beta in He. apply sel_before. eapply before_start_mono; [|done]. lia.
Qed.
Lemma take_opt_cons {A} limit (x : A) l : limit <> Some 0 -> limit <> Some 1 -> take_opt limit (x :: l) = x :: take_opt (pred <$> limit) l.
Proof. destruct limit as [[|n]|]; done. Qed.

(** ** One file *)
Lemma asc_lines_found spec identity limit offset n es c : consecutive le_seq n es -> Forall good es -> limit <> Some 0 ->
  (asc_lines spec identity limit offset (encode_entry <$> es) c).1.1 = take_opt limit (found spec es).
Proof.
  revert limit offset n c. induction es as [|e es IH]; intros limit offset n c Hc Hg Hl; [by destruct limit as [[]|]|].
  apply Forall_cons in Hg as [He Hg]. destruct Hc as [Hn Hc]. rewrite fmap_cons. cbn [asc_lines].
  rewrite parse_line by done. set (c1 := match identity with Some _ => _ | None => _ end).
  rewrite found_cons. destruct (before_start spec (le_seq e)) eqn:Hb.
  { rewrite (sel_before _ _ Hb). by eapply IH. }
  destruct (past_end spec (le_seq e)) eqn:Hp.
  { rewrite (sel_past _ _ Hp), (found_past spec (n + 1)); [by destruct limit as [[]|]|done|].
    eapply past_end_mono; [|done]. lia. }
  unfold sel. rewrite Hb, Hp. simpl. destruct (matches_entry e spec); simpl; [|by eapply IH].
  case_bool_decide as H1; [by rewrite H1|].
  specialize (IH (pred <$> limit) (offset + length (encode_entry e)) _ c1 Hc Hg).
  destruct (asc_lines _ _ _ _ _ _) as [[r b] c'] eqn:E. simpl in *. rewrite take_opt_cons, <- IH; [done| |done|done].
  destruct limit as [[|[|m]]|]; done.
Qed.
Lemma desc_lines_found spec limit last n es : consecutive le_seq n es -> Forall good es -> limit <> Some 0 ->
  desc_lines spec limit (marked last (reverse (body <$> es))) = take_opt limit (reverse (found spec es)).
Proof.
  intros Hc Hg. revert limit last. induction es as [|e es IH] using rev_ind; intros limit last Hl; [by destruct limit as [[]|]|].
  apply Forall_app in Hg as [Hg [He _]%Forall_cons]. apply consecutive_app in Hc as [Hc [Hn _]].
  rewrite fmap_app, reverse_app. simpl. rewrite parse_body by done.
  assert (forall limit, limit <> Some 0 -> desc_lines spec limit ((λ l, (l, false)) <$> reverse (body <$> es)) = take_opt limit (reverse (found spec es))) as IH'.
  { intros l' Hl'. rewrite <- (IH Hc Hg l' false Hl'). by destruct (reverse _). }
  rewrite found_app, reverse_app, found_cons. destruct (past_end spec (le_seq e)) eqn:Hp.
  { rewrite (sel_past _ _ Hp). by apply IH'. }
  destruct (before_start spec (le_seq e)) eqn:Hb.
  { rewrite (sel_before _ _ Hb), (found_before spec n es); [destruct limit as [[]|]; reflexivity|done|].
    eapply before_start_mono; [|done]. lia. }
  unfold sel. rewrite Hb, Hp. simpl. destruct (matches_entry e spec); simpl; [|by apply IH'].
  case_bool_decide as H1; [by rewrite H1|]. rewrite take_opt_cons by done. rewrite IH'; [done|].
  destruct limit as [[|[|m]]|]; done.
Qed.

(** ** The offset cache *)
Lemma enc_inj es1 es2 : Forall good es1 -> Forall good es2 -> enc es1 = enc es2 -> es1 = es2.
Proof.
  intros H1 H2 E. rewrite <- (omap_parse es1), <- (omap_parse es2) by done. by rewrite <- !file_lines_enc', E.
Qed.
(** [s] is the sequence of an entry that starts at [o]. *)
Definition starts_at es (s : Z) (o : nat) : Prop :=
  exists es1 e es2, es = es1 ++ e :: es2 /\ le_seq e = s /\ o = length (enc es1).
Record cache_for c es : Prop := {
  cache_starts s o : ca_offsets c !! s = Some o -> starts_at es s o;
  cache_complete : ca_complete c = true -> Forall (fun e => le_seq e <= ca_max c)%Z es
}.
(** What the cache has learned of a file whose entries are in order is right. *)
Definition cache_ok c : Prop :=
  forall n es, consecutive le_seq n es -> Forall good es -> ca_identity c = Some (enc es) -> cache_for c es.
Lemma cache_ok_at c n es : cache_ok c -> consecutive le_seq n es -> Forall good es ->
  cache_for (refresh (Some (enc es)) c) es.
Proof.
  intros Hc Hn Hg. unfold refresh. case_decide as E; [by eapply Hc|]. constructor; [|done]. intros s o. simpl. by rewrite lookup_empty.
Qed.
Lemma cache_ok_of c es : Forall good es -> ca_identity c = Some (enc es) -> cache_for c es -> cache_ok c.
Proof.
  intros Hg Hi Hf n es' Hc' Hg' Hi'. rewrite Hi in Hi'. injection Hi' as E. by apply enc_inj in E as <-.
Qed.
Lemma cache_ok_clear : cache_ok cache_clear.
Proof. intros n es _ _. done. Qed.
Lemma cache_ok_refresh identity c : cache_ok c -> cache_ok (refresh identity c).
Proof.
  intros Hc. unfold refresh. case_decide; [done|]. intros n es _ _ _. constructor; [|done]. intros s o. simpl. by rewrite lookup_empty.
Qed.
Lemma refresh_identity identity c : ca_identity (refresh identity c) = identity.
Proof. unfold refresh. by case_decide. Qed.
Lemma starting_offset_ok spec c n es start c' : cache_ok c -> consecutive le_seq n es -> Forall good es ->
  starting_offset_for_seq (qs_after_seq spec) (Some (enc es)) c = (start, c') ->
  cache_ok c' /\ exists es1 es2, es = es1 ++ es2 /\ start = length (enc es1) /\
    Forall (fun e => before_start spec (le_seq e) = true) es1 /\
    (start = 0 \/ ca_identity c' = Some (enc es) /\ (es2 = [] -> ca_complete c' = true)).
Proof.
  intros Hok Hc Hg. unfold starting_offset_for_seq, before_start. destruct (qs_after_seq spec) as [after|].
  2: { intros [= <- <-]. split; [done|]. exists [], es. auto. }
  destruct (after <=? 1)%Z. { intros [= <- <-]. split; [done|]. exists [], es. auto. }
  pose proof (cache_ok_refresh (Some (enc es)) _ Hok) as Hr. pose proof (cache_ok_at _ _ _ Hok Hc Hg) as [Hs Hcomp].
  pose proof (refresh_identity (Some (enc es)) c) as Hid.
  assert (forall s o, ca_offsets (refresh (Some (enc es)) c) !! s = Some o -> (s <= after)%Z ->
    exists es1 es2, es = es1 ++ es2 /\ o = length (enc es1) /\ Forall (fun e => (le_seq e <? after)%Z = true) es1 /\ es2 <> []) as Hpre.
  { intros s o Ho Hle. destruct (Hs _ _ Ho) as (es1 & e & es2 & -> & <- & ->). exists es1, (e :: es2).
    split; [done|]. split; [done|]. split; [|done]. apply consecutive_app in Hc as [H1 [H2 _]].
    eapply Forall_impl; [by apply consecutive_bounds|]. intros x Hx. cbv beta in Hx. apply Z.ltb_lt. lia. }
  destruct (ca_offsets _ !! after) as [o|] eqn:Eo.
  { intros [= <- <-]. split; [done|]. destruct (Hpre _ _ Eo) as (es1 & es2 & -> & -> & ? & ?); [lia|]. naive_solver. }
  destruct (ca_complete _ && _) eqn:E1.
  { intros [= <- <-]. apply andb_true_iff in E1 as [E1 Hlt%Z.ltb_lt]. split; [done|]. exists es, []. rewrite app_nil_r.
    do 2 (split; [done|]). split; [|by right]. eapply Forall_impl; [by apply Hcomp|]. intros e He. cbv beta in He. apply Z.ltb_lt. lia. }
  destruct ((0 <? _)%Z && _) eqn:E2.
  2: { intros [= <- <-]. split; [done|]. exists [], es. auto. }
  apply andb_true_iff in E2 as [_ Hlt%Z.ltb_lt]. intros [= <- <-]. split; [done|].
  destruct (ca_offsets _ !! ca_max _) as [o|] eqn:Em; simpl; [|by exists [], es; auto].
  destruct (Hpre _ _ Em) as (es1 & es2 & -> & -> & ? & ?); [lia|]. naive_solver.
Qed.
Lemma cache_update_ok c n es1 e es2 : cache_ok c -> consecutive le_seq n (es1 ++ e :: es2) -> Forall good (es1 ++ e :: es2) ->
  cache_ok (cache_update (le_seq e) (length (enc es1)) (Some (enc (es1 ++ e :: es2))) c) /\
  ca_identity (cache_update (le_seq e) (length (enc es1)) (Some (enc (es1 ++ e :: es2))) c) = Some (enc (es1 ++ e :: es2)) /\
  (le_seq e <= ca_max (cache_update (le_seq e) (length (enc es1)) (Some (enc (es1 ++ e :: es2))) c))%Z /\
  (ca_identity c = Some (enc (es1 ++ e :: es2)) ->
   ca_max c <= ca_max (cache_update (le_seq e) (length (enc es1)) (Some (enc (es1 ++ e :: es2))) c))%Z.
Proof.
  intros Hok Hc Hg. set (es := es1 ++ e :: es2) in *. unfold cache_update. set (r := refresh (Some (enc es)) c).
  pose proof (cache_ok_at _ _ _ Hok Hc Hg) as [Hs Hcomp]. fold r in Hs, Hcomp.
  assert (ca_identity r = Some (enc es)) as Hid by apply refresh_identity. simpl.
  split; [|split; [done|split; [destruct (Z.ltb_spec (ca_max r) (le_seq e)); lia|]]].
  - eapply cache_ok_of; [done|done|]. constructor; simpl.
    + assert (starts_at es (le_seq e) (length (enc es1))) as Hst by (exists es1, e, es2; auto).
      assert (forall s o, <[le_seq e := length (enc es1)]> (ca_offsets r) !! s = Some o -> starts_at es s o) as Hins.
      { intros s o [[<- <-]|[_ ?]]%lookup_insert_Some; auto. }
      intros s o. destruct (ca_offsets r !! le_seq e); [split_match|]; auto.
    + intros Hcm. eapply Forall_impl; [by apply Hcomp|]. intros x Hx. cbv beta in *. destruct (Z.ltb_spec (ca_max r) (le_seq e)); lia.
  - intros Hi. unfold r, refresh. rewrite decide_True by done. destruct (Z.ltb_spec (ca_max c) (le_seq e)); lia.
Qed.
(** A scan of [es2], the end of a file of entries, keeps the cache right; a
    complete one has seen every sequence. *)
Record learned (file : bytes) es2 c (complete : bool) c' : Prop := {
  learned_ok : cache_ok c';
  learned_more : ca_identity c = Some file -> ca_identity c' = Some file /\ (ca_max c <= ca_max c')%Z;
  learned_all : complete = true -> es2 = [] /\ c' = c \/ ca_identity c' = Some file /\ Forall (fun e => le_seq e <= ca_max c')%Z es2
}.
Lemma learned_cons c n es1 e es2 b c1 c' : c1 = cache_update (le_seq e) (length (enc es1)) (Some (enc (es1 ++ e :: es2))) c ->
  cache_ok c -> consecutive le_seq n (es1 ++ e :: es2) -> Forall good (es1 ++ e :: es2) ->
  (cache_ok c1 -> learned (enc (es1 ++ e :: es2)) es2 c1 b c') -> learned (enc (es1 ++ e :: es2)) (e :: es2) c b c'.
Proof.
  intros -> Hok Hc Hg H. pose proof (cache_update_ok _ _ _ _ _ Hok Hc Hg) as (Hok1 & Hi1 & Hm1 & Hm2).
  set (c1 := cache_update _ _ _ c) in *. destruct (H Hok1) as [H1 H2 H3]. destruct (H2 Hi1) as [H4 H5].
  split; [done|intros Hi; specialize (Hm2 Hi); split; [done|lia]|]. intros Hb. right. split; [done|].
  constructor; [lia|]. destruct (H3 Hb) as [[-> _]|[_ ?]]; [constructor|done].
Qed.
Lemma learned_stop file es2 c : cache_ok c -> learned file es2 c false c.
Proof. intros. by split. Qed.
Lemma length_enc_snoc es e : length (enc es) + length (encode_entry e) = length (enc (es ++ [e])).
Proof. by rewrite enc_snoc, length_app. Qed.
Lemma asc_lines_cache spec limit n es1 es2 c r b c' : cache_ok c -> consecutive le_seq n (es1 ++ es2) -> Forall good (es1 ++ es2) ->
  asc_lines spec (Some (enc (es1 ++ es2))) limit (length (enc es1)) (encode_entry <$> es2) c = (r, b, c') ->
  learned (enc (es1 ++ es2)) es2 c b c'.
Proof.
  intros Hok Hc Hg. revert es1 limit c r b c' Hok Hc Hg. induction es2 as [|e es2 IH]; intros es1 limit c r b c' Hok Hc Hg.
  { intros [= <- <- <-]. split; auto. intros ->. done. }
  rewrite fmap_cons. cbn [asc_lines]. rewrite parse_line by (apply Forall_app in Hg as [_ Hg]; by apply Forall_cons in Hg as [? _]).
  set (c1 := cache_update _ _ _ c). intros E. eapply (learned_cons c n es1 e es2 b c1 c'); [done..|]. intros Hok1.
  assert (forall limit r, asc_lines spec (Some (enc (es1 ++ e :: es2))) limit (length (enc es1) + length (encode_entry e)) (encode_entry <$> es2) c1 = (r, b, c') ->
    learned (enc (es1 ++ e :: es2)) es2 c1 b c') as Hrec.
  { intros limit' r'. rewrite length_enc_snoc. change (e :: es2) with ([e] ++ es2) in Hc, Hg |- *. rewrite app_assoc in Hc, Hg |- *. by apply IH. }
  destruct (before_start _ _); [by eapply Hrec|]. destruct (past_end _ _); [injection E as <- <- <-; by apply learned_stop|].
  destruct (negb _); [by eapply Hrec|]. destruct (bool_decide _); [injection E as <- <- <-; by apply learned_stop|].
  destruct (asc_lines _ _ (pred <$> limit) _ _ _) as [[r2 b2] c2] eqn:E2. injection E as <- <- <-. by eapply Hrec.
Qed.
Lemma learned_complete n es1 es2 c c' : consecutive le_seq n (es1 ++ es2) -> Forall good (es1 ++ es2) ->
  learned (enc (es1 ++ es2)) es2 c true c' ->
  (es1 = [] \/ ca_identity c = Some (enc (es1 ++ es2)) /\ (es2 = [] -> ca_complete c = true)) -> cache_ok c ->
  cache_ok (mark_complete (Some (enc (es1 ++ es2))) (Some (enc (es1 ++ es2))) (length (enc (es1 ++ es2))) c').
Proof.
  intros Hc Hg [H1 H2 H3] Hst Hok. set (es := es1 ++ es2) in *. unfold mark_complete. rewrite decide_True, Nat.eqb_refl by done.
  eapply cache_ok_of; [exact Hg|apply refresh_identity|]. destruct (cache_ok_at _ _ _ H1 Hc Hg) as [Hs Hcm].
  constructor; [exact Hs|]. intros _. simpl. unfold es in *. destruct (H3 eq_refl) as [[-> ->]|[Hi Hf]].
  - destruct Hst as [->|[Hi Hcomp]]; [by constructor|]. apply Hcm. unfold refresh. rewrite decide_True by done. by apply Hcomp.
  - unfold refresh. rewrite decide_True by done. apply Forall_app. split; [|done].
    destruct Hst as [->|[Hi' Hcomp]]; [constructor|]. destruct es2 as [|e es2].
    + rewrite app_nil_r in *. pose proof (cache_complete _ _ (Hok _ _ Hc Hg Hi') (Hcomp eq_refl)) as Hall.
      eapply Forall_impl; [exact Hall|]. intros x Hx. cbv beta in *. destruct (H2 Hi') as [_ ?]. lia.
    + apply Forall_cons in Hf as [Hf _]. apply consecutive_app in Hc as [Hc1 [Hc2 _]].
      eapply Forall_impl; [by apply consecutive_bounds|]. intros x Hx. cbv beta in *. lia.
Qed.

(** ** Files *)
Lemma found_skip spec es1 es2 : Forall (fun e => before_start spec (le_seq e) = true) es1 -> found spec (es1 ++ es2) = found spec es2.
Proof.
  intros H. rewrite found_app, (found_none _ es1); [done|]. eapply Forall_impl; [exact H|]. intros e. apply sel_before.
Qed.
(** A query of one file in each direction, from any cache that is right *)
Definition reads_asc d (path : option SegName) es : Prop :=
  forall spec limit w, w_disk w = d -> cache_ok (w_cache w) -> limit <> Some 0 ->
  exists c, cache_ok c /\ query_asc_file_sync path spec limit w = (mkWorld d c (w_faults w), Ret (take_opt limit (found spec es))).
Definition reads_desc d (path : option SegName) es : Prop :=
  forall spec limit w, w_disk w = d -> limit <> Some 0 ->
  query_desc_file_sync path spec limit w = (w, Ret (take_opt limit (reverse (found spec es)))).
Lemma reads_active d n es : dk_active d = Some (enc es) -> consecutive le_seq n es -> Forall good es -> reads_asc d None es.
Proof.
  intros Ha Hc Hg spec limit w Hw Hok Hl. unfold query_asc_file_sync, open_source, open_active_file, se_bind, se_ret.
  subst d. rewrite Ha. cbv beta iota. rewrite Ha.
  destruct (starting_offset_for_seq _ _ _) as [start c1] eqn:Es.
  destruct (starting_offset_ok _ _ _ _ _ _ Hok Hc Hg Es) as (Hok1 & es1 & es2 & -> & -> & Hb & Hst).
  rewrite enc_app, drop_app_length, <- enc_app, file_lines_enc'.
  destruct (asc_lines _ _ _ _ _ _) as [[r b] c2] eqn:E.
  pose proof (asc_lines_cache _ _ _ _ _ _ _ _ _ Hok1 Hc Hg E) as Hlr.
  assert (r = take_opt limit (found spec (es1 ++ es2))) as ->.
  { rewrite found_skip by done. apply consecutive_app in Hc as [_ Hc2]. apply Forall_app in Hg as [_ Hg2].
    rewrite <- (asc_lines_found spec (Some (enc (es1 ++ es2))) limit (length (enc es1)) _ es2 c1 Hc2 Hg2 Hl). by rewrite E. }
  eexists. split; [|reflexivity]. destruct b; [|apply (learned_ok _ _ _ _ _ Hlr)].
  eapply learned_complete; [exact Hc|exact Hg|exact Hlr| |done].
  destruct Hst as [H0|?]; [|by right]. left. by apply nil_length_inv, enc_nil_inv in H0.
Qed.
Lemma asc_lines_segment spec limit offset lines c : (asc_lines spec None limit offset lines c).2 = c.
Proof.
  revert limit offset. induction lines as [|l lines IH]; intros limit offset; [done|]. simpl.
  repeat split_match; simpl; auto. match goal with H : asc_lines _ _ ?l ?o _ _ = _ |- _ => rewrite <- (IH l o), H end. done.
Qed.
Lemma reads_segment d n name es : seg_bytes name d = Some (enc es) -> consecutive le_seq n es -> Forall good es -> reads_asc d (Some name) es.
Proof.
  intros Ha Hc Hg spec limit w Hw Hok Hl. unfold query_asc_file_sync, open_source, get_disk, se_bind, se_ret.
  subst d. rewrite Ha. cbv beta iota. rewrite drop_0, file_lines_enc'.
  pose proof (asc_lines_found spec None limit 0 _ es (w_cache w) Hc Hg Hl) as E.
  pose proof (asc_lines_segment spec limit 0 (encode_entry <$> es) (w_cache w)) as Hca.
  destruct (asc_lines _ _ _ _ _ _) as [[r b] c2]. simpl in *. subst.
  eexists. split; [|reflexivity]. by destruct b.
Qed.
Lemma reads_desc_file d n path es : (match path with None => dk_active d | Some name => seg_bytes name d end) = Some (enc es) ->
  consecutive le_seq n es -> Forall good es -> reads_desc d path es.
Proof.
  intros Ha Hc Hg spec limit w Hw Hl. unfold query_desc_file_sync, open_source, open_active_file, get_disk, se_bind, se_ret.
  pose proof (reverse_lines_enc es [] ltac:(set_solver)) as E. rewrite app_nil_r in E. simpl in E.
  destruct path; rewrite Hw, Ha; rewrite E; by rewrite (desc_lines_found _ _ _ n).
Qed.

(** ** Sources *)
Lemma take_opt_app {A} limit (l1 l2 : list A) :
  take_opt limit (l1 ++ l2) = take_opt limit l1 ++ take_opt ((fun n => n - length (take_opt limit l1)) <$> limit) l2.
Proof.
  destruct limit as [n|]; [|done]. simpl. rewrite firstn_app. f_equal. rewrite length_take.
  destruct (decide (n <= length l1)); [|f_equal; lia]. replace (n - length l1) with 0 by lia. by replace (n - n `min` length l1) with 0 by lia.
Qed.
(** A source with the entries it holds *)
Record piece_ok d (p : Source * list LogEntry) : Prop := {
  piece_asc : reads_asc d (so_path p.1) p.2;
  piece_desc : reads_desc d (so_path p.1) p.2;
  piece_nonempty : p.2 <> [];
  piece_first : so_first p.1 = first_seq p.2;
  piece_last : so_last p.1 = last_seq p.2
}.
Lemma asc_sources_found d spec n pieces limit w : Forall (piece_ok d) pieces -> consecutive le_seq n (concat (pieces.*2)) ->
  w_disk w = d -> cache_ok (w_cache w) -> limit <> Some 0 ->
  exists c, cache_ok c /\ asc_sources spec limit (pieces.*1) w = (mkWorld d c (w_faults w), Ret (take_opt limit (found spec (concat (pieces.*2))))).
Proof.
  intros Hp. revert n limit w. induction Hp as [|[s es] pieces [Hr _ Hne Hf Hla] _ IH]; intros n limit w Hc Hw Hok Hl.
  { exists (w_cache w). split; [done|]. subst d. destruct w. by destruct limit as [[]|]. }
  rewrite !fmap_cons in *. cbn [concat fst snd asc_sources] in *. pose proof Hc as Hall. apply consecutive_app in Hc as [Hc1 Hc2].
  rewrite Hf, Hla, (first_seq_consecutive _ _ Hc1 Hne), (last_seq_consecutive _ _ Hc1 Hne).
  destruct (past_end spec n) eqn:Hpe.
  { exists (w_cache w). split; [done|]. rewrite (found_past _ n) by done. subst d. destruct w. by destruct limit as [[]|]. }
  rewrite found_app. destruct (before_start spec _) eqn:Hb.
  { rewrite (found_before _ n es) by done. by eapply IH. }
  case_bool_decide; [done|]. destruct (Hr spec limit w Hw Hok Hl) as (c1 & Hok1 & E1). unfold se_bind. rewrite E1.
  cbv beta iota zeta. rewrite take_opt_app. set (limit' := _ <$> limit). case_bool_decide as H0.
  { exists c1. split; [done|]. unfold se_ret. by rewrite H0, app_nil_r. }
  destruct (IH _ limit' (mkWorld d c1 (w_faults w)) Hc2 eq_refl Hok1 H0) as (c2 & Hok2 & E2). rewrite E2.
  exists c2. by split.
Qed.
Lemma desc_sources_found d spec n pieces limit w : Forall (piece_ok d) pieces -> consecutive le_seq n (concat (pieces.*2)) ->
  w_disk w = d -> limit <> Some 0 ->
  desc_sources spec limit (reverse (pieces.*1)) w = (w, Ret (take_opt limit (reverse (found spec (concat (pieces.*2)))))).
Proof.
  intros Hp Hc Hw. revert limit. induction pieces as [|[s es] pieces IH] using rev_ind; intros limit Hl; [by destruct limit as [[]|]|].
  apply Forall_app in Hp as [Hp [[_ Hr Hne Hf Hla] _]%Forall_cons]. simpl in *.
  rewrite !fmap_app, concat_app, reverse_app in *. simpl in *. rewrite app_nil_r in *.
  pose proof Hc as Hall. apply consecutive_app in Hc as [Hc1 Hc2].
  rewrite Hf, Hla, (first_seq_consecutive _ _ Hc2 Hne), (last_seq_consecutive _ _ Hc2 Hne), found_app, reverse_app.
  destruct (past_end spec _) eqn:Hpe.
  { rewrite (found_past _ _ es Hc2) by done. by apply IH. }
  destruct (before_start spec _) eqn:Hb.
  { rewrite (found_before _ _ es Hc2) by done. rewrite (found_before _ _ _ Hc1); [destruct limit as [[]|]; reflexivity|].
    eapply before_start_mono; [|exact Hb]. lia. }
  case_bool_decide; [done|]. unfold se_bind. rewrite (Hr spec limit w Hw Hl), take_opt_app. cbv beta iota zeta.
  set (limit' := _ <$> limit). case_bool_decide as H0.
  { unfold se_ret. by rewrite H0, app_nil_r. }
  by rewrite IH.
Qed.
(** The view of a settled disk *)
Definition segment_piece (x : Z * list LogEntry) : Source * list LogEntry := (mkSource (Some (name_of x)) (first_seq x.2) (last_seq x.2), x.2).
Definition pieces_of chunks act : list (Source * list LogEntry) :=
  (segment_piece <$> chunks) ++ match act with [] => [] | _ => [(mkSource None (first_seq act) (last_seq act), act)] end.
Lemma pieces_stream chunks act : concat ((pieces_of chunks act).*2) = stream chunks act.
Proof.
  unfold pieces_of, stream. rewrite fmap_app, concat_app, <- list_fmap_compose. f_equal. destruct act; [done|]. simpl. by rewrite app_nil_r.
Qed.
Lemma pieces_ok d chunks act : settled d chunks act -> Forall (piece_ok d) (pieces_of chunks act).
Proof.
  intros [H Ha _]. pose proof (rep_seqs _ _ _ H) as Hc. apply consecutive_app in Hc as [Hc1 Hc2]. apply Forall_app. split.
  - apply Forall_fmap, Forall_forall. intros x Hx. pose proof (rep_seg_bytes _ _ _ _ H Hx) as Hb. pose proof (rep_chunk_good _ _ _ _ H Hx) as Hg.
    pose proof (rep_nonempty _ _ _ H) as Hne. rewrite Forall_forall in Hne. specialize (Hne _ Hx).
    assert (exists n, consecutive le_seq n x.2) as [n Hn].
    { apply list_elem_of_split in Hx as (l1 & l2 & ->). rewrite fmap_app, concat_app in Hc1. simpl in Hc1.
      apply consecutive_app in Hc1 as [_ Hc1]. apply consecutive_app in Hc1 as [Hc1 _]. eauto. }
    split; [by eapply reads_segment|by eapply reads_desc_file|done..].
  - pose proof (rep_act_good _ _ _ H) as Hg. destruct act as [|e act]; [constructor|]. constructor; [|constructor].
    split; [by eapply reads_active|by eapply reads_desc_file|done..].
Qed.

(** ** The view *)
Lemma sorted_key_inj {A} (f : A -> Z) (l : list A) x y : StronglySorted (fun x y => f x < f y)%Z l -> x ∈ l -> y ∈ l -> f x = f y -> x = y.
Proof.
  induction 1 as [|z l _ IH Hz]; [by intros ?%not_elem_of_nil|]. rewrite Forall_forall in Hz.
  intros [->|Hx]%elem_of_cons [->|Hy]%elem_of_cons E; [done| | |auto].
  - specialize (Hz _ Hy). lia.
  - specialize (Hz _ Hx). lia.
Qed.
#[local] Instance source_le_total : Total source_le.
Proof. intros x y. unfold source_le. rewrite !Is_true_true, !Z.leb_le. lia. Qed.
#[local] Instance source_le_trans : Transitive source_le.
Proof. intros x y z. unfold source_le. rewrite !Is_true_true, !Z.leb_le. lia. Qed.
Lemma sort_sorted_sources l : StronglySorted (fun x y => so_first x < so_first y)%Z l -> merge_sort source_le l = l.
Proof.
  intros H. apply (StronglySorted_unique_strong source_le).
  - intros x y Hx Hy H1 H2. rewrite merge_sort_Permutation in Hx. apply (sorted_key_inj so_first l); [done..|].
    unfold source_le in *. rewrite Is_true_true, Z.leb_le in H1, H2. lia.
  - apply StronglySorted_merge_sort; apply _.
  - eapply StronglySorted_weaken; [|exact H]. intros x y Hxy. unfold source_le. apply Is_true_true, Z.leb_le. cbv beta in Hxy. lia.
  - apply merge_sort_Permutation.
Qed.
Lemma pieces_sorted d n pieces : Forall (piece_ok d) pieces -> consecutive le_seq n (concat (pieces.*2)) ->
  StronglySorted (fun x y => so_first x < so_first y)%Z (pieces.*1) /\ Forall (fun x => n <= so_first x)%Z (pieces.*1).
Proof.
  intros Hp. revert n. induction Hp as [|[s es] pieces [_ _ Hne Hf _] _ IH]; intros n Hc; [split; constructor|].
  rewrite !fmap_cons in *. cbn [concat fst snd] in *. apply consecutive_app in Hc as [Hc1 Hc2]. destruct (IH _ Hc2) as [Hs Hl].
  assert (0 < length es) by (destruct es; simpl; [done|lia]). rewrite (first_seq_consecutive _ _ Hc1 Hne) in Hf.
  split; constructor; [done| |lia|]; (eapply Forall_impl; [exact Hl|]; intros x Hx; cbv beta in *; lia).
Qed.
Lemma view_rows_found d chunks : (forall x, x ∈ chunks -> is_Some (seg_bytes (name_of x) d)) ->
  view_rows d ((fun x => row_of (desc_of (name_of x))) <$> chunks) = Ret ((segment_piece <$> chunks).*1).
Proof.
  induction chunks as [|x chunks IH]; intros H; [done|]. rewrite !fmap_cons. cbn.
  destruct (H x ltac:(set_solver)) as [b Hb]. unfold seg_bytes in Hb. apply fmap_Some in Hb as (f & Hf & _). rewrite Hf. cbn.
  setoid_rewrite IH; [done|]. intros y Hy. apply H. set_solver.
Qed.
Lemma view_found d chunks act w : settled d chunks act -> w_disk w = d ->
  segment_view_sync w = (w, Ret ((pieces_of chunks act).*1)).
Proof.
  intros Hs Hw. pose proof Hs as [H Ha Hm]. unfold segment_view_sync, get_disk, se_bind, se_lift, se_ret. rewrite Hw, Ha.
  pose proof (rep_act_good _ _ _ H) as Hg. rewrite bounds_enc by done.
  assert ((if (last_seq act =? 0)%Z then [] else [mkSource None (first_seq act) (last_seq act)]) =
    (match act with [] => [] | _ => [(mkSource None (first_seq act) (last_seq act), act)] end).*1) as ->.
  { destruct act as [|e act]; [done|]. pose proof (rep_seqs _ _ _ H) as Hc. apply consecutive_app in Hc as [_ Hc].
    rewrite (last_seq_consecutive _ _ Hc) by done. rewrite length_cons. destruct (Z.eqb_spec (1 + Z.of_nat (length (concat chunks.*2)) + Z.of_nat (S (length act)) - 1) 0); [lia|done]. }
  destruct (dk_manifest d) as [m|]; [|by subst chunks]. destruct Hm as [Hm _]. rewrite Hm. cbn [default from_option id].
  rewrite view_rows_found by (intros x Hx; rewrite (rep_seg_bytes _ _ _ _ H Hx); eauto).
  cbv beta iota. rewrite <- fmap_app. fold (pieces_of chunks act). rewrite sort_sorted_sources; [done|].
  eapply pieces_sorted; [by apply pieces_ok|]. rewrite pieces_stream. apply (rep_seqs _ _ _ H).
Qed.
Lemma query_asc_found d chunks act spec limit w : settled d chunks act -> w_disk w = d -> cache_ok (w_cache w) -> limit <> Some 0 ->
  exists c, cache_ok c /\ query_asc_sync spec limit w = (mkWorld d c (w_faults w), Ret (take_opt limit (found spec (stream chunks act)))).
Proof.
  intros Hs Hw Hok Hl. unfold query_asc_sync, se_bind. rewrite (view_found _ _ _ _ Hs Hw), <- pieces_stream.
  eapply asc_sources_found; [by apply pieces_ok| |done..]. rewrite pieces_stream. apply (rep_seqs _ _ _ (settled_rep _ _ _ Hs)).
Qed.
Lemma query_desc_found d chunks act spec limit w : settled d chunks act -> w_disk w = d -> limit <> Some 0 ->
  query_desc_sync spec limit w = (w, Ret (take_opt limit (reverse (found spec (stream chunks act))))).
Proof.
  intros Hs Hw Hl. unfold query_desc_sync, se_bind. rewrite (view_found _ _ _ _ Hs Hw), <- pieces_stream.
  eapply desc_sources_found; [by apply pieces_ok| |done..]. rewrite pieces_stream. apply (rep_seqs _ _ _ (settled_rep _ _ _ Hs)).
Qed.

(** ** The strict scan *)
Definition follows (s : Scan) (n : Z) : Prop :=
  sc_quarantined s = None /\ (0 < n)%Z /\ (sc_previous s = None \/ sc_previous s = Some (n - 1)%Z).
Lemma strict_lines_found path identity n offset es s : follows s n -> consecutive le_seq n es -> Forall good es ->
  exists s', strict_lines path identity offset (encode_entry <$> es) s = (s', Ret es) /\ follows s' (n + Z.of_nat (length es)).
Proof.
  revert n offset s. induction es as [|e es IH]; intros n offset s Hf Hc Hg.
  { exists s. split; [done|]. by rewrite Z.add_0_r. }
  apply Forall_cons in Hg as [He Hg]. destruct Hc as [Hn Hc]. rewrite fmap_cons. cbn [strict_lines]. unfold se_bind at 1, se_get.
  rewrite strict_line_entry by done. destruct Hf as (Hq & Hn0 & Hprev).
  assert (in_order s (le_seq e) = true) as ->.
  { unfold in_order, unbridged. rewrite Hq, Hn. destruct (Z.ltb_spec 0 n); [|lia]. simpl.
    destruct Hprev as [-> | ->]; [done|]. apply Z.eqb_eq. lia. }
  cbn [negb]. cbv zeta. unfold unbridged at 1. rewrite Hq. unfold se_put, se_bind. set (s1 := mkScan (Some (le_seq e)) _ _).
  destruct (IH (n + 1)%Z (offset + length (encode_entry e)) s1) as (s' & E & Hf'); [|done|done|].
  { split; [done|]. split; [lia|]. right. simpl. f_equal. lia. }
  rewrite E. exists s'. split; [done|]. rewrite length_cons. by replace (n + Z.of_nat (S (length es)))%Z with (n + 1 + Z.of_nat (length es))%Z by lia.
Qed.
Definition returned {E A} (r : outcome E A) : bool := match r with Ret _ => true | Raise _ => false end.
Lemma strict_lines_cache path n es1 es2 s s' r : cache_ok (sc_cache s) -> consecutive le_seq n (es1 ++ es2) -> Forall good (es1 ++ es2) ->
  strict_lines path (Some (enc (es1 ++ es2))) (length (enc es1)) (encode_entry <$> es2) s = (s', r) ->
  learned (enc (es1 ++ es2)) es2 (sc_cache s) (returned r) (sc_cache s').
Proof.
  revert es1 s s' r. induction es2 as [|e es2 IH]; intros es1 s s' r Hok Hc Hg.
  { intros [= <- <-]. split; [done..|]. by left. }
  rewrite fmap_cons. cbn [strict_lines]. unfold se_bind at 1, se_get.
  rewrite strict_line_entry by (apply Forall_app in Hg as [_ Hg]; by apply Forall_cons in Hg as [? _]).
  destruct (negb (in_order s (le_seq e))); [intros [= <- <-]; by apply learned_stop|]. cbv zeta.
  set (c1 := cache_update _ _ _ (sc_cache s)). set (s1 := mkScan _ _ c1). unfold se_bind at 1, se_put. unfold se_bind. intros E.
  destruct (strict_lines _ _ _ _ s1) as [s2 r2] eqn:E2.
  assert (s' = s2 /\ returned r = returned r2) as [-> ->] by (destruct r2; by injection E as <- <-).
  eapply (learned_cons (sc_cache s) n es1 e es2 _ c1); [done..|]. intros Hok1.
  rewrite length_enc_snoc in E2. change (e :: es2) with ([e] ++ es2) in Hc, Hg, E2 |- *. rewrite app_assoc in Hc, Hg, E2 |- *.
  by apply (IH (es1 ++ [e]) s1) in E2.
Qed.
Lemma strict_lines_segment path offset lines s s' r : strict_lines path None offset lines s = (s', r) -> sc_cache s' = sc_cache s.
Proof.
  revert offset s s' r. induction lines as [|l lines IH]; intros offset s s' r; [by intros [= <- _]|]. cbn [strict_lines]. unfold se_bind at 1, se_get.
  destruct (parse_entry_current_strict l) as [| | |e]; [apply IH| |by intros [= <- _]|].
  - destruct (_ || _); [by intros [= <- _]|]. unfold se_bind at 1, se_put. intros E%IH. exact E.
  - destruct (negb _); [by intros [= <- _]|]. cbv zeta. unfold se_bind, se_put.
    destruct (strict_lines _ _ _ _ _) as [s2 r2] eqn:E2. intros E. apply IH in E2. simpl in E2. destruct r2; injection E as <- _; done.
Qed.
Lemma strict_sources_found d chunks act n s : settled d chunks act -> cache_ok (sc_cache s) ->
  forall l, l ⊆ chunks -> consecutive le_seq n (concat (l.*2) ++ act) -> follows s n ->
  exists s', strict_sources d ((Some <$> (name_of <$> l)) ++ [None]) s = (s', Ret (concat (l.*2) ++ act)) /\ cache_ok (sc_cache s') /\ sc_quarantined s' = None.
Proof.
  intros Hs Hok l. pose proof Hs as [H Ha _]. revert n s Hok. induction l as [|x l IH]; intros n s Hok Hl Hc Hf.
  - simpl in *. rewrite Ha. unfold se_bind. pose proof (rep_act_good _ _ _ H) as Hg.
    destruct (strict_lines_found None (Some (enc act)) n 0 act s Hf Hc Hg) as (s' & E & Hf').
    pose proof (strict_lines_cache None n [] act s s' (Ret act) Hok Hc Hg E) as Hca.
    rewrite file_lines_enc', E. cbn. rewrite app_nil_r. eexists. split; [reflexivity|]. simpl. split; [|apply Hf'].
    by eapply (learned_complete n [] act); [| |exact Hca|left|].
  - assert (x ∈ chunks) as Hx by set_solver. rewrite !fmap_cons in *. cbn [concat] in *. rewrite <- app_assoc in Hc.
    apply consecutive_app in Hc as [Hc1 Hc2]. simpl. rewrite (rep_seg_bytes _ _ _ _ H Hx). unfold se_bind.
    destruct (strict_lines_found (Some (name_of x)) None n 0 x.2 s Hf Hc1 (rep_chunk_good _ _ _ _ H Hx)) as (s1 & E & Hf1).
    pose proof (strict_lines_segment _ _ _ _ _ _ E) as Hca. rewrite file_lines_enc', E. cbn.
    rewrite <- Hca in Hok. destruct (IH _ (mkScan (sc_previous s1) (sc_quarantined s1) (sc_cache s1)) Hok ltac:(set_solver) Hc2 Hf1) as (s2 & E2 & Hok2 & Hq2).
    setoid_rewrite E2. cbn. exists s2. rewrite <- app_assoc. done.
Qed.
Lemma strict_found d chunks act w : settled d chunks act -> w_disk w = d -> cache_ok (w_cache w) ->
  exists c, cache_ok c /\ iter_current_entries_strict_sync w = (mkWorld d c (w_faults w), Ret (stream chunks act, None)).
Proof.
  intros Hs Hw Hok. unfold iter_current_entries_strict_sync. rewrite Hw, (rep_paths _ _ _ (settled_rep _ _ _ Hs)).
  destruct (strict_sources_found d chunks act 1 (mkScan None None (w_cache w)) Hs Hok chunks) as (s' & E & Hok' & Hq);
    [done|apply (rep_seqs _ _ _ (settled_rep _ _ _ Hs))|by split; [|split; [|left]]|].
  rewrite E. exists (sc_cache s'). split; [done|]. simpl. by rewrite Hq.
Qed.

(** ** The public query *)
Definition directed (order : direction) es : list LogEntry := match order with Asc => es | Desc => reverse es end.
Definition nothing_excluded (_ : LogEntry) : bool := false.
Definition matches_of spec (order : direction) (excluded : LogEntry -> bool) es : list LogEntry :=
  directed order (filter (selected spec excluded) es).
Lemma found_selected spec es : found spec es = filter (selected spec nothing_excluded) es.
Proof. apply list_filter_iff. intros e. unfold sel, selected, nothing_excluded. simpl. by rewrite andb_true_r. Qed.
Lemma found_empty_range spec es : empty_range spec = true -> found spec es = [].
Proof.
  intros H. apply found_none, Forall_true. intros e. unfold sel, before_start, past_end, empty_range in *.
  destruct (qs_after_seq spec) as [x|]; [|done]. destruct (qs_before_seq spec) as [y|]; [|done]. apply Z.ltb_lt in H.
  destruct (Z.ltb_spec (le_seq e) x); [done|]. destruct (Z.ltb_spec y (le_seq e)); [done|lia].
Qed.
Lemma empty_effective spec order cursor : empty_range spec = true -> empty_range (effective_spec spec order cursor) = true.
Proof.
  unfold effective_spec, empty_range. destruct cursor as [[s o]|]; [|done].
  destruct order; simpl; destruct (qs_after_seq spec), (qs_before_seq spec); rewrite ?Z.ltb_lt; (done || lia).
Qed.
Lemma deque_fold n (l : list LogEntry) : 0 < n -> foldl (deque_append n) [] l = drop (length l - n) l.
Proof.
  intros Hn. induction l as [|x l IH] using rev_ind; [done|]. rewrite foldl_app, IH. simpl. unfold deque_append.
  rewrite !length_app, length_drop. simpl. destruct (decide (length l < n)).
  - replace (length l - n) with 0 by lia. replace (length l + 1 - n) with 0 by lia.
    rewrite !drop_0. by replace (length l - 0 + 1 - n) with 0 by lia.
  - replace (length l - (length l - n) + 1 - n) with 1 by lia. rewrite !drop_app_le by (rewrite ?length_drop; lia).
    rewrite drop_drop. do 2 f_equal. lia.
Qed.
Lemma reverse_take n (l : list LogEntry) : take n (reverse l) = reverse (drop (length l - n) l).
Proof.
  destruct (decide (length l <= n)).
  { replace (length l - n) with 0 by lia. rewrite drop_0. apply take_ge. rewrite length_reverse. lia. }
  rewrite <- (take_drop (length l - n) l) at 1. rewrite reverse_app. rewrite take_app_length'; [done|].
  rewrite length_reverse, length_drop. lia.
Qed.
Lemma retain_fold order limit es : limit <> Some 0 ->
  match order with Asc => foldl (retain order limit) [] es | Desc => reverse (foldl (retain order limit) [] es) end =
    take_opt limit (directed order es).
Proof.
  intros Hl. destruct limit as [n|].
  2: { assert (forall order, foldl (retain order None) [] es = es) as E; [|by destruct order; rewrite E].
       intros o. induction es as [|x es IH] using rev_ind; [done|]. by rewrite foldl_app, IH. }
  destruct order; simpl.
  - induction es as [|x es IH] using rev_ind; [by destruct n|]. rewrite foldl_app, IH. simpl. rewrite length_take.
    destruct (Nat.leb_spec n (n `min` length es)).
    + by rewrite take_app_le by lia.
    + rewrite !take_ge by (rewrite ?length_app; simpl; lia). done.
  - change (foldl (retain Desc (Some n)) [] es) with (foldl (deque_append n) [] es). rewrite deque_fold by (destruct n; [done|lia]).
    by rewrite reverse_take.
Qed.
Lemma page_more order limit es : page order limit (take_opt (S <$> limit) es) = page order limit es.
Proof.
  destruct limit as [n|]; [|done]. unfold page. change (take_opt (S <$> Some n) es) with (take (S n) es). rewrite length_take.
  destruct (Nat.ltb_spec n (length es)).
  - destruct (Nat.ltb_spec n (S n `min` length es)); [|lia]. rewrite take_take, Nat.min_l by lia. rewrite lookup_take_lt by lia. done.
  - destruct (Nat.ltb_spec n (S n `min` length es)); [lia|]. by rewrite take_ge by lia.
Qed.
(** The arguments that the query accepts *)
Definition query_args_ok (order : direction) (limit : option Z) (cursor : option QueryCursor) : Prop :=
  match limit with Some n => (0 < n)%Z | None => True end /\ match cursor with Some c => qc_direction c = order | None => True end.
Definition filter_of (strict : option (LogEntry -> bool)) : LogEntry -> bool := default nothing_excluded strict.
Lemma query_found d chunks act spec order limit cursor strict w : settled d chunks act -> w_disk w = d -> cache_ok (w_cache w) ->
  query_args_ok order limit cursor ->
  exists c, cache_ok c /\ query_sync spec order limit cursor strict w =
    (mkWorld d c (w_faults w), Ret (page order (Z.to_nat <$> limit) (matches_of (effective_spec spec order cursor) order (filter_of strict) (stream chunks act)))).
Proof.
  intros Hs Hw Hok [Hl Hcu]. unfold query_sync.
  assert (match limit with Some n => (n <=? 0)%Z | None => false end = false) as ->.
  { destruct limit; [|done]. by apply Z.leb_gt. }
  assert (match cursor with Some c => negb (bool_decide (qc_direction c = order)) | None => false end = false) as ->.
  { destruct cursor; [|done]. by rewrite bool_decide_true. }
  set (eff := effective_spec spec order cursor). cbv zeta. set (fetch := S <$> (Z.to_nat <$> limit)).
  assert (fetch <> Some 0) as Hf by (unfold fetch; destruct limit; done).
  destruct strict as [excluded|].
  { simpl. unfold se_bind, se_ret. destruct (strict_found _ _ _ _ Hs Hw Hok) as (c & Hok' & E). rewrite E. exists c. split; [done|].
    cbv beta iota. rewrite retain_fold by done. by rewrite page_more. }
  simpl. destruct (empty_range spec || _) eqn:Ee.
  { exists (w_cache w). split; [done|]. subst d. destruct w. unfold se_ret. simpl. unfold matches_of. rewrite <- found_selected, found_empty_range.
    - destruct order, limit; done.
    - apply orb_true_iff in Ee as [Ee|[_ Ee]%andb_true_iff]; [by apply empty_effective|done]. }
  unfold matches_of. rewrite <- found_selected. destruct order; unfold se_bind, se_ret.
  - destruct (query_asc_found _ _ _ eff fetch _ Hs Hw Hok Hf) as (c & Hok' & E). rewrite E. exists c. split; [done|]. by rewrite page_more.
  - rewrite (query_desc_found _ _ _ eff fetch _ Hs Hw Hf). exists (w_cache w). split; [done|]. subst d. destruct w. by rewrite page_more.
Qed.

(** ** Pages *)
Definition dir_lt (order : direction) (x y : LogEntry) : Prop := match order with Asc => (le_seq x < le_seq y)%Z | Desc => (le_seq y < le_seq x)%Z end.
#[local] Instance dir_lt_dec order x y : Decision (dir_lt order x y).
Proof. unfold dir_lt. destruct order; apply _. Defined.
Lemma sorted_snoc {A} (R : relation A) l x : StronglySorted R l -> Forall (fun y => R y x) l -> StronglySorted R (l ++ [x]).
Proof.
  induction 1 as [|y l Hs IH Hf]; intros Hx; [repeat constructor|]. apply Forall_cons in Hx as [Hy Hx].
  simpl. constructor; [auto|]. apply Forall_app. split; [done|]. by constructor.
Qed.
Lemma sorted_filter {A} (R : relation A) (P : A -> Prop) `{forall x, Decision (P x)} l : StronglySorted R l -> StronglySorted R (filter P l).
Proof.
  induction 1 as [|x l Hs IH Hf]; [constructor|]. rewrite filter_cons. case_decide; [|done]. constructor; [done|].
  by apply Forall_filtered.
Qed.
Lemma sorted_reverse {A} (R : relation A) l : StronglySorted R l -> StronglySorted (flip R) (reverse l).
Proof.
  induction 1 as [|x l Hs IH Hf]; [constructor|]. rewrite reverse_cons. apply sorted_snoc; [done|]. by apply Forall_reverse.
Qed.
Lemma consecutive_sorted n es : consecutive le_seq n es -> StronglySorted (dir_lt Asc) es.
Proof.
  revert n. induction es as [|e es IH]; intros n; [constructor|]. intros [Hn Hc]. constructor; [by eapply IH|].
  eapply Forall_impl; [by apply consecutive_bounds|]. intros x Hx. simpl in *. lia.
Qed.
Lemma matches_sorted spec order excluded n es : consecutive le_seq n es -> StronglySorted (dir_lt order) (matches_of spec order excluded es).
Proof.
  intros Hc. apply consecutive_sorted in Hc. unfold matches_of. destruct order; simpl.
  - by apply sorted_filter.
  - apply (sorted_filter _ (selected spec excluded)) in Hc. by apply sorted_reverse in Hc.
Qed.
Lemma sorted_after order l k x : StronglySorted (dir_lt order) l -> l !! k = Some x -> filter (dir_lt order x) l = drop (S k) l.
Proof.
  intros Hs. revert k. induction Hs as [|y l Hs IH Hf]; intros k Hk; [done|]. rewrite filter_cons.
  destruct k as [|k]; simplify_eq/=.
  - rewrite decide_False by (unfold dir_lt; destruct order; lia). rewrite drop_0. by apply filter_all.
  - rewrite decide_False; [by apply IH|]. rewrite Forall_forall in Hf. apply list_elem_of_lookup_2, Hf in Hk.
    unfold dir_lt in *. destruct order; lia.
Qed.
Lemma filter_reverse {A} (P : A -> Prop) `{forall x, Decision (P x)} (l : list A) : filter P (reverse l) = reverse (filter P l).
Proof.
  induction l as [|x l IH]; [done|]. rewrite reverse_cons, filter_app, IH, !filter_cons. case_decide; [by rewrite reverse_cons|]. by rewrite app_nil_r.
Qed.
(** The query from a cursor has the matches after it. *)
Lemma matches_from_cursor spec order excluded es x :
  matches_of (effective_spec spec order (Some (mkCursor (le_seq x) order))) order excluded es =
    filter (dir_lt order x) (matches_of spec order excluded es).
Proof.
  assert (filter (selected (effective_spec spec order (Some (mkCursor (le_seq x) order))) excluded) es =
    filter (dir_lt order x) (filter (selected spec excluded) es)) as E.
  { rewrite list_filter_filter. apply list_filter_iff. intros e. unfold selected, effective_spec, before_start, past_end, dir_lt, matches_entry.
    destruct order; simpl; rewrite !Is_true_true, !andb_true_iff, !negb_true_iff.
    - destruct (qs_after_seq spec); rewrite ?Z.ltb_ge; intuition lia.
    - destruct (qs_before_seq spec); rewrite ?Z.ltb_ge; intuition lia. }
  unfold matches_of. rewrite E. destruct order; [done|]. simpl. by rewrite filter_reverse.
Qed.
(** A reader that follows the cursors *)
Fixpoint read_pages (fuel : nat) spec (order : direction) (limit : option Z) (strict : option (LogEntry -> bool))
    (cursor : option QueryCursor) : LogM (list (list LogEntry)) :=
  match fuel with
  | O => se_ret []
  | S fuel =>
    let! (entries, next) := query_sync spec order limit cursor strict in
    match next with
    | None => se_ret [entries]
    | Some _ => let! rest := read_pages fuel spec order limit strict next in se_ret (entries :: rest)
    end
  end.
Lemma pages_found d chunks act spec order limit strict fuel : settled d chunks act ->
  forall k cursor w, w_disk w = d -> cache_ok (w_cache w) -> (0 < limit)%Z ->
  let all := matches_of spec order (filter_of strict) (stream chunks act) in
  match cursor with
  | None => k = 0
  | Some c => qc_direction c = order /\ exists x, all !! k = Some x /\ qc_after_seq c = le_seq x
  end ->
  let from := match cursor with None => 0 | Some _ => S k end in
  length all - from < fuel ->
  exists c pages, cache_ok c /\ read_pages fuel spec order (Some limit) strict cursor w = (mkWorld d c (w_faults w), Ret pages) /\
    concat pages = drop from all /\ Forall (fun p => Z.of_nat (length p) <= limit)%Z pages.
Proof.
  intros Hs. induction fuel as [|fuel IH]; intros k cursor w Hw Hok Hl all Hcu from Hf; [lia|].
  assert (matches_of (effective_spec spec order cursor) order (filter_of strict) (stream chunks act) = drop from all) as Em.
  { unfold from. destruct cursor as [[s o]|]; [|by rewrite drop_0]. simpl in Hcu. destruct Hcu as (-> & x & Hx & ->).
    rewrite matches_from_cursor. apply sorted_after; [|done]. eapply matches_sorted, (rep_seqs _ _ _ (settled_rep _ _ _ Hs)). }
  destruct (query_found _ _ _ spec order (Some limit) cursor strict w Hs Hw Hok) as (c & Hok1 & E).
  { split; [done|]. destruct cursor; [|done]. by destruct Hcu. }
  cbn [read_pages]. unfold se_bind. rewrite E, Em. set (L := drop from all). cbn [page fmap option_fmap option_map].
  destruct (Nat.ltb_spec (Z.to_nat limit) (length L)) as [Hlt|Hge].
  2: { exists c, [L]. split; [done|]. split; [done|]. simpl. rewrite app_nil_r. split; [done|]. constructor; [lia|constructor]. }
  destruct (L !! (Z.to_nat limit - 1)) as [x|] eqn:Ex; [|apply lookup_ge_None in Ex; lia]. cbn.
  destruct (IH (from + (Z.to_nat limit - 1)) (Some (mkCursor (le_seq x) order)) (mkWorld d c (w_faults w)) eq_refl Hok1 Hl) as (c2 & pages & Hok2 & E2 & Hcat & Hall).
  { split; [done|]. exists x. split; [|done]. unfold L in Ex. by rewrite lookup_drop in Ex. }
  { fold all. unfold L in Hlt. rewrite length_drop in Hlt. lia. }
  rewrite E2. exists c2, (take (Z.to_nat limit) L :: pages). split; [done|]. split; [done|]. split.
  - cbn [concat]. rewrite Hcat. fold all. unfold L. replace (S (from + (Z.to_nat limit - 1))) with (from + Z.to_nat limit) by lia.
    rewrite <- drop_drop. by rewrite take_drop.
  - constructor; [|done]. rewrite length_take. lia.
Qed.

(** ** Readers *)
(** A query of any disk leaves it alone and keeps the cache right. *)
Definition reader {A} (m : LogM A) : Prop :=
  forall w, cache_ok (w_cache w) -> w_disk (m w).1 = w_disk w /\ w_faults (m w).1 = w_faults w /\ cache_ok (w_cache (m w).1).
Lemma reader_bind {A B} (m : LogM A) (k : A -> LogM B) : reader m -> (forall x, reader (k x)) -> reader (se_bind m k).
Proof.
  intros Hm Hk w Hw. unfold se_bind. destruct (Hm w Hw) as (H1 & H2 & H3). destruct (m w) as [w1 [x|err]]; [|done]. simpl in *.
  destruct (Hk x w1 H3) as (H4 & H5 & H6). split; [congruence|]. split; [congruence|done].
Qed.
Lemma reader_ret {A} (x : A) : reader (se_ret x).
Proof. done. Qed.
Lemma reader_raise {A} err : reader (A := A) (se_raise err).
Proof. done. Qed.
Lemma reader_lift {A} (o : outcome log_error A) : reader (se_lift o).
Proof. done. Qed.
Lemma reader_get : reader get_disk.
Proof. done. Qed.
Lemma reader_open : reader open_active_file.
Proof. done. Qed.
#[local] Hint Resolve reader_bind reader_ret reader_raise reader_lift reader_get reader_open : core.
Lemma cache_ok_touched (b : bytes) c c' : cache_ok c -> c' = c \/ ca_identity c' = Some b ->
  (forall n es, consecutive le_seq n es -> Forall good es -> b = enc es -> cache_ok c') -> cache_ok c'.
Proof.
  intros Hok [->|Hi] H; [done|]. intros n es Hc Hg Hi'. assert (b = enc es) as Hb by congruence. by apply (H n es Hc Hg Hb n).
Qed.
Lemma asc_lines_touched spec b limit offset lines c r bl c' :
  asc_lines spec (Some b) limit offset lines c = (r, bl, c') -> c' = c \/ ca_identity c' = Some b.
Proof.
  revert limit offset c r bl c'. induction lines as [|l lines IH]; intros limit offset c r bl c'; [intros [= <- <- <-]; auto|].
  cbn [asc_lines]. destruct (parse_entry l) as [e|]; [|by apply IH]. set (c1 := cache_update _ _ _ c).
  assert (ca_identity c1 = Some b) as H1 by (simpl; apply refresh_identity).
  assert (forall limit offset r bl c', asc_lines spec (Some b) limit offset lines c1 = (r, bl, c') -> c' = c \/ ca_identity c' = Some b) as Hrec.
  { intros limit' offset' r' bl' c'' E. right. by destruct (IH _ _ _ _ _ _ E) as [->|?]. }
  destruct (before_start _ _); [apply Hrec|]. destruct (past_end _ _); [intros [= <- <- <-]; by right|].
  destruct (negb _); [apply Hrec|]. destruct (bool_decide _); [intros [= <- <- <-]; by right|].
  destruct (asc_lines _ _ (pred <$> limit) _ _ _) as [[r2 b2] c2] eqn:E2. intros [= <- <- <-]. by eapply Hrec.
Qed.
Lemma starting_offset_touched after b c start c' : starting_offset_for_seq after (Some b) c = (start, c') -> c' = c \/ ca_identity c' = Some b.
Proof.
  unfold starting_offset_for_seq. pose proof (refresh_identity (Some b) c). intros E. repeat (split_match; simplify_eq/=; auto).
Qed.
Lemma mark_complete_touched b n c c' : c' = c \/ ca_identity c' = Some b ->
  mark_complete (Some b) (Some b) n c' = c \/ ca_identity (mark_complete (Some b) (Some b) n c') = Some b.
Proof.
  intros H. unfold mark_complete. rewrite decide_True by done. destruct (_ =? n); [right; apply refresh_identity|exact H].
Qed.
Lemma reader_asc_file path spec limit : limit <> Some 0 -> reader (query_asc_file_sync path spec limit).
Proof.
  intros Hl w Hok. destruct path as [name|].
  - unfold query_asc_file_sync, open_source, get_disk, se_bind, se_ret, se_raise. destruct (seg_bytes name (w_disk w)) as [b|]; [|done].
    cbv beta iota. pose proof (asc_lines_segment spec limit 0 (file_lines (drop 0 b)) (w_cache w)) as E.
    destruct (asc_lines _ _ _ _ _ _) as [[r bl] c']. simpl in *. subst. by destruct bl.
  - destruct (dk_active (w_disk w)) as [b|] eqn:Ea; [|unfold query_asc_file_sync, open_source, open_active_file, se_bind; by rewrite Ea].
    assert (forall n es, consecutive le_seq n es -> Forall good es -> b = enc es -> cache_ok (w_cache (query_asc_file_sync None spec limit w).1)) as Henc.
    { intros n es Hc Hg ->. by destruct (reads_active _ _ _ Ea Hc Hg spec limit w eq_refl Hok Hl) as (c & Hc' & ->). }
    revert Henc. unfold query_asc_file_sync, open_source, open_active_file, se_bind, se_ret. rewrite Ea. cbv beta iota. rewrite Ea.
    destruct (starting_offset_for_seq _ _ _) as [start c1] eqn:Es. apply starting_offset_touched in Es.
    destruct (asc_lines _ _ _ _ _ _) as [[r bl] c2] eqn:E2. apply asc_lines_touched in E2. simpl. intros Henc. do 2 (split; [done|]).
    assert (c2 = w_cache w \/ ca_identity c2 = Some b) as Ht by (destruct E2 as [->|?]; auto).
    eapply cache_ok_touched; [exact Hok| |exact Henc]. destruct bl; [|done]. by apply mark_complete_touched.
Qed.
Lemma reader_asc_sources spec limit sources : limit <> Some 0 -> reader (asc_sources spec limit sources).
Proof.
  revert limit. induction sources as [|s sources IH]; intros limit Hl; simpl; [auto|].
  destruct (past_end _ _); [auto|]. destruct (before_start _ _); [auto|]. case_bool_decide; [auto|].
  apply reader_bind; [by apply reader_asc_file|]. intros found. case_bool_decide; [auto|]. apply reader_bind; [by apply IH|auto].
Qed.
Lemma reader_open_source path : reader (open_source path).
Proof. destruct path; simpl; [|auto]. apply reader_bind; [auto|]. intros d. destruct (seg_bytes _ _); auto. Qed.
Lemma reader_desc_sources spec limit sources : reader (desc_sources spec limit sources).
Proof.
  revert limit. induction sources as [|s sources IH]; intros limit; simpl; [auto|].
  destruct (past_end _ _); [auto|]. destruct (before_start _ _); [auto|]. case_bool_decide; [auto|].
  apply reader_bind. { apply reader_bind; [apply reader_open_source|]. intros []. auto. }
  intros found. case_bool_decide; auto.
Qed.
Lemma reader_view : reader segment_view_sync.
Proof.
  apply reader_bind; [auto|]. intros d. destruct (seq_bounds_for_file _). destruct (dk_manifest d); auto.
Qed.
Lemma strict_lines_touched path b offset lines s s' r :
  strict_lines path (Some b) offset lines s = (s', r) -> sc_cache s' = sc_cache s \/ ca_identity (sc_cache s') = Some b.
Proof.
  revert offset s s' r. induction lines as [|l lines IH]; intros offset s s' r; [intros [= <- _]; auto|]. cbn [strict_lines]. unfold se_bind at 1, se_get.
  destruct (parse_entry_current_strict l) as [| | |e]; [apply IH| |intros [= <- _]; auto|].
  - destruct (_ || _); [intros [= <- _]; auto|]. unfold se_bind at 1, se_put. intros E%IH. exact E.
  - destruct (negb _); [intros [= <- _]; auto|]. cbv zeta. unfold se_bind, se_put.
    destruct (strict_lines _ _ _ _ _) as [s2 r2] eqn:E2. intros E. apply IH in E2. simpl in E2.
    assert (s' = s2) as -> by (destruct r2; by injection E). right. destruct E2 as [->|?]; [|done]. simpl. apply refresh_identity.
Qed.
Lemma strict_active_ok b s s' r : cache_ok (sc_cache s) -> strict_lines None (Some b) 0 (file_lines b) s = (s', r) ->
  cache_ok (sc_cache s') /\ (returned r = true -> cache_ok (mark_complete (Some b) (Some b) (length b) (sc_cache s'))).
Proof.
  intros Hok E. pose proof (strict_lines_touched _ _ _ _ _ _ _ E) as Ht.
  assert (forall n es, consecutive le_seq n es -> Forall good es -> b = enc es -> learned b es (sc_cache s) (returned r) (sc_cache s')) as Hl.
  { intros n es Hc Hg ->. rewrite file_lines_enc' in E. by apply (strict_lines_cache None n [] es) in E. }
  split.
  - eapply cache_ok_touched; [exact Hok|exact Ht|]. intros n es Hc Hg Hb. apply (learned_ok _ _ _ _ _ (Hl n es Hc Hg Hb)).
  - intros Hr. eapply cache_ok_touched; [exact Hok|by apply mark_complete_touched|]. intros n es Hc Hg Hb.
    specialize (Hl n es Hc Hg Hb). rewrite Hr in Hl. subst b. by eapply (learned_complete n [] es); [| |exact Hl|left|].
Qed.
Lemma strict_sources_ok d sources s s' r : cache_ok (sc_cache s) -> strict_sources d sources s = (s', r) -> cache_ok (sc_cache s').
Proof.
  revert s s' r. induction sources as [|path sources IH]; intros s s' r Hok; [by intros [= <- _]|]. cbn [strict_sources].
  destruct (match path with None => dk_active d | Some n => seg_bytes n d end) as [b|] eqn:Eb; [|by intros [= <- _]].
  unfold se_bind, se_get, se_put, se_ret.
  destruct (strict_lines path _ 0 (file_lines b) s) as [s1 r1] eqn:E1.
  assert (cache_ok (sc_cache s1) /\ (returned r1 = true ->
    cache_ok (mark_complete (match path with None => Some b | Some _ => None end) (dk_active d) (length b) (sc_cache s1)))) as [H1 H2].
  { destruct path as [n|].
    - apply strict_lines_segment in E1. by rewrite E1.
    - rewrite Eb. by apply (strict_active_ok b s). }
  destruct r1 as [found1|err]; [|by intros [= <- _]].
  destruct (strict_sources d sources _) as [s2 r2] eqn:E2. apply IH in E2; [|by apply H2]. destruct r2; by intros [= <- _].
Qed.
Lemma reader_strict : reader iter_current_entries_strict_sync.
Proof.
  intros w Hok. unfold iter_current_entries_strict_sync. destruct (strict_sources _ _ _) as [s r] eqn:E. simpl.
  do 2 (split; [done|]). by eapply strict_sources_ok in E.
Qed.
Lemma reader_query spec order limit cursor strict : reader (query_sync spec order limit cursor strict).
Proof.
  unfold query_sync. destruct (match limit with Some _ => _ | None => _ end); [auto|]. destruct (match cursor with Some _ => _ | None => _ end); [auto|].
  cbv zeta. destruct (_ && _); [auto|]. apply reader_bind; [|auto].
  destruct strict; [apply reader_bind; [apply reader_strict|intros []; auto]|].
  destruct order; (apply reader_bind; [apply reader_view|]; intros sources).
  - apply reader_asc_sources. by destruct limit.
  - apply reader_desc_sources.
Qed.
End queries.

End SessionQueries.
