(* ===== verification/SessionDurability.v ===== *)
(** * SessionDurability: what the session log keeps

    The log as a stream of entries: every history of appends, terminal pairs,
    rotations, failed writes, deaths of the process and damaged metadata leaves a
    disk that holds the acknowledged entries in one gapless sequence, with at most
    a prefix of what an unacknowledged call was writing. *)
From stdpp Require Import sorting.
From S2P Require Import Prelude SessionLog SessionStorage SessionQueries.

Module SessionDurability.
Import SessionLog SessionStorage SessionQueries.
Section durability.
Context {env : LogEnv} {laws : LogLaws} (max_active_bytes : option Z).
Implicit Types (e : LogEntry) (es : list LogEntry) (chunks : list (Z * list LogEntry)) (act : list LogEntry) (d : Disk).
#[local] Hint Resolve spared_refl spared_trans spared_calm : core.
Abbreviation triple := (SessionStorage.triple (K := cache_ok)).

Definition settled_as d es : Prop := exists chunks act, settled d chunks act /\ es = stream chunks act.
Lemma settled_stored d es : settled_as d es -> stored d es.
Proof. intros (chunks & act & H & ->). exists chunks, act. split; [apply H|done]. Qed.
Lemma latest_settled d chunks act : settled d chunks act -> latest_seq_for_append (enc act) d = Z.of_nat (length (stream chunks act)).
Proof.
  intros [H _ Hm]. unfold latest_seq_for_append. rewrite latest_enc by (by eapply rep_act_good).
  pose proof (rep_seqs _ _ _ H) as Hc. apply consecutive_app in Hc as [_ Hc]. rewrite stream_length_app in *.
  assert (last_seq act = if decide (act = []) then 0 else Z.of_nat (length (concat (chunks.*2)) + length act))%Z as ->.
  { case_decide as Ha; [by rewrite Ha|]. rewrite (last_seq_consecutive _ _ Hc Ha). lia. }
  destruct (dk_manifest d) as [m|].
  - destruct Hm as [_ ->]. rewrite ?stream_length_app. case_decide; lia.
  - subst chunks. simpl. case_decide as Ha; [by rewrite Ha|lia].
Qed.

(** ** Opening *)
Lemma open_spec es : triple no_error (fun d => stored d es) (fun d => stored d es) open_log (fun _ d => settled_as d es).
Proof.
  unfold open_log, create_or_bind_active_storage.
  eapply (triple_bind _ _ (fun _ d => stored d es /\ dk_active d <> None)).
  { apply triple_get. intros d Hd. destruct (dk_active d) eqn:Ea.
    - apply triple_ret. intros ? ->. by rewrite Ea.
    - apply triple_atomic. intros ? ->. split; [done|]. apply and_wlog_l; [by intros [? _]|].
      split; [|done]. destruct Hd as (chunks & act & H & ->). exists chunks, act. split; [|done].
      apply rep_set_active; [done|]. pose proof (rep_active _ _ _ H) as Hact. rewrite Ea in Hact. simpl in Hact. subst act. left. exists []. auto. }
  intros []. eapply (triple_bind _ _ (fun _ d => stored d es /\ dk_active d <> None)).
  { apply triple_cache; [intros; apply cache_ok_clear|done]. }
  intros [] w [(chunks & act & H & ->) Ha] HK. pose proof (repair_spec (K := cache_ok) chunks act w (conj H Ha) HK) as Hr.
  unfold repair_manifest. destruct (repair_manifest_locked w) as [w' [[]|err]].
  - destruct Hr as (Hr & ?). split; [|done]. by exists chunks, act.
  - destruct Hr as (Hr & ?). split; [|done]. by exists chunks, act.
Qed.

(** ** Rotation *)
Definition storage_error (err : log_error) : Prop := err = StorageSecurityError.
Lemma stream_rotate chunks act g : stream (chunks ++ [(g, act)]) [] = stream chunks act.
Proof. unfold stream. rewrite fmap_app, concat_app. simpl. by rewrite !app_nil_r. Qed.
Lemma rep_rotate d chunks act g : settled d chunks act -> act <> [] -> name_ok (name_of (g, act)) = true ->
  rep (rename_active (name_of (g, act)) d) (chunks ++ [(g, act)]) [].
Proof.
  intros [H Ha _] Hne Hn. unfold rename_active. rewrite Ha. constructor; rewrite ?stream_rotate; simpl.
  - unfold seg_shape. simpl. rewrite fmap_app. rewrite fmap_app. f_equal. apply (rep_segs _ _ _ H).
  - apply Forall_app. split; [apply (rep_names _ _ _ H)|]. by repeat constructor.
  - done.
  - apply (rep_good _ _ _ H).
  - apply (rep_seqs _ _ _ H).
  - apply (rep_latest _ _ _ H).
  - by intros []%app_eq_nil.
Qed.
Lemma rotated_rows m (chunks : list (Z * list LogEntry)) x : mf_rows m = Some ((fun x => row_of (desc_of (name_of x))) <$> chunks) ->
  mf_rows (rotated_manifest m (name_of x)) = Some ((fun x => row_of (desc_of (name_of x))) <$> (chunks ++ [x])).
Proof.
  intros E. unfold rotated_manifest. simpl. rewrite E. simpl. f_equal. rewrite fmap_app. f_equal. apply filter_all.
  apply Forall_fmap, Forall_true. intros y. done.
Qed.
Lemma rotated_latest d chunks act g : settled d chunks act -> act <> [] ->
  mf_latest (rotated_manifest (default new_manifest (dk_manifest d)) (name_of (g, act))) = Z.of_nat (length (stream chunks act)).
Proof.
  intros [H _ Hm] Hne. simpl. pose proof (rep_seqs _ _ _ H) as Hc. apply consecutive_app in Hc as [_ Hc].
  rewrite (last_seq_consecutive _ _ Hc Hne). destruct (dk_manifest d) as [m|]; simpl.
  - destruct Hm as [_ ->]. rewrite stream_length_app. lia.
  - subst chunks. rewrite stream_length_app. simpl. lia.
Qed.
Lemma rotate_active_spec d chunks act : settled d chunks act -> act <> [] ->
  triple storage_error (fun d' => stored d' (stream chunks act)) (fun d' => d' = d) (rotate_active d (first_seq act) (last_seq act))
    (fun _ d' => settled_as d' (stream chunks act)).
Proof.
  intros Hs Hne. pose proof Hs as [H Ha Hm]. assert (settled_as d (stream chunks act)) as Has by (by exists chunks, act).
  unfold rotate_active. set (m := default new_manifest (dk_manifest d)). set (g := mf_generation m).
  change (mkName (first_seq act) (last_seq act) g) with (name_of (g, act)). set (n := name_of (g, act)).
  set (chunks' := chunks ++ [(g, act)]).
  assert (forall d', rep d' chunks' [] -> stored d' (stream chunks act)) as Hst.
  { intros d' Hd'. exists chunks', []. unfold chunks'. by rewrite stream_rotate. }
  assert (mf_rows (rotated_manifest m n) = Some ((fun x => row_of (desc_of (name_of x))) <$> chunks')) as Erows.
  { apply rotated_rows. unfold m. destruct (dk_manifest d); [by destruct Hm|by subst chunks]. }
  assert (mf_latest (rotated_manifest m n) = Z.of_nat (length (stream chunks' []))) as Elat.
  { unfold chunks'. rewrite stream_rotate. by apply rotated_latest. }
  set (P := fun d' => rep d' chunks' [] /\ dk_active d' = None).
  assert (forall d', P d' -> stored d' (stream chunks act)) as HP by (intros d' [? _]; by apply Hst).
  eapply (triple_bind _ _ (fun _ => P)).
  { unfold rotate_active_to_segment. apply triple_get. intros ? ->. destruct (name_ok n) eqn:En; simpl.
    2: { apply triple_raise; [done|]. intros ? ->. by apply settled_stored. }
    destruct (is_none _); simpl. 2: { apply triple_raise; [done|]. intros ? ->. by apply settled_stored. }
    apply triple_atomic. intros ? ->. split; [by apply settled_stored|]. apply and_wlog_l; [apply HP|].
    split; [by apply rep_rotate|]. unfold rename_active. by rewrite Ha. }
  intros []. eapply (triple_bind _ _ (fun _ => P)).
  { apply triple_atomic. intros d' [Hd' Ha']. split; [by apply Hst|]. apply and_wlog_l; [apply HP|]. split; [by apply rep_set_meta|done]. }
  intros []. eapply (triple_bind _ _ (fun _ d' => P d' /\ dk_manifest d' = Some (rotated_manifest m n))).
  { apply triple_atomic. intros d' [Hd' Ha']. split; [by apply Hst|]. apply and_wlog_l; [intros [? _]; by apply HP|]. split; [|done].
    split; [|done]. apply rep_set_manifest; [done|by rewrite Elat|by intros []%app_eq_nil]. }
  intros []. eapply (triple_bind _ _ (fun _ d' => settled d' chunks' [])).
  { apply triple_get. intros d' [[Hd' Ha'] Em]. rewrite Ha'. apply triple_atomic. intros ? ->. split; [by apply Hst|].
    apply and_wlog_l; [intros [? _ _]; by apply Hst|]. split; simpl; [|done|by rewrite Em].
    apply rep_set_active; [done|]. left. exists []. auto. }
  intros []. eapply (triple_bind _ _ (fun _ d' => settled d' chunks' [])).
  { destruct (dk_active_meta d); [|by apply triple_ret]. apply triple_atomic. intros d' Hd'. split; [apply Hst, Hd'|].
    apply and_wlog_l; [intros [? _ _]; by apply Hst|]. by apply settled_set_active_meta. }
  intros []. apply triple_cache; [intros; apply cache_ok_clear|]. intros d' Hd'. exists chunks', []. split; [done|].
  unfold chunks'. by rewrite stream_rotate.
Qed.
Lemma rotate_spec es : triple storage_error (fun d => stored d es) (fun d => settled_as d es)
  (rotate_active_if_needed_locked max_active_bytes) (fun _ d => settled_as d es).
Proof.
  unfold rotate_active_if_needed_locked. apply triple_get. intros d (chunks & act & Hs & ->).
  assert (settled_as d (stream chunks act)) as Has by (by exists chunks, act).
  destruct max_active_bytes as [bound|]; [|by apply triple_ret; intros ? ->]. pose proof Hs as [H Ha Hm]. rewrite Ha.
  destruct (_ || _) eqn:Esz; [by apply triple_ret; intros ? ->|]. apply orb_false_iff in Esz as [Esz _].
  rewrite bounds_enc by (by eapply rep_act_good). destruct (_ || _); [by apply triple_ret; intros ? ->|].
  apply rotate_active_spec; [done|]. by intros ->.
Qed.

(** ** Writing entries *)
Lemma stream_app chunks act new : stream chunks (act ++ new) = stream chunks act ++ new.
Proof. unfold stream. by rewrite app_assoc. Qed.
(** Any part of the bytes of [new] is some of its entries and a torn line, or some
    of them without the last newline. *)
Lemma prefix_entries act new k : exists new', new' `prefix_of` new /\ active_of (Some (enc act ++ take k (enc new))) (act ++ new').
Proof.
  revert act k. induction new as [|e new IH]; intros act k.
  { exists []. split; [done|]. replace (take k (enc [])) with ([] : bytes) by (by destruct k). left. exists []. rewrite !app_nil_r. auto. }
  rewrite enc_cons, encode_body. destruct (decide (k < length (body e))) as [Hk|Hk].
  { exists []. split; [apply prefix_nil|]. left. exists (take k (body e)). rewrite <- app_assoc, take_app_le, app_nil_r by lia. split; [done|].
    destruct (decide (k = 0)) as [->|Hk0]; [by left|]. right. split.
    - intros E%(f_equal length). rewrite length_take in E. simpl in E. lia.
    - exists e. split; [by exists (drop k (body e)); rewrite take_drop|]. intros E%(f_equal length). rewrite length_take in E. lia. }
  destruct (decide (k = length (body e))) as [->|Hk'].
  { exists [e]. split; [by apply prefix_cons, prefix_nil|]. right. rewrite <- (app_assoc (body e)), take_app_length. split; [|by destruct act].
    by rewrite enc_snoc, encode_body, <- app_assoc. }
  destruct (IH (act ++ [e]) (k - length (encode_entry e))) as (new' & Hp & Ha).
  exists (e :: new'). split; [by apply prefix_cons|]. rewrite enc_snoc, <- !app_assoc in Ha. simpl in Ha.
  replace (enc act ++ take k ((body e ++ [10%N]) ++ enc new)) with (enc act ++ encode_entry e ++ take (k - length (encode_entry e)) (enc new)); [done|].
  f_equal. rewrite <- encode_body. rewrite take_app_ge; [done|]. rewrite encode_body, length_app. simpl. lia.
Qed.
Definition written_part (es new : list LogEntry) d : Prop := exists new', new' `prefix_of` new /\ stored d (es ++ new').
Lemma stored_part es new d : stored d es -> written_part es new d.
Proof. intros H. exists []. rewrite app_nil_r. split; [apply prefix_nil|done]. Qed.
Section new.
Context d chunks act (new : list LogEntry) (Hs : settled d chunks act) (Hg : Forall good new)
  (Hc : consecutive le_seq (Z.of_nat (length (stream chunks act)) + 1) new).
Lemma rep_append new' b : new' `prefix_of` new -> active_of (Some (enc act ++ b)) (act ++ new') -> rep (append_active b d) chunks (act ++ new').
Proof.
  intros [k Hk] Ha. destruct Hs as [H Hact _]. unfold append_active. rewrite Hact. simpl. rewrite Hk in Hg, Hc.
  apply Forall_app in Hg as [Hg' _]. apply consecutive_app in Hc as [Hc' _].
  constructor; simpl; [apply (rep_segs _ _ _ H)|apply (rep_names _ _ _ H)|done| | | |apply (rep_rows _ _ _ H)]; rewrite stream_app.
  - apply Forall_app. split; [apply (rep_good _ _ _ H)|done].
  - apply consecutive_app. split; [apply (rep_seqs _ _ _ H)|]. eapply consecutive_cast; [exact Hc'|]. lia.
  - pose proof (rep_latest _ _ _ H) as Hl. destruct (dk_manifest d); [|done]. rewrite length_app. lia.
Qed.
(** The state after the write, before the manifest follows *)
Definition written d' : Prop :=
  rep d' chunks (act ++ new) /\ dk_active d' = Some (enc (act ++ new)) /\ dk_manifest d' = dk_manifest d.
Abbreviation I := (written_part (stream chunks act) new).
Lemma written_ok d' : written d' -> I d'.
Proof. intros [H _]. exists new. split; [done|]. exists chunks, (act ++ new). by rewrite stream_app. Qed.
Lemma settled_new d' : settled d' chunks (act ++ new) -> I d'.
Proof. intros [H _ _]. exists new. split; [done|]. exists chunks, (act ++ new). by rewrite stream_app. Qed.
Lemma write_spec : triple no_error I (fun d' => d' = d) (write_active (enc new)) (fun _ => written).
Proof.
  apply triple_write. intros ? ->. split.
  - intros k. destruct (prefix_entries act new k) as (new' & Hp & Ha). exists new'. split; [done|].
    exists chunks, (act ++ new'). split; [by apply rep_append|]. by rewrite stream_app.
  - split; [|split; [|done]].
    + apply rep_append; [done|]. left. exists []. rewrite app_nil_r, enc_app. auto.
    + unfold append_active. rewrite (settled_active _ _ _ Hs). simpl. by rewrite enc_app.
Qed.
Lemma growth_spec : triple no_error I written (require_exact_append_growth (length (enc act)) (length (enc new))) (fun _ => written).
Proof.
  unfold require_exact_append_growth. apply triple_open. intros d' Hd'. exists (enc (act ++ new)). split; [apply Hd'|].
  rewrite enc_app, length_app, Nat.eqb_refl. apply triple_ret. by intros ? ->.
Qed.
Lemma update_spec : new <> [] ->
  triple no_error I written (update_manifest_latest_seq_locked (last_seq new)) (fun _ d' => settled d' chunks (act ++ new)).
Proof.
  intros Hne. unfold update_manifest_latest_seq_locked. apply triple_get. intros d' Hd'. pose proof Hd' as (H & Ha & Em).
  pose proof (settled_manifest _ _ _ Hs) as Hm. rewrite Em. destruct (dk_manifest d) as [m|] eqn:Emd.
  2: { apply triple_ret. intros ? ->. split; [done..|]. by rewrite Em. }
  destruct Hm as [Hr Hl]. rewrite Hl, (last_seq_consecutive _ _ Hc Hne).
  assert (0 < length new) by (destruct new; simpl; [done|lia]).
  destruct (Z.leb_spec (Z.of_nat (length (stream chunks act)) + 1 + Z.of_nat (length new) - 1) (Z.of_nat (length (stream chunks act)))); [lia|].
  apply triple_atomic. intros ? ->. split; [by apply written_ok|]. apply and_wlog_l; [apply settled_new|].
  split; simpl; [|done|]. 2: { split; [done|]. rewrite stream_app, length_app. lia. }
  apply rep_set_manifest; simpl; [done|rewrite stream_app, length_app; lia|]. intros ->. by rewrite Hr.
Qed.
End new.

(** ** Appending *)
Definition append_error (err : log_error) : Prop := err = StorageSecurityError \/ err = ConflictError \/ err = ValueError.
Lemma repair_stored es : triple storage_error (fun d => stored d es) (fun d => stored d es) repair_manifest_locked (fun _ d => settled_as d es).
Proof.
  intros w Hw HK. destruct (dk_active (w_disk w)) as [b|] eqn:Ea.
  - destruct Hw as (chunks & act & H & ->). assert (dk_active (w_disk w) <> None) as Ha by congruence.
    pose proof (repair_spec (K := cache_ok) chunks act w (conj H Ha) HK) as Hr.
    destruct (repair_manifest_locked w) as [w' [[]|err]].
    + destruct Hr as (Hr & ?). split; [|done]. by exists chunks, act.
    + destruct Hr as (Hr & ? & Hc). split; [by exists chunks, act|]. split; [done|]. by intros ?%Hc.
  - unfold repair_manifest_locked, recover_torn_active_tail_locked, open_active_file, se_bind at 1 2. rewrite Ea. done.
Qed.
(** The stored completions that an append is compared with *)
Definition same_completion (event_id : str) es : list LogEntry :=
  filter (fun e => py_eq (py_get (u "event_id") (le_event e)) (JStr event_id)) (found (completion_spec event_id) es).
Definition replays (idempotent : option (str * str * fields)) es (r : option LogEntry) : Prop :=
  match idempotent with
  | None => r = None
  | Some (event_id, fingerprint, canonical) =>
    r = head (same_completion event_id es) /\ check_matches fingerprint canonical (same_completion event_id es) = Ret tt
  end.
Lemma find_completion_run idem d chunks act w : settled d chunks act -> w_disk w = d -> cache_ok (w_cache w) ->
  exists c, cache_ok c /\ find_completion idem w =
    (match idem with None => w | Some _ => mkWorld d c (w_faults w) end,
     match idem with
     | None => Ret None
     | Some (event_id, fingerprint, canonical) =>
       match check_matches fingerprint canonical (same_completion event_id (stream chunks act)) with
       | Ret _ => Ret (head (same_completion event_id (stream chunks act)))
       | Raise err => Raise err
       end
     end).
Proof.
  intros Hs Hw Hok. destruct idem as [[[event_id fingerprint] canonical]|]; [|by exists (w_cache w)].
  unfold find_completion, se_bind, se_lift, se_ret.
  destruct (query_asc_found _ _ _ (completion_spec event_id) None w Hs Hw Hok) as (c & Hok' & E); [done|].
  rewrite E. exists c. split; [done|]. simpl. fold (same_completion event_id (stream chunks act)). by destruct (check_matches _ _ _).
Qed.
Lemma check_matches_error f c l err : check_matches f c l = Raise err -> err = ConflictError.
Proof.
  induction l as [|e l IH]; simpl; [done|]. intros H.
  destruct (canonical_idempotent_event (le_event e)) as [[[[i f'] c']|]|]; [|by injection H as <-..].
  destruct (_ || _); [by injection H as <-|by apply IH].
Qed.
Lemma find_completion_spec idem es : triple append_error (fun d => stored d es) (fun d => settled_as d es) (find_completion idem)
  (fun r d => settled_as d es /\ replays idem es r).
Proof.
  intros w (chunks & act & Hs & ->) HK. destruct (find_completion_run idem _ _ _ w Hs eq_refl HK) as (c & Hok & ->).
  assert (settled_as (w_disk w) (stream chunks act)) as Has by (by exists chunks, act).
  destruct idem as [[[event_id fingerprint] canonical]|]; [|by auto].
  destruct (check_matches _ _ _) as [[]|err] eqn:E; [simpl; by auto|]. split; [by apply settled_stored|].
  split; [done|]. intros _. apply check_matches_error in E. right. by left.
Qed.
Lemma same_completion_in event_id es e : head (same_completion event_id es) = Some e -> e ∈ es.
Proof.
  intros (l & E)%head_Some. assert (e ∈ same_completion event_id es) as H by (rewrite E; set_solver).
  unfold same_completion, found in H. apply list_elem_of_filter in H as [_ H]. by apply list_elem_of_filter in H as [_ H].
Qed.
Definition payload_of (event : fields) : fields := stamp_history (set_schema_version (sanitize event)).
Definition next_entry (n : nat) (now : Z * positive) (event : fields) : LogEntry := mkEntry (Z.of_nat n + 1) now (payload_of event).
Definition plain_time (now : Z * positive) : Prop := plain (JFloat now.1 now.2).
(** Writing one entry at the end of a settled log *)
Lemma append_entry_spec d chunks act e : settled d chunks act -> good e -> le_seq e = (Z.of_nat (length (stream chunks act)) + 1)%Z ->
  triple append_error (written_part (stream chunks act) [e]) (fun d' => d' = d)
    (let! _ := write_active (encode_entry e) in
     let! _ := require_exact_append_growth (length (enc act)) (length (encode_entry e)) in
     let! _ := update_manifest_latest_seq_locked (le_seq e) in
     let! _ := update_cache (le_seq e) (length (enc act)) in
     se_ret e)
    (fun e' d' => e' = e /\ settled_as d' (stream chunks act ++ [e])).
Proof.
  intros Hs Hg Hq. assert (Forall good [e]) as Hg1 by (by apply Forall_singleton).
  assert (consecutive le_seq (Z.of_nat (length (stream chunks act)) + 1) [e]) as Hc1 by done.
  rewrite <- enc_one. apply (triple_weaken no_error _ (written_part (stream chunks act) [e]) _); [done|done|].
  eapply triple_bind; [by apply write_spec|]. intros []. eapply triple_bind; [by apply growth_spec|].
  intros []. eapply triple_bind; [by apply (update_spec d chunks act [e])|].
  intros []. eapply (triple_bind _ _ (fun _ d' => settled d' chunks (act ++ [e]))).
  { unfold update_cache. apply triple_get. intros d' Hd'. rewrite (settled_active _ _ _ Hd'). pose proof (settled_rep _ _ _ Hd') as H'.
    apply triple_cache; [|by intros ? ->]. intros c Hc. pose proof (rep_seqs _ _ _ H') as Hcs. apply consecutive_app in Hcs as [_ Hcs].
    eapply cache_update_ok; [done|exact Hcs|by eapply rep_act_good]. }
  intros []. apply triple_ret. intros d' Hd'. split; [done|]. exists chunks, (act ++ [e]). by rewrite stream_app.
Qed.
Lemma append_spec now event es : plain_time now ->
  triple append_error (written_part es [next_entry (length es) now event]) (fun d => stored d es) (append_sync max_active_bytes now event)
    (fun e d => e = next_entry (length es) now event /\ settled_as d (es ++ [e]) \/ e ∈ es /\ settled_as d es).
Proof.
  intros Hnow. unfold append_sync. set (new := next_entry (length es) now event).
  assert (forall d, stored d es -> written_part es [new] d) as Hpart by (intros; by apply stored_part).
  apply triple_lift. destruct (canonical_idempotent_event _) as [idem|err] eqn:Ei.
  2: { split; [|done]. unfold canonical_idempotent_event in Ei. right. right. crush_match. }
  eapply triple_bind. { eapply triple_weaken; [| |apply (repair_stored es)]; [by left|done]. }
  intros []. eapply triple_bind. { eapply triple_weaken; [| |apply (find_completion_spec idem es)]; done. }
  intros [e|].
  { apply triple_ret. intros d [Hd Hr]. right. split; [|done]. destruct idem as [[[i f] c]|]; [|done].
    destruct Hr as [Hr _]. symmetry in Hr. by apply same_completion_in in Hr. }
  eapply triple_bind.
  { eapply triple_pre; [|eapply triple_weaken; [| |apply (rotate_spec es)]]; [by intros ? [? _]|by left|done]. }
  intros []. apply triple_open. intros d (chunks & act & Hs & ->). exists (enc act). split; [apply (settled_active _ _ _ Hs)|].
  apply triple_get. intros ? ->. rewrite (latest_settled _ _ _ Hs). fold (payload_of event).
  change (mkEntry _ now _) with new. eapply triple_post; [|apply append_entry_spec; [done| |done]].
  - intros e d' [-> ?]. by left.
  - split; [simpl; lia|apply plain_stamped|done].
Qed.

(** ** The terminal pair *)
(** Faults that are reported before what they interrupt is published *)
Definition prompt_faults (fs : list io_fault) : Prop := IoFailLate ∉ fs.
(** A single failure, of a process that lives on *)
Fixpoint one_failure (fs : list io_fault) : bool :=
  match fs with IoOk :: fs => one_failure fs | IoFail _ :: fs => match fs with [] => true | _ => false end | _ => false end.
Definition effect_cases (failed died : nat -> Disk -> Disk) (all : Disk -> Disk) (err : log_error) (w : World) (d' : Disk) (r : outcome log_error unit) : Prop :=
  r = Ret tt /\ d' = all (w_disk w) /\ (one_failure (w_faults w) -> one_failure (tail (w_faults w))) \/
  w_faults w <> [] /\ r = Raise err /\ (exists k, d' = failed k (w_disk w)) /\ err <> ProcessDied /\ (one_failure (w_faults w) -> tail (w_faults w) = []) \/
  w_faults w <> [] /\ r = Raise ProcessDied /\ (exists k, d' = died k (w_disk w)) /\ ~ one_failure (w_faults w).
Lemma effect_run failed died all err w : prompt_faults (w_faults w) -> err <> ProcessDied ->
  exists d' r, effect failed died all err w = (mkWorld d' (w_cache w) (tail (w_faults w)), r) /\ prompt_faults (tail (w_faults w)) /\
    effect_cases failed died all err w d' r.
Proof.
  intros Hp He. unfold effect, effect_cases. destruct (w_faults w) as [|[|k| |k] l] eqn:Ef; simpl.
  - do 2 eexists. split; [done|]. split; [done|]. left. auto.
  - do 2 eexists. split; [done|]. split; [unfold prompt_faults in *; set_solver|]. left. done.
  - do 2 eexists. split; [done|]. split; [unfold prompt_faults in *; set_solver|]. right; left. do 2 (split; [done|]). split; [eauto|].
    split; [done|]. by destruct l.
  - exfalso. apply Hp. left.
  - do 2 eexists. split; [done|]. split; [unfold prompt_faults in *; set_solver|]. right; right. do 2 (split; [done|]). split; [eauto|by intros []].
Qed.
Section pair.
Context d chunks act (new : list LogEntry) (Hs : settled d chunks act) (Hg : Forall good new) (Hne : new <> [])
  (Hc : consecutive le_seq (Z.of_nat (length (stream chunks act)) + 1) new).
Abbreviation I := (written_part (stream chunks act) new).
Abbreviation commit := (let! _ := write_active (enc new) in
  let! _ := require_exact_append_growth (length (enc act)) (length (enc new)) in update_manifest_latest_seq_locked (last_seq new)).
Abbreviation rollback := (let! _ := truncate_active (length (enc act)) in update_manifest_latest_seq_locked (latest_seq_for_append (enc act) d)).
Lemma base_part : I d.
Proof. apply stored_part, settled_stored. by exists chunks, act. Qed.
Lemma middle_part k : I (append_active (take k (enc new)) d).
Proof.
  destruct (prefix_entries act new k) as (new' & Hpre & Ha). exists new'. split; [done|].
  exists chunks, (act ++ new'). split; [by eapply rep_append|]. by rewrite stream_app.
Qed.
(** The handler takes the log back to what it was, unless it fails as well. *)
Lemma rollback_run k w : w_disk w = append_active (take k (enc new)) d -> prompt_faults (w_faults w) ->
  exists w' r, rollback w = (w', r) /\ w_cache w' = w_cache w /\ I (w_disk w') /\ (w_faults w = [] -> r = Ret tt /\ w_disk w' = d).
Proof.
  intros Hw Hp. assert (set_active (take (length (enc act)) <$> dk_active (w_disk w)) (w_disk w) = d) as Eback.
  { rewrite Hw. unfold append_active, set_active. simpl. rewrite (settled_active _ _ _ Hs). simpl. rewrite take_app_length.
    pose proof (settled_active _ _ _ Hs) as Ha. destruct d. simpl in *. by rewrite Ha. }
  unfold se_bind, truncate_active, atomic.
  edestruct (effect_run (fun _ d => d)) as (d' & r & -> & _ & Hcase); [exact Hp|done|].
  destruct Hcase as [(-> & -> & _)|[(Hf & -> & (j & ->) & _)|(Hf & -> & (j & ->) & _)]].
  - rewrite Eback. unfold update_manifest_latest_seq_locked, se_bind, get_disk. simpl. rewrite (latest_settled _ _ _ Hs).
    pose proof (settled_manifest _ _ _ Hs) as Hm. pose proof base_part. destruct (dk_manifest d) as [m|]; [|by do 2 eexists].
    destruct Hm as [_ ->]. rewrite Z.leb_refl. by do 2 eexists.
  - do 2 eexists. split; [done|]. simpl. rewrite Hw. pose proof (middle_part k). done.
  - do 2 eexists. split; [done|]. simpl. destruct (j =? 0); [rewrite Hw; pose proof (middle_part k); done|].
    rewrite Eback. pose proof base_part. done.
Qed.
Lemma commit_run w : w_disk w = d -> cache_ok (w_cache w) -> prompt_faults (w_faults w) ->
  exists w' r, commit w = (w', r) /\ w_cache w' = w_cache w /\ prompt_faults (w_faults w') /\
    match r with
    | Ret _ => settled (w_disk w') chunks (act ++ new)
    | Raise ProcessDied => I (w_disk w') /\ ~ one_failure (w_faults w)
    | Raise _ => (exists k, w_disk w' = append_active (take k (enc new)) d) /\ (one_failure (w_faults w) -> w_faults w' = [])
    end.
Proof.
  intros Hw HK Hp. unfold se_bind at 1, write_active.
  edestruct (effect_run (fun k => append_active (take k (enc new)))) as (d1 & r1 & -> & Hp1 & Hcase); [exact Hp|done|].
  unfold effect_cases in Hcase. rewrite Hw in Hcase. destruct Hcase as [(-> & -> & Hone)|[(Hf & -> & (j & ->) & _ & Hone)|(Hf & -> & (j & ->) & Hone)]].
  2: { do 2 eexists. split; [done|]. simpl. eauto. }
  2: { do 2 eexists. split; [done|]. simpl. split; [done|]. split; [done|]. split; [apply middle_part|done]. }
  set (w1 := mkWorld _ _ _). assert (written d chunks act new (w_disk w1)) as Hwr.
  { split; [|split; [|done]]; simpl.
    - apply (rep_append d chunks act new); [done..|]. left. exists []. rewrite app_nil_r, enc_app. auto.
    - unfold append_active. rewrite (settled_active _ _ _ Hs). simpl. by rewrite enc_app. }
  assert (require_exact_append_growth (length (enc act)) (length (enc new)) w1 = (w1, Ret tt)) as Egr.
  { unfold require_exact_append_growth, se_bind, open_active_file. destruct Hwr as (_ & -> & _). by rewrite enc_app, length_app, Nat.eqb_refl. }
  unfold se_bind. rewrite Egr. pose proof (update_spec d chunks act new Hs Hg Hc Hne w1 Hwr HK) as Hupd.
  unfold update_manifest_latest_seq_locked, se_bind, get_disk in *. pose proof Hwr as (_ & _ & Em). rewrite Em in *.
  destruct (dk_manifest d) as [m|]. 2: { do 2 eexists. split; [done|]. split; [done|]. split; [done|]. apply Hupd. }
  destruct (_ <=? _)%Z. { do 2 eexists. split; [done|]. split; [done|]. split; [done|]. apply Hupd. }
  unfold write_manifest, atomic in *. revert Hupd.
  edestruct (effect_run (fun _ d => d)) as (d2 & r2 & -> & Hp2 & Hcase2); [exact Hp1|done|]. intros Hupd.
  do 2 eexists. split; [done|]. split; [done|]. split; [done|].
  destruct Hcase2 as [(-> & _)|[(Hf & -> & (j & ->) & _ & Hone2)|(Hf & -> & (j & ->) & Hone2)]].
  - apply Hupd.
  - simpl. split; [exists (length (enc new)); by rewrite firstn_all|]. naive_solver.
  - simpl in *. split; [apply Hupd|]. naive_solver.
Qed.
(** A pair is written whole; a failure that the handler can undo leaves nothing
    of it. *)
Lemma pair_run w : w_disk w = d -> cache_ok (w_cache w) -> prompt_faults (w_faults w) ->
  exists w' r, on_error commit rollback w = (w', r) /\ cache_ok (w_cache w') /\
    match r with
    | Ret _ => settled (w_disk w') chunks (act ++ new)
    | Raise err => I (w_disk w') /\ (one_failure (w_faults w) -> w_disk w' = d)
    end.
Proof.
  intros Hw HK Hp. unfold on_error. destruct (commit_run w Hw HK Hp) as (w1 & r & -> & Eca & Hp1 & Hr).
  rewrite <- Eca in HK. destruct r as [x|err]; [by do 2 eexists|].
  assert (err = ProcessDied \/ (exists k, w_disk w1 = append_active (take k (enc new)) d) /\ (one_failure (w_faults w) -> w_faults w1 = [])
    /\ err <> ProcessDied) as [->|((k & Hk) & Hone & Herr)].
  { destruct err; auto; right; (split; [apply Hr|split; [apply Hr|done]]). }
  { do 2 eexists. split; [done|]. split; [done|]. split; [apply Hr|]. by intros ?%Hr. }
  destruct (rollback_run k w1 Hk Hp1) as (w2 & r2 & E & Eca2 & HI & Hback).
  assert ((match err with ProcessDied => (w1, Raise ProcessDied) | _ => se_bind rollback (fun _ => se_raise err) w1 end : World * outcome log_error unit) =
    (w2, match r2 with Ret _ => Raise err | Raise x => Raise x end)) as Eon.
  { clear Hr. destruct err; try done; unfold se_bind at 1; rewrite E; by destruct r2. }
  exists w2. eexists. split.
  { rewrite <- Eon. by destruct err. }
  split; [by rewrite Eca2|]. destruct r2; (split; [done|]); intros H1; apply Hback; by apply Hone.
Qed.
End pair.
Lemma spared_prompt fs fs' : spared fs fs' -> prompt_faults fs -> prompt_faults fs'.
Proof. unfold prompt_faults. intros [n ->]. set_solver. Qed.
Lemma spared_one_failure fs fs' : spared fs fs' -> one_failure fs = one_failure fs'.
Proof. intros [n ->]. by induction n. Qed.
Definition pair_entries (n : nat) (now : Z * positive) (recap detach : fields) : list LogEntry :=
  [mkEntry (Z.of_nat n + 1) now (set_schema_version (sanitize recap)); mkEntry (Z.of_nat n + 2) now (set_schema_version (sanitize detach))].
Lemma pair_cache act e1 e2 n c : cache_ok c -> consecutive le_seq n (act ++ [e1; e2]) -> Forall good (act ++ [e1; e2]) ->
  cache_ok (cache_update (le_seq e2) (length (enc act) + length (encode_entry e1)) (Some (enc (act ++ [e1; e2])))
    (cache_update (le_seq e1) (length (enc act)) (Some (enc (act ++ [e1; e2]))) c)).
Proof.
  intros Hok Hc Hg. destruct (cache_update_ok c n act e1 [e2] Hok Hc Hg) as (Hok1 & _).
  rewrite length_enc_snoc. assert (act ++ [e1; e2] = (act ++ [e1]) ++ [e2]) as E by (by rewrite <- app_assoc).
  rewrite E in *. by eapply (cache_update_ok _ n (act ++ [e1]) e2 []).
Qed.
(** What a terminal pair leaves *)
Definition pair_outcome es new (fs : list io_fault) (x : World * outcome log_error (LogEntry * LogEntry)) : Prop :=
  cache_ok (w_cache x.1) /\
  match x.2 with
  | Ret (e1, e2) => [e1; e2] = new /\ settled_as (w_disk x.1) (es ++ new)
  | Raise _ => written_part es new (w_disk x.1) /\ (one_failure fs -> stored (w_disk x.1) es)
  end.
Lemma terminal_pair_spec now recap detach es w : plain_time now -> stored (w_disk w) es -> cache_ok (w_cache w) -> prompt_faults (w_faults w) ->
  pair_outcome es (pair_entries (length es) now recap detach) (w_faults w) (append_terminal_pair_sync max_active_bytes now recap detach w).
Proof.
  intros Hnow Hst HK Hp. unfold append_terminal_pair_sync. set (new := pair_entries _ _ _ _). unfold se_bind at 1.
  pose proof (repair_stored es w Hst HK) as H1. destruct (repair_manifest_locked w) as [w1 [[]|err]].
  2: { destruct H1 as (? & ? & _). split; [done|]. split; [by apply stored_part|done]. }
  destruct H1 as (H1 & HK1 & Hsp1). unfold se_bind at 1. pose proof (rotate_spec es w1 H1 HK1) as H2.
  destruct (rotate_active_if_needed_locked max_active_bytes w1) as [w2 [[]|err]].
  2: { destruct H2 as (? & ? & _). split; [done|]. split; [by apply stored_part|done]. }
  destruct H2 as ((chunks & act & Hs & ->) & HK2 & Hsp2). assert (spared (w_faults w) (w_faults w2)) as Hsp by (by eapply spared_trans).
  unfold se_bind at 1, open_active_file at 1. rewrite (settled_active _ _ _ Hs). unfold se_bind at 1, get_disk at 1. cbv zeta.
  assert (Forall good new) as Hg by (repeat apply Forall_cons_2; try apply Forall_nil_2; (split; [simpl; lia|apply plain_payload|done])).
  assert (consecutive le_seq (Z.of_nat (length (stream chunks act)) + 1) new) as Hc by (simpl; lia).
  pose proof (pair_run (w_disk w2) chunks act new Hs Hg ltac:(done) Hc w2 eq_refl HK2 (spared_prompt _ _ Hsp Hp)) as (w3 & r & E & HK3 & Hr).
  rewrite (latest_settled _ _ _ Hs) in *. unfold se_bind at 1.
  set (e1 := mkEntry _ now (set_schema_version (sanitize recap))). set (e2 := mkEntry _ now (set_schema_version (sanitize detach))).
  assert (encode_entry e1 ++ encode_entry e2 = enc new) as -> by (unfold enc; simpl; by rewrite app_nil_r).
  change (le_seq e2) with (last_seq new) at 1. rewrite E. destruct r as [[]|err].
  2: { destruct Hr as [Hr1 Hr2]. split; [done|]. split; [done|]. intros H. simpl. rewrite Hr2 by (by rewrite <- (spared_one_failure _ _ Hsp)). apply settled_stored. by exists chunks, act. }
  unfold update_cache, se_bind, get_disk, upd_cache, se_ret. simpl. rewrite (settled_active _ _ _ Hr).
  pose proof (settled_rep _ _ _ Hr) as H'. split; simpl.
  - pose proof (rep_seqs _ _ _ H') as Hcs. apply consecutive_app in Hcs as [_ Hcs]. eapply pair_cache; [done|exact Hcs|by eapply rep_act_good].
  - split; [done|]. exists chunks, (act ++ new). by rewrite stream_app.
Qed.

(** ** Histories *)
(** What happens to a log: it is opened, appended to and queried, with the faults
    that strike each call, and its metadata is damaged. *)
Inductive log_op :=
| OpOpen (faults : list io_fault)
| OpAppend (now : Z * positive) (event : fields) (faults : list io_fault)
| OpPair (now : Z * positive) (recap detach : fields) (faults : list io_fault)
| OpQuery (spec : QuerySpec) (order : direction) (limit : option Z) (cursor : option QueryCursor) (strict : option (LogEntry -> bool))
| OpDamage (metas : SegName -> option SegMeta) (manifest : option Manifest) (active_meta : option (bool * Z)).
Inductive log_result :=
| ROpen (r : outcome log_error unit)
| RAppend (r : outcome log_error LogEntry)
| RPair (r : outcome log_error (LogEntry * LogEntry))
| RQuery (r : outcome log_error (list LogEntry * option QueryCursor))
| RDamage.
(** Damage replaces every sidecar, and the manifest of a log that has segments by
    one that knows of no later sequence, or by nothing. *)
Definition damage (metas : SegName -> option SegMeta) (manifest : option Manifest) (active_meta : option (bool * Z)) (d : Disk) : Disk :=
  let latest := match dk_manifest d with Some m => mf_latest m | None => 0%Z end in
  mkDisk (dk_active d) ((fun p => (p.1, mkSeg (sf_bytes p.2) (metas p.1))) <$> dk_segments d)
    (match dk_segments d with
     | [] => dk_manifest d
     | _ => (fun m => mkManifest (mf_generation m) (mf_rows m) (mf_min m) (Z.min (mf_latest m) latest)) <$> manifest
     end) active_meta.
Definition state_of {A} (x : World * A) : Disk * Cache := (w_disk x.1, w_cache x.1).
Definition exec (op : log_op) (st : Disk * Cache) : (Disk * Cache) * log_result :=
  match op with
  | OpOpen fs => let x := open_log (mkWorld st.1 st.2 fs) in (state_of x, ROpen x.2)
  | OpAppend now event fs => let x := append_sync max_active_bytes now event (mkWorld st.1 st.2 fs) in (state_of x, RAppend x.2)
  | OpPair now recap detach fs => let x := append_terminal_pair_sync max_active_bytes now recap detach (mkWorld st.1 st.2 fs) in (state_of x, RPair x.2)
  | OpQuery spec order limit cursor strict => let x := query_sync spec order limit cursor strict (mkWorld st.1 st.2 []) in (state_of x, RQuery x.2)
  | OpDamage metas m am => ((damage metas m am st.1, st.2), RDamage)
  end.
Fixpoint exec_all (ops : list log_op) (st : Disk * Cache) : (Disk * Cache) * list log_result :=
  match ops with
  | [] => (st, [])
  | op :: ops => let '(st, r) := exec op st in let '(st, rs) := exec_all ops st in (st, r :: rs)
  end.
Definition op_ok (op : log_op) : Prop :=
  match op with
  | OpAppend now _ _ => plain_time now
  | OpPair now _ _ fs => plain_time now /\ prompt_faults fs
  | _ => True
  end.
(** The abstract log: a list of entries. An acknowledged call has its entries at
    the end of it; a call that raised has a prefix of them, and a terminal pair
    none of them if the failure was the only one. *)
Inductive spec_step : list LogEntry -> log_op -> log_result -> list LogEntry -> Prop :=
| spec_open es fs r : spec_step es (OpOpen fs) (ROpen r) es
| spec_append es now event fs : let e := next_entry (length es) now event in
    spec_step es (OpAppend now event fs) (RAppend (Ret e)) (es ++ [e])
| spec_replay es now event fs e : e ∈ es -> spec_step es (OpAppend now event fs) (RAppend (Ret e)) es
| spec_append_raise es now event fs err new : new `prefix_of` [next_entry (length es) now event] ->
    spec_step es (OpAppend now event fs) (RAppend (Raise err)) (es ++ new)
| spec_pair es now recap detach fs e1 e2 : pair_entries (length es) now recap detach = [e1; e2] ->
    spec_step es (OpPair now recap detach fs) (RPair (Ret (e1, e2))) (es ++ [e1; e2])
| spec_pair_raise es now recap detach fs err new : new `prefix_of` pair_entries (length es) now recap detach -> (one_failure fs -> new = []) ->
    spec_step es (OpPair now recap detach fs) (RPair (Raise err)) (es ++ new)
| spec_query es spec order limit cursor strict r : spec_step es (OpQuery spec order limit cursor strict) (RQuery r) es
| spec_damage es metas m am : spec_step es (OpDamage metas m am) RDamage es.
Inductive spec_run : list LogEntry -> list log_op -> list log_result -> list LogEntry -> Prop :=
| spec_run_nil es : spec_run es [] [] es
| spec_run_cons es op r es1 ops rs es2 : spec_step es op r es1 -> spec_run es1 ops rs es2 -> spec_run es (op :: ops) (r :: rs) es2.
Definition blank : Disk * Cache := (mkDisk None [] None None, cache_clear).

Lemma stored_blank : stored (mkDisk None [] None None) [].
Proof. exists [], []. split; [|done]. constructor; simpl; auto; constructor. Qed.
Lemma stored_damage d es metas m am : stored d es -> stored (damage metas m am d) es.
Proof.
  intros (chunks & act & [H1 H2 H3 H4 H5 H6 H7] & ->). exists chunks, act. split; [|done]. constructor; simpl; try done.
  - unfold seg_shape in *. simpl. rewrite <- list_fmap_compose. rewrite <- H1. apply list_fmap_ext. by intros i [n f] _.
  - destruct (dk_segments d) eqn:Es; [done|]. destruct m as [m|]; simpl; [|done]. destruct (dk_manifest d); lia.
  - intros ->. unfold seg_shape in H1. simpl in H1. apply fmap_nil_inv in H1. rewrite H1. by apply H7.
Qed.
Lemma exec_step op st es : op_ok op -> stored st.1 es -> cache_ok st.2 ->
  let '(st', r) := exec op st in exists es', spec_step es op r es' /\ stored st'.1 es' /\ cache_ok st'.2.
Proof.
  intros Hop Hst HK. destruct st as [d c]. destruct op as [fs|now event fs|now recap detach fs|spec order limit cursor strict|metas m am]; simpl in *.
  - pose proof (open_spec es (mkWorld d c fs) Hst HK) as H. destruct (open_log _) as [w' [[]|err]]; destruct H as (H & ? & _).
    + exists es. split; [constructor|]. split; [by apply settled_stored|done].
    + exists es. split; [constructor|]. done.
  - pose proof (append_spec now event es Hop (mkWorld d c fs) Hst HK) as H. destruct (append_sync _ _ _ _) as [w' [e|err]]; destruct H as (H & ? & _).
    + destruct H as [[-> H]|[Hin H]]; eexists; (split; [by constructor|]); (split; [by apply settled_stored|done]).
    + destruct H as (new & Hp & H). exists (es ++ new). split; [by constructor|]. done.
  - destruct Hop as [Hop Hpf]. pose proof (terminal_pair_spec now recap detach es (mkWorld d c fs) Hop Hst HK Hpf) as [H1 H2].
    destruct (append_terminal_pair_sync _ _ _ _ _) as [w' [[e1 e2]|err]]; simpl in *.
    + destruct H2 as [E H2]. exists (es ++ [e1; e2]). split; [by constructor|]. split; [|done]. rewrite E. by apply settled_stored.
    + destruct H2 as [(new & Hp & H2) H3]. destruct (one_failure fs) eqn:E1.
      * exists (es ++ []). rewrite app_nil_r at 2. split; [constructor; [apply prefix_nil|done]|]. split; [by apply H3|done].
      * exists (es ++ new). split; [constructor; [done|by rewrite E1]|]. done.
  - destruct (reader_query spec order limit cursor strict (mkWorld d c []) HK) as (H1 & _ & H3). exists es. split; [constructor|].
    simpl. by rewrite H1.
  - exists es. split; [constructor|]. split; [by apply stored_damage|done].
Qed.
Lemma exec_all_stored ops st es : Forall op_ok ops -> stored st.1 es -> cache_ok st.2 ->
  let '(st', rs) := exec_all ops st in exists es', spec_run es ops rs es' /\ stored st'.1 es' /\ cache_ok st'.2.
Proof.
  intros Hops. revert st es. induction Hops as [|op ops Hop _ IH]; intros st es Hst HK; simpl.
  { exists es. split; [constructor|done]. }
  pose proof (exec_step op st es Hop Hst HK) as H. destruct (exec op st) as [st1 r]. destruct H as (es1 & Hs1 & Hst1 & HK1).
  specialize (IH st1 es1 Hst1 HK1). destruct (exec_all ops st1) as [st2 rs]. destruct IH as (es2 & Hs2 & Hst2 & HK2).
  exists es2. split; [by econstructor|done].
Qed.
(** What a process that opens the log reads with the strict scan *)
Definition read_back (d : Disk) : outcome log_error (list LogEntry * option Quarantine) :=
  ((let! _ := open_log in iter_current_entries_strict_sync) (mkWorld d cache_clear [])).2.
Lemma open_calm d c es : stored d es -> cache_ok c -> exists w, open_log (mkWorld d c []) = (w, Ret tt) /\ calm w /\ cache_ok (w_cache w) /\ settled_as (w_disk w) es.
Proof.
  intros Hst HK. pose proof (open_spec es (mkWorld d c []) Hst HK) as H. destruct (open_log _) as [w [[]|err]].
  - destruct H as (H & ? & Hsp). exists w. split; [done|]. split; [|done]. by eapply spared_calm.
  - destruct H as (_ & _ & H). by destruct H.
Qed.
Lemma read_back_stored d es : stored d es -> read_back d = Ret (es, None).
Proof.
  intros Hst. destruct (open_calm d cache_clear es Hst cache_ok_clear) as (w & E & _ & HK & chunks & act & Hs & ->).
  unfold read_back, se_bind. rewrite E. destruct (strict_found _ _ _ w Hs eq_refl HK) as (c & _ & ->). done.
Qed.

Lemma exec_all_app ops1 ops2 st : (exec_all (ops1 ++ ops2) st).1 = (exec_all ops2 (exec_all ops1 st).1).1.
Proof.
  revert st. induction ops1 as [|op ops1 IH]; intros st; [done|]. simpl. destruct (exec op st) as [st1 r]. specialize (IH st1).
  destruct (exec_all (ops1 ++ ops2) st1) as [st2 rs]. destruct (exec_all ops1 st1) as [st3 rs']. done.
Qed.
Definition is_query (op : log_op) : Prop := match op with OpQuery _ _ _ _ _ => True | _ => False end.
Lemma queries_keep queries st : Forall is_query queries -> cache_ok st.2 ->
  (exec_all queries st).1.1 = st.1 /\ cache_ok (exec_all queries st).1.2.
Proof.
  intros Hq. revert st. induction Hq as [|op queries Hop _ IH]; intros st HK; [done|]. destruct op as [| | |spec order limit cursor strict|]; try done. simpl.
  destruct (reader_query spec order limit cursor strict (mkWorld st.1 st.2 []) HK) as (H1 & _ & H3).
  specialize (IH (state_of (query_sync spec order limit cursor strict (mkWorld st.1 st.2 []))) H3).
  destruct (exec_all queries _) as [st2 rs]. simpl in *. by rewrite H1 in IH.
Qed.
(** A log that has just been opened is settled, and stays so while it is queried. *)
Lemma opened_settled ops queries : Forall op_ok ops -> Forall is_query queries ->
  exists es, settled_as (exec_all (ops ++ OpOpen [] :: queries) blank).1.1 es /\ cache_ok (exec_all (ops ++ OpOpen [] :: queries) blank).1.2.
Proof.
  intros Hops Hq. rewrite exec_all_app. pose proof (exec_all_stored ops blank [] Hops stored_blank cache_ok_clear) as H.
  destruct (exec_all ops blank) as [st rs]. destruct H as (es & _ & Hst & HK). exists es. simpl.
  destruct (open_calm st.1 st.2 es Hst HK) as (w & E & _ & HK' & Hs). rewrite E.
  destruct (queries_keep queries (state_of (w, @Ret log_error unit tt)) Hq HK') as [H1 H2].
  destruct (exec_all queries _) as [st2 rs2]. simpl in *. by rewrite H1.
Qed.



(** C22: paging returns every match exactly once. After any history, on a log that
    has been opened and then queried in any way, a reader that follows the cursors
    with a positive limit gets pages of at most that many entries, and together
    they are exactly the entries of the log that match, in the order asked for,
    in the strict mode with its exclusions as in the other. The offsets that the
    earlier queries have cached change nothing. *)
Theorem pages_exactly_once ops queries spec order limit strict :
  Forall op_ok ops -> Forall is_query queries -> (0 < limit)%Z ->
  let '(d, c) := (exec_all (ops ++ OpOpen [] :: queries) blank).1 in
  exists es, read_back d = Ret (es, None) /\
  forall fuel, length es < fuel ->
  exists w pages, read_pages fuel spec order (Some limit) strict None (mkWorld d c []) = (w, Ret pages) /\
    concat pages = matches_of spec order (filter_of strict) es /\ Forall (fun p => Z.of_nat (length p) <= limit)%Z pages.
Proof.
  intros Hops Hq Hl. destruct (opened_settled ops queries Hops Hq) as (es & Hs & HK).
  destruct (exec_all _ blank) as [[d c] rs]. simpl in *. exists es. split; [by apply read_back_stored, settled_stored|].
  intros fuel Hf. destruct Hs as (chunks & act & Hs & ->).
  destruct (pages_found d chunks act spec order limit strict fuel Hs 0 None (mkWorld d c []) eq_refl HK Hl eq_refl) as (c' & pages & _ & E & Hcat & Hall).
  { unfold matches_of, directed. pose proof (length_filter (selected spec (filter_of strict)) (stream chunks act)). destruct order; rewrite ?length_reverse; lia. }
  rewrite drop_0 in Hcat. eauto.
Qed.

(** a completion is appended once. When the log holds a completion with the id
    of the event, appending it again writes nothing: it returns the first of the
    stored ones if all of them are the same typed event, and is refused as a
    conflict otherwise. *)
Theorem completion_appended_once ops now event event_id fingerprint canonical :
  Forall op_ok ops -> plain_time now ->
  canonical_idempotent_event (set_schema_version (sanitize event)) = Ret (Some (event_id, fingerprint, canonical)) ->
  let '(d, c) := (exec_all (ops ++ [OpOpen []]) blank).1 in
  exists es, read_back d = Ret (es, None) /\
  (same_completion event_id es <> [] ->
   let '(w, r) := append_sync max_active_bytes now event (mkWorld d c []) in
   read_back (w_disk w) = Ret (es, None) /\
   r = match check_matches fingerprint canonical (same_completion event_id es), head (same_completion event_id es) with
       | Ret _, Some e => Ret e
       | _, _ => Raise ConflictError
       end).
Proof.
  intros Hops Hnow Hid. destruct (opened_settled ops [] Hops (Forall_nil_2 _)) as (es & Hs & HK).
  destruct (exec_all _ blank) as [[d c] rs]. simpl in *. exists es. split; [by apply read_back_stored, settled_stored|].
  intros Hne. unfold append_sync, se_bind at 1, se_lift. rewrite Hid. unfold se_bind at 1.
  pose proof (repair_stored es (mkWorld d c []) (settled_stored _ _ Hs) HK) as Hr.
  destruct (repair_manifest_locked _) as [w1 [[]|err]] eqn:Er.
  2: { exfalso. destruct Hs as (chunks & act & Hs & ->). pose proof (repair_spec (K := cache_ok) chunks act (mkWorld d c [])) as Hr'.
       rewrite Er in Hr'. destruct Hr' as (_ & _ & []); [split; [apply Hs|]|done|done]. simpl. by rewrite (settled_active _ _ _ Hs). }
  destruct Hr as (Hs1 & HK1 & _). assert (read_back (w_disk w1) = Ret (es, None)) as Hrb by (by apply read_back_stored, settled_stored).
  destruct Hs1 as (chunks & act & Hs1 & ->).
  destruct (find_completion_run (Some (event_id, fingerprint, canonical)) _ _ _ w1 Hs1 eq_refl HK1) as (c' & _ & E).
  unfold se_bind at 1. rewrite E. destruct (check_matches _ _ _) as [[]|err] eqn:Ec.
  - destruct (same_completion event_id (stream chunks act)) as [|e l] eqn:El; [done|]. simpl. done.
  - apply check_matches_error in Ec as ->. done.
Qed.

(** C28: the reverse scan reads the file backwards. Whatever the size of its chunks,
    [_iter_lines_reverse] yields the non-empty lines of the file from the last to
    the first, whole, and marks the first it yields, and no other, as the last
    line of the file. *)
Theorem reverse_scan_exact chunk (file : bytes) : 0 < chunk ->
  (iter_lines_reverse chunk file).*1 = reverse (filter (fun l => l <> []) (split_newlines file)) /\
  forall i l b, iter_lines_reverse chunk file !! i = Some (l, b) -> (b = true <-> i = 0).
Proof.
  intros Hc. rewrite iter_lines_reverse_spec by done.
  assert (filter nonempty_b (reverse (split_newlines file)) = reverse (filter (fun l => l <> []) (split_newlines file))) as ->.
  { rewrite <- filter_reverse. apply list_filter_iff. intros l. destruct l; simpl; naive_solver. }
  destruct (reverse _) as [|l ls]; simpl; [split; [done|]; intros [|i] l b; done|]. split.
  - f_equal. rewrite <- list_fmap_compose. apply list_fmap_id.
  - intros [|i] l' b; simpl; [by intros [= <- <-]|]. rewrite list_lookup_fmap. intros (x & _ & [= -> ->])%fmap_Some. by split.
Qed.
End durability.

(** ** A codec *)
(** A codec with the laws: a document is its number between two braces. *)
Abbreviation leaf := (option bool + (Z + (Z * positive + str)))%type.
Fixpoint to_tree (v : json) : gen_tree leaf :=
  match v with
  | JNull => GenLeaf (inl None)
  | JBool b => GenLeaf (inl (Some b))
  | JInt z => GenLeaf (inr (inl z))
  | JFloat n d => GenLeaf (inr (inr (inl (n, d))))
  | JStr s => GenLeaf (inr (inr (inr s)))
  | JList l => GenNode 0 ((fix go l := match l with [] => [] | v :: l => to_tree v :: go l end) l)
  | JDict d => GenNode 1 ((fix go d := match d with [] => [] | (k, v) :: d => GenLeaf (inr (inr (inr k))) :: to_tree v :: go d end) d)
  end.
Fixpoint pair_up (l : list json) : fields :=
  match l with JStr k :: v :: l => (k, v) :: pair_up l | _ => [] end.
Fixpoint of_tree (t : gen_tree leaf) : json :=
  match t with
  | GenLeaf (inl None) => JNull
  | GenLeaf (inl (Some b)) => JBool b
  | GenLeaf (inr (inl z)) => JInt z
  | GenLeaf (inr (inr (inl (n, d)))) => JFloat n d
  | GenLeaf (inr (inr (inr s))) => JStr s
  | GenNode n l =>
    let vs := (fix go l := match l with [] => [] | t :: l => of_tree t :: go l end) l in
    if n =? 0 then JList vs else JDict (pair_up vs)
  end.
Fixpoint of_to_tree (v : json) : of_tree (to_tree v) = v.
Proof.
  destruct v as [| | | | |l|d]; try reflexivity.
  - simpl. f_equal. revert l. fix IH 1. intros [|v l]; [reflexivity|]. simpl. f_equal; [apply of_to_tree|apply IH].
  - simpl. f_equal. revert d. fix IH 1. intros [|[k v] d]; [reflexivity|]. simpl. f_equal; [f_equal; apply of_to_tree|apply IH].
Qed.
#[local] Instance json_eq_dec : EqDecision json.
Proof. intros x y. destruct (decide (to_tree x = to_tree y)) as [E|E]; [left|right; congruence]. by rewrite <- (of_to_tree x), <- (of_to_tree y), E. Defined.
#[local] Instance json_countable : Countable json := inj_countable' to_tree of_tree of_to_tree.
Definition sample_dumps (v : json) : bytes := [123; 256 + Npos (encode v); 125]%N.
Definition sample_loads (b : bytes) : option json :=
  match b with
  | [x; Npos p; y] => if ((x =? 123) && (y =? 125) && (256 <? Npos p))%N then match (Npos p - 256)%N with Npos q => decode q | 0%N => None end else None
  | _ => None
  end.
Definition sample_env : LogEnv := {|
  json_dumps := sample_dumps;
  json_loads := sample_loads;
  json_loads_strict b := match sample_loads b with Some v => Parsed v | None => Undecodable end;
  sanitize f := f;
  stamp_history f := f;
  completion_event f := match py_get (u "event_id") f with JStr i => Some (i, i, f) | _ => None end;
  py_str v := match v with JStr s => s | _ => [] end;
  str_lower s := s;
  int_of_text _ := None;
  float_of_text _ := None
|}.
Lemma sample_loads_dumps v : sample_loads (sample_dumps v) = Some v.
Proof.
  unfold sample_dumps, sample_loads. set (p := encode v).
  change (256 + N.pos p)%N with (N.pos (256 + p)). cbv beta iota.
  assert (((123 =? 123) && (125 =? 125) && (256 <? N.pos (256 + p)))%N = true) as ->.
  { rewrite !N.eqb_refl. simpl. apply N.ltb_lt. lia. }
  replace (N.pos (256 + p) - 256)%N with (N.pos p) by lia. unfold p. apply decode_encode.
Qed.
Definition sample_laws : @LogLaws sample_env.
Proof.
  refine {| plain _ := True |}.
  - intros v _. apply sample_loads_dumps.
  - intros v _. change (match sample_loads (sample_dumps v) with Some v => Parsed v | None => Undecodable end = Parsed v). by rewrite sample_loads_dumps.
  - intros d. simpl. unfold sample_dumps. rewrite !not_elem_of_cons. split; [done|]. split; [lia|]. split; [done|]. apply not_elem_of_nil.
  - intros d. simpl. unfold sample_dumps. by do 2 eexists.
  - intros d. simpl. exists [123; 256 + Npos (encode (JDict d))]%N, 125%N. by split.
  - intros d b v [k E] Hne. simpl in *. unfold sample_dumps in *.
    destruct b as [|x [|y [|z b]]]; simpl; try done; [by destruct y|]. simplify_eq/=. destruct b; [done|]. by destruct k.
  - done.
  - done.
  - done.
Defined.

(** ** Runs *)
Section samples.
#[local] Existing Instance sample_env.
#[local] Existing Instance sample_laws.
Definition sample_event (s : string) : fields := [(u "type", JStr (u s))].
Definition sample_completion : fields := [(u "type", JStr (u "agent_completion")); (u "event_id", JStr (u "c-1"))].
Definition sample_now : Z * positive := (5%Z, 2%positive).
(** Two entries, an append that dies while it rotates, damage to every sidecar and
    the manifest, an append that dies after one byte, and a terminal pair. *)
Definition sample_ops : list log_op :=
  [OpOpen []; OpAppend sample_now (sample_event "a") []; OpAppend sample_now (sample_event "b") [];
   OpAppend sample_now (sample_event "c") [IoOk; IoOk; IoOk; IoDie 1];
   OpDamage (fun _ => None) None None; OpOpen []; OpAppend sample_now (sample_event "d") [IoOk; IoOk; IoDie 1]; OpOpen [];
   OpPair sample_now (sample_event "e") (sample_event "f") []].
Lemma sample_ops_ok : Forall op_ok sample_ops.
Proof. repeat constructor. apply not_elem_of_nil. Qed.
Definition sample_spec : QuerySpec := mkSpec None None None None None None (Some 2%Z) None None None None None.

Lemma pages_exactly_once_witness :
  let '(d, c) := (exec_all (Some 2%Z) (sample_ops ++ OpOpen [] :: [OpQuery sample_spec Asc None None None]) blank).1 in
  exists es, read_back d = Ret (es, None) /\
  forall fuel, length es < fuel ->
  exists w pages, read_pages fuel sample_spec Desc (Some 2%Z) None None (mkWorld d c []) = (w, Ret pages) /\
    concat pages = matches_of sample_spec Desc (filter_of None) es /\ Forall (fun p => Z.of_nat (length p) <= 2)%Z pages.
Proof. apply (pages_exactly_once (Some 2%Z) sample_ops [OpQuery sample_spec Asc None None None] sample_spec Desc 2%Z None); [apply sample_ops_ok|by repeat constructor|lia]. Defined.
Lemma completion_appended_once_witness :
  let '(d, c) := (exec_all (Some 2%Z) ((sample_ops ++ [OpAppend sample_now sample_completion []]) ++ [OpOpen []]) blank).1 in
  exists es, read_back d = Ret (es, None) /\
  (same_completion (u "c-1") es <> [] ->
   let '(w, r) := append_sync (Some 2%Z) sample_now sample_completion (mkWorld d c []) in
   read_back (w_disk w) = Ret (es, None) /\
   r = match check_matches (u "c-1") (set_schema_version sample_completion) (same_completion (u "c-1") es), head (same_completion (u "c-1") es) with
       | Ret _, Some e => Ret e
       | _, _ => Raise ConflictError
       end).
Proof.
  apply (completion_appended_once (Some 2%Z) (sample_ops ++ [OpAppend sample_now sample_completion []]) sample_now sample_completion).
  - apply Forall_app. split; [apply sample_ops_ok|by repeat constructor].
  - exact Logic.I.
  - vm_compute. reflexivity.
Defined.
Lemma reverse_scan_exact_witness :
  (iter_lines_reverse 2 [97; 98; 10; 10; 99]%N).*1 = reverse (filter (fun l => l <> []) (split_newlines [97; 98; 10; 10; 99]%N)) /\
  forall i l b, iter_lines_reverse 2 [97; 98; 10; 10; 99]%N !! i = Some (l, b) -> (b = true <-> i = 0).
Proof. apply reverse_scan_exact. lia. Defined.
(** The stored completion is found again. *)
Example sample_completion_stored :
  let d := (exec_all (Some 2%Z) ((sample_ops ++ [OpAppend sample_now sample_completion []]) ++ [OpOpen []]) blank).1.1 in
  match read_back d with Ret (es, _) => length (same_completion (u "c-1") es) = 1 | Raise _ => False end.
Proof. vm_compute. reflexivity. Qed.

(** What it leads to: the log of three entries reads as before the pair, the next
    append is acknowledged three sequences later, and from then on the strict scan
    refuses the log. *)
Definition burnt_history : list log_op :=
  [OpOpen []; OpAppend sample_now (sample_event "a") []; OpAppend sample_now (sample_event "b") []; OpAppend sample_now (sample_event "c") []].
Example burnt_log_refused :
  let st0 := (exec_all (Some 5%Z) burnt_history blank).1 in
  let '(st1, r1) := exec (Some 5%Z) (OpPair sample_now (sample_event "e") (sample_event "f") [IoOk; IoOk; IoOk; IoFailLate]) st0 in
  let '(st2, r2) := exec (Some 5%Z) (OpAppend sample_now (sample_event "g") []) st1 in
  exists es, read_back st0.1 = Ret (es, None) /\ length es = 3 /\ r1 = RPair (Raise IOError) /\ read_back st1.1 = Ret (es, None) /\
  r2 = RAppend (Ret (mkEntry 6 sample_now (payload_of (sample_event "g")))) /\ read_back st2.1 = Raise IntegrityError.
Proof. vm_compute. eexists. repeat split. Qed.
End samples.

End SessionDurability.
