(* ===== verification/Calendar.v ===== *)
(** * Dates, datetimes and time zones as Python's [datetime] has them

    The part of the standard library that [control_plane/schedules.py] computes
    with: the proleptic Gregorian calendar of [date] (with the conversion from
    ordinals that CPython uses), naive and UTC datetimes as microseconds since
    0001-01-01T00:00:00 within the range of years 1 to 9999, the text of
    [isoformat] and the reader of that text, and a time zone as what [ZoneInfo]
    answers for it. The lemmas say that ordinals number the days of the calendar,
    that months follow each other, and that a stored instant is read back
    unchanged. *)
From S2P Require Import Prelude.
From Stdlib Require Import ZArith Lia.

Module Calendar.
Local Open Scope Z_scope.

(** ** Dates *)
Record date := mkdate { year : Z; month : Z; day : Z }.
Definition MINYEAR : Z := 1.
Definition MAXYEAR : Z := 9999.
Definition MAXORDINAL : Z := 3652059.

Definition is_leap (y : Z) : bool := (y mod 4 =? 0) && (negb (y mod 100 =? 0) || (y mod 400 =? 0)).
Definition leap_day (y : Z) : Z := if is_leap y then 1 else 0.
Definition days_before_year (y : Z) : Z := let y := y - 1 in y * 365 + y / 4 - y / 100 + y / 400.
(** [_DAYS_IN_MONTH] and [_DAYS_BEFORE_MONTH], for a common year. *)
Definition days_in_common (m : Z) : Z :=
  match m with 2 => 28 | 4 | 6 | 9 | 11 => 30 | _ => 31 end.
Definition days_before_common (m : Z) : Z :=
  match m with
  | 1 => 0 | 2 => 31 | 3 => 59 | 4 => 90 | 5 => 120 | 6 => 151 | 7 => 181 | 8 => 212
  | 9 => 243 | 10 => 273 | 11 => 304 | _ => 334
  end.
Definition days_in_month (y m : Z) : Z := if m =? 2 then 28 + leap_day y else days_in_common m.
Definition days_before_month (y m : Z) : Z := days_before_common m + (if 2 <? m then leap_day y else 0).

Definition valid_date (d : date) : bool :=
  (MINYEAR <=? year d) && (year d <=? MAXYEAR) && (1 <=? month d) && (month d <=? 12) &&
  (1 <=? day d) && (day d <=? days_in_month (year d) (month d)).
(** [date(y, m, d)]: [None] is the [ValueError]. *)
Definition make_date (y m d : Z) : option date :=
  let r := mkdate y m d in if valid_date r then Some r else None.

Definition toordinal (d : date) : Z :=
  days_before_year (year d) + days_before_month (year d) (month d) + day d.
(** The month and day of the [n]-th day of a year: the estimate of CPython's
    [_ord2ymd], one month too far at most. *)
Definition month_day (leap : Z) (n : Z) : Z * Z :=
  let m := Z.shiftr (n + 50) 5 in
  let preceding := days_before_common m + (if 2 <? m then leap else 0) in
  if n <? preceding
  then let m := m - 1 in
       (m, n - (preceding - (days_in_common m + (if m =? 2 then leap else 0))) + 1)
  else (m, n - preceding + 1).
(** [date.fromordinal], as [_ord2ymd] divides. *)
Definition fromordinal (n : Z) : date :=
  let n := n - 1 in
  let n400 := n / 146097 in let n := n mod 146097 in
  let n100 := n / 36524 in let n := n mod 36524 in
  let n4 := n / 1461 in let n := n mod 1461 in
  let n1 := n / 365 in let n := n mod 365 in
  let y := n400 * 400 + 1 + n100 * 100 + n4 * 4 + n1 in
  if (n1 =? 4) || (n100 =? 4) then mkdate (y - 1) 12 31
  else
    let leap := (n1 =? 3) && (negb (n4 =? 24) || (n100 =? 3)) in
    let '(m, d) := month_day (if leap then 1 else 0) n in
    mkdate y m d.
(** [d + timedelta(days=k)]: [None] is the [OverflowError]. *)
Definition add_days (d : date) (k : Z) : option date :=
  let n := toordinal d + k in
  if (1 <=? n) && (n <=? MAXORDINAL) then Some (fromordinal n) else None.
(** [d.isoweekday()]: Monday is 1. *)
Definition isoweekday (d : date) : Z := let w := toordinal d mod 7 in if w =? 0 then 7 else w.

(** *** Ordinals number the days of the calendar *)
Lemma days_before_year_next y : days_before_year (y + 1) = days_before_year y + 365 + leap_day y.
Proof.
  unfold days_before_year, leap_day, is_leap. cbv zeta.
  destruct (y mod 4 =? 0) eqn:H4, (y mod 100 =? 0) eqn:H1, (y mod 400 =? 0) eqn:H0; cbn [andb orb negb];
    rewrite ?Z.eqb_eq, ?Z.eqb_neq in *; Z.to_euclidean_division_equations; lia.
Qed.
Lemma leap_day_range y : 0 <= leap_day y <= 1.
Proof. unfold leap_day. destruct (is_leap y); lia. Qed.
Lemma days_before_year_le y y' : y <= y' -> days_before_year y <= days_before_year y'.
Proof. unfold days_before_year. cbv zeta. intros. Z.to_euclidean_division_equations; lia. Qed.

(** Arithmetic on literals. *)
Ltac zlit :=
  repeat match goal with
  | |- context [Z.sub (Zpos ?a) (Zpos ?b)] => let r := eval vm_compute in (Z.sub (Zpos a) (Zpos b)) in
      change (Z.sub (Zpos a) (Zpos b)) with r
  | |- context [Z.add (Zpos ?a) (Zpos ?b)] => let r := eval vm_compute in (Z.add (Zpos a) (Zpos b)) in
      change (Z.add (Zpos a) (Zpos b)) with r
  end.
Ltac month_cases m :=
  let H := fresh in
  assert (m = 1 \/ m = 2 \/ m = 3 \/ m = 4 \/ m = 5 \/ m = 6 \/ m = 7 \/ m = 8 \/ m = 9 \/ m = 10 \/ m = 11 \/ m = 12)
    as H by lia;
  destruct H as [->|[->|[->|[->|[->|[->|[->|[->|[->|[->|[->| ->]]]]]]]]]]].

Lemma days_before_month_next y m : 1 <= m < 12 ->
  days_before_month y (m + 1) = days_before_month y m + days_in_month y m.
Proof. intros. pose proof (leap_day_range y). unfold days_before_month, days_in_month. generalize dependent (leap_day y); intros l Hl; month_cases m; zlit; cbn; lia. Qed.
Lemma year_length y : days_before_month y 12 + days_in_month y 12 = 365 + leap_day y.
Proof. unfold days_before_month, days_in_month. generalize (leap_day y). intros l. cbn. lia. Qed.
Lemma days_in_month_range y m : 1 <= m <= 12 -> 28 <= days_in_month y m <= 31.
Proof. intros. pose proof (leap_day_range y). unfold days_in_month. generalize dependent (leap_day y); intros l Hl; month_cases m; zlit; cbn; lia. Qed.
Lemma days_before_month_le y m m' : 1 <= m -> m < m' <= 12 ->
  days_before_month y m + days_in_month y m <= days_before_month y m'.
Proof.
  intros Hm Hm'. pose proof (leap_day_range y). unfold days_before_month, days_in_month.
  generalize dependent (leap_day y); intros l Hl.
  month_cases m; month_cases m'; cbn; lia.
Qed.
Lemma days_before_month_bounds y m : 1 <= m <= 12 ->
  0 <= days_before_month y m /\ days_before_month y m + days_in_month y m <= 365 + leap_day y.
Proof. intros. pose proof (leap_day_range y). unfold days_before_month, days_in_month. generalize dependent (leap_day y); intros l Hl; month_cases m; zlit; cbn; lia. Qed.

Lemma valid_date_spec d : valid_date d = true <->
  MINYEAR <= year d <= MAXYEAR /\ 1 <= month d <= 12 /\ 1 <= day d <= days_in_month (year d) (month d).
Proof. unfold valid_date. rewrite !andb_true_iff, !Z.leb_le. lia. Qed.

Lemma month_day_spec leap n m d : 0 <= leap <= 1 -> 0 <= n < 365 + leap -> month_day leap n = (m, d) ->
  1 <= m <= 12 /\ 1 <= d <= (if m =? 2 then 28 + leap else days_in_common m) /\
  days_before_common m + (if 2 <? m then leap else 0) + d = n + 1.
Proof.
  intros Hl Hn. unfold month_day. cbv zeta.
  assert (1 <= Z.shiftr (n + 50) 5 <= 13) as Hm by (rewrite Z.shiftr_div_pow2 by lia; change (2 ^ 5) with 32; Z.to_euclidean_division_equations; lia).
  assert (Z.shiftr (n + 50) 5 * 32 <= n + 50 < Z.shiftr (n + 50) 5 * 32 + 32) as Hr
    by (rewrite Z.shiftr_div_pow2 by lia; change (2 ^ 5) with 32; Z.to_euclidean_division_equations; lia).
  revert Hm Hr. generalize (Z.shiftr (n + 50) 5). intros k Hm Hr.
  assert (k <> 13) as Hk by lia.
  month_cases k; zlit; cbn -[Z.ltb Z.sub Z.add]; destruct (_ <? _) eqn:E; intros [= <- <-]; cbn -[Z.add Z.sub];
    (apply Z.ltb_lt in E || apply Z.ltb_ge in E); cbn in *; lia.
Qed.

Lemma toordinal_year d : valid_date d = true ->
  days_before_year (year d) + 1 <= toordinal d <= days_before_year (year d + 1).
Proof.
  intros (Hy & Hm & Hd)%valid_date_spec. unfold toordinal. rewrite days_before_year_next.
  pose proof (days_before_month_bounds (year d) (month d) Hm). lia.
Qed.
Lemma toordinal_range d : valid_date d = true -> 1 <= toordinal d <= MAXORDINAL.
Proof.
  intros Hv. pose proof (toordinal_year d Hv) as H. apply valid_date_spec in Hv as (Hy & _ & _).
  pose proof (days_before_year_le 1 (year d)) as H1. pose proof (days_before_year_le (year d + 1) 10000) as H2.
  change (days_before_year 1) with 0 in H1. change (days_before_year 10000) with MAXORDINAL in H2.
  unfold MINYEAR, MAXYEAR in Hy. lia.
Qed.
Lemma toordinal_inj d d' : valid_date d = true -> valid_date d' = true -> toordinal d = toordinal d' -> d = d'.
Proof.
  intros Hv Hv' E. pose proof (toordinal_year d Hv) as H. pose proof (toordinal_year d' Hv') as H'.
  apply valid_date_spec in Hv as (_ & Hm & Hd). apply valid_date_spec in Hv' as (_ & Hm' & Hd').
  assert (year d = year d') as Ey.
  { destruct (Z.lt_trichotomy (year d) (year d')) as [L|[L|L]]; [|done|];
      [pose proof (days_before_year_le (year d + 1) (year d'))|pose proof (days_before_year_le (year d' + 1) (year d))]; lia. }
  unfold toordinal in E. rewrite <- Ey in *.
  assert (month d = month d') as Em.
  { destruct (Z.lt_trichotomy (month d) (month d')) as [L|[L|L]]; [|done|];
      [pose proof (days_before_month_le (year d) (month d) (month d'))
      |pose proof (days_before_month_le (year d) (month d') (month d))]; lia. }
  rewrite Em in *. destruct d, d'. cbn in *. f_equal; lia.
Qed.

(** The quotients of [_ord2ymd] are the digits of the year. *)
Lemma leap_of_digits a b c e : 0 <= b < 4 -> 0 <= c < 25 -> 0 <= e < 4 ->
  is_leap (a * 400 + 1 + b * 100 + c * 4 + e) = (e =? 3) && (negb (c =? 24) || (b =? 3)).
Proof.
  intros Hb' Hc' He'. unfold is_leap.
  destruct ((a * 400 + 1 + b * 100 + c * 4 + e) mod 4 =? 0) eqn:Hf0, ((a * 400 + 1 + b * 100 + c * 4 + e) mod 100 =? 0) eqn:Hc0,
    ((a * 400 + 1 + b * 100 + c * 4 + e) mod 400 =? 0) eqn:Hq0, (e =? 3) eqn:He, (c =? 24) eqn:Hc, (b =? 3) eqn:Hb;
    cbn [andb orb negb]; try done; exfalso; rewrite ?Z.eqb_eq, ?Z.eqb_neq in *; Z.to_euclidean_division_equations; lia.
Qed.
Lemma days_before_digits a b c e : 0 <= b < 4 -> 0 <= c < 25 -> 0 <= e < 4 ->
  days_before_year (a * 400 + 1 + b * 100 + c * 4 + e) = a * 146097 + b * 36524 + c * 1461 + e * 365.
Proof. intros. unfold days_before_year. cbv zeta. Z.to_euclidean_division_equations. lia. Qed.

Lemma fromordinal_spec n : 1 <= n <= MAXORDINAL ->
  valid_date (fromordinal n) = true /\ toordinal (fromordinal n) = n.
Proof.
  unfold MAXORDINAL. intros Hn. unfold fromordinal. cbv zeta.
  pose proof (Z.div_mod (n - 1) 146097 ltac:(lia)) as Ea. pose proof (Z.mod_pos_bound (n - 1) 146097 ltac:(lia)) as Ra.
  revert Ea Ra. generalize ((n - 1) mod 146097). generalize ((n - 1) / 146097). intros a r1 Ea Ra.
  pose proof (Z.div_mod r1 36524 ltac:(lia)) as Eb. pose proof (Z.mod_pos_bound r1 36524 ltac:(lia)) as Rb.
  revert Eb Rb. generalize (r1 mod 36524). generalize (r1 / 36524). intros b r2 Eb Rb.
  pose proof (Z.div_mod r2 1461 ltac:(lia)) as Ec. pose proof (Z.mod_pos_bound r2 1461 ltac:(lia)) as Rc.
  revert Ec Rc. generalize (r2 mod 1461). generalize (r2 / 1461). intros c r3 Ec Rc.
  pose proof (Z.div_mod r3 365 ltac:(lia)) as Ee. pose proof (Z.mod_pos_bound r3 365 ltac:(lia)) as Re.
  revert Ee Re. generalize (r3 mod 365). generalize (r3 / 365). intros e r4 Ee Re.
  rewrite valid_date_spec. unfold toordinal, MINYEAR, MAXYEAR.
  destruct ((e =? 4) || (b =? 4)) eqn:H4.
  - assert (exists b' c', days_before_year (a * 400 + 1 + b' * 100 + c' * 4 + 3) = n - 366 /\
      is_leap (a * 400 + 1 + b' * 100 + c' * 4 + 3) = true /\
      a * 400 + 1 + b * 100 + c * 4 + e - 1 = a * 400 + 1 + b' * 100 + c' * 4 + 3 /\
      0 <= b' < 4 /\ 0 <= c' < 25) as (b' & c' & Hd & Hlp & -> & Hb & Hc).
    { apply orb_true_iff in H4 as [H4|H4]; apply Z.eqb_eq in H4; [exists b, c|exists 3, 24];
        rewrite leap_of_digits, days_before_digits by lia; repeat split; try lia;
        destruct (Z.eqb_spec c 24), (Z.eqb_spec b 3); cbn; try done; lia. }
    pose proof (days_before_digits a b' c' 3 Hb Hc ltac:(lia)) as Hdd.
    cbn [year month day]. unfold days_in_month, days_before_month, leap_day. rewrite Hlp, Hd in *. cbn. lia.
  - apply orb_false_iff in H4 as [He Hb]. apply Z.eqb_neq in He, Hb.
    rewrite <- (leap_of_digits a b c e) by lia.
    pose proof (days_before_digits a b c e ltac:(lia) ltac:(lia) ltac:(lia)) as Hd.
    fold (leap_day (a * 400 + 1 + b * 100 + c * 4 + e)).
    pose proof (leap_day_range (a * 400 + 1 + b * 100 + c * 4 + e)) as Hl.
    destruct (month_day (leap_day (a * 400 + 1 + b * 100 + c * 4 + e)) r4) as [m d] eqn:E.
    apply month_day_spec in E as (Hm & Hdm & Hs); [|done|lia]. cbn [year month day].
    unfold days_in_month, days_before_month. lia.
Qed.
Lemma toordinal_fromordinal n : 1 <= n <= MAXORDINAL -> toordinal (fromordinal n) = n.
Proof. intros. by apply fromordinal_spec. Qed.
Lemma fromordinal_toordinal d : valid_date d = true -> fromordinal (toordinal d) = d.
Proof.
  intros Hv. destruct (fromordinal_spec (toordinal d) (toordinal_range d Hv)) as [Hv' E].
  by apply toordinal_inj.
Qed.
Lemma add_days_spec d k d' : valid_date d = true -> add_days d k = Some d' ->
  valid_date d' = true /\ toordinal d' = toordinal d + k.
Proof.
  unfold add_days. cbv zeta. intros Hv E. destruct (_ && _) eqn:Hr; [|done]. injection E as <-.
  apply andb_true_iff in Hr as [H1 H2]. rewrite Z.leb_le in H1, H2. by apply fromordinal_spec.
Qed.
Lemma isoweekday_range d : 1 <= isoweekday d <= 7.
Proof.
  unfold isoweekday. cbv zeta. pose proof (Z.mod_pos_bound (toordinal d) 7 ltac:(lia)).
  destruct (_ =? 0) eqn:E; [lia|]. apply Z.eqb_neq in E. lia.
Qed.
Lemma isoweekday_shift d d' k : toordinal d' = toordinal d + k -> k mod 7 = 0 -> isoweekday d' = isoweekday d.
Proof.
  intros E Hk. unfold isoweekday. rewrite E. rewrite Z.add_mod, Hk, Z.add_0_r, Z.mod_mod by lia. done.
Qed.

(** ** Datetimes

    A datetime is the number of microseconds since the beginning of year 1, of a
    wall clock or of UTC. *)
Definition SECOND : Z := 1000000.
Definition MINUTE : Z := 60 * SECOND.
Definition DAY : Z := 86400 * SECOND.
Definition in_range (t : Z) : bool := (0 <=? t) && (t <? MAXORDINAL * DAY).
(** [t.date()] *)
Definition date_of (t : Z) : date := fromordinal (t / DAY + 1).
(** [datetime.combine(day, time(hour=h, minute=m))] *)
Definition combine (d : date) (h m : Z) : Z := (toordinal d - 1) * DAY + (h * 60 + m) * MINUTE.

(** A zone as [ZoneInfo] answers for it: [astimezone(zone)] of an instant is the
    wall clock (whether it is the second pass of a repeated hour is never read),
    [utcoffset()] of a wall clock on its first pass. *)
Record zone := Zone { z_local : Z -> Z; z_offset : Z -> Z }.
(** [t.astimezone(zone)] and [wall.astimezone(timezone.utc)]: [None] is the
    [OverflowError]. *)
Definition checked (t : Z) : option Z := if in_range t then Some t else None.
Definition to_local (z : zone) (t : Z) : option Z := checked (z_local z t).
Definition to_utc (z : zone) (wall : Z) : option Z := checked (wall - z_offset z wall).

Lemma in_range_spec t : in_range t = true <-> 0 <= t < MAXORDINAL * DAY.
Proof. unfold in_range. rewrite andb_true_iff, Z.leb_le, Z.ltb_lt. done. Qed.
Lemma DAY_pos : 0 < DAY. Proof. reflexivity. Qed.
Lemma date_of_spec t : in_range t = true ->
  valid_date (date_of t) = true /\ toordinal (date_of t) = t / DAY + 1.
Proof.
  intros (H0 & H1)%in_range_spec. apply fromordinal_spec.
  pose proof (Z.div_pos t DAY H0 DAY_pos). 
  assert (t / DAY < MAXORDINAL) by (apply Z.div_lt_upper_bound; [apply DAY_pos|lia]). lia.
Qed.
Lemma combine_range d h m : valid_date d = true -> 0 <= h < 24 -> 0 <= m < 60 ->
  in_range (combine d h m) = true /\ date_of (combine d h m) = d.
Proof.
  intros Hv Hh Hm. pose proof (toordinal_range d Hv). unfold combine, MINUTE, date_of.
  assert (0 <= (h * 60 + m) * (60 * SECOND) < DAY) as Hx by (unfold DAY, SECOND; lia).
  split; [apply in_range_spec; unfold DAY, SECOND in *; nia|].
  rewrite <- (Z.div_unique_pos ((toordinal d - 1) * DAY + (h * 60 + m) * (60 * SECOND)) DAY (toordinal d - 1) _ Hx) by lia.
  replace (toordinal d - 1 + 1) with (toordinal d) by lia. by apply fromordinal_toordinal.
Qed.

(** ** Text of an instant *)

(** Decimal with exactly [k] digits. *)
Fixpoint pad (k : nat) (n : Z) : str :=
  match k with
  | O => []
  | S k => pad k (n / 10) ++ [(48 + Z.to_N (n mod 10))%N]
  end.
Definition HOUR : Z := 60 * MINUTE.
(** [isoformat()] of a UTC instant, without its offset. *)
Definition iso_digits (t : Z) : str :=
  let d := date_of t in let r := t mod DAY in
  pad 4 (year d) ++ u "-" ++ pad 2 (month d) ++ u "-" ++ pad 2 (day d) ++ u "T" ++
  pad 2 (r / HOUR) ++ u ":" ++ pad 2 (r / MINUTE mod 60) ++ u ":" ++ pad 2 (r / SECOND mod 60) ++
  (let f := r mod SECOND in if f =? 0 then [] else u "." ++ pad 6 f).
(** [_iso_from_datetime]: the offset [+00:00], the only place with that text,
    becomes [Z]. *)
Definition iso_from_datetime (t : Z) : str := iso_digits t ++ u "Z".

(** [k] digits at the head of a text. *)
Definition read_digits (k : nat) (s : str) : option (Z * str) :=
  let ds := take k s in
  if Nat.eqb (length ds) k && forallb is_digit ds then Some (Z.of_N (digits_val ds), drop k s) else None.
Definition read_sep (c : N) (s : str) : option str :=
  match s with x :: s' => if (x =? c)%N then Some s' else None | [] => None end.
Definition read_fraction (s : str) : option (Z * str) :=
  match s with
  | c :: s' => if (c =? 46)%N then read_digits 6 s' else Some (0, s)
  | [] => Some (0, s)
  end.
(** [fromisoformat] of the texts [isoformat] writes for UTC or naive datetimes. *)
Definition read_isoformat (s : str) : option Z :=
  '(y, s) ← read_digits 4 s; s ← read_sep 45 s; '(mo, s) ← read_digits 2 s; s ← read_sep 45 s;
  '(d, s) ← read_digits 2 s; s ← read_sep 84 s; '(h, s) ← read_digits 2 s; s ← read_sep 58 s;
  '(mi, s) ← read_digits 2 s; s ← read_sep 58 s; '(sec, s) ← read_digits 2 s; '(f, s) ← read_fraction s;
  dt ← make_date y mo d;
  if (h <? 24) && (mi <? 60) && (sec <? 60) && (bool_decide (s = []) || bool_decide (s = u "+00:00"))
  then Some (combine dt h mi + sec * SECOND + f) else None.

Section parsing.
(** [fromisoformat] of every other text, taken to UTC: offsets, other separators
    and precisions. *)
Context (other_isoformat : str -> option Z).
Definition fromisoformat (s : str) : option Z :=
  match read_isoformat s with Some t => Some t | None => other_isoformat s end.
(** [_parse_utc_datetime] *)
Definition parse_utc_datetime (v : json) : option Z :=
  match v with
  | JStr value =>
    let normalized := py_strip value in
    if bool_decide (normalized = []) then None
    else fromisoformat (if py_endswith (u "Z") normalized
                        then take (length normalized - 1) normalized ++ u "+00:00" else normalized)
  | _ => None
  end.
End parsing.

(** *** A stored instant is read back *)
Lemma digit_val_ok n : 0 <= n < 10 -> is_digit (48 + Z.to_N n) = true /\ Z.of_N (48 + Z.to_N n - 48) = n.
Proof. intros. unfold is_digit. rewrite andb_true_iff, !N.leb_le. lia. Qed.
Lemma pad_spec k : forall n, 0 <= n < 10 ^ Z.of_nat k ->
  length (pad k n) = k /\ forallb is_digit (pad k n) = true /\ Z.of_N (digits_val (pad k n)) = n.
Proof.
  induction k as [|k IH]; intros n Hn; [cbn in *; split; [done|]; split; [done|]; cbn; lia|].
  rewrite Nat2Z.inj_succ, Z.pow_succ_r in Hn by lia.
  pose proof (Z.div_mod n 10 ltac:(lia)). pose proof (Z.mod_pos_bound n 10 ltac:(lia)) as Hm.
  destruct (IH (n / 10)) as (Hl & Hd & Hv); [split; [apply Z.div_pos; lia|apply Z.div_lt_upper_bound; lia]|].
  destruct (digit_val_ok _ Hm) as [Hc Hcv]. cbn [pad]. rewrite length_app, forallb_app, digits_val_app, Hl, Hd.
  cbn [length forallb]. rewrite Hc. split; [lia|]. split; [done|].
  change (10 ^ N.of_nat 1)%N with 10%N. unfold digits_val in Hv |- *. cbn [foldl]. lia.
Qed.
Lemma read_pad k n rest : 0 <= n < 10 ^ Z.of_nat k -> read_digits k (pad k n ++ rest) = Some (n, rest).
Proof.
  intros Hn. destruct (pad_spec k n Hn) as (Hl & Hd & Hv). unfold read_digits. cbv zeta.
  rewrite take_app_length', drop_app_length' by done. by rewrite Hl, Nat.eqb_refl, Hd, Hv.
Qed.

Lemma clock_split r : 0 <= r < DAY ->
  0 <= r / HOUR < 24 /\ 0 <= r / MINUTE mod 60 < 60 /\ 0 <= r / SECOND mod 60 < 60 /\ 0 <= r mod SECOND < SECOND /\
  r = (r / HOUR * 60 + r / MINUTE mod 60) * MINUTE + r / SECOND mod 60 * SECOND + r mod SECOND.
Proof.
  intros Hr. assert (r / MINUTE = r / SECOND / 60) as Em by (rewrite Z.div_div by done; done).
  assert (r / HOUR = r / MINUTE / 60) as Eh by (rewrite Z.div_div by done; done).
  rewrite Eh, Em. pose proof (Z.div_mod r SECOND ltac:(done)) as E. pose proof (Z.mod_pos_bound r SECOND ltac:(done)) as Hm.
  revert E Hm. generalize (r mod SECOND). generalize (r / SECOND). unfold DAY, MINUTE, SECOND in *. intros q f E Hm.
  Z.to_euclidean_division_equations. lia.
Qed.
Lemma read_iso_fraction f rest : 0 <= f < SECOND -> head rest <> Some 46%N ->
  read_fraction ((if f =? 0 then [] else u "." ++ pad 6 f) ++ rest) = Some (f, rest).
Proof.
  intros Hf Hr. destruct (Z.eqb_spec f 0) as [->|Hn].
  - unfold read_fraction. cbn [app]. destruct rest as [|c rest]; [done|].
    destruct (N.eqb_spec c 46); [by subst|done].
  - change (u ".") with [46%N]. cbn [app read_fraction]. rewrite N.eqb_refl. by rewrite read_pad by done.
Qed.
Lemma read_sep_ok c sep rest : sep = [c] -> read_sep c (sep ++ rest) = Some rest.
Proof. intros ->. cbn. by rewrite N.eqb_refl. Qed.
Lemma read_iso_digits t off : in_range t = true -> off = [] \/ off = u "+00:00" ->
  read_isoformat (iso_digits t ++ off) = Some t.
Proof.
  intros Hr Hoff. destruct (date_of_spec t Hr) as [Hv Ho].
  pose proof (Z.mod_pos_bound t DAY DAY_pos) as Hm. pose proof (Z.div_mod t DAY ltac:(pose proof DAY_pos; lia)) as Ht.
  destruct (clock_split (t mod DAY) Hm) as (Hh & Hmi & Hs & Hf & Ec).
  pose proof Hv as (Hy & Hmo & Hd)%valid_date_spec. pose proof (days_in_month_range (year (date_of t)) (month (date_of t)) Hmo).
  unfold MINYEAR, MAXYEAR in Hy.
  unfold read_isoformat, iso_digits. cbv zeta. rewrite <- !app_assoc.
  rewrite (read_pad 4) by (change (10 ^ Z.of_nat 4) with 10000; lia). cbn [mbind option_bind].
  repeat (rewrite read_sep_ok by done; cbn [mbind option_bind];
    rewrite (read_pad 2) by (change (10 ^ Z.of_nat 2) with 100; lia); cbn [mbind option_bind]).
  rewrite read_iso_fraction by (done || by destruct Hoff as [-> | ->]). cbn [mbind option_bind].
  unfold make_date. cbv zeta. replace (mkdate _ _ _) with (date_of t) by by destruct (date_of t). rewrite Hv.
  cbn [mbind option_bind]. assert (bool_decide (off = []) || bool_decide (off = u "+00:00") = true) as ->
    by (by destruct Hoff as [-> | ->]).
  rewrite !(proj2 (Z.ltb_lt _ _)) by lia. cbn [andb]. f_equal. unfold combine. rewrite Ho. lia.
Qed.
Lemma strip_by_id p s :
  (forall c, head s = Some c -> p c = false) -> (forall c, last s = Some c -> p c = false) -> strip_by p s = s.
Proof.
  intros Hh Hl. unfold strip_by, rstrip_by, lstrip_by.
  assert (drop_while p s = s) as ->.
  { destruct s as [|c s]; [done|]. cbn. by rewrite (Hh c) by done. }
  assert (drop_while p (reverse s) = reverse s) as ->; [|apply reverse_involutive].
  destruct (reverse s) as [|c r] eqn:E; [done|]. cbn. rewrite (Hl c); [done|].
  rewrite <- (reverse_involutive s), E. by rewrite reverse_cons, last_snoc.
Qed.
Lemma digit_not_space c : is_digit c = true -> py_isspace c = false.
Proof.
  unfold is_digit. rewrite andb_true_iff, !N.leb_le. intros [H1 H2].
  assert (c = 48 \/ c = 49 \/ c = 50 \/ c = 51 \/ c = 52 \/ c = 53 \/ c = 54 \/ c = 55 \/ c = 56 \/ c = 57)%N as H by lia.
  by repeat (destruct H as [->|H]); subst.
Qed.
Lemma iso_digits_head t : in_range t = true -> exists c s, iso_digits t = c :: s /\ is_digit c = true.
Proof.
  intros Hr. destruct (date_of_spec t Hr) as [Hv _]. apply valid_date_spec in Hv as (Hy & _). unfold MINYEAR, MAXYEAR in Hy.
  destruct (pad_spec 4 (year (date_of t))) as (Hl & Hd & _); [change (10 ^ Z.of_nat 4) with 10000; lia|].
  unfold iso_digits. cbv zeta. destruct (pad 4 (year (date_of t))) as [|c s]; [done|].
  cbn [forallb] in Hd. apply andb_true_iff in Hd as [Hd _]. cbn [app]. eauto.
Qed.
(** [_parse_utc_datetime] inverts [_iso_from_datetime]. *)
Lemma parse_iso other t : in_range t = true -> parse_utc_datetime other (JStr (iso_from_datetime t)) = Some t.
Proof.
  intros Hr. unfold parse_utc_datetime, iso_from_datetime.
  assert (py_strip (iso_digits t ++ u "Z") = iso_digits t ++ u "Z") as ->.
  { destruct (iso_digits_head t Hr) as (c & s & -> & Hc). apply strip_by_id.
    - intros c' [= <-]. by apply digit_not_space.
    - intros c'. change (u "Z") with [90%N]. rewrite last_snoc. by intros [= <-]. }
  assert (py_endswith (u "Z") (iso_digits t ++ u "Z") = true) as ->.
  { unfold py_endswith. by rewrite reverse_app. }
  rewrite bool_decide_false by (intros E; by apply app_nil in E as [_ E]).
  rewrite length_app. change (length (u "Z")) with 1%nat. rewrite Nat.add_sub, take_app_length.
  unfold fromisoformat. by rewrite read_iso_digits by auto.
Qed.

End Calendar.
