(* ===== verification/Schedules.v ===== *)
(** * Schedules of agent runs

    [control_plane/schedules.py]: the validation of cadences and requests, the
    next run of a cadence in a time zone, and [AgentRunScheduleStore], which
    keeps the schedules of one user in a JSON file. A record is the JSON object
    of the file, since the file is unattested: every field is read as the source
    reads it. The state of a store is its file ([Missing], [Broken] for text that
    is no JSON or cannot be read, or a stored value) and an oracle that tells
    which of the next saves fails; a save writes a temporary file and renames it,
    so a failed one leaves the file as it was. Locks there are none: an operation
    reads, computes and saves.

    Python's own text, dates and zones are those of [Calendar]; SHA-256,
    [str(...)], [str.lower], Unicode digits outside ASCII, and the zone database
    are fields of [Python]. Request models are decoders of JSON objects that
    refuse what pydantic and the validators refuse. Logging is left out. *)
From S2P Require Import Prelude Admission Calendar.
From stdpp Require Import sorting.
From Stdlib Require Import ZArith Lia.

Module Schedules.
Import Calendar.
Local Open Scope Z_scope.

Abbreviation fields := (list (str * json)).

(** ** Python dicts *)
(** [d[k] = v] *)
Fixpoint dict_put (k : str) (v : json) (d : fields) : fields :=
  match d with
  | [] => [(k, v)]
  | (k', v') :: d' => if decide (k = k') then (k', v) :: d' else (k', v') :: dict_put k v d'
  end.
(** [d.pop(k, None)]: keys are unique in a dict, so one entry leaves. *)
Definition dict_pop (k : str) (d : fields) : fields := filter (fun kv => kv.1 <> k) d.
(** [d.update(d')] *)
Definition dict_update (d d' : fields) : fields := foldl (fun d kv => dict_put kv.1 kv.2 d) d d'.

Lemma dict_get_put k k' v d : dict_get k (dict_put k' v d) = if decide (k = k') then Some v else dict_get k d.
Proof.
  induction d as [|[k1 v1] d IH]; cbn; [done|].
  destruct (decide (k' = k1)) as [->|H]; cbn; [by destruct (decide (k = k1))|].
  rewrite IH. destruct (decide (k = k1)) as [->|]; [|done]. by destruct (decide (k1 = k')).
Qed.
Lemma dict_get_pop k k' d : dict_get k (dict_pop k' d) = if decide (k = k') then None else dict_get k d.
Proof.
  unfold dict_pop. induction d as [|[k1 v1] d IH]; [by destruct (decide (k = k'))|]. rewrite filter_cons. cbn [fst].
  destruct (decide (k1 <> k')) as [H|H].
  - cbn [dict_get]. rewrite IH. destruct (decide (k = k1)) as [->|]; [|done]. by destruct (decide (k1 = k')).
  - rewrite IH. cbn [dict_get]. destruct (decide (k = k')) as [|H']; [done|]. destruct (decide (k = k1)); [|done].
    exfalso. apply H. congruence.
Qed.
Lemma dict_get_update k d' : forall d, k ∉ d'.*1 -> dict_get k (dict_update d d') = dict_get k d.
Proof.
  unfold dict_update. induction d' as [|[k1 v1] d' IH]; intros d Hk; [done|].
  rewrite fmap_cons, not_elem_of_cons in Hk. destruct Hk as [H1 H2]. cbn [foldl]. rewrite IH by done.
  rewrite dict_get_put. by destruct (decide (k = _)).
Qed.

(** Membership of closed field names, by evaluation. *)
Ltac by_fields := refine (proj1 (bool_decide_eq_true _) _); vm_compute; reflexivity.

(** ** Exceptions *)
Inductive exc :=
| StoreUnreadable   (** [ScheduleStoreUnreadableError] *)
| Finding           (** [StorageIdentityFinding], a [ValueError] *)
| ValueError        (** with pydantic's [ValidationError] and the refusal of a role *)
| KeyError
| ZoneNotFound      (** [ZoneInfoNotFoundError], a [KeyError] *)
| OverflowError
| OSError
| Http (code : Z) (detail : str).
#[global] Instance exc_eq : EqDecision exc. Proof. solve_decision. Defined.

Class Python := {
  other_isoformat : str -> option Z;
  py_str : json -> str;
  py_str_str : forall s, py_str (JStr s) = s;
  py_repr : json -> str;
  py_lower : str -> str;
  body_hash : json -> str;
  zone_info : str -> outcome exc zone;
  (** the value of a decimal digit outside ASCII *)
  unicode_decimal : N -> option Z;
  unicode_decimal_range : forall c v, unicode_decimal c = Some v -> 0 <= v <= 9;
}.

(** Roles are those of [Admission]. *)
Abbreviation ExactRole := Admission.ExactRole.
Abbreviation Owner := Admission.owner.
Abbreviation Invite := Admission.invite.
Abbreviation role_text := Admission.role_name.

Section schedules.
Context `{Python}.

(** [str(v or '')] *)
Definition str_or_empty (v : json) : str := if truthy v then py_str v else [].
Definition get (k : string) (d : fields) : json := py_get (u k) d.

(** ** Text *)
(** [\d] and its value *)
Definition decimal (c : N) : option Z :=
  if is_digit c then Some (Z.of_N (c - 48)) else if (c <? 128)%N then None else unicode_decimal c.
Definition is_alnum (c : N) : bool :=
  is_digit c || ((65 <=? c) && (c <=? 90))%N || ((97 <=? c) && (c <=? 122))%N.
(** [_SCHEDULE_NAME_RE.fullmatch] and [_TICKER_RE.fullmatch] *)
Definition token_match (extra : list N) (most : nat) (s : str) : bool :=
  match s with
  | c :: rest => is_alnum c && Nat.leb (length rest) most && forallb (fun c => is_alnum c || bool_decide (c ∈ extra)) rest
  | [] => false
  end.
Definition SCHEDULE_NAME_RE (s : str) : bool := token_match (u "._:-") 127 s.
Definition TICKER_RE (s : str) : bool := token_match (u ".-") 31 s.
Definition blank (s : str) : bool := bool_decide (py_strip s = []).

(** [_hhmm]: the hour and minute of a text that matches [_TIME_OF_DAY_RE]. *)
Definition hhmm (s : str) : option (Z * Z) :=
  match s with
  | [a; b; colon; c; d] =>
    hour ← (if (a =? 48)%N || (a =? 49)%N then v ← decimal b; Some (Z.of_N (a - 48) * 10 + v)
            else if (a =? 50)%N && (48 <=? b)%N && (b <=? 51)%N then Some (20 + Z.of_N (b - 48)) else None);
    minute ← (if (48 <=? c)%N && (c <=? 53)%N then v ← decimal d; Some (Z.of_N (c - 48) * 10 + v) else None);
    if (colon =? 58)%N then Some (hour, minute) else None
  | _ => None
  end.

(** [_normalize_channel] *)
Definition normalize_channel (v : json) : option str :=
  match v with
  | JStr s => let n := py_lower (py_strip s) in if bool_decide (n = []) then None else Some n
  | _ => None
  end.

(** [parse_storage_identity]: what it accepts it returns unchanged. *)
Definition storage_identity (v : json) : outcome exc str :=
  match v with
  | JStr s =>
    let numeric := match s with c :: r => ((49 <=? c) && (c <=? 57))%N && forallb is_digit r | [] => false end in
    let low c := is_digit c || ((97 <=? c) && (c <=? 122))%N in
    let legacy := match s with
                  | c :: r => low c && Nat.leb (length r) 63 && forallb (fun c => low c || (c =? 95)%N || (c =? 45)%N) r
                  | [] => false
                  end in
    if numeric then Ret s
    else if forallb is_digit s then Raise Finding
    else if legacy then Ret s else Raise Finding
  | _ => Raise Finding
  end.

(** [require_exact_role]: its refusal is a [ValueError]. *)
Definition exact_role (v : json) : outcome exc ExactRole :=
  match Admission.require_exact_role v with Ret r => Ret r | Raise _ => Raise ValueError end.
Lemma exact_role_is v r : exact_role v = Ret r -> v = JStr (role_text r).
Proof. unfold exact_role. destruct (Admission.require_exact_role v) eqn:E; [|done]. intros [= <-]. by apply Admission.exact_role_spec. Qed.

(** ** Request models *)
Definition reject {A} : outcome exc A := Raise ValueError.
Definition require (b : bool) : outcome exc unit := if b then Ret tt else Raise ValueError.
(** [extra="forbid"] *)
Definition only_fields (names : list string) (d : fields) : outcome exc unit :=
  require (forallb (fun kv => bool_decide (kv.1 ∈ u <$> names)) d).
Definition as_object (v : json) : outcome exc fields := match v with JDict d => Ret d | _ => reject end.
Definition strict_str (v : json) : outcome exc str := match v with JStr s => Ret s | _ => reject end.
(** [StrictStr | None], defaulting to [None]. *)
Definition optional_str (v : option json) : outcome exc (option str) :=
  match v with None | Some JNull => Ret None | Some (JStr s) => Ret (Some s) | _ => reject end.
Definition literal (names : list string) (v : json) : outcome exc str :=
  let? s := strict_str v in let? _ := require (bool_decide (s ∈ u <$> names)) in Ret s.
Definition required (k : string) (d : fields) : outcome exc json :=
  match dict_get (u k) d with Some v => Ret v | None => reject end.

Inductive cadence_type := Daily | Weekly | Monthly.
#[global] Instance cadence_type_eq : EqDecision cadence_type. Proof. solve_decision. Defined.
Definition cadence_text (t : cadence_type) : str :=
  match t with Daily => u "daily" | Weekly => u "weekly" | Monthly => u "monthly" end.
Record Cadence := mkCadence {
  c_type : cadence_type; c_time_of_day : str; c_days_of_week : option (list Z); c_days_of_month : option (list Z) }.

(** [list[StrictInt] | None] *)
Definition strict_ints (v : option json) : outcome exc (option (list Z)) :=
  match v with
  | None | Some JNull => Ret None
  | Some (JList l) => let? ns := omap_list (fun x => match x with JInt n => Ret n | _ => reject end) l in Ret (Some ns)
  | _ => reject
  end.
(** [_validate_days_of_week], [_validate_days_of_month]: what is left by both the
    length and the uniqueness check is at most [top] distinct days. *)
Definition days_ok (top : nat) (v : option (list Z)) : bool :=
  match v with
  | None => true
  | Some ds =>
    negb (bool_decide (ds = [])) && Nat.leb (length ds) top && bool_decide (NoDup ds) &&
    forallb (fun d => (1 <=? d) && (d <=? Z.of_nat top)) ds
  end.
(** [_require_matching_day_fields] *)
Definition day_fields_ok (c : Cadence) : bool :=
  match c_type c with
  | Daily => is_none (c_days_of_week c) && is_none (c_days_of_month c)
  | Weekly => negb (is_none (c_days_of_week c)) && is_none (c_days_of_month c)
  | Monthly => negb (is_none (c_days_of_month c)) && is_none (c_days_of_week c)
  end.
Definition cadence_ok (c : Cadence) : bool :=
  negb (is_none (hhmm (c_time_of_day c))) && days_ok 7 (c_days_of_week c) && days_ok 31 (c_days_of_month c) && day_fields_ok c.
Definition read_cadence_type (s : str) : outcome exc cadence_type :=
  if bool_decide (s = u "daily") then Ret Daily else if bool_decide (s = u "weekly") then Ret Weekly
  else if bool_decide (s = u "monthly") then Ret Monthly else reject.
(** [AgentRunScheduleCadence.model_validate] *)
Definition validate_cadence (v : json) : outcome exc Cadence :=
  let? d := as_object v in
  let? _ := only_fields ["type"; "time_of_day"; "days_of_week"; "days_of_month"]%string d in
  let? ty := required "type" d in let? ty := strict_str ty in let? ty := read_cadence_type ty in
  let? tod := required "time_of_day" d in let? tod := strict_str tod in
  let? dow := strict_ints (dict_get (u "days_of_week") d) in
  let? dom := strict_ints (dict_get (u "days_of_month") d) in
  let c := mkCadence ty tod dow dom in
  let? _ := require (cadence_ok c) in
  Ret c.
(** [model_dump(mode="json", exclude_none=True)] *)
Definition dump_cadence (c : Cadence) : json :=
  JDict ([(u "type", JStr (cadence_text (c_type c))); (u "time_of_day", JStr (c_time_of_day c))] ++
         (match c_days_of_week c with Some ds => [(u "days_of_week", JList (JInt <$> ds))] | None => [] end) ++
         (match c_days_of_month c with Some ds => [(u "days_of_month", JList (JInt <$> ds))] | None => [] end)).

Record Dispatch := mkDispatch {
  d_profile : str; d_mode : str; d_skill : option str; d_ticker : option str; d_task : option str;
  d_context : option str; d_scope : option fields }.
Definition not_blank (v : option str) : bool := match v with None => true | Some s => negb (blank s) end.
(** [(v or "").strip()] is not empty *)
Definition has_text (v : option str) : bool := match v with None => false | Some s => negb (blank s) end.
(** [DispatchScope]: its fields without the null ones *)
Definition validate_scope (v : json) : outcome exc fields :=
  let? d := as_object v in
  let? _ := only_fields ["kind"; "source"; "portfolio_name"; "portfolio_id"; "display_name"]%string d in
  let? k := required "kind" d in let? k := literal ["portfolio"]%string k in
  let? s := required "source" d in let? s := literal ["active_default"; "user_selected"]%string s in
  let? n := required "portfolio_name" d in let? n := strict_str n in
  let? i := optional_str (dict_get (u "portfolio_id") d) in
  let? l := optional_str (dict_get (u "display_name") d) in
  let? _ := require (negb (blank n) && not_blank i && not_blank l) in
  Ret ([(u "kind", JStr k); (u "source", JStr s); (u "portfolio_name", JStr n)] ++
       (match i with Some i => [(u "portfolio_id", JStr i)] | None => [] end) ++
       (match l with Some l => [(u "display_name", JStr l)] | None => [] end)).
(** [AgentRunScheduleDispatch] with [_require_mode_payload] *)
Definition mode_payload_ok (d : Dispatch) : bool :=
  if bool_decide (d_mode d = u "task") then has_text (d_task d) && negb (has_text (d_skill d))
  else has_text (d_skill d) && negb (has_text (d_task d)).
Definition dispatch_ok (d : Dispatch) : bool :=
  negb (blank (d_profile d)) && not_blank (d_skill d) &&
  (match d_ticker d with None => true | Some t => TICKER_RE (py_strip t) end) &&
  not_blank (d_task d) && not_blank (d_context d) && mode_payload_ok d.
Definition validate_dispatch (v : json) : outcome exc Dispatch :=
  let? d := as_object v in
  let? _ := only_fields ["kind"; "profile"; "mode"; "skill"; "ticker"; "task"; "context"; "dispatch_scope"]%string d in
  let? k := required "kind" d in let? _ := literal ["autonomous"]%string k in
  let? p := required "profile" d in let? p := strict_str p in
  let? m := required "mode" d in let? m := literal ["task"; "skill"]%string m in
  let? s := optional_str (dict_get (u "skill") d) in let? ti := optional_str (dict_get (u "ticker") d) in
  let? ta := optional_str (dict_get (u "task") d) in let? c := optional_str (dict_get (u "context") d) in
  let? sc := match dict_get (u "dispatch_scope") d with
             | None | Some JNull => Ret None
             | Some v => let? f := validate_scope v in Ret (Some f)
             end in
  let r := mkDispatch p m s ti ta c sc in
  let? _ := require (dispatch_ok r) in
  Ret r.
Definition put_opt (k : string) (v : option str) : fields := match v with Some s => [(u k, JStr s)] | None => [] end.
Definition dump_dispatch (d : Dispatch) : fields :=
  [(u "kind", JStr (u "autonomous")); (u "profile", JStr (d_profile d)); (u "mode", JStr (d_mode d))] ++
  put_opt "skill" (d_skill d) ++ put_opt "ticker" (d_ticker d) ++ put_opt "task" (d_task d) ++
  put_opt "context" (d_context d) ++
  (match d_scope d with Some f => [(u "dispatch_scope", JDict f)] | None => [] end).

(** [_dispatch_text_lengths] *)
Definition dispatch_text_lengths (d : fields) : fields :=
  flat_map (fun k => match get k d with JStr s => [(u k, JInt (Z.of_nat (length s)))] | _ => [] end)
    ["profile"; "skill"; "task"; "context"]%string.

(** [_validate_timezone] *)
Definition validate_timezone (s : str) : outcome exc str :=
  if blank s then reject else match zone_info s with Ret _ => Ret s | Raise _ => reject end.
(** A field that may be omitted but not null. *)
Definition omitted_or {A} (read : json -> outcome exc A) (v : option json) : outcome exc (option A) :=
  match v with
  | None => Ret None
  | Some JNull => reject
  | Some v => let? a := read v in Ret (Some a)
  end.
Definition strict_bool (v : json) : outcome exc bool := match v with JBool b => Ret b | _ => reject end.
(** [_validate_schedule_token] *)
Definition schedule_token (v : json) : outcome exc str :=
  let? s := strict_str v in let? _ := require (SCHEDULE_NAME_RE s) in Ret s.
Definition timezone_field (v : json) : outcome exc str := let? s := strict_str v in validate_timezone s.

Record CreateRequest := mkCreate {
  cr_name : str; cr_enabled : option bool; cr_timezone : str; cr_cadence : Cadence; cr_dispatch : Dispatch;
  cr_request_id : option str; cr_body : json }.
(** [CreateAgentRunScheduleRequest]; [cr_body] is [model_dump(exclude_unset=True)],
    the fields as they were sent. *)
Definition validate_create (v : json) : outcome exc CreateRequest :=
  let? d := as_object v in
  let? _ := only_fields ["kind"; "name"; "enabled"; "timezone"; "cadence"; "dispatch"; "request_id"]%string d in
  let? k := required "kind" d in let? _ := literal ["agent_run_schedule"]%string k in
  let? n := required "name" d in let? n := schedule_token n in
  let? e := omitted_or strict_bool (dict_get (u "enabled") d) in
  let? tz := required "timezone" d in let? tz := timezone_field tz in
  let? c := required "cadence" d in let? c := validate_cadence c in
  let? p := required "dispatch" d in let? p := validate_dispatch p in
  let? rid := omitted_or schedule_token (dict_get (u "request_id") d) in
  Ret (mkCreate n e tz c p rid v).

Record UpdateRequest := mkUpdate {
  up_name : option str; up_enabled : option bool; up_timezone : option str; up_cadence : option Cadence;
  up_dispatch : option Dispatch }.
(** [_require_update_field] *)
Definition some_update_field (p : UpdateRequest) : bool :=
  negb (is_none (up_name p) && is_none (up_enabled p) && is_none (up_timezone p) && is_none (up_cadence p) &&
        is_none (up_dispatch p)).
(** [UpdateAgentRunScheduleRequest] *)
Definition validate_update (v : json) : outcome exc UpdateRequest :=
  let? d := as_object v in
  let? _ := only_fields ["kind"; "name"; "enabled"; "timezone"; "cadence"; "dispatch"; "request_id"]%string d in
  let? _ := omitted_or (literal ["agent_run_schedule"]%string) (dict_get (u "kind") d) in
  let? n := omitted_or schedule_token (dict_get (u "name") d) in
  let? e := omitted_or strict_bool (dict_get (u "enabled") d) in
  let? tz := omitted_or timezone_field (dict_get (u "timezone") d) in
  let? c := omitted_or validate_cadence (dict_get (u "cadence") d) in
  let? p := omitted_or validate_dispatch (dict_get (u "dispatch") d) in
  let? _ := omitted_or schedule_token (dict_get (u "request_id") d) in
  let r := mkUpdate n e tz c p in
  let? _ := require (some_update_field r) in
  Ret r.

(** ** The next run *)

(** [_next_month] *)
Definition next_month (d : date) : option date :=
  make_date (year d + (if month d =? 12 then 1 else 0)) (if month d =? 12 then 1 else month d + 1) 1.
(** The daily and weekly loops: the days from [start] on that [keep] keeps. *)
Fixpoint scan_days (keep : date -> bool) (start : date) (h m reference : Z) (n : nat) (offset : Z) : outcome exc (option Z) :=
  match n with
  | O => Ret None
  | S n =>
    match add_days start offset with
    | None => Raise OverflowError
    | Some d =>
      if keep d && (reference <? combine d h m) then Ret (Some (combine d h m))
      else scan_days keep start h m reference n (offset + 1)
    end
  end.
(** The days of one month, in order; a day the month has not is skipped. *)
Fixpoint scan_month (cursor : date) (h m reference : Z) (days : list Z) : option Z :=
  match days with
  | [] => None
  | n :: days =>
    match make_date (year cursor) (month cursor) n with
    | None => scan_month cursor h m reference days
    | Some d => if reference <? combine d h m then Some (combine d h m) else scan_month cursor h m reference days
    end
  end.
Fixpoint scan_months (h m reference : Z) (days : list Z) (n : nat) (cursor : date) : outcome exc (option Z) :=
  match n with
  | O => Ret None
  | S n =>
    match scan_month cursor h m reference days with
    | Some t => Ret (Some t)
    | None => match next_month cursor with
              | None => Raise ValueError
              | Some cursor => scan_months h m reference days n cursor
              end
    end
  end.
(** The wall clock of the next run after the wall clock [reference]. *)
Definition next_wall (c : Cadence) (h m reference : Z) : outcome exc (option Z) :=
  let today := date_of reference in
  match c_type c with
  | Daily => scan_days (fun _ => true) today h m reference 3 0
  | Weekly =>
    let days := default [] (c_days_of_week c) in
    scan_days (fun d => bool_decide (isoweekday d ∈ days)) today h m reference 15 0
  | Monthly =>
    let days := merge_sort Z.le (default [] (c_days_of_month c)) in
    scan_months h m reference days 24 (mkdate (year today) (month today) 1)
  end.
Definition or_overflow (t : option Z) : outcome exc Z := match t with Some t => Ret t | None => Raise OverflowError end.
(** [compute_agent_schedule_next_run_at] of a validated cadence *)
Definition compute_next_run (c : Cadence) (timezone_name : str) (after : Z) : outcome exc str :=
  let? z := zone_info timezone_name in
  let? reference := or_overflow (to_local z after) in
  match hhmm (c_time_of_day c) with
  | None => Raise ValueError
  | Some (h, m) =>
    let? w := next_wall c h m reference in
    match w with
    | None => Raise ValueError
    | Some w => let? t := or_overflow (to_utc z w) in Ret (iso_from_datetime t)
    end
  end.
(** ... and of a cadence read from a record *)
Definition compute_next_run_json (cadence : json) (timezone_name : str) (after : Z) : outcome exc str :=
  let? c := validate_cadence cadence in compute_next_run c timezone_name after.

(** ** The store *)
Inductive file_state := Missing | Broken | Stored (v : json).
Record store := mkStore { st_file : file_state; st_saves : list bool }.

(** [v == s] for a text [s] *)
Definition is_text (v : json) (s : str) : bool := match v with JStr t => bool_decide (t = s) | _ => false end.
Definition KIND : str := u "agent_run_schedule".
Definition BACKEND : str := u "agent-gateway".
Definition is_kind (item : fields) : bool := is_text (get "kind" item) KIND.
Definition as_dict (v : json) : option fields := match v with JDict d => Some d | _ => None end.

(** A payload the loader reads: the whole object, its schedules and its
    idempotency entries. *)
Record payload := mkPayload { pl_rest : fields; pl_schedules : list fields; pl_idempotency : fields }.
Definition empty_payload : payload := mkPayload [(u "version", JInt 1)] [] [].
(** The owners of agent schedules are parsed after the payload was accepted. *)
Definition parse_owner (item : fields) : outcome exc fields :=
  if is_kind item
  then let? o := storage_identity (get "owner_user_id" item) in Ret (dict_put (u "owner_user_id") (JStr o) item)
  else Ret item.
(** [_load] *)
Definition load_payload (f : file_state) : outcome exc payload :=
  match f with
  | Missing => Ret empty_payload
  | Stored (JDict d) =>
    match dict_get (u "schedules") d, dict_get (u "idempotency") d with
    | Some (JList l), Some (JDict idem) =>
      match mapM as_dict l with
      | Some items => let? items := omap_list parse_owner items in Ret (mkPayload d items idem)
      | None => Raise StoreUnreadable
      end
    | _, _ => Raise StoreUnreadable
    end
  | _ => Raise StoreUnreadable
  end.
Definition load : SE store exc payload := fun s => (s, load_payload (st_file s)).
(** [stored["schedules"] = ...; stored["idempotency"] = ...] *)
Definition payload_json (p : payload) : json :=
  JDict (dict_put (u "idempotency") (JDict (pl_idempotency p))
          (dict_put (u "schedules") (JList (JDict <$> pl_schedules p)) (pl_rest p))).
(** [_save]: the temporary file is renamed over the store, or nothing happens. *)
Definition save (p : payload) : SE store exc unit := fun s =>
  match st_saves s with
  | false :: saves => (mkStore (st_file s) saves, Raise OSError)
  | _ => (mkStore (Stored (payload_json p)) (tail (st_saves s)), Ret tt)
  end.
Definition with_schedules (l : list fields) (p : payload) : payload := mkPayload (pl_rest p) l (pl_idempotency p).

(** [_all_records], [list_for_owner], [get_for_owner] *)
Definition all_records : SE store exc (list fields) :=
  let! p := load in se_ret (filter (fun r => is_kind r = true) (pl_schedules p)).
Definition owned_by (owner : str) (item : fields) : bool := is_text (get "owner_user_id" item) owner.
Definition list_for_owner (owner : str) : SE store exc (list fields) :=
  let! rs := all_records in se_ret (filter (fun r => owned_by owner r = true) rs).
Definition named (identifier : str) (item : fields) : bool :=
  bool_decide (identifier = str_or_empty (get "schedule_id" item)) || bool_decide (identifier = str_or_empty (get "name" item)).
Definition get_for_owner (owner identifier : str) : SE store exc (option fields) :=
  let normalized := py_strip identifier in
  if bool_decide (normalized = []) then se_ret None
  else let! rs := list_for_owner owner in se_ret (List.find (named normalized) rs).

(** What the store reads of a session. *)
Record Session := mkSession {
  ss_owner : str; ss_role : json; ss_raw_user_id : json; ss_user_id : json; ss_user_email : json; ss_user_slug : json;
  ss_risk_user_id : Z; ss_user_aliases : list json; ss_identity_status : json; ss_channel : json; ss_kind : str }.
(** [session_owner_user_id] *)
Definition session_owner_user_id (s : Session) : outcome exc str :=
  if bool_decide (ss_owner s = []) then Raise ValueError else Ret (ss_owner s).

(** [_capability_fields] *)
Definition capability_fields (owned enabled : bool) : fields :=
  [(u "owned_by_current_user", JBool owned); (u "editable", JBool owned); (u "can_edit", JBool owned);
   (u "can_delete", JBool owned); (u "can_enable", JBool (owned && negb enabled));
   (u "can_disable", JBool (owned && enabled)); (u "can_run_now", JBool owned)].

Definition CONFLICT_NAME : exc := Http 409 (u "Schedule name already exists").
Definition CONFLICT_REQUEST : exc := Http 409 (u "schedule_request_id_conflict").
Definition NOT_FOUND : exc := Http 404 (u "Schedule not found").

(** The record [create] stores. *)
Definition new_record (p : CreateRequest) (ses : Session) (owner : str) (role : ExactRole) (schedule_id : str)
    (now : Z) (next_run : str) : fields :=
  let enabled := default true (cr_enabled p) in
  let dispatch := dump_dispatch (cr_dispatch p) in
  dict_update
    [(u "schedule_id", JStr schedule_id); (u "id", JNull); (u "name", JStr (cr_name p)); (u "kind", JStr KIND);
     (u "source", JStr BACKEND); (u "enabled", JBool enabled); (u "timezone", JStr (cr_timezone p));
     (u "cadence", dump_cadence (cr_cadence p)); (u "dispatch", JDict dispatch);
     (u "dispatch_text_lengths", JDict (dispatch_text_lengths dispatch)); (u "owner_user_id", JStr owner);
     (u "dispatch_role", JStr (role_text role)); (u "dispatch_revision", JInt 1); (u "dispatch_authored_by", JStr owner);
     (u "raw_user_id", if truthy (ss_raw_user_id ses) then ss_raw_user_id ses else ss_user_id ses);
     (u "user_email", ss_user_email ses); (u "user_slug", ss_user_slug ses); (u "risk_user_id", JInt (ss_risk_user_id ses));
     (u "user_aliases", JList (match ss_user_aliases ses with [] => [JStr owner] | l => l end));
     (u "identity_status", ss_identity_status ses);
     (u "channel", JStr (default (u "web") (normalize_channel (ss_channel ses))));
     (u "created_by", JStr owner); (u "updated_by", JStr owner); (u "created_at", JStr (iso_from_datetime now));
     (u "updated_at", JStr (iso_from_datetime now)); (u "next_run_at", JStr next_run); (u "last_run_id", JNull);
     (u "last_run_at", JNull); (u "last_status", JNull)]
    (capability_fields true enabled).
Definition idempotency_key (owner : str) (p : CreateRequest) : option str :=
  match cr_request_id p with
  | Some r => if blank r then None else Some (owner ++ u ":" ++ r)
  | None => None
  end.
(** [create]; [token] is the fresh [secrets.token_hex(8)]. *)
Definition create (p : CreateRequest) (ses : Session) (token : str) (now : Z) : SE store exc fields :=
  let! owner := se_lift (session_owner_user_id ses) in
  let! role := se_lift (exact_role (ss_role ses)) in
  let hash := body_hash (cr_body p) in
  let key := idempotency_key owner p in
  let! stored := load in
  match key ≫= fun k => dict_get k (pl_idempotency stored) with
  | Some entry =>
    match entry with
    | JDict e =>
      if is_text (get "body_hash" e) hash
      then let! existing := get_for_owner owner (str_or_empty (get "schedule_id" e)) in
           match existing with Some r => se_ret r | None => se_raise CONFLICT_REQUEST end
      else se_raise CONFLICT_REQUEST
    | _ => se_raise CONFLICT_REQUEST
    end
  | None =>
    if existsb (fun item => owned_by owner item && bool_decide (str_or_empty (get "name" item) = cr_name p)) (pl_schedules stored)
    then se_raise CONFLICT_NAME
    else
      let! next_run := se_lift (compute_next_run (cr_cadence p) (cr_timezone p) now) in
      let schedule_id := u "sched_" ++ token in
      let record := new_record p ses owner role schedule_id now next_run in
      let idem := match key with
                  | Some k => dict_put k (JDict [(u "schedule_id", JStr schedule_id); (u "body_hash", JStr hash)]) (pl_idempotency stored)
                  | None => pl_idempotency stored
                  end in
      let! _ := save (mkPayload (pl_rest stored) (pl_schedules stored ++ [record]) idem) in
      se_ret record
  end.

(** The first item of the owner that the identifier names, with its index. *)
Definition find_index (f : fields -> bool) (l : list fields) : option (nat * fields) :=
  (fix go (i : nat) (l : list fields) : option (nat * fields) :=
     match l with
     | [] => None
     | x :: l => if f x then Some (i, x) else go (S i) l
     end) 0%nat l.
Definition key_of (k : string) (d : fields) : outcome exc json :=
  match dict_get (u k) d with Some v => Ret v | None => Raise KeyError end.
Definition put (k : string) (v : json) (d : fields) : fields := dict_put (u k) v d.
Definition pop (k : string) (d : fields) : fields := dict_pop (u k) d.

(** The parts of [update] that change the record. *)
Definition next_revision (v : json) : Z := match v with JInt n => if 1 <=? n then n + 1 else 1 | _ => 1 end.
Definition author (role : ExactRole) (owner : str) (r : fields) : fields :=
  put "dispatch_authored_by" (JStr owner) (put "dispatch_role" (JStr (role_text role)) r).
Definition patch_plain (p : UpdateRequest) (r : fields) : fields :=
  let r := match up_name p with Some n => put "name" (JStr n) r | None => r end in
  let r := match up_timezone p with Some z => put "timezone" (JStr z) r | None => r end in
  match up_cadence p with Some c => put "cadence" (dump_cadence c) r | None => r end.
Definition patch_dispatch (p : UpdateRequest) (role : ExactRole) (owner : str) (r : fields) : fields :=
  match up_dispatch p with
  | Some d =>
    let d := dump_dispatch d in
    let r := put "dispatch_text_lengths" (JDict (dispatch_text_lengths d)) (put "dispatch" (JDict d) r) in
    author role owner (put "dispatch_revision" (JInt (next_revision (get "dispatch_revision" r))) r)
  | None => r
  end.
(** [payload.enabled is True and record.get("enabled") is False] *)
Definition arming (p : UpdateRequest) (r : fields) : bool :=
  match up_enabled p, get "enabled" r with Some true, JBool false => true | _, _ => false end.
Definition patch_enabled (p : UpdateRequest) (role : ExactRole) (owner : str) (r : fields) : fields :=
  let r := if arming p r then author role owner r else r in
  match up_enabled p with Some b => put "enabled" (JBool b) r | None => r end.
Definition patch (p : UpdateRequest) (role : ExactRole) (owner : str) (r : fields) : fields :=
  patch_enabled p role owner (patch_dispatch p role owner (patch_plain p r)).
(** [payload.name is not None and payload.name != record.get("name")], and the
    name is taken by another item of the owner. *)
Definition name_taken (p : UpdateRequest) (owner : str) (target : nat) (record : fields) (schedules : list fields) : bool :=
  match up_name p with
  | Some n => negb (is_text (get "name" record) n) &&
              existsb (fun item => owned_by owner item && bool_decide (str_or_empty (get "name" item) = n)) (delete target schedules)
  | None => false
  end.
(** [update]; [now] stamps the record, [now'] is the reference of its next run. *)
Definition update (owner identifier : str) (p : UpdateRequest) (updated_by : str) (live_role : json) (now now' : Z) :
    SE store exc fields :=
  let! role := se_lift (exact_role live_role) in
  let! stored := load in
  let schedules := pl_schedules stored in
  match find_index (fun item => owned_by owner item && named identifier item) schedules with
  | None => se_raise NOT_FOUND
  | Some (target, item) =>
    if name_taken p owner target item schedules then se_raise CONFLICT_NAME
    else
      let record := put "updated_at" (JStr (iso_from_datetime now)) (put "updated_by" (JStr updated_by) (patch p role owner item)) in
      let! cadence := se_lift (key_of "cadence" record) in
      let! timezone := se_lift (key_of "timezone" record) in
      let! next_run := se_lift (compute_next_run_json cadence (py_str timezone) now') in
      let record := put "next_run_at" (JStr next_run) record in
      let record := dict_update record (capability_fields true (truthy (get "enabled" record))) in
      let! _ := save (with_schedules (<[target := record]> schedules) stored) in
      se_ret record
  end.
(** [set_enabled] *)
Definition set_enabled (owner identifier : str) (enabled : bool) (updated_by : str) (live_role : json) (now now' : Z) :
    SE store exc fields :=
  update owner identifier (mkUpdate None (Some enabled) None None None) updated_by live_role now now'.
(** [delete] *)
Definition delete_schedule (owner identifier : str) : SE store exc fields :=
  let! stored := load in
  match find_index (fun item => owned_by owner item && named identifier item) (pl_schedules stored) with
  | None => se_raise NOT_FOUND
  | Some (target, item) =>
    let! _ := save (with_schedules (delete target (pl_schedules stored)) stored) in
    se_ret item
  end.

(** ** Claims *)
Definition CLAIM_STALE_AFTER : Z := 15 * 60 * SECOND.
Definition parse_time (v : json) : option Z := parse_utc_datetime other_isoformat v.
(** A claim younger than the window. *)
Definition claimed (reference : Z) (r : fields) : bool :=
  negb (bool_decide (str_or_empty (get "running_claim_id" r) = [])) &&
  match parse_time (get "running_claimed_at" r) with
  | Some t => reference - t <? CLAIM_STALE_AFTER
  | None => false
  end.
Definition due (reference : Z) (r : fields) : bool :=
  match parse_time (get "next_run_at" r) with Some t => t <=? reference | None => false end.
(** [due_records] *)
Definition due_records (now : Z) : SE store exc (list fields) :=
  let! rs := all_records in
  se_ret (filter (fun r => truthy (get "enabled" r) && negb (claimed now r) && due now r = true) rs).
Definition claim_record (claim_id : str) (reference : Z) (r : fields) : fields :=
  let r := put "running_claim_id" (JStr claim_id) r in
  let r := put "running_claimed_at" (JStr (iso_from_datetime reference)) r in
  let r := put "last_status" (JStr (u "launching")) r in
  let r := put "updated_at" (JStr (iso_from_datetime reference)) r in
  dict_update r (capability_fields true true).
Definition has_id (schedule_id : str) (r : fields) : bool := bool_decide (str_or_empty (get "schedule_id" r) = schedule_id).
(** [claim_due_record], from the payload it loaded *)
Definition claim_loaded (stored : payload) (schedule_id claim_id : str) (now : Z) : SE store exc (option fields) :=
  match find_index (has_id schedule_id) (pl_schedules stored) with
  | None => se_ret None
  | Some (i, r) =>
    if negb (truthy (get "enabled" r)) then se_ret None
    else if negb (due now r) then se_ret None
    else if claimed now r then se_ret None
    else
      let r := claim_record claim_id now r in
      let! _ := save (with_schedules (<[i := r]> (pl_schedules stored)) stored) in
      se_ret (Some r)
  end.
Definition claim_due_record (schedule_id claim_id : str) (now : Z) : SE store exc (option fields) :=
  let! stored := load in claim_loaded stored schedule_id claim_id now.

(** [record_fire_result]: what is recorded before the next run. *)
Definition put_text (k : string) (v : option str) (r : fields) : fields :=
  match v with Some ((_ :: _) as s) => put k (JStr s) r | _ => pop k r end.
Definition option_json (v : option str) : json := match v with Some s => JStr s | None => JNull end.
Record FireResult := mkFire {
  fr_run_id : option str; fr_status : str; fr_error : option str; fr_warning : option str; fr_claim_id : option str;
  fr_advance : bool }.
Definition record_outcome (f : FireResult) (timestamp : Z) (r : fields) : fields :=
  let r := pop "running_claimed_at" (pop "running_claim_id" r) in
  let r := if bool_decide (fr_status f = u "deferred") then r
           else put "last_run_at" (JStr (iso_from_datetime timestamp)) (put "last_run_id" (option_json (fr_run_id f)) r) in
  let r := put "last_status" (JStr (fr_status f)) r in
  put_text "last_fire_warning" (fr_warning f) (put_text "last_error" (fr_error f) r).
(** [except (KeyError, ValueError, ZoneInfoNotFoundError)] *)
Definition schedule_error (e : exc) : bool :=
  match e with KeyError | ValueError | Finding | ZoneNotFound => true | _ => false end.
Definition disabled (f : FireResult) (r : fields) : fields :=
  let error := match fr_error f with Some ((_ :: _) as s) => s | _ => u "Unable to compute next run" end in
  put "last_error" (JStr error) (put "last_status" (JStr (u "failed")) (put "enabled" (JBool false) r)).
Definition advanced (timestamp : Z) (r : fields) : outcome exc fields :=
  let? c := key_of "cadence" r in
  let? tz := key_of "timezone" r in
  let? after := or_overflow (checked (timestamp + SECOND)) in
  let? next_run := compute_next_run_json c (py_str tz) after in
  Ret (put "next_run_at" (JStr next_run) r).
Definition advance (f : FireResult) (timestamp : Z) (r : fields) : outcome exc fields :=
  if fr_advance f
  then match advanced timestamp r with
       | Ret r => Ret r
       | Raise e => if schedule_error e then Ret (disabled f r) else Raise e
       end
  else Ret r.
Definition record_fire_result (schedule_id : str) (f : FireResult) (timestamp : Z) : SE store exc (option fields) :=
  let! stored := load in
  match find_index (has_id schedule_id) (pl_schedules stored) with
  | None => se_ret None
  | Some (i, r) =>
    if match fr_claim_id f with
       | Some c => negb (bool_decide (str_or_empty (get "running_claim_id" r) = c))
       | None => false
       end
    then se_ret None
    else
      let! r := se_lift (advance f timestamp (record_outcome f timestamp r)) in
      let r := put "updated_at" (JStr (iso_from_datetime timestamp)) r in
      let r := dict_update r (capability_fields true (truthy (get "enabled" r))) in
      let! _ := save (with_schedules (<[i := r]> (pl_schedules stored)) stored) in
      se_ret (Some r)
  end.
End schedules.

(** ** An instance for examples

    ASCII digits only, and two zones: UTC, and one that goes back from four to five
    hours behind it on 3 November 2024. *)
Definition DEMO_BACK : Z := combine (mkdate 2024 11 3) 6 0.
Definition demo_zone : zone :=
  Zone (fun t => if t <? DEMO_BACK then t - 4 * HOUR else t - 5 * HOUR)
       (fun w => if w <? DEMO_BACK - 4 * HOUR then - (4 * HOUR) else - (5 * HOUR)).
Definition demo_python : Python := {|
  other_isoformat := fun _ => None;
  py_str := fun v => match v with JStr s => s | _ => [] end;
  py_str_str := fun _ => eq_refl;
  py_repr := fun _ => [];
  py_lower := fun s => s;
  body_hash := fun _ => u "hash";
  zone_info := fun n => if bool_decide (n = u "UTC") then Ret (Zone (fun t => t) (fun _ => 0))
                        else if bool_decide (n = u "America/New_York") then Ret demo_zone else Raise ZoneNotFound;
  unicode_decimal := fun _ => None;
  unicode_decimal_range := fun _ _ e => match e with end |}.

End Schedules.
