(* ===== verification/ScheduleTimes.v ===== *)
(** * The next run of a schedule

    What [compute_agent_schedule_next_run_at] ([Schedules.compute_next_run])
    returns: the loops over 3 days, 15 days and 24 months always find a candidate,
    and it is the first wall clock of the cadence after the wall clock of the
    reference; a stored cadence validates to itself. *)
From S2P Require Import Prelude Calendar Schedules.
From stdpp Require Import sorting.
From Stdlib Require Import ZArith Lia.

Module ScheduleTimes.
Import Calendar Schedules.
Local Open Scope Z_scope.

Section times.
Context `{Python}.

(** The days of a cadence. *)
Definition on_day (c : Cadence) (d : date) : Prop :=
  match c_type c with
  | Daily => True
  | Weekly => isoweekday d ∈ default [] (c_days_of_week c)
  | Monthly => day d ∈ default [] (c_days_of_month c)
  end.
(** The wall clocks of a cadence at [h]:[m]. *)
Definition run_time (c : Cadence) (h m w : Z) : Prop :=
  exists d, valid_date d = true /\ on_day c d /\ w = combine d h m.
(** [w] is the first of them after [reference]. *)
Definition first_after (P : date -> Prop) (h m reference w : Z) : Prop :=
  exists d, valid_date d = true /\ P d /\ w = combine d h m /\ reference < w /\
    forall d', valid_date d' = true -> P d' -> reference < combine d' h m -> w <= combine d' h m.

Lemma decimal_range c v : decimal c = Some v -> 0 <= v <= 9.
Proof.
  unfold decimal, is_digit. destruct (_ && _) eqn:E.
  - intros [= <-]. apply andb_true_iff in E as [E1 E2]. rewrite N.leb_le in E1, E2. lia.
  - destruct (c <? 128)%N; [done|]. apply unicode_decimal_range.
Qed.
Lemma hhmm_range s h m : hhmm s = Some (h, m) -> 0 <= h < 24 /\ 0 <= m < 60.
Proof.
  unfold hhmm. destruct s as [|a [|b [|k [|c [|d [|]]]]]]; try done. intros E.
  apply bind_Some in E as (h' & Eh & E). apply bind_Some in E as (m' & Em & E).
  destruct (k =? 58)%N; [|done]. injection E as -> ->. split.
  - destruct ((a =? 48)%N || (a =? 49)%N) eqn:Ea.
    + apply bind_Some in Eh as (v & Hv%decimal_range & [= <-]). apply orb_true_iff in Ea. rewrite !N.eqb_eq in Ea. lia.
    + destruct ((a =? 50)%N && (48 <=? b)%N && (b <=? 51)%N) eqn:Eb; [|done]. injection Eh as <-.
      rewrite !andb_true_iff, !N.leb_le in Eb. lia.
  - destruct ((48 <=? c)%N && (c <=? 53)%N) eqn:Ec; [|done]. apply bind_Some in Em as (v & Hv%decimal_range & [= <-]).
    rewrite andb_true_iff, !N.leb_le in Ec. lia.
Qed.

Lemma combine_le d d' h m : toordinal d <= toordinal d' -> combine d h m <= combine d' h m.
Proof. intros. unfold combine. pose proof DAY_pos. nia. Qed.
Lemma combine_day d h m t : 0 <= h < 24 -> 0 <= m < 60 -> in_range t = true -> t < combine d h m ->
  toordinal (date_of t) <= toordinal d.
Proof.
  intros Hh Hm Hr Ht. destruct (date_of_spec t Hr) as [_ ->]. unfold combine, MINUTE in Ht.
  assert (t / DAY < toordinal d); [|lia]. apply Z.div_lt_upper_bound; [apply DAY_pos|]. unfold DAY, SECOND in *. lia.
Qed.
Lemma combine_later d h m t : 0 <= h < 24 -> 0 <= m < 60 -> in_range t = true -> toordinal (date_of t) < toordinal d ->
  t < combine d h m.
Proof.
  intros Hh Hm Hr Ht. destruct (date_of_spec t Hr) as [_ E]. rewrite E in Ht. unfold combine, MINUTE.
  pose proof (Z.mod_pos_bound t DAY DAY_pos). pose proof (Z.div_mod t DAY ltac:(pose proof DAY_pos; lia)).
  unfold DAY, SECOND in *. nia.
Qed.

(** ** Days *)
Lemma scan_days_spec (keep : date -> bool) start h m reference n : forall offset j,
  valid_date start = true -> 0 <= offset <= j -> j < offset + Z.of_nat n -> toordinal start + j <= MAXORDINAL ->
  keep (fromordinal (toordinal start + j)) = true -> reference < combine (fromordinal (toordinal start + j)) h m ->
  exists d, scan_days keep start h m reference n offset = Ret (Some (combine d h m)) /\ valid_date d = true /\
    keep d = true /\ reference < combine d h m /\
    forall d', valid_date d' = true -> keep d' = true -> toordinal start + offset <= toordinal d' ->
      reference < combine d' h m -> combine d h m <= combine d' h m.
Proof.
  induction n as [|n IH]; intros offset j Hv Ho Hj Hmax Hk Hr; [lia|]. cbn [scan_days]. pose proof (toordinal_range _ Hv).
  unfold add_days. cbv zeta. rewrite (proj2 (Z.leb_le 1 _)), (proj2 (Z.leb_le _ MAXORDINAL)) by lia. cbn [andb].
  destruct (fromordinal_spec (toordinal start + offset) ltac:(lia)) as [Hv' Eo].
  destruct (keep _ && (_ <? _)) eqn:E.
  - apply andb_true_iff in E as [E1 E2]. apply Z.ltb_lt in E2. eexists; split; [done|]. repeat split; try done.
    intros d' _ _ Hd' _. apply combine_le. lia.
  - destruct (decide (offset = j)) as [->|Hn]; [rewrite Hk, (proj2 (Z.ltb_lt _ _) Hr) in E; done|].
    destruct (IH (offset + 1) j Hv ltac:(lia) ltac:(lia) Hmax Hk Hr) as (d & -> & Hd & Hkd & Hrd & Hleast).
    exists d. repeat split; try done. intros d' Hvd Hkd' Hge Hrd'. apply Hleast; try done.
    destruct (decide (toordinal d' = toordinal start + offset)) as [Ed|]; [|lia]. exfalso.
    rewrite <- Ed, fromordinal_toordinal in E by done. by rewrite Hkd', (proj2 (Z.ltb_lt _ _) Hrd') in E.
Qed.
(** A loop over days that meets a day to keep within [n] days after today finds
    the first. *)
Lemma scan_days_first (keep : date -> bool) (P : date -> Prop) h m reference n j :
  (forall d, keep d = true <-> P d) -> 0 <= h < 24 -> 0 <= m < 60 -> in_range reference = true ->
  toordinal (date_of reference) + j <= MAXORDINAL -> 0 < j < Z.of_nat n -> P (fromordinal (toordinal (date_of reference) + j)) ->
  exists w, scan_days keep (date_of reference) h m reference n 0 = Ret (Some w) /\ first_after P h m reference w.
Proof.
  intros HP Hh Hm Hr Hmax Hj Hk. destruct (date_of_spec reference Hr) as [Hv _]. pose proof (toordinal_range _ Hv).
  apply HP in Hk. destruct (scan_days_spec keep (date_of reference) h m reference n 0 j) as (d & E & Hd & Hkd & Hrd & Hl);
    try done; try lia.
  { apply combine_later; try done. rewrite toordinal_fromordinal by lia. lia. }
  exists (combine d h m). split; [done|]. exists d. apply HP in Hkd. repeat split; try done.
  intros d' Hvd Hd' Hrd'. apply Hl; [done|by apply HP| |done]. pose proof (combine_day d' h m reference Hh Hm Hr Hrd'). lia.
Qed.

(** ** Months *)
Definition same_month (c d : date) : Prop := year d = year c /\ month d = month c.

Lemma next_month_spec c c' : valid_date c = true -> day c = 1 -> next_month c = Some c' ->
  valid_date c' = true /\ day c' = 1 /\ toordinal c' = toordinal c + days_in_month (year c) (month c) /\
  month c' = (if month c =? 12 then 1 else month c + 1).
Proof.
  intros Hv Hd. unfold next_month, make_date. cbv zeta. destruct (valid_date (mkdate _ _ _)) eqn:Hv'; [|done]. intros [= <-].
  split; [done|]. split; [done|]. split; [|done]. apply valid_date_spec in Hv as (_ & Hm & _).
  unfold toordinal. cbn [year month day]. rewrite Hd. destruct (Z.eqb_spec (month c) 12) as [E|E].
  - rewrite E, days_before_year_next. pose proof (year_length (year c)). change (days_before_month (year c + 1) 1) with 0. lia.
  - rewrite Z.add_0_r, days_before_month_next by lia. lia.
Qed.
Lemma next_month_some c : valid_date c = true -> year c < MAXYEAR -> exists c', next_month c = Some c'.
Proof.
  intros (Hy & Hm & _)%valid_date_spec Hlt. unfold next_month, make_date. cbv zeta.
  assert (valid_date (mkdate (year c + (if month c =? 12 then 1 else 0)) (if month c =? 12 then 1 else month c + 1) 1) = true)
    as -> by (apply valid_date_spec; cbn [year month day]; destruct (Z.eqb_spec (month c) 12);
      (split; [lia|split; [lia|]]); match goal with |- _ <= _ <= days_in_month ?y ?m =>
        pose proof (days_in_month_range y m ltac:(lia)); lia end). eauto.
Qed.
(** From the first of a month on, a day is in it or not before the next month. *)
Lemma month_or_later c d : valid_date c = true -> day c = 1 -> valid_date d = true -> toordinal c <= toordinal d ->
  same_month c d \/ toordinal c + days_in_month (year c) (month c) <= toordinal d.
Proof.
  intros Hc H1 Hd Hle. destruct (decide (toordinal c + days_in_month (year c) (month c) <= toordinal d)) as [|Hlt]; [by right|].
  left. set (e := mkdate (year c) (month c) (toordinal d - toordinal c + 1)). apply valid_date_spec in Hc as Hc'.
  assert (d = e) as Ede; [|by rewrite Ede]. apply toordinal_inj; [done| |].
  - apply valid_date_spec. cbn [year month day e]. lia.
  - unfold toordinal at 2. cbn [year month day e]. unfold toordinal at 3. rewrite H1. lia.
Qed.
Lemma same_month_combine c d h m n : same_month c d -> day d <= n -> combine d h m <= combine (mkdate (year c) (month c) n) h m.
Proof. intros [Hy Hm] Hn. apply combine_le. unfold toordinal. cbn [year month day]. rewrite Hy, Hm. lia. Qed.
Lemma same_month_make c d : valid_date d = true -> same_month c d -> make_date (year c) (month c) (day d) = Some d.
Proof. intros Hv [<- <-]. unfold make_date. cbv zeta. destruct d. cbn in *. by rewrite Hv. Qed.
Lemma make_date_some y m n d : make_date y m n = Some d -> d = mkdate y m n /\ valid_date d = true.
Proof. unfold make_date. cbv zeta. destruct (valid_date _) eqn:E; [|done]. by intros [= <-]. Qed.

Lemma scan_month_some c h m reference days w : StronglySorted Z.le days -> scan_month c h m reference days = Some w ->
  exists d, valid_date d = true /\ same_month c d /\ day d ∈ days /\ w = combine d h m /\ reference < w /\
    forall d', valid_date d' = true -> same_month c d' -> day d' ∈ days -> reference < combine d' h m -> w <= combine d' h m.
Proof.
  induction 1 as [|n days Hs IH Hf]; [done|]. cbn [scan_month]. destruct (make_date _ _ _) as [d|] eqn:E.
  - apply make_date_some in E as [-> Hv]. destruct (_ <? _) eqn:Hlt.
    + intros [= <-]. apply Z.ltb_lt in Hlt. eexists; split; [done|]. split; [done|]. split; [by left|]. split; [done|]. split; [done|].
      intros d' Hvd Hsm Hin _. rewrite Forall_forall in Hf. assert (n <= day d') as Hn.
      { apply elem_of_cons in Hin as [->|Hin]; [done|by apply Hf]. }
      destruct Hsm as [Hy Hm]. apply combine_le. unfold toordinal. cbn [year month day]. rewrite Hy, Hm. lia.
    + intros (d & Hd & Hsm & Hin & -> & Hr & Hl)%IH. exists d. split; [done|]. split; [done|]. split; [by right|]. split; [done|].
      split; [done|]. intros d' Hvd Hsm' Hin' Hr'. apply elem_of_cons in Hin' as [Heq|Hin']; [|by apply Hl].
      exfalso. apply Z.ltb_ge in Hlt. destruct Hsm' as [Hy Hm]. destruct d'. cbn in *. subst. lia.
  - intros (d & Hd & Hsm & Hin & -> & Hr & Hl)%IH. exists d. split; [done|]. split; [done|]. split; [by right|]. split; [done|].
    split; [done|]. intros d' Hvd Hsm' Hin' Hr'. apply elem_of_cons in Hin' as [Heq|Hin']; [|by apply Hl].
    exfalso. pose proof (same_month_make c d' Hvd Hsm') as Hmk. congruence.
Qed.
Lemma scan_month_none c h m reference days d : scan_month c h m reference days = None ->
  valid_date d = true -> same_month c d -> day d ∈ days -> combine d h m <= reference.
Proof.
  intros Hn Hv Hsm. pose proof (same_month_make c d Hv Hsm) as Hmk. induction days as [|n days IH]; intros Hin; [by apply not_elem_of_nil in Hin|].
  cbn [scan_month] in Hn. apply elem_of_cons in Hin as [<-|Hin].
  - rewrite Hmk in Hn. destruct (_ <? _) eqn:E; [done|]. by apply Z.ltb_ge in E.
  - apply IH; [|done]. by repeat case_match.
Qed.

(** One round of the loop over months: the result, or nothing of the cadence
    after [reference] before the next month. *)
Lemma scan_months_round h m reference days n c : StronglySorted Z.le days -> valid_date c = true -> day c = 1 ->
  (forall d, valid_date d = true -> day d ∈ days -> reference < combine d h m -> toordinal c <= toordinal d) ->
  (exists w, scan_months h m reference days (S n) c = Ret (Some w) /\ first_after (fun d => day d ∈ days) h m reference w) \/
  (scan_month c h m reference days = None /\ forall c', next_month c = Some c' ->
    scan_months h m reference days (S n) c = scan_months h m reference days n c' /\
    forall d, valid_date d = true -> day d ∈ days -> reference < combine d h m -> toordinal c' <= toordinal d).
Proof.
  intros Hs Hv H1 Hge. cbn [scan_months]. destruct (scan_month c h m reference days) as [w|] eqn:E.
  - left. exists w. split; [done|]. destruct (scan_month_some _ _ _ _ _ _ Hs E) as (d & Hd & Hsm & Hin & -> & Hr & Hl).
    exists d. repeat split; try done. intros d' Hvd Hin' Hr'.
    destruct (month_or_later c d' Hv H1 Hvd (Hge d' Hvd Hin' Hr')) as [Hsm'|Hlater]; [by apply Hl|].
    apply combine_le. etrans; [|done]. destruct Hsm as [Hy Hm]. unfold toordinal. rewrite Hy, Hm, H1.
    apply valid_date_spec in Hd as (_ & _ & Hd). rewrite Hy, Hm in Hd. lia.
  - right. split; [done|]. intros c' Hc'. rewrite Hc'. split; [done|]. intros d Hvd Hin Hr.
    destruct (next_month_spec c c' Hv H1 Hc') as (_ & _ & -> & _).
    destruct (month_or_later c d Hv H1 Hvd (Hge d Hvd Hin Hr)) as [Hsm|]; [|done].
    pose proof (scan_month_none c h m reference days d E Hvd Hsm Hin). lia.
Qed.

Lemma scan_month_found c h m reference days n : valid_date c = true -> n ∈ days -> 1 <= n <= days_in_month (year c) (month c) ->
  (forall d, valid_date d = true -> same_month c d -> reference < combine d h m) -> scan_month c h m reference days <> None.
Proof.
  intros (Hy & Hm & _)%valid_date_spec Hin Hn Hlater E.
  assert (valid_date (mkdate (year c) (month c) n) = true) as Hv by (apply valid_date_spec; cbn [year month day]; lia).
  pose proof (scan_month_none c h m reference days _ E Hv (conj eq_refl eq_refl) Hin).
  pose proof (Hlater _ Hv (conj eq_refl eq_refl)). lia.
Qed.
Lemma year_next_month c c' : valid_date c = true -> next_month c = Some c' -> year c' <= year c + 1.
Proof.
  intros _. unfold next_month. intros [-> _]%make_date_some. cbn [year]. destruct (_ =? 12); lia.
Qed.
(** No two months in a row are shorter than 31 days, so the third month has every
    day of a cadence if the second has not. *)
Lemma scan_months_first h m reference days n k : StronglySorted Z.le days -> k ∈ days -> Forall (fun d => 1 <= d <= 31) days ->
  0 <= h < 24 -> 0 <= m < 60 -> in_range reference = true -> year (date_of reference) < MAXYEAR - 1 ->
  let first := mkdate (year (date_of reference)) (month (date_of reference)) 1 in
  exists w, scan_months h m reference days (S (S (S n))) first = Ret (Some w) /\ first_after (fun d => day d ∈ days) h m reference w.
Proof.
  intros Hs Hk Hf Hh Hm Hr Hy c0. destruct (date_of_spec reference Hr) as [Hv0 _]. pose proof Hv0 as (Hy0 & Hm0 & Hd0)%valid_date_spec.
  rewrite Forall_forall in Hf. pose proof (Hf k Hk) as Hk31.
  assert (valid_date c0 = true) as Hc0 by (apply valid_date_spec; cbn [year month day c0]; lia).
  assert (toordinal c0 <= toordinal (date_of reference) < toordinal c0 + days_in_month (year c0) (month c0)) as H0
    by (unfold toordinal; cbn [year month day c0]; lia).
  destruct (scan_months_round h m reference days (S (S n)) c0 Hs Hc0 eq_refl) as [?|[_ R0]]; [|done|].
  { intros d Hd _ Hlt. pose proof (combine_day d h m reference Hh Hm Hr Hlt). lia. }
  destruct (next_month_some c0 Hc0) as [c1 E1]; [cbn [year c0]; unfold MAXYEAR in *; lia|].
  destruct (R0 c1 E1) as [-> G1]. destruct (next_month_spec c0 c1 Hc0 eq_refl E1) as (Hc1 & D1 & O1 & M1).
  pose proof (year_next_month c0 c1 Hc0 E1) as Y1. cbn [year c0] in Y1.
  destruct (scan_months_round h m reference days (S n) c1 Hs Hc1 D1 G1) as [?|[N1 R1]]; [done|].
  destruct (next_month_some c1 Hc1) as [c2 E2]; [lia|]. destruct (R1 c2 E2) as [-> G2].
  destruct (next_month_spec c1 c2 Hc1 D1 E2) as (Hc2 & D2 & O2 & M2).
  destruct (scan_months_round h m reference days n c2 Hs Hc2 D2 G2) as [?|[N2 _]]; [done|]. exfalso.
  assert (forall c, valid_date c = true -> day c = 1 -> toordinal c1 <= toordinal c -> forall d, valid_date d = true -> same_month c d ->
    reference < combine d h m) as Hlater.
  { intros c Hc D Hle d Hd [Hyd Hmd]. apply combine_later; try done. apply valid_date_spec in Hd as (_ & _ & Hdd).
    assert (toordinal c <= toordinal d) by (unfold toordinal; rewrite Hyd, Hmd; lia). lia. }
  pose proof Hc1 as (_ & Hm1 & _)%valid_date_spec. pose proof (days_in_month_range (year c1) (month c1) Hm1).
  destruct (decide (days_in_month (year c1) (month c1) = 31)) as [L|L].
  - apply (scan_month_found c1 h m reference days k Hc1 Hk ltac:(lia)); [|done]. apply Hlater; [done..|lia].
  - apply (scan_month_found c2 h m reference days k Hc2 Hk); [|apply Hlater; [done..|lia]|done].
    assert (days_in_month (year c2) (month c2) = 31); [|lia]. rewrite M2. unfold days_in_month in *.
    revert Hm1 L. generalize (month c1). intros x Hx L. month_cases x; zlit; cbn in L |- *; lia.
Qed.

(** ** The cadence *)
Lemma days_ok_spec top ds : days_ok top (Some ds) = true ->
  (exists k, k ∈ ds) /\ Forall (fun d => 1 <= d <= Z.of_nat top) ds.
Proof.
  unfold days_ok. rewrite !andb_true_iff, forallb_forall. intros [[[Hn _] _] Hf]. split.
  - destruct ds as [|k ds]; [done|]. exists k. by left.
  - apply Forall_forall. intros x Hx. apply list_elem_of_In in Hx. apply Hf in Hx. rewrite andb_true_iff, !Z.leb_le in Hx. lia.
Qed.
Lemma first_after_ext (P Q : date -> Prop) h m reference w : (forall d, P d <-> Q d) ->
  first_after P h m reference w -> first_after Q h m reference w.
Proof. intros HPQ (d & Hd & HP & Hw & Hr & Hl). exists d. repeat split; try done; [by apply HPQ|]. intros. apply Hl; [done|by apply HPQ|done]. Qed.

(** The loops find the first run after the reference. *)
Lemma next_wall_first c h m reference : cadence_ok c = true -> hhmm (c_time_of_day c) = Some (h, m) ->
  in_range reference = true -> year (date_of reference) < MAXYEAR - 1 ->
  exists w, next_wall c h m reference = Ret (Some w) /\ first_after (on_day c) h m reference w.
Proof.
  unfold cadence_ok. rewrite !andb_true_iff. intros [[[_ Hw] Hmo] Hty] Ht Hr Hy.
  destruct (hhmm_range _ _ _ Ht) as [Hh Hm]. destruct (date_of_spec reference Hr) as [Hv _].
  assert (toordinal (date_of reference) + 7 <= MAXORDINAL) as Hmax.
  { pose proof (toordinal_year _ Hv). pose proof (days_before_year_le (year (date_of reference) + 1) (MAXYEAR - 1) ltac:(lia)).
    change (days_before_year (MAXYEAR - 1)) with 3651329 in *. unfold MAXORDINAL. lia. }
  unfold next_wall, on_day. cbv zeta. unfold day_fields_ok in Hty. destruct (c_type c).
  - apply (scan_days_first _ _ _ _ _ _ 1); try done; lia.
  - destruct (c_days_of_week c) as [ds|]; [|done]. cbn [default]. apply days_ok_spec in Hw as [[k Hk] Hf].
    rewrite Forall_forall in Hf. specialize (Hf k Hk). pose proof (toordinal_range _ Hv).
    set (o := toordinal (date_of reference)) in *.
    apply (scan_days_first _ _ _ _ _ _ (1 + (k - 1 - o) mod 7)); try done.
    + intros d. by rewrite bool_decide_eq_true.
    + pose proof (Z.mod_pos_bound (k - 1 - o) 7 ltac:(lia)). fold o. lia.
    + pose proof (Z.mod_pos_bound (k - 1 - o) 7 ltac:(lia)). lia.
    + cbv beta. fold o. assert (isoweekday (fromordinal (o + (1 + (k - 1 - o) mod 7))) = k) as ->; [|done].
      pose proof (Z.mod_pos_bound (k - 1 - o) 7 ltac:(lia)).
      unfold isoweekday. rewrite toordinal_fromordinal by lia. cbv zeta. revert H0 Hf. generalize o. clear. intros o Hb Hf.
      destruct (Z.eqb_spec ((o + (1 + (k - 1 - o) mod 7)) mod 7) 0); Z.to_euclidean_division_equations; lia.
  - destruct (c_days_of_month c) as [ds|]; [|done]. cbn [default]. apply days_ok_spec in Hmo as [[k Hk] Hf].
    assert (forall x, x ∈ merge_sort Z.le ds <-> x ∈ ds) as Hin by (intros; by rewrite merge_sort_Permutation).
    destruct (scan_months_first h m reference (merge_sort Z.le ds) 21 k) as (w & E & Hfirst); try done.
    + apply (StronglySorted_merge_sort Z.le).
    + by apply Hin.
    + by rewrite merge_sort_Permutation.
    + exists w. split; [exact E|]. revert Hfirst. apply first_after_ext. intros d. apply Hin.
Qed.

(** A stored cadence validates to itself. *)
Lemma strict_ints_dump ds : strict_ints (Some (JList (JInt <$> ds))) = Ret (Some ds).
Proof.
  cbn [strict_ints]. assert (omap_list (fun x => match x with JInt n => Ret n | _ => reject end) (JInt <$> ds) = Ret ds) as ->; [|done].
  induction ds as [|x ds IH]; [done|]. rewrite fmap_cons. cbn [omap_list obind]. by rewrite IH.
Qed.
Lemma validate_dump c : cadence_ok c = true -> validate_cadence (dump_cadence c) = Ret c.
Proof.
  intros Hok. unfold validate_cadence, dump_cadence. cbn [as_object obind].
  set (d := _ ++ _). assert (only_fields ["type"; "time_of_day"; "days_of_week"; "days_of_month"]%string d = Ret tt) as ->
    by (unfold d; destruct (c_days_of_week c), (c_days_of_month c); reflexivity).
  assert (required "type" d = Ret (JStr (cadence_text (c_type c)))) as -> by reflexivity.
  assert (required "time_of_day" d = Ret (JStr (c_time_of_day c))) as -> by reflexivity.
  assert (strict_ints (dict_get (u "days_of_week") d) = Ret (c_days_of_week c)) as Ew.
  { transitivity (strict_ints (match c_days_of_week c with Some ds => Some (JList (JInt <$> ds)) | None => None end)).
    - unfold d. destruct (c_days_of_week c), (c_days_of_month c); reflexivity.
    - destruct (c_days_of_week c); [apply strict_ints_dump|done]. }
  assert (strict_ints (dict_get (u "days_of_month") d) = Ret (c_days_of_month c)) as Em.
  { transitivity (strict_ints (match c_days_of_month c with Some ds => Some (JList (JInt <$> ds)) | None => None end)).
    - unfold d. destruct (c_days_of_week c), (c_days_of_month c); reflexivity.
    - destruct (c_days_of_month c); [apply strict_ints_dump|done]. }
  cbn [obind strict_str]. assert (read_cadence_type (cadence_text (c_type c)) = Ret (c_type c)) as -> by (by destruct (c_type c)).
  cbn [obind]. rewrite Ew. cbn [obind]. rewrite Em. cbn [obind].
  replace (mkCadence _ _ _ _) with c by by destruct c. by rewrite Hok.
Qed.

Lemma compute_next_run_first c tz z after reference :
  cadence_ok c = true -> zone_info tz = Ret z -> to_local z after = Some reference -> year (date_of reference) < MAXYEAR - 1 ->
  exists h m w, hhmm (c_time_of_day c) = Some (h, m) /\ first_after (on_day c) h m reference w /\
    compute_next_run c tz after = (match to_utc z w with Some t => Ret (iso_from_datetime t) | None => Raise OverflowError end).
Proof.
  intros Hok Hz Hloc Hy. pose proof Hok as Hok'. unfold cadence_ok in Hok'. rewrite !andb_true_iff in Hok'. destruct Hok' as [[[Ht _] _] _].
  destruct (hhmm (c_time_of_day c)) as [[h m]|] eqn:Hhm; [|done].
  assert (in_range reference = true) as Hr by (unfold to_local, checked in Hloc; destruct (in_range _) eqn:E; congruence).
  destruct (next_wall_first c h m reference Hok Hhm Hr Hy) as (w & Ew & Hfirst).
  exists h, m, w. split; [done|]. split; [done|]. unfold compute_next_run. rewrite Hz. cbn [obind]. rewrite Hloc. cbn [obind or_overflow].
  rewrite Hhm, Ew. cbn [obind]. by destruct (to_utc z w).
Qed.
(** C19: For every valid cadence and every reference before the year 9998 the next
    run is computed: the loops always find a day, and it is the first wall clock
    of the cadence after the wall clock of the reference, read in the zone. The
    same value is computed from the cadence as it is stored; only an instant
    outside the years 1 to 9999 raises. *)
Theorem next_run_exact c tz z after reference :
  cadence_ok c = true -> zone_info tz = Ret z -> to_local z after = Some reference -> year (date_of reference) < MAXYEAR - 1 ->
  exists h m w, hhmm (c_time_of_day c) = Some (h, m) /\
    run_time c h m w /\ reference < w /\ (forall w', run_time c h m w' -> reference < w' -> w <= w') /\
    compute_next_run c tz after = (match to_utc z w with Some t => Ret (iso_from_datetime t) | None => Raise OverflowError end) /\
    compute_next_run_json (dump_cadence c) tz after = compute_next_run c tz after.
Proof.
  intros Hok Hz Hloc Hy. destruct (compute_next_run_first c tz z after reference Hok Hz Hloc Hy)
    as (h & m & w & Hhm & (d & Hd & Hon & Hw & Hgt & Hfirst) & E).
  exists h, m, w. split; [done|]. split; [by exists d|]. split; [done|]. split; [|split; [done|]].
  - intros w' (d' & Hd' & Hon' & ->) Hgt'. by apply Hfirst.
  - unfold compute_next_run_json. by rewrite validate_dump.
Qed.
(** In a zone without transitions the next run is later than the reference. *)
Lemma next_run_later c tz z after reference offset t : (forall t, z_local z t = t + offset) -> (forall w, z_offset z w = offset) ->
  cadence_ok c = true -> zone_info tz = Ret z -> to_local z after = Some reference -> year (date_of reference) < MAXYEAR - 1 ->
  in_range t = true -> compute_next_run c tz after = Ret (iso_from_datetime t) -> after < t.
Proof.
  intros Hl Ho Hok Hz Hloc Hy Hrt E. destruct (compute_next_run_first c tz z after reference Hok Hz Hloc Hy) as (h & m & w & _ & (_ & _ & _ & _ & Hgt & _) & E').
  rewrite E' in E. unfold to_utc, to_local, checked in *. rewrite Ho in E. rewrite Hl in Hloc.
  destruct (in_range (w - offset)) eqn:Hru; [|done]. destruct (in_range (after + offset)); [|done]. injection Hloc as <-.
  apply (f_equal (fun o => match o with Ret x => x | Raise _ => [] end)) in E.
  assert (Some (w - offset) = Some t) as [= <-]; [|lia].
  rewrite <- (parse_iso (fun _ => None) _ Hru), <- (parse_iso (fun _ => None) _ Hrt). by rewrite E.
Qed.
End times.

Lemma next_run_exact_witness :
  let c := mkCadence Monthly (u "09:30") None (Some [31; 30]) in
  let now := combine (mkdate 2024 1 31) 12 0 in
  @compute_next_run demo_python c (u "UTC") now = Ret (u "2024-03-30T09:30:00Z") /\
  exists h m w, @hhmm demo_python (c_time_of_day c) = Some (h, m) /\ run_time c h m w /\ now < w.
Proof.
  intros c now. split; [vm_compute; reflexivity|].
  destruct (@next_run_exact demo_python c (u "UTC") (Zone (fun t => t) (fun _ => 0)) now now) as (h & m & w & Hhm & Hw & Hgt & _);
    [vm_compute; reflexivity..|]. exists h, m, w. split; [exact Hhm|]. split; [exact Hw|exact Hgt].
Defined.

End ScheduleTimes.
