(* ===== verification/ScheduleRunner.v ===== *)
(** * Firing schedules

    [AgentRunScheduleRunner] of [control_plane/schedules.py] and the handlers of
    its routes over [Schedules]. Firing a record is cut where it awaits the
    registry of autonomous runs: [plan_fire] is what happens before (the role the
    run gets, or the refusal), [finish_fire] what is recorded when the registry
    answered. [fire_due] is one poll over the stores of all users, with the
    registry's answers given; [step] interleaves polls, run-now requests, answers
    and edits of one store in any order, so several fires can be in flight.

    The roster of live roles and the registry are parameters: the former a
    function, the latter the answers. *)
From S2P Require Import Prelude Calendar Schedules ScheduleTimes.
From Stdlib Require Import ZArith Lia.

Module ScheduleRunner.
Import Calendar Schedules ScheduleTimes.
Local Open Scope Z_scope.

Section runner.
Context `{Python}.

(** ** Firing a record *)

(** The arguments of [registry.start]. *)
Record StartRequest := mkStart {
  sr_role : ExactRole; sr_profile : str; sr_mode : str; sr_task : option str; sr_skill : option str; sr_context : option str;
  sr_ticker : option str; sr_channel : str; sr_user_id : str; sr_user_email : option str; sr_owner_user_id : json;
  sr_user_slug : option str; sr_risk_user_id : option Z; sr_user_aliases : option (list json); sr_identity_status : option str;
  sr_dispatch_scope : option fields; sr_schedule_id : str; sr_schedule_name : str; sr_job_id : str }.
(** What [registry.start] does: the payload it returns, or the exception with its
    text and, for a refusal, its status. *)
Inductive start_answer :=
| Started (payload : fields)
| AdmissionClosed (text : str) (http_status : Z)
| Refused (text : str) (http_status : Z)
| Failed (text : str).

Definition if_str (v : json) : option str := match v with JStr s => Some s | _ => None end.
(** [isinstance(v, int)]: a bool is one *)
Definition if_int (v : json) : option Z := match v with JInt n => Some n | JBool b => Some (if b then 1 else 0) | _ => None end.
Definition if_list (v : json) : option (list json) := match v with JList l => Some l | _ => None end.
Definition or_json (a b : json) : json := if truthy a then a else b.

Definition fire_user_id (r : fields) : str := str_or_empty (or_json (get "raw_user_id" r) (get "owner_user_id" r)).
Definition fire_user_email (r : fields) : option str := if_str (get "user_email" r).

(** The role a run is started with, and the warning; or the refusal to start. *)
Inductive fire_role := Fire (role : ExactRole) (warning : option str) | DoNotFire (warning : str).
Definition role_repr (r : option ExactRole) : str :=
  py_repr (match r with Some r => JStr (role_text r) | None => JNull end).
Definition dispatch_role (live_role roster_role : option ExactRole) (stored : json) (user_id : str) : fire_role :=
  match live_role with
  | Some r => Fire r None
  | None =>
    match is_text stored (u "owner"), roster_role with
    | true, Some Owner => Fire Owner None
    | stored_owner, roster_role =>
      if is_text stored (u "invite") then Fire Invite None
      else match roster_role with
           | None => DoNotFire (u "Stored schedule has no live roster entry for " ++ py_repr (JStr user_id) ++ u "; not started.")
           | Some _ =>
             Fire Invite (Some (if stored_owner
               then u "Stored dispatch_role 'owner' exceeds the owner's live role (" ++ role_repr roster_role ++ u "); fired as invite."
               else u "Stored schedule has no valid dispatch_role (" ++ py_repr stored ++
                    u "); fired as invite. Re-submit the dispatch to record its authoring role."))
           end
    end
  end.

(** What [_fire_record] decides before it awaits the registry. *)
Inductive fire_plan :=
| NoSchedule
| Refuse (error : str) (warning : option str)
| Go (request : StartRequest) (warning : option str).
Definition start_request (r : fields) (d : fields) (role : ExactRole) (owner : json) (claim_id : option str) : StartRequest :=
  let schedule_id := str_or_empty (get "schedule_id" r) in
  mkStart role (str_or_empty (get "profile" d)) (str_or_empty (get "mode" d)) (if_str (get "task" d)) (if_str (get "skill" d))
    (if_str (get "context" d)) (if_str (get "ticker" d)) (str_or_empty (or_json (get "channel" r) (JStr (u "web"))))
    (fire_user_id r) (fire_user_email r) owner (if_str (get "user_slug" r)) (if_int (get "risk_user_id" r))
    (if_list (get "user_aliases" r)) (if_str (get "identity_status" r))
    (match as_dict (get "dispatch_scope" d) with Some s => Some s | None => as_dict (get "dispatch_scope" r) end)
    schedule_id (str_or_empty (get "name" r))
    (match claim_id with Some ((_ :: _) as c) => c | _ => schedule_id end).
Definition plan_fire (roster : str -> option str -> option ExactRole) (r : fields) (live_role : option ExactRole)
    (claim_id : option str) : fire_plan :=
  if bool_decide (str_or_empty (get "schedule_id" r) = []) then NoSchedule
  else
    let user_id := fire_user_id r in
    match dispatch_role live_role (roster user_id (fire_user_email r)) (get "dispatch_role" r) user_id with
    | DoNotFire w => Refuse w (Some w)
    | Fire role w =>
      match as_dict (get "dispatch" r) with
      | None => Refuse (u "Schedule dispatch is missing") w
      | Some d =>
        match dict_get (u "owner_user_id") r with
        | None => Refuse (py_repr (JStr (u "owner_user_id"))) w
        | Some owner => Go (start_request r d role owner claim_id) w
        end
      end
    end.

(** The result [_fire_record] returns. *)
Record FireReport := mkReport {
  rp_schedule_id : str; rp_status : str; rp_run_id : option str; rp_error : option str; rp_error_status : option Z;
  rp_persisted : bool }.
(** [record_fire_result] under [except ScheduleStoreUnreadableError]. *)
Definition persist (schedule_id : str) (f : FireResult) (timestamp : Z) (report : FireReport) : SE store exc FireReport := fun s =>
  match record_fire_result schedule_id f timestamp s with
  | (s', Ret _) => (s', Ret report)
  | (s', Raise StoreUnreadable) =>
    (s', Ret (mkReport (rp_schedule_id report) (rp_status report) (rp_run_id report) (rp_error report) (rp_error_status report) false))
  | (s', Raise e) => (s', Raise e)
  end.
Definition refuse_fire (schedule_id error : str) (warning claim_id : option str) (advance_next_run : bool) (now : Z) :
    SE store exc FireReport :=
  persist schedule_id (mkFire None (u "failed") (Some error) warning claim_id advance_next_run) now
    (mkReport schedule_id (u "failed") None (Some error) None true).
Definition finish_fire (schedule_id : str) (warning claim_id : option str) (advance_next_run : bool) (a : start_answer) (now : Z) :
    SE store exc FireReport :=
  match a with
  | Started payload =>
    let run_id := str_or_empty (or_json (get "run_id" payload) (get "task_id" payload)) in
    persist schedule_id (mkFire (Some run_id) (u "started") None warning claim_id advance_next_run) now
      (mkReport schedule_id (u "started") (Some run_id) None None true)
  | AdmissionClosed text code =>
    persist schedule_id (mkFire None (u "deferred") (Some text) warning claim_id false) now
      (mkReport schedule_id (u "deferred") None (Some text) (Some code) true)
  | Refused text code =>
    persist schedule_id (mkFire None (u "failed") (Some text) warning claim_id advance_next_run) now
      (mkReport schedule_id (u "failed") None (Some text) (Some code) true)
  | Failed text =>
    persist schedule_id (mkFire None (u "failed") (Some text) warning claim_id advance_next_run) now
      (mkReport schedule_id (u "failed") None (Some text) None true)
  end.
(** [_fire_record], the registry answering [answer]; what was asked of it. *)
Definition fire_record (roster : str -> option str -> option ExactRole) (answer : StartRequest -> start_answer) (r : fields)
    (live_role : option ExactRole) (claim_id : option str) (advance_next_run : bool) (now : Z) :
    SE store exc (option (FireReport * option StartRequest)) :=
  let schedule_id := str_or_empty (get "schedule_id" r) in
  match plan_fire roster r live_role claim_id with
  | NoSchedule => se_ret None
  | Refuse e w => let! rp := refuse_fire schedule_id e w claim_id advance_next_run now in se_ret (Some (rp, None))
  | Go q w => let! rp := finish_fire schedule_id w claim_id advance_next_run (answer q) now in se_ret (Some (rp, Some q))
  end.
(** [fire_record_now] *)
Definition fire_record_now (roster : str -> option str -> option ExactRole) (answer : StartRequest -> start_answer) (r : fields)
    (live_role : json) (now : Z) : SE store exc (option (FireReport * option StartRequest)) :=
  let! role := se_lift (exact_role live_role) in
  fire_record roster answer r (Some role) None false now.

(** [fire_due] on one store: every due record is claimed and fired in turn. *)
Fixpoint fire_records (roster : str -> option str -> option ExactRole) (answer : StartRequest -> start_answer) (claim : nat -> str)
    (now : Z) (n : nat) (records : list fields) : SE store exc (list (FireReport * option StartRequest)) := fun s =>
  match records with
  | [] => (s, Ret [])
  | r :: records =>
    let schedule_id := str_or_empty (get "schedule_id" r) in
    let continue s := fire_records roster answer claim now (S n) records s in
    if bool_decide (schedule_id = []) then continue s
    else match claim_due_record schedule_id (claim n) now s with
         | (s, Raise StoreUnreadable) => continue s
         | (s, Raise e) => (s, Raise e)
         | (s, Ret None) => continue s
         | (s, Ret (Some claimed)) =>
           (let! result := fire_record roster answer claimed None (Some (claim n)) true now in
            let! rest := continue in
            se_ret (match result with Some x => x :: rest | None => rest end)) s
         end
  end.
Definition fire_store (roster : str -> option str -> option ExactRole) (answer : StartRequest -> start_answer) (claim : nat -> str)
    (now : Z) (n : nat) : SE store exc (list (FireReport * option StartRequest)) := fun s =>
  match due_records now s with
  | (s, Raise StoreUnreadable) => (s, Ret [])
  | (s, Raise e) => (s, Raise e)
  | (s, Ret records) => fire_records roster answer claim now n records s
  end.
(** [fire_due] over the existing stores in the order of their paths. *)
Fixpoint fire_due (roster : str -> option str -> option ExactRole) (answer : StartRequest -> start_answer) (claim : nat -> nat -> str)
    (now : Z) (n : nat) (stores : list store) : list store * outcome exc (list (FireReport * option StartRequest)) :=
  match stores with
  | [] => ([], Ret [])
  | s :: stores =>
    match fire_store roster answer (claim n) now 0 s with
    | (s', Raise e) => (s' :: stores, Raise e)
    | (s', Ret rs) =>
      let '(stores', rest) := fire_due roster answer claim now (S n) stores in
      (s' :: stores', let? rest := rest in Ret (rs ++ rest))
    end
  end.

(** ** Interleavings on one store *)

(** A fire that waits for the registry. *)
Record Flight := mkFlight {
  fl_schedule_id : str; fl_claim_id : option str; fl_warning : option str; fl_advance : bool; fl_request : StartRequest }.
Record World := mkWorld { w_store : store; w_flights : list Flight; w_polled : list StartRequest }.
Inductive act :=
| ACreate (p : CreateRequest) (ses : Session) (token : str) (now : Z)
| AUpdate (ses : Session) (identifier : str) (p : UpdateRequest) (now now' : Z)
| ADelete (ses : Session) (identifier : str)
| APoll (roster : str -> option str -> option ExactRole) (schedule_id claim_id : str) (now : Z)
| ARunNow (ses : Session) (identifier : str) (now : Z)
| AAnswer (i : nat) (a : start_answer) (now : Z)
| AFault (saves : list bool).

Definition at_store (s : store) (w : World) : World := mkWorld s (w_flights w) (w_polled w).
Definition with_store {A} (m : SE store exc A) (w : World) : World := at_store (m (w_store w)).1 w.
(** The part of a fire before the registry answers: a refusal is recorded at
    once, a start is in flight. *)
Definition launch (roster : str -> option str -> option ExactRole) (r : fields) (live_role : option ExactRole) (claim_id : option str)
    (advance_next_run : bool) (now : Z) (w : World) : World :=
  let schedule_id := str_or_empty (get "schedule_id" r) in
  match plan_fire roster r live_role claim_id with
  | NoSchedule => w
  | Refuse e warning => with_store (refuse_fire schedule_id e warning claim_id advance_next_run now) w
  | Go q warning =>
    mkWorld (w_store w) (w_flights w ++ [mkFlight schedule_id claim_id warning advance_next_run q])
      (if live_role then w_polled w else w_polled w ++ [q])
  end.
Definition session_edit {A} (ses : Session) (m : str -> SE store exc A) : SE store exc A :=
  let! owner := se_lift (session_owner_user_id ses) in m owner.
Definition run_act (w : World) (a : act) : World :=
  match a with
  | ACreate p ses token now => with_store (create p ses token now) w
  | AUpdate ses identifier p now now' =>
    with_store (session_edit ses (fun owner => update owner identifier p owner (ss_role ses) now now')) w
  | ADelete ses identifier => with_store (session_edit ses (fun owner => delete_schedule owner identifier)) w
  | APoll roster schedule_id claim_id now =>
    match claim_due_record schedule_id claim_id now (w_store w) with
    | (s, Ret (Some r)) => launch roster r None (Some claim_id) true now (at_store s w)
    | (s, _) => at_store s w
    end
  | ARunNow ses identifier now =>
    match session_edit ses (fun owner => get_for_owner owner identifier) (w_store w), exact_role (ss_role ses) with
    | (s, Ret (Some r)), Ret role => launch (fun _ _ => None) r (Some role) None false now (at_store s w)
    | (s, _), _ => at_store s w
    end
  | AAnswer i a now =>
    match w_flights w !! i with
    | Some f =>
      let s := (finish_fire (fl_schedule_id f) (fl_warning f) (fl_claim_id f) (fl_advance f) a now (w_store w)).1 in
      mkWorld s (delete i (w_flights w)) (w_polled w)
    | None => w
    end
  | AFault saves => at_store (mkStore (st_file (w_store w)) saves) w
  end.
Definition run_acts (w : World) (acts : list act) : World := foldl run_act w acts.

End runner.
End ScheduleRunner.
