(* ===== verification/ScheduleSafety.v ===== *)
(** * What schedules promise

    The effects of every operation of [Schedules] and [ScheduleRunner] on the
    list of stored records ([edit]), the invariant of the store, and the theorems:
    the store stays well formed whatever saves fail; a claim excludes other polls
    for fifteen minutes; a poll starts a run as owner only with an owner's stored
    and live role; a damaged file stops neither its bytes nor the other users.
    Three theorems state where the code falls short. *)
From S2P Require Import Prelude Calendar Schedules ScheduleTimes ScheduleRunner.
From Stdlib Require Import ZArith Lia.

Module ScheduleSafety.
Import Calendar Schedules ScheduleTimes ScheduleRunner.
Local Open Scope Z_scope.

Section safety.
Context `{Python}.

(** ** Loading what was saved *)
Lemma dict_put_same k v d : dict_get k d = Some v -> dict_put k v d = d.
Proof.
  induction d as [|[k' v'] d IH]; cbn; [done|]. destruct (decide (k = k')) as [->|]; [by intros [= ->]|].
  intros ?. by rewrite IH.
Qed.
Lemma get_put_field k k' v d : get k (put k' v d) = if decide (u k = u k') then v else get k d.
Proof. unfold get, put, py_get. rewrite dict_get_put. by destruct (decide _). Qed.
Lemma get_pop k k' d : get k (pop k' d) = if decide (u k = u k') then JNull else get k d.
Proof. unfold get, pop, py_get. rewrite dict_get_pop. by destruct (decide _). Qed.
Lemma get_capabilities k r o e : u k ∉ (capability_fields o e).*1 -> get k (dict_update r (capability_fields o e)) = get k r.
Proof. intros. unfold get, py_get. by rewrite dict_get_update. Qed.

Lemma storage_identity_same v o : storage_identity v = Ret o -> v = JStr o.
Proof. unfold storage_identity. intros. destruct v; try done. by repeat case_match; simplify_eq. Qed.
Lemma parse_owner_same r r' : parse_owner r = Ret r' -> r' = r.
Proof.
  unfold parse_owner. destruct (is_kind r); [|by intros [= ->]].
  intros (o & Ho%storage_identity_same & [= <-])%obind_ret_inv. apply dict_put_same.
  unfold get, py_get in Ho. destruct (dict_get _ _) as [v|]; cbn in Ho; congruence.
Qed.
Lemma parse_owners_same l l' : omap_list parse_owner l = Ret l' -> l' = l /\ Forall (fun r => parse_owner r = Ret r) l.
Proof.
  revert l'. induction l as [|r l IH]; intros l'; cbn; [by intros [= <-]|].
  intros (r' & Hr & (ls & Hl & [= <-])%obind_ret_inv)%obind_ret_inv. pose proof (parse_owner_same _ _ Hr) as ->.
  destruct (IH _ Hl) as [-> ?]. auto.
Qed.
Lemma parse_owners_ok l : Forall (fun r => parse_owner r = Ret r) l -> omap_list parse_owner l = Ret l.
Proof. induction 1 as [|r l Hr _ IH]; [done|]. cbn. by rewrite Hr, IH. Qed.
Lemma as_dicts l : mapM as_dict (JDict <$> l) = Some l.
Proof. induction l as [|r l IH]; [done|]. cbn. by rewrite IH. Qed.

Definition owners_ok (l : list fields) : Prop := Forall (fun r => parse_owner r = Ret r) l.
Lemma load_owners_ok f p : load_payload f = Ret p -> owners_ok (pl_schedules p).
Proof.
  unfold load_payload. intros E. repeat (case_match; try done); simplify_eq; [by apply Forall_nil|].
  apply obind_ret_inv in E as (l' & [-> Hl]%parse_owners_same & [= <-]). done.
Qed.
(** What was saved is loaded, if its owners can be. *)
Lemma load_saved p : owners_ok (pl_schedules p) ->
  exists rest, load_payload (Stored (payload_json p)) = Ret (mkPayload rest (pl_schedules p) (pl_idempotency p)).
Proof.
  intros Ho. unfold payload_json, load_payload. rewrite !dict_get_put.
  rewrite (decide_False (P := u "schedules" = u "idempotency")) by done. rewrite !decide_True by done.
  rewrite as_dicts, parse_owners_ok by done. cbn [obind]. eauto.
Qed.

(** The records of a store that can be read. *)
Definition stored (s : store) (l : list fields) : Prop := exists p, load_payload (st_file s) = Ret p /\ pl_schedules p = l.
Lemma stored_fun s l l' : stored s l -> stored s l' -> l = l'.
Proof. intros (p & E & <-) (p' & E' & <-). congruence. Qed.
Lemma stored_owners s l : stored s l -> owners_ok l.
Proof. intros (p & E & <-). by eapply load_owners_ok. Qed.

(** A save replaces the records or leaves the file. *)
Lemma save_cases p s s' r : save p s = (s', r) ->
  (st_file s' = Stored (payload_json p) /\ r = Ret tt) \/ (st_file s' = st_file s /\ exists e, r = Raise e).
Proof. unfold save. intros. repeat case_match; simplify_eq; cbn; eauto. Qed.

(** ** The effect of each operation *)
Definition becomes (s' : store) (l : list fields) : Prop := exists p, st_file s' = Stored (payload_json p) /\ pl_schedules p = l.
Lemma becomes_stored s' l : becomes s' l -> owners_ok l -> stored s' l.
Proof. intros (p & E & <-) Ho. destruct (load_saved p Ho) as [rest El]. exists (mkPayload rest (pl_schedules p) (pl_idempotency p)). by rewrite E. Qed.
(** The file is as before, or holds [l]. *)
Definition kept_or (s s' : store) (P : list fields -> Prop) : Prop := st_file s' = st_file s \/ exists l, becomes s' l /\ P l.

Lemma find_record_spec f l i x : find_index f l = Some (i, x) ->
  l !! i = Some x /\ f x = true /\ forall j y, l !! j = Some y -> f y = true -> (i <= j)%nat.
Proof.
  unfold find_index. assert (forall k, (fix go (i : nat) (l : list fields) : option (nat * fields) :=
     match l with [] => None | x :: l => if f x then Some (i, x) else go (S i) l end) k l = Some (i, x) ->
    exists d, i = (k + d)%nat /\ l !! d = Some x /\ f x = true /\ forall j y, l !! j = Some y -> f y = true -> (d <= j)%nat) as Hgo.
  { induction l as [|y l IH]; intros k; [done|]. destruct (f y) eqn:E.
    - intros [= <- <-]. exists 0%nat. repeat split; try done; lia.
    - intros (d & -> & Hd & Hx & Hl)%IH. exists (S d). repeat split; try done; [lia|].
      intros [|j] z Hz Hfz; cbn in Hz; [congruence|]. specialize (Hl j z Hz Hfz). lia. }
  intros (d & -> & ?)%Hgo. done.
Qed.
Lemma find_index_none f l x : find_index f l = None -> x ∈ l -> f x = false.
Proof.
  unfold find_index. generalize 0%nat. induction l as [|y l IH]; intros k E Hx; [by apply not_elem_of_nil in Hx|].
  destruct (f y) eqn:Ey; [done|]. apply elem_of_cons in Hx as [->|Hx]; [done|]. by eapply IH.
Qed.
Lemma find_index_intro f l i x : l !! i = Some x -> f x = true -> (forall j y, l !! j = Some y -> f y = true -> (i <= j)%nat) ->
  find_index f l = Some (i, x).
Proof.
  intros Hi Hx Hl. destruct (find_index f l) as [[j y]|] eqn:E.
  - apply find_record_spec in E as (Hj & Hy & Hl'). specialize (Hl j y Hj Hy). specialize (Hl' i x Hi Hx).
    assert (j = i) as -> by lia. congruence.
  - apply find_index_none with (x := x) in E; [congruence|]. by eapply list_elem_of_lookup_2.
Qed.

(** Reading, deciding and saving: what every operation is. *)
Lemma load_bind {A} (k : payload -> SE store exc A) s : (let! p := load in k p) s =
  match load_payload (st_file s) with Ret p => k p s | Raise e => (s, Raise e) end.
Proof. unfold se_bind, load. by destruct (load_payload _). Qed.
Lemma lift_bind {A B} (o : outcome exc A) (k : A -> SE store exc B) s : (let! a := se_lift o in k a) s =
  match o with Ret a => k a s | Raise e => (s, Raise e) end.
Proof. unfold se_bind, se_lift. by destruct o. Qed.
Lemma save_bind {A} p (a : A) s s' r : (let! _ := save p in se_ret a) s = (s', r) ->
  (becomes s' (pl_schedules p) /\ r = Ret a) \/ (st_file s' = st_file s /\ exists e, r = Raise e).
Proof.
  unfold se_bind. destruct (save p s) as [s1 o] eqn:E. apply save_cases in E as [[E ->]|[E [e ->]]]; intros [= <- <-]; [left|right; eauto].
  split; [|done]. by exists p.
Qed.
Lemma get_for_owner_file owner i s : (get_for_owner owner i s).1 = s.
Proof.
  unfold get_for_owner. case_bool_decide; [done|]. unfold list_for_owner, all_records, se_bind, load, se_ret. by destruct (load_payload _).
Qed.

Definition name_of (r : fields) : str := str_or_empty (get "name" r).
Definition id_of (r : fields) : str := str_or_empty (get "schedule_id" r).
Lemma create_schedule_effect p ses token now s s' r : create p ses token now s = (s', r) ->
  kept_or s s' (fun l' => exists l owner role next, stored s l /\ ss_owner ses = owner /\ exact_role (ss_role ses) = Ret role /\
    Forall (fun item => owned_by owner item = true -> name_of item <> cr_name p) l /\
    compute_next_run (cr_cadence p) (cr_timezone p) now = Ret next /\
    l' = l ++ [new_record p ses owner role (u "sched_" ++ token) now next]).
Proof.
  unfold create. rewrite lift_bind. unfold session_owner_user_id. case_bool_decide as Ho; [intros [= <- <-]; by left|]. rewrite lift_bind.
  destruct (exact_role _) as [role|] eqn:Hr; [|intros [= <- <-]; by left]. cbv zeta. rewrite load_bind.
  destruct (load_payload _) as [q|] eqn:Hl; [|intros [= <- <-]; by left].
  destruct (_ ≫= _) as [entry|].
  { destruct entry; try (intros [= <- <-]; by left). destruct (is_text _ _); [|intros [= <- <-]; by left].
    unfold se_bind. pose proof (get_for_owner_file (ss_owner ses) (str_or_empty (get "schedule_id" d)) s) as E.
    destruct (get_for_owner _ _ s) as [s1 [[x|]|]]; cbn in E; subst s1; intros [= <- <-]; by left. }
  destruct (existsb _ _) eqn:Hn; [intros [= <- <-]; by left|]. rewrite lift_bind.
  destruct (compute_next_run _ _ _) as [next|] eqn:Hc; [|intros [= <- <-]; by left].
  intros [[Hb _]|[Hb _]]%save_bind; [right|by left]. cbn [pl_schedules with_schedules] in Hb. eexists. split; [exact Hb|].
  exists (pl_schedules q), (ss_owner ses), role, next. split; [exists q; split; [exact Hl|reflexivity]|]. split; [reflexivity|]. split; [reflexivity|].
  split; [|split; reflexivity].
  apply Forall_forall. intros item Hi Hown Hname. apply not_true_iff_false in Hn. apply Hn. apply existsb_exists. exists item.
  split; [by apply list_elem_of_In|]. rewrite Hown. by apply bool_decide_eq_true.
Qed.

(** The record after [update], its next run apart. *)
Definition updated (p : UpdateRequest) (role : ExactRole) (owner updated_by : str) (now : Z) (next : str) (r : fields) : fields :=
  let r := put "updated_at" (JStr (iso_from_datetime now)) (put "updated_by" (JStr updated_by) (patch p role owner r)) in
  let r := put "next_run_at" (JStr next) r in
  dict_update r (capability_fields true (truthy (get "enabled" r))).
Lemma update_effect owner ident p by_ role now now' s s' r : update owner ident p by_ role now now' s = (s', r) ->
  (st_file s' = st_file s /\ exists e, r = Raise e) \/
  exists l i item exact c tz next, stored s l /\ exact_role role = Ret exact /\
    find_index (fun item => owned_by owner item && named ident item) l = Some (i, item) /\ name_taken p owner i item l = false /\
    get "cadence" (patch p exact owner item) = c /\ get "timezone" (patch p exact owner item) = tz /\
    compute_next_run_json c (py_str tz) now' = Ret next /\ becomes s' (<[i := updated p exact owner by_ now next item]> l) /\
    r = Ret (updated p exact owner by_ now next item).
Proof.
  unfold update. rewrite lift_bind. destruct (exact_role role) as [exact|] eqn:Hr; [|intros [= <- <-]; eauto].
  rewrite load_bind. destruct (load_payload _) as [q|] eqn:Hl; [|intros [= <- <-]; eauto]. cbv zeta.
  destruct (find_index _ _) as [[i item]|] eqn:Hf; [|intros [= <- <-]; eauto].
  destruct (name_taken _ _ _ _ _) eqn:Hn; [intros [= <- <-]; eauto|].
  rewrite lift_bind. destruct (key_of "cadence" _) as [c|] eqn:Hc; [|intros [= <- <-]; eauto].
  rewrite lift_bind. destruct (key_of "timezone" _) as [tz|] eqn:Ht; [|intros [= <- <-]; eauto].
  rewrite lift_bind. destruct (compute_next_run_json _ _ _) as [next|] eqn:Hx; [|intros [= <- <-]; eauto].
  intros [[Hb ->]|[Hb He]]%save_bind; [right|by left]. cbn [pl_schedules with_schedules] in Hb. exists (pl_schedules q), i, item, exact, c, tz, next.
  assert (forall k v, key_of k (put "updated_at" (JStr (iso_from_datetime now)) (put "updated_by" (JStr by_) (patch p exact owner item))) = Ret v ->
    u k <> u "updated_at" -> u k <> u "updated_by" -> get k (patch p exact owner item) = v) as Hget.
  { intros k v. unfold key_of, put, get, py_get. rewrite !dict_get_put. intros E N1 N2. rewrite !decide_False in E by done.
    destruct (dict_get _ _); [by injection E as ->|done]. }
  apply Hget in Hc; [|discriminate..]. apply Hget in Ht; [|discriminate..].
  split; [exists q; split; [exact Hl|reflexivity]|]. auto 10.
Qed.
Lemma delete_effect owner ident s s' r : delete_schedule owner ident s = (s', r) ->
  (st_file s' = st_file s /\ exists e, r = Raise e) \/
  exists l i item, stored s l /\ find_index (fun item => owned_by owner item && named ident item) l = Some (i, item) /\
    becomes s' (delete i l) /\ r = Ret item.
Proof.
  unfold delete_schedule. rewrite load_bind. destruct (load_payload _) as [q|] eqn:Hl; [|intros [= <- <-]; eauto].
  destruct (find_index _ _) as [[i item]|] eqn:Hf; [|intros [= <- <-]; eauto].
  intros [[Hb ->]|[Hb He]]%save_bind; [right|by left]. cbn [pl_schedules with_schedules] in Hb.
  exists (pl_schedules q), i, item. split; [exists q; split; [exact Hl|reflexivity]|]. auto.
Qed.
Lemma claim_due_effect id claim now s s' r : claim_due_record id claim now s = (s', r) ->
  (st_file s' = st_file s /\ (r = Ret None \/ exists e, r = Raise e)) \/
  exists l i item, stored s l /\ find_index (has_id id) l = Some (i, item) /\ truthy (get "enabled" item) = true /\
    due now item = true /\ claimed now item = false /\ becomes s' (<[i := claim_record claim now item]> l) /\
    r = Ret (Some (claim_record claim now item)).
Proof.
  unfold claim_due_record. rewrite load_bind. destruct (load_payload _) as [q|] eqn:Hl; [|intros [= <- <-]; eauto]. unfold claim_loaded.
  destruct (find_index _ _) as [[i item]|] eqn:Hf; [|intros [= <- <-]; eauto].
  destruct (truthy _) eqn:He; [|intros [= <- <-]; eauto]. destruct (due _ _) eqn:Hd; [|intros [= <- <-]; eauto].
  destruct (claimed _ _) eqn:Hc; [intros [= <- <-]; eauto|]. cbn [negb]. cbv zeta.
  intros [[Hb ->]|[Hb He']]%save_bind; [right|left; auto]. cbn [pl_schedules with_schedules] in Hb.
  exists (pl_schedules q), i, item. split; [exists q; split; [exact Hl|reflexivity]|]. auto 10.
Qed.
(** The record after [record_fire_result]. *)
Definition fired (timestamp : Z) (r : fields) : fields :=
  let r := put "updated_at" (JStr (iso_from_datetime timestamp)) r in
  dict_update r (capability_fields true (truthy (get "enabled" r))).
Definition may_finish (f : FireResult) (r : fields) : bool :=
  match fr_claim_id f with Some c => bool_decide (str_or_empty (get "running_claim_id" r) = c) | None => true end.
Lemma fire_effect id f ts s s' r : record_fire_result id f ts s = (s', r) ->
  (st_file s' = st_file s /\ (r = Ret None \/ exists e, r = Raise e)) \/
  exists l i item item', stored s l /\ find_index (has_id id) l = Some (i, item) /\ may_finish f item = true /\
    advance f ts (record_outcome f ts item) = Ret item' /\ becomes s' (<[i := fired ts item']> l) /\ r = Ret (Some (fired ts item')).
Proof.
  unfold record_fire_result. rewrite load_bind. destruct (load_payload _) as [q|] eqn:Hl; [|intros [= <- <-]; eauto].
  destruct (find_index _ _) as [[i item]|] eqn:Hf; [|intros [= <- <-]; eauto].
  destruct (match fr_claim_id f with Some _ => _ | None => _ end) eqn:Hc; [intros [= <- <-]; eauto|].
  rewrite lift_bind. destruct (advance _ _ _) as [item'|] eqn:Ha; [|intros [= <- <-]; eauto]. cbv zeta.
  intros [[Hb ->]|[Hb He']]%save_bind; [right|left; auto]. cbn [pl_schedules with_schedules] in Hb.
  exists (pl_schedules q), i, item, item'. split; [exists q; split; [exact Hl|reflexivity]|]. split; [exact Hf|].
  split; [|auto]. unfold may_finish. destruct (fr_claim_id f); [by apply negb_false_iff in Hc|done].
Qed.
Lemma persist_effect id f ts rp s s' r : persist id f ts rp s = (s', r) ->
  (record_fire_result id f ts s).1 = s'.
Proof. unfold persist. intros. repeat case_match; simplify_eq; done. Qed.

(** ** Fields *)
Ltac field_step :=
  first [ rewrite get_put_field | rewrite get_pop | rewrite get_capabilities by (refine (proj1 (bool_decide_eq_true _) _); vm_compute; reflexivity)
        | rewrite decide_True by reflexivity | rewrite decide_False by discriminate ].
Ltac field_simp := repeat field_step.

(** The fields an operation may write. *)
Definition CAPABILITIES : list string :=
  ["owned_by_current_user"; "editable"; "can_edit"; "can_delete"; "can_enable"; "can_disable"; "can_run_now"]%string.
Definition CLAIM_FIELDS : list string := ["running_claim_id"; "running_claimed_at"; "last_status"; "updated_at"]%string ++ CAPABILITIES.
Definition FIRE_FIELDS : list string :=
  ["running_claim_id"; "running_claimed_at"; "last_run_at"; "last_run_id"; "last_status"; "last_error"; "last_fire_warning";
   "next_run_at"; "enabled"; "updated_at"]%string ++ CAPABILITIES.
Definition PATCH_FIELDS : list string :=
  ["name"; "timezone"; "cadence"; "dispatch"; "dispatch_text_lengths"; "dispatch_revision"; "dispatch_role"; "dispatch_authored_by";
   "enabled"; "updated_by"; "updated_at"; "next_run_at"]%string ++ CAPABILITIES.
Definition outside (k : string) (ks : list string) : Prop := u k ∉ (u <$> ks).
#[global] Instance outside_dec k ks : Decision (outside k ks). Proof. unfold outside. apply _. Defined.

Lemma get_put_outside k k' ks v d : outside k ks -> k' ∈ ks -> get k (put k' v d) = get k d.
Proof. intros Ho Hk. rewrite get_put_field, decide_False; [done|]. intros E. apply Ho. rewrite E. by apply list_elem_of_fmap_2. Qed.
Lemma get_pop_outside k k' ks d : outside k ks -> k' ∈ ks -> get k (pop k' d) = get k d.
Proof. intros Ho Hk. rewrite get_pop, decide_False; [done|]. intros E. apply Ho. rewrite E. by apply list_elem_of_fmap_2. Qed.
Lemma get_caps_outside k ks r o e : outside k ks -> CAPABILITIES ⊆ ks -> get k (dict_update r (capability_fields o e)) = get k r.
Proof.
  intros Ho Hs. apply get_capabilities. intros Hk. apply Ho.
  assert ((capability_fields o e).*1 = u <$> CAPABILITIES) as E by reflexivity. rewrite E in Hk.
  apply list_elem_of_fmap in Hk as (x & -> & Hx). apply list_elem_of_fmap_2. by apply Hs.
Qed.
Lemma capabilities_within ks : CAPABILITIES ⊆ ks ++ CAPABILITIES.
Proof. set_solver. Qed.
Ltac outside_simp Ho :=
  repeat first [ rewrite (get_put_outside _ _ _ _ _ Ho) by (by_fields)
               | rewrite (get_pop_outside _ _ _ _ Ho) by (by_fields)
               | rewrite (get_caps_outside _ _ _ _ _ Ho) by (apply capabilities_within) ].

Lemma claim_record_get k c t r : outside k CLAIM_FIELDS -> get k (claim_record c t r) = get k r.
Proof. intros Ho. unfold claim_record. cbv zeta. by outside_simp Ho. Qed.
Lemma put_text_get k ks k' v r : outside k ks -> k' ∈ ks -> get k (put_text k' v r) = get k r.
Proof. intros Ho Hk. unfold put_text. destruct v as [[|]|]; by (eapply get_put_outside || eapply get_pop_outside). Qed.
Lemma record_outcome_get k f t r : outside k FIRE_FIELDS -> get k (record_outcome f t r) = get k r.
Proof.
  intros Ho. unfold record_outcome. cbv zeta. rewrite !(put_text_get k FIRE_FIELDS) by (done || by_fields).
  case_bool_decide; by outside_simp Ho.
Qed.
Lemma advance_get k f t r r' : outside k FIRE_FIELDS -> advance f t r = Ret r' -> get k r' = get k r.
Proof.
  intros Ho. unfold advance. destruct (fr_advance f); [|by intros [= ->]]. destruct (advanced t r) as [x|] eqn:E.
  - intros [= ->]. unfold advanced in E.
    apply obind_ret_inv in E as (? & _ & E). apply obind_ret_inv in E as (? & _ & E). apply obind_ret_inv in E as (? & _ & E).
    apply obind_ret_inv in E as (? & _ & [= <-]). by outside_simp Ho.
  - destruct (schedule_error _); [|done]. intros [= <-]. unfold disabled. cbv zeta. by outside_simp Ho.
Qed.
Lemma fired_get k f t r r' : outside k FIRE_FIELDS -> advance f t (record_outcome f t r) = Ret r' -> get k (fired t r') = get k r.
Proof.
  intros Ho E. unfold fired. cbv zeta. outside_simp Ho. rewrite (advance_get k _ _ _ _ Ho E). by apply record_outcome_get.
Qed.

(** ** A well-formed store *)
Definition owner_of (r : fields) : str := str_or_empty (get "owner_user_id" r).
Definition claim_ok (r : fields) : Prop :=
  (get "running_claim_id" r = JNull /\ get "running_claimed_at" r = JNull) \/
  exists c t, get "running_claim_id" r = JStr c /\ c <> [] /\ get "running_claimed_at" r = JStr (iso_from_datetime t) /\ in_range t = true.
Record record_ok (r : fields) : Prop := {
  ok_kind : is_kind r = true;
  ok_owner : exists o, get "owner_user_id" r = JStr o /\ storage_identity (JStr o) = Ret o;
  ok_name : exists n, get "name" r = JStr n /\ SCHEDULE_NAME_RE n = true;
  ok_id : exists i, get "schedule_id" r = JStr i /\ i <> [];
  ok_enabled : exists b, get "enabled" r = JBool b;
  ok_cadence : exists c, get "cadence" r = dump_cadence c /\ cadence_ok c = true;
  ok_timezone : exists tz z, get "timezone" r = JStr tz /\ zone_info tz = Ret z;
  ok_role : exists role, get "dispatch_role" r = JStr (role_text role);
  ok_dispatch : exists d, get "dispatch" r = JDict (dump_dispatch d) /\ dispatch_ok d = true;
  ok_next_run : exists t, get "next_run_at" r = JStr (iso_from_datetime t) /\ in_range t = true;
  ok_claim : claim_ok r }.
(** No two records share a key. *)
Definition unique {A} (key : fields -> A) (l : list fields) : Prop :=
  forall i j x y, l !! i = Some x -> l !! j = Some y -> key x = key y -> i = j.
Record store_ok (l : list fields) : Prop := {
  so_records : Forall record_ok l;
  so_names : unique (fun r => (owner_of r, name_of r)) l;
  so_ids : unique id_of l }.

Lemma truthy_text (s : str) : s <> [] -> str_or_empty (JStr s) = s.
Proof. intros. unfold str_or_empty. destruct s; [done|]. cbn [truthy]. apply py_str_str. Qed.
Lemma token_not_empty n : SCHEDULE_NAME_RE n = true -> n <> [].
Proof. by destruct n. Qed.
Lemma storage_not_empty o : storage_identity (JStr o) = Ret o -> o <> [].
Proof. by destruct o. Qed.
Lemma record_ok_owner r : record_ok r -> parse_owner r = Ret r.
Proof.
  intros [Hk (o & Ho & Hs) _ _ _ _ _ _ _ _ _]. unfold parse_owner. rewrite Hk, Ho, Hs. cbn [obind]. f_equal. apply dict_put_same.
  unfold get, py_get in Ho. destruct (dict_get _ _) as [v|]; cbn in Ho; congruence.
Qed.
Lemma records_owners l : Forall record_ok l -> owners_ok l.
Proof. intros Hl. eapply Forall_impl; [exact Hl|]. apply record_ok_owner. Qed.

Section uniqueness.
Context {A : Type} (key : fields -> A).
Lemma unique_insert_key l i x y : unique key l -> l !! i = Some x ->
  (key y = key x \/ forall j z, l !! j = Some z -> j <> i -> key z <> key y) -> unique key (<[i := y]> l).
Proof.
  intros Hu Hi Hy a b p q Ha Hb E. assert (i < length l)%nat as Hlt by (by eapply lookup_lt_Some).
  destruct (decide (a = i)) as [->|Na], (decide (b = i)) as [->|Nb]; [done|..];
    rewrite ?list_lookup_insert_eq in * by done; rewrite ?list_lookup_insert_ne in * by done; simplify_eq.
  - destruct Hy as [Hy|Hy]; [|by destruct (Hy b q)]. eapply Hu; [done..|congruence].
  - destruct Hy as [Hy|Hy]; [|by destruct (Hy a p)]. eapply Hu; [done..|congruence].
  - by eapply Hu.
Qed.
Lemma unique_snoc l y : unique key l -> (forall z, z ∈ l -> key z <> key y) -> unique key (l ++ [y]).
Proof.
  intros Hu Hy a b p q Ha Hb E. apply lookup_app_Some in Ha as [Ha|[La Ha]], Hb as [Hb|[Lb Hb]].
  - by eapply Hu.
  - apply list_lookup_singleton_Some in Hb as [_ <-]. destruct (Hy p); [by eapply list_elem_of_lookup_2|done].
  - apply list_lookup_singleton_Some in Ha as [_ <-]. destruct (Hy q); [by eapply list_elem_of_lookup_2|done].
  - apply list_lookup_singleton_Some in Ha as [? _], Hb as [? _]. lia.
Qed.
Lemma unique_delete l i : unique key l -> unique key (delete i l).
Proof.
  intros Hu a b p q Ha Hb E. rewrite list_lookup_delete in Ha, Hb.
  repeat case_decide; try (specialize (Hu _ _ _ _ Ha Hb E); lia).
Qed.
End uniqueness.

(** ** Requests *)
Definition create_ok (p : CreateRequest) : Prop :=
  SCHEDULE_NAME_RE (cr_name p) = true /\ cadence_ok (cr_cadence p) = true /\ dispatch_ok (cr_dispatch p) = true /\
  exists z, zone_info (cr_timezone p) = Ret z.
Definition update_ok (p : UpdateRequest) : Prop :=
  (forall n, up_name p = Some n -> SCHEDULE_NAME_RE n = true) /\ (forall c, up_cadence p = Some c -> cadence_ok c = true) /\
  (forall d, up_dispatch p = Some d -> dispatch_ok d = true) /\ (forall tz, up_timezone p = Some tz -> exists z, zone_info tz = Ret z).
Lemma require_true b (x : unit) : require b = Ret x -> b = true.
Proof. by destruct b. Qed.
Ltac outcome_run := repeat match goal with
  | Hx : obind _ _ = Ret _ |- _ => apply obind_ret_inv in Hx as (? & ? & Hx)
  | Hx : require _ = Ret _ |- _ => apply require_true in Hx
  | Hx : Ret _ = Ret _ |- _ => injection Hx as Hx; subst
  end.
Lemma validate_cadence_ok v c : validate_cadence v = Ret c -> cadence_ok c = true.
Proof. unfold validate_cadence. intros E. by outcome_run. Qed.
Lemma validate_dispatch_ok v d : validate_dispatch v = Ret d -> dispatch_ok d = true.
Proof. unfold validate_dispatch. intros E. by outcome_run. Qed.
Lemma timezone_field_ok v tz : timezone_field v = Ret tz -> exists z, zone_info tz = Ret z.
Proof.
  unfold timezone_field, validate_timezone. intros E. outcome_run. destruct (blank _); [done|]. destruct (zone_info _) eqn:Ez; [|done].
  injection E as <-. eauto.
Qed.
Lemma schedule_token_ok v n : schedule_token v = Ret n -> SCHEDULE_NAME_RE n = true.
Proof. unfold schedule_token. intros E. by outcome_run. Qed.
Lemma omitted_or_some {A} (read : json -> outcome exc A) v a : omitted_or read v = Ret (Some a) -> exists v, read v = Ret a.
Proof. unfold omitted_or. intros E. repeat (case_match; try done); outcome_run; simplify_eq; eauto. Qed.
Lemma validate_create_ok v p : validate_create v = Ret p -> create_ok p.
Proof.
  unfold validate_create. intros E. outcome_run. unfold create_ok. cbn [cr_name cr_cadence cr_dispatch cr_timezone].
  eauto 10 using schedule_token_ok, validate_cadence_ok, validate_dispatch_ok, timezone_field_ok.
Qed.
Lemma validate_update_ok v p : validate_update v = Ret p -> update_ok p.
Proof.
  unfold validate_update. intros E. outcome_run. unfold update_ok. cbn [up_name up_cadence up_dispatch up_timezone].
  repeat split; intros ? ->; match goal with Hx : omitted_or _ _ = Ret (Some _) |- _ => apply omitted_or_some in Hx as [? ?] end;
    eauto using schedule_token_ok, validate_cadence_ok, validate_dispatch_ok, timezone_field_ok.
Qed.

(** ** Every operation keeps records well formed *)
Lemma compute_next_run_iso c tz after s : compute_next_run c tz after = Ret s -> exists t, s = iso_from_datetime t /\ in_range t = true.
Proof.
  unfold compute_next_run. intros E. outcome_run. destruct (hhmm _) as [[h m]|]; [|done]. outcome_run.
  destruct x1 as [w|]; [|done]. outcome_run. unfold or_overflow, to_utc, checked in *. repeat case_match; simplify_eq. eauto.
Qed.
Lemma compute_json_iso v tz after s : compute_next_run_json v tz after = Ret s -> exists t, s = iso_from_datetime t /\ in_range t = true.
Proof. unfold compute_next_run_json. intros E. outcome_run. by eapply compute_next_run_iso. Qed.
Lemma new_record_ok p ses role token now next :
  create_ok p -> storage_identity (JStr (ss_owner ses)) = Ret (ss_owner ses) ->
  compute_next_run (cr_cadence p) (cr_timezone p) now = Ret next ->
  record_ok (new_record p ses (ss_owner ses) role (u "sched_" ++ token) now next).
Proof.
  intros (Hn & Hc & Hd & z & Hz) Ho Hx. apply compute_next_run_iso in Hx as (t & -> & Ht). unfold new_record. cbv zeta.
  split; try (rewrite get_capabilities by by_fields).
  - unfold is_kind. rewrite get_capabilities by by_fields. reflexivity.
  - exists (ss_owner ses). split; [reflexivity|exact Ho].
  - exists (cr_name p). split; [reflexivity|exact Hn].
  - eexists. split; [reflexivity|]. discriminate.
  - eexists. reflexivity.
  - exists (cr_cadence p). split; [reflexivity|exact Hc].
  - exists (cr_timezone p), z. split; [reflexivity|exact Hz].
  - exists role. reflexivity.
  - exists (cr_dispatch p). split; [reflexivity|exact Hd].
  - exists t. split; [reflexivity|exact Ht].
  - left. rewrite !get_capabilities by by_fields. split; reflexivity.
Qed.
(** The fields of [record_ok] that neither a claim nor a result writes. *)
Definition same_field (r r' : fields) (k : string) : Prop := get k r' = get k r.
Lemma record_ok_transfer r r' : record_ok r ->
  Forall (same_field r r') ["kind"; "owner_user_id"; "name"; "schedule_id"; "cadence"; "timezone"; "dispatch_role"; "dispatch"]%string ->
  (exists b, get "enabled" r' = JBool b) -> (exists t, get "next_run_at" r' = JStr (iso_from_datetime t) /\ in_range t = true) ->
  claim_ok r' -> record_ok r'.
Proof.
  intros [] Hf He Hn Hc. rewrite !Forall_cons in Hf. unfold same_field in Hf. destruct Hf as (Hk & Ho & Hna & Hi & Hca & Htz & Hro & Hdi & _).
  split; [unfold is_kind in *|..]; rewrite ?Hk, ?Ho, ?Hna, ?Hi, ?Hca, ?Htz, ?Hro, ?Hdi; assumption.
Qed.
Ltac same_fields lem := repeat (apply Forall_cons; split; [apply lem; by_fields|]); apply Forall_nil; done.

Lemma claim_record_ok c t r : record_ok r -> c <> [] -> in_range t = true -> record_ok (claim_record c t r).
Proof.
  intros Hr Hc Ht. apply (record_ok_transfer r); [done|same_fields claim_record_get|..].
  - rewrite claim_record_get by by_fields. by destruct Hr.
  - rewrite claim_record_get by by_fields. by destruct Hr.
  - right. exists c, t. unfold claim_record. cbv zeta. rewrite !get_capabilities by by_fields. field_simp. done.
Qed.

Lemma put_text_get' k k' v r : u k <> u k' -> get k (put_text k' v r) = get k r.
Proof. intros N. unfold put_text. destruct v as [[|]|]; rewrite ?get_put_field, ?get_pop; by rewrite decide_False by done. Qed.
Lemma record_outcome_keeps k f t r : outside k ["running_claim_id"; "running_claimed_at"; "last_run_at"; "last_run_id"; "last_status";
  "last_error"; "last_fire_warning"]%string -> get k (record_outcome f t r) = get k r.
Proof.
  intros Ho. unfold outside in Ho. rewrite !fmap_cons, !not_elem_of_cons in Ho. destruct Ho as (N1 & N2 & N3 & N4 & N5 & N6 & N7 & _).
  unfold record_outcome. cbv zeta. rewrite !put_text_get' by done. case_bool_decide; rewrite ?get_put_field, ?get_pop; by rewrite !decide_False by done.
Qed.
Lemma record_outcome_releases f t r : get "running_claim_id" (record_outcome f t r) = JNull /\
  get "running_claimed_at" (record_outcome f t r) = JNull.
Proof.
  unfold record_outcome. cbv zeta. rewrite !put_text_get' by discriminate. case_bool_decide; field_simp; done.
Qed.
(** [advance] writes the next run, or disables the record. *)
Lemma advance_cases f t r r' : advance f t r = Ret r' ->
  r' = r \/ (exists t', r' = put "next_run_at" (JStr (iso_from_datetime t')) r /\ in_range t' = true) \/ r' = disabled f r.
Proof.
  unfold advance. destruct (fr_advance f); [|intros [= ->]; auto]. destruct (advanced t r) as [x|] eqn:E.
  - intros [= ->]. unfold advanced in E. outcome_run.
    match goal with Hx : compute_next_run_json _ _ _ = Ret _ |- _ => apply compute_json_iso in Hx as (t' & -> & Ht) end. eauto.
  - destruct (schedule_error _); [|done]. intros [= <-]. auto.
Qed.
Lemma fired_record_ok f t r r' : record_ok r -> advance f t (record_outcome f t r) = Ret r' -> record_ok (fired t r').
Proof.
  intros Hr E. apply (record_ok_transfer r); [done|..].
  { repeat (apply Forall_cons; split; [unfold same_field; apply (fired_get _ f); [by_fields|exact E]|]). apply Forall_nil; done. }
  - unfold fired. cbv zeta. rewrite get_capabilities by by_fields. field_simp. destruct Hr as [_ _ _ _ (b & He) _ _ _ _ _ _].
    destruct (advance_cases _ _ _ _ E) as [->|[(t' & -> & _)| ->]]; [..|exists false]; unfold disabled; cbv zeta; field_simp; [exists b|exists b|done];
      by rewrite record_outcome_keeps by by_fields.
  - unfold fired. cbv zeta. rewrite get_capabilities by by_fields. field_simp. destruct Hr as [_ _ _ _ _ _ _ _ _ (n & Hn & Hi) _].
    destruct (advance_cases _ _ _ _ E) as [->|[(t' & -> & Ht)| ->]]; unfold disabled; cbv zeta; field_simp; [exists n|eauto|exists n];
      by rewrite record_outcome_keeps by by_fields.
  - left. unfold fired. cbv zeta. rewrite !get_capabilities by by_fields. field_simp.
    destruct (record_outcome_releases f t r) as [H1 H2].
    destruct (advance_cases _ _ _ _ E) as [->|[(t' & -> & _)| ->]]; unfold disabled; cbv zeta; field_simp; done.
Qed.

(** [patch] field by field. *)
Lemma author_get k role o r : outside k ["dispatch_role"; "dispatch_authored_by"]%string -> get k (author role o r) = get k r.
Proof. intros Ho. unfold author. by outside_simp Ho. Qed.
Lemma patch_enabled_get k p role o r : outside k ["dispatch_role"; "dispatch_authored_by"; "enabled"]%string ->
  get k (patch_enabled p role o r) = get k r.
Proof. intros Ho. unfold patch_enabled, author. cbv zeta. destruct (arming p r), (up_enabled p); by outside_simp Ho. Qed.
Lemma patch_dispatch_get k p role o r :
  outside k ["dispatch"; "dispatch_text_lengths"; "dispatch_revision"; "dispatch_role"; "dispatch_authored_by"]%string ->
  get k (patch_dispatch p role o r) = get k r.
Proof. intros Ho. unfold patch_dispatch, author. cbv zeta. destruct (up_dispatch p); by outside_simp Ho. Qed.
Lemma patch_plain_get k p r : outside k ["name"; "timezone"; "cadence"]%string -> get k (patch_plain p r) = get k r.
Proof. intros Ho. unfold patch_plain. cbv zeta. destruct (up_cadence p), (up_timezone p), (up_name p); by outside_simp Ho. Qed.
Lemma outside_mono k ks ks' : outside k ks -> Forall (fun x => x ∈ ks) ks' -> outside k ks'.
Proof.
  rewrite Forall_forall. intros Ho Hs Hk. apply Ho. apply list_elem_of_fmap in Hk as (x & -> & Hx). apply list_elem_of_fmap_2. by apply Hs.
Qed.
Lemma patch_get k p role o r : outside k PATCH_FIELDS -> get k (patch p role o r) = get k r.
Proof.
  intros Ho. unfold patch. rewrite patch_enabled_get, patch_dispatch_get, patch_plain_get; [done|..];
    (eapply outside_mono; [exact Ho|by_fields]).
Qed.
Lemma patch_name p role o r : get "name" (patch p role o r) = match up_name p with Some n => JStr n | None => get "name" r end.
Proof.
  unfold patch. rewrite patch_enabled_get, patch_dispatch_get by by_fields. unfold patch_plain. cbv zeta.
  destruct (up_cadence p), (up_timezone p), (up_name p); field_simp; done.
Qed.
Lemma patch_timezone p role o r :
  get "timezone" (patch p role o r) = match up_timezone p with Some n => JStr n | None => get "timezone" r end.
Proof.
  unfold patch. rewrite patch_enabled_get, patch_dispatch_get by by_fields. unfold patch_plain. cbv zeta.
  destruct (up_cadence p), (up_timezone p), (up_name p); field_simp; done.
Qed.
Lemma patch_cadence p role o r :
  get "cadence" (patch p role o r) = match up_cadence p with Some c => dump_cadence c | None => get "cadence" r end.
Proof.
  unfold patch. rewrite patch_enabled_get, patch_dispatch_get by by_fields. unfold patch_plain. cbv zeta.
  destruct (up_cadence p), (up_timezone p), (up_name p); field_simp; done.
Qed.
Lemma patch_dispatch_is p role o r :
  get "dispatch" (patch p role o r) = match up_dispatch p with Some d => JDict (dump_dispatch d) | None => get "dispatch" r end.
Proof.
  unfold patch. rewrite patch_enabled_get by by_fields. unfold patch_dispatch, author. cbv zeta.
  destruct (up_dispatch p); field_simp; [done|]. by apply patch_plain_get; by_fields.
Qed.
Lemma patch_enabled_is p role o r :
  get "enabled" (patch p role o r) = match up_enabled p with Some b => JBool b | None => get "enabled" r end.
Proof.
  unfold patch. set (r0 := patch_dispatch _ _ _ _). assert (get "enabled" r0 = get "enabled" r) as E.
  { unfold r0. rewrite patch_dispatch_get, patch_plain_get by by_fields. done. }
  unfold patch_enabled. cbv zeta. destruct (up_enabled p) as [b|]; [field_simp; done|].
  destruct (arming p r0); [rewrite author_get by by_fields|]; exact E.
Qed.
(** The role of the session is recorded with a new dispatch and when a disabled
    schedule is enabled; otherwise the role stays. *)
Definition arms (p : UpdateRequest) (r : fields) : bool :=
  negb (is_none (up_dispatch p)) || arming p r.
Lemma patch_role p role o r :
  get "dispatch_role" (patch p role o r) = if arms p r then JStr (role_text role) else get "dispatch_role" r.
Proof.
  unfold patch, arms. set (r0 := patch_dispatch _ _ _ _). assert (get "enabled" r0 = get "enabled" r) as E.
  { unfold r0. rewrite patch_dispatch_get, patch_plain_get by by_fields. done. }
  assert (get "dispatch_role" r0 = if is_none (up_dispatch p) then get "dispatch_role" r else JStr (role_text role)) as Er.
  { unfold r0, patch_dispatch, author. cbv zeta. destruct (up_dispatch p); cbn [is_none]; field_simp; [done|]. by apply patch_plain_get; by_fields. }
  assert (arming p r0 = arming p r) as Ea by (unfold arming; by rewrite E).
  unfold patch_enabled, author. cbv zeta. rewrite Ea. destruct (arming p r); rewrite ?orb_true_r, ?orb_false_r.
  - destruct (up_enabled p); field_simp; done.
  - destruct (up_enabled p); field_simp; rewrite Er; by destruct (is_none _).
Qed.
Lemma updated_patch k p role o b now next r : outside k (["updated_by"; "updated_at"; "next_run_at"]%string ++ CAPABILITIES) ->
  get k (updated p role o b now next r) = get k (patch p role o r).
Proof. intros Ho. unfold updated. cbv zeta. by outside_simp Ho. Qed.
Lemma updated_get k p role o b now next r : outside k PATCH_FIELDS -> get k (updated p role o b now next r) = get k r.
Proof. intros Ho. unfold updated. cbv zeta. outside_simp Ho. by apply patch_get. Qed.
Lemma updated_record_ok p role o b now next r : record_ok r -> update_ok p ->
  (exists t, next = iso_from_datetime t /\ in_range t = true) -> record_ok (updated p role o b now next r).
Proof.
  intros Hr (Hn & Hc & Hd & Hz) (t & -> & Ht). destruct Hr as [Hk Ho Hna Hi He Hca Htz Hro Hdi _ Hcl].
  split; [unfold is_kind in *; by rewrite updated_get by by_fields|rewrite updated_get by by_fields; done|..].
  - rewrite updated_patch, patch_name by by_fields. destruct (up_name p) as [n|]; [exists n; auto|done].
  - by rewrite updated_get by by_fields.
  - rewrite updated_patch, patch_enabled_is by by_fields. destruct (up_enabled p); eauto.
  - rewrite updated_patch, patch_cadence by by_fields. destruct (up_cadence p) as [c|]; [exists c; auto|done].
  - rewrite updated_patch, patch_timezone by by_fields. destruct (up_timezone p) as [tz|]; [|done]. destruct (Hz tz eq_refl) as [z Ez]. eauto.
  - rewrite updated_patch, patch_role by by_fields. destruct (arms p r); eauto.
  - rewrite updated_patch, patch_dispatch_is by by_fields. destruct (up_dispatch p) as [d|]; [exists d; auto|done].
  - exists t. unfold updated. cbv zeta. rewrite get_capabilities by by_fields. field_simp. done.
  - unfold claim_ok in *. by rewrite !updated_get by by_fields.
Qed.

(** ** Steps *)

(** Whose result is recorded by an act. *)
Definition fire_of (w : World) (a : act) (id : str) (claim : option str) : Prop :=
  match a with
  | APoll _ id' c _ => id = id' /\ claim = Some c
  | ARunNow ses ident _ => exists r, (get_for_owner (ss_owner ses) ident (w_store w)).2 = Ret (Some r) /\ id = id_of r /\ claim = None
  | AAnswer i _ _ => exists f, w_flights w !! i = Some f /\ id = fl_schedule_id f /\ claim = fl_claim_id f
  | _ => False
  end.
(** What an act may do to the records. *)
Inductive edit (w : World) : act -> list fields -> list fields -> Prop :=
| edit_create p ses token now l role next :
    exact_role (ss_role ses) = Ret role ->
    Forall (fun item => owned_by (ss_owner ses) item = true -> name_of item <> cr_name p) l ->
    compute_next_run (cr_cadence p) (cr_timezone p) now = Ret next ->
    edit w (ACreate p ses token now) l (l ++ [new_record p ses (ss_owner ses) role (u "sched_" ++ token) now next])
| edit_update ses ident p now now' l i item role next :
    exact_role (ss_role ses) = Ret role ->
    find_index (fun item => owned_by (ss_owner ses) item && named ident item) l = Some (i, item) ->
    name_taken p (ss_owner ses) i item l = false ->
    compute_next_run_json (get "cadence" (patch p role (ss_owner ses) item))
      (py_str (get "timezone" (patch p role (ss_owner ses) item))) now' = Ret next ->
    edit w (AUpdate ses ident p now now') l (<[i := updated p role (ss_owner ses) (ss_owner ses) now next item]> l)
| edit_delete ses ident l i item :
    find_index (fun item => owned_by (ss_owner ses) item && named ident item) l = Some (i, item) ->
    edit w (ADelete ses ident) l (delete i l)
| edit_claim roster id c now l i item :
    find_index (has_id id) l = Some (i, item) -> truthy (get "enabled" item) = true -> due now item = true ->
    claimed now item = false -> edit w (APoll roster id c now) l (<[i := claim_record c now item]> l)
| edit_fire a id f ts l i item item' :
    fire_of w a id (fr_claim_id f) -> find_index (has_id id) l = Some (i, item) -> may_finish f item = true ->
    advance f ts (record_outcome f ts item) = Ret item' -> edit w a l (<[i := fired ts item']> l).

Definition session_ok (ses : Session) : Prop := storage_identity (JStr (ss_owner ses)) = Ret (ss_owner ses).
Definition sessions_ok (a : act) : Prop := match a with ACreate _ ses _ _ => session_ok ses | _ => True end.

Lemma parse_owner_transfer r r' : get "kind" r' = get "kind" r -> get "owner_user_id" r' = get "owner_user_id" r ->
  parse_owner r = Ret r -> parse_owner r' = Ret r'.
Proof.
  intros Hk Ho. unfold parse_owner, is_kind. rewrite Hk, Ho. destruct (is_text _ _); [|done].
  intros (o & Hs & _)%obind_ret_inv. rewrite Hs. cbn [obind]. f_equal. apply dict_put_same.
  apply storage_identity_same in Hs. rewrite <- Ho in Hs. unfold get, py_get in Hs. destruct (dict_get _ r') as [v|]; cbn in Hs; congruence.
Qed.
Lemma edit_owners w a l l' : edit w a l l' -> sessions_ok a -> owners_ok l -> owners_ok l'.
Proof.
  unfold owners_ok. intros E Hs Hl. destruct E as [p ses token now l role next|? ? ? ? ? l i item role next ? Hf|? ? l i ? ?|? ? ? ? l i item Hf|? ? ? ? l i item item' ? Hf ? Ha].
  - apply Forall_app. split; [done|]. apply Forall_singleton. unfold parse_owner, is_kind.
    assert (get "owner_user_id" (new_record p ses (ss_owner ses) role (u "sched_" ++ token) now next) = JStr (ss_owner ses)) as Ho
      by (unfold new_record; cbv zeta; rewrite get_capabilities by by_fields; reflexivity).
    rewrite Ho, Hs. cbn [obind]. rewrite dict_put_same; [by destruct (is_text _ _)|].
    unfold get, py_get in Ho. destruct (dict_get _ _) as [v|]; cbn in Ho; congruence.
  - apply find_record_spec in Hf as (Hi & _). apply Forall_insert; [done|]. apply (parse_owner_transfer item); [by rewrite updated_get by by_fields..|].
    exact (Forall_lookup_1 _ _ _ _ Hl Hi).
  - by apply Forall_delete.
  - apply find_record_spec in Hf as (Hi & _). apply Forall_insert; [done|]. apply (parse_owner_transfer item); [by rewrite claim_record_get by by_fields..|].
    exact (Forall_lookup_1 _ _ _ _ Hl Hi).
  - apply find_record_spec in Hf as (Hi & _). apply Forall_insert; [done|].
    apply (parse_owner_transfer item); [by apply (fired_get _ f); [by_fields|]..|]. exact (Forall_lookup_1 _ _ _ _ Hl Hi).
Qed.

(** Every act is a sequence of edits, and the file stays readable. *)
Lemma becomes_edit w a s s' l l' : stored s l -> sessions_ok a -> edit w a l l' -> becomes s' l' -> stored s' l'.
Proof. intros Hs Ha He Hb. apply becomes_stored; [done|]. eapply edit_owners; eauto using stored_owners. Qed.
Lemma stored_same s s' l : st_file s' = st_file s -> stored s l -> stored s' l.
Proof. intros E (p & Ep & ?). exists p. by rewrite E. Qed.
Lemma persist_edits w a id f ts rp s l : stored s l -> sessions_ok a -> fire_of w a id (fr_claim_id f) ->
  exists l', (l' = l \/ edit w a l l') /\ stored (persist id f ts rp s).1 l'.
Proof.
  intros Hs Ha Hf. destruct (persist id f ts rp s) as [s1 r1] eqn:Ep. apply persist_effect in Ep. cbn [fst].
  destruct (record_fire_result id f ts s) as [s2 r2] eqn:Er. cbn in Ep. subst s2.
  apply fire_effect in Er as [[E _]|(l0 & i & item & item' & Hl & Hi & Hm & Had & Hb & _)].
  - exists l. split; [by left|]. by eapply stored_same.
  - rewrite (stored_fun _ _ _ Hl Hs) in *. pose proof (edit_fire w a id f ts l i item item' Hf Hi Hm Had) as He.
    eexists. split; [by right|]. exact (becomes_edit _ _ _ _ _ _ Hs Ha He Hb).
Qed.
Lemma launch_edits w0 a roster r live claim adv now w l : stored (w_store w) l -> sessions_ok a ->
  fire_of w0 a (id_of r) claim -> exists l', (l' = l \/ edit w0 a l l') /\ stored (w_store (launch roster r live claim adv now w)) l'.
Proof.
  intros Hs Ha Hf. unfold launch. cbv zeta. destruct (plan_fire _ _ _ _); cbn [w_store with_store at_store];
    [exists l; split; [by left|done]| |exists l; split; [by left|done]].
  unfold refuse_fire. by apply (persist_edits w0 a).
Qed.
Lemma finish_edits w a id warning claim adv ans now s l : stored s l -> sessions_ok a -> fire_of w a id claim ->
  exists l', (l' = l \/ edit w a l l') /\ stored (finish_fire id warning claim adv ans now s).1 l'.
Proof. intros Hs Ha Hf. unfold finish_fire. cbv zeta. destruct ans; by apply (persist_edits w a). Qed.

Lemma claim_record_id c t r : id_of (claim_record c t r) = id_of r.
Proof. unfold id_of. by rewrite claim_record_get by by_fields. Qed.
Lemma has_id_spec id r : has_id id r = true -> id_of r = id.
Proof. unfold has_id. by intros ?%bool_decide_eq_true. Qed.

(** The edits of one act: none, one, or the claim of a poll and its refusal. *)
Definition edits (w : World) (a : act) (l l' : list fields) : Prop :=
  l' = l \/ edit w a l l' \/ exists ro id c now l1, a = APoll ro id c now /\ edit w a l l1 /\ edit w a l1 l'.
Lemma edits_few w a l (P : list fields -> Prop) : (exists l', (l' = l \/ edit w a l l') /\ P l') -> exists l', edits w a l l' /\ P l'.
Proof. intros (l' & [->|He] & Hp); eexists; (split; [|exact Hp]); [by left|by right; left]. Qed.
Lemma act_edits w a l : stored (w_store w) l -> sessions_ok a ->
  exists l', edits w a l l' /\ stored (w_store (run_act w a)) l'.
Proof.
  intros Hs Ha. destruct a as [p ses token now|ses ident p now now'|ses ident|roster id c now|ses ident now|i ans now|saves]; cbn [run_act].
  - unfold with_store. cbn [w_store at_store]. destruct (create _ _ _ _ _) as [s' r] eqn:E. cbn [fst].
    apply create_schedule_effect in E as [E|(l' & Hb & l0 & owner & role & next & Hl & <- & Hr & Hn & Hc & ->)]; [exists l; split; [by left|by eapply stored_same]|].
    rewrite (stored_fun _ _ _ Hl Hs) in *. pose proof (edit_create w p ses token now l role next Hr Hn Hc) as He.
    eexists. split; [by right; left|]. exact (becomes_edit _ _ _ _ _ _ Hs Ha He Hb).
  - unfold with_store, session_edit. cbn [w_store at_store]. rewrite lift_bind. unfold session_owner_user_id.
    case_bool_decide; [exists l; split; [by left|done]|]. destruct (update _ _ _ _ _ _ _ _) as [s' r] eqn:E. cbn [fst].
    apply update_effect in E as [[E _]|(l0 & i & item & role & cad & tz & next & Hl & Hr & Hi & Hn & <- & <- & Hx & Hb & _)];
      [exists l; split; [by left|by eapply stored_same]|].
    rewrite (stored_fun _ _ _ Hl Hs) in *. pose proof (edit_update w ses ident p now now' l i item role next Hr Hi Hn Hx) as He.
    eexists. split; [by right; left|]. exact (becomes_edit _ _ _ _ _ _ Hs Ha He Hb).
  - unfold with_store, session_edit. cbn [w_store at_store]. rewrite lift_bind. unfold session_owner_user_id.
    case_bool_decide; [exists l; split; [by left|done]|]. destruct (delete_schedule _ _ _) as [s' r] eqn:E. cbn [fst].
    apply delete_effect in E as [[E _]|(l0 & i & item & Hl & Hi & Hb & _)]; [exists l; split; [by left|by eapply stored_same]|].
    rewrite (stored_fun _ _ _ Hl Hs) in *. pose proof (edit_delete w ses ident l i item Hi) as He.
    eexists. split; [by right; left|]. exact (becomes_edit _ _ _ _ _ _ Hs Ha He Hb).
  - destruct (claim_due_record _ _ _ _) as [s' r] eqn:E.
    apply claim_due_effect in E as [[E Hr]|(l0 & i & item & Hl & Hi & Hen & Hd & Hc & Hb & ->)].
    { exists l. split; [by left|]. destruct Hr as [->|[e ->]]; cbn [w_store at_store]; by eapply stored_same. }
    rewrite (stored_fun _ _ _ Hl Hs) in *. pose proof (edit_claim w roster id c now l i item Hi Hen Hd Hc) as He.
    destruct (launch_edits w (APoll roster id c now) roster (claim_record c now item) None (Some c) true now (at_store s' w)
      (<[i := claim_record c now item]> l)) as (l' & Hl' & Hs').
    + cbn [w_store at_store]. exact (becomes_edit _ _ _ _ _ _ Hs Ha He Hb).
    + done.
    + cbn [fire_of]. split; [|done]. rewrite claim_record_id. apply find_record_spec in Hi as (_ & Hi & _). by apply has_id_spec.
    + exists l'. split; [|done]. destruct Hl' as [->|Hl']; [by right; left|]. right; right. by eexists _, _, _, _, _.
  - unfold session_edit. rewrite lift_bind. unfold session_owner_user_id. case_bool_decide; [exists l; split; [by left|by destruct (exact_role (ss_role ses))]|].
    pose proof (get_for_owner_file (ss_owner ses) ident (w_store w)) as E. destruct (get_for_owner _ _ _) as [s1 r] eqn:Eg. cbn in E. subst s1.
    destruct r as [[r|]|]; [|exists l; split; [by left|by destruct (exact_role (ss_role ses))]..].
    destruct (exact_role _) as [role|]; [|exists l; split; [by left|done]].
    apply edits_few, launch_edits; [done|done|]. cbn [fire_of]. rewrite Eg. eauto.
  - destruct (w_flights w !! i) as [f|] eqn:Hi; [|exists l; split; [by left|done]]. cbv zeta. cbn [w_store].
    apply edits_few, finish_edits; [done|done|]. cbn [fire_of]. eauto.
  - exists l. split; [by left|]. by eapply stored_same.
Qed.

(** ** The invariant *)
Lemma record_owner r o : record_ok r -> owner_of r = o -> owned_by o r = true.
Proof.
  intros [_ (o' & Ho & Hs) _ _ _ _ _ _ _ _ _] <-. unfold owned_by, owner_of. rewrite Ho, truthy_text by by apply storage_not_empty.
  by apply bool_decide_eq_true.
Qed.
Lemma owned_owner o r : owned_by o r = true -> o <> [] -> owner_of r = o.
Proof.
  unfold owned_by, owner_of, is_text. destruct (get "owner_user_id" r); try done. intros ->%bool_decide_eq_true ?. by apply truthy_text.
Qed.
Lemma record_name_text r n : record_ok r -> is_text (get "name" r) n = true -> name_of r = n.
Proof.
  intros [_ _ (n' & Hn & Ht) _ _ _ _ _ _ _ _] E. unfold name_of. rewrite Hn in *. apply bool_decide_eq_true in E as <-.
  by apply truthy_text, token_not_empty.
Qed.
(** An edit that changes neither ids, owners nor names. *)
Lemma store_ok_insert l i x y : store_ok l -> l !! i = Some x -> record_ok y ->
  owner_of y = owner_of x -> name_of y = name_of x -> id_of y = id_of x -> store_ok (<[i := y]> l).
Proof.
  intros [Hr Hn Hi] Hx Hy Ho Hna Hid. split; [by apply Forall_insert|..].
  - apply (unique_insert_key _ l i x y); [done..|]. left. congruence.
  - apply (unique_insert_key _ l i x y); [done..|]. by left.
Qed.
Lemma id_ok r id : record_ok r -> id_of r = id -> id <> [].
Proof. intros [_ _ _ (i & Hi & Hn) _ _ _ _ _ _ _] <-. unfold id_of. by rewrite Hi, truthy_text. Qed.

Definition act_ok (l : list fields) (a : act) : Prop :=
  match a with
  | ACreate p ses token now => create_ok p /\ session_ok ses /\ Forall (fun r => id_of r <> u "sched_" ++ token) l
  | AUpdate ses _ p _ _ => update_ok p
  | APoll _ _ c now => c <> [] /\ in_range now = true
  | _ => True
  end.
Lemma act_sessions l a : act_ok l a -> sessions_ok a.
Proof. by destruct a as [? ? ? ?| | | | | |]; [intros (_ & ? & _)|..]. Qed.

Lemma new_record_keys p ses role token now next : create_ok p -> session_ok ses ->
  owner_of (new_record p ses (ss_owner ses) role (u "sched_" ++ token) now next) = ss_owner ses /\
  name_of (new_record p ses (ss_owner ses) role (u "sched_" ++ token) now next) = cr_name p /\
  id_of (new_record p ses (ss_owner ses) role (u "sched_" ++ token) now next) = u "sched_" ++ token.
Proof.
  intros (Hn & _) Ho. unfold owner_of, name_of, id_of, new_record. cbv zeta. rewrite !get_capabilities by by_fields.
  split; [|split].
  - transitivity (str_or_empty (JStr (ss_owner ses))); [reflexivity|]. by apply truthy_text, storage_not_empty.
  - transitivity (str_or_empty (JStr (cr_name p))); [reflexivity|]. by apply truthy_text, token_not_empty.
  - transitivity (str_or_empty (JStr (u "sched_" ++ token))); [reflexivity|]. apply truthy_text. discriminate.
Qed.
Lemma name_free p o i item l : store_ok l -> l !! i = Some item -> owned_by o item = true -> o <> [] -> name_taken p o i item l = false ->
  forall n, up_name p = Some n -> n = name_of item \/ forall j z, l !! j = Some z -> j <> i -> owner_of z = o -> name_of z <> n.
Proof.
  intros [Hr _ _] Hi Ho Hne Ht n Hn. unfold name_taken in Ht. rewrite Hn in Ht. apply andb_false_iff in Ht as [Ht|Ht].
  - apply negb_false_iff in Ht. left. symmetry. apply record_name_text; [|done]. exact (Forall_lookup_1 _ _ _ _ Hr Hi).
  - right. intros j z Hz Hji Hoz Hnz. apply not_true_iff_false in Ht. apply Ht. apply existsb_exists. exists z. split.
    + apply list_elem_of_In. destruct (decide (j < i)%nat) as [Hlt|Hge].
      * apply (list_elem_of_lookup_2 _ j). by rewrite list_lookup_delete_lt by lia.
      * destruct j as [|j]; [lia|]. apply (list_elem_of_lookup_2 _ j). by rewrite list_lookup_delete_ge by lia.
    + rewrite (record_owner z o) by (done || exact (Forall_lookup_1 _ _ _ _ Hr Hz)). by apply bool_decide_eq_true.
Qed.

Lemma edit_store_ok w a l l' : edit w a l l' -> act_ok l a -> store_ok l -> store_ok l'.
Proof.
  intros E Ha Hok. destruct E as [p ses token now l role next Hr Hn Hc|ses ident p now now' l i item role next Hr Hf Hn Hx|ses ident l i item Hf
    |roster id c now l i item Hf He Hd Hcl|a id f ts l i item item' Hof Hf Hm Had].
  - destruct Ha as (Hp & Hs & Hfresh). destruct (new_record_keys p ses role token now next Hp Hs) as (Ko & Kn & Ki). destruct Hok as [Hrs Hns His]. split.
    + apply Forall_app. split; [done|]. apply Forall_singleton. by apply new_record_ok.
    + apply unique_snoc; [done|]. intros z Hz [Eo En]%pair_equal_spec. rewrite Ko in Eo. rewrite Kn in En. rewrite Forall_forall in Hn, Hrs.
      apply (Hn z Hz); [|done]. by apply record_owner; [apply Hrs|].
    + apply unique_snoc; [done|]. intros z Hz Ez. rewrite Forall_forall in Hfresh. apply (Hfresh z Hz). by rewrite Ez, Ki.
  - apply find_record_spec in Hf as (Hi & Hf & _). apply andb_true_iff in Hf as [Ho _]. destruct (Forall_lookup_1 _ _ _ _ (so_records _ Hok) Hi) as [].
    pose proof (Forall_lookup_1 _ _ _ _ (so_records _ Hok) Hi) as Hrec. apply compute_json_iso in Hx.
    assert (ss_owner ses <> []) as Hne.
    { destruct ok_owner0 as (o & Eo & Hso). unfold owned_by in Ho. rewrite Eo in Ho. apply bool_decide_eq_true in Ho as <-. by apply storage_not_empty. }
    assert (owner_of (updated p role (ss_owner ses) (ss_owner ses) now next item) = owner_of item) as Eo by (unfold owner_of; by rewrite updated_get by by_fields).
    assert (id_of (updated p role (ss_owner ses) (ss_owner ses) now next item) = id_of item) as Ei by (unfold id_of; by rewrite updated_get by by_fields).
    pose proof (updated_record_ok p role (ss_owner ses) (ss_owner ses) now next item Hrec Ha Hx) as Hupd.
    split; [apply Forall_insert; [apply Hok|done]| |apply (unique_insert_key _ l i item); [apply Hok|done|by left]].
    apply (unique_insert_key _ l i item); [apply Hok|done|].
    assert (name_of (updated p role (ss_owner ses) (ss_owner ses) now next item) = match up_name p with Some n => n | None => name_of item end) as En.
    { unfold name_of. rewrite updated_patch, patch_name by by_fields. destruct (up_name p) as [n|] eqn:Eup; [|done].
      apply truthy_text, token_not_empty. by apply Ha. }
    destruct (up_name p) as [n|] eqn:Eup; [|left; congruence].
    destruct (name_free p _ i item l Hok Hi Ho Hne Hn n Eup) as [->|Hfree]; [left; congruence|right].
    intros j z Hz Hji [E1 E2]%pair_equal_spec. apply (Hfree j z Hz Hji); [|congruence]. rewrite E1, Eo. by apply owned_owner.
  - destruct Hok as [Hr Hn Hi]. split; [by apply Forall_delete|by apply unique_delete..].
  - destruct Ha as [Hc Hnow]. apply find_record_spec in Hf as (Hi & _ & _). pose proof (Forall_lookup_1 _ _ _ _ (so_records _ Hok) Hi) as Hrec.
    apply (store_ok_insert l i item); [done|done|by apply claim_record_ok|..]; unfold owner_of, name_of, id_of; by rewrite claim_record_get by by_fields.
  - apply find_record_spec in Hf as (Hi & _ & _). pose proof (Forall_lookup_1 _ _ _ _ (so_records _ Hok) Hi) as Hrec.
    apply (store_ok_insert l i item); [done|done|by eapply fired_record_ok|..]; unfold owner_of, name_of, id_of;
      (rewrite (fired_get _ f ts item item'); [done|by_fields|done]).
Qed.
Lemma edits_store_ok w a l l' : edits w a l l' -> act_ok l a -> store_ok l -> store_ok l'.
Proof.
  intros [->|[He|(ro & id & c & now & l1 & -> & H1 & H2)]] Ha Hok; [done|by eapply edit_store_ok|].
  eapply (edit_store_ok w (APoll ro id c now) l1); [done|exact Ha|]. by eapply edit_store_ok.
Qed.
(** Acts whose requests were validated, with fresh ids and sessions of canonical
    owners, in any order, with any failing saves. *)
Definition step (w w' : World) : Prop := exists l a, stored (w_store w) l /\ act_ok l a /\ w' = run_act w a.
Definition initial (w : World) : Prop := st_file (w_store w) = Missing /\ w_flights w = [] /\ w_polled w = [].
Lemma initial_stored w : initial w -> stored (w_store w) [] /\ store_ok [].
Proof.
  intros (E & _). split; [exists empty_payload; by rewrite E|]. split; [apply Forall_nil; done|..]; intros i j x y Hx; by rewrite lookup_nil in Hx.
Qed.
Lemma step_store_ok w w' : step w w' -> (exists l, stored (w_store w) l /\ store_ok l) -> exists l, stored (w_store w') l /\ store_ok l.
Proof.
  intros (l & a & Hs & Ha & ->) (l0 & Hs0 & Hok). rewrite (stored_fun _ _ _ Hs0 Hs) in Hok.
  destruct (act_edits w a l Hs (act_sessions _ _ Ha)) as (l' & He & Hs'). exists l'. split; [done|]. by eapply edits_store_ok.
Qed.

(** C20: Whatever validated requests, polls, run-now requests, answers of the
    registry and failing saves follow each other on the store of a user, its file
    can be read and every record is well formed: canonical owner, valid name,
    cadence, dispatch and time zone, an exact role, a readable next run, a claim
    with its time or none; no owner has two schedules of one name and no two
    records share an id. *)
Theorem schedules_wellformed w w' : initial w -> rtc step w w' -> exists l, stored (w_store w') l /\ store_ok l.
Proof.
  intros Hi Hr. apply (rtc_invariant step (fun w => exists l, stored (w_store w) l /\ store_ok l) w w'); [apply step_store_ok|done|].
  exists []. by apply initial_stored.
Qed.

(** ** Authority *)
Definition stored_owner (r : fields) : bool := is_text (get "dispatch_role" r) (u "owner").
(** No record with this id has the stored role of an owner. *)
Definition not_owner_role (id : str) (l : list fields) : Prop := forall r, r ∈ l -> id_of r = id -> stored_owner r = false.
(** An act that is not an edit by an owner's session. *)
Definition by_invite (a : act) : Prop :=
  match a with ACreate _ ses _ _ | AUpdate ses _ _ _ _ => exact_role (ss_role ses) <> Ret Owner | _ => True end.

Lemma role_not_owner v role : exact_role v = Ret role -> exact_role v <> Ret Owner -> role = Invite.
Proof. destruct role; [done|done]. Qed.
Lemma not_owner_insert id l i x y : not_owner_role id l -> l !! i = Some x -> id_of y = id_of x ->
  (stored_owner y = stored_owner x \/ stored_owner y = false) -> not_owner_role id (<[i := y]> l).
Proof.
  intros Hl Hi Hid Hy r Hr Er. apply list_elem_of_lookup in Hr as [j Hj]. apply list_lookup_insert_Some in Hj as [(<- & <- & _)|[_ Hj]].
  - destruct Hy as [->| ->]; [|done]. apply Hl; [by eapply list_elem_of_lookup_2|congruence].
  - apply Hl; [by eapply list_elem_of_lookup_2|done].
Qed.
Lemma edit_not_owner w a l l' id : edit w a l l' -> by_invite a -> not_owner_role id l -> not_owner_role id l'.
Proof.
  intros E Ha Hl. destruct E as [p ses token now l role next Hr Hn Hc|ses ident p now now' l i item role next Hr Hf Hn Hx|ses ident l i item Hf
    |roster id' c now l i item Hf He Hd Hcl|a id' f ts l i item item' Hof Hf Hm Had].
  - apply role_not_owner in Hr as ->; [|exact Ha]. intros r Hr Er. apply elem_of_app in Hr as [Hr|Hr]; [by apply Hl|].
    apply list_elem_of_singleton in Hr as ->. unfold stored_owner, new_record. cbv zeta. rewrite get_capabilities by by_fields. reflexivity.
  - apply role_not_owner in Hr as ->; [|exact Ha]. apply find_record_spec in Hf as (Hi & _).
    apply (not_owner_insert _ _ _ item); [done|done|unfold id_of; by rewrite updated_get by by_fields|].
    unfold stored_owner. rewrite updated_patch, patch_role by by_fields. destruct (arms p item); [by right|by left].
  - intros r Hr Er. apply Hl; [|done]. apply list_elem_of_lookup in Hr as [j Hj]. rewrite list_lookup_delete in Hj.
    by eapply list_elem_of_lookup_2.
  - apply find_record_spec in Hf as (Hi & _). apply (not_owner_insert _ _ _ item); [done|done|by rewrite claim_record_id|left].
    unfold stored_owner. by rewrite claim_record_get by by_fields.
  - apply find_record_spec in Hf as (Hi & _). apply (not_owner_insert _ _ _ item); [done|done|..]; [|left]; unfold id_of, stored_owner;
      (rewrite (fired_get _ f ts item item'); [done|by_fields|done]).
Qed.
Lemma edits_not_owner w a l l' id : edits w a l l' -> by_invite a -> not_owner_role id l -> not_owner_role id l'.
Proof. intros [->|[He|(ro & id' & c & now & l1 & -> & H1 & H2)]] Ha Hl; eauto using edit_not_owner. Qed.

(** What a poll may start. *)
Lemma launch_polled roster r live claim adv now w : w_polled (launch roster r live claim adv now w) = w_polled w \/
  exists q, live = None /\ w_polled (launch roster r live claim adv now w) = w_polled w ++ [q] /\ sr_schedule_id q = id_of r /\
    (sr_role q = Owner -> stored_owner r = true /\ roster (sr_user_id q) (sr_user_email q) = Some Owner).
Proof.
  unfold launch. cbv zeta. destruct (plan_fire roster r live claim) as [|e wa|q wa] eqn:E; [by left|by left|].
  cbn [w_polled]. destruct live as [role|]; [by left|]. right. exists q. split; [done|]. split; [done|].
  unfold plan_fire in E. case_bool_decide; [done|]. cbv zeta in E.
  destruct (dispatch_role None _ _ _) as [role wb|] eqn:Er; [|done]. destruct (as_dict _); [|done]. destruct (dict_get _ _); [|done].
  injection E as <- <-. split; [done|]. cbn [sr_role sr_user_id sr_user_email start_request]. intros ->.
  unfold dispatch_role in Er. unfold stored_owner. repeat (case_match; try done).
Qed.
Lemma act_polled w a : w_polled (run_act w a) = w_polled w \/
  exists ro id c now l i r q, a = APoll ro id c now /\ stored (w_store w) l /\ l !! i = Some r /\ id_of r = id /\
    w_polled (run_act w a) = w_polled w ++ [q] /\ sr_schedule_id q = id /\
    (sr_role q = Owner -> stored_owner r = true /\ ro (sr_user_id q) (sr_user_email q) = Some Owner).
Proof.
  destruct a as [p ses token now|ses ident p now now'|ses ident|ro id c now|ses ident now|i ans now|saves]; cbn [run_act]; try by left.
  - destruct (claim_due_record _ _ _ _) as [s' r] eqn:E.
    apply claim_due_effect in E as [[_ Hr]|(l & i & item & Hl & Hi & _ & _ & _ & _ & ->)]; [by destruct Hr as [->|[e ->]]; left|].
    apply find_record_spec in Hi as (Hi & Hid%has_id_spec & _).
    destruct (launch_polled ro (claim_record c now item) None (Some c) true now (at_store s' w)) as [->|(q & _ & -> & Hq & Hrole)]; [by left|right].
    exists ro, id, c, now, l, i, item, q. rewrite claim_record_id, Hid in Hq. repeat split; try done.
    + destruct (Hrole H0) as [Hst _]. unfold stored_owner in *. by rewrite claim_record_get in Hst by by_fields.
    + by apply Hrole.
  - destruct (session_edit _ _ _) as [s r]. destruct r as [[r|]|], (exact_role (ss_role ses)) as [role|]; try by left.
    destruct (launch_polled (fun _ _ => None) r (Some role) None false now (at_store s w)) as [->|(q & E & _)]; [by left|done].
  - destruct (w_flights w !! i); by left.
Qed.

Lemma polled_invite acts id : forall w l, stored (w_store w) l -> not_owner_role id l ->
  Forall (fun a => sessions_ok a /\ by_invite a) acts ->
  exists qs, w_polled (run_acts w acts) = w_polled w ++ qs /\ Forall (fun q => sr_schedule_id q = id -> sr_role q = Invite) qs.
Proof.
  induction acts as [|a acts IH]; intros w l Hs Hl Hacts; [exists []; split; [by rewrite app_nil_r|by apply Forall_nil]|].
  apply Forall_cons in Hacts as [[Hsa Ha] Hacts]. destruct (act_edits w a l Hs Hsa) as (l' & He & Hs').
  destruct (IH (run_act w a) l' Hs' (edits_not_owner _ _ _ _ _ He Ha Hl) Hacts) as (qs & E & Hqs).
  unfold run_acts in *. cbn [foldl]. destruct (act_polled w a) as [E1|(ro & id' & c & now & l0 & i & r & q & -> & Hl0 & Hi & Hid & E1 & Hq & Hrole)].
  - exists qs. by rewrite E, E1.
  - exists (q :: qs). rewrite E, E1, <- app_assoc. split; [done|]. apply Forall_cons. split; [|done]. intros Hqid.
    destruct (sr_role q); [|done]. destruct (Hrole eq_refl) as [Hst _]. rewrite (stored_fun _ _ _ Hl0 Hs) in Hi.
    rewrite (Hl r) in Hst; [done|by eapply list_elem_of_lookup_2|congruence].
Qed.

(** C18: A poll starts a run with the owner's role only if the schedule's stored
    role and the live roster entry of its user are both the owner's. After an
    invite session has changed the dispatch of a schedule or enabled it, nothing
    but an edit by an owner's session makes polls start it as anything but
    invite, whatever the roster, other sessions, failing saves and the order of
    events. *)
Theorem fired_role_bounded :
  (forall w a q, w_polled (run_act w a) = w_polled w ++ [q] -> sr_role q = Owner ->
     exists ro id c now l r, a = APoll ro id c now /\ stored (w_store w) l /\ r ∈ l /\ id_of r = sr_schedule_id q /\
       get "dispatch_role" r = JStr (u "owner") /\ ro (sr_user_id q) (sr_user_email q) = Some Owner) /\
  (forall s s' l i item owner ident p by_ now now' r flights polled acts,
     stored s l -> store_ok l -> update owner ident p by_ (JStr (u "invite")) now now' s = (s', Ret r) ->
     find_index (fun item => owned_by owner item && named ident item) l = Some (i, item) -> arms p item = true ->
     Forall (fun a => sessions_ok a /\ by_invite a) acts ->
     exists qs, w_polled (run_acts (mkWorld s' flights polled) acts) = polled ++ qs /\
       Forall (fun q => sr_schedule_id q = id_of r -> sr_role q = Invite) qs).
Proof.
  split.
  - intros w a q E Hq. destruct (act_polled w a) as [E1|(ro & id & c & now & l & i & r & q' & -> & Hl & Hi & Hid & E1 & Hq' & Hrole)].
    { rewrite E1 in E. apply (f_equal length) in E. rewrite length_app in E. cbn in E. lia. }
    rewrite E1 in E. apply app_inj_tail in E as [_ ->]. destruct (Hrole Hq) as [Hst Hro]. exists ro, id, c, now, l, r.
    repeat split; try done; [by eapply list_elem_of_lookup_2|congruence|]. unfold stored_owner, is_text in Hst.
    destruct (get "dispatch_role" r); try done. by apply bool_decide_eq_true in Hst as ->.
  - intros s s' l i item owner ident p by_ now now' r flights polled acts Hs Hok Hu Hf Harms Hacts.
    apply update_effect in Hu as [[_ [e He]]|(l0 & i0 & item0 & role & c & tz & next & Hl & Hr & Hi & _ & _ & _ & Hx & Hb & [= ->])]; [done|].
    rewrite (stored_fun _ _ _ Hl Hs) in *. rewrite Hf in Hi. injection Hi as <- <-. injection Hr as <-.
    pose proof (find_record_spec _ _ _ _ Hf) as (Hi & Ho & _). apply andb_true_iff in Ho as [Ho _].
    set (r := updated p Invite owner by_ now next item) in *.
    apply (polled_invite acts (id_of r) (mkWorld s' flights polled) (<[i := r]> l)).
    + cbn [w_store]. apply becomes_stored; [done|]. apply Forall_insert; [by apply (stored_owners s)|].
      apply (parse_owner_transfer item); [by unfold r; rewrite updated_get by by_fields..|].
      exact (Forall_lookup_1 _ _ _ _ (stored_owners _ _ Hs) Hi).
    + intros x Hx' Ex. apply list_elem_of_lookup in Hx' as [j Hj].
      assert (id_of r = id_of item) as Er by (unfold id_of, r; by rewrite updated_get by by_fields).
      apply list_lookup_insert_Some in Hj as [(<- & <- & _)|[Hne Hj]].
      * unfold stored_owner, r. rewrite updated_patch, patch_role, Harms by by_fields. reflexivity.
      * destruct Hne. symmetry. eapply (so_ids _ Hok); [exact Hj|exact Hi|congruence].
    + done.
Qed.

(** ** Claims *)
(** The record that operations on the id find is claimed by [c] since [t]. *)
Definition claimed_by (id c : str) (t : Z) (l : list fields) : Prop :=
  exists i r, find_index (has_id id) l = Some (i, r) /\ get "running_claim_id" r = JStr c /\
    get "running_claimed_at" r = JStr (iso_from_datetime t).

Lemma find_index_snoc f l x i y : find_index f l = Some (i, y) -> find_index f (l ++ [x]) = Some (i, y).
Proof.
  intros (Hi & Hy & Hl)%find_record_spec. apply find_index_intro; [by apply lookup_app_l_Some|done|].
  intros j z Hj Hz. apply lookup_app_Some in Hj as [Hj|[Hj _]]; [by eapply Hl|]. apply lookup_lt_Some in Hi. lia.
Qed.
Lemma find_index_insert f l i x j y y' : find_index f l = Some (i, x) -> l !! j = Some y -> f y' = f y ->
  find_index f (<[j := y']> l) = Some (i, if decide (j = i) then y' else x).
Proof.
  intros (Hi & Hx & Hl)%find_record_spec Hj Hf. assert (j < length l)%nat by (by eapply lookup_lt_Some).
  apply find_index_intro.
  - destruct (decide (j = i)) as [->|]; [by rewrite list_lookup_insert_eq|by rewrite list_lookup_insert_ne].
  - destruct (decide (j = i)) as [->|]; [|done]. rewrite Hf. congruence.
  - intros k z Hk Hz. apply list_lookup_insert_Some in Hk as [(<- & <- & _)|[_ Hk]]; [|by eapply Hl]. apply (Hl j y); congruence.
Qed.
Lemma find_index_delete f l i x j y : find_index f l = Some (i, x) -> l !! j = Some y -> f y = false ->
  exists i', find_index f (delete j l) = Some (i', x).
Proof.
  intros (Hi & Hx & Hl)%find_record_spec Hj Hf. assert (i <> j) as Hn by congruence.
  exists (if decide (i < j)%nat then i else Nat.pred i). apply find_index_intro; [|done|].
  - case_decide; [by rewrite list_lookup_delete_lt|]. destruct i as [|i]; [lia|]. cbn. by rewrite list_lookup_delete_ge by lia.
  - intros k z Hk Hz. rewrite list_lookup_delete in Hk. case_decide; (specialize (Hl _ _ Hk Hz); case_decide; lia).
Qed.

Lemma claimed_within r c t now : get "running_claim_id" r = JStr c -> get "running_claimed_at" r = JStr (iso_from_datetime t) ->
  c <> [] -> in_range t = true -> claimed now r = (now - t <? CLAIM_STALE_AFTER).
Proof.
  intros Hc Ht Hn Hr. unfold claimed, parse_time. rewrite Hc, Ht, truthy_text, bool_decide_false by done.
  by rewrite parse_iso.
Qed.

(** An act that does not finish, delete or take over the claim. *)
Definition spares (id c : str) (t : Z) (w : World) (a : act) : Prop :=
  sessions_ok a /\
  (forall claim, fire_of w a id claim -> exists c', claim = Some c' /\ c' <> c) /\
  match a with
  | ADelete ses ident => forall l i item, stored (w_store w) l ->
      find_index (fun item => owned_by (ss_owner ses) item && named ident item) l = Some (i, item) -> id_of item <> id
  | APoll _ id' _ now => id' = id -> now - t < CLAIM_STALE_AFTER
  | _ => True
  end.
Inductive undisturbed (id c : str) (t : Z) : World -> World -> Prop :=
| undisturbed_refl w : undisturbed id c t w w
| undisturbed_step w a w' : spares id c t w a -> undisturbed id c t (run_act w a) w' -> undisturbed id c t w w'.

Lemma claimed_insert id c t l j y y' : claimed_by id c t l -> l !! j = Some y -> id_of y' = id_of y ->
  get "running_claim_id" y' = get "running_claim_id" y -> get "running_claimed_at" y' = get "running_claimed_at" y ->
  claimed_by id c t (<[j := y']> l).
Proof.
  intros (i & r & Hf & Hc & Ht) Hj Hid E1 E2. eexists i, _. split.
  { apply (find_index_insert _ _ _ r _ y); [done..|]. unfold has_id. fold (id_of y') (id_of y). by rewrite Hid. }
  apply find_record_spec in Hf as (Hi & _). destruct (decide (j = i)) as [->|]; [|done]. split; congruence.
Qed.
Lemma claimed_insert_other id c t l j y y' : claimed_by id c t l -> l !! j = Some y -> id_of y' = id_of y -> id_of y <> id ->
  claimed_by id c t (<[j := y']> l).
Proof.
  intros (i & r & Hf & Hc & Ht) Hj Hid Hne. eexists i, _. split.
  { apply (find_index_insert _ _ _ r _ y); [done..|]. unfold has_id. fold (id_of y') (id_of y). by rewrite Hid. }
  apply find_record_spec in Hf as (Hi & Hr%has_id_spec & _). destruct (decide (j = i)) as [->|]; [|done]. congruence.
Qed.
Lemma edit_claimed w a l l' id c t : edit w a l l' -> stored (w_store w) l \/ (forall ses ident, a <> ADelete ses ident) ->
  c <> [] -> in_range t = true -> spares id c t w a -> claimed_by id c t l -> claimed_by id c t l'.
Proof.
  intros E Hst Hcn Ht (_ & Hfire & Hmore) Hcl. destruct E as [p ses token now l role next Hr Hn Hc|ses ident p now now' l i item role next Hr Hf Hn Hx
    |ses ident l i item Hf|roster id' c' now l i item Hf He Hd Hcd|a id' f ts l i item item' Hof Hf Hm Had].
  - destruct Hcl as (i & r & Hf & ?). exists i, r. split; [by apply find_index_snoc|done].
  - apply find_record_spec in Hf as (Hi & _). apply (claimed_insert _ _ _ _ _ item); try done; [unfold id_of|..]; by rewrite updated_get by by_fields.
  - destruct Hst as [Hst|Hst]; [|by destruct (Hst ses ident)]. specialize (Hmore l i item Hst Hf). apply find_record_spec in Hf as (Hi & _).
    destruct Hcl as (j & r & Hj & ?). destruct (find_index_delete _ _ _ _ i item Hj Hi) as (j' & Hj'); [|by exists j', r].
    by apply bool_decide_eq_false.
  - destruct (decide (id' = id)) as [->|Hne].
    + destruct Hcl as (j & r & Hj & H1 & H2). rewrite Hf in Hj. injection Hj as <- <-. rewrite (claimed_within _ c t) in Hcd by done.
      apply Z.ltb_ge in Hcd. specialize (Hmore eq_refl). lia.
    + apply find_record_spec in Hf as (Hi & Hid%has_id_spec & _). apply (claimed_insert_other _ _ _ _ _ item); [done..|by rewrite claim_record_id|congruence].
  - destruct (decide (id' = id)) as [->|Hne].
    + destruct (Hfire _ Hof) as (c' & Ec & Hcc). destruct Hcl as (j & r & Hj & H1 & H2). rewrite Hf in Hj. injection Hj as <- <-.
      unfold may_finish in Hm. rewrite Ec, H1, truthy_text in Hm by done. apply bool_decide_eq_true in Hm. congruence.
    + apply find_record_spec in Hf as (Hi & Hid%has_id_spec & _). apply (claimed_insert_other _ _ _ _ _ item); [done..| |congruence].
      unfold id_of. by rewrite (fired_get _ f ts item item') by (done || by_fields).
Qed.
Lemma edits_claimed w a l l' id c t : edits w a l l' -> stored (w_store w) l -> c <> [] -> in_range t = true ->
  spares id c t w a -> claimed_by id c t l -> claimed_by id c t l'.
Proof.
  intros [->|[He|(ro & id' & c' & now & l1 & -> & H1 & H2)]] Hs Hc Ht Hsp Hcl; [done|by eapply edit_claimed; eauto|].
  eapply (edit_claimed w (APoll ro id' c' now) l1); [done|by right|done..|]. eapply edit_claimed; eauto.
Qed.

Lemma claim_none id c t l c' now s : stored s l -> claimed_by id c t l -> c <> [] -> in_range t = true -> now - t < CLAIM_STALE_AFTER ->
  claim_due_record id c' now s = (s, Ret None).
Proof.
  intros (p & Hp & <-) (i & r & Hf & Hc & Ht) Hn Hr Hlt. unfold claim_due_record. rewrite load_bind, Hp. unfold claim_loaded. rewrite Hf.
  rewrite (claimed_within r c t) by done. rewrite (proj2 (Z.ltb_lt _ _)) by done. by destruct (truthy _), (due _ _).
Qed.
Lemma save_ok p s : st_saves s = [] -> save p s = (mkStore (Stored (payload_json p)) [], Ret tt).
Proof. intros E. unfold save. by rewrite E. Qed.
Lemma claim_some id c' now s l i r : st_saves s = [] -> stored s l -> find_index (has_id id) l = Some (i, r) ->
  truthy (get "enabled" r) = true -> due now r = true -> claimed now r = false ->
  exists s', claim_due_record id c' now s = (s', Ret (Some (claim_record c' now r))) /\ st_saves s' = [] /\
    becomes s' (<[i := claim_record c' now r]> l).
Proof.
  intros Hsv (p & Hp & <-) Hf He Hd Hc. unfold claim_due_record. rewrite load_bind, Hp. unfold claim_loaded. rewrite Hf, He, Hd, Hc. cbn [negb]. cbv zeta.
  unfold se_bind. rewrite save_ok by done. eexists. split; [done|]. split; [done|]. eexists. split; [done|]. done.
Qed.
Lemma claim_stored s s' l i r c now id : stored s l -> find_index (has_id id) l = Some (i, r) -> becomes s' (<[i := claim_record c now r]> l) ->
  stored s' (<[i := claim_record c now r]> l) /\ find_index (has_id id) (<[i := claim_record c now r]> l) = Some (i, claim_record c now r).
Proof.
  intros Hs Hf Hb. pose proof (find_record_spec _ _ _ _ Hf) as (Hi & _). split.
  - apply becomes_stored; [done|]. apply Forall_insert; [by eapply stored_owners|].
    apply (parse_owner_transfer r); [by rewrite claim_record_get by by_fields..|]. exact (Forall_lookup_1 _ _ _ _ (stored_owners _ _ Hs) Hi).
  - rewrite (find_index_insert _ _ i r _ r); [by rewrite decide_True|done..|]. unfold has_id.
    fold (id_of (claim_record c now r)) (id_of r). by rewrite claim_record_id.
Qed.
Lemma claim_record_claim c t r : get "running_claim_id" (claim_record c t r) = JStr c /\
  get "running_claimed_at" (claim_record c t r) = JStr (iso_from_datetime t).
Proof. unfold claim_record. cbv zeta. rewrite !get_capabilities by by_fields. field_simp. done. Qed.

(** C17: After a poll claimed a schedule, no poll of it succeeds for fifteen
    minutes, whatever edits, fires of other schedules, results of older claims and
    failing saves come between, as long as the claim's own result, a run-now or
    the deletion of the schedule does not; an older claim of a schedule that is
    still due and enabled is taken over by the next poll. *)
Theorem claim_excludes_polls :
  (forall id c t s s' r flights polled w c' now,
     c <> [] -> in_range t = true -> claim_due_record id c t s = (s', Ret (Some r)) ->
     undisturbed id c t (mkWorld s' flights polled) w -> now - t < CLAIM_STALE_AFTER ->
     claim_due_record id c' now (w_store w) = (w_store w, Ret None)) /\
  (forall id c t s l i r c' now,
     st_saves s = [] -> stored s l -> find_index (has_id id) l = Some (i, r) ->
     get "running_claim_id" r = JStr c -> get "running_claimed_at" r = JStr (iso_from_datetime t) -> c <> [] -> in_range t = true ->
     truthy (get "enabled" r) = true -> due now r = true -> CLAIM_STALE_AFTER <= now - t ->
     exists s', claim_due_record id c' now s = (s', Ret (Some (claim_record c' now r)))).
Proof.
  split.
  - intros id c t s s' r flights polled w c' now Hc Ht Hcl Hu Hlt.
    apply claim_due_effect in Hcl as [[_ [Hx|[e Hx]]]|(l & i & item & Hl & Hf & _ & _ & _ & Hb & _)]; [done|done|].
    destruct (claim_stored _ _ _ _ _ _ _ _ Hl Hf Hb) as [Hs' Hf'].
    assert (exists l', stored (w_store (mkWorld s' flights polled)) l' /\ claimed_by id c t l') as Hinv.
    { eexists. split; [exact Hs'|]. eexists _, _. split; [exact Hf'|]. apply claim_record_claim. }
    clear -Hu Hinv Hc Ht Hlt. induction Hu as [w|w a w' Hsp _ IH].
    + destruct Hinv as (l & Hs & Hcl). by eapply claim_none.
    + apply IH. destruct Hinv as (l & Hs & Hcl). destruct (act_edits w a l Hs (proj1 Hsp)) as (l' & He & Hs').
      exists l'. split; [done|]. by eapply edits_claimed.
  - intros id c t s l i r c' now Hsv Hs Hf Hrc Hrt Hc Ht He Hd Hst.
    destruct (claim_some id c' now s l i r Hsv Hs Hf He Hd) as (s' & E & _); [|eauto].
    rewrite (claimed_within r c t) by done. by apply Z.ltb_ge.
Qed.

(** ** Where the code falls short *)
Lemma fire_some id f ts s l i r r' : st_saves s = [] -> stored s l -> find_index (has_id id) l = Some (i, r) -> may_finish f r = true ->
  advance f ts (record_outcome f ts r) = Ret r' ->
  exists s', record_fire_result id f ts s = (s', Ret (Some (fired ts r'))) /\ st_saves s' = [] /\ stored s' (<[i := fired ts r']> l) /\
    find_index (has_id id) (<[i := fired ts r']> l) = Some (i, fired ts r').
Proof.
  intros Hsv Hs Hf Hm Ha. pose proof Hs as (p & Hp & Hpl). pose proof (find_record_spec _ _ _ _ Hf) as (Hi & _).
  exists (mkStore (Stored (payload_json (with_schedules (<[i := fired ts r']> l) p))) []). split; [|split; [done|split]].
  - unfold record_fire_result. rewrite load_bind, Hp, Hpl, Hf.
    assert (match fr_claim_id f with Some c => negb (bool_decide (str_or_empty (get "running_claim_id" r) = c)) | None => false end = false) as ->.
    { unfold may_finish in Hm. destruct (fr_claim_id f); [by apply negb_false_iff|done]. }
    rewrite lift_bind, Ha. cbv zeta. unfold se_bind. by rewrite save_ok.
  - apply becomes_stored; [by eexists|]. apply Forall_insert; [by eapply stored_owners|].
    apply (parse_owner_transfer r); [by apply (fired_get _ f); [by_fields|]..|]. exact (Forall_lookup_1 _ _ _ _ (stored_owners _ _ Hs) Hi).
  - rewrite (find_index_insert _ _ i r _ r); [by rewrite decide_True|done..|]. unfold has_id. fold (id_of (fired ts r')) (id_of r).
    unfold id_of. by rewrite (fired_get _ f ts r r') by (done || by_fields).
Qed.
Lemma fired_unclaimed f ts r r' now : advance f ts (record_outcome f ts r) = Ret r' -> claimed now (fired ts r') = false.
Proof.
  intros E. unfold claimed, fired. cbv zeta. rewrite !get_capabilities by by_fields. field_simp.
  destruct (record_outcome_releases f ts r) as [H1 H2].
  destruct (advance_cases _ _ _ _ E) as [->|[(t' & -> & _)| ->]]; unfold disabled; cbv zeta; field_simp; by rewrite H1.
Qed.

(** The result of a run-now releases whatever claim the schedule has. *)
Lemma run_now_releases_claim id c t s l i r run_id warning ts c' now f' ts' :
  st_saves s = [] -> stored s l -> find_index (has_id id) l = Some (i, r) ->
  get "running_claim_id" r = JStr c -> get "running_claimed_at" r = JStr (iso_from_datetime t) ->
  truthy (get "enabled" r) = true -> due now r = true -> now - t < CLAIM_STALE_AFTER ->
  c' <> [] -> c' <> c -> fr_claim_id f' = Some c ->
  exists s1 r1 s2 r2,
    record_fire_result id (mkFire run_id (u "started") None warning None false) ts s = (s1, Ret (Some r1)) /\
    claim_due_record id c' now s1 = (s2, Ret (Some r2)) /\ get "next_run_at" r2 = get "next_run_at" r /\
    record_fire_result id f' ts' s2 = (s2, Ret None).
Proof.
  intros Hsv Hs Hf Hc Ht He Hd _ Hc' Hne Hf'. set (f := mkFire run_id (u "started") None warning None false).
  destruct (fire_some id f ts s l i r (record_outcome f ts r) Hsv Hs Hf eq_refl eq_refl) as (s1 & E1 & Hsv1 & Hs1 & Hf1).
  set (r1 := fired ts (record_outcome f ts r)) in *.
  assert (forall k, outside k (["updated_at"; "running_claim_id"; "running_claimed_at"; "last_run_at"; "last_run_id"; "last_status";
    "last_error"; "last_fire_warning"]%string ++ CAPABILITIES) -> get k r1 = get k r) as Hk.
  { intros k Ho. unfold r1, fired. cbv zeta. outside_simp Ho. apply record_outcome_keeps. eapply outside_mono; [exact Ho|by_fields]. }
  destruct (claim_some id c' now s1 _ i r1 Hsv1 Hs1 Hf1) as (s2 & E2 & _ & Hb2).
  { by rewrite Hk by by_fields. }
  { unfold due in *. by rewrite Hk by by_fields. }
  { by eapply (fired_unclaimed f). }
  destruct (claim_stored _ _ _ _ _ _ _ _ Hs1 Hf1 Hb2) as [(p & Hp & Hpl) Hf2].
  exists s1, r1, s2, (claim_record c' now r1). split; [done|]. split; [done|]. split; [by rewrite claim_record_get, Hk by by_fields|].
  unfold record_fire_result. rewrite load_bind, Hp, Hpl, Hf2, Hf'. rewrite (proj1 (claim_record_claim c' now r1)), truthy_text by done.
  by rewrite bool_decide_false.
Qed.

(** Two poll loops that both read the file before either saves both claim the
    schedule: a claim is a read, a decision and a save without a lock. *)
Lemma unlocked_claims_both_succeed id c1 c2 now s l i r p : st_saves s = [] -> load_payload (st_file s) = Ret p -> pl_schedules p = l ->
  find_index (has_id id) l = Some (i, r) -> truthy (get "enabled" r) = true -> due now r = true -> claimed now r = false ->
  exists s1 s2, claim_loaded p id c1 now s = (s1, Ret (Some (claim_record c1 now r))) /\
    claim_loaded p id c2 now s1 = (s2, Ret (Some (claim_record c2 now r))).
Proof.
  intros Hsv Hp <- Hf He Hd Hc.
  assert (forall c s, st_saves s = [] -> exists s', claim_loaded p id c now s = (s', Ret (Some (claim_record c now r))) /\ st_saves s' = []) as Hone.
  { intros c s0 Hs0. unfold claim_loaded. rewrite Hf, He, Hd, Hc. cbn [negb]. cbv zeta. unfold se_bind. rewrite save_ok by done. eauto. }
  destruct (Hone c1 s Hsv) as (s1 & E1 & Hs1). destruct (Hone c2 s1 Hs1) as (s2 & E2 & _). eauto.
Qed.

(** C36: Two ways in which one due run is started twice within the fifteen minutes
    of a claim. The result of a run-now releases whatever claim the schedule has:
    while a poll's start is in flight, the next poll claims and starts the same due
    run again, and the result of the first start is then dropped. And two poll
    loops that read the file before either saves both get the claim. *)
Theorem claims_can_overlap :
  (forall id c t s l i r run_id warning ts c' now f' ts',
     st_saves s = [] -> stored s l -> find_index (has_id id) l = Some (i, r) ->
     get "running_claim_id" r = JStr c -> get "running_claimed_at" r = JStr (iso_from_datetime t) ->
     truthy (get "enabled" r) = true -> due now r = true -> now - t < CLAIM_STALE_AFTER ->
     c' <> [] -> c' <> c -> fr_claim_id f' = Some c ->
     exists s1 r1 s2 r2,
       record_fire_result id (mkFire run_id (u "started") None warning None false) ts s = (s1, Ret (Some r1)) /\
       claim_due_record id c' now s1 = (s2, Ret (Some r2)) /\ get "next_run_at" r2 = get "next_run_at" r /\
       record_fire_result id f' ts' s2 = (s2, Ret None)) /\
  (forall id c1 c2 now s i r p,
     st_saves s = [] -> load_payload (st_file s) = Ret p -> find_index (has_id id) (pl_schedules p) = Some (i, r) ->
     truthy (get "enabled" r) = true -> due now r = true -> claimed now r = false ->
     exists s1 s2, claim_loaded p id c1 now s = (s1, Ret (Some (claim_record c1 now r))) /\
       claim_loaded p id c2 now s1 = (s2, Ret (Some (claim_record c2 now r)))).
Proof.
  split; [exact run_now_releases_claim|]. intros id c1 c2 now s i r p Hsv Hp. by apply unlocked_claims_both_succeed.
Qed.

(** A zone that goes back from offset [a] to [b] at the instant [back]: wall clocks
    before [back + a] are read with [a], the first pass. *)
Record falls_back (z : zone) (back a b : Z) : Prop := {
  fb_less : b < a;
  fb_local : forall t, back <= t -> z_local z t = t + b;
  fb_first : forall w, w < back + a -> z_offset z w = a }.
(** C37: In the hour that a zone repeats, the recorded next run of a schedule can
    lie in the past: a result recorded in the second pass before the time of day
    of the cadence leaves the schedule due, so that the next poll starts it again,
    and so on until the second pass is over. *)
Theorem repeated_hour_fires_again id c tz z back a b h m w s l i r f ts c' :
  st_saves s = [] -> stored s l -> find_index (has_id id) l = Some (i, r) -> may_finish f r = true -> fr_advance f = true ->
  truthy (get "enabled" r) = true -> get "cadence" r = dump_cadence c -> cadence_ok c = true ->
  get "timezone" r = JStr tz -> zone_info tz = Ret z ->
  hhmm (c_time_of_day c) = Some (h, m) -> falls_back z back a b -> back <= ts -> in_range (ts + SECOND) = true ->
  to_local z (ts + SECOND) = Some (ts + SECOND + b) -> year (date_of (ts + SECOND + b)) < MAXYEAR - 1 -> a - b <= ts ->
  run_time c h m w -> ts + SECOND + b < w < back + a ->
  exists s1 r1 s2 r2, record_fire_result id f ts s = (s1, Ret (Some r1)) /\ claim_due_record id c' ts s1 = (s2, Ret (Some r2)).
Proof.
  intros Hsv Hs Hf Hm Hadv Hen Hcad Hcok Htz Hz Hhm Hfb Hts Hr1 Hloc Hy Hpos (d & Hd & Hon & Hw) Hwin.
  assert (in_range (ts + SECOND + b) = true) as Hr2 by (unfold to_local, checked in Hloc; destruct (in_range (z_local z (ts + SECOND))) eqn:E; [congruence|done]).
  destruct (next_wall_first c h m _ Hcok Hhm Hr2 Hy) as (w0 & Ew & d0 & Hd0 & _ & Hw0 & Hgt & Hfirst).
  pose proof (Hfirst d Hd Hon) as Hle. rewrite <- Hw in Hle. specialize (Hle (proj1 Hwin)). destruct Hfb as [Hba _ Hoff].
  assert (in_range (w0 - a) = true) as Hru.
  { rewrite in_range_spec in *. destruct Hwin as [Hwin1 Hwin2]. assert (in_range w0 = true) as Hrw.
    { rewrite Hw0. destruct (hhmm_range _ _ _ Hhm). by apply combine_range. } rewrite in_range_spec in Hrw. unfold SECOND in *. lia. }
  assert (advance f ts (record_outcome f ts r) = Ret (put "next_run_at" (JStr (iso_from_datetime (w0 - a))) (record_outcome f ts r))) as Ha.
  { unfold advance. rewrite Hadv. unfold advanced, key_of.
    assert (forall k v, outside k ["running_claim_id"; "running_claimed_at"; "last_run_at"; "last_run_id"; "last_status"; "last_error";
      "last_fire_warning"]%string -> get k r = v -> v <> JNull -> dict_get (u k) (record_outcome f ts r) = Some v) as Hk.
    { intros k v Ho Ev Hn. rewrite <- (record_outcome_keeps k f ts r Ho) in Ev. unfold get, py_get in Ev. destruct (dict_get _ _); cbn in Ev; congruence. }
    rewrite (Hk "cadence"%string _ ltac:(by_fields) Hcad ltac:(discriminate)), (Hk "timezone"%string _ ltac:(by_fields) Htz ltac:(discriminate)).
    cbn [obind]. unfold checked. rewrite Hr1. cbn [or_overflow obind]. unfold compute_next_run_json, compute_next_run.
    rewrite validate_dump by done. cbn [obind]. rewrite py_str_str, Hz. cbn [obind]. rewrite Hloc. cbn [or_overflow obind]. rewrite Hhm, Ew. cbn [obind].
    unfold to_utc, checked. rewrite (Hoff w0) by lia. rewrite Hru. done. }
  destruct (fire_some id f ts s l i r _ Hsv Hs Hf Hm Ha) as (s1 & E1 & Hsv1 & Hs1 & Hf1).
  destruct (claim_some id c' ts s1 _ i _ Hsv1 Hs1 Hf1) as (s2 & E2 & _).
  - unfold fired. cbv zeta. rewrite get_capabilities by by_fields. field_simp. by rewrite record_outcome_keeps by by_fields.
  - unfold due, parse_time, fired. cbv zeta. rewrite get_capabilities by by_fields. field_simp. rewrite parse_iso by done.
    apply Z.leb_le. lia.
  - by eapply (fired_unclaimed f).
  - eauto 10.
Qed.

(** ** Damaged files *)
(** Files that are no store: no JSON text without duplicate members, no object, no
    list of schedules, no object of idempotency entries, or a schedule that is no
    object. *)
Inductive damaged : file_state -> Prop :=
| dg_broken : damaged Broken
| dg_object v : as_dict v = None -> damaged (Stored v)
| dg_schedules d : (forall l, dict_get (u "schedules") d <> Some (JList l)) -> damaged (Stored (JDict d))
| dg_idempotency d : (forall m, dict_get (u "idempotency") d <> Some (JDict m)) -> damaged (Stored (JDict d))
| dg_item d l v : dict_get (u "schedules") d = Some (JList l) -> v ∈ l -> as_dict v = None -> damaged (Stored (JDict d)).
(** A store of which one agent schedule has an owner outside the storage grammar. *)
Definition refused_owner (f : file_state) : Prop :=
  exists d l m item e, f = Stored (JDict d) /\ dict_get (u "schedules") d = Some (JList (JDict <$> l)) /\
    dict_get (u "idempotency") d = Some (JDict m) /\ item ∈ l /\ is_kind item = true /\ storage_identity (get "owner_user_id" item) = Raise e.
Lemma damaged_unreadable f : damaged f -> load_payload f = Raise StoreUnreadable.
Proof.
  intros [|v Hv|d Hd|d Hd|d l v Hd Hin Hv]; [done|by destruct v| | |]; cbn [load_payload].
  - destruct (dict_get (u "schedules") d) as [[]|]; try done. by destruct (Hd l).
  - destruct (dict_get (u "schedules") d) as [[]|]; try done. destruct (dict_get (u "idempotency") d) as [[]|]; try done. naive_solver.
  - rewrite Hd. destruct (dict_get (u "idempotency") d) as [[]|]; try done.
    destruct (mapM as_dict l) as [items|] eqn:E; [|done]. apply mapM_Some_1 in E. apply list_elem_of_lookup in Hin as [i Hi].
    destruct (Forall2_lookup_l _ _ _ _ _ E Hi) as (y & _ & Hy). congruence.
Qed.
Lemma refused_raises f : refused_owner f -> load_payload f = Raise Finding.
Proof.
  intros (d & l & m & item & e & -> & Hd & Hm & Hin & Hk & He). cbn [load_payload]. rewrite Hd, Hm.
  assert (mapM as_dict (JDict <$> l) = Some l) as -> by (clear; induction l as [|x l IH]; [done|]; cbn [fmap list_fmap mapM]; by rewrite IH).
  assert (forall v x, storage_identity v = Raise x -> x = Finding) as Hs by (intros v x; unfold storage_identity; destruct v; repeat case_match; by intros [= <-]).
  assert (omap_list parse_owner l = Raise Finding) as ->; [|done]. clear Hd. induction l as [|x l IH]; [by apply elem_of_nil in Hin|]. cbn [omap_list].
  destruct (parse_owner x) as [y|err] eqn:Ex; cbn [obind].
  - apply elem_of_cons in Hin as [->|Hin]; [|by rewrite (IH Hin)]. unfold parse_owner in Ex. rewrite Hk, He in Ex. done.
  - unfold parse_owner in Ex. destruct (is_kind x); [|done]. destruct (storage_identity (get "owner_user_id" x)) eqn:Eo; cbn in Ex; [done|].
    injection Ex as <-. by rewrite (Hs _ _ Eo).
Qed.
(** C35: A damaged file (no JSON, duplicate members, not an object, without its
    list of schedules or its object of idempotency entries, or with a schedule that is no object) is left
    untouched: every operation raises without writing, and a poll skips the store
    and goes on to the others. An owner that the storage grammar refuses, in one
    record, is not such a case: its exception leaves the poll, so that no store
    after it is polled. *)
Theorem damaged_stores_untouched s :
  (damaged (st_file s) ->
    (forall p ses token now, exists e, create p ses token now s = (s, Raise e)) /\
    (forall owner ident p by_ role now now', exists e, update owner ident p by_ role now now' s = (s, Raise e)) /\
    (forall owner ident, delete_schedule owner ident s = (s, Raise StoreUnreadable)) /\
    (forall id c now, claim_due_record id c now s = (s, Raise StoreUnreadable)) /\
    (forall id f ts, record_fire_result id f ts s = (s, Raise StoreUnreadable)) /\
    (forall roster answer claim now n stores, fire_due roster answer claim now n (s :: stores) =
       let '(stores', r) := fire_due roster answer claim now (S n) stores in (s :: stores', r))) /\
  (refused_owner (st_file s) -> forall roster answer claim now n stores,
    fire_due roster answer claim now n (s :: stores) = (s :: stores, Raise Finding)).
Proof.
  split; intros Hl; [apply damaged_unreadable in Hl|apply refused_raises in Hl; intros; cbn [fire_due]; unfold fire_store, due_records, all_records; unfold se_bind at 1 2; unfold load; by rewrite Hl].
  repeat split; intros.
  - unfold create. rewrite lift_bind. destruct (session_owner_user_id ses); [|eauto]. rewrite lift_bind.
    destruct (exact_role _); [|eauto]. cbv zeta. rewrite load_bind, Hl. eauto.
  - unfold update. rewrite lift_bind. destruct (exact_role role); [|eauto]. rewrite load_bind, Hl. eauto.
  - unfold delete_schedule. by rewrite load_bind, Hl.
  - unfold claim_due_record. by rewrite load_bind, Hl.
  - unfold record_fire_result. by rewrite load_bind, Hl.
  - cbn [fire_due]. unfold fire_store, due_records, all_records. unfold se_bind at 1 2. unfold load. rewrite Hl.
    destruct (fire_due _ _ _ _ (S n) _) as [stores' r]. by destruct r.
Qed.
End safety.

(** ** Examples *)
#[local] Existing Instance demo_python.
Definition demo_session (role : string) : Session :=
  mkSession (u "7") (JStr (u role)) JNull (JStr (u "ann")) (JStr (u "ann@example.com")) JNull 7 [] JNull (JStr (u "web")) (u "control").
Definition demo_cadence : Cadence := mkCadence Daily (u "01:30") None None.
Definition demo_dispatch : Dispatch := mkDispatch (u "analyst") (u "task") None None (Some (u "report")) None None.
Definition demo_create (enabled : bool) (tz : string) : CreateRequest :=
  mkCreate (u "morning") (Some enabled) (u tz) demo_cadence demo_dispatch None (JDict []).
Definition demo_now : Z := combine (mkdate 2024 11 2) 12 0.
Definition demo_world : World := mkWorld (mkStore Missing []) [] [].
Definition demo_created (enabled : bool) (tz : string) : World :=
  run_act demo_world (ACreate (demo_create enabled tz) (demo_session "owner") (u "00") demo_now).
Definition demo_id : str := u "sched_00".
(** Two hours and a half after the first pass of 01:30. *)
Definition demo_due : Z := demo_now + 24 * HOUR.
Definition demo_records (s : store) : list fields := match load_payload (st_file s) with Ret p => pl_schedules p | Raise _ => [] end.
Lemma demo_stored s : match load_payload (st_file s) with Ret _ => true | Raise _ => false end = true -> stored s (demo_records s).
Proof. unfold demo_records. destruct (load_payload (st_file s)) as [p|] eqn:E; [|discriminate]. intros _. exists p. auto. Defined.
Lemma demo_create_ok e tz : (tz = "UTC" \/ tz = "America/New_York")%string -> create_ok (demo_create e tz).
Proof. intros Htz. split; [reflexivity|]. split; [reflexivity|]. split; [reflexivity|]. destruct Htz as [-> | ->]; eexists; reflexivity. Qed.
Lemma demo_step_create e tz : (tz = "UTC" \/ tz = "America/New_York")%string -> step demo_world (demo_created e tz).
Proof.
  intros Htz. exists [], (ACreate (demo_create e tz) (demo_session "owner") (u "00") demo_now). split; [by apply (initial_stored demo_world)|].
  split; [|reflexivity]. split; [by apply demo_create_ok|]. split; [reflexivity|by apply Forall_nil].
Qed.
Lemma demo_step w a : match load_payload (st_file (w_store w)) with Ret _ => true | Raise _ => false end = true ->
  act_ok (demo_records (w_store w)) a -> step w (run_act w a).
Proof. intros Hl Ha. exists (demo_records (w_store w)), a. split; [by apply demo_stored|]. split; [exact Ha|reflexivity]. Qed.
Lemma demo_store_ok e tz : (tz = "UTC" \/ tz = "America/New_York")%string ->
  store_ok (demo_records (w_store (demo_created e tz))).
Proof.
  intros Htz. destruct (step_store_ok _ _ (demo_step_create e tz Htz)) as (l & Hs & Hok).
  { exists []. by apply (initial_stored demo_world). }
  rewrite (stored_fun (w_store (demo_created e tz)) _ l); [done| |done]. apply demo_stored.
  by destruct Htz as [-> | ->]; vm_compute.
Qed.
Definition demo_poll : act := APoll (fun _ _ => Some Owner) demo_id (u "claim_1") demo_due.

Lemma schedules_wellformed_witness :
  let w := run_act (run_act (demo_created true "UTC") demo_poll) (AAnswer 0 (Started [(u "run_id", JStr (u "run"))]) demo_due) in
  sr_role <$> w_polled w = [Owner] /\ exists l, stored (w_store w) l /\ store_ok l.
Proof.
  intros w. split; [vm_compute; reflexivity|]. apply (schedules_wellformed demo_world); [repeat split|].
  eapply rtc_l; [apply (demo_step_create true "UTC"); left; reflexivity|].
  eapply rtc_l; [apply (demo_step _ demo_poll); [vm_compute; reflexivity|split; [discriminate|vm_compute; reflexivity]]|].
  eapply rtc_l; [apply (demo_step _ (AAnswer 0 (Started [(u "run_id", JStr (u "run"))]) demo_due)); [vm_compute; reflexivity|exact I]|].
  apply rtc_refl.
Defined.

(** An invite session enables the owner's disabled schedule. *)
Definition demo_enable : UpdateRequest := mkUpdate None (Some true) None None None.
Definition demo_armed : store * outcome exc fields :=
  update (u "7") (u "morning") demo_enable (u "7") (JStr (u "invite")) demo_now demo_now (w_store (demo_created false "UTC")).
Definition ret_or {A} (a : A) (r : outcome exc A) : A := match r with Ret a => a | Raise _ => a end.
Lemma fired_role_bounded_witness :
  let w := run_acts (mkWorld demo_armed.1 [] []) [demo_poll] in
  sr_schedule_id <$> w_polled w = [demo_id] /\
  exists qs, w_polled w = [] ++ qs /\ Forall (fun q => sr_schedule_id q = id_of (ret_or [] demo_armed.2) -> sr_role q = Invite) qs.
Proof.
  intros w. split; [vm_compute; reflexivity|].
  set (s := w_store (demo_created false "UTC")).
  destruct (find_index (fun item => owned_by (u "7") item && named (u "morning") item) (demo_records s)) as [[i item]|] eqn:E;
    [|vm_compute in E; discriminate E].
  apply (proj2 fired_role_bounded s demo_armed.1 (demo_records s) i item (u "7") (u "morning") demo_enable (u "7") demo_now demo_now).
  - apply demo_stored. vm_compute. reflexivity.
  - apply demo_store_ok. left. reflexivity.
  - vm_compute. reflexivity.
  - exact E.
  - vm_compute in E. injection E as <- <-. vm_compute. reflexivity.
  - apply Forall_singleton. split; exact I.
Defined.

Definition demo_claim : store * outcome exc (option fields) :=
  claim_due_record demo_id (u "claim_1") demo_due (w_store (demo_created true "UTC")).
Definition some_or {A} (a : A) (r : outcome exc (option A)) : A := match r with Ret (Some a) => a | _ => a end.
Lemma claim_excludes_polls_witness :
  let w := run_act (mkWorld demo_claim.1 [] []) (AFault [false]) in
  claim_due_record demo_id (u "claim_2") (demo_due + 10 * MINUTE) (w_store w) = (w_store w, Ret None).
Proof.
  intros w. apply (proj1 claim_excludes_polls demo_id (u "claim_1") demo_due (w_store (demo_created true "UTC")) demo_claim.1
    (some_or [] demo_claim.2) [] []).
  - discriminate.
  - vm_compute. reflexivity.
  - vm_compute. reflexivity.
  - apply (undisturbed_step _ _ _ _ (AFault [false])); [|apply undisturbed_refl]. split; [exact I|]. split; [|exact I].
    intros claim [].
  - vm_compute. reflexivity.
Defined.

Definition demo_first (s : store) : fields := match demo_records s with r :: _ => r | [] => [] end.
Definition demo_result (claim : option str) : FireResult := mkFire (Some (u "run")) (u "started") None None claim true.
Lemma claims_can_overlap_witness :
  exists s1 r1 s2 r2,
    record_fire_result demo_id (mkFire (Some (u "now")) (u "started") None None None false) demo_due demo_claim.1 = (s1, Ret (Some r1)) /\
    claim_due_record demo_id (u "claim_2") (demo_due + MINUTE) s1 = (s2, Ret (Some r2)) /\
    get "next_run_at" r2 = get "next_run_at" (demo_first demo_claim.1) /\
    record_fire_result demo_id (demo_result (Some (u "claim_1"))) (demo_due + MINUTE) s2 = (s2, Ret None).
Proof.
  apply (proj1 claims_can_overlap demo_id (u "claim_1") demo_due demo_claim.1 (demo_records demo_claim.1) 0%nat).
  - vm_compute. reflexivity.
  - apply demo_stored. vm_compute. reflexivity.
  - vm_compute. reflexivity.
  - vm_compute. reflexivity.
  - vm_compute. reflexivity.
  - vm_compute. reflexivity.
  - vm_compute. reflexivity.
  - vm_compute. reflexivity.
  - discriminate.
  - discriminate.
  - reflexivity.
Defined.

(** Ten minutes into the repeated hour. *)
Definition demo_second_pass : Z := DEMO_BACK + 10 * MINUTE.
Lemma demo_falls_back : falls_back demo_zone DEMO_BACK (- (4 * HOUR)) (- (5 * HOUR)).
Proof.
  split; [reflexivity|..].
  - intros t Ht. cbn [z_local demo_zone]. rewrite (proj2 (Z.ltb_ge t DEMO_BACK)) by exact Ht. unfold HOUR, MINUTE, SECOND. lia.
  - intros w Hw. cbn [z_offset demo_zone]. rewrite (proj2 (Z.ltb_lt w (DEMO_BACK - 4 * HOUR))); [reflexivity|]. lia.
Qed.
Lemma repeated_hour_fires_again_witness :
  exists s1 r1 s2 r2,
    record_fire_result demo_id (demo_result None) demo_second_pass (w_store (demo_created true "America/New_York")) = (s1, Ret (Some r1)) /\
    claim_due_record demo_id (u "claim_2") demo_second_pass s1 = (s2, Ret (Some r2)).
Proof.
  set (s := w_store (demo_created true "America/New_York")).
  apply (repeated_hour_fires_again demo_id demo_cadence (u "America/New_York") demo_zone DEMO_BACK (- (4 * HOUR)) (- (5 * HOUR)) 1 30
    (combine (mkdate 2024 11 3) 1 30) s (demo_records s) 0%nat (demo_first s) (demo_result None)).
  - vm_compute. reflexivity.
  - apply demo_stored. vm_compute. reflexivity.
  - vm_compute. reflexivity.
  - reflexivity.
  - reflexivity.
  - vm_compute. reflexivity.
  - vm_compute. reflexivity.
  - reflexivity.
  - vm_compute. reflexivity.
  - reflexivity.
  - reflexivity.
  - exact demo_falls_back.
  - vm_compute. discriminate.
  - vm_compute. reflexivity.
  - vm_compute. reflexivity.
  - vm_compute. reflexivity.
  - vm_compute. discriminate.
  - exists (mkdate 2024 11 3). split; [reflexivity|]. split; [exact I|reflexivity].
  - split; vm_compute; reflexivity.
Defined.

Definition demo_bad_owner : file_state :=
  Stored (JDict [(u "version", JInt 1); (u "idempotency", JDict []);
    (u "schedules", JList [JDict [(u "kind", JStr KIND); (u "owner_user_id", JStr (u "Ann"))]])]).
(** A schedule of which the list was lost, and one whose owner is no storage identity. *)
Definition demo_damaged : file_state := Stored (JDict [(u "version", JInt 1); (u "idempotency", JDict []); (u "schedules", JNull)]).
Lemma damaged_stores_untouched_witness :
  let due := w_store (demo_created true "UTC") in
  let fire l := fire_due (fun _ _ => Some Owner) (fun _ => Started []) (fun _ _ => u "claim") demo_due 0 l in
  (exists r, fire [mkStore demo_damaged []; due] = (mkStore demo_damaged [] :: (fire_due (fun _ _ => Some Owner) (fun _ => Started []) (fun _ _ => u "claim") demo_due 1 [due]).1, Ret [r])) /\
  delete_schedule (u "7") (u "morning") (mkStore Broken []) = (mkStore Broken [], Raise StoreUnreadable) /\
  fire [mkStore demo_bad_owner []; due] = ([mkStore demo_bad_owner []; due], Raise Finding).
Proof.
  intros due fire. split; [|split].
  - destruct (proj1 (damaged_stores_untouched (mkStore demo_damaged []))) as (_ & _ & _ & _ & _ & Hfire); [apply dg_schedules; intros l E; vm_compute in E; discriminate E|].
    unfold fire. rewrite Hfire. vm_compute. eexists. reflexivity.
  - destruct (proj1 (damaged_stores_untouched (mkStore Broken []))) as (_ & _ & Hdel & _); [apply dg_broken|]. apply Hdel.
  - apply (proj2 (damaged_stores_untouched (mkStore demo_bad_owner []))).
    exists [(u "version", JInt 1); (u "idempotency", JDict []); (u "schedules", JList [JDict [(u "kind", JStr KIND); (u "owner_user_id", JStr (u "Ann"))]])],
      [[(u "kind", JStr KIND); (u "owner_user_id", JStr (u "Ann"))]], [], [(u "kind", JStr KIND); (u "owner_user_id", JStr (u "Ann"))], Finding.
    split; [reflexivity|]. split; [vm_compute; reflexivity|]. split; [vm_compute; reflexivity|]. split; [constructor|]. split; vm_compute; reflexivity.
Defined.

End ScheduleSafety.
