(* ===== verification/ScheduleRoutes.v ===== *)
(** * The routes of schedules

    [build_schedules_router] of [control_plane/schedules.py] on the stores of all
    users and the operator's backend: what a session may see and change. A session
    is given (bearer tokens are checked elsewhere), a request is validated JSON,
    an answer is the JSON object of the response or the exception. The backend,
    supplied by the application, is a function from the calls made so far and the
    next one to its answer, the calls being part of the state; the validator of
    scopes and the records of the registry of runs after a start are parameters
    (of a record, its view [_autonomous_run_from_task] is given as it is). The last step of the response
    model [BrowserSafeScheduleResponse], which coerces the types of the projected
    fields, is left out. *)
From S2P Require Import Prelude Calendar Schedules ScheduleTimes ScheduleRunner ScheduleSafety.
From Stdlib Require Import ZArith Lia.

Module ScheduleRoutes.
Import Calendar Schedules ScheduleTimes ScheduleRunner ScheduleSafety.
Local Open Scope Z_scope.

(** Calls of the operator's scheduler and jobs API. *)
Inductive op_call :=
| OpList (source : option str)
| OpShow (name : str) (source : option str)
| OpLogs (name : str) (lines : Z)
| OpEnable (name : str)
| OpDisable (name : str)
| OpDelete (name : str)
| OpCreateJob (payload : fields)
| OpUpdateJob (schedule_id : str) (enabled : bool)
| OpDeleteJob (schedule_id : str).

Record Backend := mkBackend { be_answer : list op_call -> op_call -> json; be_label_prefix : str }.
Record Routes := mkRoutes { rt_stores : gmap str store; rt_calls : list op_call }.

(** What the routes read of an [AutonomousTask]: [started_at] in whole seconds, and
    [run], its [AutonomousRunResponse]. *)
Record DispatchedTask := mkAutonomous {
  at_control_run_id : str;
  at_task_id : str;
  at_owner_user_id : json;
  at_log_path : str;
  at_started_at : Z;
  at_cmd : list str;
  at_run : fields
}.
(** [AutonomousDispatchResponse] *)
Record DispatchResponse := mkDispatched {
  dr_run : fields;
  dr_task_id : str;
  dr_run_id : str;
  dr_log_path : str;
  dr_started_at : Z;
  dr_cmd : list str
}.
Definition dispatch_response (t : DispatchedTask) : DispatchResponse :=
  mkDispatched (at_run t) (at_task_id t) (at_control_run_id t) (at_log_path t) (at_started_at t) (at_cmd t).
(** [_record_owner_user_id], [_autonomous_task_for_user] *)
Definition record_owner_user_id (t : DispatchedTask) : str := match at_owner_user_id t with JStr s => py_strip s | _ => [] end.
Definition find_task (tasks : list (str * DispatchedTask)) (control_run_id : str) : option DispatchedTask :=
  match List.find (fun kt => bool_decide (kt.1 = control_run_id)) tasks with
  | Some (_, t) => Some t
  | None => snd <$> List.find (fun kt => bool_decide (at_control_run_id kt.2 = control_run_id)) tasks
  end.
Definition autonomous_task_for_user (tasks : list (str * DispatchedTask)) (control_run_id user_id : str) : outcome exc DispatchedTask :=
  match find_task tasks control_run_id with
  | Some t => if bool_decide (record_owner_user_id t = user_id) then Ret t else Raise (Http 404 (u "Run not found"))
  | None => Raise (Http 404 (u "Run not found"))
  end.

Section routes.
Context `{Python}.
Context (backend : option Backend)
        (scope_validator : option (Session -> fields -> outcome exc (option json)))
        (roster : str -> option str -> option ExactRole)
        (start : option (StartRequest -> start_answer))
        (run_records : str -> list (str * DispatchedTask)).

(** An operation of the store of a user; a store that has no file yet is empty. *)
Definition fresh_store : store := mkStore Missing [].
Definition on_store {A} (owner : str) (m : SE store exc A) : SE Routes exc A := fun w =>
  let '(s, r) := m (default fresh_store (rt_stores w !! owner)) in
  (mkRoutes (<[owner := s]> (rt_stores w)) (rt_calls w), r).
Definition call_backend (b : Backend) (c : op_call) : SE Routes exc json := fun w =>
  (mkRoutes (rt_stores w) (rt_calls w ++ [c]), Ret (be_answer b (rt_calls w) c)).
(** [_require_operator_backend] *)
Definition require_backend : SE Routes exc Backend :=
  match backend with Some b => se_ret b | None => se_raise (Http 503 (u "Operator schedule backend is not configured")) end.

(** [_error_message], [_backend_error_code], [_require_backend_success] *)
Definition error_message (result : fields) (fallback : str) : str :=
  py_str (or_json (or_json (get "message" result) (get "error" result)) (JStr fallback)).
Definition backend_error_code (result : fields) : str := match get "code" result with JStr s => py_strip s | _ => [] end.
Definition require_backend_success (result : json) (action : str) (not_found_status : Z) : outcome exc fields :=
  match result with
  | JDict d =>
    let st := py_lower (str_or_empty (get "status" d)) in
    if bool_decide (st = u "ok") || bool_decide (st = u "success") then Ret d
    else
      let message := error_message d (action ++ u " failed") in
      let code := backend_error_code d in
      if bool_decide (code = u "service_unavailable") then Raise (Http 503 message)
      else Raise (Http (if bool_decide (code = u "not_found") then not_found_status else 400) message)
  | _ => Raise (Http 502 (action ++ u " returned an invalid response"))
  end.
Definition backend_op (b : Backend) (c : op_call) (action : str) (not_found_status : Z) : SE Routes exc fields :=
  let! r := call_backend b c in se_lift (require_backend_success r action not_found_status).

(** [_optional_text], [_as_string_list], [_launchd_name] *)
Definition optional_text (v : json) : json := match v with JNull => JNull | v => JStr (py_str v) end.
Definition as_string_list (v : json) : list str := match v with JList l => py_str <$> l | _ => [] end.
Definition launchd_name (raw : fields) (prefix : str) : str :=
  match get "name" raw with
  | JNull => let label := str_or_empty (get "label" raw) in
             if py_startswith prefix label then drop (length prefix) label else label
  | v => py_str v
  end.
(** [_optional_int]: [int(v)] of a text or float is the host's. *)
Context (int_of : json -> option Z).
Definition optional_int (v : json) : json :=
  match v with
  | JNull | JBool _ => JNull
  | v => match int_of v with Some n => JInt n | None => JNull end
  end.
(** [_normalize_operator_schedule]: the fields of the response model. *)
Definition normalize_operator_schedule (raw : fields) (prefix : str) : outcome exc fields :=
  let source := get "source" raw in
  if is_text source (u "launchd") then
    Ret [(u "name", JStr (launchd_name raw prefix)); (u "enabled", JBool (truthy (get "enabled" raw)));
         (u "schedule_description", JStr (str_or_empty (get "schedule_description" raw)));
         (u "last_run_at", optional_text (get "last_run_at" raw)); (u "next_run_at", optional_text (get "next_run_at" raw));
         (u "source", JStr (u "launchd")); (u "label", JStr (str_or_empty (get "label" raw)));
         (u "command", JList (JStr <$> as_string_list (get "command" raw)));
         (u "working_directory", JStr (str_or_empty (get "working_directory" raw)));
         (u "last_exit_status", optional_int (get "last_exit_status" raw));
         (u "recent_log_lines", JList (JStr <$> as_string_list (get "recent_log_lines" raw)))]
  else if is_text source (u "jobs-mcp") then
    let? params := match or_json (get "params" raw) (JDict []) with JDict d => Ret d | _ => Raise ValueError end in
    Ret [(u "name", JStr (str_or_empty (get "name" raw))); (u "enabled", JBool (truthy (get "enabled" raw)));
         (u "schedule_description", JStr (str_or_empty (get "schedule_description" raw)));
         (u "last_run_at", optional_text (get "last_run_at" raw)); (u "next_run_at", optional_text (get "next_run_at" raw));
         (u "source", JStr (u "jobs-mcp"));
         (u "schedule_id", JStr (str_or_empty (or_json (get "schedule_id" raw) (get "name" raw))));
         (u "job_type", JStr (str_or_empty (get "job_type" raw))); (u "frequency", JStr (str_or_empty (get "frequency" raw)));
         (u "time_of_day", optional_text (get "time_of_day" raw)); (u "day_of_week", optional_int (get "day_of_week" raw));
         (u "day_of_month", optional_int (get "day_of_month" raw));
         (u "params", JDict params)]
  else Raise (Http 400 (u "Unsupported schedule source: " ++ py_repr source)).

Definition WEB_SAFE_SCHEDULE_FIELDS : list string :=
  ["schedule_id"; "id"; "name"; "kind"; "enabled"; "state"; "source"; "profile"; "skill"; "task"; "ticker"; "run_id"; "last_run_id";
   "last_status"; "last_error"; "last_fire_warning"; "schedule_description"; "description"; "cadence_summary"; "timezone";
   "last_exit_status"; "last_run_at"; "next_run_at"; "created_at"; "updated_at"; "owned_by_current_user"; "editable"; "can_edit";
   "can_delete"; "can_enable"; "can_disable"; "can_run_now"; "cadence"; "dispatch"; "dispatch_text_lengths"]%string.
Definition is_null (v : json) : bool := match v with JNull => true | _ => false end.
Definition set_default (k : string) (v : json) (d : fields) : fields :=
  match dict_get (u k) d with Some _ => d | None => put k v d end.
(** [_project_schedule_for_web] *)
Definition project_schedule_for_web (raw : fields) : fields :=
  let projected := filter (fun kv => bool_decide (kv.1 ∈ u <$> WEB_SAFE_SCHEDULE_FIELDS) && negb (is_null kv.2) = true) raw in
  let source := get "source" raw in
  if is_text source (u "launchd") || is_text source (u "jobs-mcp")
  then dict_update (put "source" source (set_default "kind" (JStr (u "operator_schedule")) projected))
         [(u "owned_by_current_user", JBool false); (u "editable", JBool false); (u "can_edit", JBool false); (u "can_delete", JBool false);
          (u "can_enable", JBool false); (u "can_disable", JBool false); (u "can_run_now", JBool false)]
  else projected.
(** ... and [_require_schedule_identity] *)
Definition has_identity (d : fields) : bool :=
  existsb (fun k => match get k d with JStr s => negb (blank s) | _ => false end) ["schedule_id"; "id"; "name"]%string.
Definition project (raw : fields) : outcome exc fields :=
  let d := project_schedule_for_web raw in if has_identity d then Ret d else Raise ValueError.

(** ** Who may see the operator's schedules *)
Definition is_web_session (ses : Session) : bool :=
  match normalize_channel (ss_channel ses) with Some c => bool_decide (c = u "web") | None => false end.
(** [_can_access_operator_schedules] *)
Definition can_access_operator_schedules (ses : Session) : outcome exc bool :=
  if bool_decide (ss_kind ses = u "control")
  then let? r := exact_role (ss_role ses) in Ret (match r with Owner => true | Invite => false end)
  else Ret false.
Definition operator_not_found (name : str) : exc :=
  Http 404 (u "Schedule not found: " ++ name ++ u ". GET /control/schedules lists the schedules this session can manage.").
Definition require_operator (ses : Session) (name : str) : SE Routes exc unit :=
  let! ok := se_lift (can_access_operator_schedules ses) in
  if ok then se_ret tt else se_raise (operator_not_found name).
Definition for_session (ses : Session) (d : fields) : outcome exc fields := if is_web_session ses then project d else Ret d.

(** [_show_schedule], [_show_jobs_schedule], [_list_schedules] *)
Definition show_schedule (name : str) (source : option str) : SE Routes exc fields :=
  match backend with
  | None => se_raise (Http 404 (u "Schedule not found: " ++ name))
  | Some b =>
    let! d := backend_op b (OpShow name source) (u "schedule_show") 404 in
    se_lift (normalize_operator_schedule d (be_label_prefix b))
  end.
Definition is_launchd (d : fields) : bool := is_text (get "source" d) (u "launchd").
Definition show_jobs_schedule (name : str) : SE Routes exc fields :=
  let! d := show_schedule name (Some (u "jobs-mcp")) in
  if is_launchd d then se_raise (Http 400 (u "Schedule is not a jobs-mcp schedule: " ++ name)) else se_ret d.
Fixpoint normalize_all (prefix : str) (l : list json) : outcome exc (list fields) :=
  match l with
  | [] => Ret []
  | JDict d :: l => let? x := normalize_operator_schedule d prefix in let? xs := normalize_all prefix l in Ret (x :: xs)
  | _ :: l => normalize_all prefix l
  end.
Definition list_operator (source : option str) : SE Routes exc (list fields) :=
  match backend with
  | None => se_ret []
  | Some b =>
    let! d := backend_op b (OpList source) (u "schedule_list") 400 in
    match get "schedules" d with
    | JList l => se_lift (normalize_all (be_label_prefix b) l)
    | (JBool _ | JInt _ | JFloat _ _) as v => if truthy v then se_raise ValueError else se_ret []
    | _ => se_ret []
    end
  end.

(** ** Handlers *)
Definition owner_of_session (ses : Session) : SE Routes exc str := se_lift (session_owner_user_id ses).
(** [list_schedules] *)
Definition list_schedules (ses : Session) (source : option str) : SE Routes exc (list fields) :=
  let! ok := se_lift (can_access_operator_schedules ses) in
  let! ops := if ok : bool then list_operator source else se_ret [] in
  let! own := match source with
              | None => let! owner := owner_of_session ses in
                        let! rs := on_store owner (list_for_owner owner) in se_lift (omap_list project rs)
              | Some _ => se_ret []
              end in
  se_lift (omap_list (for_session ses) (ops ++ own)).
(** [get_schedule] *)
Definition get_schedule (ses : Session) (name : str) : SE Routes exc fields :=
  let! owner := owner_of_session ses in
  let! own := on_store owner (get_for_owner owner name) in
  match own with
  | Some r => se_lift (project r)
  | None =>
    let! _ := require_operator ses name in
    let! d := show_schedule name None in se_lift (for_session ses d)
  end.
(** [get_schedule_logs] *)
Definition get_schedule_logs (ses : Session) (name : str) (lines : Z) : SE Routes exc (list str) :=
  let! _ := require_operator ses name in
  let! b := require_backend in
  let! d := backend_op b (OpLogs name lines) (u "schedule_logs") 404 in
  se_ret (as_string_list (get "lines" d)).
(** [_validated_agent_schedule_dispatch] *)
Definition validated_dispatch (ses : Session) (d : Dispatch) : outcome exc Dispatch :=
  match d_scope d, scope_validator with
  | Some scope, Some validate =>
    let? v := validate ses scope in
    match v with
    | None => Ret d
    | Some v => let? scope := validate_scope v in
                Ret (mkDispatch (d_profile d) (d_mode d) (d_skill d) (d_ticker d) (d_task d) (d_context d) (Some scope))
    end
  | _, _ => Ret d
  end.
Definition with_dispatch (p : CreateRequest) (d : Dispatch) : CreateRequest :=
  mkCreate (cr_name p) (cr_enabled p) (cr_timezone p) (cr_cadence p) d (cr_request_id p)
    (match cr_body p with JDict b => JDict (dict_put (u "dispatch") (JDict (dump_dispatch d)) b) | v => v end).
(** [create_schedule] for an agent-run schedule and for a job *)
Definition create_agent_schedule (ses : Session) (p : CreateRequest) (token : str) (now : Z) : SE Routes exc fields :=
  let! d := se_lift (validated_dispatch ses (cr_dispatch p)) in
  let! owner := owner_of_session ses in
  let! r := on_store owner (create (with_dispatch p d) ses token now) in
  se_lift (project r).
Definition create_job_schedule (ses : Session) (name : str) (payload : fields) : SE Routes exc fields :=
  let! _ := require_operator ses name in
  let! b := require_backend in
  let! _ := backend_op b (OpCreateJob payload) (u "jobs-mcp create_schedule") 400 in
  let! d := show_jobs_schedule name in se_lift (for_session ses d).
(** [update_agent_run_schedule] *)
Definition update_agent_run_schedule (ses : Session) (name : str) (p : UpdateRequest) (now now' : Z) : SE Routes exc fields :=
  let! owner := owner_of_session ses in
  let! existing := on_store owner (get_for_owner owner name) in
  match existing with
  | None => se_raise NOT_FOUND
  | Some _ =>
    let! p := match up_dispatch p with
              | None => se_ret p
              | Some d => let! d := se_lift (validated_dispatch ses d) in
                          se_ret (mkUpdate (up_name p) (up_enabled p) (up_timezone p) (up_cadence p) (Some d))
              end in
    let! role := se_lift (exact_role (ss_role ses)) in
    let! r := on_store owner (update owner name p owner (JStr (role_text role)) now now') in
    se_lift (project r)
  end.
(** [run_agent_run_schedule_now] *)
Definition run_agent_run_schedule_now (ses : Session) (name : str) (now : Z) : SE Routes exc DispatchResponse :=
  let! owner := owner_of_session ses in
  let! record := on_store owner (get_for_owner owner name) in
  match record, start with
  | None, _ => se_raise NOT_FOUND
  | Some _, None => se_raise (Http 503 (u "Agent schedule runner unavailable"))
  | Some r, Some answer =>
    let! role := se_lift (exact_role (ss_role ses)) in
    let! result := on_store (str_or_empty (get "owner_user_id" r)) (fire_record_now roster answer r (JStr (role_text role)) now) in
    match result with
    | None => se_raise (Http 409 (u "Schedule run-now did not start"))
    | Some (rp, _) =>
      if bool_decide (rp_status rp = u "started") then
        let run_id := default [] (rp_run_id rp) in
        let! task := se_lift (autonomous_task_for_user (run_records run_id) run_id owner) in
        se_ret (dispatch_response task)
      else se_raise (Http (default 409 (rp_error_status rp))
             (match rp_error rp with Some ((_ :: _) as e) => e | _ => u "Schedule run-now failed" end))
    end
  end.
(** [set_schedule_enabled] *)
Definition set_schedule_enabled (ses : Session) (name : str) (enabled : bool) (now now' : Z) : SE Routes exc fields :=
  let! owner := owner_of_session ses in
  let! own := on_store owner (get_for_owner owner name) in
  match own with
  | Some _ =>
    let! role := se_lift (exact_role (ss_role ses)) in
    let! r := on_store owner (set_enabled owner name enabled owner (JStr (role_text role)) now now') in
    se_lift (project r)
  | None =>
    let! _ := require_operator ses name in
    let! d := show_schedule name None in
    let! b := require_backend in
    if is_launchd d then
      let! _ := backend_op b (if enabled then OpEnable name else OpDisable name)
                  (if enabled then u "schedule_enable" else u "schedule_disable") 400 in
      let! d := show_schedule name (Some (u "launchd")) in se_lift (for_session ses d)
    else
      let! _ := backend_op b (OpUpdateJob (str_or_empty (get "schedule_id" d)) enabled) (u "jobs-mcp update_schedule") 404 in
      let! d := show_jobs_schedule name in se_lift (for_session ses d)
  end.
(** [delete_schedule]: the name and the source of what was deleted *)
Definition delete_route (ses : Session) (name : str) : SE Routes exc (str * str) :=
  let! owner := owner_of_session ses in
  let! own := on_store owner (get_for_owner owner name) in
  match own with
  | Some _ =>
    let! r := on_store owner (delete_schedule owner name) in
    se_ret (py_str (or_json (get "name" r) (JStr name)), BACKEND)
  | None =>
    let! _ := require_operator ses name in
    let! d := show_schedule name None in
    let! b := require_backend in
    if is_launchd d then
      let! _ := backend_op b (OpDelete name) (u "schedule_delete") 404 in
      se_ret (str_or_empty (get "name" d), u "launchd")
    else
      let! _ := backend_op b (OpDeleteJob (str_or_empty (get "schedule_id" d))) (u "jobs-mcp delete_schedule") 404 in
      se_ret (str_or_empty (get "name" d), u "jobs-mcp")
  end.

(** ** What a session can reach *)
Inductive route :=
| RList (source : option str)
| RGet (name : str)
| RLogs (name : str) (lines : Z)
| RCreate (p : CreateRequest) (token : str) (now : Z)
| RCreateJob (name : str) (payload : fields)
| RUpdate (name : str) (p : UpdateRequest) (now now' : Z)
| RRunNow (name : str) (now : Z)
| REnabled (name : str) (enabled : bool) (now now' : Z)
| RDelete (name : str).
Inductive response := Shown (schedules : list fields) | Logs (lines : list str) | StartedRun (run : DispatchResponse) | Deleted (name source : str).
Definition one (m : SE Routes exc fields) : SE Routes exc response := let! d := m in se_ret (Shown [d]).
Definition serve (ses : Session) (r : route) : SE Routes exc response :=
  match r with
  | RList source => let! l := list_schedules ses source in se_ret (Shown l)
  | RGet name => one (get_schedule ses name)
  | RLogs name lines => let! l := get_schedule_logs ses name lines in se_ret (Logs l)
  | RCreate p token now => one (create_agent_schedule ses p token now)
  | RCreateJob name payload => one (create_job_schedule ses name payload)
  | RUpdate name p now now' => one (update_agent_run_schedule ses name p now now')
  | RRunNow name now => let! run := run_agent_run_schedule_now ses name now in se_ret (StartedRun run)
  | REnabled name e now now' => one (set_schedule_enabled ses name e now now')
  | RDelete name => let! p := delete_route ses name in se_ret (Deleted p.1 p.2)
  end.

(** A computation that changes only the store of [o], calls the backend only if
    [ops], and returns what satisfies [P]. *)
Definition confined {A} (o : str) (ops : bool) (P : A -> Prop) (m : SE Routes exc A) : Prop :=
  forall w w' r, m w = (w', r) ->
    (forall o', o' <> o -> rt_stores w' !! o' = rt_stores w !! o') /\ (ops = false -> rt_calls w' = rt_calls w) /\
    match r with Ret a => P a | Raise _ => True end.
Section confinement.
Context {A B : Type} (o : str) (ops : bool).
Implicit Types (P : A -> Prop) (Q : B -> Prop).
Lemma confined_ret P a : P a -> confined o ops P (se_ret a).
Proof. intros HP w w' r [= <- <-]. auto. Qed.
Lemma confined_raise P e : confined o ops P (se_raise e).
Proof. intros w w' r [= <- <-]. auto. Qed.
Lemma confined_lift P x : (forall a, x = Ret a -> P a) -> confined o ops P (se_lift x).
Proof. intros HP w w' r [= <- <-]. destruct x; auto. Qed.
Lemma confined_bind P Q (m : SE Routes exc A) (k : A -> SE Routes exc B) :
  confined o ops P m -> (forall a, P a -> confined o ops Q (k a)) -> confined o ops Q (se_bind m k).
Proof.
  intros Hm Hk w w' r [(a & w1 & E1 & E2)|(e & E1 & ->)]%se_bind_inv.
  - apply Hm in E1 as (S1 & C1 & HP). apply (Hk a HP) in E2 as (S2 & C2 & HQ). split; [|split; [|done]].
    + intros o' Ho. by rewrite S2, S1.
    + intros Hops. by rewrite C2, C1.
  - by apply Hm in E1.
Qed.
Lemma confined_store P (m : SE store exc A) : (forall s s' a, m s = (s', Ret a) -> P a) -> confined o ops P (on_store o m).
Proof.
  intros HP w w' r. unfold on_store. destruct (m _) as [s x] eqn:E. intros [= <- <-]. cbn [rt_stores rt_calls]. split; [|split; [done|]].
  - intros o' Ho. by rewrite lookup_insert_ne by done.
  - destruct x; [by eapply HP|done].
Qed.
End confinement.
Lemma confined_weaken {A} o ops (P P' : A -> Prop) m : confined o ops P m -> (forall a, P a -> P' a) -> confined o ops P' m.
Proof. intros Hm HP w w' r E. apply Hm in E as (? & ? & Hr). repeat split; try done. destruct r; auto. Qed.
Lemma confined_op o b c a n (P : fields -> Prop) : (forall d, P d) -> confined o true P (backend_op b c a n).
Proof.
  intros HP w w' r. unfold backend_op, se_bind, call_backend, se_lift. intros [= <- <-]. repeat split; try done.
  destruct (require_backend_success _ _ _); auto.
Qed.
Lemma get_for_owner_owned owner name s s' r : get_for_owner owner name s = (s', Ret (Some r)) -> owned_by owner r = true.
Proof.
  unfold get_for_owner. case_bool_decide; [done|]. intros E. se_run. injection E as _ E. apply List.find_some in E as [E _].
  unfold list_for_owner in *. se_run. apply list_elem_of_In, list_elem_of_filter in E. by destruct E.
Qed.

Definition web_safe (d : fields) : Prop := forall kv, kv ∈ d -> kv.1 ∈ u <$> WEB_SAFE_SCHEDULE_FIELDS.
Lemma web_safe_put k v d : k ∈ WEB_SAFE_SCHEDULE_FIELDS -> web_safe d -> web_safe (put k v d).
Proof.
  intros Hk Hd. unfold put. induction d as [|[k' v'] d IH]; cbn [dict_put].
  - intros kv ->%list_elem_of_singleton. cbn [fst]. by apply list_elem_of_fmap_2.
  - destruct (decide (u k = k')) as [E|].
    + intros kv [->|Hkv]%elem_of_cons; [apply (Hd (k', v')); by left|]. apply Hd. by right.
    + intros kv [->|Hkv]%elem_of_cons; [apply Hd; by left|]. apply IH; [|done]. intros x Hx. apply Hd. by right.
Qed.
Lemma web_safe_project d d' : project d = Ret d' -> web_safe d'.
Proof.
  unfold project. cbv zeta. destruct (has_identity _); [|done]. intros [= <-]. unfold project_schedule_for_web. cbv zeta.
  set (p := filter _ d). assert (web_safe p) as Hp.
  { intros kv Hkv. apply list_elem_of_filter in Hkv as [E _]. apply andb_true_iff in E as [E _]. by apply bool_decide_eq_true in E. }
  destruct (_ || _); [|done]. unfold dict_update. cbn [foldl fst snd]. do 8 (apply web_safe_put; [by_fields|]).
  unfold set_default. destruct (dict_get _ _); [done|]. apply web_safe_put; [by_fields|done].
Qed.

(** A session that may reach the operator's schedules. *)
Definition operator_session (ses : Session) : bool :=
  match can_access_operator_schedules ses with Ret true => true | _ => false end.
(** What a session is shown: everything to an operator's session that is not a
    browser's, the safe fields to any other. *)
Definition shown_ok (ses : Session) (d : fields) : Prop :=
  operator_session ses = false \/ is_web_session ses = true -> web_safe d.
(** A run of the session's user, as its record says. *)
Definition own_run (ses : Session) (d : DispatchResponse) : Prop :=
  exists run_id t, t ∈ (run_records run_id).*2 /\ record_owner_user_id t = ss_owner ses /\ d = dispatch_response t.
Definition response_ok (ses : Session) (r : response) : Prop :=
  match r with
  | Shown l => Forall (shown_ok ses) l
  | Logs _ => operator_session ses = true
  | StartedRun d => own_run ses d
  | Deleted _ _ => True
  end.
Lemma find_task_in tasks id t : find_task tasks id = Some t -> t ∈ tasks.*2.
Proof.
  unfold find_task. destruct (List.find _ tasks) as [[k x]|] eqn:E; [|clear E; destruct (List.find _ tasks) as [[k x]|] eqn:E; [|done]];
    intros [= <-]; apply List.find_some in E as [E _]; apply list_elem_of_In in E; by apply (list_elem_of_fmap_2 snd) in E.
Qed.

Section serving.
Context (ses : Session).
Let o := ss_owner ses.
Let ops := operator_session ses.
Abbreviation conf P m := (confined o ops P m).

Lemma confined_owner : conf (fun x => x = o) (owner_of_session ses).
Proof. apply confined_lift. unfold session_owner_user_id. intros a. case_bool_decide; [done|]. by intros [= <-]. Qed.
Lemma confined_require name : conf (fun _ => ops = true) (require_operator ses name).
Proof.
  unfold require_operator. apply (confined_bind o ops (fun ok => ok = ops)).
  - apply confined_lift. intros a E. unfold ops, operator_session. rewrite E. by destruct a.
  - intros a ->. destruct ops eqn:E; [by apply confined_ret|apply confined_raise].
Qed.
Lemma confined_lift_any {A} (x : outcome exc A) : conf (fun _ => True) (se_lift x).
Proof. by apply confined_lift. Qed.
Lemma confined_project d : conf (shown_ok ses) (se_lift (project d)).
Proof. apply confined_lift. intros a E _. by eapply web_safe_project. Qed.
Lemma confined_for_session d : ops = true -> conf (shown_ok ses) (se_lift (for_session ses d)).
Proof.
  intros Hops. apply confined_lift. unfold for_session. intros a E [Hn|Hw]; [unfold ops in Hops; congruence|].
  rewrite Hw in E. by eapply web_safe_project.
Qed.
Lemma confined_own_get name : conf (fun r => forall x, r = Some x -> owned_by o x = true) (on_store o (get_for_owner o name)).
Proof. apply confined_store. intros s s' a E x ->. by eapply get_for_owner_owned. Qed.
Lemma confined_store_any {A} (m : SE store exc A) : conf (fun _ => True) (on_store o m).
Proof. by apply confined_store. Qed.

(** The backend, for a session that may reach it. *)
Lemma confined_backend_op b c a n : ops = true -> conf (fun _ => True) (backend_op b c a n).
Proof. intros ->. by apply confined_op. Qed.
Lemma confined_require_backend : conf (fun _ => True) require_backend.
Proof. unfold require_backend. destruct backend; [by apply confined_ret|apply confined_raise]. Qed.
Lemma confined_show name source : ops = true -> conf (fun _ => True) (show_schedule name source).
Proof.
  intros Hops. unfold show_schedule. destruct backend; [|apply confined_raise].
  eapply confined_bind; [by apply confined_backend_op|]. intros d _. apply confined_lift_any.
Qed.
Lemma confined_show_jobs name : ops = true -> conf (fun _ => True) (show_jobs_schedule name).
Proof.
  intros Hops. unfold show_jobs_schedule. eapply confined_bind; [by apply confined_show|]. intros d _.
  destruct (is_launchd d); [apply confined_raise|by apply confined_ret].
Qed.
Lemma confined_list_operator source : ops = true -> conf (fun _ => True) (list_operator source).
Proof.
  intros Hops. unfold list_operator. destruct backend; [|by apply confined_ret].
  eapply confined_bind; [by apply confined_backend_op|]. intros d _. destruct (get "schedules" d); try (by apply confined_ret);
    try apply confined_lift_any; destruct (truthy _); first [apply confined_raise|by apply confined_ret].
Qed.

Lemma omap_project l l' : omap_list project l = Ret l' -> Forall web_safe l'.
Proof.
  revert l'. induction l as [|x l IH]; intros l'; cbn; [by intros [= <-]|].
  intros (y & Hy%web_safe_project & (ys & Hys%IH & [= <-])%obind_ret_inv)%obind_ret_inv. by constructor.
Qed.
Lemma omap_for_session l l' : omap_list (for_session ses) l = Ret l' ->
  (is_web_session ses = true \/ Forall web_safe l) -> Forall web_safe l'.
Proof.
  revert l'. induction l as [|x l IH]; intros l'; cbn; [by intros [= <-]|].
  intros (y & Hy & (ys & Hys & [= <-])%obind_ret_inv)%obind_ret_inv Hw. apply Forall_cons. split.
  - unfold for_session in Hy. destruct (is_web_session ses) eqn:E; [by eapply web_safe_project|]. injection Hy as <-.
    destruct Hw as [|Hw]; [done|]. by apply Forall_cons in Hw as [? _].
  - apply (IH ys Hys). destruct Hw as [|Hw]; [by left|]. right. by apply Forall_cons in Hw as [_ ?].
Qed.

Lemma confined_list source : conf (Forall (shown_ok ses)) (list_schedules ses source).
Proof.
  unfold list_schedules. apply (confined_bind o ops (fun ok => ok = ops)).
  { apply confined_lift. intros a E. unfold ops, operator_session. rewrite E. by destruct a. }
  intros ok ->. apply (confined_bind o ops (fun l => ops = false -> l = [])).
  { destruct ops eqn:E; [|by apply confined_ret]. rewrite <- E. apply (confined_weaken _ _ (fun _ => True)); [by apply confined_list_operator|].
    intros a _ E'. congruence. }
  intros ol Hol. apply (confined_bind o ops (Forall web_safe)).
  { destruct source; [apply confined_ret; by apply Forall_nil|]. eapply confined_bind; [apply confined_owner|]. intros a ->.
    eapply confined_bind; [apply confined_store_any|]. intros rs _. apply confined_lift. intros l. apply omap_project. }
  intros own Hown. apply confined_lift. intros l E. apply Forall_forall. intros d Hd Hsafe.
  assert (Forall web_safe l) as Hl; [|rewrite Forall_forall in Hl; by apply Hl].
  apply (omap_for_session _ _ E). destruct Hsafe as [Hn|]; [right|by left]. by rewrite Hol.
Qed.
Lemma confined_get name : conf (shown_ok ses) (get_schedule ses name).
Proof.
  unfold get_schedule. eapply confined_bind; [apply confined_owner|]. intros a ->. eapply confined_bind; [apply confined_own_get|].
  intros [r|] _; [apply confined_project|]. eapply confined_bind; [apply confined_require|]. intros [] Hops.
  eapply confined_bind; [by apply confined_show|]. intros d _. by apply confined_for_session.
Qed.
Lemma confined_logs name lines : conf (fun _ => ops = true) (get_schedule_logs ses name lines).
Proof.
  unfold get_schedule_logs. eapply confined_bind; [apply confined_require|]. intros [] Hops. eapply confined_bind; [apply confined_require_backend|].
  intros b _. eapply confined_bind; [by apply confined_backend_op|]. intros d _. by apply confined_ret.
Qed.
Lemma confined_create p token now : conf (shown_ok ses) (create_agent_schedule ses p token now).
Proof.
  unfold create_agent_schedule. eapply confined_bind; [apply confined_lift_any|]. intros d _. eapply confined_bind; [apply confined_owner|].
  intros a ->. eapply confined_bind; [apply confined_store_any|]. intros r _. apply confined_project.
Qed.
Lemma confined_create_job name payload : conf (shown_ok ses) (create_job_schedule ses name payload).
Proof.
  unfold create_job_schedule. eapply confined_bind; [apply confined_require|]. intros [] Hops. eapply confined_bind; [apply confined_require_backend|].
  intros b _. eapply confined_bind; [by apply confined_backend_op|]. intros ? _. eapply confined_bind; [by apply confined_show_jobs|].
  intros d _. by apply confined_for_session.
Qed.
Lemma confined_update name p now now' : conf (shown_ok ses) (update_agent_run_schedule ses name p now now').
Proof.
  unfold update_agent_run_schedule. eapply confined_bind; [apply confined_owner|]. intros a ->. eapply confined_bind; [apply confined_own_get|].
  intros [r|] _; [|apply confined_raise]. apply (confined_bind o ops (fun _ => True)).
  { destruct (up_dispatch p); [|by apply confined_ret]. eapply confined_bind; [apply confined_lift_any|]. intros ? _. by apply confined_ret. }
  intros p' _. eapply confined_bind; [apply confined_lift_any|]. intros role _. eapply confined_bind; [apply confined_store_any|].
  intros r' _. apply confined_project.
Qed.
Lemma confined_run_now name now : conf (own_run ses) (run_agent_run_schedule_now ses name now).
Proof.
  unfold run_agent_run_schedule_now. eapply confined_bind; [apply confined_owner|]. intros a ->. eapply confined_bind; [apply confined_own_get|].
  intros [r|] Hr; [|apply confined_raise]. destruct start as [answer|]; [|apply confined_raise].
  eapply confined_bind; [apply confined_lift_any|]. intros role _.
  apply (confined_bind o ops (fun _ => True)).
  { destruct (decide (o = [])) as [E|Hne].
    - (* the session has no owner: it was refused before *)
      assert (str_or_empty (get "owner_user_id" r) = o) as ->; [|apply confined_store_any].
      specialize (Hr r eq_refl). unfold owned_by, is_text in Hr. destruct (get "owner_user_id" r); try done.
      apply bool_decide_eq_true in Hr as ->. rewrite E. done.
    - assert (str_or_empty (get "owner_user_id" r) = o) as ->; [|apply confined_store_any].
      by apply owned_owner; [apply Hr|]. }
  intros [[rp q]|] _; [|apply confined_raise]. case_bool_decide; [|apply confined_raise]. cbv zeta. set (id := default [] (rp_run_id rp)).
  apply (confined_bind o ops (fun t => own_run ses (dispatch_response t))); [|intros t Ht; by apply confined_ret].
  apply confined_lift. unfold autonomous_task_for_user. intros t. destruct (find_task (run_records id) id) as [x|] eqn:Ef; [|done].
  case_bool_decide as Ho; [|done]. intros [= <-]. exists id, x. split; [by eapply find_task_in|done].
Qed.
Lemma confined_enabled name e now now' : conf (shown_ok ses) (set_schedule_enabled ses name e now now').
Proof.
  unfold set_schedule_enabled. eapply confined_bind; [apply confined_owner|]. intros a ->. eapply confined_bind; [apply confined_own_get|].
  intros [r|] _.
  { eapply confined_bind; [apply confined_lift_any|]. intros role _. eapply confined_bind; [apply confined_store_any|]. intros r' _. apply confined_project. }
  eapply confined_bind; [apply confined_require|]. intros [] Hops. eapply confined_bind; [by apply confined_show|]. intros d _.
  eapply confined_bind; [apply confined_require_backend|]. intros b _.
  destruct (is_launchd d); (eapply confined_bind; [by apply confined_backend_op|]; intros ? _).
  - eapply confined_bind; [by apply confined_show|]. intros d' _. by apply confined_for_session.
  - eapply confined_bind; [by apply confined_show_jobs|]. intros d' _. by apply confined_for_session.
Qed.
Lemma confined_delete name : conf (fun _ => True) (delete_route ses name).
Proof.
  unfold delete_route. eapply confined_bind; [apply confined_owner|]. intros a ->. eapply confined_bind; [apply confined_own_get|].
  intros [r|] _.
  { eapply confined_bind; [apply confined_store_any|]. intros r' _. by apply confined_ret. }
  eapply confined_bind; [apply confined_require|]. intros [] Hops. eapply confined_bind; [by apply confined_show|]. intros d _.
  eapply confined_bind; [apply confined_require_backend|]. intros b _.
  destruct (is_launchd d); (eapply confined_bind; [by apply confined_backend_op|]; intros ? _); by apply confined_ret.
Qed.
Lemma confined_one m : conf (shown_ok ses) m -> conf (response_ok ses) (one m).
Proof. intros Hm. eapply confined_bind; [exact Hm|]. intros d Hd. apply confined_ret. cbn [response_ok]. by apply Forall_singleton. Qed.
Lemma confined_serve r : conf (response_ok ses) (serve ses r).
Proof.
  destruct r; cbn [serve].
  - eapply confined_bind; [apply confined_list|]. intros l Hl. by apply confined_ret.
  - apply confined_one, confined_get.
  - eapply confined_bind; [apply confined_logs|]. intros l Hl. by apply confined_ret.
  - apply confined_one, confined_create.
  - apply confined_one, confined_create_job.
  - apply confined_one, confined_update.
  - eapply confined_bind; [apply confined_run_now|]. intros l Hl. by apply confined_ret.
  - apply confined_one, confined_enabled.
  - eapply confined_bind; [apply confined_delete|]. intros l _. by apply confined_ret.
Qed.
End serving.

(** C21: Whatever a session asks of the schedule routes, only the store of its own
    user changes; the operator's backend is called, and its logs are shown, only for
    a control session with the owner's role; whoever else asks, or asks from a
    browser, is shown of schedules only the fields of the browser-safe list, never
    owners, roles, e-mail addresses, claims or commands. A run started now is
    answered with the dispatch response of a run of the session's own user: with
    its command, its log path and its view, to any session, a browser's included. *)
Theorem schedule_routes_confined ses r w w' x : serve ses r w = (w', x) ->
  (forall o, o <> ss_owner ses -> rt_stores w' !! o = rt_stores w !! o) /\
  (rt_calls w' <> rt_calls w -> ss_kind ses = u "control" /\ ss_role ses = JStr (u "owner")) /\
  (forall l d kv, x = Ret (Shown l) -> d ∈ l -> kv ∈ d ->
     (ss_kind ses = u "control" /\ ss_role ses = JStr (u "owner") /\ is_web_session ses = false) \/
     kv.1 ∈ u <$> WEB_SAFE_SCHEDULE_FIELDS) /\
  (forall l, x = Ret (Logs l) -> ss_kind ses = u "control" /\ ss_role ses = JStr (u "owner")) /\
  (forall d, x = Ret (StartedRun d) -> exists run_id t,
     t ∈ (run_records run_id).*2 /\ record_owner_user_id t = ss_owner ses /\ d = dispatch_response t).
Proof.
  intros E. apply confined_serve in E as (Hst & Hcalls & Hx).
  assert (operator_session ses = true -> ss_kind ses = u "control" /\ ss_role ses = JStr (u "owner")) as Hop.
  { unfold operator_session, can_access_operator_schedules. case_bool_decide; [|done].
    destruct (exact_role (ss_role ses)) as [r0|] eqn:Er; [|done]. apply exact_role_is in Er. destruct r0; [done|by cbn [obind]]. }
  split; [done|]. split; [|split; [|split]].
  - intros Hne. apply Hop. destruct (operator_session ses); [done|]. by destruct Hne; apply Hcalls.
  - intros l d kv -> Hd Hkv. cbn [response_ok] in Hx. rewrite Forall_forall in Hx. specialize (Hx d Hd). unfold shown_ok, web_safe in Hx.
    destruct (operator_session ses) eqn:Eo, (is_web_session ses) eqn:Ew; [by right; apply Hx; auto| |by right; apply Hx; auto..].
    left. by destruct (Hop eq_refl).
  - intros l ->. by apply Hop.
  - by intros d ->.
Qed.
End routes.

#[local] Existing Instance demo_python.
Definition demo_backend : Backend :=
  mkBackend (fun _ _ => JDict [(u "status", JStr (u "ok")); (u "schedules", JList [JDict [(u "source", JStr (u "launchd")); (u "name", JStr (u "nightly"));
    (u "command", JList [JStr (u "secret")])]])]) [].
Definition demo_routes : Routes := mkRoutes {[ u "7" := w_store (demo_created true "UTC") ]} [].
Definition demo_task : DispatchedTask :=
  mkAutonomous (u "run_1") (u "task_1") (JStr (u "7")) (u "/logs/task_1.log") 1730548800 [u "python"; u "-m"; u "runner"] [].
Definition demo_serve (role : string) (r : route) : Routes * outcome exc response :=
  serve (Some demo_backend) None (fun _ _ => None) (Some (fun _ => Started [(u "run_id", JStr (u "run_1"))])) (fun _ => [(u "task_1", demo_task)])
    (fun _ => None) (demo_session role) r demo_routes.
Lemma schedule_routes_confined_witness :
  length (rt_calls (demo_serve "owner" (RList None)).1) = 1%nat /\ rt_calls (demo_serve "invite" (RList None)).1 = [] /\
  (exists d, (demo_serve "invite" (RList None)).2 = Ret (Shown [d]) /\ forall kv, kv ∈ d -> kv.1 ∈ u <$> WEB_SAFE_SCHEDULE_FIELDS) /\
  exists d, (demo_serve "invite" (RRunNow (u "morning") demo_now)).2 = Ret (StartedRun d) /\ dr_cmd d = [u "python"; u "-m"; u "runner"].
Proof.
  split; [vm_compute; reflexivity|]. split; [vm_compute; reflexivity|]. split.
  - destruct (demo_serve "invite" (RList None)).2 as [[[|d [|]]| | |]|] eqn:E; try (vm_compute in E; discriminate E).
    exists d. split; [reflexivity|]. intros kv Hkv.
    destruct (schedule_routes_confined (Some demo_backend) None (fun _ _ => None) (Some (fun _ => Started [(u "run_id", JStr (u "run_1"))]))
      (fun _ => [(u "task_1", demo_task)]) (fun _ => None) (demo_session "invite") (RList None) demo_routes
      (demo_serve "invite" (RList None)).1 (demo_serve "invite" (RList None)).2 (surjective_pairing _)) as (_ & _ & Hshown & _).
    destruct (Hshown [d] d kv) as [(_ & Hr & _)|Hk]; [exact E|by left|exact Hkv|discriminate Hr|exact Hk].
  - destruct (demo_serve "invite" (RRunNow (u "morning") demo_now)).2 as [[| |d|]|] eqn:E; try (vm_compute in E; discriminate E).
    exists d. split; [reflexivity|].
    destruct (schedule_routes_confined (Some demo_backend) None (fun _ _ => None) (Some (fun _ => Started [(u "run_id", JStr (u "run_1"))]))
      (fun _ => [(u "task_1", demo_task)]) (fun _ => None) (demo_session "invite") (RRunNow (u "morning") demo_now) demo_routes
      (demo_serve "invite" (RRunNow (u "morning") demo_now)).1 (demo_serve "invite" (RRunNow (u "morning") demo_now)).2 (surjective_pairing _)) as (_ & _ & _ & _ & Hrun).
    destruct (Hrun d E) as (run_id & t & Ht & _ & ->). apply list_elem_of_singleton in Ht as ->. reflexivity.
Defined.

End ScheduleRoutes.
